(* ===== verification/_CoqProject ===== *)
-Q . S2P
Prelude.v
RustStr.v
F64.v
F64Exact.v
Config.v
Enums.v
Types.v
HttpTypes.v
Header.v
Range.v
Vary.v
Rfc2616.v
HashSlinger.v
ListHash.v
Critbit.v
Slinger.v
Lru.v
LruList.v
RingLog.v
ObjCore.v
Expire.v
Stevedore.v
Mmap.v
FileStore.v
Persistent.v
PersistentRestart.v
Backend.v
Shard.v
BackendTasks.v
ConnPool.v
Http1.v
ProxyProto.v
Connection.v
Esi.v
Filter.v
Ban.v
Cookie.v
Streaming.v
Coalesce.v
VclSyntax.v
Lexer.v
Parser.v
VclPrint.v
Values.v
Vmod.v
VclInterp.v
VclTables.v
VclManager.v
Request.v
Fetch.v
Engine.v
Delivery.v
Runtime.v
VclServer.v
RequestLog.v
AdminProtocol.v
AdminCommands.v
AdminParams.v
AdminHandler.v
H2.v
Server.v
Fleet.v
Telemetry.v
Tools.v
Startup.v
Loading.v
ToolMains.v
