(* ===== verification/Prelude.v ===== *)
(** * Verification of varaha-cache

    varaha-cache is an HTTP cache in the style of Varnish, written in Rust as
    fifteen crates under [src/crates].  A request goes through a state machine
    (rv-cache/request.rs) driven by the server; a lookup asks the cache engine
    (rv-cache/engine.rs), which ties together a hash slinger (rv-hash), a storage
    backend (rv-storage), the bans, the expiry queue, the LRU tracker and the
    shared-memory log (rv-log); a miss is fetched from a backend, coalesced with
    other requests for the same object, streamed to the waiting clients, and its
    lifetime is computed from its headers (rv-http).  This library models these
    crates as Rocq functions and proves what makes them correct.

    ** Conventions

    - Integers are [Z] with the wrap-around of their width written out
      ([u64_wrap], [u32_wrap]; release builds wrap); [usize] has 64 bits.
    - [f64] is the binary64 format of [SpecFloat], NaN and infinities included.
    - Strings and byte slices are [list byte]; [str "..."] writes a literal.
    - [Result] is [result A E] with the [?] operator as [x ←? m ; k]; a panic or
      undefined behaviour of the Rust code makes an operation return [None].
    - An [Arc] of a struct with interior mutability is a handle (an address and
      the immutable fields) into a store of the mutable parts, shared by all the
      holders.  [DashMap] and [HashMap] are [gmap], [Vec] is [list].
    - The clock is an argument [now] of the operations that read it.
    - What is not in the repository is a class or an argument: the regex crate
      ([Ban.RegexLib]), tokio's broadcast channels with the laws of their
      documentation ([Coalesce.Broadcast]), Unicode [to_lowercase] with its
      documented behaviour on ASCII ([Fetch.LowercaseAscii]), the binary search
      of slices ([Shard.BinarySearch]), the iteration order of maps
      ([ConnPool.DashIter]), the http crate ([H2.HttpCrate]), serde
      ([Fleet.SerdeState], [Loading.SerdeFormats]), rustls ([Loading.Rustls]), hash
      functions, compression, [size_of], the printing of floats.  Each class has an
      instance, so nothing proved from its laws is vacuous.

    ** Files

    Foundations
    - [Prelude]: scopes, tactics, hint databases, machine integers, [result].
    - [RustStr]: the string operations of the standard library, decimal and
      little-endian encodings with their round trips, UTF-8 validity.
    - [F64], [F64Exact]: binary64 arithmetic, comparison as a total preorder off
      NaN, parsing; the integers on which conversion, multiplication and
      truncation are exact.
    - [Enums], [Types], [HttpTypes]: rv-types (enumerations, digest, time, flags,
      methods, status codes, known headers).
    - [Config]: rv-config parse.rs and config.rs.  Sizes and durations mean the
      number times the unit; the sections with their defaults.

    HTTP
    - [Header]: rv-http header.rs and message.rs.  The case-insensitive header
      list laws; hop-by-hop filtering.
    - [Range]: range.rs.  Resolution is exact on u64; printing round trip.
    - [Vary]: vary.rs.  The blob decides agreement on the varying headers.
    - [Rfc2616]: rfc2616.rs.  Cache-Control against a reference reading, lifetime
      priority, conditional requests, exact and overflow-free date arithmetic,
      round trip of the three date formats.

    The cache
    - [HashSlinger]: objhead.rs and traits.rs: the trait as a class whose laws
      relate an implementation to an abstract table; [ListHash] (simple.rs,
      classic.rs) and [Critbit] (critbit.rs, with its tree invariant) discharge
      them; [Slinger] states what clients get: refinement on every trace, exact
      reference counts, and the race of the two-step deref.
    - [Lru]: rv-cache lru.rs.  The intrusive lists over an explicit heap run
      without undefined behaviour and refine one global recency list.  [LruList]:
      rv-storage lru.rs, the same promise for links by index in a vector.
    - [RingLog]: rv-log.  Reads against the history of all writes.
    - [ObjCore]: objcore.rs and lookup.rs.  Evaluation of an object.
    - [Expire]: expire.rs.  A cycle takes exactly the entries whose deadline is past.
    - [Stevedore]: storage traits.rs and malloc.rs.  Space accounting.
    - [Mmap]: a memory-mapped region as an array of bytes; [FileStore] (file.rs)
      and [Persistent] (persistent.rs) over it: bodies stay apart and intact, no
      access leaves the mapping; [PersistentRestart]: what closing and opening
      the file recovers, and what it loses.
    - [Ban]: ban.rs and error.rs.  Parsing, matching, the lurker.
    - [Streaming]: streaming.rs.  Readers get the stream intact; the lost wake-up.
    - [Coalesce]: coalesce.rs.  One fetch per flight; every waiter is resolved, in
      every interleaving of the atomic steps.
    - [Request]: request.rs.  Termination of the state machine.
    - [Fetch]: fetch.rs.  Cacheability, application of the lifetime.
    - [Engine]: engine.rs and stats.rs over the interfaces above.  Invariant and
      capacity on every sequence of operations, lookup against a reference
      search, insert-lookup round trip, expiry by the objects' deadlines, bans.

    Backends and filters
    - [Backend]: rv-backend health.rs, simple.rs, director.rs.  A probe's health is
      decided by its last results; round robin, random, hash and fallback.
    - [Shard]: shard_director.rs.  The ring walk finds the nearest healthy virtual
      node, and adding a backend moves keys only to it.
    - [BackendTasks]: dns_director.rs and probe_scheduler.rs.  Resolved addresses are
      used in turn; a backend's health follows from what the first read of each of
      its answers brings, cut off and malformed ones included.
    - [ConnPool]: connection.rs as a bounded multiset of idle streams.
    - [Http1]: rv-transport http1_server.rs and http1_client.rs over the bytes of a
      connection: what one side writes the other reads, chunked bodies, limits, and the
      answers whose lengths no buffer can hold, on which the client panics;
      [ProxyProto]: proxy_proto.rs, both versions, with the textual forms of addresses;
      [Connection]: server.rs and bufpool.rs: a connection's requests are answered in
      order, it ends, and what it writes for a response the client reads back.
    - [Esi]: rv-filter esi.rs.  Pages mean what their authors wrote.
    - [Filter]: rv-filter chain.rs and gzip.rs: the two chains over classes.

    VCL
    - [VclSyntax], [Lexer], [Parser]: rv-vcl token.rs, ast.rs, lexer.rs, parser.rs.
      Loading any source ends in a program or an error; [VclPrint] prints
      expressions and proves that parsing inverts printing.
    - [Values]: rv-types vcl_value.rs; [VclInterp]: interpreter.rs: termination of
      programs without recursion, header assignment, the role of the resolver.
    - [Vmod]: rv-vmod: the registry that resolves functions and the built-in
      modules; [Cookie]: its cookie jar.
    - [VclTables]: rv-types vcl.rs: one naming of actions, and its unused checks.
    - [VclManager]: rv-admin vcl_manager.rs: the program in use, its two locks.

    Server and administration
    - [Delivery]: the date and range routines of rv-server runtime.rs against those
      of rv-http; [Runtime]: its request pipeline over [Request], [Fetch] and
      [Engine]: the backend sends bytes, which the client of [Http1] reads, and a
      panic of the client ends the request; [VclServer]: the pipeline with VCL ends
      every request; [RequestLog]: the records it writes into the engine's ring
      buffer, against the story of a request told without the buffer: each call and
      each lookup is there with its outcome, and a request is reported as a hit
      exactly when one hit.
    - [H2]: rv-transport h2_server.rs: a stream's request, body and response frames.
    - [Server]: the accept loops of rv-transport server.rs, the handler, the expiry
      task and shutdown of runtime.rs.  Connections and HTTP/2 streams are tasks whose
      steps interleave in any order on one cache: the server stays safe, a panic stays
      in its task and has one of two causes, and every connection and stream is
      answered with the outcomes of its own requests.
    - [AdminProtocol], [AdminCommands], [AdminParams], [AdminHandler]: rv-admin
      protocol.rs, auth.rs, commands.rs, handler.rs, server.rs.  Framing and
      commands round-trip, parameters behave like record fields, sessions never
      panic and keep the published program in step with the manager, the VCL file of
      the start aside, and without the secret nothing is executed.
    - [Fleet]: rv-server fleet.rs: the client of the control plane keeps its identity
      across crashes, as long as its state file can be read, and reports the versions
      it retrieved, in order.
    - [Telemetry]: telemetry.rs: what the exported metrics say of the engine.
    - [Tools]: rv-tools stat.rs against that server: the tool shows its counters;
      [ToolMains]: the main programs of the three tools.
    - [Startup]: cli.rs, vcl_loader.rs and the construction of the server in
      runtime.rs: settings are read back from the command line.
    - [Loading]: rv-config loader.rs and watcher.rs, rv-transport tls.rs: the format of
      a configuration file by its extension, reloading, TLS files.

    ** Fuel

    Loops that are not structural take fuel, and a lemma shows the amount given
    is enough: one round per byte for splitting, trimming, the Vary loop
    ([Vary.vary_matches_total]) and the ESI scanner ([Esi.parse_esi_total]), one
    per heap entry for [Expire.expire_shard], one per tracked digest plus two for
    [Engine.enforce_loop], 19 for decimal digits of a u64, one per token for the
    parser ([Parser.load_vcl_total]), one per byte of the connection for reading a
    message and for serving requests ([Connection.conn_loop_ends]).  A VCL
    subroutine runs on a stack of a given depth; running out of it is the overflow
    of the server's stack, and the call graph's height is shown to be enough.  The
    server's loop over request states ends within the rounds its restart limit
    allows ([VclServer]); in [Server] a task is a step at a time and needs no fuel, and
    thirty-one steps for each byte received and thirty-one more are enough to end it.

    ** Not modelled

    Atomic orderings weaker than sequential consistency; the interleaving of the
    engine's own operations (the trackers, the coalescing and streaming protocols,
    the slingers' deref, the connection pool's get and the persistent store's
    allocation are modelled at the level of their atomic steps).  In [Server] a step is
    a state of a request's pipeline; writing to a connection works, and the bytes a
    peer will send are known when it connects.  A backend's answer is all the bytes it
    sends, or one error of the exchange.  Administration sessions run one after the
    other ([AdminHandler.racing_uses] is what two at once can do).  The machine's stack
    that parsing nested VCL expressions uses, power failures between a file's write
    and its rename, the spans of the pipeline, binding sockets, compression itself,
    the export of telemetry, and the wording of the tools' error messages stay out. *)

From Stdlib Require Export ZArith Lia Strings.Byte.
From Stdlib Require Import Sorted.
From stdpp Require Export base tactics numbers list gmap vector strings.

#[export] Set Default Goal Selector "!".
#[export] Set Warnings "-clear-no-such-hyp".
Local Open Scope Z_scope.

(* ------------------------------------------------------------------ *)
(** ** Scopes, tactics and hint databases *)

Declare Scope rust_scope.
Delimit Scope rust_scope with rust.

Create HintDb rust discriminated.
Create Rewrite HintDb rust.

(** Case analysis on the boolean or option scrutinised by the goal. *)
Ltac case_if :=
  match goal with
  | |- context [if ?b then _ else _] => let E := fresh "E" in destruct b eqn:E
  end.

Ltac case_if_in H :=
  match type of H with
  | context [if ?b then _ else _] => let E := fresh "E" in destruct b eqn:E
  end.

(** Break up conjunctions and existentials in the context. *)
Ltac split_hyps :=
  repeat match goal with
         | H : _ ∧ _ |- _ => destruct H
         | H : ∃ _, _ |- _ => destruct H
         end.

(** Turn boolean comparisons of the context into arithmetic facts. *)
Ltac bool_to_prop :=
  repeat match goal with
         | H : (_ =? _)%Z = true |- _ => apply Z.eqb_eq in H
         | H : (_ =? _)%Z = false |- _ => apply Z.eqb_neq in H
         | H : (_ <? _)%Z = true |- _ => apply Z.ltb_lt in H
         | H : (_ <? _)%Z = false |- _ => apply Z.ltb_ge in H
         | H : (_ <=? _)%Z = true |- _ => apply Z.leb_le in H
         | H : (_ <=? _)%Z = false |- _ => apply Z.leb_gt in H
         | H : _ && _ = true |- _ => apply andb_true_iff in H; destruct H
         | H : _ || _ = false |- _ => apply orb_false_iff in H; destruct H
         | H : negb _ = true |- _ => apply negb_true_iff in H
         | H : negb _ = false |- _ => apply negb_false_iff in H
         end.

(* ------------------------------------------------------------------ *)
(** ** Rust's [Result] *)

Inductive result (A E : Type) : Type :=
| Ok (a : A)
| Err (e : E).
Arguments Ok {A E} a.
Arguments Err {A E} e.

#[global] Instance result_eq_dec {A E} `{EqDecision A, EqDecision E} :
  EqDecision (result A E).
Proof. solve_decision. Defined.

(** The [?] operator. *)
Definition result_bind {A B E} (m : result A E) (k : A → result B E) : result B E :=
  match m with
  | Ok a => k a
  | Err e => Err e
  end.

(** [Option::ok_or] and [Result::map_err]. *)
Definition ok_or {A E} (o : option A) (e : E) : result A E :=
  match o with
  | Some a => Ok a
  | None => Err e
  end.

Definition map_err {A E F} (f : E → F) (r : result A E) : result A F :=
  match r with
  | Ok a => Ok a
  | Err e => Err (f e)
  end.

Definition is_ok {A E} (r : result A E) : bool :=
  match r with Ok _ => true | Err _ => false end.

Notation "x ←? m ; k" := (result_bind m (λ x, k))
  (at level 20, m at level 100, k at level 200, right associativity) : rust_scope.
Notation "' p ←? m ; k" := (result_bind m (λ x, match x with p => k end))
  (at level 20, p pattern, m at level 100, k at level 200, right associativity)
  : rust_scope.

Lemma result_bind_ok {A B E} (m : result A E) (k : A → result B E) b :
  result_bind m k = Ok b ↔ ∃ a, m = Ok a ∧ k a = Ok b.
Proof. destruct m; simpl; naive_solver. Qed.

Lemma ok_or_ok {A E} (o : option A) (e : E) a : ok_or o e = Ok a ↔ o = Some a.
Proof. destruct o; simpl; naive_solver. Qed.

#[export] Hint Rewrite @result_bind_ok @ok_or_ok : rust.

(* ------------------------------------------------------------------ *)
(** ** Machine integers

    A [w]-bit unsigned integer is a [Z] in [0 .. 2^w - 1]; arithmetic that
    wraps (release profile, or the [Atomic*] types) is reduced modulo [2^w]. *)

Definition wrap (w z : Z) : Z := z mod 2 ^ w.

Definition in_width (w z : Z) : Prop := 0 ≤ z < 2 ^ w.

Definition u8_max : Z := 255.
Definition u16_max : Z := 65535.
Definition u32_max : Z := 4294967295.
Definition u64_max : Z := 18446744073709551615.

Definition u16_wrap : Z → Z := wrap 16.
Definition u32_wrap : Z → Z := wrap 32.
Definition u64_wrap : Z → Z := wrap 64.

(** [u64::saturating_sub] on in-range operands. *)
Definition saturating_sub (a b : Z) : Z := Z.max 0 (a - b).

(** [usize::checked_add] on a 64-bit target. *)
Definition checked_add (a b : Z) : option Z :=
  if a + b <=? u64_max then Some (a + b) else None.

Lemma wrap_range w z : 0 ≤ w → in_width w (wrap w z).
Proof. intros. apply Z.mod_pos_bound, Z.pow_pos_nonneg; lia. Qed.

Lemma wrap_small w z : in_width w z → wrap w z = z.
Proof. apply Z.mod_small. Qed.

Lemma u64_wrap_small z : 0 ≤ z ≤ u64_max → u64_wrap z = z.
Proof. intros. apply wrap_small. unfold in_width, u64_max in *. simpl. lia. Qed.

Lemma u32_wrap_small z : 0 ≤ z ≤ u32_max → u32_wrap z = z.
Proof. intros. apply wrap_small. unfold in_width, u32_max in *. simpl. lia. Qed.

Lemma u16_wrap_small z : 0 ≤ z ≤ u16_max → u16_wrap z = z.
Proof. intros. apply wrap_small. unfold in_width, u16_max in *. simpl. lia. Qed.

Lemma checked_add_Some a b c : checked_add a b = Some c ↔ c = a + b ∧ a + b ≤ u64_max.
Proof. unfold checked_add. case_if; bool_to_prop; naive_solver lia. Qed.

#[export] Hint Resolve wrap_range : rust.

(* ------------------------------------------------------------------ *)
(** ** Sorted lists *)

Lemma StronglySorted_filter {A} (R : A → A → Prop) (P : A → Prop) `{∀ x, Decision (P x)} (l : list A) :
  StronglySorted R l → StronglySorted R (filter P l).
Proof.
  induction 1 as [|x l Hl IH Hx]; [constructor|]. rewrite filter_cons. case_decide; [|done].
  constructor; [done|]. rewrite Forall_forall in Hx |- *. intros y [_ Hy]%list_elem_of_filter. by apply Hx.
Qed.
