(* ===== verification/RustStr.v ===== *)
(** * Bytes and strings

    Rust's [u8] is Rocq's [byte]; [&[u8]], [Vec<u8>], [Bytes] and the UTF-8
    contents of [&str] and [String] are all [list byte].  The functions below
    are the parts of [core::str], [core::slice] and [core::num] the cache uses,
    with their documented behaviour: [trim] and [split_whitespace] work on the
    Unicode White_Space characters (in their UTF-8 encoding), integer parsing
    accepts an optional plus sign and fails on overflow, and [from_utf8] is the
    standard validation. *)

From S2P Require Import Prelude.
Local Open Scope Z_scope.

Abbreviation bytes := (list byte).

#[global] Instance byte_eq_decision : EqDecision byte := Byte.byte_eq_dec.
#[global] Program Instance byte_countable : Countable byte :=
  inj_countable' Byte.to_N (λ n, default x00 (Byte.of_N n)) _.
Next Obligation. intros b. simpl. by rewrite Byte.of_to_N. Qed.

(** The numeric value of a byte, and [as u8] truncation. *)
Definition u8_val (b : byte) : Z := Z.of_N (Byte.to_N b).
Definition u8_of (z : Z) : byte := default x00 (Byte.of_N (Z.to_N (z mod 256))).

Lemma u8_val_range b : 0 ≤ u8_val b < 256.
Proof. pose proof (Byte.to_N_bounded b). unfold u8_val. lia. Qed.

Lemma u8_of_val b : u8_of (u8_val b) = b.
Proof.
  unfold u8_of. rewrite Z.mod_small by apply u8_val_range.
  unfold u8_val. by rewrite N2Z.id, Byte.of_to_N.
Qed.

Lemma u8_val_of z : u8_val (u8_of z) = z mod 256.
Proof.
  unfold u8_of, u8_val.
  pose proof (Z.mod_pos_bound z 256 eq_refl) as Hz.
  destruct (Byte.of_N (Z.to_N (z mod 256))) as [b|] eqn:E; simpl.
  - apply Byte.to_of_N in E. rewrite E. lia.
  - apply Byte.of_N_None_iff in E. lia.
Qed.

#[global] Instance u8_val_inj : Inj (=) (=) u8_val.
Proof. intros a b H. rewrite <-(u8_of_val a), <-(u8_of_val b). by rewrite H. Qed.

(** String literals. *)
Definition str (s : string) : bytes := String.list_byte_of_string s.
Arguments str s%_string.

(* ------------------------------------------------------------------ *)
(** ** ASCII case *)

Definition ascii_lower (b : byte) : byte :=
  if (65 <=? u8_val b) && (u8_val b <=? 90) then u8_of (u8_val b + 32) else b.

Definition to_ascii_lowercase (s : bytes) : bytes := map ascii_lower s.

Definition eq_ignore_ascii_case (a b : bytes) : bool :=
  bool_decide (to_ascii_lowercase a = to_ascii_lowercase b).

Lemma ascii_lower_idemp b : ascii_lower (ascii_lower b) = ascii_lower b.
Proof. by destruct b. Qed.

Lemma to_ascii_lowercase_idemp s :
  to_ascii_lowercase (to_ascii_lowercase s) = to_ascii_lowercase s.
Proof.
  unfold to_ascii_lowercase. rewrite map_map.
  apply map_ext, ascii_lower_idemp.
Qed.

(** Case-insensitive equality is an equivalence relation on strings. *)
Definition name_equiv (a b : bytes) : Prop := to_ascii_lowercase a = to_ascii_lowercase b.

#[global] Instance name_equiv_equivalence : Equivalence name_equiv.
Proof. split; unfold name_equiv; [by intros ? | by intros ?? -> | by intros ??? -> ->]. Qed.

Lemma eq_ignore_ascii_case_spec a b :
  eq_ignore_ascii_case a b = true ↔ name_equiv a b.
Proof. apply bool_decide_eq_true. Qed.

#[global] Instance eq_ignore_ascii_case_proper :
  Proper (name_equiv ==> name_equiv ==> (=)) eq_ignore_ascii_case.
Proof.
  intros a a' Ha b b' Hb. unfold eq_ignore_ascii_case, name_equiv in *.
  by rewrite Ha, Hb.
Qed.

Lemma eq_ignore_ascii_case_refl a : eq_ignore_ascii_case a a = true.
Proof. by apply eq_ignore_ascii_case_spec. Qed.

Lemma eq_ignore_ascii_case_sym a b :
  eq_ignore_ascii_case a b = eq_ignore_ascii_case b a.
Proof. unfold eq_ignore_ascii_case. by apply bool_decide_ext. Qed.

(* ------------------------------------------------------------------ *)
(** ** Prefixes, suffixes, searching and splitting *)

Fixpoint strip_prefix (p s : bytes) : option bytes :=
  match p, s with
  | [], _ => Some s
  | c :: p', x :: s' => if decide (c = x) then strip_prefix p' s' else None
  | _ :: _, [] => None
  end.

Definition strip_suffix (p s : bytes) : option bytes :=
  reverse <$> strip_prefix (reverse p) (reverse s).

Definition starts_with (p s : bytes) : bool := bool_decide (is_Some (strip_prefix p s)).

Lemma strip_prefix_Some p s r : strip_prefix p s = Some r ↔ s = p ++ r.
Proof.
  revert s. induction p as [|c p IH]; intros s; simpl.
  - naive_solver.
  - destruct s as [|x s]; [naive_solver|]. case_decide; [|naive_solver].
    subst. rewrite IH. naive_solver.
Qed.

Lemma strip_suffix_Some p s r : strip_suffix p s = Some r ↔ s = r ++ p.
Proof.
  unfold strip_suffix. rewrite fmap_Some. setoid_rewrite strip_prefix_Some.
  split.
  - intros (x & Hs & ->). apply (f_equal reverse) in Hs.
    by rewrite reverse_involutive, reverse_app, reverse_involutive in Hs.
  - intros ->. exists (reverse r). by rewrite reverse_app, reverse_involutive.
Qed.

(** [str::split_once] with a string pattern: the leftmost occurrence. *)
Fixpoint split_once (sep s : bytes) : option (bytes * bytes) :=
  match strip_prefix sep s with
  | Some rest => Some ([], rest)
  | None =>
      match s with
      | [] => None
      | c :: s' => (λ '(a, b), (c :: a, b)) <$> split_once sep s'
      end
  end.

(** [str::contains] with a string pattern. *)
Definition contains (sep s : bytes) : bool := bool_decide (is_Some (split_once sep s)).

(** [str::split] with a non-empty string pattern; [length s] bounds the number
    of occurrences. *)
Fixpoint split_str_fuel (fuel : nat) (sep s : bytes) : list bytes :=
  match fuel with
  | O => [s]
  | S fuel' =>
      match split_once sep s with
      | None => [s]
      | Some (a, b) => a :: split_str_fuel fuel' sep b
      end
  end.
Definition split_str (sep s : bytes) : list bytes := split_str_fuel (length s) sep s.

(** [str::split] with an ASCII character pattern. *)
Fixpoint split_char (c : byte) (s : bytes) : list bytes :=
  match s with
  | [] => [[]]
  | x :: s' =>
      if decide (x = c) then [] :: split_char c s'
      else match split_char c s' with
           | h :: t => (x :: h) :: t
           | [] => [[x]]
           end
  end.

(** Inverse of [split_char]: [Vec<&str>::join]. *)
Fixpoint join (sep : bytes) (l : list bytes) : bytes :=
  match l with
  | [] => []
  | [x] => x
  | x :: l' => x ++ sep ++ join sep l'
  end.

Lemma split_char_nonempty c s : split_char c s ≠ [].
Proof. destruct s; simpl; [done|]. case_decide; [done|]. by destruct (split_char c s). Qed.

Lemma split_char_join c s : join [c] (split_char c s) = s.
Proof.
  induction s as [|x s IH]; simpl; [done|].
  pose proof (split_char_nonempty c s).
  case_decide; subst; destruct (split_char c s) as [|h t] eqn:E; simpl in *; try done.
  - by rewrite <-IH.
  - destruct t; by rewrite <-IH.
Qed.

Lemma split_char_no_sep c s : c ∉ s → split_char c s = [s].
Proof.
  induction s as [|x s IH]; simpl; [done|]. intros [Hx Hs]%not_elem_of_cons.
  rewrite IH by done. by rewrite decide_False by congruence.
Qed.

Lemma split_char_app c s t :
  c ∉ s → split_char c (s ++ c :: t) = s :: split_char c t.
Proof.
  induction s as [|x s IH]; simpl; [by rewrite decide_True|].
  intros [Hx Hs]%not_elem_of_cons.
  by rewrite IH, decide_False by congruence.
Qed.

Lemma split_once_Some sep s a b : split_once sep s = Some (a, b) → s = a ++ sep ++ b.
Proof.
  revert a b. induction s as [|c s IH]; intros a b; simpl.
  - destruct (strip_prefix sep []) eqn:E; [|done].
    apply strip_prefix_Some in E. naive_solver.
  - destruct (strip_prefix sep (c :: s)) eqn:E.
    + apply strip_prefix_Some in E. naive_solver.
    + rewrite fmap_Some. intros ([a' b'] & H & ?). simplify_eq.
      by rewrite (IH _ _ H).
Qed.

(** Splitting at a single byte finds the first occurrence. *)
Lemma split_once_byte_Some c s t :
  c ∉ s → split_once [c] (s ++ c :: t) = Some (s, t).
Proof.
  induction s as [|x s IH]; simpl.
  - intros _. by rewrite decide_True.
  - intros [Hx Hs]%not_elem_of_cons. rewrite decide_False by congruence.
    by rewrite IH.
Qed.

Lemma split_once_byte_None c s : c ∉ s → split_once [c] s = None.
Proof.
  induction s as [|x s IH]; simpl; [done|].
  intros [Hx Hs]%not_elem_of_cons. rewrite decide_False by congruence.
  by rewrite IH.
Qed.

(** [str::len]: bytes. *)
Definition len (s : bytes) : Z := Z.of_nat (length s).

(** The texts of [Utf8Error] and [ParseIntError] for an input. *)
Class StdErrors := { utf8_error : bytes → bytes; int_error : bytes → bytes }.

(* ------------------------------------------------------------------ *)
(** ** White space

    UTF-8 encodings of the characters with the Unicode White_Space property,
    the ones [char::is_whitespace] accepts. *)

Definition ws_seqs : list bytes :=
  [[x09]; [x0a]; [x0b]; [x0c]; [x0d]; [x20]; [xc2; x85]; [xc2; xa0];
   [xe1; x9a; x80];
   [xe2; x80; x80]; [xe2; x80; x81]; [xe2; x80; x82]; [xe2; x80; x83];
   [xe2; x80; x84]; [xe2; x80; x85]; [xe2; x80; x86]; [xe2; x80; x87];
   [xe2; x80; x88]; [xe2; x80; x89]; [xe2; x80; x8a];
   [xe2; x80; xa8]; [xe2; x80; xa9]; [xe2; x80; xaf]; [xe2; x81; x9f];
   [xe3; x80; x80]].

(** Strip one of the sequences of [seqs] from the front of [s]. *)
Fixpoint strip_any (seqs : list bytes) (s : bytes) : option bytes :=
  match seqs with
  | [] => None
  | p :: seqs' =>
      match strip_prefix p s with
      | Some r => Some r
      | None => strip_any seqs' s
      end
  end.

(** Strip sequences of [seqs] as long as possible; every sequence has at least
    one byte, so [length s] rounds are enough. *)
Fixpoint strip_while (fuel : nat) (seqs : list bytes) (s : bytes) : bytes :=
  match fuel with
  | O => s
  | S fuel' =>
      match strip_any seqs s with
      | Some r => strip_while fuel' seqs r
      | None => s
      end
  end.

Definition trim_start (s : bytes) : bytes := strip_while (length s) ws_seqs s.
Definition trim_end (s : bytes) : bytes :=
  reverse (strip_while (length s) (reverse <$> ws_seqs) (reverse s)).
Definition trim (s : bytes) : bytes := trim_end (trim_start s).

(** [str::trim_matches] with an ASCII character. *)
Definition trim_matches (c : byte) (s : bytes) : bytes :=
  let s := strip_while (length s) [[c]] s in
  reverse (strip_while (length s) [[c]] (reverse s)).

(** [str::split_whitespace]; [cur] holds the current word, reversed. *)
Fixpoint split_ws_fuel (fuel : nat) (cur s : bytes) : list bytes :=
  let flush (rest : list bytes) :=
    match cur with [] => rest | _ => reverse cur :: rest end in
  match fuel with
  | O => flush []
  | S fuel' =>
      match strip_any ws_seqs s with
      | Some r => flush (split_ws_fuel fuel' [] r)
      | None =>
          match s with
          | [] => flush []
          | c :: s' => split_ws_fuel fuel' (c :: cur) s'
          end
      end
  end.
Definition split_whitespace (s : bytes) : list bytes := split_ws_fuel (length s) [] s.

(** A string that neither starts nor ends with white space. *)
Definition trimmed (s : bytes) : Prop :=
  strip_any ws_seqs s = None ∧ strip_any (reverse <$> ws_seqs) (reverse s) = None.

Lemma strip_while_none fuel seqs s : strip_any seqs s = None → strip_while fuel seqs s = s.
Proof. intros H. destruct fuel; simpl; [done|]. by rewrite H. Qed.

Lemma trim_trimmed s : trimmed s → trim s = s.
Proof.
  intros [H1 H2]. unfold trim, trim_start, trim_end.
  rewrite !(strip_while_none _ _ s) by done.
  rewrite strip_while_none by done. apply reverse_involutive.
Qed.

(** [strip_while] with enough fuel leaves nothing to strip. *)
Lemma strip_any_shorter seqs s r :
  Forall (λ p, p ≠ []) seqs → strip_any seqs s = Some r → (length r < length s)%nat.
Proof.
  induction 1 as [|p seqs Hp _ IH]; simpl; [done|].
  destruct (strip_prefix p s) as [r'|] eqn:E; [|done].
  intros [= ->]. apply strip_prefix_Some in E. subst.
  rewrite length_app. destruct p; simpl; [done|lia].
Qed.

Lemma strip_while_done fuel seqs s :
  Forall (λ p, p ≠ []) seqs → (length s ≤ fuel)%nat →
  strip_any seqs (strip_while fuel seqs s) = None.
Proof.
  intros Hs. revert s. induction fuel as [|fuel IH]; intros s Hl; simpl.
  - destruct s; simpl in *; [|lia].
    induction Hs as [|p seqs Hp _ IH']; simpl; [done|].
    destruct p; done.
  - destruct (strip_any seqs s) as [r|] eqn:E; [|done].
    apply IH. pose proof (strip_any_shorter _ _ _ Hs E). lia.
Qed.

Lemma ws_seqs_nonempty : Forall (λ p, p ≠ []) ws_seqs.
Proof. repeat constructor; done. Qed.

Lemma trim_start_done s : strip_any ws_seqs (trim_start s) = None.
Proof. apply strip_while_done; [apply ws_seqs_nonempty|done]. Qed.

(** ASCII strings without white space bytes are left alone. *)
Definition ascii_graphic (b : byte) : Prop := 32 < u8_val b < 128.

#[global] Instance ascii_graphic_dec b : Decision (ascii_graphic b).
Proof. unfold ascii_graphic. apply _. Defined.

Lemma strip_any_head seqs b s :
  Forall (λ p, p ≠ [] ∧ head p ≠ Some b) seqs → strip_any seqs (b :: s) = None.
Proof.
  induction 1 as [|p seqs [Hp Hb] _ IH]; simpl; [done|].
  destruct p as [|c p]; [done|]. simpl in *. by rewrite decide_False by congruence.
Qed.

Lemma graphic_not_ws_head b :
  ascii_graphic b → Forall (λ p, p ≠ [] ∧ head p ≠ Some b) ws_seqs.
Proof.
  intros [Hl Hh]. apply (bool_decide_unpack _).
  destruct b; vm_compute in Hl, Hh |- *; solve [exact I | discriminate].
Qed.

Lemma graphic_not_ws_last b :
  ascii_graphic b → Forall (λ p, p ≠ [] ∧ head p ≠ Some b) (reverse <$> ws_seqs).
Proof.
  intros [Hl Hh]. apply (bool_decide_unpack _).
  destruct b; vm_compute in Hl, Hh |- *; solve [exact I | discriminate].
Qed.

(** A non-empty string whose first and last bytes are graphic ASCII is trimmed. *)
Lemma trimmed_graphic a s b :
  ascii_graphic a → ascii_graphic b → last (a :: s) = Some b → trimmed (a :: s).
Proof.
  intros Ha Hb Hl. split.
  - by apply strip_any_head, graphic_not_ws_head.
  - apply last_Some in Hl as [s' ->]. rewrite reverse_snoc.
    by apply strip_any_head, graphic_not_ws_last.
Qed.

Lemma trim_graphic s : Forall ascii_graphic s → trim s = s.
Proof.
  intros Hs. apply trim_trimmed. destruct s as [|a s]; [done|].
  destruct (last (a :: s)) as [b|] eqn:E; [|by apply last_None in E].
  eapply trimmed_graphic; [by apply Forall_cons in Hs as [? _]| |done].
  apply last_Some in E as [s' E]. rewrite E in Hs. decompose_Forall. done.
Qed.

(* ------------------------------------------------------------------ *)
(** ** Decimal integers *)

Definition digit_val (b : byte) : option Z :=
  if (48 <=? u8_val b) && (u8_val b <=? 57) then Some (u8_val b - 48) else None.

Definition digit_byte (d : Z) : byte := u8_of (48 + d).

Fixpoint parse_digits (max acc : Z) (s : bytes) : option Z :=
  match s with
  | [] => Some acc
  | c :: s' =>
      match digit_val c with
      | None => None
      | Some d =>
          let v := 10 * acc + d in
          if v <=? max then parse_digits max v s' else None
      end
  end.

(** [str::parse::<uN>()] where [max] is the type's maximum. *)
Definition parse_uint (max : Z) (s : bytes) : option Z :=
  match s with
  | [] => None
  | c :: s' =>
      if decide (c = x2b) then
        match s' with [] => None | _ => parse_digits max 0 s' end
      else parse_digits max 0 s
  end.

Definition parse_u16 : bytes → option Z := parse_uint u16_max.
Definition parse_u32 : bytes → option Z := parse_uint u32_max.
Definition parse_u64 : bytes → option Z := parse_uint u64_max.

(** [u64::to_string]: 20 digits are enough. *)
Fixpoint show_fuel (fuel : nat) (z : Z) : bytes :=
  match fuel with
  | O => [digit_byte z]
  | S fuel' =>
      if z <? 10 then [digit_byte z]
      else show_fuel fuel' (z / 10) ++ [digit_byte (z mod 10)]
  end.
Definition show_u64 (z : Z) : bytes := show_fuel 19 z.

Lemma digit_val_byte d : 0 ≤ d < 10 → digit_val (digit_byte d) = Some d.
Proof.
  intros Hd. unfold digit_val, digit_byte. rewrite u8_val_of.
  rewrite Z.mod_small by lia.
  rewrite (proj2 (Z.leb_le _ _)), (proj2 (Z.leb_le _ _)) by lia.
  simpl. f_equal. lia.
Qed.

Lemma digit_byte_not (c : byte) d :
  0 ≤ d < 10 → digit_val c = None → digit_byte d ≠ c.
Proof. intros Hd Hc <-. by rewrite digit_val_byte in Hc. Qed.

Lemma parse_digits_app max acc s d v :
  0 ≤ d < 10 → 0 ≤ v → parse_digits max acc s = Some v → 10 * v + d ≤ max →
  parse_digits max acc (s ++ [digit_byte d]) = Some (10 * v + d).
Proof.
  intros Hd Hv. revert acc. induction s as [|c s IH]; intros acc; simpl.
  - intros [= ->] Hm. rewrite digit_val_byte by done.
    by rewrite (proj2 (Z.leb_le _ _)).
  - destruct (digit_val c); [|done]. case_if; [|done]. apply IH.
Qed.

Lemma show_fuel_parse max fuel z :
  0 ≤ z ≤ max → z < 10 ^ (Z.of_nat fuel + 1) →
  parse_digits max 0 (show_fuel fuel z) = Some z.
Proof.
  revert z. induction fuel as [|fuel IH]; intros z Hz Hlt.
  - simpl in *. rewrite digit_val_byte by lia. by rewrite (proj2 (Z.leb_le _ _)) by lia.
  - rewrite Nat2Z.inj_succ in Hlt. simpl. case_if; bool_to_prop; simpl.
    + rewrite digit_val_byte by lia. by rewrite (proj2 (Z.leb_le _ _)) by lia.
    + pose proof (Z.mod_pos_bound z 10 eq_refl).
      pose proof (Z.div_mod z 10 ltac:(lia)) as Hdm.
      replace (Some z) with (Some (10 * (z / 10) + z mod 10)) by (f_equal; lia).
      assert (0 ≤ z / 10) by (apply Z.div_pos; lia).
      apply parse_digits_app; [lia|done| |lia].
      apply IH; [lia|].
      apply Z.div_lt_upper_bound; [lia|].
      replace (10 * 10 ^ (Z.of_nat fuel + 1)) with (10 ^ (Z.succ (Z.of_nat fuel) + 1)); [done|].
      replace (Z.succ (Z.of_nat fuel) + 1) with (Z.succ (Z.of_nat fuel + 1)) by lia.
      rewrite Z.pow_succ_r by lia. done.
Qed.

Lemma show_fuel_digits fuel z :
  0 ≤ z < 10 ^ (Z.of_nat fuel + 1) → Forall (λ c, is_Some (digit_val c)) (show_fuel fuel z).
Proof.
  revert z. induction fuel as [|fuel IH]; intros z Hz; simpl.
  - constructor; [|done]. eexists. apply digit_val_byte. simpl in Hz. lia.
  - case_if; bool_to_prop.
    + constructor; [|done]. eexists. apply digit_val_byte. lia.
    + apply Forall_app. split.
      * apply IH. rewrite Nat2Z.inj_succ in Hz. split; [apply Z.div_pos; lia|].
        apply Z.div_lt_upper_bound; [lia|].
        replace (Z.succ (Z.of_nat fuel) + 1) with (Z.succ (Z.of_nat fuel + 1)) in Hz by lia.
        rewrite Z.pow_succ_r in Hz by lia. lia.
      * constructor; [|done]. pose proof (Z.mod_pos_bound z 10 eq_refl).
        eexists. apply digit_val_byte. lia.
Qed.

Lemma show_u64_digits z :
  0 ≤ z ≤ u64_max → Forall (λ c, is_Some (digit_val c)) (show_u64 z).
Proof. intros Hz. apply show_fuel_digits. unfold u64_max in *. simpl. lia. Qed.

Lemma show_fuel_nonempty fuel z : show_fuel fuel z ≠ [].
Proof.
  destruct fuel; simpl; [done|]. case_if; [done|].
  by intros [_ ?]%app_eq_nil.
Qed.

(** A number prints to digits that parse back to it. *)
Lemma parse_show_uint max z : 0 ≤ z ≤ max → max ≤ u64_max → parse_uint max (show_u64 z) = Some z.
Proof.
  intros Hz Hmax. pose proof (show_u64_digits z ltac:(lia)) as Hd.
  assert (Hp : parse_digits max 0 (show_u64 z) = Some z).
  { apply show_fuel_parse; [lia|]. unfold u64_max in *. simpl. lia. }
  unfold parse_uint.
  destruct (show_u64 z) as [|c s] eqn:E; [by apply show_fuel_nonempty in E|].
  rewrite decide_False; [done|]. intros ->.
  apply Forall_cons in Hd as [[? Hd] _]. vm_compute in Hd. done.
Qed.

Lemma parse_show_u64 z : 0 ≤ z ≤ u64_max → parse_u64 (show_u64 z) = Some z.
Proof. intros. by apply parse_show_uint. Qed.

Lemma parse_show_u32 z : 0 ≤ z ≤ u32_max → parse_u32 (show_u64 z) = Some z.
Proof. intros. by apply parse_show_uint. Qed.

Lemma parse_digits_bounded max acc s v :
  0 ≤ acc ≤ max → parse_digits max acc s = Some v → 0 ≤ v ≤ max.
Proof.
  revert acc. induction s as [|c s IH]; intros acc Ha; simpl; [naive_solver|].
  destruct (digit_val c) as [d|] eqn:E; [|done].
  case_if; [|done]. bool_to_prop. apply IH.
  unfold digit_val in E. case_if_in E; [|done]. bool_to_prop. simplify_eq. lia.
Qed.

Lemma parse_uint_bounded max s v : 0 ≤ max → parse_uint max s = Some v → 0 ≤ v ≤ max.
Proof.
  intros Hm. unfold parse_uint. destruct s as [|c s]; [done|].
  case_decide; [destruct s; [done|]|]; apply parse_digits_bounded; lia.
Qed.

Lemma parse_u64_bounded s v : parse_u64 s = Some v → 0 ≤ v ≤ u64_max.
Proof. by apply parse_uint_bounded. Qed.

(* ------------------------------------------------------------------ *)
(** ** UTF-8 validation: [core::str::from_utf8] *)

Definition byte_in (lo hi : Z) (b : byte) : bool := (lo <=? u8_val b) && (u8_val b <=? hi).
Definition is_cont : byte → bool := byte_in 128 191.

Fixpoint utf8_valid (s : bytes) : bool :=
  match s with
  | [] => true
  | a :: s1 =>
      if byte_in 0 127 a then utf8_valid s1
      else match s1 with
           | [] => false
           | b :: s2 =>
               if byte_in 194 223 a && is_cont b then utf8_valid s2
               else match s2 with
                    | [] => false
                    | c :: s3 =>
                        if ((byte_in 224 224 a && byte_in 160 191 b)
                            || (byte_in 225 236 a && is_cont b)
                            || (byte_in 237 237 a && byte_in 128 159 b)
                            || (byte_in 238 239 a && is_cont b)) && is_cont c
                        then utf8_valid s3
                        else match s3 with
                             | [] => false
                             | d :: s4 =>
                                 if ((byte_in 240 240 a && byte_in 144 191 b)
                                     || (byte_in 241 243 a && is_cont b)
                                     || (byte_in 244 244 a && byte_in 128 143 b))
                                    && is_cont c && is_cont d
                                 then utf8_valid s4
                                 else false
                             end
                    end
           end
  end.

Definition from_utf8 (s : bytes) : option bytes := if utf8_valid s then Some s else None.

(* ------------------------------------------------------------------ *)
(** ** Little-endian integers: [uN::to_le_bytes] and [uN::from_le_bytes] *)

Fixpoint to_le_bytes (n : nat) (z : Z) : bytes :=
  match n with
  | O => []
  | S n' => u8_of z :: to_le_bytes n' (z / 256)
  end.

Fixpoint from_le_bytes (s : bytes) : Z :=
  match s with
  | [] => 0
  | b :: s' => u8_val b + 256 * from_le_bytes s'
  end.

Lemma length_to_le_bytes n z : length (to_le_bytes n z) = n.
Proof. revert z. induction n; intros; simpl; [done|]. by rewrite IHn. Qed.

Lemma from_to_le_bytes n z : from_le_bytes (to_le_bytes n z) = z mod 256 ^ Z.of_nat n.
Proof.
  revert z. induction n as [|n IH]; intros z; simpl; [by rewrite Z.mod_1_r|].
  rewrite u8_val_of, IH, Nat2Z.inj_succ, Z.pow_succ_r by lia.
  by rewrite Z.rem_mul_r by (try apply Z.pow_nonzero; lia).
Qed.

Lemma from_le_bytes_range s : 0 ≤ from_le_bytes s < 256 ^ Z.of_nat (length s).
Proof.
  induction s as [|b s IH]; simpl; [lia|].
  pose proof (u8_val_range b). rewrite Nat2Z.inj_succ, Z.pow_succ_r by lia. lia.
Qed.

#[export] Hint Rewrite length_to_le_bytes from_to_le_bytes : rust.

(* ------------------------------------------------------------------ *)
(** ** Signed integers *)

Definition i64_wrap (z : Z) : Z := (z + 2 ^ 63) mod 2 ^ 64 - 2 ^ 63.
Definition i64_max : Z := 2 ^ 63 - 1.

(** [str::parse::<i64>]: an optional sign and digits, within range. *)
Definition parse_i64 (s : bytes) : option Z :=
  match s with
  | x2d :: ((_ :: _) as digits) => n ← parse_digits (i64_max + 1) 0 digits; Some (- n)
  | _ => parse_uint i64_max s
  end.

Lemma i64_wrap_small z : - 2 ^ 63 ≤ z ≤ i64_max → i64_wrap z = z.
Proof. unfold i64_wrap, i64_max. intros. rewrite Z.mod_small by lia. lia. Qed.

(** [i64]'s [Display]. *)
Definition show_i64 (z : Z) : bytes := if z <? 0 then x2d :: show_u64 (- z) else show_u64 z.

(* ------------------------------------------------------------------ *)
(** ** Matching on string literals

    [match s { "a" => x, "b" => y, _ => .. }] as an ordered list of cases. *)

Fixpoint match_str {A} (cases : list (bytes * A)) (s : bytes) : option A :=
  match cases with
  | [] => None
  | (k, a) :: cases' => if decide (k = s) then Some a else match_str cases' s
  end.

Lemma match_str_Some {A} (cases : list (bytes * A)) s a :
  NoDup cases.*1 → match_str cases s = Some a ↔ (s, a) ∈ cases.
Proof.
  induction cases as [|[k x] cases IH]; simpl.
  - intros _. split; [done|by intros ?%not_elem_of_nil].
  - intros [Hk Hnd]%NoDup_cons. rewrite elem_of_cons. case_decide; subst.
    + split; [naive_solver|]. intros [?|Hin]; [naive_solver|].
      destruct Hk. apply list_elem_of_fmap. by exists (s, a).
    + rewrite IH by done. naive_solver.
Qed.

(** When the cases list each value once under its name, the match inverts the
    naming function. *)
Lemma match_str_name {A} (cases : list (bytes * A)) (l : list A) (name : A → bytes) s a :
  cases = (λ x, (name x, x)) <$> l → (∀ x, x ∈ l) → NoDup cases.*1 →
  match_str cases s = Some a ↔ s = name a.
Proof.
  intros -> Hl Hnd. rewrite match_str_Some by done. rewrite list_elem_of_fmap.
  split; [naive_solver|]. intros ->. by exists a.
Qed.

(* ------------------------------------------------------------------ *)
(** ** Printed numbers contain digits only *)

Lemma digit_graphic c : is_Some (digit_val c) → ascii_graphic c.
Proof.
  intros [d Hd]. unfold digit_val in Hd. case_if_in Hd; [|done]. bool_to_prop.
  unfold ascii_graphic. lia.
Qed.

Lemma show_u64_graphic z : 0 ≤ z ≤ u64_max → Forall ascii_graphic (show_u64 z).
Proof.
  intros Hz. eapply Forall_impl; [by apply show_u64_digits|]. apply digit_graphic.
Qed.

Lemma show_u64_notin (c : byte) z :
  0 ≤ z ≤ u64_max → digit_val c = None → c ∉ show_u64 z.
Proof.
  intros Hz Hc Hin. pose proof (show_u64_digits z Hz) as Hd.
  rewrite Forall_forall in Hd. destruct (Hd c Hin). congruence.
Qed.

Lemma show_u64_cons z : ∃ c s, show_u64 z = c :: s.
Proof.
  destruct (show_u64 z) eqn:E; [|eauto]. by apply show_fuel_nonempty in E.
Qed.

(** Splitting a joined list gives the list back when no element has the
    separator. *)
Lemma split_char_join_inv c (l : list bytes) :
  l ≠ [] → Forall (λ s, c ∉ s) l → split_char c (join [c] l) = l.
Proof.
  intros Hl Hall. induction Hall as [|s l Hs Hall IH]; [done|].
  destruct l as [|s' l]; [by apply split_char_no_sep|].
  change (join [c] (s :: s' :: l)) with (s ++ c :: join [c] (s' :: l)).
  rewrite split_char_app by done. by rewrite IH.
Qed.

Lemma Forall_join (P : byte → Prop) sep l :
  Forall P sep → Forall (Forall P) l → Forall P (join sep l).
Proof.
  intros Hsep. induction 1 as [|s l Hs Hall IH]; [constructor|].
  destruct l as [|s' l]; [done|].
  change (join sep (s :: s' :: l)) with (s ++ sep ++ join sep (s' :: l)).
  rewrite !Forall_app. done.
Qed.

#[global] Arguments strip_prefix !_ !_ : simpl nomatch.
#[global] Arguments split_once _ !_ : simpl nomatch.
#[global] Arguments show_u64 _ : simpl never.
#[global] Arguments parse_u64 _ : simpl never.
#[global] Arguments trim _ : simpl never.

Lemma strip_prefix_cons c p x s :
  strip_prefix (c :: p) (x :: s) = if decide (c = x) then strip_prefix p s else None.
Proof. done. Qed.

(* ------------------------------------------------------------------ *)
(** ** Splitting space-separated words *)

Lemma graphic_head_not_ws b s : ascii_graphic b → strip_any ws_seqs (b :: s) = None.
Proof. intros Hb. rewrite strip_any_head; [done|]. by apply graphic_not_ws_head. Qed.

Lemma split_ws_word w : Forall ascii_graphic w → ∀ fuel cur rest,
  split_ws_fuel (length w + fuel) cur (w ++ rest) = split_ws_fuel fuel (reverse w ++ cur) rest.
Proof.
  induction 1 as [|b w Hb _ IH]; intros fuel cur rest; [done|].
  cbn [length app Nat.add split_ws_fuel]. rewrite graphic_head_not_ws by done.
  rewrite IH, reverse_cons, <-app_assoc. done.
Qed.

(** A non-empty word of graphic ASCII characters. *)
Definition word (w : bytes) : Prop := w ≠ [] ∧ Forall ascii_graphic w.

Lemma split_whitespace_join ws : Forall word ws → split_whitespace (join [x20] ws) = ws.
Proof.
  unfold split_whitespace. induction 1 as [|w ws [Hne Hw] Hws IH]; [done|].
  assert (∀ l, reverse w ++ [] ≠ [] ∧ (match reverse w ++ [] with
    | [] => l | _ :: _ => reverse (reverse w ++ []) :: l end = w :: l)) as Hflush.
  { intros l. rewrite app_nil_r. rewrite reverse_involutive.
    destruct (reverse w) eqn:E; [|done].
    apply (f_equal reverse) in E. by rewrite reverse_involutive in E. }
  destruct ws as [|w' ws].
  - cbn [join]. replace (length w) with (length w + 0)%nat by lia.
    rewrite <-(app_nil_r w) at 2. rewrite split_ws_word by done. apply Hflush.
  - change (join [x20] (w :: w' :: ws)) with (w ++ x20 :: join [x20] (w' :: ws)).
    rewrite length_app. cbn [length]. rewrite split_ws_word by done.
    set (tl := join [x20] (w' :: ws)) in *.
    cbn [split_ws_fuel]. change (strip_any ws_seqs (x20 :: tl)) with (Some tl).
    cbv iota. rewrite IH. apply Hflush.
Qed.

Lemma word_ends w : word w →
  ∃ a s b, w = a :: s ∧ ascii_graphic a ∧ last w = Some b ∧ ascii_graphic b.
Proof.
  intros [Hne Hw]. destruct w as [|a s]; [done|].
  destruct (last (a :: s)) as [b|] eqn:E; [|by apply last_None in E].
  exists a, s, b. apply Forall_cons in Hw as Hw'. split_and!; try done; [naive_solver|].
  apply last_Some in E as [s' E]. rewrite E in Hw. by decompose_Forall.
Qed.

Lemma words_ends ws : ws ≠ [] → Forall word ws →
  ∃ a s b, join [x20] ws = a :: s ∧ ascii_graphic a
           ∧ last (join [x20] ws) = Some b ∧ ascii_graphic b.
Proof.
  intros Hne Hws. induction Hws as [|w ws Hw Hws IH]; [done|].
  destruct (word_ends w Hw) as (a & s & b & Ew & Ha & Hl & Hb).
  destruct ws as [|w' ws]; [by exists a, s, b|].
  destruct IH as (a' & s' & b' & Ej & _ & Hl' & Hb'); [done|].
  change (join [x20] (w :: w' :: ws)) with (w ++ [x20] ++ join [x20] (w' :: ws)).
  exists a, (s ++ [x20] ++ join [x20] (w' :: ws)), b'.
  split_and!; [by rewrite Ew|done| |done]. by rewrite !last_app, Hl'.
Qed.

(** A space-separated line of words has nothing to trim. *)
Lemma trim_words ws : Forall word ws → trim (join [x20] ws) = join [x20] ws.
Proof.
  intros Hws. destruct ws as [|w ws]; [done|]. apply trim_trimmed.
  destruct (words_ends (w :: ws)) as (a & s & b & E & Ha & Hl & Hb); [done..|].
  rewrite E in *. by eapply trimmed_graphic.
Qed.

(* ------------------------------------------------------------------ *)
(** ** Splitting at a separator whose first byte does not occur before it *)

Lemma strip_prefix_app p s : strip_prefix p (p ++ s) = Some s.
Proof. by apply strip_prefix_Some. Qed.

Lemma split_once_eq sep s :
  split_once sep s =
  match strip_prefix sep s with
  | Some rest => Some ([], rest)
  | None =>
      match s with
      | [] => None
      | c :: s' => (λ '(a, b), (c :: a, b)) <$> split_once sep s'
      end
  end.
Proof. by destruct s. Qed.

Lemma split_once_skip c sep x s :
  x ≠ c → split_once (c :: sep) (x :: s) = (λ '(a, b), (x :: a, b)) <$> split_once (c :: sep) s.
Proof.
  intros Hx. rewrite split_once_eq, strip_prefix_cons. by rewrite decide_False by congruence.
Qed.

Lemma split_once_first c sep s t :
  c ∉ s → split_once (c :: sep) (s ++ (c :: sep) ++ t) = Some (s, t).
Proof.
  induction s as [|x s IH].
  - intros _. rewrite app_nil_l, split_once_eq. by rewrite strip_prefix_app.
  - intros [Hx Hs]%not_elem_of_cons. cbn [app]. rewrite split_once_skip by congruence.
    cbn [app] in IH. by rewrite IH.
Qed.

Lemma split_once_absent c sep s : c ∉ s → split_once (c :: sep) s = None.
Proof.
  induction s as [|x s IH]; [done|].
  intros [Hx Hs]%not_elem_of_cons. rewrite split_once_skip by congruence. by rewrite IH.
Qed.

Lemma not_elem_of_join (c : byte) sep l :
  c ∉ sep → Forall (λ s, c ∉ s) l → c ∉ join sep l.
Proof.
  intros Hsep. induction 1 as [|s l Hs Hall IH]; [by apply not_elem_of_nil|].
  destruct l as [|s' l]; [done|].
  change (join sep (s :: s' :: l)) with (s ++ sep ++ join sep (s' :: l)).
  rewrite !elem_of_app. naive_solver.
Qed.

(* ------------------------------------------------------------------ *)
(** ** Trimming *)

Lemma strip_any_Some seqs s r :
  strip_any seqs s = Some r → ∃ p, p ∈ seqs ∧ s = p ++ r.
Proof.
  induction seqs as [|p seqs IH]; simpl; [done|].
  destruct (strip_prefix p s) as [r'|] eqn:E.
  - intros [= ->]. apply strip_prefix_Some in E. exists p. split; [left|done].
  - intros (q & ? & ?)%IH. exists q. split; [by right|done].
Qed.

Lemma strip_while_ind (P : bytes → Prop) fuel seqs s :
  (∀ p r, p ∈ seqs → P (p ++ r) → P r) → P s → P (strip_while fuel seqs s).
Proof.
  intros Hp. revert s. induction fuel as [|fuel IH]; intros s Hs; simpl; [done|].
  destruct (strip_any seqs s) as [r|] eqn:E; [|done].
  apply strip_any_Some in E as (p & Hin & ->). apply IH. by eapply Hp.
Qed.

Lemma trim_start_space s : strip_any ws_seqs s = None → trim_start (x20 :: s) = s.
Proof.
  intros Hs. unfold trim_start. cbn [length strip_while].
  change (strip_any ws_seqs (x20 :: s)) with (Some s). cbv iota. by apply strip_while_none.
Qed.

(** A byte in the middle does not help a longer white space sequence. *)
Lemma strip_any_app c seqs s t :
  s ≠ [] → Forall (λ p, (length p ≤ 1)%nat ∨ c ∉ p) seqs → strip_any seqs s = None →
  strip_any seqs (s ++ c :: t) = None.
Proof.
  intros Hne. induction 1 as [|p seqs Hp _ IH]; cbn [strip_any]; [done|].
  destruct (strip_prefix p s) eqn:E; [done|]. intros Hs. rewrite (IH Hs).
  destruct (strip_prefix p (s ++ c :: t)) as [r|] eqn:E'; [|done]. exfalso.
  apply strip_prefix_Some in E'. apply app_eq_inv in E' as [(k & -> & _)|(k & -> & E2)].
  - by rewrite strip_prefix_app in E.
  - destruct k as [|y k]; [rewrite app_nil_r in E; pose proof (strip_prefix_app s []) as H; rewrite app_nil_r in H; congruence|].
    injection E2 as <- _. destruct Hp as [Hp|Hp]; [|set_solver].
    rewrite length_app in Hp. destruct s; [done|]. simpl in Hp. lia.
Qed.

Lemma strip_any_prefix seqs s t r : strip_any seqs s = Some r → is_Some (strip_any seqs (s ++ t)).
Proof.
  induction seqs as [|p seqs IH]; simpl; [done|].
  destruct (strip_prefix p s) as [r'|] eqn:E; intros Hs.
  - apply strip_prefix_Some in E as ->. rewrite <- app_assoc, strip_prefix_app. by eexists.
  - destruct (strip_prefix p (s ++ t)); [by eexists|by apply IH].
Qed.

Lemma strip_while_suffix fuel seqs s : ∃ p, s = p ++ strip_while fuel seqs s.
Proof.
  revert s. induction fuel as [|fuel IH]; intros s; simpl; [by exists []|].
  destruct (strip_any seqs s) as [r|] eqn:E; [|by exists []].
  apply strip_any_Some in E as (p & _ & ->). destruct (IH r) as [q Hq].
  exists (p ++ q). rewrite <- app_assoc. by f_equal.
Qed.

Lemma trim_end_prefix s : ∃ t, s = trim_end s ++ t.
Proof.
  unfold trim_end. destruct (strip_while_suffix (length s) (reverse <$> ws_seqs) (reverse s)) as [p Hp].
  exists (reverse p). rewrite <- reverse_app, <- Hp. by rewrite reverse_involutive.
Qed.

Lemma trim_is_trimmed s : trimmed (trim s).
Proof.
  split; unfold trim.
  - destruct (strip_any ws_seqs (trim_end (trim_start s))) as [r|] eqn:E; [|done].
    destruct (trim_end_prefix (trim_start s)) as [t Ht].
    destruct (strip_any_prefix _ _ t _ E) as [r' E']. by rewrite <- Ht, trim_start_done in E'.
  - unfold trim_end. rewrite reverse_involutive. apply strip_while_done; [|by rewrite length_reverse].
    apply (bool_decide_unpack _). by vm_compute.
Qed.

Lemma trim_elem b s : b ∈ trim s → b ∈ s.
Proof.
  unfold trim. destruct (trim_end_prefix (trim_start s)) as [t Ht]. intros Hb.
  assert (Hb' : b ∈ trim_start s) by (rewrite Ht; set_solver). unfold trim_start in Hb'.
  destruct (strip_while_suffix (length s) ws_seqs s) as [p Hp]. rewrite Hp. set_solver.
Qed.

Lemma trim_space s : trimmed s → trim (x20 :: s) = s.
Proof.
  intros [H1 H2]. unfold trim. rewrite trim_start_space by done. unfold trim_end.
  rewrite strip_while_none by done. apply reverse_involutive.
Qed.

Lemma graphic_not_in_ws c :
  ascii_graphic c →
  Forall (λ p, (length p ≤ 1)%nat ∨ c ∉ p) ws_seqs ∧ Forall (λ p, (length p ≤ 1)%nat ∨ c ∉ p) (reverse <$> ws_seqs).
Proof.
  intros [Hl Hh]. apply (bool_decide_unpack _).
  destruct c; vm_compute in Hl, Hh |- *; solve [exact I | discriminate].
Qed.

(** Two trimmed strings around a graphic byte. *)
Lemma trimmed_around c n v :
  ascii_graphic c → n ≠ [] → trimmed n → trimmed v → trimmed (n ++ c :: v).
Proof.
  intros Hc Hn [Hn1 _] [_ Hv2]. destruct (graphic_not_in_ws c Hc) as [H1 H2]. split.
  - by apply strip_any_app.
  - rewrite reverse_app, reverse_cons, <- app_assoc. cbn [app].
    destruct v as [|x v]; [by apply strip_any_head, graphic_not_ws_last|].
    apply strip_any_app; [|done..]. rewrite reverse_cons. by destruct (reverse v).
Qed.

(* ------------------------------------------------------------------ *)
(** ** Lines *)

(** [str::lines]: the last line need not end, and a carriage return before the end of
    a line belongs to that end; one that ends the text belongs to its last line. *)
Definition str_lines (s : bytes) : list bytes :=
  let ls := split_char x0a s in
  ((λ l, default l (strip_suffix [x0d] l)) <$> removelast ls)
  ++ match last ls with Some ((_ :: _) as l) => [l] | _ => [] end.

Lemma split_char_prefix c a t : (c ∉ a) → ∃ h tl, split_char c t = h :: tl ∧ split_char c (a ++ t) = (a ++ h) :: tl.
Proof.
  intros Ha. destruct (split_char c t) as [|h tl] eqn:E; [by destruct (split_char_nonempty c t)|]. exists h, tl. split; [done|].
  induction a as [|b a IH]; [done|]. cbn [app split_char]. rewrite decide_False by set_solver. rewrite IH by set_solver. done.
Qed.

Lemma strip_suffix_snoc c s r : strip_suffix [c] s = Some r → s = r ++ [c].
Proof.
  unfold strip_suffix. destruct (strip_prefix _ _) as [q|] eqn:E; [|done]. intros [= <-].
  apply strip_prefix_Some in E. apply (f_equal reverse) in E. by rewrite reverse_involutive, reverse_app in E.
Qed.

Lemma strip_suffix_notin c l : (c ∉ l) → strip_suffix [c] l = None.
Proof.
  intros H. destruct (strip_suffix [c] l) as [r|] eqn:E; [|done]. exfalso. apply H.
  apply strip_suffix_snoc in E as ->. set_solver.
Qed.

Lemma strip_suffix_app c l : strip_suffix [c] (l ++ [c]) = Some l.
Proof.
  unfold strip_suffix. rewrite reverse_app. change (reverse [c]) with [c].
  rewrite (strip_prefix_app [c] (reverse l)). cbn. by rewrite reverse_involutive.
Qed.

(** The first line of a text, without its end. *)
Inductive first_line : bytes → bytes → Prop :=
| line_lf l rest : (x0a ∉ l) → last l ≠ Some x0d → first_line (l ++ x0a :: rest) l
| line_crlf l rest : (x0a ∉ l) → first_line (l ++ x0d :: x0a :: rest) l
| line_open l : (x0a ∉ l) → first_line l l.

Lemma head_ended_line l rest :
  (x0a ∉ l) → head (str_lines (l ++ x0a :: rest)) = Some (default l (strip_suffix [x0d] l)).
Proof.
  intros Hl. unfold str_lines. rewrite split_char_app by done.
  destruct (split_char x0a rest) as [|h tl] eqn:E; [by destruct (split_char_nonempty x0a rest)|]. done.
Qed.

Lemma str_lines_head t l : first_line t l ↔ default [] (head (str_lines t)) = l.
Proof.
  split.
  - intros [l' rest Hn Hr|l' rest Hn|l' Hn].
    + rewrite head_ended_line by done. cbn. destruct (strip_suffix [x0d] l') as [r|] eqn:E; [|done].
      apply strip_suffix_snoc in E as ->. by rewrite last_snoc in Hr.
    + replace (l' ++ x0d :: x0a :: rest) with ((l' ++ [x0d]) ++ x0a :: rest) by by rewrite <- app_assoc.
      rewrite head_ended_line by set_solver. by rewrite strip_suffix_app.
    + unfold str_lines. rewrite split_char_no_sep by done. by destruct l'.
  - intros <-. destruct (decide (x0a ∈ t)) as [Hin|Hout].
    + apply list_elem_of_split_l in Hin as (l' & rest & -> & Hn). rewrite head_ended_line by done. cbn.
      destruct (strip_suffix [x0d] l') as [r|] eqn:E; cbn.
      * apply strip_suffix_snoc in E as ->. rewrite <- app_assoc. constructor. set_solver.
      * constructor; [done|]. intros [l1 ->]%last_Some. by rewrite strip_suffix_app in E.
    + unfold str_lines. rewrite split_char_no_sep by done. destruct t; by constructor.
Qed.

Lemma first_line_prefix a t l : (x0a ∉ a) → (x0d ∉ a) → first_line (a ++ t) l → ∃ t', l = a ++ t'.
Proof.
  intros Ha Hr H%str_lines_head. subst l. destruct (decide (x0a ∈ t)) as [Hin|Hout].
  - apply list_elem_of_split_l in Hin as (l' & rest & -> & Hn). rewrite app_assoc, head_ended_line by set_solver. cbn.
    destruct (strip_suffix [x0d] (a ++ l')) as [r|] eqn:E; [|by eexists]. apply strip_suffix_snoc in E. cbn.
    destruct l' as [|x l' _] using rev_ind; [rewrite app_nil_r in E; subst a; set_solver|].
    rewrite app_assoc in E. apply app_inj_tail in E as [<- _]. by eexists.
  - exists t. apply str_lines_head. constructor. set_solver.
Qed.

(** A number of three digits. *)
Lemma show_u64_three z : 100 ≤ z ≤ 999 → length (show_u64 z) = 3%nat.
Proof.
  intros Hz. unfold show_u64. cbn [show_fuel]. rewrite (proj2 (Z.ltb_ge z 10)) by lia.
  rewrite (proj2 (Z.ltb_ge (z / 10) 10)) by (apply Z.div_le_lower_bound; lia).
  rewrite (proj2 (Z.ltb_lt (z / 10 / 10) 10)) by (rewrite Z.div_div by lia; apply Z.div_lt_upper_bound; lia).
  by rewrite !length_app.
Qed.

(** The second of the words of a line, which single spaces separate. *)
Definition second_word (line word : bytes) : Prop :=
  ∃ a rest, line = a ++ x20 :: word ++ rest ∧ (x20 ∉ a) ∧ (x20 ∉ word) ∧ (rest = [] ∨ head rest = Some x20).

(** A decimal number as [str::parse] takes it, with its value. *)
Definition decimal (acc : Z) (ds : list Z) : Z := foldl (λ n d, 10 * n + d) acc ds.
Definition numeral (s : bytes) (n : Z) : Prop :=
  ∃ ds, ds ≠ [] ∧ Forall (λ d, 0 ≤ d ≤ 9) ds ∧ n = decimal 0 ds
    ∧ (s = digit_byte <$> ds ∨ s = x2b :: (digit_byte <$> ds)).

Lemma decimal_le acc ds : 0 ≤ acc → Forall (λ d, 0 ≤ d ≤ 9) ds → acc ≤ decimal acc ds.
Proof.
  intros Ha Hd. revert acc Ha. induction Hd as [|d ds Hd _ IH]; intros acc Ha; cbn; [lia|].
  specialize (IH (10 * acc + d)). unfold decimal in *. lia.
Qed.

Lemma decimal_lt acc ds :
  0 ≤ acc → Forall (λ d, 0 ≤ d ≤ 9) ds → decimal acc ds < (acc + 1) * 10 ^ Z.of_nat (length ds).
Proof.
  intros Ha Hd. revert acc Ha. induction Hd as [|d ds Hd _ IH]; intros acc Ha; [cbn; lia|].
  change (decimal acc (d :: ds)) with (decimal (10 * acc + d) ds).
  eapply Z.lt_le_trans; [apply IH; lia|]. cbn [length]. rewrite Nat2Z.inj_succ, Z.pow_succ_r by lia.
  assert (0 < 10 ^ Z.of_nat (length ds)) by (apply Z.pow_pos_nonneg; lia). nia.
Qed.

Lemma numeral_lt s n : numeral s n → n < 10 ^ Z.of_nat (length s).
Proof.
  intros (ds & _ & Hd & -> & Hs). eapply Z.lt_le_trans; [apply decimal_lt; [lia|done]|].
  rewrite Z.add_0_l, Z.mul_1_l. apply Z.pow_le_mono_r; [lia|]. destruct Hs as [-> | ->]; cbn; rewrite length_fmap; lia.
Qed.

Lemma digit_val_Some c d : digit_val c = Some d → 0 ≤ d ≤ 9 ∧ c = digit_byte d.
Proof.
  unfold digit_val, digit_byte. case_if; [|done]. bool_to_prop. intros [= <-]. split; [lia|].
  replace (48 + (u8_val c - 48)) with (u8_val c) by lia. by rewrite u8_of_val.
Qed.

Lemma digit_byte_inj d d' : 0 ≤ d ≤ 9 → 0 ≤ d' ≤ 9 → digit_byte d = digit_byte d' → d = d'.
Proof. intros H H' E. pose proof (digit_val_byte d ltac:(lia)) as E1. rewrite E, digit_val_byte in E1 by lia. by injection E1. Qed.

Lemma parse_digits_iff max s acc v :
  0 ≤ acc → acc ≤ max →
  parse_digits max acc s = Some v ↔ ∃ ds, Forall (λ d, 0 ≤ d ≤ 9) ds ∧ s = digit_byte <$> ds ∧ v = decimal acc ds ∧ v ≤ max.
Proof.
  revert acc. induction s as [|c s IH]; intros acc Ha Hm; cbn [parse_digits].
  - split; [intros [= <-]; by exists []|]. by intros ([|] & _ & ? & -> & _).
  - destruct (digit_val c) as [d|] eqn:Ed.
    + apply digit_val_Some in Ed as [Hd ->]. destruct (Z.leb_spec (10 * acc + d) max).
      * rewrite IH by lia. split.
        -- intros (ds & HF & -> & -> & Hv). exists (d :: ds). split_and!; [by constructor|done..].
        -- intros ([|d' ds] & HF & Hs & -> & Hv); [done|]. apply Forall_cons in HF as [Hd' HF]. injection Hs as Hdd ->.
           apply digit_byte_inj in Hdd as ->; [|lia..]. by exists ds.
      * split; [done|]. intros ([|d' ds] & HF & Hs & -> & Hv); [done|]. apply Forall_cons in HF as [Hd' HF]. injection Hs as Hdd ->.
        apply digit_byte_inj in Hdd as ->; [|lia..]. pose proof (decimal_le (10 * acc + d') ds ltac:(lia) HF).
        change (decimal acc (d' :: ds)) with (decimal (10 * acc + d') ds) in Hv. lia.
    + split; [done|]. intros ([|d' ds] & HF & Hs & _); [done|]. apply Forall_cons in HF as [Hd' _]. injection Hs as -> _.
      by rewrite digit_val_byte in Ed by lia.
Qed.

Lemma parse_uint_iff max s n : 0 ≤ max → parse_uint max s = Some n ↔ numeral s n ∧ n ≤ max.
Proof.
  intros Hm. assert (Hp : ∀ d, 0 ≤ d ≤ 9 → digit_byte d ≠ x2b).
  { intros d Hd E. pose proof (digit_val_byte d ltac:(lia)) as Hv. by rewrite E in Hv. }
  unfold parse_uint. destruct s as [|c s].
  { split; [done|]. intros [(ds & Hne & _ & _ & Hs) _]. destruct ds; [done|]. by destruct Hs. }
  destruct (decide (c = x2b)) as [->|Hc].
  - destruct s as [|c s].
    { split; [done|]. intros [(ds & Hne & HF & _ & Hs) _]. destruct ds as [|d ds]; [done|]. apply Forall_cons in HF as [Hd _].
      destruct Hs as [Hs|Hs]; injection Hs; [intros _ E; by destruct (Hp d Hd)|done]. }
    rewrite parse_digits_iff by lia. split.
    + intros (ds & HF & Hs & -> & Hv). split; [|done]. exists ds. split_and!; [by intros ->|done|done|]. right. by rewrite Hs.
    + intros [(ds & Hne & HF & -> & Hs) Hv]. exists ds. split_and!; try done. destruct Hs as [Hs|Hs]; [|by injection Hs].
      destruct ds as [|d ds]; [done|]. apply Forall_cons in HF as [Hd _]. injection Hs as E _. by destruct (Hp d Hd).
  - rewrite parse_digits_iff by lia. split.
    + intros (ds & HF & Hs & -> & Hv). split; [|done]. exists ds. split_and!; [by intros ->|done|done|by left].
    + intros [(ds & Hne & HF & -> & Hs) Hv]. exists ds. split_and!; try done. destruct Hs as [Hs|Hs]; [done|]. by injection Hs.
Qed.

(* ------------------------------------------------------------------ *)
(** ** The order of strings *)

(** [Ord for str]: bytewise. *)
Fixpoint str_le (a b : bytes) : bool :=
  match a, b with
  | [], _ => true
  | _ :: _, [] => false
  | x :: a, y :: b => (u8_val x <? u8_val y) || (u8_val x =? u8_val y) && str_le a b
  end.

Definition str_before (a b : bytes) : Prop := str_le a b = true.
#[global] Instance str_before_dec : RelDecision str_before.
Proof. unfold RelDecision, str_before. apply _. Defined.


#[global] Instance str_before_total : Total str_before.
Proof.
  intros a. unfold str_before. induction a as [|x a IH]; intros [|y b]; simpl; auto.
  rewrite !orb_true_iff, !andb_true_iff, !Z.ltb_lt, !Z.eqb_eq. specialize (IH b).
  destruct (Z.lt_trichotomy (u8_val x) (u8_val y)) as [|[|]]; intuition lia.
Qed.

#[global] Instance str_before_trans : Transitive str_before.
Proof.
  intros a. unfold str_before. induction a as [|x a IH]; intros [|y b] [|z c]; simpl; try done.
  rewrite !orb_true_iff, !andb_true_iff, !Z.ltb_lt, !Z.eqb_eq. specialize (IH b c). intuition lia.
Qed.

#[global] Instance str_before_anti : AntiSymm (=) str_before.
Proof.
  intros a. unfold str_before. induction a as [|x a IH]; intros [|y b]; simpl; try done.
  rewrite !orb_true_iff, !andb_true_iff, !Z.ltb_lt, !Z.eqb_eq. intros Ha Hb.
  rewrite <- (u8_of_val x), <- (u8_of_val y). assert (u8_val x = u8_val y) as -> by lia.
  f_equal. apply IH; intuition lia.
Qed.
