(* ===== verification/F64.v ===== *)
(** * [f64]

    Rust's [f64] is IEEE 754 binary64: Rocq's specification floats at precision
    53 and exponent bound 1024, with round-to-nearest-even arithmetic.  The file
    gives the operations the cache performs on times and durations, [f64]
    parsing ([str::parse::<f64>], correctly rounded), and the order theory used
    by the expiry and freshness arguments: on non-NaN values [<] and [<=] are a
    total preorder. *)

From Stdlib Require Import SpecFloat.
From S2P Require Import Prelude RustStr.
Local Open Scope Z_scope.

Definition f64 : Set := spec_float.

#[global] Instance f64_eq_dec : EqDecision f64.
Proof. solve_decision. Defined.

Definition prec : Z := 53.
Definition emax : Z := 1024.

Definition f64_add : f64 → f64 → f64 := SFadd prec emax.
Definition f64_sub : f64 → f64 → f64 := SFsub prec emax.
Definition f64_mul : f64 → f64 → f64 := SFmul prec emax.
Definition f64_div : f64 → f64 → f64 := SFdiv prec emax.

(** [i64 as f64] and [u64 as f64]: round to nearest even. *)
Definition f64_of_Z (z : Z) : f64 := binary_normalize prec emax z 0 false.

Definition f64_zero : f64 := S754_zero false.

(** The comparison operators: all false when an operand is NaN. *)
Definition f64_compare (a b : f64) : option comparison := SFcompare a b.
Definition f64_lt (a b : f64) : bool := SFltb a b.
Definition f64_le (a b : f64) : bool := SFleb a b.
Definition f64_gt (a b : f64) : bool := f64_lt b a.
Definition f64_ge (a b : f64) : bool := f64_le b a.
Definition f64_eqb (a b : f64) : bool := SFeqb a b.

Definition is_nan (a : f64) : Prop := a = S754_nan.
#[global] Instance is_nan_dec a : Decision (is_nan a).
Proof. unfold is_nan. apply _. Defined.

(* ------------------------------------------------------------------ *)
(** ** Parsing *)

(** The correctly rounded value of [(-1)^s * m * 10^e]. *)
Definition f64_of_decimal (s : bool) (m e : Z) : f64 :=
  match m with
  | Zpos p =>
      if 0 <=? e then
        match m * 10 ^ e with
        | Zpos q => binary_round prec emax s q 0
        | _ => S754_zero s
        end
      else
        let '(q, e', l) := SFdiv_core_binary prec emax m 0 (10 ^ (- e)) 0 in
        binary_round_aux prec emax s q e' l
  | _ => S754_zero s
  end.

(** Read a maximal run of digits: value, number of digits, rest. *)
Fixpoint take_digits (acc : Z) (n : nat) (s : bytes) : Z * nat * bytes :=
  match s with
  | c :: s' =>
      match digit_val c with
      | Some d => take_digits (10 * acc + d) (S n) s'
      | None => (acc, n, s)
      end
  | [] => (acc, n, s)
  end.

Definition take_sign (s : bytes) : bool * bytes :=
  match s with
  | c :: s' =>
      if decide (c = x2d) then (true, s')
      else if decide (c = x2b) then (false, s')
      else (false, s)
  | [] => (false, s)
  end.

(** The optional exponent; [None] when the rest is not one. *)
Definition parse_exp (s : bytes) : option Z :=
  match s with
  | [] => Some 0
  | c :: s' =>
      if decide (ascii_lower c = x65) then
        let '(neg, s'') := take_sign s' in
        match take_digits 0 0 s'' with
        | (e, S _, []) => Some (if neg then - e else e)
        | _ => None
        end
      else None
  end.

Definition parse_number (neg : bool) (s : bytes) : option f64 :=
  let '(i, ni, s1) := take_digits 0 0 s in
  let '(m, nf, s2) :=
    match s1 with
    | c :: s1' => if decide (c = x2e) then take_digits i 0 s1' else (i, O, s1)
    | [] => (i, O, s1)
    end in
  match (ni + nf)%nat with
  | O => None
  | S _ =>
      match parse_exp s2 with
      | Some e => Some (f64_of_decimal neg m (e - Z.of_nat nf))
      | None => None
      end
  end.

(** [str::parse::<f64>().ok()]. *)
Definition parse_f64 (s : bytes) : option f64 :=
  let '(neg, r) := take_sign s in
  let l := to_ascii_lowercase r in
  if decide (l = str "inf" ∨ l = str "infinity") then Some (S754_infinity neg)
  else if decide (l = str "nan") then Some S754_nan
  else parse_number neg r.

Example parse_f64_int : parse_f64 (str "3600") = Some (f64_of_Z 3600).
Proof. vm_compute. reflexivity. Qed.
Example parse_f64_frac : parse_f64 (str "3.5") = Some (f64_div (f64_of_Z 7) (f64_of_Z 2)).
Proof. vm_compute. reflexivity. Qed.
Example parse_f64_tenth : parse_f64 (str "-1e-1") = Some (f64_div (f64_of_Z (-1)) (f64_of_Z 10)).
Proof. vm_compute. reflexivity. Qed.
Example parse_f64_bad : parse_f64 (str "12x") = None ∧ parse_f64 (str ".") = None.
Proof. split; vm_compute; reflexivity. Qed.

(* ------------------------------------------------------------------ *)
(** ** Order

    Comparison of non-NaN floats is the lexicographic comparison of a key. *)

Definition f64_key (a : f64) : Z * Z * Z :=
  match a with
  | S754_zero _ => (0, 0, 0)
  | S754_infinity s => (if s then -2 else 2, 0, 0)
  | S754_nan => (3, 0, 0)
  | S754_finite false m e => (1, e, Zpos m)
  | S754_finite true m e => (-1, - e, Zneg m)
  end.

Definition lex_lt (p q : Z * Z * Z) : Prop :=
  let '(a, b, c) := p in
  let '(a', b', c') := q in
  a < a' ∨ (a = a' ∧ (b < b' ∨ (b = b' ∧ c < c'))).

Lemma f64_lt_key a b :
  ¬ is_nan a → ¬ is_nan b → f64_lt a b = true ↔ lex_lt (f64_key a) (f64_key b).
Proof.
  unfold is_nan, f64_lt, SFltb, lex_lt. intros Ha Hb.
  destruct a as [s|s| |[] m e], b as [s'|s'| |[] m' e']; try done;
    try (destruct s); try (destruct s'); simpl;
    try (split; [intros [=]; lia | intros; first [done | lia]]);
    destruct (Z.compare_spec e e') as [->|?|?];
    change (Pos.compare_cont Eq m m') with (Pos.compare m m');
    try (destruct (Pos.compare_spec m m') as [->|?|?]); simpl;
    (split; [intros [=]; lia | intros; first [done | lia]]).
Qed.

Lemma f64_le_not_lt a b : ¬ is_nan a → ¬ is_nan b → f64_le a b = negb (f64_lt b a).
Proof.
  unfold is_nan, f64_le, f64_lt, SFleb, SFltb. intros Ha Hb.
  destruct a as [s|s| |[] m e], b as [s'|s'| |[] m' e']; try done;
    try (destruct s); try (destruct s'); simpl; try done;
    rewrite (Z.compare_antisym e e'); destruct (e ?= e') eqn:?; simpl; try done;
    change (Pos.compare_cont Eq m m') with (Pos.compare m m');
    change (Pos.compare_cont Eq m' m) with (Pos.compare m' m);
    rewrite (Pos.compare_antisym m m'); by destruct (Pos.compare m m').
Qed.

Lemma f64_compare_gt a b : f64_compare a b = Some Gt ↔ f64_lt b a = true.
Proof.
  unfold f64_compare, f64_lt, SFltb.
  destruct a as [s|s| |[] m e], b as [s'|s'| |[] m' e']; try done;
    try (destruct s); try (destruct s'); simpl; try done;
    rewrite (Z.compare_antisym e' e); destruct (e' ?= e) eqn:?; simpl; try done;
    change (Pos.compare_cont Eq m m') with (Pos.compare m m');
    change (Pos.compare_cont Eq m' m) with (Pos.compare m' m);
    rewrite (Pos.compare_antisym m' m); by destruct (Pos.compare m' m).
Qed.

Lemma f64_lt_nan_l b : f64_lt S754_nan b = false.
Proof. done. Qed.
Lemma f64_lt_nan_r a : f64_lt a S754_nan = false.
Proof. by destruct a. Qed.

Lemma f64_lt_not_nan a b : f64_lt a b = true → ¬ is_nan a ∧ ¬ is_nan b.
Proof. unfold is_nan. intros H. split; intros ->; [done|by rewrite f64_lt_nan_r in H]. Qed.

Lemma f64_le_not_nan a b : f64_le a b = true → ¬ is_nan a ∧ ¬ is_nan b.
Proof. unfold is_nan. intros H. split; intros ->; [done|by destruct a]. Qed.

Lemma lex_lt_trans p q r : lex_lt p q → lex_lt q r → lex_lt p r.
Proof. destruct p as [[??]?], q as [[??]?], r as [[??]?]; simpl; lia. Qed.

Lemma f64_lt_irrefl a : f64_lt a a = false.
Proof.
  destruct (f64_lt a a) eqn:E; [|done].
  destruct (f64_lt_not_nan _ _ E) as [Ha _].
  apply f64_lt_key in E; [|done..]. destruct (f64_key a) as [[??]?]; simpl in E; lia.
Qed.

Lemma f64_lt_trans a b c : f64_lt a b = true → f64_lt b c = true → f64_lt a c = true.
Proof.
  intros H1 H2.
  destruct (f64_lt_not_nan _ _ H1) as [Ha Hb], (f64_lt_not_nan _ _ H2) as [_ Hc].
  apply f64_lt_key in H1; [|done..]. apply f64_lt_key in H2; [|done..].
  apply f64_lt_key; [done..|]. by eapply lex_lt_trans.
Qed.

Lemma f64_lt_le a b : f64_lt a b = true → f64_le a b = true.
Proof.
  intros H. destruct (f64_lt_not_nan _ _ H) as [Ha Hb].
  rewrite f64_le_not_lt by done. apply negb_true_iff.
  destruct (f64_lt b a) eqn:E; [|done].
  pose proof (f64_lt_trans _ _ _ H E) as Hc. by rewrite f64_lt_irrefl in Hc.
Qed.

Lemma f64_not_lt_key a b :
  ¬ is_nan a → ¬ is_nan b → f64_lt a b = false ↔ ¬ lex_lt (f64_key a) (f64_key b).
Proof.
  intros Ha Hb. rewrite <-f64_lt_key by done. by destruct (f64_lt a b).
Qed.

Lemma f64_le_key a b :
  ¬ is_nan a → ¬ is_nan b → f64_le a b = true ↔ ¬ lex_lt (f64_key b) (f64_key a).
Proof.
  intros Ha Hb. rewrite f64_le_not_lt, negb_true_iff by done. by apply f64_not_lt_key.
Qed.

Lemma f64_le_trans a b c : f64_le a b = true → f64_le b c = true → f64_le a c = true.
Proof.
  intros H1 H2.
  destruct (f64_le_not_nan _ _ H1) as [Ha Hb], (f64_le_not_nan _ _ H2) as [_ Hc].
  apply f64_le_key in H1; [|done..]. apply f64_le_key in H2; [|done..].
  apply f64_le_key; [done..|].
  destruct (f64_key a) as [[??]?], (f64_key b) as [[??]?], (f64_key c) as [[??]?].
  simpl in *. lia.
Qed.

Lemma f64_le_refl a : ¬ is_nan a → f64_le a a = true.
Proof. intros. by rewrite f64_le_not_lt, f64_lt_irrefl. Qed.

Lemma f64_le_total a b :
  ¬ is_nan a → ¬ is_nan b → f64_le a b = true ∨ f64_le b a = true.
Proof.
  intros Ha Hb. rewrite !f64_le_key by done.
  destruct (f64_key a) as [[??]?], (f64_key b) as [[??]?]. simpl. lia.
Qed.

Lemma f64_lt_le_trans a b c : f64_lt a b = true → f64_le b c = true → f64_lt a c = true.
Proof.
  intros H1 H2.
  destruct (f64_lt_not_nan _ _ H1) as [Ha Hb], (f64_le_not_nan _ _ H2) as [_ Hc].
  apply f64_lt_key in H1; [|done..]. apply f64_le_key in H2; [|done..].
  apply f64_lt_key; [done..|].
  destruct (f64_key a) as [[??]?], (f64_key b) as [[??]?], (f64_key c) as [[??]?].
  simpl in *. lia.
Qed.

Lemma f64_le_lt_trans a b c : f64_le a b = true → f64_lt b c = true → f64_lt a c = true.
Proof.
  intros H1 H2.
  destruct (f64_le_not_nan _ _ H1) as [Ha Hb], (f64_lt_not_nan _ _ H2) as [_ Hc].
  apply f64_le_key in H1; [|done..]. apply f64_lt_key in H2; [|done..].
  apply f64_lt_key; [done..|].
  destruct (f64_key a) as [[??]?], (f64_key b) as [[??]?], (f64_key c) as [[??]?].
  simpl in *. lia.
Qed.

#[export] Hint Resolve f64_lt_irrefl f64_lt_trans f64_le_trans f64_le_refl
  f64_lt_le_trans f64_le_lt_trans f64_lt_le : rust.
