(* ===== verification/F64Exact.v ===== *)
(** * Exact arithmetic on binary64

    The integers a float can hold exactly, and that conversion, multiplication,
    comparison and truncation agree with those of [Z] on them. *)

From Stdlib Require Import SpecFloat.
From S2P Require Import Prelude RustStr F64.
Local Open Scope Z_scope.

(** [x] is the normalised float of the positive integer [c]. *)
Definition denotes (x : f64) (c : Z) : Prop :=
  ∃ m e, x = S754_finite false m e ∧ 2 ^ 52 ≤ Z.pos m < 2 ^ 53 ∧ - 52 ≤ e ≤ 971
    ∧ Z.pos m * 2 ^ (e + 52) = c * 2 ^ 52.

(** At most 53 significant bits. *)
Definition representable (c : Z) : Prop := ∃ c0 k, 0 < c0 < 2 ^ 53 ∧ 0 ≤ k ∧ c = c0 * 2 ^ k.

Lemma digits2_log2 p : Z.pos (digits2_pos p) = Z.log2 (Z.pos p) + 1.
Proof.
  induction p as [p IH|p IH|]; [| |done]; cbn [digits2_pos]; rewrite Pos2Z.inj_succ, IH.
  - rewrite (Pos2Z.inj_xI p), Z.log2_succ_double by done. lia.
  - rewrite (Pos2Z.inj_xO p), Z.log2_double by done. lia.
Qed.

Lemma iter_pos_shift p m :
  SpecFloat.iter_pos shr_1 p (Build_shr_record (m * 2 ^ Z.pos p) false false) = Build_shr_record m false false.
Proof.
  assert (∀ m, shr_1 (Build_shr_record (m * 2) false false) = Build_shr_record m false false) as H1.
  { intros [|q|q]; simpl; rewrite ?Pos.mul_1_r; [done|by rewrite (Pos.mul_comm q 2)..]. }
  revert m. induction p as [p IH|p IH|]; intros m; cbn [SpecFloat.iter_pos].
  - replace (m * 2 ^ Z.pos p~1) with (m * 2 ^ Z.pos p * 2 ^ Z.pos p * 2).
    { by rewrite H1, !IH. }
    rewrite (Pos2Z.inj_xI p), Z.add_1_r, Z.pow_succ_r by lia. replace (2 * Z.pos p) with (Z.pos p + Z.pos p) by lia.
    rewrite Z.pow_add_r by lia. ring.
  - replace (m * 2 ^ Z.pos p~0) with (m * 2 ^ Z.pos p * 2 ^ Z.pos p); [by rewrite !IH|].
    rewrite (Pos2Z.inj_xO p). replace (2 * Z.pos p) with (Z.pos p + Z.pos p) by lia.
    rewrite Z.pow_add_r by lia. ring.
  - rewrite Z.pow_1_r. apply H1.
Qed.

Lemma fexp_normal d : - 1021 ≤ d → fexp prec emax d = d - 53.
Proof. intros. unfold fexp, emin, prec, emax. lia. Qed.

Lemma log2_mantissa m : 2 ^ 52 ≤ m < 2 ^ 53 → Z.log2 m = 52.
Proof. intros. apply Z.log2_unique; lia. Qed.

(** An exact shift of a 53-bit significand. *)
Lemma shr_fexp_exact m j e :
  2 ^ 52 ≤ Z.pos m < 2 ^ 53 → 0 ≤ j → - 1074 ≤ e + j →
  shr_fexp prec emax (Z.pos m * 2 ^ j) e loc_Exact = (Build_shr_record (Z.pos m) false false, e + j).
Proof.
  intros Hm Hj He. assert (0 < Z.pos m * 2 ^ j) as Hpos by (apply Z.mul_pos_pos; lia).
  unfold shr_fexp. assert (Zdigits2 (Z.pos m * 2 ^ j) = 53 + j) as ->.
  { destruct (Z.pos m * 2 ^ j) as [|q|q] eqn:E; try lia. simpl. rewrite digits2_log2, <-E.
    rewrite Z.log2_mul_pow2, log2_mantissa by lia. lia. }
  rewrite fexp_normal by lia. replace (53 + j + e - 53 - e) with j by lia.
  destruct j as [|j|j]; [|cbn [shr shr_record_of_loc]; by rewrite iter_pos_shift|lia].
  cbn [shr shr_record_of_loc]. by rewrite Z.pow_0_r, Z.mul_1_r, Z.add_0_r.
Qed.

Lemma round_aux_exact s m j e :
  2 ^ 52 ≤ Z.pos m < 2 ^ 53 → 0 ≤ j → - 1074 ≤ e + j ≤ 971 →
  binary_round_aux prec emax s (Z.pos m * 2 ^ j) e loc_Exact = S754_finite s m (e + j).
Proof.
  intros Hm Hj He. unfold binary_round_aux. rewrite shr_fexp_exact by lia. cbn [shr_m loc_of_shr_record round_nearest_even].
  replace (Z.pos m) with (Z.pos m * 2 ^ 0) at 1 by lia. rewrite shr_fexp_exact by lia. cbn [shr_m].
  rewrite Z.add_0_r. by rewrite (proj2 (Z.leb_le (e + j) (emax - prec))) by (unfold emax, prec; lia).
Qed.

(** The significand of a representable integer. *)
Lemma representable_mantissa c :
  representable c → ∃ m e, 2 ^ 52 ≤ Z.pos m < 2 ^ 53 ∧ - 52 ≤ e ∧ Z.pos m * 2 ^ (e + 52) = c * 2 ^ 52 ∧ Z.log2 c = e + 52.
Proof.
  intros (c0 & k & Hc & Hk & ->). pose proof (Z.log2_spec c0 ltac:(lia)) as [Hlo Hhi].
  assert (0 ≤ Z.log2 c0 ≤ 52) as Hd.
  { split; [apply Z.log2_nonneg|]. enough (Z.log2 c0 < 53) by lia. apply Z.log2_lt_pow2; lia. }
  set (d := Z.log2 c0) in *. assert (0 < c0 * 2 ^ (52 - d)) as Hm by (apply Z.mul_pos_pos; lia).
  destruct (c0 * 2 ^ (52 - d)) as [|m|m] eqn:E; try lia. exists m, (k + d - 52).
  assert (2 ^ d * 2 ^ (52 - d) = 2 ^ 52) as Hp by (rewrite <-Z.pow_add_r by lia; f_equal; lia).
  split_and!.
  - rewrite <-E, <-Hp. apply Z.mul_le_mono_nonneg_r; lia.
  - rewrite <-E. replace (2 ^ 53) with (2 ^ Z.succ d * 2 ^ (52 - d)) by (rewrite <-Z.pow_add_r by lia; f_equal; lia).
    apply Z.mul_lt_mono_pos_r; lia.
  - lia.
  - rewrite <-E. replace (k + d - 52 + 52) with (k + d) by lia. rewrite <-Hp, Z.pow_add_r by lia. ring.
  - rewrite Z.log2_mul_pow2 by lia. fold d. lia.
Qed.

(** Equal values, shifted to a common exponent. *)
Lemma shift_eq a b x y : 0 ≤ x → x ≤ y → a * 2 ^ x = b * 2 ^ y → a = b * 2 ^ (y - x).
Proof.
  intros Hx Hxy H. apply (Z.mul_cancel_r _ _ (2 ^ x)); [lia|]. rewrite H, <-Z.mul_assoc, <-Z.pow_add_r by lia.
  do 2 f_equal. lia.
Qed.

Lemma f64_of_Z_exact c : representable c → Z.log2 c ≤ 1023 → denotes (f64_of_Z c) c.
Proof.
  intros Hr Hc. destruct (representable_mantissa c Hr) as (m & e & Hm & He & Hv & Hl).
  assert (e ≤ 971) as He2 by lia.
  exists m, e. split; [|split_and!; (done || lia)]. unfold f64_of_Z, binary_normalize.
  destruct c as [|p|p]; [lia| |lia]. unfold binary_round. rewrite digits2_log2, Hl, Z.add_0_r, fexp_normal by lia.
  replace (e + 52 + 1 - 53) with e by lia. unfold shl_align. rewrite Z.sub_0_r. destruct e as [|e|e].
  - rewrite Z.add_0_l in Hv. apply Z.mul_cancel_r in Hv; [|lia]. injection Hv as ->.
    pose proof (round_aux_exact false p 0 0 ltac:(lia) ltac:(lia) ltac:(lia)) as H. rewrite Z.pow_0_r, Z.mul_1_r in H. done.
  - symmetry in Hv. apply shift_eq in Hv; [|lia..]. replace (Z.pos e + 52 - 52) with (Z.pos e) in Hv by lia.
    rewrite Hv. by apply round_aux_exact.
  - assert (Pos.iter xO p e = m) as ->.
    { apply shift_eq in Hv; [|lia..]. replace (52 - (Z.neg e + 52)) with (Z.pos e) in Hv by lia.
      apply (inj Z.pos). rewrite Hv, <-Z.shiftl_mul_pow2 by lia. simpl. by apply (Pos.iter_swap_gen _ _ Z.pos xO (Z.mul 2)). }
    pose proof (round_aux_exact false m 0 (Z.neg e) ltac:(lia) ltac:(lia) ltac:(lia)) as H.
    rewrite Z.pow_0_r, Z.mul_1_r, Z.add_0_r in H. done.
Qed.

Lemma f64_mul_exact x y a b :
  denotes x a → denotes y b → representable (a * b) → Z.log2 (a * b) ≤ 1023 → denotes (f64_mul x y) (a * b).
Proof.
  intros (ma & ea & -> & Hma & Hea & Hva) (mb & eb & -> & Hmb & Heb & Hvb) Hr Hc.
  destruct (representable_mantissa _ Hr) as (m & e & Hm & He & Hv & Hl).
  assert (e ≤ 971) as He2 by lia.
  assert (Z.pos (ma * mb) * 2 ^ (ea + eb + 104) = Z.pos m * 2 ^ (e + 104)) as Heq.
  { replace (ea + eb + 104) with ((ea + 52) + (eb + 52)) by lia. replace (e + 104) with ((e + 52) + 52) by lia.
    rewrite (Z.pow_add_r 2 (ea + 52)), (Z.pow_add_r 2 (e + 52)), Pos2Z.inj_mul by lia.
    transitivity ((Z.pos ma * 2 ^ (ea + 52)) * (Z.pos mb * 2 ^ (eb + 52))); [ring|]. rewrite Hva, Hvb.
    transitivity ((a * b * 2 ^ 52) * 2 ^ 52); [ring|]. rewrite <-Hv. ring. }
  assert (ea + eb ≤ e) as Hle.
  { destruct (decide (ea + eb ≤ e)) as [|Hn]; [done|]. symmetry in Heq. apply shift_eq in Heq; [|lia..].
    assert (Z.pos (ma * mb) * 1 ≤ Z.pos m) as Hbad.
    { rewrite Heq. apply Z.mul_le_mono_nonneg_l; [lia|]. apply (Z.pow_le_mono_r 2 0); lia. }
    rewrite Pos2Z.inj_mul in Hbad. nia. }
  apply shift_eq in Heq; [|lia..]. replace (e + 104 - (ea + eb + 104)) with (e - (ea + eb)) in Heq by lia.
  exists m, e. split; [|split_and!; (done || lia)]. unfold f64_mul, SFmul. rewrite Heq. cbn [xorb].
  rewrite round_aux_exact by lia. f_equal. lia.
Qed.

Lemma denotes_pos x c : denotes x c → f64_lt x f64_zero = false.
Proof. by intros (m & e & -> & _). Qed.

(** The integer part of a float's absolute value. *)
Definition f64_trunc (m : positive) (e : Z) : Z :=
  if 0 <=? e then Z.pos m * 2 ^ e else Z.pos m / 2 ^ (- e).

Lemma denotes_trunc x c : denotes x c → ∃ m e, x = S754_finite false m e ∧ f64_trunc m e = c.
Proof.
  intros (m & e & -> & Hm & He & Hv). exists m, e. split; [done|]. unfold f64_trunc.
  destruct (Z.leb_spec 0 e).
  - symmetry in Hv. apply shift_eq in Hv; [|lia..]. rewrite Hv. do 2 f_equal. lia.
  - apply shift_eq in Hv; [|lia..]. replace (52 - (e + 52)) with (- e) in Hv by lia. rewrite Hv.
    apply Z.div_mul. lia.
Qed.

(** [u64::MAX as f64] is 2^64. *)
Lemma f64_u64_max : ∃ k, f64_of_Z u64_max = S754_finite false k 12 ∧ Z.pos k = 2 ^ 52.
Proof. exists 4503599627370496%positive. split; vm_compute; reflexivity. Qed.

Lemma denotes_gt_max x c : denotes x c → f64_gt x (f64_of_Z u64_max) = (2 ^ 64 <? c).
Proof.
  intros (m & e & -> & Hm & He & Hv). destruct f64_u64_max as (k & -> & Hk).
  unfold f64_gt, f64_lt, SFltb, SFcompare. symmetry. destruct (Z.compare_spec 12 e) as [<-|Hlt|Hgt].
  - symmetry in Hv. apply shift_eq in Hv; [|lia..]. change (12 + 52 - 52) with 12 in Hv. rewrite Hv.
    change (Pos.compare_cont Eq k m) with (k ?= m)%positive.
    destruct (Pos.compare_spec k m); [apply Z.ltb_ge|apply Z.ltb_lt|apply Z.ltb_ge]; lia.
  - symmetry in Hv. apply shift_eq in Hv; [|lia..].
    assert (2 ^ 13 ≤ 2 ^ (e + 52 - 52)) as Hp by (apply Z.pow_le_mono_r; lia). apply Z.ltb_lt. nia.
  - assert (2 ^ (e + 52) ≤ 2 ^ 63) as Hp by (apply Z.pow_le_mono_r; lia). apply Z.ltb_ge. nia.
Qed.

Lemma take_digits_all max s : ∀ acc n v,
  parse_digits max acc s = Some v → take_digits acc n s = (v, (n + length s)%nat, []).
Proof.
  induction s as [|c s IH]; intros acc n v; simpl; [intros [= ->]; by rewrite Nat.add_0_r|].
  destruct (digit_val c) as [d|]; [|done]. case_if; [|done]. intros H. rewrite (IH _ (S n) _ H). do 2 f_equal. lia.
Qed.

Lemma f64_of_decimal_int n : 0 ≤ n → f64_of_decimal false n 0 = f64_of_Z n.
Proof.
  intros Hn. destruct n as [|p|p]; [done| |lia]. unfold f64_of_decimal, f64_of_Z, binary_normalize.
  change (0 <=? 0) with true. cbv iota. rewrite Z.pow_0_r, Z.mul_1_r. done.
Qed.

(** A printed integer parses to its float. *)
Lemma parse_f64_show n : 0 ≤ n ≤ u64_max → parse_f64 (show_u64 n) = Some (f64_of_Z n).
Proof.
  intros Hn. pose proof (show_u64_digits n Hn) as Hd.
  assert (parse_digits u64_max 0 (show_u64 n) = Some n) as Hp.
  { apply show_fuel_parse; [lia|]. unfold u64_max in Hn. simpl. lia. }
  destruct (show_u64_cons n) as (c & s & E). rewrite E in *. apply Forall_cons in Hd as [Hc _].
  assert (∀ x, digit_val x = None → c ≠ x) as Hne by (intros x Hx ->; destruct Hc; congruence).
  assert (to_ascii_lowercase (c :: s) = c :: to_ascii_lowercase s) as Hlow.
  { simpl. f_equal. destruct Hc as [d Hc]. unfold digit_val in Hc. case_if_in Hc; [|done]. bool_to_prop.
    unfold ascii_lower. by rewrite (proj2 (Z.leb_gt _ _)) by lia. }
  unfold parse_f64, take_sign. rewrite !decide_False by (by apply Hne). rewrite Hlow.
  rewrite (decide_False (P := _ ∨ _)) by (intros [H|H]; injection H as H _; by apply (Hne "i"%byte)).
  rewrite decide_False by (intros H; injection H as H _; by apply (Hne "n"%byte)).
  unfold parse_number. rewrite (take_digits_all _ _ 0 0 n Hp). cbn [length Nat.add parse_exp].
  by rewrite f64_of_decimal_int by lia.
Qed.
