(* ===== verification/Config.v ===== *)
(** * Configuration

    Models [rv-config/src/parse.rs] (durations and sizes written by people) and the
    sections of [rv-config/src/config.rs] with their default values.  Reading the
    file formats (serde with TOML, JSON and YAML) is left to those libraries. *)

From Stdlib Require Import SpecFloat.
From S2P Require Import Prelude RustStr F64 F64Exact.
Local Open Scope Z_scope.

Module ParseError.

Inductive t : Set :=
| Empty
| InvalidNumber (input : bytes)
| UnknownDurationSuffix (input : bytes)
| UnknownSizeSuffix (input : bytes)
| SizeOverflow (input : bytes).

End ParseError.

(** The first suffix of the list that [s] ends in, with its value; the rest of [s]. *)
Fixpoint first_suffix {A} (table : list (bytes * A)) (s : bytes) : option (bytes * A) :=
  match table with
  | [] => None
  | (suf, a) :: table =>
      match strip_suffix suf s with
      | Some num => Some (num, a)
      | None => first_suffix table s
      end
  end.

(** Round [num / den] to the nearest integer, ties to even. *)
Definition round_half_even (num den : Z) : Z :=
  let q := num / den in
  let r := num mod den in
  if 2 * r <? den then q else if den <? 2 * r then q + 1 else if Z.even q then q else q + 1.

(** [Duration::from_secs_f64], in nanoseconds: [None] for the panic on a negative,
    non-finite or too large number of seconds. *)
Definition Duration_from_secs_f64 (x : f64) : option Z :=
  match x with
  | S754_zero _ => Some 0
  | S754_finite false m e =>
      if 0 <=? e then
        if Z.pos m * 2 ^ e <? 2 ^ 64 then Some (Z.pos m * 2 ^ e * 10 ^ 9) else None
      else Some (round_half_even (Z.pos m * 10 ^ 9) (2 ^ (- e)))
  | _ => None
  end.

Definition duration_suffixes : list (bytes * f64) :=
  [(str "ms", f64_of_decimal false 1 (-3)); (str "s", f64_of_Z 1); (str "m", f64_of_Z 60);
   (str "h", f64_of_Z 3600); (str "d", f64_of_Z 86400)].

(** [parse_duration]: [None] when it panics, and nanoseconds otherwise. *)
Definition parse_duration (input : bytes) : option (result Z ParseError.t) :=
  let s := trim input in
  match s with
  | [] => Some (Err ParseError.Empty)
  | _ =>
      match first_suffix duration_suffixes (to_ascii_lowercase s) with
      | None => Some (Err (ParseError.UnknownDurationSuffix s))
      | Some (num_part, multiplier) =>
          match parse_f64 num_part with
          | None => Some (Err (ParseError.InvalidNumber s))
          | Some value => Ok <$> Duration_from_secs_f64 (f64_mul value multiplier)
          end
      end
  end.

(** [bytes as usize]: towards zero, saturating, 0 for NaN. *)
Definition f64_to_usize (x : f64) : Z :=
  match x with
  | S754_finite false m e => Z.min u64_max (f64_trunc m e)
  | S754_infinity false => u64_max
  | _ => 0
  end.

Definition size_suffixes : list (bytes * Z) :=
  [(str "tb", 2 ^ 40); (str "gb", 2 ^ 30); (str "mb", 2 ^ 20); (str "kb", 2 ^ 10);
   (str "t", 2 ^ 40); (str "g", 2 ^ 30); (str "m", 2 ^ 20); (str "k", 2 ^ 10); (str "b", 1)].

Definition parse_size (input : bytes) : result Z ParseError.t :=
  let s := trim input in
  match s with
  | [] => Err ParseError.Empty
  | _ =>
      let lower := to_ascii_lowercase s in
      let '(num_part, multiplier) := default (lower, 1) (first_suffix size_suffixes lower) in
      match parse_f64 num_part with
      | None => Err (ParseError.InvalidNumber s)
      | Some value =>
          let bytes := f64_mul value (f64_of_Z multiplier) in
          if f64_lt bytes f64_zero || f64_gt bytes (f64_of_Z u64_max) then Err (ParseError.SizeOverflow s)
          else Ok (f64_to_usize bytes)
      end
  end.

Example config_duration_ms : parse_duration (str " 500MS ") = Some (Ok 500000000).
Proof. vm_compute. reflexivity. Qed.
Example parse_duration_frac : parse_duration (str "3.5s") = Some (Ok 3500000000).
Proof. vm_compute. reflexivity. Qed.
Example parse_size_frac : parse_size (str "1.5k") = Ok 1536.
Proof. vm_compute. reflexivity. Qed.

(* ------------------------------------------------------------------ *)
(** ** The sections of the configuration *)

Record ListenConfig : Set := mkListenConfig {
  lc_address : bytes;
  lc_protocol : bytes;
  lc_tls_cert : option bytes;
  lc_tls_key : option bytes;
}.
Definition ListenConfig_default : ListenConfig :=
  mkListenConfig (str "0.0.0.0:8080") (str "http") None None.

Record StorageConfig : Set := mkStorageConfig {
  stc_type : bytes;
  stc_size : bytes;
  stc_path : option bytes;
}.
Definition StorageConfig_default : StorageConfig := mkStorageConfig (str "malloc") (str "256m") None.

Record HashConfig : Set := mkHashConfig { hc_type : bytes }.
Definition HashConfig_default : HashConfig := mkHashConfig (str "critbit").

Record TtlConfig : Set := mkTtlConfig {
  tc_default_ttl : bytes;
  tc_default_grace : bytes;
  tc_default_keep : bytes;
}.
Definition TtlConfig_default : TtlConfig := mkTtlConfig (str "120s") (str "10s") (str "0s").

Record ThreadPoolConfig : Set := mkThreadPoolConfig {
  tp_pool_count : Z;
  tp_thread_pool_min : Z;
  tp_thread_pool_max : Z;
}.
Definition ThreadPoolConfig_default : ThreadPoolConfig := mkThreadPoolConfig 2 100 5000.

Record TimeoutConfig : Set := mkTimeoutConfig {
  to_connect_timeout : bytes;
  to_first_byte_timeout : bytes;
  to_between_bytes_timeout : bytes;
  to_send_timeout : bytes;
  to_pipe_timeout : bytes;
  to_backend_idle_timeout : bytes;
}.
Definition TimeoutConfig_default : TimeoutConfig :=
  mkTimeoutConfig (str "3.5s") (str "60s") (str "60s") (str "60s") (str "60s") (str "60s").

Record BackendConfig : Set := mkBackendConfig {
  bc_name : bytes;
  bc_host : bytes;
  bc_port : Z;
  bc_probe : option bytes;
  bc_max_connections : option Z;
  bc_connect_timeout : option bytes;
  bc_first_byte_timeout : option bytes;
  bc_between_bytes_timeout : option bytes;
}.

Record ProbeConfig : Set := mkProbeConfig {
  pc_url : bytes;
  pc_interval : bytes;
  pc_timeout : bytes;
  pc_threshold : Z;
  pc_window : Z;
  pc_initial : option Z;
}.
Definition ProbeConfig_default : ProbeConfig :=
  mkProbeConfig (str "/health") (str "5s") (str "1s") 3 5 None.

Record AclEntry : Set := mkAclEntry {
  ae_addr : bytes;
  ae_mask : option Z;
  ae_negate : bool;
}.
Record AclConfig : Set := mkAclConfig { acl_entries : list AclEntry }.

Record VclConfig : Set := mkVclConfig {
  vc_file : option bytes;
  vc_inline : option bytes;
}.

Record AdminConfig : Set := mkAdminConfig {
  ac_listen : bytes;
  ac_secret_file : option bytes;
}.
Definition AdminConfig_default : AdminConfig := mkAdminConfig (str "127.0.0.1:6082") None.

Record LogConfig : Set := mkLogConfig {
  lg_size : bytes;
  lg_format : bytes;
}.
Definition LogConfig_default : LogConfig := mkLogConfig (str "80m") (str "binary").

Record FeatureFlags : Set := mkFeatureFlags {
  ff_esi_disable_xml_check : bool;
  ff_esi_ignore_https : bool;
  ff_esi_ignore_other_elements : bool;
  ff_short_panic : bool;
  ff_wait_silo : bool;
  ff_no_coredump : bool;
  ff_http2 : bool;
}.
Definition FeatureFlags_default : FeatureFlags := mkFeatureFlags false false false false false false false.

Record CacheConfig : Set := mkCacheConfig {
  cc_listen : list ListenConfig;
  cc_storage : gmap bytes StorageConfig;
  cc_hash : HashConfig;
  cc_ttl : TtlConfig;
  cc_threads : ThreadPoolConfig;
  cc_timeouts : TimeoutConfig;
  cc_backends : list BackendConfig;
  cc_probes : gmap bytes ProbeConfig;
  cc_acls : gmap bytes AclConfig;
  cc_vcl : option VclConfig;
  cc_admin : AdminConfig;
  cc_logging : LogConfig;
  cc_features : FeatureFlags;
}.
Definition CacheConfig_default : CacheConfig :=
  mkCacheConfig [ListenConfig_default] {[str "default" := StorageConfig_default]} HashConfig_default
    TtlConfig_default ThreadPoolConfig_default TimeoutConfig_default [] ∅ ∅ None AdminConfig_default
    LogConfig_default FeatureFlags_default.

(* ------------------------------------------------------------------ *)
(** ** Numbers with a suffix *)

Definition letters (p : bytes) : bool := forallb (λ c, bool_decide (digit_val c = None)) p.

(** A suffix of letters cannot reach into the digits. *)
Lemma suffix_match d suf p r :
  Forall (λ c, is_Some (digit_val c)) d → letters p = true →
  strip_suffix p (d ++ suf) = Some r → ∃ r', suf = r' ++ p.
Proof.
  intros Hd Hp Hs. apply strip_suffix_Some in Hs.
  apply app_eq_inv in Hs as [(k & -> & ->)|(k & -> & ->)]; [|by exists k].
  destruct k as [|c k]; [by exists []|]. exfalso. apply Forall_app in Hd as [_ Hd].
  inversion Hd as [|? ? [x Hx] _]; subst. cbn in Hp. rewrite Hx in Hp. done.
Qed.

(** The value of a suffix that no earlier entry of the table ends. *)
Fixpoint suffix_value {A} (table : list (bytes * A)) (suf : bytes) : option A :=
  match table with
  | [] => None
  | (p, a) :: table =>
      if letters p then
        if decide (p = suf) then Some a
        else if decide (is_Some (strip_suffix p suf)) then None else suffix_value table suf
      else None
  end.

Lemma first_suffix_app {A} (table : list (bytes * A)) d suf a :
  Forall (λ c, is_Some (digit_val c)) d → suffix_value table suf = Some a →
  first_suffix table (d ++ suf) = Some (d, a).
Proof.
  intros Hd. induction table as [|[p b] table IH]; cbn [suffix_value first_suffix]; [done|].
  destruct (letters p) eqn:Hp; [|done]. case_decide as E.
  - subst p. intros [= ->]. by rewrite (proj2 (strip_suffix_Some suf (d ++ suf) d) eq_refl).
  - case_decide as Hns; [done|]. intros Hv. destruct (strip_suffix p (d ++ suf)) as [r|] eqn:Es; [|by apply IH].
    exfalso. apply Hns. apply suffix_match in Es as [r' ->]; [|done|done]. exists r'. by apply strip_suffix_Some.
Qed.

Lemma first_suffix_none {A} (table : list (bytes * A)) d :
  Forall (λ c, is_Some (digit_val c)) d → Forall (λ e, e.1 ≠ [] ∧ letters e.1 = true) table →
  first_suffix table d = None.
Proof.
  intros Hd. induction 1 as [|[p b] table [Hne Hp] _ IH]; [done|]. cbn [first_suffix].
  destruct (strip_suffix p d) as [r|] eqn:Es; [|done]. exfalso. cbn in Hne, Hp.
  rewrite <-(app_nil_r d) in Es. apply suffix_match in Es as [r' E]; [|done|done].
  symmetry in E. by apply app_eq_nil in E as [_ ?].
Qed.

Lemma ascii_lower_graphic c : ascii_graphic (ascii_lower c) → ascii_graphic c.
Proof. unfold ascii_graphic. destruct c; vm_compute; tauto. Qed.

Lemma lower_digits d : Forall (λ c, is_Some (digit_val c)) d → to_ascii_lowercase d = d.
Proof.
  induction 1 as [|c d [x Hc] _ IH]; [done|]. simpl. f_equal; [|done].
  unfold digit_val in Hc. case_if_in Hc; [|done]. bool_to_prop.
  unfold ascii_lower. by rewrite (proj2 (Z.leb_gt _ _)) by lia.
Qed.

(** What the parsers see of a printed number with a suffix. *)
Lemma suffixed_input n suf :
  0 ≤ n ≤ u64_max → Forall ascii_graphic (to_ascii_lowercase suf) →
  trim (show_u64 n ++ suf) = show_u64 n ++ suf
  ∧ to_ascii_lowercase (show_u64 n ++ suf) = show_u64 n ++ to_ascii_lowercase suf
  ∧ show_u64 n ++ suf ≠ [].
Proof.
  intros Hn Hg. split_and!.
  - apply trim_graphic, Forall_app. split; [by apply show_u64_graphic|].
    unfold to_ascii_lowercase in Hg. rewrite List.Forall_map in Hg.
    eapply Forall_impl; [exact Hg|]. intros c. apply ascii_lower_graphic.
  - unfold to_ascii_lowercase at 1. rewrite map_app. f_equal. by apply lower_digits, show_u64_digits.
  - destruct (show_u64_cons n) as (c & s & ->). done.
Qed.

Lemma representable_small c : 0 < c < 2 ^ 53 → representable c.
Proof. intros. exists c, 0. split_and!; lia. Qed.

Lemma f64_of_Z_small c : 0 < c < 2 ^ 53 → denotes (f64_of_Z c) c.
Proof.
  intros Hc. apply f64_of_Z_exact; [by apply representable_small|].
  assert (Z.log2 c < 53) by (apply Z.log2_lt_pow2; lia). lia.
Qed.

Lemma f64_of_Z_pow2 k : 0 ≤ k ≤ 1023 → denotes (f64_of_Z (2 ^ k)) (2 ^ k).
Proof.
  intros Hk. apply f64_of_Z_exact; [exists 1, k; split_and!; lia|]. rewrite Z.log2_pow2; lia.
Qed.

Lemma round_half_even_exact a den : 0 < den → round_half_even (a * den) den = a.
Proof.
  intros Hd. unfold round_half_even. rewrite Z.div_mul, Z.mod_mul by lia. by rewrite (proj2 (Z.ltb_lt _ _)) by lia.
Qed.

Lemma duration_exact x c : denotes x c → c < 2 ^ 64 → Duration_from_secs_f64 x = Some (c * 10 ^ 9).
Proof.
  intros (m & e & -> & Hm & He & Hv) Hc. unfold Duration_from_secs_f64. destruct (Z.leb_spec 0 e).
  - symmetry in Hv. apply shift_eq in Hv; [|lia..]. replace (e + 52 - 52) with e in Hv by lia. rewrite <-Hv.
    by rewrite (proj2 (Z.ltb_lt _ _)).
  - apply shift_eq in Hv; [|lia..]. replace (52 - (e + 52)) with (- e) in Hv by lia. rewrite Hv.
    replace (c * 2 ^ (- e) * 10 ^ 9) with (c * 10 ^ 9 * 2 ^ (- e)) by ring.
    rewrite round_half_even_exact; [done|]. lia.
Qed.

(** A size is the number written times its unit: a whole number below 2^53 with
    any suffix, in either case, or none, parses to exactly that many bytes; from
    2^64 on the largest size and then the overflow error. *)
Theorem parse_size_exact n suf mult :
  0 ≤ n < 2 ^ 53 → (to_ascii_lowercase suf, mult) ∈ (([], 1) :: size_suffixes) →
  parse_size (show_u64 n ++ suf)
  = if 2 ^ 64 <? n * mult then Err (ParseError.SizeOverflow (show_u64 n ++ suf))
    else Ok (Z.min u64_max (n * mult)).
Proof.
  intros Hn Hsuf. assert (0 ≤ n ≤ u64_max) as Hn' by (unfold u64_max; lia).
  pose proof (show_u64_digits n Hn') as Hd. pose proof (parse_f64_show n Hn') as Hpf.
  assert (∃ k, mult = 2 ^ k ∧ 0 ≤ k ≤ 40 ∧ Forall ascii_graphic (to_ascii_lowercase suf)
    ∧ default (show_u64 n ++ to_ascii_lowercase suf, 1) (first_suffix size_suffixes (show_u64 n ++ to_ascii_lowercase suf))
      = (show_u64 n, mult)) as (k & -> & Hk & Hg & Hf).
  { apply elem_of_cons in Hsuf as [E|Hsuf].
    - injection E as -> ->. exists 0. split_and!; [done|done|done|by constructor|]. rewrite app_nil_r, first_suffix_none; [done|done|].
      by repeat constructor.
    - rewrite (first_suffix_app _ _ _ mult); [|done|].
      + unfold size_suffixes in Hsuf. set_unfold in Hsuf. destruct_or! Hsuf; injection Hsuf as -> ->;
          [exists 40|exists 30|exists 20|exists 10|exists 40|exists 30|exists 20|exists 10|exists 0];
          (split_and!; [done|lia|lia|by repeat constructor|done]).
      + unfold size_suffixes in Hsuf. set_unfold in Hsuf. destruct_or! Hsuf; injection Hsuf as -> ->; done. }
  destruct (suffixed_input n suf Hn' Hg) as (Ht & Hl & Hne). unfold parse_size. rewrite Ht, Hl.
  destruct (show_u64 n ++ suf) as [|c0 s0] eqn:Es; [done|]. rewrite <-Es in *. clear Hne Ht Hl.
  rewrite Hf, Hpf. destruct (decide (n = 0)) as [->|Hnz].
  { rewrite Z.mul_0_l. destruct (f64_of_Z_pow2 k ltac:(lia)) as (m & e & -> & _). done. }
  assert (denotes (f64_mul (f64_of_Z n) (f64_of_Z (2 ^ k))) (n * 2 ^ k)) as Hden.
  { apply f64_mul_exact; [apply f64_of_Z_small; lia|apply f64_of_Z_pow2; lia|exists n, k; split_and!; lia|].
    rewrite Z.log2_mul_pow2 by lia. assert (Z.log2 n < 53) by (apply Z.log2_lt_pow2; lia). lia. }
  cbv zeta. rewrite (denotes_pos _ _ Hden), (denotes_gt_max _ _ Hden). cbn [orb].
  destruct (2 ^ 64 <? n * 2 ^ k); [done|]. destruct (denotes_trunc _ _ Hden) as (m & e & -> & <-). done.
Qed.

Lemma parse_size_exact_witness :
  parse_size (str "256MB") = Ok (256 * 2 ^ 20) ∧ parse_size (str "16777217T") = Err (ParseError.SizeOverflow (str "16777217T")).
Proof.
  split.
  - apply (parse_size_exact 256 (str "MB") (2 ^ 20)); [lia|]. right. right. right. left.
  - apply (parse_size_exact 16777217 (str "T") (2 ^ 40)); [lia|]. do 5 right. left.
Defined.

(** Whole numbers of seconds, minutes, hours and days are exact. *)
Lemma parse_duration_exact n suf unit :
  (to_ascii_lowercase suf, unit) ∈ [(str "s", 1); (str "m", 60); (str "h", 3600); (str "d", 86400)] →
  0 ≤ n → n * unit < 2 ^ 53 →
  parse_duration (show_u64 n ++ suf) = Some (Ok (n * unit * 10 ^ 9)).
Proof.
  intros Hsuf Hn0 Hn.
  assert (0 < unit < 2 ^ 53 ∧ Forall ascii_graphic (to_ascii_lowercase suf)
    ∧ suffix_value duration_suffixes (to_ascii_lowercase suf) = Some (f64_of_Z unit)) as (Hu & Hg & Hf).
  { set_unfold in Hsuf. destruct_or! Hsuf; injection Hsuf as -> ->; (split_and!; [lia|lia|by repeat constructor|done]). }
  assert (0 ≤ n ≤ u64_max) as Hn' by (unfold u64_max; nia).
  apply (first_suffix_app _ _ _ _ (show_u64_digits n Hn')) in Hf. pose proof (parse_f64_show n Hn') as Hpf.
  destruct (suffixed_input n suf Hn' Hg) as (Ht & Hl & Hne). unfold parse_duration. rewrite Ht, Hl.
  destruct (show_u64 n ++ suf) as [|c0 s0] eqn:Es; [done|]. rewrite Hf, Hpf.
  destruct (decide (n = 0)) as [->|Hnz].
  { destruct (f64_of_Z_small unit Hu) as (m & e & -> & _). done. }
  rewrite (duration_exact _ (n * unit)); [done| |lia].
  apply f64_mul_exact; [apply f64_of_Z_small; nia|by apply f64_of_Z_small|apply representable_small; nia|].
  assert (Z.log2 (n * unit) < 53) by (apply Z.log2_lt_pow2; nia). lia.
Qed.

(** Negative, undefined and huge durations are written like any other and make
    [parse_duration] panic in [Duration::from_secs_f64] instead of returning one
    of its errors; the size parser rejects the first and the last, and reads a
    size that is not a number as zero bytes. *)
Theorem parse_duration_panics :
  parse_duration (str "-1s") = None ∧ parse_duration (str "nans") = None
  ∧ parse_duration (str "1e30d") = None
  ∧ parse_size (str "-1k") = Err (ParseError.SizeOverflow (str "-1k"))
  ∧ parse_size (str "1e30t") = Err (ParseError.SizeOverflow (str "1e30t"))
  ∧ parse_size (str "nan") = Ok 0.
Proof. split_and!; vm_compute; reflexivity. Qed.

(** Every number of the default configuration can be read. *)
Lemma default_config_reads :
  let c := CacheConfig_default in
  (stc_size <$> cc_storage c !! str "default") ≫= (λ s, Some (parse_size s)) = Some (Ok (256 * 2 ^ 20))
  ∧ parse_size (lg_size (cc_logging c)) = Ok (80 * 2 ^ 20)
  ∧ parse_duration (tc_default_ttl (cc_ttl c)) = Some (Ok (120 * 10 ^ 9))
  ∧ parse_duration (tc_default_grace (cc_ttl c)) = Some (Ok (10 * 10 ^ 9))
  ∧ parse_duration (tc_default_keep (cc_ttl c)) = Some (Ok 0)
  ∧ parse_duration (to_connect_timeout (cc_timeouts c)) = Some (Ok 3500000000)
  ∧ parse_duration (to_send_timeout (cc_timeouts c)) = Some (Ok (60 * 10 ^ 9))
  ∧ parse_duration (pc_interval ProbeConfig_default) = Some (Ok (5 * 10 ^ 9))
  ∧ parse_duration (pc_timeout ProbeConfig_default) = Some (Ok (10 ^ 9)).
Proof. split_and!; vm_compute; reflexivity. Qed.
