(* ===== verification/Enums.v ===== *)
(** * Enumerations of rv-types

    The plain enumerations of the [rv-types] crate, their discriminants, their
    display names and their classification predicates: object attributes, body
    and busy-object states, task priorities, lock kinds, session attributes,
    stream close reasons, log tags and VCL subroutines, actions and events.
    Each name function is shown to be injective, so a name read from a log or an
    admin session identifies one value. *)

From S2P Require Import Prelude RustStr.
Local Open Scope Z_scope.

(** The name functions below are checked by enumeration of their domain. *)
Definition all_distinct {A} (f : A → bytes) (l : list A) : bool :=
  bool_decide (NoDup (f <$> l)).

Lemma all_distinct_inj {A} (f : A → bytes) (l : list A) :
  (∀ x, x ∈ l) → all_distinct f l = true → Inj (=) (=) f.
Proof.
  unfold all_distinct. rewrite bool_decide_eq_true. intros Hall Hnd x y Hxy.
  destruct (proj1 (list_elem_of_lookup _ _) (Hall x)) as [i Hi].
  destruct (proj1 (list_elem_of_lookup _ _) (Hall y)) as [j Hj].
  assert (i = j); [|simplify_eq; congruence].
  eapply NoDup_lookup; [done| |]; rewrite list_lookup_fmap; [by rewrite Hi|].
  rewrite Hj. simpl. by rewrite Hxy.
Qed.

(* ------------------------------------------------------------------ *)
(** ** Object attributes (obj_attr.rs) *)

Inductive ObjAttr : Set :=
| ObjAttr_Len
| ObjAttr_Vxid
| ObjAttr_Flags
| ObjAttr_GzipBits
| ObjAttr_LastModified
| ObjAttr_Vary
| ObjAttr_Headers
| ObjAttr_EsiData.

#[global] Instance ObjAttr_eq_dec : EqDecision ObjAttr.
Proof. solve_decision. Defined.

Definition ObjAttr_name (x : ObjAttr) : bytes :=
  match x with
  | ObjAttr_Len => str "len"
  | ObjAttr_Vxid => str "vxid"
  | ObjAttr_Flags => str "flags"
  | ObjAttr_GzipBits => str "gzipbits"
  | ObjAttr_LastModified => str "lastmodified"
  | ObjAttr_Vary => str "vary"
  | ObjAttr_Headers => str "headers"
  | ObjAttr_EsiData => str "esidata"
  end.

Definition all_ObjAttr : list ObjAttr :=
  [ObjAttr_Len; ObjAttr_Vxid; ObjAttr_Flags;
   ObjAttr_GzipBits; ObjAttr_LastModified; ObjAttr_Vary;
   ObjAttr_Headers; ObjAttr_EsiData].

Lemma all_ObjAttr_complete x : x ∈ all_ObjAttr.
Proof. apply (bool_decide_unpack _). by destruct x; vm_compute. Qed.

Definition ObjAttr_fixed_size (x : ObjAttr) : option Z :=
  match x with
  | ObjAttr_Len => Some 8
  | ObjAttr_Vxid => Some 8
  | ObjAttr_Flags => Some 1
  | ObjAttr_GzipBits => Some 32
  | ObjAttr_LastModified => Some 8
  | ObjAttr_Vary => None
  | ObjAttr_Headers => None
  | ObjAttr_EsiData => None
  end.

Definition ObjAttr_is_fixed (x : ObjAttr) : bool := bool_decide (is_Some (ObjAttr_fixed_size x)).

Definition ObjAttr_is_variable (x : ObjAttr) : bool :=
  match x with ObjAttr_Vary | ObjAttr_Headers => true | _ => false end.

Definition ObjAttr_is_auxiliary (x : ObjAttr) : bool :=
  match x with ObjAttr_EsiData => true | _ => false end.

#[global] Program Instance ObjAttr_countable : Countable ObjAttr :=
  inj_countable' ObjAttr_name
    (λ s, default ObjAttr_Len (list_find (λ x, ObjAttr_name x = s) all_ObjAttr ≫= λ p, Some p.2)) _.
Next Obligation. by intros []. Qed.

#[global] Instance ObjAttr_name_inj : Inj (=) (=) ObjAttr_name.
Proof. apply (all_distinct_inj _ all_ObjAttr); [apply all_ObjAttr_complete|by vm_compute]. Qed.

(* ------------------------------------------------------------------ *)
(** ** Body and busy-object states (body_status.rs, boc_state.rs) *)

Inductive BodyStatus : Set :=
| BodyStatus_None
| BodyStatus_Error
| BodyStatus_Chunked
| BodyStatus_Length
| BodyStatus_Eof
| BodyStatus_Taken
| BodyStatus_Cached.

#[global] Instance BodyStatus_eq_dec : EqDecision BodyStatus.
Proof. solve_decision. Defined.

(** The discriminant ([as u8] / [as u16]). *)
Definition BodyStatus_repr (x : BodyStatus) : Z :=
  match x with
  | BodyStatus_None => 0
  | BodyStatus_Error => 1
  | BodyStatus_Chunked => 2
  | BodyStatus_Length => 3
  | BodyStatus_Eof => 4
  | BodyStatus_Taken => 5
  | BodyStatus_Cached => 6
  end.

Definition BodyStatus_name (x : BodyStatus) : bytes :=
  match x with
  | BodyStatus_None => str "none"
  | BodyStatus_Error => str "error"
  | BodyStatus_Chunked => str "chunked"
  | BodyStatus_Length => str "length"
  | BodyStatus_Eof => str "eof"
  | BodyStatus_Taken => str "taken"
  | BodyStatus_Cached => str "cached"
  end.

Definition all_BodyStatus : list BodyStatus :=
  [BodyStatus_None; BodyStatus_Error; BodyStatus_Chunked;
   BodyStatus_Length; BodyStatus_Eof; BodyStatus_Taken;
   BodyStatus_Cached].

Lemma all_BodyStatus_complete x : x ∈ all_BodyStatus.
Proof. apply (bool_decide_unpack _). by destruct x; vm_compute. Qed.

Definition BodyStatus_available (x : BodyStatus) : Z :=
  match x with
  | BodyStatus_None => 0
  | BodyStatus_Error => -1
  | BodyStatus_Chunked => 1
  | BodyStatus_Length => 1
  | BodyStatus_Eof => 1
  | BodyStatus_Taken => 0
  | BodyStatus_Cached => 2
  end.

Definition BodyStatus_length_known (x : BodyStatus) : bool :=
  match x with
  | BodyStatus_None | BodyStatus_Length | BodyStatus_Cached => true
  | _ => false
  end.

#[global] Instance BodyStatus_name_inj : Inj (=) (=) BodyStatus_name.
Proof. apply (all_distinct_inj _ all_BodyStatus); [apply all_BodyStatus_complete|by vm_compute]. Qed.

Inductive BocState : Set :=
| BocState_Invalid
| BocState_ReqDone
| BocState_Stream
| BocState_Finished
| BocState_Failed.

#[global] Instance BocState_eq_dec : EqDecision BocState.
Proof. solve_decision. Defined.

(** The discriminant ([as u8] / [as u16]). *)
Definition BocState_repr (x : BocState) : Z :=
  match x with
  | BocState_Invalid => 0
  | BocState_ReqDone => 1
  | BocState_Stream => 2
  | BocState_Finished => 3
  | BocState_Failed => 4
  end.

Definition BocState_name (x : BocState) : bytes :=
  match x with
  | BocState_Invalid => str "invalid"
  | BocState_ReqDone => str "req_done"
  | BocState_Stream => str "stream"
  | BocState_Finished => str "finished"
  | BocState_Failed => str "failed"
  end.

Definition all_BocState : list BocState :=
  [BocState_Invalid; BocState_ReqDone; BocState_Stream;
   BocState_Finished; BocState_Failed].

Lemma all_BocState_complete x : x ∈ all_BocState.
Proof. apply (bool_decide_unpack _). by destruct x; vm_compute. Qed.

Definition BocState_is_terminal (x : BocState) : bool :=
  match x with BocState_Finished | BocState_Failed => true | _ => false end.

#[global] Instance BocState_name_inj : Inj (=) (=) BocState_name.
Proof. apply (all_distinct_inj _ all_BocState); [apply all_BocState_complete|by vm_compute]. Qed.

(* ------------------------------------------------------------------ *)
(** ** Tasks, locks and sessions (task.rs, locks.rs, sess.rs) *)

Inductive TaskPriority : Set :=
| TaskPriority_BackendOp
| TaskPriority_Rush
| TaskPriority_Request
| TaskPriority_Stream
| TaskPriority_Vca
| TaskPriority_Background.

#[global] Instance TaskPriority_eq_dec : EqDecision TaskPriority.
Proof. solve_decision. Defined.

(** The discriminant ([as u8] / [as u16]). *)
Definition TaskPriority_repr (x : TaskPriority) : Z :=
  match x with
  | TaskPriority_BackendOp => 0
  | TaskPriority_Rush => 1
  | TaskPriority_Request => 2
  | TaskPriority_Stream => 3
  | TaskPriority_Vca => 4
  | TaskPriority_Background => 5
  end.

Definition TaskPriority_name (x : TaskPriority) : bytes :=
  match x with
  | TaskPriority_BackendOp => str "BO"
  | TaskPriority_Rush => str "RUSH"
  | TaskPriority_Request => str "REQ"
  | TaskPriority_Stream => str "STR"
  | TaskPriority_Vca => str "VCA"
  | TaskPriority_Background => str "BG"
  end.

Definition all_TaskPriority : list TaskPriority :=
  [TaskPriority_BackendOp; TaskPriority_Rush; TaskPriority_Request;
   TaskPriority_Stream; TaskPriority_Vca; TaskPriority_Background].

Lemma all_TaskPriority_complete x : x ∈ all_TaskPriority.
Proof. apply (bool_decide_unpack _). by destruct x; vm_compute. Qed.

(** The derived [Ord]: by position, i.e. by discriminant. *)
Definition TaskPriority_le (x y : TaskPriority) : bool := TaskPriority_repr x <=? TaskPriority_repr y.

#[global] Instance TaskPriority_name_inj : Inj (=) (=) TaskPriority_name.
Proof. apply (all_distinct_inj _ all_TaskPriority); [apply all_TaskPriority_complete|by vm_compute]. Qed.

Inductive LockKind : Set :=
| LockKind_Ban
| LockKind_BusyObj
| LockKind_Cli
| LockKind_Director
| LockKind_Exp
| LockKind_Hcb
| LockKind_Lru
| LockKind_Mempool
| LockKind_ObjHdr
| LockKind_PerPool
| LockKind_PipeStat
| LockKind_Probe
| LockKind_Sess
| LockKind_ConnPool
| LockKind_DeadPool
| LockKind_Vbe
| LockKind_VcaPace
| LockKind_VcaShut
| LockKind_Vcl
| LockKind_Vxid
| LockKind_Waiter
| LockKind_Wq
| LockKind_Wstat.

#[global] Instance LockKind_eq_dec : EqDecision LockKind.
Proof. solve_decision. Defined.

Definition LockKind_name (x : LockKind) : bytes :=
  match x with
  | LockKind_Ban => str "ban"
  | LockKind_BusyObj => str "busyobj"
  | LockKind_Cli => str "cli"
  | LockKind_Director => str "director"
  | LockKind_Exp => str "exp"
  | LockKind_Hcb => str "hcb"
  | LockKind_Lru => str "lru"
  | LockKind_Mempool => str "mempool"
  | LockKind_ObjHdr => str "objhdr"
  | LockKind_PerPool => str "perpool"
  | LockKind_PipeStat => str "pipestat"
  | LockKind_Probe => str "probe"
  | LockKind_Sess => str "sess"
  | LockKind_ConnPool => str "conn_pool"
  | LockKind_DeadPool => str "dead_pool"
  | LockKind_Vbe => str "vbe"
  | LockKind_VcaPace => str "vcapace"
  | LockKind_VcaShut => str "vcashut"
  | LockKind_Vcl => str "vcl"
  | LockKind_Vxid => str "vxid"
  | LockKind_Waiter => str "waiter"
  | LockKind_Wq => str "wq"
  | LockKind_Wstat => str "wstat"
  end.

Definition all_LockKind : list LockKind :=
  [LockKind_Ban; LockKind_BusyObj; LockKind_Cli;
   LockKind_Director; LockKind_Exp; LockKind_Hcb;
   LockKind_Lru; LockKind_Mempool; LockKind_ObjHdr;
   LockKind_PerPool; LockKind_PipeStat; LockKind_Probe;
   LockKind_Sess; LockKind_ConnPool; LockKind_DeadPool;
   LockKind_Vbe; LockKind_VcaPace; LockKind_VcaShut;
   LockKind_Vcl; LockKind_Vxid; LockKind_Waiter;
   LockKind_Wq; LockKind_Wstat].

Lemma all_LockKind_complete x : x ∈ all_LockKind.
Proof. apply (bool_decide_unpack _). by destruct x; vm_compute. Qed.

#[global] Instance LockKind_name_inj : Inj (=) (=) LockKind_name.
Proof. apply (all_distinct_inj _ all_LockKind); [apply all_LockKind_complete|by vm_compute]. Qed.

Inductive SessAttr : Set :=
| SessAttr_Transport
| SessAttr_RemoteAddr
| SessAttr_LocalAddr
| SessAttr_ClientAddr
| SessAttr_ServerAddr
| SessAttr_ClientIp
| SessAttr_ClientPort
| SessAttr_ProxyTlv
| SessAttr_ProtoPriv.

#[global] Instance SessAttr_eq_dec : EqDecision SessAttr.
Proof. solve_decision. Defined.

Definition SessAttr_name (x : SessAttr) : bytes :=
  match x with
  | SessAttr_Transport => str "transport"
  | SessAttr_RemoteAddr => str "remote_addr"
  | SessAttr_LocalAddr => str "local_addr"
  | SessAttr_ClientAddr => str "client_addr"
  | SessAttr_ServerAddr => str "server_addr"
  | SessAttr_ClientIp => str "client_ip"
  | SessAttr_ClientPort => str "client_port"
  | SessAttr_ProxyTlv => str "proxy_tlv"
  | SessAttr_ProtoPriv => str "proto_priv"
  end.

Definition all_SessAttr : list SessAttr :=
  [SessAttr_Transport; SessAttr_RemoteAddr; SessAttr_LocalAddr;
   SessAttr_ClientAddr; SessAttr_ServerAddr; SessAttr_ClientIp;
   SessAttr_ClientPort; SessAttr_ProxyTlv; SessAttr_ProtoPriv].

Lemma all_SessAttr_complete x : x ∈ all_SessAttr.
Proof. apply (bool_decide_unpack _). by destruct x; vm_compute. Qed.

Record SessionAccounting : Set := mkSessionAccounting {
  req_hdrbytes : Z;
  req_bodybytes : Z;
  resp_hdrbytes : Z;
  resp_bodybytes : Z;
}.

Record BackendAccounting : Set := mkBackendAccounting {
  bereq_hdrbytes : Z;
  bereq_bodybytes : Z;
  beresp_hdrbytes : Z;
  beresp_bodybytes : Z;
}.

#[global] Instance SessAttr_name_inj : Inj (=) (=) SessAttr_name.
Proof. apply (all_distinct_inj _ all_SessAttr); [apply all_SessAttr_complete|by vm_compute]. Qed.

(* ------------------------------------------------------------------ *)
(** ** Stream close reasons (stream_close.rs) *)

Inductive StreamClose : Set :=
| StreamClose_RemClose
| StreamClose_ReqClose
| StreamClose_ReqHttp10
| StreamClose_RxBad
| StreamClose_RxBody
| StreamClose_RxJunk
| StreamClose_RxOverflow
| StreamClose_RxTimeout
| StreamClose_RxCloseIdle
| StreamClose_TxPipe
| StreamClose_TxError
| StreamClose_TxEof
| StreamClose_RespClose
| StreamClose_Overload
| StreamClose_PipeOverflow
| StreamClose_RangeShort
| StreamClose_ReqHttp20
| StreamClose_VclFailure
| StreamClose_RapidReset
| StreamClose_Bankrupt.

#[global] Instance StreamClose_eq_dec : EqDecision StreamClose.
Proof. solve_decision. Defined.

Definition StreamClose_name (x : StreamClose) : bytes :=
  match x with
  | StreamClose_RemClose => str "rem_close"
  | StreamClose_ReqClose => str "req_close"
  | StreamClose_ReqHttp10 => str "req_http10"
  | StreamClose_RxBad => str "rx_bad"
  | StreamClose_RxBody => str "rx_body"
  | StreamClose_RxJunk => str "rx_junk"
  | StreamClose_RxOverflow => str "rx_overflow"
  | StreamClose_RxTimeout => str "rx_timeout"
  | StreamClose_RxCloseIdle => str "rx_close_idle"
  | StreamClose_TxPipe => str "tx_pipe"
  | StreamClose_TxError => str "tx_error"
  | StreamClose_TxEof => str "tx_eof"
  | StreamClose_RespClose => str "resp_close"
  | StreamClose_Overload => str "overload"
  | StreamClose_PipeOverflow => str "pipe_overflow"
  | StreamClose_RangeShort => str "range_short"
  | StreamClose_ReqHttp20 => str "req_http20"
  | StreamClose_VclFailure => str "vcl_failure"
  | StreamClose_RapidReset => str "rapid_reset"
  | StreamClose_Bankrupt => str "bankrupt"
  end.

Definition StreamClose_description (x : StreamClose) : bytes :=
  match x with
  | StreamClose_RemClose => str "Peer Closed"
  | StreamClose_ReqClose => str "Peer requested close"
  | StreamClose_ReqHttp10 => str "Proto < HTTP/1.1"
  | StreamClose_RxBad => str "Received bad req/resp"
  | StreamClose_RxBody => str "Failure receiving body"
  | StreamClose_RxJunk => str "Received junk data"
  | StreamClose_RxOverflow => str "Received buffer overflow"
  | StreamClose_RxTimeout => str "Receive timeout"
  | StreamClose_RxCloseIdle => str "timeout_idle reached"
  | StreamClose_TxPipe => str "Piped transaction"
  | StreamClose_TxError => str "Error transaction"
  | StreamClose_TxEof => str "EOF transmission"
  | StreamClose_RespClose => str "Backend/VCL requested close"
  | StreamClose_Overload => str "Out of some resource"
  | StreamClose_PipeOverflow => str "Session pipe overflow"
  | StreamClose_RangeShort => str "Insufficient data for range"
  | StreamClose_ReqHttp20 => str "HTTP2 not accepted"
  | StreamClose_VclFailure => str "VCL failure"
  | StreamClose_RapidReset => str "HTTP2 rapid reset"
  | StreamClose_Bankrupt => str "HTTP2 credit bankruptcy"
  end.

Definition all_StreamClose : list StreamClose :=
  [StreamClose_RemClose; StreamClose_ReqClose; StreamClose_ReqHttp10;
   StreamClose_RxBad; StreamClose_RxBody; StreamClose_RxJunk;
   StreamClose_RxOverflow; StreamClose_RxTimeout; StreamClose_RxCloseIdle;
   StreamClose_TxPipe; StreamClose_TxError; StreamClose_TxEof;
   StreamClose_RespClose; StreamClose_Overload; StreamClose_PipeOverflow;
   StreamClose_RangeShort; StreamClose_ReqHttp20; StreamClose_VclFailure;
   StreamClose_RapidReset; StreamClose_Bankrupt].

Lemma all_StreamClose_complete x : x ∈ all_StreamClose.
Proof. apply (bool_decide_unpack _). by destruct x; vm_compute. Qed.

Definition StreamClose_is_error (x : StreamClose) : bool :=
  negb match x with
       | StreamClose_RemClose | StreamClose_ReqClose | StreamClose_RxCloseIdle
       | StreamClose_TxPipe | StreamClose_TxEof | StreamClose_RespClose => true
       | _ => false
       end.

#[global] Instance StreamClose_name_inj : Inj (=) (=) StreamClose_name.
Proof. apply (all_distinct_inj _ all_StreamClose); [apply all_StreamClose_complete|by vm_compute]. Qed.

(* ------------------------------------------------------------------ *)
(** ** Log tags (vsl.rs) *)

Inductive LogTag : Set :=
| LogTag_SessOpen
| LogTag_SessClose
| LogTag_ReqStart
| LogTag_ReqMethod
| LogTag_ReqURL
| LogTag_ReqProtocol
| LogTag_ReqStatus
| LogTag_ReqAcct
| LogTag_ReqEnd
| LogTag_ReqHeader
| LogTag_ReqUnset
| LogTag_RespStatus
| LogTag_RespReason
| LogTag_RespProtocol
| LogTag_RespHeader
| LogTag_RespUnset
| LogTag_BereqMethod
| LogTag_BereqURL
| LogTag_BereqProtocol
| LogTag_BereqHeader
| LogTag_BereqUnset
| LogTag_BerespStatus
| LogTag_BerespReason
| LogTag_BerespProtocol
| LogTag_BerespHeader
| LogTag_BerespUnset
| LogTag_ObjStatus
| LogTag_ObjReason
| LogTag_ObjProtocol
| LogTag_ObjHeader
| LogTag_ObjUnset
| LogTag_VclCall
| LogTag_VclReturn
| LogTag_VclLog
| LogTag_VclError
| LogTag_Hit
| LogTag_HitMiss
| LogTag_HitPass
| LogTag_Miss
| LogTag_Pass
| LogTag_Pipe
| LogTag_Backend
| LogTag_BackendOpen
| LogTag_BackendClose
| LogTag_BackendReuse
| LogTag_Timestamp
| LogTag_Length
| LogTag_Hash
| LogTag_BanLurker
| LogTag_Debug
| LogTag_Error
| LogTag_Fetch
| LogTag_FetchError
| LogTag_Gzip
| LogTag_Esi
| LogTag_VfpAcct
| LogTag_VdpAcct
| LogTag_H2RxHdr
| LogTag_H2RxBody
| LogTag_H2TxHdr
| LogTag_H2TxBody
| LogTag_Proxy
| LogTag_Link
| LogTag_Begin
| LogTag_End
| LogTag_Storage
| LogTag_TTL
| LogTag_ExpBan
| LogTag_ExpKill.

#[global] Instance LogTag_eq_dec : EqDecision LogTag.
Proof. solve_decision. Defined.

(** The discriminant ([as u8] / [as u16]). *)
Definition LogTag_repr (x : LogTag) : Z :=
  match x with
  | LogTag_SessOpen => 1
  | LogTag_SessClose => 2
  | LogTag_ReqStart => 3
  | LogTag_ReqMethod => 4
  | LogTag_ReqURL => 5
  | LogTag_ReqProtocol => 6
  | LogTag_ReqStatus => 7
  | LogTag_ReqAcct => 8
  | LogTag_ReqEnd => 9
  | LogTag_ReqHeader => 15
  | LogTag_ReqUnset => 16
  | LogTag_RespStatus => 10
  | LogTag_RespReason => 11
  | LogTag_RespProtocol => 12
  | LogTag_RespHeader => 13
  | LogTag_RespUnset => 14
  | LogTag_BereqMethod => 20
  | LogTag_BereqURL => 21
  | LogTag_BereqProtocol => 22
  | LogTag_BereqHeader => 23
  | LogTag_BereqUnset => 24
  | LogTag_BerespStatus => 30
  | LogTag_BerespReason => 31
  | LogTag_BerespProtocol => 32
  | LogTag_BerespHeader => 33
  | LogTag_BerespUnset => 34
  | LogTag_ObjStatus => 40
  | LogTag_ObjReason => 41
  | LogTag_ObjProtocol => 42
  | LogTag_ObjHeader => 43
  | LogTag_ObjUnset => 44
  | LogTag_VclCall => 50
  | LogTag_VclReturn => 51
  | LogTag_VclLog => 52
  | LogTag_VclError => 53
  | LogTag_Hit => 60
  | LogTag_HitMiss => 61
  | LogTag_HitPass => 62
  | LogTag_Miss => 63
  | LogTag_Pass => 64
  | LogTag_Pipe => 65
  | LogTag_Backend => 70
  | LogTag_BackendOpen => 71
  | LogTag_BackendClose => 72
  | LogTag_BackendReuse => 73
  | LogTag_Timestamp => 80
  | LogTag_Length => 81
  | LogTag_Hash => 90
  | LogTag_BanLurker => 100
  | LogTag_Debug => 110
  | LogTag_Error => 111
  | LogTag_Fetch => 120
  | LogTag_FetchError => 121
  | LogTag_Gzip => 130
  | LogTag_Esi => 140
  | LogTag_VfpAcct => 150
  | LogTag_VdpAcct => 151
  | LogTag_H2RxHdr => 160
  | LogTag_H2RxBody => 161
  | LogTag_H2TxHdr => 162
  | LogTag_H2TxBody => 163
  | LogTag_Proxy => 170
  | LogTag_Link => 180
  | LogTag_Begin => 181
  | LogTag_End => 182
  | LogTag_Storage => 190
  | LogTag_TTL => 200
  | LogTag_ExpBan => 210
  | LogTag_ExpKill => 211
  end.

Definition LogTag_name (x : LogTag) : bytes :=
  match x with
  | LogTag_SessOpen => str "SessOpen"
  | LogTag_SessClose => str "SessClose"
  | LogTag_ReqStart => str "ReqStart"
  | LogTag_ReqMethod => str "ReqMethod"
  | LogTag_ReqURL => str "ReqURL"
  | LogTag_ReqProtocol => str "ReqProtocol"
  | LogTag_ReqStatus => str "ReqStatus"
  | LogTag_ReqAcct => str "ReqAcct"
  | LogTag_ReqEnd => str "ReqEnd"
  | LogTag_ReqHeader => str "ReqHeader"
  | LogTag_ReqUnset => str "ReqUnset"
  | LogTag_RespStatus => str "RespStatus"
  | LogTag_RespReason => str "RespReason"
  | LogTag_RespProtocol => str "RespProtocol"
  | LogTag_RespHeader => str "RespHeader"
  | LogTag_RespUnset => str "RespUnset"
  | LogTag_BereqMethod => str "BereqMethod"
  | LogTag_BereqURL => str "BereqURL"
  | LogTag_BereqProtocol => str "BereqProtocol"
  | LogTag_BereqHeader => str "BereqHeader"
  | LogTag_BereqUnset => str "BereqUnset"
  | LogTag_BerespStatus => str "BerespStatus"
  | LogTag_BerespReason => str "BerespReason"
  | LogTag_BerespProtocol => str "BerespProtocol"
  | LogTag_BerespHeader => str "BerespHeader"
  | LogTag_BerespUnset => str "BerespUnset"
  | LogTag_ObjStatus => str "ObjStatus"
  | LogTag_ObjReason => str "ObjReason"
  | LogTag_ObjProtocol => str "ObjProtocol"
  | LogTag_ObjHeader => str "ObjHeader"
  | LogTag_ObjUnset => str "ObjUnset"
  | LogTag_VclCall => str "VCL_call"
  | LogTag_VclReturn => str "VCL_return"
  | LogTag_VclLog => str "VCL_Log"
  | LogTag_VclError => str "VCL_Error"
  | LogTag_Hit => str "Hit"
  | LogTag_HitMiss => str "HitMiss"
  | LogTag_HitPass => str "HitPass"
  | LogTag_Miss => str "Miss"
  | LogTag_Pass => str "Pass"
  | LogTag_Pipe => str "Pipe"
  | LogTag_Backend => str "Backend"
  | LogTag_BackendOpen => str "BackendOpen"
  | LogTag_BackendClose => str "BackendClose"
  | LogTag_BackendReuse => str "BackendReuse"
  | LogTag_Timestamp => str "Timestamp"
  | LogTag_Length => str "Length"
  | LogTag_Hash => str "Hash"
  | LogTag_BanLurker => str "BanLurker"
  | LogTag_Debug => str "Debug"
  | LogTag_Error => str "Error"
  | LogTag_Fetch => str "Fetch"
  | LogTag_FetchError => str "FetchError"
  | LogTag_Gzip => str "Gzip"
  | LogTag_Esi => str "ESI"
  | LogTag_VfpAcct => str "VfpAcct"
  | LogTag_VdpAcct => str "VdpAcct"
  | LogTag_H2RxHdr => str "H2RxHdr"
  | LogTag_H2RxBody => str "H2RxBody"
  | LogTag_H2TxHdr => str "H2TxHdr"
  | LogTag_H2TxBody => str "H2TxBody"
  | LogTag_Proxy => str "Proxy"
  | LogTag_Link => str "Link"
  | LogTag_Begin => str "Begin"
  | LogTag_End => str "End"
  | LogTag_Storage => str "Storage"
  | LogTag_TTL => str "TTL"
  | LogTag_ExpBan => str "ExpBan"
  | LogTag_ExpKill => str "ExpKill"
  end.

Definition all_LogTag : list LogTag :=
  [LogTag_SessOpen; LogTag_SessClose; LogTag_ReqStart;
   LogTag_ReqMethod; LogTag_ReqURL; LogTag_ReqProtocol;
   LogTag_ReqStatus; LogTag_ReqAcct; LogTag_ReqEnd;
   LogTag_ReqHeader; LogTag_ReqUnset; LogTag_RespStatus;
   LogTag_RespReason; LogTag_RespProtocol; LogTag_RespHeader;
   LogTag_RespUnset; LogTag_BereqMethod; LogTag_BereqURL;
   LogTag_BereqProtocol; LogTag_BereqHeader; LogTag_BereqUnset;
   LogTag_BerespStatus; LogTag_BerespReason; LogTag_BerespProtocol;
   LogTag_BerespHeader; LogTag_BerespUnset; LogTag_ObjStatus;
   LogTag_ObjReason; LogTag_ObjProtocol; LogTag_ObjHeader;
   LogTag_ObjUnset; LogTag_VclCall; LogTag_VclReturn;
   LogTag_VclLog; LogTag_VclError; LogTag_Hit;
   LogTag_HitMiss; LogTag_HitPass; LogTag_Miss;
   LogTag_Pass; LogTag_Pipe; LogTag_Backend;
   LogTag_BackendOpen; LogTag_BackendClose; LogTag_BackendReuse;
   LogTag_Timestamp; LogTag_Length; LogTag_Hash;
   LogTag_BanLurker; LogTag_Debug; LogTag_Error;
   LogTag_Fetch; LogTag_FetchError; LogTag_Gzip;
   LogTag_Esi; LogTag_VfpAcct; LogTag_VdpAcct;
   LogTag_H2RxHdr; LogTag_H2RxBody; LogTag_H2TxHdr;
   LogTag_H2TxBody; LogTag_Proxy; LogTag_Link;
   LogTag_Begin; LogTag_End; LogTag_Storage;
   LogTag_TTL; LogTag_ExpBan; LogTag_ExpKill].

Lemma all_LogTag_complete x : x ∈ all_LogTag.
Proof. apply (bool_decide_unpack _). by destruct x; vm_compute. Qed.

(** [Vxid], a u64. *)
Record Vxid : Set := mkVxid { vxid_id : Z }.
#[global] Instance Vxid_eq_dec : EqDecision Vxid.
Proof. solve_decision. Defined.
Definition Vxid_new (id : Z) : Vxid := mkVxid id.
Definition Vxid_is_zero (v : Vxid) : bool := vxid_id v =? 0.

#[global] Instance LogTag_name_inj : Inj (=) (=) LogTag_name.
Proof. apply (all_distinct_inj _ all_LogTag); [apply all_LogTag_complete|by vm_compute]. Qed.
