(* ===== verification/Types.v ===== *)
(** * Core value types of rv-types

    [Digest] (digest.rs), the time newtypes (time.rs) and the bit-flag types
    (flags.rs).  A digest is a vector of exactly 32 bytes, as [[u8; 32]] is.
    Times and durations are [f64] seconds. *)

From S2P Require Import Prelude RustStr F64.
Local Open Scope Z_scope.

(* ------------------------------------------------------------------ *)
(** ** Digest (digest.rs) *)

Definition DIGEST_LEN : nat := 32.

Record Digest : Set := mkDigest { digest_bytes : vec byte DIGEST_LEN }.

#[global] Instance Digest_eq_dec : EqDecision Digest.
Proof. solve_decision. Defined.

(** [digest.bytes] as a slice. *)
Definition bytes_of (d : Digest) : bytes := vec_to_list (digest_bytes d).

Definition Digest_ZERO : Digest := mkDigest (vreplicate DIGEST_LEN x00).

Definition Digest_new (v : vec byte DIGEST_LEN) : Digest := mkDigest v.

(** [copy_from_slice] into the zeroed array, guarded by the length test. *)
Definition Digest_from_slice (data : bytes) : option Digest :=
  match decide (length data = DIGEST_LEN) with
  | right _ => None
  | left H => Some (mkDigest (eq_rect _ (vec byte) (list_to_vec data) _ H))
  end.

(** Two lower-case hexadecimal digits, [{b:02x}]. *)
Definition hex_digit (n : Z) : byte := if n <? 10 then u8_of (48 + n) else u8_of (87 + n).
Definition hex_byte (b : byte) : bytes := [hex_digit (u8_val b / 16); hex_digit (u8_val b mod 16)].

Definition Digest_display (d : Digest) : bytes := mjoin (hex_byte <$> bytes_of d).

Definition Digest_debug (d : Digest) : bytes :=
  str "Digest(" ++ mjoin (hex_byte <$> take 8 (bytes_of d)) ++ str "...)".

Lemma length_bytes_of d : length (bytes_of d) = 32%nat.
Proof. apply length_vec_to_list. Qed.

#[global] Instance bytes_of_inj : Inj (=) (=) bytes_of.
Proof.
  intros [a] [b] H. unfold bytes_of in H. simpl in H.
  apply vec_to_list_inj2 in H. by f_equal.
Qed.

Lemma bytes_of_from_slice data d : Digest_from_slice data = Some d → bytes_of d = data.
Proof.
  unfold Digest_from_slice. case_match; [|done]. intros [= <-].
  unfold bytes_of. simpl. destruct e. simpl. apply vec_to_list_to_vec.
Qed.

Lemma Digest_from_slice_bytes_of d : Digest_from_slice (bytes_of d) = Some d.
Proof.
  destruct (Digest_from_slice (bytes_of d)) as [d'|] eqn:E.
  - apply bytes_of_from_slice in E. by apply (inj bytes_of) in E as ->.
  - unfold Digest_from_slice in E. case_match; [done|].
    pose proof (length_bytes_of d). contradiction.
Qed.

#[global] Program Instance Digest_countable : Countable Digest :=
  inj_countable' bytes_of (λ s, default Digest_ZERO (Digest_from_slice s)) _.
Next Obligation. intros d. simpl. by rewrite Digest_from_slice_bytes_of. Qed.

(** A digest with a given first byte, as the unit tests build them. *)
Definition test_digest (b : byte) : Digest := mkDigest (b ::: vreplicate 31 x00).

(* ------------------------------------------------------------------ *)
(** ** Time (time.rs) *)

Definition VtimMono : Set := f64.
Definition VtimReal : Set := f64.
Definition VtimDur : Set := f64.

Definition VtimMono_elapsed_since (self earlier : VtimMono) : VtimDur := f64_sub self earlier.
Definition VtimReal_elapsed_since (self earlier : VtimReal) : VtimDur := f64_sub self earlier.
Definition VtimReal_from_secs (secs : f64) : VtimReal := secs.
Definition VtimReal_as_secs (t : VtimReal) : f64 := t.

Definition VtimDur_ZERO : VtimDur := f64_zero.
Definition VtimDur_from_secs (secs : f64) : VtimDur := secs.
Definition VtimDur_from_millis (ms : f64) : VtimDur := f64_div ms (f64_of_Z 1000).
Definition VtimDur_as_secs (d : VtimDur) : f64 := d.
Definition VtimDur_as_millis (d : VtimDur) : f64 := f64_mul d (f64_of_Z 1000).
Definition VtimDur_is_zero (d : VtimDur) : bool := f64_eqb d f64_zero.
Definition VtimDur_is_positive (d : VtimDur) : bool := f64_gt d f64_zero.

(** [impl Add<VtimDur> for VtimReal] and the other operator impls. *)
Definition VtimReal_add (self : VtimReal) (rhs : VtimDur) : VtimReal := f64_add self rhs.
Definition VtimReal_sub (self : VtimReal) (rhs : VtimDur) : VtimReal := f64_sub self rhs.
Definition VtimDur_add (self rhs : VtimDur) : VtimDur := f64_add self rhs.
Definition VtimDur_sub (self rhs : VtimDur) : VtimDur := f64_sub self rhs.

(* ------------------------------------------------------------------ *)
(** ** Bit flags (flags.rs)

    The flag types are newtypes over [u8]. *)

Definition u8_not (b : Z) : Z := Z.lxor 255 b.

Definition ObjFlags : Set := Z.
Definition ObjFlags_GZIPED : ObjFlags := Z.shiftl 1 1.
Definition ObjFlags_CHGCE : ObjFlags := Z.shiftl 1 2.
Definition ObjFlags_IMSCAND : ObjFlags := Z.shiftl 1 3.
Definition ObjFlags_ESIPROC : ObjFlags := Z.shiftl 1 4.
Definition ObjFlags_empty : ObjFlags := 0.
Definition ObjFlags_contains (self other : ObjFlags) : bool := Z.land self other =? other.
Definition ObjFlags_insert (self other : ObjFlags) : ObjFlags := Z.lor self other.
Definition ObjFlags_remove (self other : ObjFlags) : ObjFlags := Z.land self (u8_not other).

Definition ObjCoreFlags : Set := Z.
Definition ObjCoreFlags_WITHDRAWN : ObjCoreFlags := Z.shiftl 1 0.
Definition ObjCoreFlags_BUSY : ObjCoreFlags := Z.shiftl 1 1.
Definition ObjCoreFlags_HFM : ObjCoreFlags := Z.shiftl 1 2.
Definition ObjCoreFlags_HFP : ObjCoreFlags := Z.shiftl 1 3.
Definition ObjCoreFlags_CANCEL : ObjCoreFlags := Z.shiftl 1 4.
Definition ObjCoreFlags_PRIVATE : ObjCoreFlags := Z.shiftl 1 5.
Definition ObjCoreFlags_FAILED : ObjCoreFlags := Z.shiftl 1 6.
Definition ObjCoreFlags_DYING : ObjCoreFlags := Z.shiftl 1 7.
Definition ObjCoreFlags_empty : ObjCoreFlags := 0.
Definition ObjCoreFlags_contains (self other : ObjCoreFlags) : bool :=
  Z.land self other =? other.
Definition ObjCoreFlags_insert (self other : ObjCoreFlags) : ObjCoreFlags := Z.lor self other.
Definition ObjCoreFlags_remove (self other : ObjCoreFlags) : ObjCoreFlags :=
  Z.land self (u8_not other).
Definition ObjCoreFlags_is_transient (self : ObjCoreFlags) : bool :=
  ObjCoreFlags_contains self ObjCoreFlags_PRIVATE
  || ObjCoreFlags_contains self ObjCoreFlags_HFM
  || ObjCoreFlags_contains self ObjCoreFlags_HFP.

Definition ObjExpFlags : Set := Z.
Definition ObjExpFlags_POSTED : ObjExpFlags := Z.shiftl 1 1.
Definition ObjExpFlags_REFD : ObjExpFlags := Z.shiftl 1 2.
Definition ObjExpFlags_MOVE : ObjExpFlags := Z.shiftl 1 3.
Definition ObjExpFlags_INSERT : ObjExpFlags := Z.shiftl 1 4.
Definition ObjExpFlags_REMOVE : ObjExpFlags := Z.shiftl 1 5.
Definition ObjExpFlags_NEW : ObjExpFlags := Z.shiftl 1 6.
Definition ObjExpFlags_empty : ObjExpFlags := 0.
Definition ObjExpFlags_contains (self other : ObjExpFlags) : bool := Z.land self other =? other.
Definition ObjExpFlags_insert (self other : ObjExpFlags) : ObjExpFlags := Z.lor self other.
Definition ObjExpFlags_remove (self other : ObjExpFlags) : ObjExpFlags :=
  Z.land self (u8_not other).

Record ReqFlags : Set := mkReqFlags {
  disable_esi : bool;
  hash_ignore_busy : bool;
  hash_ignore_vary : bool;
  hash_always_miss : bool;
  is_hit : bool;
  want100cont : bool;
  late100cont : bool;
  req_reset : bool;
  res_esi : bool;
  res_pipe : bool;
}.

Record ReqBereqFlags : Set := mkReqBereqFlags {
  is_hitmiss : bool;
  is_hitpass : bool;
  trace : bool;
}.

Record BereqFlags : Set := mkBereqFlags {
  bereq_uncacheable : bool;
  is_bgfetch : bool;
}.

Record BerespFlags : Set := mkBerespFlags {
  do_esi : bool;
  beresp_do_gzip : bool;
  beresp_do_gunzip : bool;
  beresp_do_stream : bool;
  was_304 : bool;
}.

(** *** Bit-flag lemmas

    [land x y =? y] is bitwise inclusion. *)

Lemma flags_contains_spec x y :
  (Z.land x y =? y) = true ↔ ∀ i, 0 ≤ i → Z.testbit y i = true → Z.testbit x i = true.
Proof.
  rewrite Z.eqb_eq. split.
  - intros H i Hi Hy. rewrite <-H, Z.land_spec in Hy. by apply andb_true_iff in Hy as [? _].
  - intros H. apply Z.bits_inj'. intros i Hi. rewrite Z.land_spec.
    destruct (Z.testbit y i) eqn:Hy; [|by rewrite andb_false_r].
    by rewrite H.
Qed.

Lemma flags_insert_contains x y : (Z.land (Z.lor x y) y =? y) = true.
Proof.
  apply flags_contains_spec. intros i _ Hy. by rewrite Z.lor_spec, Hy, orb_true_r.
Qed.

Lemma flags_insert_mono x y z :
  (Z.land x z =? z) = true → (Z.land (Z.lor x y) z =? z) = true.
Proof.
  rewrite !flags_contains_spec. intros H i Hi Hz. by rewrite Z.lor_spec, H.
Qed.

Lemma u8_bits_above b i : 0 ≤ b ≤ 255 → 8 ≤ i → Z.testbit b i = false.
Proof.
  intros Hb Hi. rewrite <-(Z.mod_small b (2 ^ 8)) by (simpl; lia).
  by rewrite Z.mod_pow2_bits_high by lia.
Qed.

Lemma u8_not_spec b i :
  0 ≤ b ≤ 255 → 0 ≤ i → Z.testbit (u8_not b) i = (i <? 8) && negb (Z.testbit b i).
Proof.
  intros Hb Hi. unfold u8_not. rewrite Z.lxor_spec.
  change 255 with (Z.ones 8). rewrite Z.testbit_ones by lia.
  rewrite (proj2 (Z.leb_le 0 i)) by done. simpl.
  destruct (Z.ltb_spec i 8); [done|]. by rewrite u8_bits_above.
Qed.

(** Removing a flag makes it absent, provided it has a bit at all. *)
Lemma flags_remove_contains x y :
  0 < y ≤ 255 → (Z.land (Z.land x (u8_not y)) y =? y) = false.
Proof.
  intros Hy. apply not_true_iff_false. rewrite flags_contains_spec. intros H.
  assert (Hl : Z.testbit y (Z.log2 y) = true) by (apply Z.bit_log2; lia).
  specialize (H (Z.log2 y) (Z.log2_nonneg y) Hl).
  rewrite Z.land_spec, u8_not_spec, Hl in H by (try apply Z.log2_nonneg; lia).
  by rewrite !andb_false_r in H.
Qed.

(** Removing a flag keeps every flag disjoint from it. *)
Lemma flags_remove_other x y z :
  0 ≤ y ≤ 255 → 0 ≤ z ≤ 255 → Z.land y z = 0 →
  (Z.land (Z.land x (u8_not y)) z =? z) = (Z.land x z =? z).
Proof.
  intros Hy Hz Hd. apply eq_true_iff_eq. rewrite !flags_contains_spec.
  assert (Hyz : ∀ i, Z.testbit z i = true → Z.testbit y i = false).
  { intros i Hi. pose proof (Z.land_spec y z i) as E.
    rewrite Hd, Z.bits_0, Hi, andb_true_r in E. done. }
  split; intros H i Hi Hzi.
  - specialize (H i Hi Hzi). rewrite Z.land_spec in H. by apply andb_true_iff in H as [? _].
  - rewrite Z.land_spec, H, u8_not_spec, Hyz by done.
    destruct (Z.ltb_spec i 8); [done|].
    by rewrite u8_bits_above in Hzi.
Qed.

Lemma flags_insert_other x y z :
  Z.land y z = 0 → (Z.land (Z.lor x y) z =? z) = (Z.land x z =? z).
Proof. intros Hd. by rewrite Z.land_lor_distr_l, Hd, Z.lor_0_r. Qed.
