(* ===== verification/HttpTypes.v ===== *)
(** * HTTP vocabulary of rv-types

    Methods (methods.rs), status codes (http_response.rs) and the known-header
    table with its filter flags (headers.rs). *)

From S2P Require Import Prelude RustStr Types.
Local Open Scope Z_scope.

(* ------------------------------------------------------------------ *)
(** ** Methods (methods.rs) *)

Inductive HttpMethod : Set :=
| HttpMethod_Get
| HttpMethod_Head
| HttpMethod_Post
| HttpMethod_Put
| HttpMethod_Delete
| HttpMethod_Options
| HttpMethod_Trace
| HttpMethod_Patch
| HttpMethod_Connect
| HttpMethod_Unknown.

#[global] Instance HttpMethod_eq_dec : EqDecision HttpMethod.
Proof. solve_decision. Defined.

(** The discriminant ([as u8] / [as u16]). *)
Definition HttpMethod_repr (x : HttpMethod) : Z :=
  match x with
  | HttpMethod_Get => 0
  | HttpMethod_Head => 1
  | HttpMethod_Post => 2
  | HttpMethod_Put => 3
  | HttpMethod_Delete => 4
  | HttpMethod_Options => 5
  | HttpMethod_Trace => 6
  | HttpMethod_Patch => 7
  | HttpMethod_Connect => 8
  | HttpMethod_Unknown => 31
  end.

Definition HttpMethod_name (x : HttpMethod) : bytes :=
  match x with
  | HttpMethod_Get => str "GET"
  | HttpMethod_Head => str "HEAD"
  | HttpMethod_Post => str "POST"
  | HttpMethod_Put => str "PUT"
  | HttpMethod_Delete => str "DELETE"
  | HttpMethod_Options => str "OPTIONS"
  | HttpMethod_Trace => str "TRACE"
  | HttpMethod_Patch => str "PATCH"
  | HttpMethod_Connect => str "CONNECT"
  | HttpMethod_Unknown => str "UNKNOWN"
  end.

Definition all_HttpMethod : list HttpMethod :=
  [HttpMethod_Get; HttpMethod_Head; HttpMethod_Post;
   HttpMethod_Put; HttpMethod_Delete; HttpMethod_Options;
   HttpMethod_Trace; HttpMethod_Patch; HttpMethod_Connect;
   HttpMethod_Unknown].

Lemma all_HttpMethod_complete x : x ∈ all_HttpMethod.
Proof. apply (bool_decide_unpack _). by destruct x; vm_compute. Qed.

(** [impl FromStr]: total, unknown names give [Unknown]. *)
Definition HttpMethod_from_str (s : bytes) : HttpMethod :=
  default HttpMethod_Unknown (match_str
    [(str "GET", HttpMethod_Get);
     (str "HEAD", HttpMethod_Head);
     (str "POST", HttpMethod_Post);
     (str "PUT", HttpMethod_Put);
     (str "DELETE", HttpMethod_Delete);
     (str "OPTIONS", HttpMethod_Options);
     (str "TRACE", HttpMethod_Trace);
     (str "PATCH", HttpMethod_Patch);
     (str "CONNECT", HttpMethod_Connect)] s).

Definition HttpMethod_parse_method (s : bytes) : HttpMethod := HttpMethod_from_str s.

Definition HttpMethod_is_safe (m : HttpMethod) : bool :=
  match m with
  | HttpMethod_Get | HttpMethod_Head | HttpMethod_Options | HttpMethod_Trace => true
  | _ => false
  end.

Definition HttpMethod_is_idempotent (m : HttpMethod) : bool :=
  match m with
  | HttpMethod_Get | HttpMethod_Head | HttpMethod_Put | HttpMethod_Delete
  | HttpMethod_Options | HttpMethod_Trace => true
  | _ => false
  end.

Definition HttpMethod_may_have_body (m : HttpMethod) : bool :=
  match m with
  | HttpMethod_Post | HttpMethod_Put | HttpMethod_Patch => true
  | _ => false
  end.

Lemma HttpMethod_safe_idempotent m :
  HttpMethod_is_safe m = true → HttpMethod_is_idempotent m = true.
Proof. by destruct m. Qed.

Lemma HttpMethod_parse_name m : HttpMethod_parse_method (HttpMethod_name m) = m.
Proof. by destruct m. Qed.

(* ------------------------------------------------------------------ *)
(** ** Status codes (http_response.rs) *)

(** [HttpStatus(u16)]. *)
Record HttpStatus : Set := mkHttpStatus { status_code : Z }.
#[global] Instance HttpStatus_eq_dec : EqDecision HttpStatus.
Proof. solve_decision. Defined.

Definition HttpStatus_CONTINUE : HttpStatus := mkHttpStatus 100.
Definition HttpStatus_SWITCHING_PROTOCOLS : HttpStatus := mkHttpStatus 101.
Definition HttpStatus_PROCESSING : HttpStatus := mkHttpStatus 102.
Definition HttpStatus_EARLY_HINTS : HttpStatus := mkHttpStatus 103.
Definition HttpStatus_OK : HttpStatus := mkHttpStatus 200.
Definition HttpStatus_CREATED : HttpStatus := mkHttpStatus 201.
Definition HttpStatus_ACCEPTED : HttpStatus := mkHttpStatus 202.
Definition HttpStatus_NON_AUTHORITATIVE : HttpStatus := mkHttpStatus 203.
Definition HttpStatus_NO_CONTENT : HttpStatus := mkHttpStatus 204.
Definition HttpStatus_RESET_CONTENT : HttpStatus := mkHttpStatus 205.
Definition HttpStatus_PARTIAL_CONTENT : HttpStatus := mkHttpStatus 206.
Definition HttpStatus_MULTIPLE_CHOICES : HttpStatus := mkHttpStatus 300.
Definition HttpStatus_MOVED_PERMANENTLY : HttpStatus := mkHttpStatus 301.
Definition HttpStatus_FOUND : HttpStatus := mkHttpStatus 302.
Definition HttpStatus_SEE_OTHER : HttpStatus := mkHttpStatus 303.
Definition HttpStatus_NOT_MODIFIED : HttpStatus := mkHttpStatus 304.
Definition HttpStatus_TEMPORARY_REDIRECT : HttpStatus := mkHttpStatus 307.
Definition HttpStatus_PERMANENT_REDIRECT : HttpStatus := mkHttpStatus 308.
Definition HttpStatus_BAD_REQUEST : HttpStatus := mkHttpStatus 400.
Definition HttpStatus_UNAUTHORIZED : HttpStatus := mkHttpStatus 401.
Definition HttpStatus_FORBIDDEN : HttpStatus := mkHttpStatus 403.
Definition HttpStatus_NOT_FOUND : HttpStatus := mkHttpStatus 404.
Definition HttpStatus_METHOD_NOT_ALLOWED : HttpStatus := mkHttpStatus 405.
Definition HttpStatus_NOT_ACCEPTABLE : HttpStatus := mkHttpStatus 406.
Definition HttpStatus_REQUEST_TIMEOUT : HttpStatus := mkHttpStatus 408.
Definition HttpStatus_CONFLICT : HttpStatus := mkHttpStatus 409.
Definition HttpStatus_GONE : HttpStatus := mkHttpStatus 410.
Definition HttpStatus_LENGTH_REQUIRED : HttpStatus := mkHttpStatus 411.
Definition HttpStatus_PRECONDITION_FAILED : HttpStatus := mkHttpStatus 412.
Definition HttpStatus_PAYLOAD_TOO_LARGE : HttpStatus := mkHttpStatus 413.
Definition HttpStatus_URI_TOO_LONG : HttpStatus := mkHttpStatus 414.
Definition HttpStatus_UNSUPPORTED_MEDIA_TYPE : HttpStatus := mkHttpStatus 415.
Definition HttpStatus_RANGE_NOT_SATISFIABLE : HttpStatus := mkHttpStatus 416.
Definition HttpStatus_EXPECTATION_FAILED : HttpStatus := mkHttpStatus 417.
Definition HttpStatus_MISDIRECTED_REQUEST : HttpStatus := mkHttpStatus 421.
Definition HttpStatus_TOO_EARLY : HttpStatus := mkHttpStatus 425.
Definition HttpStatus_UPGRADE_REQUIRED : HttpStatus := mkHttpStatus 426.
Definition HttpStatus_TOO_MANY_REQUESTS : HttpStatus := mkHttpStatus 429.
Definition HttpStatus_HEADER_FIELDS_TOO_LARGE : HttpStatus := mkHttpStatus 431.
Definition HttpStatus_INTERNAL_SERVER_ERROR : HttpStatus := mkHttpStatus 500.
Definition HttpStatus_NOT_IMPLEMENTED : HttpStatus := mkHttpStatus 501.
Definition HttpStatus_BAD_GATEWAY : HttpStatus := mkHttpStatus 502.
Definition HttpStatus_SERVICE_UNAVAILABLE : HttpStatus := mkHttpStatus 503.
Definition HttpStatus_GATEWAY_TIMEOUT : HttpStatus := mkHttpStatus 504.
Definition HttpStatus_HTTP_VERSION_NOT_SUPPORTED : HttpStatus := mkHttpStatus 505.

Definition HttpStatus_new (code : Z) : HttpStatus := mkHttpStatus code.
Definition HttpStatus_code (s : HttpStatus) : Z := status_code s.

Definition HttpStatus_reason (s : HttpStatus) : bytes :=
  match status_code s with
  | 100 => str "Continue"
  | 101 => str "Switching Protocols"
  | 102 => str "Processing"
  | 103 => str "Early Hints"
  | 200 => str "OK"
  | 201 => str "Created"
  | 202 => str "Accepted"
  | 203 => str "Non-Authoritative Information"
  | 204 => str "No Content"
  | 205 => str "Reset Content"
  | 206 => str "Partial Content"
  | 300 => str "Multiple Choices"
  | 301 => str "Moved Permanently"
  | 302 => str "Found"
  | 303 => str "See Other"
  | 304 => str "Not Modified"
  | 307 => str "Temporary Redirect"
  | 308 => str "Permanent Redirect"
  | 400 => str "Bad Request"
  | 401 => str "Unauthorized"
  | 403 => str "Forbidden"
  | 404 => str "Not Found"
  | 405 => str "Method Not Allowed"
  | 406 => str "Not Acceptable"
  | 408 => str "Request Timeout"
  | 409 => str "Conflict"
  | 410 => str "Gone"
  | 411 => str "Length Required"
  | 412 => str "Precondition Failed"
  | 413 => str "Payload Too Large"
  | 414 => str "URI Too Long"
  | 415 => str "Unsupported Media Type"
  | 416 => str "Range Not Satisfiable"
  | 417 => str "Expectation Failed"
  | 421 => str "Misdirected Request"
  | 425 => str "Too Early"
  | 426 => str "Upgrade Required"
  | 429 => str "Too Many Requests"
  | 431 => str "Request Header Fields Too Large"
  | 500 => str "Internal Server Error"
  | 501 => str "Not Implemented"
  | 502 => str "Bad Gateway"
  | 503 => str "Service Unavailable"
  | 504 => str "Gateway Timeout"
  | 505 => str "HTTP Version Not Supported"
  | _ => str "Unknown"
  end.

Definition HttpStatus_in_range (lo hi : Z) (s : HttpStatus) : bool :=
  (lo <=? status_code s) && (status_code s <? hi).
Definition HttpStatus_is_informational : HttpStatus → bool := HttpStatus_in_range 100 200.
Definition HttpStatus_is_success : HttpStatus → bool := HttpStatus_in_range 200 300.
Definition HttpStatus_is_redirection : HttpStatus → bool := HttpStatus_in_range 300 400.
Definition HttpStatus_is_client_error : HttpStatus → bool := HttpStatus_in_range 400 500.
Definition HttpStatus_is_server_error : HttpStatus → bool := HttpStatus_in_range 500 600.

Definition HttpStatus_display (s : HttpStatus) : bytes :=
  show_u64 (status_code s) ++ str " " ++ HttpStatus_reason s.

(* ------------------------------------------------------------------ *)
(** ** Known headers (headers.rs) *)

Definition HeaderFlags : Set := Z.
Definition HeaderFlags_PASS : HeaderFlags := Z.shiftl 1 0.
Definition HeaderFlags_FETCH : HeaderFlags := Z.shiftl 1 1.
Definition HeaderFlags_INSERT : HeaderFlags := Z.shiftl 1 2.
Definition HeaderFlags_PASS_S : HeaderFlags := Z.shiftl 1 3.
Definition HeaderFlags_CONNECTION : HeaderFlags := Z.shiftl 1 4.
Definition HeaderFlags_empty : HeaderFlags := 0.
Definition HeaderFlags_contains (self other : HeaderFlags) : bool := Z.land self other =? other.
Definition HeaderFlags_bitor (self rhs : HeaderFlags) : HeaderFlags := Z.lor self rhs.

Inductive KnownHeader : Set :=
| KnownHeader_Accept
| KnownHeader_AcceptCharset
| KnownHeader_AcceptEncoding
| KnownHeader_AcceptLanguage
| KnownHeader_AcceptRanges
| KnownHeader_Age
| KnownHeader_Allow
| KnownHeader_Authorization
| KnownHeader_CacheControl
| KnownHeader_Connection
| KnownHeader_ContentEncoding
| KnownHeader_ContentLanguage
| KnownHeader_ContentLength
| KnownHeader_ContentLocation
| KnownHeader_ContentMd5
| KnownHeader_ContentRange
| KnownHeader_ContentType
| KnownHeader_Cookie
| KnownHeader_Date
| KnownHeader_ETag
| KnownHeader_Expect
| KnownHeader_Expires
| KnownHeader_From
| KnownHeader_Host
| KnownHeader_Http2Settings
| KnownHeader_IfMatch
| KnownHeader_IfModifiedSince
| KnownHeader_IfNoneMatch
| KnownHeader_IfRange
| KnownHeader_IfUnmodifiedSince
| KnownHeader_KeepAlive
| KnownHeader_LastModified
| KnownHeader_Location
| KnownHeader_MaxForwards
| KnownHeader_Pragma
| KnownHeader_ProxyAuthenticate
| KnownHeader_ProxyAuthorization
| KnownHeader_Range
| KnownHeader_Referer
| KnownHeader_RetryAfter
| KnownHeader_Server
| KnownHeader_SetCookie
| KnownHeader_Te
| KnownHeader_Trailer
| KnownHeader_TransferEncoding
| KnownHeader_Upgrade
| KnownHeader_UserAgent
| KnownHeader_Vary
| KnownHeader_Via
| KnownHeader_Warning
| KnownHeader_WwwAuthenticate
| KnownHeader_XForwardedFor.

#[global] Instance KnownHeader_eq_dec : EqDecision KnownHeader.
Proof. solve_decision. Defined.

Definition KnownHeader_canonical_name (x : KnownHeader) : bytes :=
  match x with
  | KnownHeader_Accept => str "Accept"
  | KnownHeader_AcceptCharset => str "Accept-Charset"
  | KnownHeader_AcceptEncoding => str "Accept-Encoding"
  | KnownHeader_AcceptLanguage => str "Accept-Language"
  | KnownHeader_AcceptRanges => str "Accept-Ranges"
  | KnownHeader_Age => str "Age"
  | KnownHeader_Allow => str "Allow"
  | KnownHeader_Authorization => str "Authorization"
  | KnownHeader_CacheControl => str "Cache-Control"
  | KnownHeader_Connection => str "Connection"
  | KnownHeader_ContentEncoding => str "Content-Encoding"
  | KnownHeader_ContentLanguage => str "Content-Language"
  | KnownHeader_ContentLength => str "Content-Length"
  | KnownHeader_ContentLocation => str "Content-Location"
  | KnownHeader_ContentMd5 => str "Content-MD5"
  | KnownHeader_ContentRange => str "Content-Range"
  | KnownHeader_ContentType => str "Content-Type"
  | KnownHeader_Cookie => str "Cookie"
  | KnownHeader_Date => str "Date"
  | KnownHeader_ETag => str "ETag"
  | KnownHeader_Expect => str "Expect"
  | KnownHeader_Expires => str "Expires"
  | KnownHeader_From => str "From"
  | KnownHeader_Host => str "Host"
  | KnownHeader_Http2Settings => str "HTTP2-Settings"
  | KnownHeader_IfMatch => str "If-Match"
  | KnownHeader_IfModifiedSince => str "If-Modified-Since"
  | KnownHeader_IfNoneMatch => str "If-None-Match"
  | KnownHeader_IfRange => str "If-Range"
  | KnownHeader_IfUnmodifiedSince => str "If-Unmodified-Since"
  | KnownHeader_KeepAlive => str "Keep-Alive"
  | KnownHeader_LastModified => str "Last-Modified"
  | KnownHeader_Location => str "Location"
  | KnownHeader_MaxForwards => str "Max-Forwards"
  | KnownHeader_Pragma => str "Pragma"
  | KnownHeader_ProxyAuthenticate => str "Proxy-Authenticate"
  | KnownHeader_ProxyAuthorization => str "Proxy-Authorization"
  | KnownHeader_Range => str "Range"
  | KnownHeader_Referer => str "Referer"
  | KnownHeader_RetryAfter => str "Retry-After"
  | KnownHeader_Server => str "Server"
  | KnownHeader_SetCookie => str "Set-Cookie"
  | KnownHeader_Te => str "TE"
  | KnownHeader_Trailer => str "Trailer"
  | KnownHeader_TransferEncoding => str "Transfer-Encoding"
  | KnownHeader_Upgrade => str "Upgrade"
  | KnownHeader_UserAgent => str "User-Agent"
  | KnownHeader_Vary => str "Vary"
  | KnownHeader_Via => str "Via"
  | KnownHeader_Warning => str "Warning"
  | KnownHeader_WwwAuthenticate => str "WWW-Authenticate"
  | KnownHeader_XForwardedFor => str "X-Forwarded-For"
  end.

Definition all_KnownHeader : list KnownHeader :=
  [KnownHeader_Accept; KnownHeader_AcceptCharset; KnownHeader_AcceptEncoding;
   KnownHeader_AcceptLanguage; KnownHeader_AcceptRanges; KnownHeader_Age;
   KnownHeader_Allow; KnownHeader_Authorization; KnownHeader_CacheControl;
   KnownHeader_Connection; KnownHeader_ContentEncoding; KnownHeader_ContentLanguage;
   KnownHeader_ContentLength; KnownHeader_ContentLocation; KnownHeader_ContentMd5;
   KnownHeader_ContentRange; KnownHeader_ContentType; KnownHeader_Cookie;
   KnownHeader_Date; KnownHeader_ETag; KnownHeader_Expect;
   KnownHeader_Expires; KnownHeader_From; KnownHeader_Host;
   KnownHeader_Http2Settings; KnownHeader_IfMatch; KnownHeader_IfModifiedSince;
   KnownHeader_IfNoneMatch; KnownHeader_IfRange; KnownHeader_IfUnmodifiedSince;
   KnownHeader_KeepAlive; KnownHeader_LastModified; KnownHeader_Location;
   KnownHeader_MaxForwards; KnownHeader_Pragma; KnownHeader_ProxyAuthenticate;
   KnownHeader_ProxyAuthorization; KnownHeader_Range; KnownHeader_Referer;
   KnownHeader_RetryAfter; KnownHeader_Server; KnownHeader_SetCookie;
   KnownHeader_Te; KnownHeader_Trailer; KnownHeader_TransferEncoding;
   KnownHeader_Upgrade; KnownHeader_UserAgent; KnownHeader_Vary;
   KnownHeader_Via; KnownHeader_Warning; KnownHeader_WwwAuthenticate;
   KnownHeader_XForwardedFor].

Lemma all_KnownHeader_complete x : x ∈ all_KnownHeader.
Proof. apply (bool_decide_unpack _). by destruct x; vm_compute. Qed.

Definition KnownHeader_flags (h : KnownHeader) : HeaderFlags :=
  let p := HeaderFlags_PASS in
  let f := HeaderFlags_FETCH in
  let i := HeaderFlags_INSERT in
  let s := HeaderFlags_PASS_S in
  let k := HeaderFlags_CONNECTION in
  match h with
  | KnownHeader_AcceptRanges => HeaderFlags_bitor (HeaderFlags_bitor p f) i
  | KnownHeader_Age => HeaderFlags_bitor i s
  | KnownHeader_CacheControl => f
  | KnownHeader_Connection => HeaderFlags_bitor (HeaderFlags_bitor (HeaderFlags_bitor (HeaderFlags_bitor p f) i) s) k
  | KnownHeader_ContentRange => HeaderFlags_bitor f i
  | KnownHeader_Http2Settings => HeaderFlags_bitor (HeaderFlags_bitor (HeaderFlags_bitor (HeaderFlags_bitor p f) i) s) k
  | KnownHeader_IfMatch => f
  | KnownHeader_IfModifiedSince => f
  | KnownHeader_IfNoneMatch => f
  | KnownHeader_IfRange => f
  | KnownHeader_IfUnmodifiedSince => f
  | KnownHeader_KeepAlive => HeaderFlags_bitor (HeaderFlags_bitor (HeaderFlags_bitor (HeaderFlags_bitor p f) i) s) k
  | KnownHeader_ProxyAuthenticate => HeaderFlags_bitor f i
  | KnownHeader_ProxyAuthorization => HeaderFlags_bitor f i
  | KnownHeader_Range => HeaderFlags_bitor f i
  | KnownHeader_Te => HeaderFlags_bitor (HeaderFlags_bitor (HeaderFlags_bitor p f) i) s
  | KnownHeader_Trailer => HeaderFlags_bitor (HeaderFlags_bitor (HeaderFlags_bitor p f) i) s
  | KnownHeader_TransferEncoding => HeaderFlags_bitor (HeaderFlags_bitor (HeaderFlags_bitor (HeaderFlags_bitor p f) i) s) k
  | KnownHeader_Upgrade => HeaderFlags_bitor (HeaderFlags_bitor (HeaderFlags_bitor (HeaderFlags_bitor p f) i) s) k
  | _ => HeaderFlags_empty
  end.

Definition KnownHeader_cases : list (bytes * KnownHeader) :=
  [(str "accept", KnownHeader_Accept);
   (str "accept-charset", KnownHeader_AcceptCharset);
   (str "accept-encoding", KnownHeader_AcceptEncoding);
   (str "accept-language", KnownHeader_AcceptLanguage);
   (str "accept-ranges", KnownHeader_AcceptRanges);
   (str "age", KnownHeader_Age);
   (str "allow", KnownHeader_Allow);
   (str "authorization", KnownHeader_Authorization);
   (str "cache-control", KnownHeader_CacheControl);
   (str "connection", KnownHeader_Connection);
   (str "content-encoding", KnownHeader_ContentEncoding);
   (str "content-language", KnownHeader_ContentLanguage);
   (str "content-length", KnownHeader_ContentLength);
   (str "content-location", KnownHeader_ContentLocation);
   (str "content-md5", KnownHeader_ContentMd5);
   (str "content-range", KnownHeader_ContentRange);
   (str "content-type", KnownHeader_ContentType);
   (str "cookie", KnownHeader_Cookie);
   (str "date", KnownHeader_Date);
   (str "etag", KnownHeader_ETag);
   (str "expect", KnownHeader_Expect);
   (str "expires", KnownHeader_Expires);
   (str "from", KnownHeader_From);
   (str "host", KnownHeader_Host);
   (str "http2-settings", KnownHeader_Http2Settings);
   (str "if-match", KnownHeader_IfMatch);
   (str "if-modified-since", KnownHeader_IfModifiedSince);
   (str "if-none-match", KnownHeader_IfNoneMatch);
   (str "if-range", KnownHeader_IfRange);
   (str "if-unmodified-since", KnownHeader_IfUnmodifiedSince);
   (str "keep-alive", KnownHeader_KeepAlive);
   (str "last-modified", KnownHeader_LastModified);
   (str "location", KnownHeader_Location);
   (str "max-forwards", KnownHeader_MaxForwards);
   (str "pragma", KnownHeader_Pragma);
   (str "proxy-authenticate", KnownHeader_ProxyAuthenticate);
   (str "proxy-authorization", KnownHeader_ProxyAuthorization);
   (str "range", KnownHeader_Range);
   (str "referer", KnownHeader_Referer);
   (str "retry-after", KnownHeader_RetryAfter);
   (str "server", KnownHeader_Server);
   (str "set-cookie", KnownHeader_SetCookie);
   (str "te", KnownHeader_Te);
   (str "trailer", KnownHeader_Trailer);
   (str "transfer-encoding", KnownHeader_TransferEncoding);
   (str "upgrade", KnownHeader_Upgrade);
   (str "user-agent", KnownHeader_UserAgent);
   (str "vary", KnownHeader_Vary);
   (str "via", KnownHeader_Via);
   (str "warning", KnownHeader_Warning);
   (str "www-authenticate", KnownHeader_WwwAuthenticate);
   (str "x-forwarded-for", KnownHeader_XForwardedFor)].

Definition KnownHeader_from_name (name : bytes) : option KnownHeader :=
  let lower := to_ascii_lowercase name in
  match_str KnownHeader_cases lower.

(** The table lists every header once, under its lower-cased canonical name. *)
Lemma KnownHeader_cases_eq :
  KnownHeader_cases = (λ h, (to_ascii_lowercase (KnownHeader_canonical_name h), h)) <$> all_KnownHeader.
Proof. vm_compute. reflexivity. Qed.

Lemma KnownHeader_cases_NoDup : NoDup KnownHeader_cases.*1.
Proof. apply (bool_decide_unpack _). by vm_compute. Qed.

(** Lookup by name finds a header exactly when the name is its canonical name up
    to ASCII case. *)
Lemma KnownHeader_from_name_iff name h :
  KnownHeader_from_name name = Some h ↔ name_equiv name (KnownHeader_canonical_name h).
Proof.
  unfold KnownHeader_from_name.
  rewrite (match_str_name _ all_KnownHeader
             (λ h, to_ascii_lowercase (KnownHeader_canonical_name h)));
    [done|apply KnownHeader_cases_eq|apply all_KnownHeader_complete|apply KnownHeader_cases_NoDup].
Qed.

#[global] Instance KnownHeader_from_name_proper :
  Proper (name_equiv ==> (=)) KnownHeader_from_name.
Proof. intros a b H. unfold KnownHeader_from_name. by rewrite H. Qed.

#[export] Hint Resolve KnownHeader_cases_NoDup : rust.
