(* ===== verification/Header.v ===== *)
(** * HTTP header collection (rv-http, header.rs) and messages (message.rs)

    A [HeaderMap] is the ordered vector of headers; lookups ignore ASCII case.
    The laws at the end are the contract the rest of the cache relies on: they
    determine [get] and [get_all] after [set], [append] and [unset], show that
    names are only compared up to case, and that the hop-by-hop filter removes
    exactly the connection-specific headers. *)

From S2P Require Import Prelude RustStr F64 Enums Types HttpTypes.
Local Open Scope Z_scope.

Record Header : Set := mkHeader {
  h_name : bytes;
  h_value : bytes;
  h_known : option KnownHeader;
}.

Definition Header_new (name value : bytes) : Header :=
  mkHeader name value (KnownHeader_from_name name).

Definition Header_name_eq_ignore_case (h : Header) (other : bytes) : bool :=
  eq_ignore_ascii_case (h_name h) other.

Record HeaderMap : Set := mkHeaderMap { headers : list Header }.

Definition HeaderMap_new : HeaderMap := mkHeaderMap [].

Definition HeaderMap_get (m : HeaderMap) (name : bytes) : option bytes :=
  h_value <$> List.find (λ h, Header_name_eq_ignore_case h name) (headers m).

Definition HeaderMap_get_all (m : HeaderMap) (name : bytes) : list bytes :=
  h_value <$> List.filter (λ h, Header_name_eq_ignore_case h name) (headers m).

(** [Vec::retain]. *)
Definition retain (f : Header → bool) (m : HeaderMap) : HeaderMap :=
  mkHeaderMap (List.filter f (headers m)).

Definition HeaderMap_append (m : HeaderMap) (name value : bytes) : HeaderMap :=
  mkHeaderMap (headers m ++ [Header_new name value]).

Definition HeaderMap_set (m : HeaderMap) (name value : bytes) : HeaderMap :=
  let m := retain (λ h, negb (Header_name_eq_ignore_case h name)) m in
  mkHeaderMap (headers m ++ [Header_new name value]).

Definition HeaderMap_unset (m : HeaderMap) (name : bytes) : HeaderMap :=
  retain (λ h, negb (Header_name_eq_ignore_case h name)) m.

Definition HeaderMap_contains (m : HeaderMap) (name : bytes) : bool :=
  existsb (λ h, Header_name_eq_ignore_case h name) (headers m).

Definition HeaderMap_len (m : HeaderMap) : nat := length (headers m).

Definition HeaderMap_is_empty (m : HeaderMap) : bool :=
  match headers m with [] => true | _ => false end.

Definition HeaderMap_copy_from_filtered (m source : HeaderMap) (f : Header → bool) : HeaderMap :=
  mkHeaderMap (fold_left (λ acc h, if f h then acc ++ [h] else acc) (headers source) (headers m)).

Definition hop_by_hop_names : list bytes :=
  [str "connection"; str "keep-alive"; str "transfer-encoding"; str "upgrade";
   str "http2-settings"].

(** The lower-cased names listed in the first Connection header. *)
Definition connection_tokens (m : HeaderMap) : list bytes :=
  match HeaderMap_get m (str "Connection") with
  | Some v => (λ s, to_ascii_lowercase (trim s)) <$> split_char x2c v
  | None => []
  end.

Definition HeaderMap_filter_connection_headers (m : HeaderMap) : HeaderMap :=
  let connection_headers := connection_tokens m in
  retain (λ h,
    let lower := to_ascii_lowercase (h_name h) in
    if bool_decide (lower ∈ hop_by_hop_names) then false
    else if bool_decide (lower ∈ connection_headers) then false
    else true) m.

Definition HeaderMap_content_length (m : HeaderMap) : option Z :=
  HeaderMap_get m (str "Content-Length") ≫= λ v, parse_u64 (trim v).

Definition HeaderMap_is_chunked (m : HeaderMap) : bool :=
  match HeaderMap_get m (str "Transfer-Encoding") with
  | Some v => eq_ignore_ascii_case v (str "chunked")
  | None => false
  end.

Definition HeaderMap_to_vec (m : HeaderMap) : list (bytes * bytes) :=
  (λ h, (h_name h, h_value h)) <$> headers m.

Definition HeaderMap_clear (m : HeaderMap) : HeaderMap := mkHeaderMap [].

Definition HeaderMap_wire_size (m : HeaderMap) : nat :=
  foldr Nat.add 0%nat ((λ h, length (h_name h) + 2 + length (h_value h) + 2)%nat <$> headers m).

(* ------------------------------------------------------------------ *)
(** ** Messages (message.rs) *)

Inductive HttpVersion : Set := Http10 | Http11 | Http2.
#[global] Instance HttpVersion_eq_dec : EqDecision HttpVersion.
Proof. solve_decision. Defined.

Definition HttpVersion_from_str (s : bytes) : result HttpVersion unit :=
  ok_or (match_str [(str "HTTP/1.0", Http10); (str "HTTP/1.1", Http11);
                    (str "HTTP/2", Http2); (str "HTTP/2.0", Http2)] s) tt.

Definition HttpVersion_as_str (v : HttpVersion) : bytes :=
  match v with
  | Http10 => str "HTTP/1.0"
  | Http11 => str "HTTP/1.1"
  | Http2 => str "HTTP/2"
  end.

Definition HttpVersion_minor (v : HttpVersion) : Z :=
  match v with Http10 => 0 | Http11 => 1 | Http2 => 0 end.

Definition HttpVersion_supports_keepalive (v : HttpVersion) : bool :=
  negb match v with Http10 => true | _ => false end.

Record HttpMessage : Set := mkHttpMessage {
  msg_headers : HeaderMap;
  msg_status : HttpStatus;
  msg_protocol : HttpVersion;
  msg_method : HttpMethod;
  msg_url : bytes;
  msg_reason : bytes;
  msg_body_status : BodyStatus;
}.

Definition HttpMessage_new_request (method : HttpMethod) (url : bytes) (version : HttpVersion)
    : HttpMessage :=
  {| msg_headers := HeaderMap_new; msg_status := HttpStatus_OK; msg_protocol := version;
     msg_method := method; msg_url := url; msg_reason := []; msg_body_status := BodyStatus_None |}.

Definition HttpMessage_new_response (status : HttpStatus) (version : HttpVersion) : HttpMessage :=
  {| msg_headers := HeaderMap_new; msg_status := status; msg_protocol := version;
     msg_method := HttpMethod_Get; msg_url := []; msg_reason := HttpStatus_reason status;
     msg_body_status := BodyStatus_None |}.

Definition msg_with_headers (m : HttpMessage) (h : HeaderMap) : HttpMessage :=
  {| msg_headers := h; msg_status := msg_status m; msg_protocol := msg_protocol m;
     msg_method := msg_method m; msg_url := msg_url m; msg_reason := msg_reason m;
     msg_body_status := msg_body_status m |}.

Definition HttpMessage_set_header (m : HttpMessage) (name value : bytes) : HttpMessage :=
  msg_with_headers m (HeaderMap_set (msg_headers m) name value).

Definition HttpMessage_get_header (m : HttpMessage) (name : bytes) : option bytes :=
  HeaderMap_get (msg_headers m) name.

Definition HttpMessage_unset_header (m : HttpMessage) (name : bytes) : HttpMessage :=
  msg_with_headers m (HeaderMap_unset (msg_headers m) name).

Definition HttpMessage_reset (m : HttpMessage) : HttpMessage :=
  {| msg_headers := HeaderMap_clear (msg_headers m); msg_status := HttpStatus_OK;
     msg_protocol := msg_protocol m; msg_method := HttpMethod_Get; msg_url := [];
     msg_reason := []; msg_body_status := BodyStatus_None |}.

Definition HttpMessage_response_has_body (m : HttpMessage) : bool :=
  negb (HttpStatus_is_informational (msg_status m))
  && negb (bool_decide (msg_status m = HttpStatus_NO_CONTENT))
  && negb (bool_decide (msg_status m = HttpStatus_NOT_MODIFIED)).

Definition HttpMessage_request_line (m : HttpMessage) : bytes :=
  HttpMethod_name (msg_method m) ++ str " " ++ msg_url m ++ str " "
  ++ HttpVersion_as_str (msg_protocol m).

Definition HttpMessage_status_line (m : HttpMessage) : bytes :=
  HttpVersion_as_str (msg_protocol m) ++ str " " ++ show_u64 (status_code (msg_status m))
  ++ str " " ++ msg_reason m.

Definition HttpMessage_default : HttpMessage :=
  HttpMessage_new_request HttpMethod_Get (str "/") Http11.

Lemma HttpVersion_from_as_str v : HttpVersion_from_str (HttpVersion_as_str v) = Ok v.
Proof. by destruct v. Qed.

(* ------------------------------------------------------------------ *)
(** ** Laws of the header collection *)

(** Two names select the same headers when they are equal up to case. *)
#[global] Instance HeaderMap_get_proper m :
  Proper (name_equiv ==> (=)) (HeaderMap_get m).
Proof.
  intros a b H. unfold HeaderMap_get, Header_name_eq_ignore_case. f_equal.
  induction (headers m) as [|h l IH]; simpl; [done|]. by rewrite H, IH.
Qed.

#[global] Instance HeaderMap_get_all_proper m :
  Proper (name_equiv ==> (=)) (HeaderMap_get_all m).
Proof.
  intros a b H. unfold HeaderMap_get_all, Header_name_eq_ignore_case. f_equal.
  induction (headers m) as [|h l IH]; simpl; [done|]. by rewrite H, IH.
Qed.

(** [get] is the first element of [get_all]. *)
Lemma HeaderMap_get_head m name : HeaderMap_get m name = head (HeaderMap_get_all m name).
Proof.
  unfold HeaderMap_get, HeaderMap_get_all.
  induction (headers m) as [|h l IH]; simpl; [done|]. by case_if.
Qed.

Lemma HeaderMap_contains_get m name :
  HeaderMap_contains m name = bool_decide (is_Some (HeaderMap_get m name)).
Proof.
  unfold HeaderMap_contains, HeaderMap_get.
  induction (headers m) as [|h l IH]; simpl; [done|].
  destruct (Header_name_eq_ignore_case h name); simpl; [done|apply IH].
Qed.

Lemma filter_negb_same {A} (f : A → bool) (l : list A) :
  List.filter f (List.filter (λ x, negb (f x)) l) = [].
Proof.
  induction l as [|x l IH]; simpl; [done|].
  destruct (f x) eqn:E; simpl; [done|]. by rewrite E.
Qed.

Lemma filter_negb_disjoint {A} (f g : A → bool) (l : list A) :
  (∀ x, f x = true → g x = false) →
  List.filter f (List.filter (λ x, negb (g x)) l) = List.filter f l.
Proof.
  intros H. induction l as [|x l IH]; simpl; [done|].
  destruct (g x) eqn:Eg; simpl.
  - destruct (f x) eqn:Ef; [|done]. by rewrite H in Eg.
  - by rewrite IH.
Qed.

Lemma HeaderMap_get_all_append m n v n' :
  HeaderMap_get_all (HeaderMap_append m n v) n' =
  HeaderMap_get_all m n' ++ (if eq_ignore_ascii_case n n' then [v] else []).
Proof.
  unfold HeaderMap_get_all, HeaderMap_append. simpl. rewrite List.filter_app, fmap_app.
  simpl. unfold Header_name_eq_ignore_case. simpl. by case_if.
Qed.

Lemma HeaderMap_get_all_unset m n n' :
  HeaderMap_get_all (HeaderMap_unset m n) n' =
  if eq_ignore_ascii_case n n' then [] else HeaderMap_get_all m n'.
Proof.
  case_if.
  - apply eq_ignore_ascii_case_spec in E. rewrite <-E.
    unfold HeaderMap_get_all, HeaderMap_unset, retain. simpl. by rewrite filter_negb_same.
  - unfold HeaderMap_get_all, HeaderMap_unset, retain. simpl.
    rewrite filter_negb_disjoint; [done|]. unfold Header_name_eq_ignore_case.
    intros h Hh. apply eq_ignore_ascii_case_spec in Hh. rewrite Hh.
    by rewrite eq_ignore_ascii_case_sym.
Qed.

Lemma HeaderMap_set_unset_append m n v :
  HeaderMap_set m n v = HeaderMap_append (HeaderMap_unset m n) n v.
Proof. done. Qed.

(** [get_all] after [set]: the new value alone under the name set, unchanged
    elsewhere. *)
Lemma HeaderMap_get_all_set m n v n' :
  HeaderMap_get_all (HeaderMap_set m n v) n' =
  if eq_ignore_ascii_case n n' then [v] else HeaderMap_get_all m n'.
Proof.
  rewrite HeaderMap_set_unset_append, HeaderMap_get_all_append, HeaderMap_get_all_unset.
  case_if; [done|]. by rewrite app_nil_r.
Qed.

Lemma HeaderMap_get_set m n v n' :
  HeaderMap_get (HeaderMap_set m n v) n' =
  if eq_ignore_ascii_case n n' then Some v else HeaderMap_get m n'.
Proof. rewrite !HeaderMap_get_head, HeaderMap_get_all_set. by case_if. Qed.

Lemma HeaderMap_get_unset m n n' :
  HeaderMap_get (HeaderMap_unset m n) n' =
  if eq_ignore_ascii_case n n' then None else HeaderMap_get m n'.
Proof. rewrite !HeaderMap_get_head, HeaderMap_get_all_unset. by case_if. Qed.

(** Every header caches the known-header classification of its name. *)
Definition header_wf (h : Header) : Prop := h_known h = KnownHeader_from_name (h_name h).
Definition headers_wf (m : HeaderMap) : Prop := Forall header_wf (headers m).

Lemma retain_wf f m : headers_wf m → headers_wf (retain f m).
Proof.
  unfold headers_wf, retain. simpl. induction 1; simpl; [done|].
  destruct (f x); [by constructor|done].
Qed.

Lemma Header_new_wf n v : header_wf (Header_new n v).
Proof. done. Qed.

(** Laws of the header map.  After [set] the name (compared ignoring ASCII
    case) has exactly the new value and every other name keeps its values; after
    [unset] it has none; after [append] the value is added last; and all three
    keep every header's cached [known] classification in step with its name. *)
Theorem header_map_laws m n v n' :
  HeaderMap_get_all (HeaderMap_set m n v) n'
    = (if eq_ignore_ascii_case n n' then [v] else HeaderMap_get_all m n') ∧
  HeaderMap_get_all (HeaderMap_unset m n) n'
    = (if eq_ignore_ascii_case n n' then [] else HeaderMap_get_all m n') ∧
  HeaderMap_get_all (HeaderMap_append m n v) n'
    = HeaderMap_get_all m n' ++ (if eq_ignore_ascii_case n n' then [v] else []) ∧
  HeaderMap_get m n' = head (HeaderMap_get_all m n') ∧
  HeaderMap_contains m n' = bool_decide (is_Some (HeaderMap_get m n')) ∧
  (headers_wf m → headers_wf (HeaderMap_set m n v) ∧ headers_wf (HeaderMap_append m n v)
                  ∧ headers_wf (HeaderMap_unset m n)).
Proof.
  split_and!; auto using HeaderMap_get_all_set, HeaderMap_get_all_unset,
    HeaderMap_get_all_append, HeaderMap_get_head, HeaderMap_contains_get.
  intros Hwf. split_and!; [..|by apply retain_wf];
    (apply Forall_app; split; [try by apply retain_wf|by repeat constructor]); done.
Qed.

(** The hop-by-hop filter keeps a header exactly when its name is neither a
    connection-specific header nor listed in the first Connection header, keeps
    the order of the rest, and no Connection header survives it. *)
Theorem filter_connection_headers_spec m :
  headers (HeaderMap_filter_connection_headers m) `sublist_of` headers m ∧
  (∀ h, h ∈ headers (HeaderMap_filter_connection_headers m) ↔
     h ∈ headers m ∧ to_ascii_lowercase (h_name h) ∉ hop_by_hop_names
     ∧ to_ascii_lowercase (h_name h) ∉ connection_tokens m) ∧
  HeaderMap_get (HeaderMap_filter_connection_headers m) (str "Connection") = None.
Proof.
  unfold HeaderMap_filter_connection_headers, retain. simpl. split_and!.
  - induction (headers m) as [|h l IH]; simpl; [constructor|].
    case_if; by constructor.
  - intros h. rewrite list_elem_of_In, filter_In, <-list_elem_of_In.
    repeat case_bool_decide; naive_solver.
  - unfold HeaderMap_get. simpl. rewrite fmap_None.
    destruct (List.find _ _) as [h|] eqn:E; [|done].
    apply find_some in E as [Hin Heq]. apply filter_In in Hin as [_ Hf].
    unfold Header_name_eq_ignore_case in Heq. apply eq_ignore_ascii_case_spec in Heq.
    unfold name_equiv in Heq. rewrite Heq in Hf. rewrite bool_decide_true in Hf; [done|].
    apply (bool_decide_unpack _). by vm_compute.
Qed.
