(* ===== verification/Range.v ===== *)
(** * Byte ranges (rv-http, range.rs)

    Parsing of the [Range] header and resolution of a range against a body
    length.  Positions are [u64]; subtraction is the wrapping one of a release
    build, so that the empty-body case is visible in the model. *)

From S2P Require Import Prelude RustStr.
Local Open Scope Z_scope.
Local Open Scope rust_scope.

Inductive RangeError : Set := InvalidRange | NotSatisfiable.
#[global] Instance RangeError_eq_dec : EqDecision RangeError.
Proof. solve_decision. Defined.

Record RangeSpec : Set := mkRangeSpec {
  rs_start : option Z;
  rs_end : option Z;
}.
#[global] Instance RangeSpec_eq_dec : EqDecision RangeSpec.
Proof. solve_decision. Defined.

Definition RangeSpec_resolve (self : RangeSpec) (content_length : Z)
    : result (Z * Z) RangeError :=
  match rs_start self, rs_end self with
  | Some start, Some end_ =>
      if (end_ <? start) || (content_length <=? start) then Err NotSatisfiable
      else
        let end_ := Z.min end_ (u64_wrap (content_length - 1)) in
        Ok (start, end_)
  | Some start, None =>
      if content_length <=? start then Err NotSatisfiable
      else Ok (start, u64_wrap (content_length - 1))
  | None, Some suffix_length =>
      if suffix_length =? 0 then Err NotSatisfiable
      else
        let start := saturating_sub content_length suffix_length in
        Ok (start, u64_wrap (content_length - 1))
  | None, None => Err InvalidRange
  end.

Definition RangeSpec_resolved_length (self : RangeSpec) (content_length : Z)
    : result Z RangeError :=
  '(start, end_) ←? RangeSpec_resolve self content_length;
  Ok (u64_wrap (end_ - start + 1)).

(** The body of the loop of [RangeSet::parse] on one trimmed, non-empty part. *)
Definition parse_range_part (part : bytes) : result RangeSpec RangeError :=
  match strip_prefix [x2d] part with
  | Some suffix =>
      suffix_length ←? ok_or (parse_u64 suffix) InvalidRange;
      Ok (mkRangeSpec None (Some suffix_length))
  | None =>
      match split_once [x2d] part with
      | Some (start_str, end_str) =>
          start ←? ok_or (parse_u64 start_str) InvalidRange;
          match end_str with
          | [] => Ok (mkRangeSpec (Some start) None)
          | _ =>
              end_ ←? ok_or (parse_u64 end_str) InvalidRange;
              Ok (mkRangeSpec (Some start) (Some end_))
          end
      | None => Err InvalidRange
      end
  end.

Fixpoint parse_range_parts (parts : list bytes) : result (list RangeSpec) RangeError :=
  match parts with
  | [] => Ok []
  | part :: parts' =>
      let part := trim part in
      match part with
      | [] => parse_range_parts parts'
      | _ =>
          range ←? parse_range_part part;
          ranges ←? parse_range_parts parts';
          Ok (range :: ranges)
      end
  end.

Definition RangeSet_parse (header_value : bytes) : result (list RangeSpec) RangeError :=
  let header_value := trim header_value in
  ranges_str ←? ok_or (strip_prefix (str "bytes=") header_value) InvalidRange;
  ranges ←? parse_range_parts (split_char x2c ranges_str);
  match ranges with
  | [] => Err InvalidRange
  | _ => Ok ranges
  end.

Definition RangeSet_is_single (ranges : list RangeSpec) : bool :=
  (length ranges =? 1)%nat.

Definition RangeSet_content_range_header (ranges : list RangeSpec) (content_length : Z)
    : result bytes RangeError :=
  match ranges with
  | [r] =>
      '(start, end_) ←? RangeSpec_resolve r content_length;
      Ok (str "bytes " ++ show_u64 start ++ str "-" ++ show_u64 end_ ++ str "/"
          ++ show_u64 content_length)
  | _ => Err InvalidRange
  end.

(* ------------------------------------------------------------------ *)
(** ** Properties *)

(** A specification as the parser builds them: u64 positions, at least one. *)
Definition range_wf (r : RangeSpec) : Prop :=
  match rs_start r, rs_end r with
  | Some s, Some e => 0 ≤ s ≤ u64_max ∧ 0 ≤ e ≤ u64_max
  | Some s, None => 0 ≤ s ≤ u64_max
  | None, Some e => 0 ≤ e ≤ u64_max
  | None, None => False
  end.

(** The bytes a specification asks for, by RFC 7233: from [start] to [end], from
    [start] on, or the last [end] bytes. *)
Definition range_selects (r : RangeSpec) (len i : Z) : Prop :=
  0 ≤ i < len ∧
  match rs_start r, rs_end r with
  | Some s, Some e => s ≤ i ≤ e
  | Some s, None => s ≤ i
  | None, Some n => len - n ≤ i
  | None, None => False
  end.

Lemma resolve_bounds r len s e :
  range_wf r → 0 < len ≤ u64_max → RangeSpec_resolve r len = Ok (s, e) →
  0 ≤ s ≤ e ∧ e < len.
Proof.
  unfold range_wf, RangeSpec_resolve, saturating_sub. intros Hwf Hlen.
  rewrite u64_wrap_small by lia.
  destruct (rs_start r), (rs_end r); [..|done];
    case_if; intros; simplify_eq; bool_to_prop; lia.
Qed.

(** On a non-empty body, a resolved range is a valid inclusive interval of
    byte positions of the body, it holds exactly the bytes the specification
    selects, its reported length is its size, and resolution fails exactly when
    the specification selects no byte. *)
Theorem range_resolve_correct r len :
  range_wf r → 0 < len ≤ u64_max →
  match RangeSpec_resolve r len with
  | Ok (s, e) =>
      0 ≤ s ≤ e ∧ e < len ∧ (∀ i, s ≤ i ≤ e ↔ range_selects r len i) ∧
      RangeSpec_resolved_length r len = Ok (u64_wrap (e - s + 1)) ∧ 0 < e - s + 1 ≤ len
  | Err err => err = NotSatisfiable ∧ ∀ i, ¬ range_selects r len i
  end.
Proof.
  intros Hwf Hlen. unfold RangeSpec_resolved_length.
  destruct (RangeSpec_resolve r len) as [[s e]|err] eqn:E; simpl.
  - destruct (resolve_bounds _ _ _ _ Hwf Hlen E). split_and!; [lia..| |done|lia|lia].
    unfold RangeSpec_resolve, range_wf, range_selects, saturating_sub in *.
    rewrite u64_wrap_small in E by lia.
    destruct (rs_start r), (rs_end r); [..|done];
      case_if_in E; simplify_eq; bool_to_prop; lia.
  - unfold RangeSpec_resolve, range_wf, range_selects in *.
    destruct (rs_start r), (rs_end r); [..|done];
      case_if_in E; simplify_eq; (split; [done|]); intros i [? ?];
      repeat match goal with H : _ || _ = true |- _ => apply orb_true_iff in H as [H|H] end;
      bool_to_prop; lia.
Qed.

Lemma range_resolve_correct_witness :
  RangeSpec_resolve (mkRangeSpec None (Some 500)) 200 = Ok (0, 199) ∧
  (∀ i, 0 ≤ i ≤ 199 ↔ range_selects (mkRangeSpec None (Some 500)) 200 i).
Proof.
  split; [vm_compute; reflexivity|].
  assert (Hwf : range_wf (mkRangeSpec None (Some 500))) by (unfold range_wf, u64_max; simpl; lia).
  assert (Hlen : 0 < 200 ≤ u64_max) by (unfold u64_max; lia).
  pose proof (range_resolve_correct (mkRangeSpec None (Some 500)) 200 Hwf Hlen) as H.
  vm_compute (RangeSpec_resolve _ _) in H. apply H.
Defined.

(** A suffix range resolved against an empty body is accepted: the end
    position [content_length - 1] wraps around to the maximal [u64] (and panics
    where overflow checks are on), instead of being unsatisfiable. *)
Theorem range_suffix_of_empty_body n :
  0 < n ≤ u64_max →
  RangeSpec_resolve (mkRangeSpec None (Some n)) 0 = Ok (0, u64_max) ∧
  ∀ i, ¬ range_selects (mkRangeSpec None (Some n)) 0 i.
Proof.
  intros Hn. split; [|unfold range_selects; simpl; lia].
  unfold RangeSpec_resolve. simpl. rewrite (proj2 (Z.eqb_neq _ _)) by lia.
  unfold saturating_sub. rewrite Z.max_l by lia. done.
Qed.

Lemma range_suffix_of_empty_body_witness :
  RangeSpec_resolve (mkRangeSpec None (Some 500)) 0 = Ok (0, u64_max).
Proof. apply range_suffix_of_empty_body. unfold u64_max. lia. Defined.

(* ------------------------------------------------------------------ *)
(** ** Printing and parsing *)

(** The header syntax of a list of specifications. *)
Definition print_range (r : RangeSpec) : bytes :=
  default [] (show_u64 <$> rs_start r) ++ [x2d] ++ default [] (show_u64 <$> rs_end r).

Definition print_ranges (rs : list RangeSpec) : bytes :=
  str "bytes=" ++ join [x2c] (print_range <$> rs).

Lemma print_range_graphic r : range_wf r → Forall ascii_graphic (print_range r).
Proof.
  intros Hwf. unfold print_range, range_wf in *.
  assert (ascii_graphic x2d) by (vm_compute; split; reflexivity).
  destruct (rs_start r), (rs_end r); simpl; [..|done];
    repeat first [apply Forall_app_2 | apply Forall_cons_2 | apply Forall_nil_2 | done
                 | apply show_u64_graphic; lia].
Qed.

Lemma print_range_no_comma r : range_wf r → x2c ∉ print_range r.
Proof.
  intros Hwf. unfold print_range, range_wf in *.
  destruct (rs_start r), (rs_end r); simpl; [..|done];
    rewrite ?not_elem_of_app, ?not_elem_of_cons; split_and?; try done;
    first [apply show_u64_notin; [lia|done] | apply not_elem_of_nil].
Qed.

Lemma strip_prefix_dash_digits z s :
  0 ≤ z ≤ u64_max → strip_prefix [x2d] (show_u64 z ++ s) = None.
Proof.
  intros Hz. destruct (show_u64_cons z) as (c & t & Hc).
  pose proof (show_u64_notin x2d z Hz eq_refl) as Hn.
  rewrite Hc in *. rewrite <-app_comm_cons, strip_prefix_cons, decide_False; [done|].
  intros <-. apply Hn. left.
Qed.

Lemma parse_print_range r : range_wf r → parse_range_part (print_range r) = Ok r.
Proof.
  intros Hwf. unfold print_range, range_wf, parse_range_part in *.
  destruct r as [[s|] [e|]]; simpl in *; [| | |done].
  - destruct Hwf. rewrite strip_prefix_dash_digits by done.
    rewrite split_once_byte_Some by by apply show_u64_notin.
    rewrite parse_show_u64 by done. simpl.
    destruct (show_u64_cons e) as (c & t & Hc). rewrite Hc, <-Hc.
    by rewrite parse_show_u64.
  - rewrite strip_prefix_dash_digits by done.
    rewrite split_once_byte_Some by by apply show_u64_notin.
    by rewrite parse_show_u64.
  - by rewrite parse_show_u64.
Qed.

Lemma print_range_nonempty r : print_range r ≠ [].
Proof. unfold print_range. intros [_ [? _]%app_eq_nil]%app_eq_nil. done. Qed.

Lemma parse_print_range_parts rs :
  Forall range_wf rs → parse_range_parts (print_range <$> rs) = Ok rs.
Proof.
  induction 1 as [|r rs Hr Hrs IH]; [done|]. rewrite fmap_cons. cbn [parse_range_parts].
  rewrite trim_graphic by by apply print_range_graphic.
  destruct (print_range r) eqn:E; [by apply print_range_nonempty in E|].
  rewrite <-E, parse_print_range by done. by rewrite IH.
Qed.

(** Printing a non-empty list of well-formed byte-range specifications in the
    header syntax and parsing it gives the same list back. *)
Theorem range_parse_print rs :
  rs ≠ [] → Forall range_wf rs → RangeSet_parse (print_ranges rs) = Ok rs.
Proof.
  intros Hne Hwf. unfold RangeSet_parse, print_ranges.
  rewrite trim_graphic.
  2: { apply Forall_app. split; [apply (bool_decide_unpack _); by vm_compute|].
       apply Forall_join; [apply (bool_decide_unpack _); by vm_compute|].
       apply Forall_fmap. eapply Forall_impl; [done|apply print_range_graphic]. }
  rewrite (proj2 (strip_prefix_Some _ _ _) eq_refl). simpl.
  rewrite split_char_join_inv.
  - rewrite parse_print_range_parts by done. simpl. by destruct rs.
  - by destruct rs.
  - apply Forall_fmap. eapply Forall_impl; [done|apply print_range_no_comma].
Qed.

Lemma range_parse_print_witness :
  RangeSet_parse (str "bytes=0-499,500-,-200") =
  Ok [mkRangeSpec (Some 0) (Some 499); mkRangeSpec (Some 500) None; mkRangeSpec None (Some 200)].
Proof.
  apply (range_parse_print [mkRangeSpec (Some 0) (Some 499); mkRangeSpec (Some 500) None;
                            mkRangeSpec None (Some 200)]); [done|].
  repeat constructor; unfold range_wf, u64_max; simpl; lia.
Defined.
