(* ===== verification/Vary.v ===== *)
(** * Vary matching (rv-http, vary.rs)

    [build_vary_data] serialises the request headers a response varies on;
    [matches] replays the blob against a later request.  The main theorem is the
    contract of content negotiation: the blob built from one request matches
    another exactly when both agree on every header named by [Vary]. *)

From S2P Require Import Prelude RustStr F64 Enums Types HttpTypes Header.
Local Open Scope Z_scope.

(** One field: name length, name, value length, value; lengths are [as u16]. *)
Definition encode_field (name value : bytes) : bytes :=
  to_le_bytes 2 (u16_wrap (Z.of_nat (length name))) ++ name
  ++ to_le_bytes 2 (u16_wrap (Z.of_nat (length value))) ++ value.

Fixpoint build_vary_loop (request_headers : HeaderMap) (fields : list bytes) (data : bytes)
    : bytes :=
  match fields with
  | [] => data
  | field_name :: fields' =>
      let field_name := trim field_name in
      match field_name with
      | [] => build_vary_loop request_headers fields' data
      | _ =>
          let field_value := default [] (HeaderMap_get request_headers field_name) in
          build_vary_loop request_headers fields' (data ++ encode_field field_name field_value)
      end
  end.

Definition VaryMatcher_build_vary_data (response_vary : option bytes)
    (request_headers : HeaderMap) : option bytes :=
  match response_vary with
  | None => None
  | Some vary =>
      if bool_decide (trim vary = str "*") then Some [xff]
      else
        match build_vary_loop request_headers (split_char x2c vary) [] with
        | [] => None
        | data => Some data
        end
  end.

(** [&vary_data[pos..pos + len]], in range. *)
Definition slice (data : bytes) (pos len : nat) : bytes := take len (drop pos data).

(** The little-endian u16 at [pos]. *)
Definition read_u16 (data : bytes) (pos : nat) : nat :=
  Z.to_nat (from_le_bytes (slice data pos 2)).

(** The [while] loop: one round per stored field. *)
Fixpoint matches_loop (fuel : nat) (vary_data : bytes) (request_headers : HeaderMap)
    (pos : nat) : option bool :=
  match fuel with
  | O => None
  | S fuel' =>
      if decide (pos < length vary_data)%nat then
        if decide (length vary_data < pos + 2)%nat then Some false
        else
          let name_len := read_u16 vary_data pos in
          let pos := (pos + 2)%nat in
          if decide (length vary_data < pos + name_len)%nat then Some false
          else
            match from_utf8 (slice vary_data pos name_len) with
            | None => Some false
            | Some name =>
                let pos := (pos + name_len)%nat in
                if decide (length vary_data < pos + 2)%nat then Some false
                else
                  let value_len := read_u16 vary_data pos in
                  let pos := (pos + 2)%nat in
                  if decide (length vary_data < pos + value_len)%nat then Some false
                  else
                    match from_utf8 (slice vary_data pos value_len) with
                    | None => Some false
                    | Some stored_value =>
                        let pos := (pos + value_len)%nat in
                        let request_value := default [] (HeaderMap_get request_headers name) in
                        if decide (request_value ≠ stored_value) then Some false
                        else matches_loop fuel' vary_data request_headers pos
                    end
            end
      else Some true
  end.

(** [VaryMatcher::matches]; a round consumes at least four bytes, so one round
    per byte is enough ([matches_loop_total]). *)
Definition VaryMatcher_matches (vary_data : bytes) (request_headers : HeaderMap) : option bool :=
  if bool_decide (vary_data = [xff]) then Some false
  else matches_loop (S (length vary_data)) vary_data request_headers 0.

(* ------------------------------------------------------------------ *)
(** ** Termination *)

Lemma matches_loop_total fuel data req pos :
  (length data - pos < fuel)%nat → is_Some (matches_loop fuel data req pos).
Proof.
  revert pos. induction fuel as [|fuel IH]; intros pos Hf; [lia|]. simpl.
  repeat case_match; try done. apply IH. lia.
Qed.

(** Matching terminates with a verdict on every blob, well-formed or not:
    the loop reaches its end within one round per byte. *)
Lemma vary_matches_total data req : is_Some (VaryMatcher_matches data req).
Proof.
  unfold VaryMatcher_matches. case_match; [done|]. apply matches_loop_total. lia.
Qed.

(* ------------------------------------------------------------------ *)
(** ** UTF-8: slices cut at character boundaries stay valid *)

(** A byte that starts a character. *)
Definition is_lead (b : byte) : bool := negb (is_cont b).

Lemma lead_not_cont b : is_lead b = true → is_cont b = false.
Proof. unfold is_lead. by destruct (is_cont b). Qed.

Lemma byte_in_cont lo hi b :
  128 ≤ lo → hi ≤ 191 → is_cont b = false → byte_in lo hi b = false.
Proof.
  unfold is_cont, byte_in. intros Hlo Hhi Hb.
  destruct (Z.leb_spec lo (u8_val b)), (Z.leb_spec (u8_val b) hi); try done.
  rewrite !(proj2 (Z.leb_le _ _)) in Hb by lia. done.
Qed.

Ltac utf8_step b Hb :=
  cbn [app utf8_valid];
  rewrite ?(byte_in_cont 160 191 b), ?(byte_in_cont 128 159 b), ?(byte_in_cont 144 191 b),
    ?(byte_in_cont 128 143 b), ?Hb by (done || lia);
  rewrite ?andb_false_r, ?andb_false_l, ?orb_false_r; cbn [orb andb].

(** Validity splits at the start of a character. *)
Lemma utf8_valid_split a b r :
  is_lead b = true → utf8_valid (a ++ b :: r) = utf8_valid a && utf8_valid (b :: r).
Proof.
  intros Hb%lead_not_cont.
  remember (length a) as n eqn:Hn. revert a Hn.
  induction n as [n IH] using lt_wf_ind. intros a ->.
  destruct a as [|a1 [|a2 [|a3 [|a4 a]]]].
  - done.
  - cbn [app utf8_valid]. case_if; [done|]. utf8_step b Hb.
    repeat (case_match; try done); by rewrite ?andb_false_r in *.
  - cbn [app]. cbn [utf8_valid]. case_if; [by apply (IH 1%nat ltac:(simpl; lia) [a2])|].
    case_if; [done|]. utf8_step b Hb.
    repeat (case_match; try done); by rewrite ?andb_false_r in *.
  - cbn [app]. cbn [utf8_valid]. case_if; [by apply (IH 2%nat ltac:(simpl; lia) [a2; a3])|].
    case_if; [by apply (IH 1%nat ltac:(simpl; lia) [a3])|].
    case_if; [done|]. utf8_step b Hb. by rewrite ?andb_false_r.
  - cbn [app]. cbn [utf8_valid].
    case_if; [by apply (IH (3 + length a)%nat ltac:(simpl; lia) (a2 :: a3 :: a4 :: a))|].
    case_if; [by apply (IH (2 + length a)%nat ltac:(simpl; lia) (a3 :: a4 :: a))|].
    case_if; [by apply (IH (1 + length a)%nat ltac:(simpl; lia) (a4 :: a))|].
    case_if; [|done]. by apply (IH (length a) ltac:(simpl; lia) a).
Qed.

Lemma utf8_valid_ascii_cons c s :
  byte_in 0 127 c = true → utf8_valid (c :: s) = utf8_valid s.
Proof. intros Hc. cbn [utf8_valid]. by rewrite Hc. Qed.

Lemma ascii_utf8 s t : Forall (λ b, byte_in 0 127 b = true) s → utf8_valid (s ++ t) = utf8_valid t.
Proof. induction 1 as [|b s Hb _ IH]; [done|]. cbn [app]. by rewrite utf8_valid_ascii_cons. Qed.

Lemma utf8_valid_join c l :
  byte_in 0 127 c = true → utf8_valid (join [c] l) = forallb utf8_valid l.
Proof.
  intros Hc. assert (is_lead c = true) as Hl.
  { unfold is_lead, is_cont, byte_in in *. bool_to_prop. apply negb_true_iff.
    apply andb_false_iff. left. apply Z.leb_gt. lia. }
  induction l as [|s [|s' l] IH]; [done|by simpl; rewrite andb_true_r|].
  change (join [c] (s :: s' :: l)) with (s ++ c :: join [c] (s' :: l)).
  rewrite utf8_valid_split by done.
  by rewrite utf8_valid_ascii_cons, IH.
Qed.

Lemma utf8_valid_split_char c s :
  byte_in 0 127 c = true → utf8_valid s = true →
  Forall (λ x, utf8_valid x = true) (split_char c s).
Proof.
  intros Hc Hs. rewrite <-(split_char_join c s), utf8_valid_join in Hs by done.
  by apply Forall_forall; intros x Hx%list_elem_of_In; eapply forallb_forall in Hs.
Qed.

Lemma ws_seqs_shape p :
  p ∈ ws_seqs → (∃ b q, p = b :: q ∧ is_lead b = true) ∧ utf8_valid p = true.
Proof.
  intros Hp. split.
  - assert (Hall : Forall (λ p, match p with b :: _ => is_lead b = true | [] => False end) ws_seqs)
      by (repeat constructor).
    rewrite Forall_forall in Hall. specialize (Hall p Hp). destruct p; [done|]. eauto.
  - assert (Hall : Forall (λ p, utf8_valid p = true) ws_seqs) by (repeat constructor).
    rewrite Forall_forall in Hall. by apply Hall.
Qed.

Lemma utf8_valid_ws_app p r : p ∈ ws_seqs → utf8_valid (p ++ r) = utf8_valid r.
Proof.
  intros Hp. assert (Hall : Forall (λ p, utf8_valid (p ++ r) = utf8_valid r) ws_seqs)
    by (repeat constructor).
  rewrite Forall_forall in Hall. by apply Hall.
Qed.

Lemma utf8_valid_trim s : utf8_valid s = true → utf8_valid (trim s) = true.
Proof.
  intros Hs. unfold trim, trim_end.
  assert (Hs' : utf8_valid (trim_start s) = true).
  { apply (strip_while_ind (λ x, utf8_valid x = true)); [|done]. intros p r Hp. by rewrite utf8_valid_ws_app. }
  apply (strip_while_ind (λ x, utf8_valid (reverse x) = true)).
  - intros p r (q & -> & Hq)%list_elem_of_fmap. rewrite reverse_app, reverse_involutive.
    destruct (ws_seqs_shape q Hq) as [(b & t & -> & Hb) _].
    rewrite utf8_valid_split by done. by intros [? _]%andb_true_iff.
  - by rewrite reverse_involutive.
Qed.

(* ------------------------------------------------------------------ *)
(** ** What the blob encodes *)

(** The field names of a Vary value: trimmed, the empty ones dropped. *)
Definition vary_fields (vary : bytes) : list bytes :=
  List.filter (λ f, negb (bool_decide (f = []))) (trim <$> split_char x2c vary).

Definition field_value (req : HeaderMap) (name : bytes) : bytes :=
  default [] (HeaderMap_get req name).

(** Lengths that fit the two-byte length fields. *)
Definition fits_u16 (s : bytes) : Prop := Z.of_nat (length s) < 65536.

Definition encode_fields (req : HeaderMap) (fields : list bytes) : bytes :=
  mjoin ((λ f, encode_field f (field_value req f)) <$> fields).

Lemma build_vary_loop_eq req parts data :
  build_vary_loop req parts data =
  data ++ encode_fields req (List.filter (λ f, negb (bool_decide (f = []))) (trim <$> parts)).
Proof.
  unfold encode_fields. revert data. induction parts as [|p parts IH]; intros data.
  - simpl. by rewrite app_nil_r.
  - cbn [build_vary_loop fmap list_fmap List.filter]. destruct (trim p) as [|c q] eqn:E; [apply IH|].
    rewrite IH. simpl. by rewrite <-app_assoc.
Qed.

Lemma read_u16_at pre z post :
  0 ≤ z < 65536 →
  read_u16 (pre ++ to_le_bytes 2 z ++ post) (length pre) = Z.to_nat z.
Proof.
  intros Hz. unfold read_u16, slice. rewrite drop_app_length.
  rewrite take_app_length' by by rewrite length_to_le_bytes.
  rewrite from_to_le_bytes. change (256 ^ Z.of_nat 2) with 65536.
  by rewrite Z.mod_small by lia.
Qed.

Lemma slice_at pre s post : slice (pre ++ s ++ post) (length pre) (length s) = s.
Proof. unfold slice. by rewrite drop_app_length, take_app_length. Qed.

Lemma length_encode_field n v :
  length (encode_field n v) = (length n + length v + 4)%nat.
Proof. unfold encode_field. rewrite !length_app, !length_to_le_bytes. lia. Qed.

Lemma u16_wrap_length s : fits_u16 s → u16_wrap (Z.of_nat (length s)) = Z.of_nat (length s).
Proof. unfold fits_u16. intros. apply u16_wrap_small. unfold u16_max. lia. Qed.

(** One round of the loop on a well-encoded field. *)
Lemma matches_loop_field fuel pre n v post req :
  fits_u16 n → fits_u16 v → utf8_valid n = true → utf8_valid v = true →
  matches_loop (S fuel) (pre ++ encode_field n v ++ post) req (length pre) =
  if decide (field_value req n = v)
  then matches_loop fuel (pre ++ encode_field n v ++ post) req
         (length (pre ++ encode_field n v))
  else Some false.
Proof.
  intros Hn Hv Un Uv.
  set (data := pre ++ encode_field n v ++ post).
  assert (Hlen : length data = (length pre + (length n + length v + 4) + length post)%nat).
  { unfold data. rewrite !length_app, length_encode_field. lia. }
  assert (E1 : data = pre ++ to_le_bytes 2 (Z.of_nat (length n))
                 ++ (n ++ to_le_bytes 2 (Z.of_nat (length v)) ++ v ++ post)).
  { unfold data, encode_field. rewrite !u16_wrap_length by done. by rewrite <-!app_assoc. }
  assert (R1 : read_u16 data (length pre) = length n).
  { rewrite E1. unfold fits_u16 in *. rewrite read_u16_at by lia. lia. }
  assert (R2 : slice data (length pre + 2) (length n) = n).
  { rewrite E1, app_assoc.
    replace (length pre + 2)%nat with (length (pre ++ to_le_bytes 2 (Z.of_nat (length n))))
      by (rewrite length_app, length_to_le_bytes; lia).
    apply slice_at. }
  assert (R3 : read_u16 data (length pre + 2 + length n) = length v).
  { rewrite E1, 2!app_assoc.
    replace (length pre + 2 + length n)%nat
      with (length ((pre ++ to_le_bytes 2 (Z.of_nat (length n))) ++ n))
      by (rewrite !length_app, length_to_le_bytes; lia).
    unfold fits_u16 in *. rewrite read_u16_at by lia. lia. }
  assert (R4 : slice data (length pre + 2 + length n + 2) (length v) = v).
  { rewrite E1, 3!app_assoc.
    replace (length pre + 2 + length n + 2)%nat
      with (length (((pre ++ to_le_bytes 2 (Z.of_nat (length n))) ++ n)
                      ++ to_le_bytes 2 (Z.of_nat (length v))))
      by (rewrite !length_app, !length_to_le_bytes; lia).
    apply slice_at. }
  cbn [matches_loop]. rewrite decide_True by lia. rewrite decide_False by lia.
  rewrite R1, decide_False by lia. rewrite R2. unfold from_utf8. rewrite Un.
  rewrite decide_False by lia. rewrite R3, decide_False by lia. rewrite R4, Uv.
  unfold field_value. destruct (decide (default [] (HeaderMap_get req n) = v)) as [->|Hne].
  - rewrite decide_False by auto. f_equal. rewrite length_app, length_encode_field. lia.
  - by rewrite decide_True.
Qed.

(** The loop over a whole encoding decides agreement on every field. *)
Lemma matches_loop_fields req0 req fields :
  Forall (λ f, fits_u16 f ∧ fits_u16 (field_value req0 f)
               ∧ utf8_valid f = true ∧ utf8_valid (field_value req0 f) = true) fields →
  ∀ fuel pre, (length fields < fuel)%nat →
    matches_loop fuel (pre ++ encode_fields req0 fields) req (length pre) =
    Some (bool_decide (Forall (λ f, field_value req f = field_value req0 f) fields)).
Proof.
  induction 1 as [|f fields (Hf & Hv & Uf & Uv) _ IH]; intros fuel pre Hfuel;
    destruct fuel as [|fuel]; try (simpl in Hfuel; lia).
  - unfold encode_fields. simpl. rewrite app_nil_r. by rewrite decide_False by lia.
  - change (encode_fields req0 (f :: fields))
      with (encode_field f (field_value req0 f) ++ encode_fields req0 fields).
    rewrite matches_loop_field by done. simpl in Hfuel.
    destruct (decide (field_value req f = field_value req0 f)) as [E|E].
    + rewrite app_assoc, IH by lia. f_equal. apply bool_decide_ext.
      rewrite Forall_cons. naive_solver.
    + rewrite bool_decide_false; [done|]. by intros [? _]%Forall_cons.
Qed.

Lemma vary_fields_valid vary :
  utf8_valid vary = true → Forall (λ f, utf8_valid f = true) (vary_fields vary).
Proof.
  intros Hv. apply (utf8_valid_split_char x2c) in Hv; [|done].
  apply Forall_forall. unfold vary_fields. intros f Hf.
  apply list_elem_of_In in Hf. apply filter_In in Hf as [Hf _].
  apply list_elem_of_In in Hf. apply list_elem_of_fmap in Hf as (p & -> & Hp).
  apply utf8_valid_trim.
  rewrite Forall_forall in Hv. by apply Hv.
Qed.

Lemma encode_fields_cases req fields :
  (fields = [] ∧ encode_fields req fields = []) ∨
  (fields ≠ [] ∧ (4 ≤ length (encode_fields req fields))%nat).
Proof.
  destruct fields as [|f fields]; [by left|right]. split; [done|].
  change (encode_fields req (f :: fields))
    with (encode_field f (field_value req f) ++ encode_fields req fields).
  rewrite length_app, length_encode_field. lia.
Qed.

(** Type invariant of a request: header values are [String]s. *)
Definition values_utf8 (m : HeaderMap) : Prop :=
  Forall (λ h, utf8_valid (h_value h) = true) (headers m).

Lemma field_value_utf8 req name : values_utf8 req → utf8_valid (field_value req name) = true.
Proof.
  intros Hr. unfold field_value, HeaderMap_get.
  destruct (List.find _ _) as [h|] eqn:E; simpl; [|done].
  apply find_some in E as [Hin _]. apply list_elem_of_In in Hin.
  unfold values_utf8 in Hr. rewrite Forall_forall in Hr. by apply Hr.
Qed.

Lemma length_encode_fields req l : (length l ≤ length (encode_fields req l))%nat.
Proof.
  induction l as [|f l IH]; [done|].
  change (encode_fields req (f :: l))
    with (encode_field f (field_value req f) ++ encode_fields req l).
  rewrite length_app, length_encode_field. simpl. lia.
Qed.

(** Matching a request against the encoding of a non-empty field list. *)
Lemma matches_encode_fields req0 req fields :
  fields ≠ [] →
  Forall (λ f, fits_u16 f ∧ fits_u16 (field_value req0 f)
               ∧ utf8_valid f = true ∧ utf8_valid (field_value req0 f) = true) fields →
  VaryMatcher_matches (encode_fields req0 fields) req =
  Some (bool_decide (Forall (λ f, field_value req f = field_value req0 f) fields)).
Proof.
  intros Hne Hok. destruct (encode_fields_cases req0 fields) as [[? _]|[_ Hlen]]; [done|].
  unfold VaryMatcher_matches. rewrite bool_decide_false.
  2: { intros Heq. rewrite Heq in Hlen. simpl in Hlen. lia. }
  apply (matches_loop_fields req0 req fields Hok _ []).
  pose proof (length_encode_fields req0 fields). lia.
Qed.

(** C34. Correctness of Vary matching.  For a response with [Vary: v] ([v] not
    [*]) cached for the request [req0], a later request [req] matches the stored
    blob exactly when it has the same value as [req0] for every header that [v]
    names; when [v] names no header there is no blob (the object fits every
    request).  Names and values must fit the 16-bit length fields. *)
Theorem vary_matches_iff v req0 req :
  utf8_valid v = true → values_utf8 req0 → trim v ≠ str "*" →
  Forall (λ f, fits_u16 f ∧ fits_u16 (field_value req0 f)) (vary_fields v) →
  match VaryMatcher_build_vary_data (Some v) req0 with
  | None => vary_fields v = []
  | Some data =>
      VaryMatcher_matches data req =
      Some (bool_decide (Forall (λ f, field_value req f = field_value req0 f) (vary_fields v)))
  end.
Proof.
  intros Hv Hreq Hstar Hfit. unfold VaryMatcher_build_vary_data.
  rewrite bool_decide_false by done. rewrite build_vary_loop_eq, app_nil_l.
  fold (vary_fields v).
  destruct (encode_fields_cases req0 (vary_fields v)) as [[Hn He]|[Hn He]]; [by rewrite He|].
  assert (matches_encoded : VaryMatcher_matches (encode_fields req0 (vary_fields v)) req =
    Some (bool_decide (Forall (λ f, field_value req f = field_value req0 f) (vary_fields v)))).
  { apply matches_encode_fields; [done|].
    pose proof (vary_fields_valid v Hv) as Hu. rewrite Forall_forall in Hfit, Hu.
    apply Forall_forall. intros f Hf. destruct (Hfit f Hf).
    split_and!; [done..|by apply Hu|by apply field_value_utf8]. }
  destruct (encode_fields req0 (vary_fields v)); [simpl in He; lia|done].
Qed.

Definition req_gzip : HeaderMap := HeaderMap_set HeaderMap_new (str "Accept-Encoding") (str "gzip").
Definition req_br : HeaderMap := HeaderMap_set HeaderMap_new (str "accept-encoding") (str "br").

Lemma vary_matches_iff_witness :
  match VaryMatcher_build_vary_data (Some (str "Accept-Encoding, ")) req_gzip with
  | None => vary_fields (str "Accept-Encoding, ") = []
  | Some data => VaryMatcher_matches data req_br = Some false
                 ∧ VaryMatcher_matches data req_gzip = Some true
  end.
Proof.
  pose proof (vary_matches_iff (str "Accept-Encoding, ") req_gzip req_br) as H1.
  pose proof (vary_matches_iff (str "Accept-Encoding, ") req_gzip req_gzip) as H2.
  assert (U : utf8_valid (str "Accept-Encoding, ") = true) by reflexivity.
  assert (V : values_utf8 req_gzip) by (repeat constructor).
  assert (S : trim (str "Accept-Encoding, ") ≠ str "*") by (vm_compute; discriminate).
  assert (F : Forall (λ f, fits_u16 f ∧ fits_u16 (field_value req_gzip f))
                (vary_fields (str "Accept-Encoding, "))).
  { vm_compute (vary_fields _). repeat constructor; reflexivity. }
  specialize (H1 U V S F). specialize (H2 U V S F).
  destruct (VaryMatcher_build_vary_data _ _); [|exact H1].
  rewrite H1, H2. split; vm_compute; reflexivity.
Defined.
