(* ===== verification/Rfc2616.v ===== *)
(** * Freshness: Cache-Control, TTL, conditional requests and HTTP dates

    Models [rv-http/src/rfc2616.rs]: [CacheControl::parse], the TTL calculation
    [TtlCalculation::from_response], [evaluate_conditional] with its ETag
    comparison, and the three HTTP date formats with the day-count arithmetic
    behind them. *)

From S2P Require Import Prelude RustStr F64 Enums Types HttpTypes Header.
Local Open Scope Z_scope.

(* ------------------------------------------------------------------ *)
(** ** Cache-Control *)

Record CacheControl : Set := mkCacheControl {
  max_age : option f64;
  s_maxage : option f64;
  no_cache : bool;
  no_store : bool;
  must_revalidate : bool;
  proxy_revalidate : bool;
  cc_public : bool;
  cc_private : bool;
  immutable : bool;
  stale_while_revalidate : option f64;
  stale_if_error : option f64;
}.

Definition CacheControl_default : CacheControl :=
  mkCacheControl None None false false false false false false false None None.

(** One [directive], split at [=] and cleaned: key (in lower case) and value. *)
Definition split_directive (directive : bytes) : bytes * option bytes :=
  let directive := trim directive in
  match split_once (str "=") directive with
  | Some (k, v) => (to_ascii_lowercase (trim k), Some (trim_matches x22 (trim v)))
  | None => (to_ascii_lowercase directive, None)
  end.

(** The body of the loop: the assignments of the [match] on the key. *)
Definition apply_directive (cc : CacheControl) (directive : bytes) : CacheControl :=
  let '(key, value) := split_directive directive in
  let num := value ≫= parse_f64 in
  let '(mkCacheControl ma sm nc ns mr pr pu pv im swr sie) := cc in
  default cc (match_str
    [(str "max-age", mkCacheControl num sm nc ns mr pr pu pv im swr sie);
     (str "s-maxage", mkCacheControl ma num nc ns mr pr pu pv im swr sie);
     (str "no-cache", mkCacheControl ma sm true ns mr pr pu pv im swr sie);
     (str "no-store", mkCacheControl ma sm nc true mr pr pu pv im swr sie);
     (str "must-revalidate", mkCacheControl ma sm nc ns true pr pu pv im swr sie);
     (str "proxy-revalidate", mkCacheControl ma sm nc ns mr true pu pv im swr sie);
     (str "public", mkCacheControl ma sm nc ns mr pr true pv im swr sie);
     (str "private", mkCacheControl ma sm nc ns mr pr pu true im swr sie);
     (str "immutable", mkCacheControl ma sm nc ns mr pr pu pv true swr sie);
     (str "stale-while-revalidate", mkCacheControl ma sm nc ns mr pr pu pv im num sie);
     (str "stale-if-error", mkCacheControl ma sm nc ns mr pr pu pv im swr num)] key).

Definition CacheControl_parse (header_value : bytes) : CacheControl :=
  fold_left apply_directive (split_char x2c header_value) CacheControl_default.

Definition CacheControl_is_uncacheable (cc : CacheControl) : bool := no_store cc || cc_private cc.

(* ------------------------------------------------------------------ *)
(** ** HTTP dates *)

Definition month_cases : list (bytes * Z) :=
  [(str "Jan", 1); (str "Feb", 2); (str "Mar", 3); (str "Apr", 4); (str "May", 5);
   (str "Jun", 6); (str "Jul", 7); (str "Aug", 8); (str "Sep", 9); (str "Oct", 10);
   (str "Nov", 11); (str "Dec", 12)].

Definition month_number (month : bytes) : option Z := match_str month_cases month.

(** The [i64] arithmetic of [components_to_timestamp]: [/] truncates. *)
Definition components_to_seconds (year month day hour min sec : Z) : Z :=
  let y := if month <=? 2 then year - 1 else year in
  let m := if month <=? 2 then month + 12 else month in
  let days := 365 * y + Z.quot y 4 - Z.quot y 100 + Z.quot y 400
              + Z.quot (153 * (m - 3) + 2) 5 + day - 719469 in
  days * 86400 + hour * 3600 + min * 60 + sec.

Definition components_to_timestamp (year month day hour min sec : Z) : f64 :=
  f64_of_Z (components_to_seconds year month day hour min sec).

(** The [hh:mm:ss] part, split at [:] into exactly three numbers. *)
Definition parse_hms (s : bytes) : option (Z * Z * Z) :=
  match split_char x3a s with
  | [h; m; sec] =>
      hour ← parse_u32 h; min ← parse_u32 m; sec ← parse_u32 sec; Some (hour, min, sec)
  | _ => None
  end.

Definition parse_rfc1123 (s : bytes) : option VtimReal :=
  match split_whitespace s with
  | [_; day; month; year; time; zone] =>
      if decide (zone = str "GMT") then
        day ← parse_u32 day;
        month ← month_number month;
        year ← parse_u32 year;
        '(hour, min, sec) ← parse_hms time;
        Some (VtimReal_from_secs (components_to_timestamp year month day hour min sec))
      else None
  | _ => None
  end.

(** Two-digit years pivot at 70; [year += ..] is [u32] arithmetic that cannot
    overflow here. *)
Definition expand_year (year : Z) : Z :=
  if year <? 100 then year + (if year <? 70 then 2000 else 1900) else year.

Definition parse_rfc850 (s : bytes) : option VtimReal :=
  '(_, rest) ← split_once (str ", ") s;
  match split_whitespace rest with
  | [date; time; zone] =>
      if decide (zone = str "GMT") then
        match split_char x2d date with
        | [day; month; year] =>
            day ← parse_u32 day;
            month ← month_number month;
            year ← parse_u32 year;
            '(hour, min, sec) ← parse_hms time;
            Some (VtimReal_from_secs
                    (components_to_timestamp (expand_year year) month day hour min sec))
        | _ => None
        end
      else None
  | _ => None
  end.

Definition parse_asctime (s : bytes) : option VtimReal :=
  match split_whitespace s with
  | [_; month; day; time; year] =>
      month ← month_number month;
      day ← parse_u32 day;
      year ← parse_u32 year;
      '(hour, min, sec) ← parse_hms time;
      Some (VtimReal_from_secs (components_to_timestamp year month day hour min sec))
  | _ => None
  end.

Definition parse_http_date (s : bytes) : option VtimReal :=
  let s := trim s in
  match parse_rfc1123 s with
  | Some t => Some t
  | None =>
      match parse_rfc850 s with
      | Some t => Some t
      | None => parse_asctime s
      end
  end.

(* ------------------------------------------------------------------ *)
(** ** TTL calculation *)

Record TtlCalculation : Set := mkTtl {
  ttl_ttl : VtimDur;
  ttl_grace : VtimDur;
  ttl_keep : VtimDur;
  ttl_t_origin : VtimReal;
  ttl_uncacheable : bool;
}.

Definition TtlCalculation_from_response (resp : HttpMessage) (now : VtimReal)
    (default_ttl default_grace default_keep : VtimDur) : TtlCalculation :=
  let cc := match HttpMessage_get_header resp (str "Cache-Control") with
            | Some v => CacheControl_parse v
            | None => CacheControl_default
            end in
  if CacheControl_is_uncacheable cc then
    mkTtl (VtimDur_from_secs (f64_of_Z (-1))) default_grace default_keep now true
  else
    let t_origin :=
      match HttpMessage_get_header resp (str "Date") with
      | Some date_str => default now (parse_http_date date_str)
      | None => now
      end in
    let age := default f64_zero
      (v ← HttpMessage_get_header resp (str "Age"); parse_f64 (trim v)) in
    let with_ttl ttl := mkTtl ttl default_grace default_keep t_origin false in
    match s_maxage cc with
    | Some s_maxage => with_ttl (VtimDur_from_secs (f64_sub s_maxage age))
    | None =>
        match max_age cc with
        | Some max_age => with_ttl (VtimDur_from_secs (f64_sub max_age age))
        | None =>
            match HttpMessage_get_header resp (str "Expires") ≫= parse_http_date with
            | Some expires =>
                with_ttl (VtimDur_from_secs
                            (f64_sub (VtimReal_as_secs expires) (VtimReal_as_secs t_origin)))
            | None =>
                if no_cache cc then with_ttl (VtimDur_from_secs f64_zero)
                else
                  match stale_while_revalidate cc with
                  | Some swr =>
                      mkTtl default_ttl (VtimDur_from_secs swr) default_keep t_origin false
                  | None => with_ttl default_ttl
                  end
            end
        end
    end.

(* ------------------------------------------------------------------ *)
(** ** Conditional requests *)

Definition strip_weak (etag : bytes) : bytes := default etag (strip_prefix (str "W/") etag).

Definition etag_matches (inm_header etag : bytes) : bool :=
  existsb (λ candidate, bool_decide (strip_weak (trim candidate) = strip_weak etag))
    (split_char x2c inm_header).

Definition evaluate_conditional (req : HttpMessage) (resp_etag resp_last_modified : option bytes)
    : bool :=
  match HttpMessage_get_header req (str "If-None-Match") with
  | Some inm =>
      match resp_etag with
      | Some etag => bool_decide (trim inm = str "*") || etag_matches inm etag
      | None => false
      end
  | None =>
      match HttpMessage_get_header req (str "If-Modified-Since"), resp_last_modified with
      | Some ims, Some lm =>
          match parse_http_date ims, parse_http_date lm with
          | Some ims_time, Some lm_time =>
              f64_le (VtimReal_as_secs lm_time) (VtimReal_as_secs ims_time)
          | _, _ => false
          end
      | _, _ => false
      end
  end.

Example parse_rfc1123_ex :
  parse_http_date (str "Sun, 06 Nov 1994 08:49:37 GMT") = Some (f64_of_Z 784111777).
Proof. vm_compute. reflexivity. Qed.

(* ------------------------------------------------------------------ *)
(** ** Cache-Control: flags and last-wins values

    The reference reading of a Cache-Control header: a flag is set when some
    directive carries its name, a number is the one of the last directive with
    its name. *)

Definition directives (hv : bytes) : list (bytes * option bytes) :=
  split_directive <$> split_char x2c hv.

Definition has_directive (k : bytes) (ds : list (bytes * option bytes)) : bool :=
  bool_decide (k ∈ ds.*1).

Definition last_number (k : bytes) (ds : list (bytes * option bytes)) : option f64 :=
  d ← last (filter (λ d, k = d.1) ds); d.2 ≫= parse_f64.

Definition reference_cc (ds : list (bytes * option bytes)) : CacheControl :=
  mkCacheControl (last_number (str "max-age") ds) (last_number (str "s-maxage") ds)
    (has_directive (str "no-cache") ds) (has_directive (str "no-store") ds)
    (has_directive (str "must-revalidate") ds) (has_directive (str "proxy-revalidate") ds)
    (has_directive (str "public") ds) (has_directive (str "private") ds)
    (has_directive (str "immutable") ds) (last_number (str "stale-while-revalidate") ds)
    (last_number (str "stale-if-error") ds).

Lemma has_directive_snoc k ds d :
  has_directive k (ds ++ [d]) = if decide (k = d.1) then true else has_directive k ds.
Proof.
  unfold has_directive. rewrite fmap_app. simpl. case_decide as E; subst.
  - apply bool_decide_true. set_solver.
  - apply bool_decide_ext. set_solver.
Qed.

Lemma last_number_snoc k ds d :
  last_number k (ds ++ [d]) = if decide (k = d.1) then d.2 ≫= parse_f64 else last_number k ds.
Proof.
  unfold last_number. rewrite filter_app, filter_cons, filter_nil.
  case_decide; [by rewrite last_snoc|by rewrite app_nil_r].
Qed.

Lemma apply_directive_reference ds d :
  apply_directive (reference_cc ds) d = reference_cc (ds ++ [split_directive d]).
Proof.
  unfold apply_directive, reference_cc.
  rewrite !has_directive_snoc, !last_number_snoc.
  destruct (split_directive d) as [key value]. cbn [fst snd match_str].
  repeat (destruct (decide (_ = key)) as [<-|_];
          [repeat (rewrite decide_False by (vm_compute; discriminate)); done|]).
  done.
Qed.

Lemma fold_directives_reference l :
  fold_left apply_directive l CacheControl_default = reference_cc (split_directive <$> l).
Proof.
  induction l as [|d l IH] using rev_ind; [reflexivity|].
  rewrite fold_left_app. simpl. rewrite IH, fmap_app. apply apply_directive_reference.
Qed.

(** Cache-Control parsing reads the header the way RFC 9111 describes it: the
    result is, for any header value, the one computed directly from the list of
    directives: a flag is set exactly when a directive of that (case-insensitive)
    name occurs, a number is the value of the last directive of its name, and
    unknown directives are ignored. *)
Theorem CacheControl_parse_reference hv :
  CacheControl_parse hv = reference_cc (directives hv).
Proof. apply fold_directives_reference. Qed.

(** The directives of a response: none when the header is missing. *)
Definition response_directives (resp : HttpMessage) : list (bytes * option bytes) :=
  match HttpMessage_get_header resp (str "Cache-Control") with
  | Some v => directives v
  | None => []
  end.

Definition response_age (resp : HttpMessage) : f64 :=
  default f64_zero (v ← HttpMessage_get_header resp (str "Age"); parse_f64 (trim v)).

Definition response_origin (resp : HttpMessage) (now : VtimReal) : VtimReal :=
  default now (HttpMessage_get_header resp (str "Date") ≫= parse_http_date).

(** TTL priority.  A response is uncacheable exactly when its Cache-Control
    carries no-store or private; otherwise s-maxage (the last one) decides the
    TTL, then max-age, both less the Age header, then Expires relative to Date,
    then no-cache (zero), then the default; grace is the default unless only
    stale-while-revalidate is left to consider, and keep is never changed. *)
Theorem ttl_priority resp now dt dg dk :
  let r := TtlCalculation_from_response resp now dt dg dk in
  let ds := response_directives resp in
  let age := response_age resp in
  let origin := response_origin resp now in
  ttl_uncacheable r = has_directive (str "no-store") ds || has_directive (str "private") ds
  ∧ ttl_keep r = dk
  ∧ (ttl_uncacheable r = true → ttl_ttl r = f64_of_Z (-1) ∧ ttl_grace r = dg ∧ ttl_t_origin r = now)
  ∧ (ttl_uncacheable r = false →
     ttl_t_origin r = origin ∧
     match last_number (str "s-maxage") ds, last_number (str "max-age") ds,
           HttpMessage_get_header resp (str "Expires") ≫= parse_http_date with
     | Some n, _, _ | None, Some n, _ => ttl_ttl r = f64_sub n age ∧ ttl_grace r = dg
     | None, None, Some e => ttl_ttl r = f64_sub e origin ∧ ttl_grace r = dg
     | None, None, None =>
         if has_directive (str "no-cache") ds then ttl_ttl r = f64_zero ∧ ttl_grace r = dg
         else ttl_ttl r = dt
              ∧ ttl_grace r = default dg (last_number (str "stale-while-revalidate") ds)
     end).
Proof.
  cbv zeta. unfold TtlCalculation_from_response.
  replace (match HttpMessage_get_header resp (str "Cache-Control") with
           | Some v => CacheControl_parse v | None => CacheControl_default end)
    with (reference_cc (response_directives resp)).
  2: { unfold response_directives. case_match; [|reflexivity].
       symmetry. apply fold_directives_reference. }
  fold (response_age resp).
  replace (match HttpMessage_get_header resp (str "Date") with
           | Some date_str => default now (parse_http_date date_str) | None => now end)
    with (response_origin resp now) by (unfold response_origin; by case_match).
  unfold CacheControl_is_uncacheable. cbn [reference_cc no_store cc_private s_maxage max_age
    no_cache stale_while_revalidate].
  destruct (has_directive (str "no-store") _ || _); simpl; [by split_and!|].
  destruct (last_number (str "s-maxage") _); simpl; [by split_and!|].
  destruct (last_number (str "max-age") _); simpl; [by split_and!|].
  destruct (HttpMessage_get_header resp (str "Expires") ≫= _); simpl; [by split_and!|].
  destruct (has_directive (str "no-cache") _); simpl; [by split_and!|].
  destruct (last_number (str "stale-while-revalidate") _); by split_and!.
Qed.

(** A backend that sends both max-age and stale-while-revalidate does not get
    its grace window: the override is only reached when no explicit lifetime is
    given. *)
Theorem stale_while_revalidate_ignored : ∃ resp,
  last_number (str "stale-while-revalidate") (response_directives resp) = Some (f64_of_Z 600)
  ∧ ∀ now dt dg dk,
      ttl_grace (TtlCalculation_from_response resp now dt dg dk) = dg.
Proof.
  exists (HttpMessage_set_header (HttpMessage_new_response HttpStatus_OK Http11)
            (str "Cache-Control") (str "max-age=60, stale-while-revalidate=600")).
  split; [vm_compute; reflexivity|]. intros. vm_compute. reflexivity.
Qed.

(* ------------------------------------------------------------------ *)
(** ** The day count

    The proleptic Gregorian calendar as a successor function on dates. *)

Definition leap (y : Z) : bool :=
  (y mod 4 =? 0) && (negb (y mod 100 =? 0) || (y mod 400 =? 0)).

Definition days_in_month (y m : Z) : Z :=
  if m =? 2 then (if leap y then 29 else 28)
  else if (m =? 4) || (m =? 6) || (m =? 9) || (m =? 11) then 30 else 31.

Definition next_day (date : Z * Z * Z) : Z * Z * Z :=
  let '(y, m, d) := date in
  if d <? days_in_month y m then (y, m, d + 1)
  else if m <? 12 then (y, m + 1, 1) else (y + 1, 1, 1).

Definition valid_date (date : Z * Z * Z) : Prop :=
  let '(y, m, d) := date in 1 ≤ y ∧ 1 ≤ m ≤ 12 ∧ 1 ≤ d ≤ days_in_month y m.

Lemma next_day_valid date : valid_date date → valid_date (next_day date).
Proof.
  destruct date as [[y m] d]. unfold valid_date, next_day. intros (? & ? & ?).
  case_if; bool_to_prop; [lia|].
  case_if; bool_to_prop; (split_and!; try lia);
    unfold days_in_month; repeat case_if; lia.
Qed.

Lemma div_succ y a : 0 < a → (y + 1) / a = y / a + (if (y + 1) mod a =? 0 then 1 else 0).
Proof.
  intros Ha. pose proof (Z.div_mod y a ltac:(lia)). pose proof (Z.mod_pos_bound y a Ha).
  destruct (decide (y mod a = a - 1)) as [E|E].
  - replace (y + 1) with (0 + (y / a + 1) * a) by nia.
    rewrite Z.mod_add, Z.div_add by lia. rewrite Z.mod_0_l, Z.div_0_l by lia. simpl. lia.
  - replace (y + 1) with (y mod a + 1 + (y / a) * a) by nia.
    rewrite Z.mod_add, Z.div_add by lia. rewrite (Z.mod_small (_ + 1)), (Z.div_small (_ + 1)) by lia.
    case_if; bool_to_prop; lia.
Qed.

(** The leap-day term grows by one exactly in leap years. *)
Lemma quot_leap y : 0 ≤ y →
  Z.quot (y + 1) 4 - Z.quot (y + 1) 100 + Z.quot (y + 1) 400 =
  Z.quot y 4 - Z.quot y 100 + Z.quot y 400 + (if leap (y + 1) then 1 else 0).
Proof.
  intros Hy. rewrite !Z.quot_div_nonneg by lia. rewrite !div_succ by lia. unfold leap.
  assert (∀ a k, 0 < a → 0 < k → (y + 1) mod (k * a) = 0 → (y + 1) mod a = 0) as Hdiv.
  { intros a k ?? H. apply Z.mod_divide in H as [q H]; [|lia].
    apply Z.mod_divide; [lia|]. exists (q * k). lia. }
  pose proof (Hdiv 100 4 eq_refl eq_refl : (y + 1) mod 400 = 0 → _) as H1.
  pose proof (Hdiv 4 25 eq_refl eq_refl : (y + 1) mod 100 = 0 → _) as H2. clear Hdiv.
  destruct (Z.eqb_spec ((y + 1) mod 4) 0), (Z.eqb_spec ((y + 1) mod 100) 0),
    (Z.eqb_spec ((y + 1) mod 400) 0); simpl; first [lia|tauto].
Qed.

(** Evaluate the quotients of constants by [b]. *)
Ltac eval_quot b :=
  repeat match goal with
         | |- context [Z.quot ?a b] =>
             let v := eval vm_compute in (Z.quot a b) in change (Z.quot a b) with v
         end.

Lemma components_next_day date h mi s :
  valid_date date →
  let '(y, m, d) := date in
  let '(y', m', d') := next_day date in
  components_to_seconds y' m' d' h mi s = components_to_seconds y m d h mi s + 86400.
Proof.
  destruct date as [[y m] d]. unfold valid_date, next_day. intros (Hy & Hm & Hd).
  case_if; bool_to_prop; [unfold components_to_seconds; lia|].
  assert (d = days_in_month y m) as -> by lia. clear E Hd.
  pose proof (quot_leap (y - 1) ltac:(lia)) as Q. replace (y - 1 + 1) with y in Q by lia.
  assert (m = 1 ∨ m = 2 ∨ m = 3 ∨ m = 4 ∨ m = 5 ∨ m = 6 ∨ m = 7 ∨ m = 8 ∨ m = 9 ∨ m = 10
          ∨ m = 11 ∨ m = 12) as Hcases by lia.
  unfold components_to_seconds, days_in_month.
  decompose [or] Hcases; subst m; simpl; eval_quot 5; try lia.
  - destruct (leap y); lia.
  - replace (y + 1 - 1) with y by lia. lia.
Qed.

(** The HTTP date arithmetic counts days exactly: the [n]-th day after
    1 January 1970 in the Gregorian calendar (leap years included) is mapped to
    [n * 86400] seconds plus the time of day. *)
Theorem timestamp_counts_days n h mi s :
  let '(y, m, d) := Nat.iter n next_day (1970, 1, 1) in
  components_to_seconds y m d h mi s = Z.of_nat n * 86400 + h * 3600 + mi * 60 + s.
Proof.
  assert (valid_date (Nat.iter n next_day (1970, 1, 1)) ∧
    let '(y, m, d) := Nat.iter n next_day (1970, 1, 1) in
    components_to_seconds y m d h mi s = Z.of_nat n * 86400 + h * 3600 + mi * 60 + s) as [_ H];
    [|exact H].
  induction n as [|n [Hv IH]].
  - split; [repeat split; vm_compute; congruence|].
    unfold components_to_seconds. simpl.
    eval_quot 4. eval_quot 100. eval_quot 400. eval_quot 5. lia.
  - cbn [Nat.iter nat_rect] in *. fold (Nat.iter n next_day (1970, 1, 1)) in *.
    split; [by apply next_day_valid|].
    pose proof (components_next_day _ h mi s Hv) as Hn.
    destruct (Nat.iter n next_day (1970, 1, 1)) as [[y m] d].
    destruct (next_day (y, m, d)) as [[y' m'] d']. lia.
Qed.

Lemma quot_small z a : 0 < a → -1 ≤ z < 2 ^ 32 → -1 ≤ Z.quot z a < 2 ^ 32.
Proof.
  intros Ha Hz. destruct (decide (z = -1)) as [->|].
  - assert (a = 1 ∨ 1 < a) as [->|Ha'] by lia; [vm_compute; split; congruence|].
    change (-1) with (- (1)) at 2 3. rewrite Z.quot_opp_l by lia.
    rewrite Z.quot_small by lia. lia.
  - rewrite Z.quot_div_nonneg by lia. split; [pose proof (Z.div_pos z a); lia|].
    apply Z.div_lt_upper_bound; nia.
Qed.

(** The [i64] computation never overflows: for every [u32] date and time the
    exact result, and so the wrapping one, lies well inside the 64-bit range. *)
Theorem timestamp_in_range y m d h mi s :
  in_width 32 y → 1 ≤ m ≤ 12 → in_width 32 d →
  in_width 32 h → in_width 32 mi → in_width 32 s →
  - 2 ^ 57 < components_to_seconds y m d h mi s < 2 ^ 58.
Proof.
  unfold in_width, components_to_seconds. intros Hy Hm Hd Hh Hmi Hs.
  set (y' := if m <=? 2 then y - 1 else y). set (m' := if m <=? 2 then m + 12 else m).
  assert (-1 ≤ y' < 2 ^ 32 ∧ 1 ≤ m' ≤ 14) as [Hy' Hm'] by (subst y' m'; destruct (Z.leb_spec m 2); lia).
  assert (-1 ≤ Z.quot y' 4 < 2 ^ 32) by (apply quot_small; lia).
  assert (-1 ≤ Z.quot y' 100 < 2 ^ 32) by (apply quot_small; lia).
  assert (-1 ≤ Z.quot y' 400 < 2 ^ 32) by (apply quot_small; lia).
  assert (-1000 ≤ Z.quot (153 * (m' - 3) + 2) 5 < 2 ^ 32) 
    by (rewrite <-(Z2Nat.id m') by lia;
        assert (Z.to_nat m' ≤ 14)%nat as Hn by lia; revert Hn; clear;
        generalize (Z.to_nat m') as n; intros n Hn;
        do 15 (destruct n as [|n]; [vm_compute; split; congruence|]); lia).
  clearbody y' m'.
  generalize dependent (Z.quot y' 4). generalize dependent (Z.quot y' 100).
  generalize dependent (Z.quot y' 400). generalize dependent (Z.quot (153 * (m' - 3) + 2) 5).
  lia.
Qed.

Lemma timestamp_in_range_witness :
  - 2 ^ 57 < components_to_seconds 4294967295 12 4294967295 4294967295 4294967295 4294967295
    < 2 ^ 58.
Proof. apply timestamp_in_range; unfold in_width; lia. Defined.

(* ------------------------------------------------------------------ *)
(** ** The three date formats *)

Definition two_digits (d : Z) : bytes := [digit_byte (d / 10); digit_byte (d mod 10)].

Definition print_hms (h mi s : Z) : bytes :=
  join [x3a] [two_digits h; two_digits mi; two_digits s].

Definition print_rfc1123 (wd mon : bytes) (y d h mi s : Z) : bytes :=
  join [x20] [wd ++ str ","; two_digits d; mon; show_u64 y; print_hms h mi s; str "GMT"].

Definition print_rfc850 (wd mon : bytes) (y d h mi s : Z) : bytes :=
  join [x20] [wd ++ str ","; join [x2d] [two_digits d; mon; two_digits (y mod 100)];
              print_hms h mi s; str "GMT"].

Definition print_asctime (wd mon : bytes) (y d h mi s : Z) : bytes :=
  join [x20] [wd; mon; show_u64 d; print_hms h mi s; show_u64 y].

Lemma two_digits_spec d : 0 ≤ d < 100 →
  parse_u32 (two_digits d) = Some d ∧ Forall (λ c, is_Some (digit_val c)) (two_digits d).
Proof.
  intros Hd. pose proof (Z.mod_pos_bound d 10 eq_refl).
  assert (0 ≤ d / 10 < 10)
    by (split; [apply Z.div_pos; lia|apply Z.div_lt_upper_bound; lia]).
  split.
  - unfold parse_u32, parse_uint, two_digits. rewrite decide_False.
    2: { by apply digit_byte_not; [lia|]. }
    cbn [parse_digits]. rewrite !digit_val_byte by lia. unfold u32_max.
    rewrite (proj2 (Z.leb_le _ _)), (proj2 (Z.leb_le _ _)) by lia.
    f_equal. pose proof (Z.div_mod d 10 ltac:(lia)). lia.
  - unfold two_digits. repeat constructor; eexists; apply digit_val_byte; lia.
Qed.

Lemma digits_word w : w ≠ [] → Forall (λ c, is_Some (digit_val c)) w → word w.
Proof. intros Hne Hw. split; [done|]. eapply Forall_impl; [done|]. apply digit_graphic. Qed.

Lemma digits_notin (c : byte) w :
  digit_val c = None → Forall (λ c, is_Some (digit_val c)) w → c ∉ w.
Proof. intros Hc Hw Hin. rewrite Forall_forall in Hw. destruct (Hw c Hin). congruence. Qed.

Lemma parse_print_hms h mi s :
  0 ≤ h < 100 → 0 ≤ mi < 100 → 0 ≤ s < 100 →
  parse_hms (print_hms h mi s) = Some (h, mi, s) ∧ word (print_hms h mi s).
Proof.
  intros [Ph Dh]%two_digits_spec [Pm Dm]%two_digits_spec [Ps Ds]%two_digits_spec. split.
  - unfold parse_hms, print_hms. rewrite split_char_join_inv; [|done|].
    + by rewrite Ph, Pm, Ps.
    + repeat constructor; by apply digits_notin.
  - split; [by destruct (two_digits h) eqn:?|].
    apply Forall_join; [by repeat constructor|].
    rewrite !Forall_cons. split_and!; try done; (eapply Forall_impl; [done|apply digit_graphic]).
Qed.

Lemma month_spec mon mo :
  (mon, mo) ∈ month_cases → month_number mon = Some mo ∧ word mon ∧ (x2d ∉ mon) ∧ (x2c ∉ mon).
Proof.
  intros Hin. split.
  - apply match_str_Some; [|done]. apply (bool_decide_unpack _). vm_compute. done.
  - assert (Forall (λ p, word p.1 ∧ (x2d ∉ p.1) ∧ (x2c ∉ p.1)) month_cases) as HF.
    { repeat constructor; try discriminate; apply (bool_decide_unpack _); vm_compute; done. }
    rewrite Forall_forall in HF. apply (HF _ Hin).
Qed.

Lemma show_u64_word z : 0 ≤ z ≤ u64_max → word (show_u64 z).
Proof. intros. split; [apply show_fuel_nonempty|by apply show_u64_graphic]. Qed.

Section formats.
  Context (wd mon : bytes) (mo y d h mi s : Z).
  Context (Hwd : word wd) (Hcomma : x2c ∉ wd) (Hmon : (mon, mo) ∈ month_cases).
  Context (Hy : 1970 ≤ y ≤ 2069) (Hd : 0 ≤ d < 100).
  Context (Hh : 0 ≤ h < 100) (Hmi : 0 ≤ mi < 100) (Hs : 0 ≤ s < 100).

Let t := components_to_timestamp y mo d h mi s.

Lemma weekday_comma_word : word (wd ++ str ",").
Proof using Hwd.
  destruct Hwd as [Hne Hw]. split; [by intros [? _]%app_eq_nil|].
  apply Forall_app. split; [done|]. repeat constructor.
Qed.

Lemma year_spec : parse_u32 (show_u64 y) = Some y ∧ word (show_u64 y).
Proof using Hy.
  split; [apply parse_show_u32; unfold u32_max; lia|].
  apply show_u64_word. unfold u64_max. lia.
Qed.

Lemma day_spec : parse_u32 (show_u64 d) = Some d ∧ word (show_u64 d).
Proof using Hd.
  split; [apply parse_show_u32; unfold u32_max; lia|].
  apply show_u64_word. unfold u64_max. lia.
Qed.

Lemma parse_print_rfc1123 : parse_http_date (print_rfc1123 wd mon y d h mi s) = Some t.
Proof using Hwd Hmon Hy Hd Hh Hmi Hs.
  destruct (month_spec _ _ Hmon) as (Emon & Wmon & _), year_spec as [Ey Wy].
  destruct (parse_print_hms h mi s) as [Ehms Whms]; [done..|].
  destruct (two_digits_spec d) as [Ed Dd]; [done|].
  unfold parse_http_date, print_rfc1123.
  assert (Forall word [wd ++ str ","; two_digits d; mon; show_u64 y; print_hms h mi s; str "GMT"]).
  { rewrite !Forall_cons. split_and!; try done;
      [apply weekday_comma_word|by apply digits_word|split; [done|repeat constructor]]. }
  rewrite trim_words by done. unfold parse_rfc1123. rewrite split_whitespace_join by done.
  rewrite decide_True by done. rewrite Ed. simpl. rewrite Emon. simpl. rewrite Ey. simpl.
  by rewrite Ehms.
Qed.

Lemma split_weekday rest : split_once (str ", ") ((wd ++ str ",") ++ x20 :: rest) = Some (wd, rest).
Proof using Hcomma.
  rewrite <-app_assoc. exact (split_once_first x2c [x20] wd rest Hcomma).
Qed.

Lemma expand_year_pivot : expand_year (y mod 100) = y.
Proof using Hy.
  unfold expand_year. pose proof (Z.mod_pos_bound y 100 eq_refl).
  rewrite (proj2 (Z.ltb_lt _ _)) by lia.
  pose proof (Z.div_mod y 100 ltac:(lia)).
  assert (y / 100 = 19 ∨ y / 100 = 20) by lia.
  case_if; bool_to_prop; lia.
Qed.

Lemma parse_print_rfc850 : parse_http_date (print_rfc850 wd mon y d h mi s) = Some t.
Proof using All.
  destruct (month_spec _ _ Hmon) as (Emon & Wmon & Dmon & _).
  destruct (parse_print_hms h mi s) as [Ehms Whms]; [done..|].
  destruct (two_digits_spec d) as [Ed Dd]; [done|].
  destruct (two_digits_spec (y mod 100)) as [Ey Dy]; [by apply Z.mod_pos_bound|].
  unfold parse_http_date, print_rfc850.
  set (date := join [x2d] [two_digits d; mon; two_digits (y mod 100)]).
  assert (Forall word [date; print_hms h mi s; str "GMT"]).
  { rewrite !Forall_cons. split_and!; try done; [|split; [done|repeat constructor]].
    split; [done|]. apply Forall_join; [by repeat constructor|].
    rewrite !Forall_cons. split_and!; try done; [|apply Wmon|];
      (eapply Forall_impl; [done|apply digit_graphic]). }
  assert (Forall word [wd ++ str ","; date; print_hms h mi s; str "GMT"])
    by (apply Forall_cons; split; [apply weekday_comma_word|done]).
  rewrite trim_words by done. unfold parse_rfc1123. rewrite split_whitespace_join by done.
  pose proof (split_weekday (join [x20] [date; print_hms h mi s; str "GMT"])) as Hsplit.
  unfold parse_rfc850.
  change ((wd ++ str ",") ++ x20 :: join [x20] [date; print_hms h mi s; str "GMT"])
    with (join [x20] [wd ++ str ","; date; print_hms h mi s; str "GMT"]) in Hsplit.
  rewrite Hsplit. cbn [mbind option_bind]. rewrite split_whitespace_join by done.
  rewrite decide_True by done. subst date. rewrite split_char_join_inv; [|done|].
  2: { rewrite !Forall_cons. split_and!; try done; by apply digits_notin. }
  rewrite Ed. cbn [mbind option_bind]. rewrite Emon. cbn [mbind option_bind].
  rewrite Ey. cbn [mbind option_bind]. rewrite Ehms. cbn [mbind option_bind].
  by rewrite expand_year_pivot.
Qed.

Lemma parse_print_asctime : parse_http_date (print_asctime wd mon y d h mi s) = Some t.
Proof using All.
  destruct (month_spec _ _ Hmon) as (Emon & Wmon & _ & Cmon), year_spec as [Ey Wy], day_spec as [Ed Wd].
  destruct (parse_print_hms h mi s) as [Ehms Whms]; [done..|].
  unfold parse_http_date, print_asctime.
  assert (Forall word [wd; mon; show_u64 d; print_hms h mi s; show_u64 y])
    by (rewrite !Forall_cons; split_and!; done).
  rewrite trim_words by done. unfold parse_rfc1123. rewrite split_whitespace_join by done.
  unfold parse_rfc850. 
  change (str ", ") with [x2c; x20]. rewrite split_once_absent.
  2: { destruct (two_digits_spec h), (two_digits_spec mi), (two_digits_spec s); [done..|].
       apply not_elem_of_join; [set_solver|].
       rewrite !Forall_cons. split_and!; try done;
         [by apply show_u64_notin; [unfold u64_max; lia|]
          |apply not_elem_of_join; [set_solver|]; rewrite !Forall_cons;
           split_and!; try done; by apply digits_notin
          |by apply show_u64_notin; [unfold u64_max; lia|]].
       }
  simpl mbind. unfold parse_asctime. rewrite split_whitespace_join by done.
  rewrite Emon. simpl. rewrite Ed. simpl. rewrite Ey. simpl. by rewrite Ehms.
Qed.
End formats.

(** Round trip for HTTP dates: a date printed in RFC 1123, RFC 850 (years
    1970 to 2069) or asctime format, with any weekday word, is parsed by
    [parse_http_date] to the same timestamp, that of its components; in
    particular the three formats agree. *)
Theorem http_date_roundtrip wd mon mo y d h mi s :
  word wd → x2c ∉ wd → (mon, mo) ∈ month_cases →
  1970 ≤ y ≤ 2069 → 0 ≤ d < 100 → 0 ≤ h < 100 → 0 ≤ mi < 100 → 0 ≤ s < 100 →
  let t := Some (components_to_timestamp y mo d h mi s) in
  parse_http_date (print_rfc1123 wd mon y d h mi s) = t
  ∧ parse_http_date (print_rfc850 wd mon y d h mi s) = t
  ∧ parse_http_date (print_asctime wd mon y d h mi s) = t.
Proof.
  intros. split_and!;
    [by apply parse_print_rfc1123|by apply parse_print_rfc850|by apply parse_print_asctime].
Qed.

Lemma http_date_roundtrip_witness :
  let t := Some (components_to_timestamp 1994 11 6 8 49 37) in
  parse_http_date (print_rfc1123 (str "Sun") (str "Nov") 1994 6 8 49 37) = t
  ∧ parse_http_date (print_rfc850 (str "Sun") (str "Nov") 1994 6 8 49 37) = t
  ∧ parse_http_date (print_asctime (str "Sun") (str "Nov") 1994 6 8 49 37) = t.
Proof.
  apply http_date_roundtrip; try lia.
  - split; [discriminate|repeat constructor].
  - apply (bool_decide_unpack _). vm_compute. exact I.
  - apply (bool_decide_unpack _). vm_compute. exact I.
Defined.

Example print_rfc1123_ex :
  print_rfc1123 (str "Sun") (str "Nov") 1994 6 8 49 37 = str "Sun, 06 Nov 1994 08:49:37 GMT".
Proof. vm_compute. reflexivity. Qed.

(* ------------------------------------------------------------------ *)
(** ** Conditional requests *)

(** The listed entity tags of an If-None-Match header. *)
Definition etag_list (inm : bytes) : list bytes := trim <$> split_char x2c inm.

(** If-None-Match decides alone: when the request carries it, the answer is
    304 exactly when the object has an ETag and the header is [*] or lists an
    ETag equal to it up to the weakness prefix; If-Modified-Since is then never
    consulted. *)
Theorem conditional_if_none_match req etag lm inm :
  HttpMessage_get_header req (str "If-None-Match") = Some inm →
  evaluate_conditional req etag lm = true ↔
  ∃ e, etag = Some e ∧
       (trim inm = str "*" ∨ ∃ c, c ∈ etag_list inm ∧ strip_weak c = strip_weak e).
Proof.
  unfold evaluate_conditional. intros ->. destruct etag as [e|]; [|naive_solver].
  rewrite orb_true_iff, bool_decide_eq_true. unfold etag_matches. rewrite existsb_exists.
  unfold etag_list. split.
  - intros [H|(c & Hin & Hc)]; exists e; (split; [done|]); [by left|right].
    exists (trim c). rewrite bool_decide_eq_true in Hc. split; [|done].
    apply list_elem_of_fmap. exists c. by rewrite list_elem_of_In.
  - intros (e' & [= <-] & [H|(c & Hin & Hc)]); [by left|right].
    apply list_elem_of_fmap in Hin as (c' & -> & Hin). exists c'.
    rewrite bool_decide_eq_true, <-list_elem_of_In. done.
Qed.

Definition inm_request : HttpMessage :=
  HttpMessage_set_header HttpMessage_default (str "If-None-Match") [x22; x61; x22].

Lemma conditional_if_none_match_witness :
  evaluate_conditional inm_request (Some (str "W/" ++ [x22; x61; x22])) None = true.
Proof.
  apply (conditional_if_none_match inm_request _ None [x22; x61; x22]); [reflexivity|].
  exists (str "W/" ++ [x22; x61; x22]). split; [reflexivity|]. right.
  exists [x22; x61; x22]. split; [|reflexivity].
  apply (bool_decide_unpack _). vm_compute. exact I.
Defined.
