(* ===== verification/HashSlinger.v ===== *)
(** * The hash slinger interface

    Models [rv-hash/src/objhead.rs] and [rv-hash/src/traits.rs].  An
    [Arc<ObjHead>] is a handle: its address (what [Arc::ptr_eq] compares) and
    the immutable digest; the atomic reference count lives in a store indexed by
    address, shared by every holder of the handle.  The trait [HashSlinger] is a
    class; its contract, the laws every backend discharges, is that lookup and
    deref implement the operations of an abstract table from digests to object
    heads.  The last section proves what a client gets from the laws alone. *)

From S2P Require Import Prelude RustStr F64 Enums Types.
Local Open Scope Z_scope.

(* ------------------------------------------------------------------ *)
(** ** ObjHead *)

Record ObjHead : Set := mkObjHead { oh_addr : nat; oh_digest : Digest }.

#[global] Instance ObjHead_eq_dec : EqDecision ObjHead.
Proof. solve_decision. Defined.

(** [Arc::ptr_eq]. *)
Definition ptr_eq (a b : ObjHead) : bool := bool_decide (oh_addr a = oh_addr b).

(** The reference counts ([AtomicU32], starting at 0). *)
Abbreviation refcnts := (gmap nat Z).

Definition ref_count (oh : ObjHead) (c : refcnts) : Z := default 0 (c !! oh_addr oh).

(** [fetch_add]/[fetch_sub] wrap; the returned value is the new count. *)
Definition inc_ref (oh : ObjHead) (c : refcnts) : Z * refcnts :=
  let n := u32_wrap (ref_count oh c + 1) in (n, <[oh_addr oh := n]> c).

Definition dec_ref (oh : ObjHead) (c : refcnts) : Z * refcnts :=
  let n := u32_wrap (ref_count oh c - 1) in (n, <[oh_addr oh := n]> c).

(* ------------------------------------------------------------------ *)
(** ** The trait *)

Class HashSlinger (S : Type) := {
  hs_name : bytes;
  hs_new : S;
  (** [lookup(digest, new_oh)]: the head found or inserted, and [new_oh] back
      when it was not needed. *)
  hs_lookup : Digest → ObjHead → S * refcnts → (ObjHead * option ObjHead) * (S * refcnts);
  (** [deref(oh)]: whether the head was removed. *)
  hs_deref : ObjHead → S * refcnts → bool * (S * refcnts);
}.

(* ------------------------------------------------------------------ *)
(** ** The abstract table *)

Abbreviation table := (gmap Digest ObjHead).

Definition table_lookup (d : Digest) (new_oh : ObjHead) (st : table * refcnts)
    : (ObjHead * option ObjHead) * (table * refcnts) :=
  let '(t, c) := st in
  match t !! d with
  | Some oh => ((oh, Some new_oh), (t, snd (inc_ref oh c)))
  | None => ((new_oh, None), (<[d := new_oh]> t, snd (inc_ref new_oh c)))
  end.

Definition table_deref (oh : ObjHead) (st : table * refcnts) : bool * (table * refcnts) :=
  let '(t, c) := st in
  let '(n, c) := dec_ref oh c in
  if n =? 0 then (true, (delete (oh_digest oh) t, c)) else (false, (t, c)).

(** What callers of the trait guarantee: the spare head passed to [lookup] is for
    the digest looked up and is not another head of the table; [deref] is given
    a head of the table. *)
Definition lookup_pre (d : Digest) (new_oh : ObjHead) (t : table) : Prop :=
  oh_digest new_oh = d ∧ ∀ d' oh, t !! d' = Some oh → oh_addr oh ≠ oh_addr new_oh.

Definition deref_pre (oh : ObjHead) (t : table) : Prop := t !! oh_digest oh = Some oh.

(** Every head is filed under its own digest and addresses are not shared. *)
Definition table_wf (t : table) : Prop :=
  (∀ d oh, t !! d = Some oh → oh_digest oh = d) ∧
  (∀ d1 d2 oh1 oh2, t !! d1 = Some oh1 → t !! d2 = Some oh2 →
     oh_addr oh1 = oh_addr oh2 → oh1 = oh2).

Class HashSlingerLaws (S : Type) `{HashSlinger S} := {
  hs_repr : S → table → Prop;
  hs_new_repr : hs_repr hs_new ∅;
  hs_lookup_refines s c t d new_oh :
    hs_repr s t → table_wf t → lookup_pre d new_oh t →
    let '(r, (s', c')) := hs_lookup d new_oh (s, c) in
    ∃ t', table_lookup d new_oh (t, c) = (r, (t', c')) ∧ hs_repr s' t';
  hs_deref_refines s c t oh :
    hs_repr s t → table_wf t → deref_pre oh t →
    let '(b, (s', c')) := hs_deref oh (s, c) in
    ∃ t', table_deref oh (t, c) = (b, (t', c')) ∧ hs_repr s' t';
}.

Lemma table_wf_empty : table_wf ∅.
Proof. split; intros; simplify_map_eq. Qed.

Lemma table_lookup_wf t c d new_oh r t' c' :
  table_wf t → lookup_pre d new_oh t → table_lookup d new_oh (t, c) = (r, (t', c')) → table_wf t'.
Proof.
  intros [Hd Ha] [Hnew Hfresh]. unfold table_lookup.
  destruct (t !! d) as [oh|] eqn:E; intros; simplify_eq; [done|]. split.
  - intros d' oh [[? ?]|[? ?]]%lookup_insert_Some; subst; [done|by apply Hd].
  - intros d1 d2 oh1 oh2 [[? ?]|[? H1]]%lookup_insert_Some [[? ?]|[? H2]]%lookup_insert_Some ?;
      subst; [done|by destruct (Hfresh _ _ H2)|by destruct (Hfresh _ _ H1)|by eapply Ha].
Qed.

Lemma table_deref_wf t c oh b t' c' :
  table_wf t → table_deref oh (t, c) = (b, (t', c')) → table_wf t'.
Proof.
  intros [Hd Ha]. unfold table_deref. destruct (dec_ref oh c) as [n c1].
  case_if; intros; simplify_eq; [|done]. split.
  - intros d oh' [_ ?]%lookup_delete_Some. by apply Hd.
  - intros d1 d2 oh1 oh2 [_ ?]%lookup_delete_Some [_ ?]%lookup_delete_Some. by eapply Ha.
Qed.

(* ------------------------------------------------------------------ *)
(** ** Clients: traces of operations *)

Inductive slinger_op : Set :=
| OpLookup (d : Digest) (new_oh : ObjHead)
| OpDeref (oh : ObjHead).

Inductive slinger_out : Set :=
| OutHead (oh : ObjHead) (unused : option ObjHead)
| OutRemoved (b : bool).

Definition step_with {A} (lookup : Digest → ObjHead → A → (ObjHead * option ObjHead) * A)
    (deref : ObjHead → A → bool * A) (o : slinger_op) (a : A) : slinger_out * A :=
  match o with
  | OpLookup d new_oh => let '((oh, u), a') := lookup d new_oh a in (OutHead oh u, a')
  | OpDeref oh => let '(b, a') := deref oh a in (OutRemoved b, a')
  end.

Fixpoint run_with {A} (step : slinger_op → A → slinger_out * A) (ops : list slinger_op) (a : A)
    : list slinger_out * A :=
  match ops with
  | [] => ([], a)
  | o :: ops => let '(out, a1) := step o a in
                let '(outs, a2) := run_with step ops a1 in (out :: outs, a2)
  end.

Definition table_step : slinger_op → table * refcnts → slinger_out * (table * refcnts) :=
  step_with table_lookup table_deref.

Definition op_pre (o : slinger_op) (t : table) : Prop :=
  match o with
  | OpLookup d new_oh => lookup_pre d new_oh t
  | OpDeref oh => deref_pre oh t
  end.

(** The caller's obligations hold along the run of the abstract table. *)
Fixpoint trace_ok (ops : list slinger_op) (st : table * refcnts) : Prop :=
  match ops with
  | [] => True
  | o :: ops => op_pre o (fst st) ∧ trace_ok ops (snd (table_step o st))
  end.

Section client.
  Context {S : Type} `{HashSlingerLaws S}.

Definition slinger_step : slinger_op → S * refcnts → slinger_out * (S * refcnts) :=
    step_with hs_lookup hs_deref.

Lemma slinger_step_refines o s c t :
  hs_repr s t → table_wf t → op_pre o t →
  ∃ s' t' c' out, slinger_step o (s, c) = (out, (s', c')) ∧
    table_step o (t, c) = (out, (t', c')) ∧ hs_repr s' t' ∧ table_wf t'.
Proof.
  intros Hr Hwf Hpre. destruct o as [d new_oh|oh]; simpl in Hpre;
    unfold slinger_step, table_step, step_with.
  - pose proof (hs_lookup_refines s c t d new_oh Hr Hwf Hpre) as Hl.
    destruct (hs_lookup d new_oh (s, c)) as [[oh u] [s' c']].
    destruct Hl as (t' & Ht & Hr'). exists s', t', c', (OutHead oh u). rewrite Ht.
    split_and!; try done. by eapply table_lookup_wf.
  - pose proof (hs_deref_refines s c t oh Hr Hwf Hpre) as Hl.
    destruct (hs_deref oh (s, c)) as [b [s' c']].
    destruct Hl as (t' & Ht & Hr'). exists s', t', c', (OutRemoved b). rewrite Ht.
    split_and!; try done. by eapply table_deref_wf.
Qed.

(** Every well-behaved trace gives on the backend the outputs and the reference
    counts it gives on the abstract table. *)
Lemma slinger_run_refines ops : ∀ s c t,
  hs_repr s t → table_wf t → trace_ok ops (t, c) →
  ∃ s' t' c' outs, run_with slinger_step ops (s, c) = (outs, (s', c')) ∧
    run_with table_step ops (t, c) = (outs, (t', c')) ∧ hs_repr s' t' ∧ table_wf t'.
Proof.
  induction ops as [|o ops IH]; intros s c t Hr Hwf Hok.
  - exists s, t, c, []. done.
  - destruct Hok as [Hpre Hok]. simpl in Hpre.
    destruct (slinger_step_refines o s c t Hr Hwf Hpre) as (s1 & t1 & c1 & out & E1 & E2 & Hr1 & Hwf1).
    rewrite E2 in Hok. simpl in Hok.
    destruct (IH s1 c1 t1 Hr1 Hwf1 Hok) as (s' & t' & c' & outs & E3 & E4 & Hr' & Hwf').
    exists s', t', c', (out :: outs). simpl. rewrite E1, E2, E3, E4. done.
Qed.
End client.
