(* ===== verification/ListHash.v ===== *)
(** * The list-based hash slingers

    Models [rv-hash/src/simple.rs] (one list under one lock) and
    [rv-hash/src/classic.rs] (a fixed number of buckets).  Both keep heads in
    [Vec]s searched linearly and emptied with [swap_remove]; the first section
    proves the bucket operations once, against the part of the abstract table
    that a bucket is responsible for. *)

From S2P Require Import Prelude RustStr F64 Enums Types HashSlinger.
Local Open Scope Z_scope.

(* ------------------------------------------------------------------ *)
(** ** Buckets *)

(** The search loop: the first entry with the digest. *)
Definition bucket_find (d : Digest) (l : list ObjHead) : option ObjHead :=
  List.find (λ e, bool_decide (oh_digest e = d)) l.

(** [iter().position(|e| Arc::ptr_eq(e, oh))]. *)
Fixpoint position (oh : ObjHead) (l : list ObjHead) : option nat :=
  match l with
  | [] => None
  | e :: l' => if ptr_eq e oh then Some O else S <$> position oh l'
  end.

(** [Vec::swap_remove] at an index in range: the last element takes the place of
    the removed one. *)
Definition swap_remove {A} (i : nat) (l : list A) : list A :=
  match last l with
  | Some x => take (length l - 1) (<[i := x]> l)
  | None => l
  end.

Definition bucket_remove (oh : ObjHead) (l : list ObjHead) : list ObjHead :=
  match position oh l with
  | Some pos => swap_remove pos l
  | None => l
  end.

Lemma swap_remove_perm {A} i (l : list A) x :
  l !! i = Some x → x :: swap_remove i l ≡ₚ l.
Proof.
  intros Hi. unfold swap_remove. destruct (last l) as [z|] eqn:Hz.
  2: { apply last_None in Hz. by subst. }
  apply last_Some in Hz as [l' ->]. rewrite length_app. simpl.
  replace (length l' + 1 - 1)%nat with (length l') by lia.
  apply lookup_app_Some in Hi as [Hi|[Hlen Hi]].
  - assert (i < length l')%nat by (by eapply lookup_lt_Some).
    rewrite insert_app_l by done. rewrite take_app_length'; [|by rewrite length_insert].
    rewrite (Permutation_app_comm l' [z]). simpl.
    rewrite insert_take_drop by done. rewrite <-(take_drop_middle l' i x) at 3 by done.
    rewrite <-!Permutation_middle. apply perm_swap.
  - apply list_lookup_singleton_Some in Hi as [? ->].
    assert (i = length l') as -> by lia. rewrite insert_app_r_alt by lia.
    rewrite Nat.sub_diag. simpl. rewrite take_app_length. by rewrite Permutation_cons_append.
Qed.

Lemma position_Some oh l i : position oh l = Some i → ∃ e, l !! i = Some e ∧ oh_addr e = oh_addr oh.
Proof.
  revert i. induction l as [|e l IH]; intros i; simpl; [done|]. unfold ptr_eq.
  case_bool_decide as E; [intros [= <-]; by exists e|].
  rewrite fmap_Some. intros (j & Hj & ->). by apply IH.
Qed.

Lemma position_None oh l : position oh l = None → oh ∉ l.
Proof.
  induction l as [|e l IH]; simpl; [by intros _ ?%not_elem_of_nil|]. unfold ptr_eq.
  case_bool_decide as E; [done|]. rewrite fmap_None, elem_of_cons. naive_solver.
Qed.

(** Removing a member whose address nobody else has. *)
Lemma bucket_remove_perm oh l :
  oh ∈ l → (∀ e, e ∈ l → oh_addr e = oh_addr oh → e = oh) → oh :: bucket_remove oh l ≡ₚ l.
Proof.
  intros Hin Huniq. unfold bucket_remove. destruct (position oh l) as [i|] eqn:E.
  - apply position_Some in E as (e & Hi & He).
    rewrite (Huniq e) in Hi by (done || by eapply list_elem_of_lookup_2).
    by apply swap_remove_perm.
  - by apply position_None in E.
Qed.

Section bucket.
  (** The digests the bucket is responsible for. *)
  Context (P : Digest → Prop).

Definition bucket_repr (l : list ObjHead) (t : table) : Prop :=
    NoDup l ∧ ∀ oh, oh ∈ l ↔ t !! oh_digest oh = Some oh ∧ P (oh_digest oh).

Lemma bucket_find_table l t d :
  table_wf t → bucket_repr l t → P d → bucket_find d l = t !! d.
Proof.
  intros [Hwf _] [_ Hl] HP. unfold bucket_find.
  destruct (List.find _ l) as [oh|] eqn:E.
  - apply find_some in E as [Hin Hd]. apply bool_decide_eq_true in Hd. subst d.
    apply list_elem_of_In, Hl in Hin. naive_solver.
  - destruct (t !! d) as [oh|] eqn:Ht; [|done].
    pose proof (Hwf _ _ Ht). subst d.
    assert (Hin : In oh l) by (by apply list_elem_of_In, Hl).
    pose proof (find_none _ _ E oh Hin) as Hf. by apply bool_decide_eq_false in Hf.
Qed.

Lemma bucket_push l t new_oh :
  bucket_repr l t → t !! oh_digest new_oh = None → P (oh_digest new_oh) →
  bucket_repr (l ++ [new_oh]) (<[oh_digest new_oh := new_oh]> t).
Proof.
  intros [Hnd Hl] Hnone HP. split.
  - apply NoDup_app. split_and!; [done| |apply NoDup_singleton].
    intros oh Hin ->%list_elem_of_singleton. apply Hl in Hin. naive_solver.
  - intros oh. rewrite elem_of_app, list_elem_of_singleton, Hl, lookup_insert_Some.
    split; [|naive_solver].
    intros [[? ?]| ->]; [|naive_solver]. split; [|done]. right. split; [|done]. congruence.
Qed.

Lemma bucket_insert_other l t new_oh :
  bucket_repr l t → ¬ P (oh_digest new_oh) → bucket_repr l (<[oh_digest new_oh := new_oh]> t).
Proof.
  intros [Hnd Hl] HP. split; [done|]. intros oh. rewrite Hl, lookup_insert_Some.
  split; [|naive_solver]. intros [? ?]. split; [|done]. right. split; [|done]. congruence.
Qed.

Lemma bucket_remove_repr l t oh :
  table_wf t → bucket_repr l t → t !! oh_digest oh = Some oh → P (oh_digest oh) →
  bucket_repr (bucket_remove oh l) (delete (oh_digest oh) t).
Proof.
  intros [Hd Ha] [Hnd Hl] Ht HP.
  assert (oh :: bucket_remove oh l ≡ₚ l) as Hperm.
  { apply bucket_remove_perm; [by apply Hl|]. intros e [He _]%Hl ?. by eapply Ha. }
  assert (NoDup (oh :: bucket_remove oh l)) as [Hnot Hnd']%NoDup_cons by by rewrite Hperm.
  split; [done|]. intros e. rewrite lookup_delete_Some. split.
  - intros He. assert (e ∈ l) as [He1 He2]%Hl by (rewrite <-Hperm; set_solver).
    split; [|done]. split; [|done]. intros E. rewrite <-E in He1. congruence.
  - intros [[Hne He1] He2]. assert (e ∈ l) as He by by apply Hl.
    rewrite <-Hperm in He. apply elem_of_cons in He as [->|?]; [done|done].
Qed.

Lemma bucket_delete_other l t d :
  bucket_repr l t → ¬ P d → bucket_repr l (delete d t).
Proof.
  intros [Hnd Hl] HP. split; [done|]. intros oh. rewrite Hl, lookup_delete_Some.
  split; [|naive_solver]. intros [? ?]. split; [|done]. split; [|done]. congruence.
Qed.
End bucket.

(* ------------------------------------------------------------------ *)
(** ** SimpleListHash *)

Module SimpleListHash.

Definition entries : Type := list ObjHead.

Definition new : entries := [].

(** The fast path under the read lock, then the re-check and the insertion under
    the write lock. *)
Definition lookup (d : Digest) (new_oh : ObjHead) (st : entries * refcnts)
    : (ObjHead * option ObjHead) * (entries * refcnts) :=
  let '(es, c) := st in
  match bucket_find d es with
  | Some entry => ((entry, Some new_oh), (es, snd (inc_ref entry c)))
  | None =>
      match bucket_find d es with
      | Some entry => ((entry, Some new_oh), (es, snd (inc_ref entry c)))
      | None => ((new_oh, None), (es ++ [new_oh], snd (inc_ref new_oh c)))
      end
  end.

Definition deref (oh : ObjHead) (st : entries * refcnts) : bool * (entries * refcnts) :=
  let '(es, c) := st in
  let '(new_count, c) := dec_ref oh c in
  if new_count =? 0 then (true, (bucket_remove oh es, c)) else (false, (es, c)).

End SimpleListHash.

#[global] Instance SimpleListHash_slinger : HashSlinger SimpleListHash.entries := {|
  hs_name := str "simple_list";
  hs_new := SimpleListHash.new;
  hs_lookup := SimpleListHash.lookup;
  hs_deref := SimpleListHash.deref;
|}.

#[global] Instance SimpleListHash_laws : HashSlingerLaws SimpleListHash.entries.
Proof.
  refine {| hs_repr := bucket_repr (λ _, True) |}.
  - split; [apply NoDup_nil_2|]. intros oh. rewrite lookup_empty. set_solver.
  - intros s c t d new_oh Hr Hwf [<- Hfresh]. cbn [hs_lookup SimpleListHash_slinger].
    unfold SimpleListHash.lookup.
    rewrite !(bucket_find_table (λ _, True) s t) by done.
    destruct (t !! oh_digest new_oh) as [oh|] eqn:E.
    + exists t. unfold table_lookup. by rewrite E.
    + eexists. unfold table_lookup. rewrite E. split; [done|]. by apply bucket_push.
  - intros s c t oh Hr Hwf Hpre. cbn [hs_deref SimpleListHash_slinger].
    unfold SimpleListHash.deref.
    destruct (dec_ref oh c) as [n c'] eqn:E. destruct (n =? 0) eqn:En.
    + eexists. unfold table_deref. rewrite E, En. split; [done|].
      by apply bucket_remove_repr.
    + exists t. unfold table_deref. by rewrite E, En.
Defined.

(* ------------------------------------------------------------------ *)
(** ** ClassicHash *)

Module ClassicHash.

Definition DEFAULT_BUCKETS : Z := 16381.

Record t : Set := mk { buckets : list (list ObjHead); n_buckets : Z }.

(** [assert!(n_buckets > 0)] panics otherwise. *)
Definition with_buckets (n : Z) : option t :=
  if n <=? 0 then None else Some (mk (replicate (Z.to_nat n) []) n).

Definition new : t := mk (replicate (Z.to_nat DEFAULT_BUCKETS) []) DEFAULT_BUCKETS.

Definition bucket_index (self : t) (d : Digest) : nat :=
  Z.to_nat (from_le_bytes (take 8 (bytes_of d)) mod n_buckets self).

Definition with_bucket (self : t) (idx : nat) (b : list ObjHead) : t :=
  mk (<[idx := b]> (buckets self)) (n_buckets self).

(** [self.buckets[idx]]; the index is always in range ([bucket_index_lt]). *)
Definition bucket (self : t) (idx : nat) : list ObjHead := default [] (buckets self !! idx).

Definition lookup (d : Digest) (new_oh : ObjHead) (st : t * refcnts)
    : (ObjHead * option ObjHead) * (t * refcnts) :=
  let '(self, c) := st in
  let idx := bucket_index self d in
  match bucket_find d (bucket self idx) with
  | Some entry => ((entry, Some new_oh), (self, snd (inc_ref entry c)))
  | None => ((new_oh, None),
             (with_bucket self idx (bucket self idx ++ [new_oh]), snd (inc_ref new_oh c)))
  end.

Definition deref (oh : ObjHead) (st : t * refcnts) : bool * (t * refcnts) :=
  let '(self, c) := st in
  let '(new_count, c) := dec_ref oh c in
  if new_count =? 0 then
    let idx := bucket_index self (oh_digest oh) in
    (true, (with_bucket self idx (bucket_remove oh (bucket self idx)), c))
  else (false, (self, c)).

Definition wf (self : t) : Prop :=
  0 < n_buckets self ∧ length (buckets self) = Z.to_nat (n_buckets self).

Lemma bucket_index_lt self d : wf self → (bucket_index self d < length (buckets self))%nat.
Proof.
  intros [Hn Hl]. rewrite Hl. unfold bucket_index.
  pose proof (Z.mod_pos_bound (from_le_bytes (take 8 (bytes_of d))) (n_buckets self) Hn). lia.
Qed.

(** Bucket [i] represents the digests that hash to [i]. *)
Definition repr (self : t) (tb : table) : Prop :=
  wf self ∧ ∀ i, (i < length (buckets self))%nat →
    bucket_repr (λ d, bucket_index self d = i) (bucket self i) tb.

Lemma bucket_with_bucket self idx b i :
  (idx < length (buckets self))%nat →
  bucket (with_bucket self idx b) i = if decide (i = idx) then b else bucket self i.
Proof.
  intros Hi. unfold bucket, with_bucket. simpl. case_decide; subst.
  - by rewrite list_lookup_insert_eq.
  - by rewrite list_lookup_insert_ne.
Qed.

(** Updating the bucket of [d] and nothing else. *)
Lemma repr_update self tb tb' d b :
  repr self tb →
  bucket_repr (λ d', bucket_index self d' = bucket_index self d) b tb' →
  (∀ i, i ≠ bucket_index self d → (i < length (buckets self))%nat →
     bucket_repr (λ d', bucket_index self d' = i) (bucket self i) tb') →
  repr (with_bucket self (bucket_index self d) b) tb'.
Proof.
  intros [Hwf Hb] Hnew Hother. pose proof (bucket_index_lt self d Hwf) as Hidx. split.
  - split; [apply Hwf|]. simpl. rewrite length_insert. apply Hwf.
  - intros i Hi. simpl in Hi. rewrite length_insert in Hi.
    rewrite bucket_with_bucket by done.
    change (bucket_index (with_bucket self ?a ?b)) with (bucket_index self).
    case_decide; subst; [done|by apply Hother].
Qed.

Lemma repr_empty n : 0 < n → repr (mk (replicate (Z.to_nat n) []) n) ∅.
Proof.
  intros Hn. split; [split; [done|apply length_replicate]|].
  intros i Hi. cbn [buckets] in Hi. unfold bucket. cbn [buckets].
  rewrite length_replicate in Hi. rewrite lookup_replicate_2 by done. simpl.
  split; [apply NoDup_nil_2|]. intros oh. rewrite lookup_empty. set_solver.
Qed.

End ClassicHash.

#[global] Instance ClassicHash_slinger : HashSlinger ClassicHash.t := {|
  hs_name := str "classic";
  hs_new := ClassicHash.new;
  hs_lookup := ClassicHash.lookup;
  hs_deref := ClassicHash.deref;
|}.

#[global] Instance ClassicHash_laws : HashSlingerLaws ClassicHash.t.
Proof.
  refine {| hs_repr := ClassicHash.repr |}.
  - by apply ClassicHash.repr_empty.
  - intros s c t d new_oh Hr Hwf [<- Hfresh]. cbn [hs_lookup ClassicHash_slinger].
    unfold ClassicHash.lookup. pose proof Hr as [Hs Hb].
    pose proof (ClassicHash.bucket_index_lt s (oh_digest new_oh) Hs) as Hi.
    rewrite (bucket_find_table _ _ t (oh_digest new_oh) Hwf (Hb _ Hi)) by done.
    destruct (t !! oh_digest new_oh) as [oh|] eqn:E.
    + exists t. unfold table_lookup. by rewrite E.
    + eexists. unfold table_lookup. rewrite E. split; [done|].
      apply (ClassicHash.repr_update s t); [done| |].
      * apply bucket_push; [by apply Hb|done|done].
      * intros i Hne Hlt. apply bucket_insert_other; [by apply Hb|]. congruence.
  - intros s c t oh Hr Hwf Hpre. cbn [hs_deref ClassicHash_slinger].
    unfold ClassicHash.deref. pose proof Hr as [Hs Hb].
    pose proof (ClassicHash.bucket_index_lt s (oh_digest oh) Hs) as Hi.
    destruct (dec_ref oh c) as [n c'] eqn:E. destruct (n =? 0) eqn:En.
    + eexists. unfold table_deref. rewrite E, En. split; [done|].
      apply (ClassicHash.repr_update s t); [done| |].
      * apply bucket_remove_repr; [done|by apply Hb|done|done].
      * intros i Hne Hlt. apply bucket_delete_other; [by apply Hb|]. congruence.
    + exists t. unfold table_deref. by rewrite E, En.
Defined.
