(* ===== verification/Critbit.v ===== *)
(** * The crit-bit tree slinger

    Models [rv-hash/src/critbit.rs]: the crit-bit tree over digest bits, with
    [get_bit], [find_critical_bit], [walk_to_leaf], [insert_node], [remove_node]
    and the [HashSlinger] implementation built on them.  The tree invariant says
    that bit positions grow along every path, that all the leaves below a node
    agree on the bits before its position, and that the children are told apart
    by that bit; under it a tree represents an abstract table. *)

From S2P Require Import Prelude RustStr F64 Enums Types HashSlinger.
Local Open Scope Z_scope.

Inductive CritbitNode : Set :=
| Internal (bit_pos : nat) (lft rgt : CritbitNode)
| Leaf (oh : ObjHead).

(** [digest.bytes[i]]; out of range only for positions beyond 255, which the
    invariant excludes. *)
Definition byte_at (d : Digest) (i : nat) : Z := u8_val (default x00 (bytes_of d !! i)).

Definition get_bit (d : Digest) (bit_pos : nat) : Z :=
  let byte_idx := (bit_pos / 8)%nat in
  let bit_idx := (7 - bit_pos mod 8)%nat in
  Z.land (Z.shiftr (byte_at d byte_idx) (Z.of_nat bit_idx)) 1.

(** [u8::leading_zeros]. *)
Definition leading_zeros (z : Z) : nat :=
  if z =? 0 then 8%nat else (7 - Z.to_nat (Z.log2 z))%nat.

(** The loop [for i in i0..DIGEST_LEN]; [n] iterations are lft. *)
Fixpoint find_critical_loop (a b : Digest) (i n : nat) : option nat :=
  match n with
  | O => None
  | S n' =>
      let diff := Z.lxor (byte_at a i) (byte_at b i) in
      if negb (diff =? 0) then
        let bit_in_byte := (7 - leading_zeros diff)%nat in
        Some (i * 8 + (7 - bit_in_byte))%nat
      else find_critical_loop a b (S i) n'
  end.

Definition find_critical_bit (a b : Digest) : option nat := find_critical_loop a b 0 DIGEST_LEN.

Fixpoint walk_to_leaf (node : CritbitNode) (d : Digest) : ObjHead :=
  match node with
  | Leaf oh => oh
  | Internal bit_pos lft rgt =>
      if get_bit d bit_pos =? 0 then walk_to_leaf lft d else walk_to_leaf rgt d
  end.

Fixpoint insert_node (node new_leaf : CritbitNode) (crit_bit : nat) (new_digest : Digest)
    : CritbitNode :=
  match node with
  | Internal bit_pos lft rgt =>
      if (crit_bit <? bit_pos)%nat then
        if get_bit new_digest crit_bit =? 0 then Internal crit_bit new_leaf node
        else Internal crit_bit node new_leaf
      else
        if get_bit new_digest bit_pos =? 0 then
          Internal bit_pos (insert_node lft new_leaf crit_bit new_digest) rgt
        else Internal bit_pos lft (insert_node rgt new_leaf crit_bit new_digest)
  | Leaf _ =>
      if get_bit new_digest crit_bit =? 0 then Internal crit_bit new_leaf node
      else Internal crit_bit node new_leaf
  end.

(** [unwrap] on the child of a removal that found nothing: it is always there
    ([remove_node_none]); the model keeps the old child in that impossible case. *)
Fixpoint remove_node (node : CritbitNode) (d : Digest) : option CritbitNode * option ObjHead :=
  match node with
  | Leaf oh => if decide (oh_digest oh = d) then (None, Some oh) else (Some node, None)
  | Internal bit_pos lft rgt =>
      if get_bit d bit_pos =? 0 then
        match remove_node lft d with
        | (Some l, Some removed) => (Some (Internal bit_pos l rgt), Some removed)
        | (None, Some removed) => (Some rgt, Some removed)
        | (new_left, None) => (Some (Internal bit_pos (default lft new_left) rgt), None)
        end
      else
        match remove_node rgt d with
        | (Some r, Some removed) => (Some (Internal bit_pos lft r), Some removed)
        | (None, Some removed) => (Some lft, Some removed)
        | (new_right, None) => (Some (Internal bit_pos lft (default rgt new_right)), None)
        end
  end.

Module CritbitHash.

Definition root : Type := option CritbitNode.

Definition new : root := None.

(** The search shared by the read-locked fast path and the re-check. *)
Definition search (r : root) (d : Digest) : option ObjHead :=
  match r with
  | Some tree =>
      let leaf := walk_to_leaf tree d in
      if decide (oh_digest leaf = d) then Some leaf else None
  | None => None
  end.

(** [expect] on the critical bit cannot fail after the re-check
    ([find_critical_bit_None]); the model leaves the tree alone there. *)
Definition lookup (d : Digest) (new_oh : ObjHead) (st : root * refcnts)
    : (ObjHead * option ObjHead) * (root * refcnts) :=
  let '(r, c) := st in
  match search r d with
  | Some leaf => ((leaf, Some new_oh), (r, snd (inc_ref leaf c)))
  | None =>
      match r with
      | None => ((new_oh, None), (Some (Leaf new_oh), snd (inc_ref new_oh c)))
      | Some tree =>
          let leaf := walk_to_leaf tree d in
          if decide (oh_digest leaf = d) then
            ((leaf, Some new_oh), (r, snd (inc_ref leaf c)))
          else
            match find_critical_bit d (oh_digest leaf) with
            | Some crit_bit =>
                ((new_oh, None),
                 (Some (insert_node tree (Leaf new_oh) crit_bit d), snd (inc_ref new_oh c)))
            | None => ((new_oh, None), (r, snd (inc_ref new_oh c)))
            end
      end
  end.

Definition deref (oh : ObjHead) (st : root * refcnts) : bool * (root * refcnts) :=
  let '(r, c) := st in
  let '(new_count, c) := dec_ref oh c in
  if new_count =? 0 then
    match r with
    | Some tree => (true, (fst (remove_node tree (oh_digest oh)), c))
    | None => (true, (None, c))
    end
  else (false, (r, c)).

End CritbitHash.

#[global] Instance CritbitHash_slinger : HashSlinger CritbitHash.root := {|
  hs_name := str "critbit";
  hs_new := CritbitHash.new;
  hs_lookup := CritbitHash.lookup;
  hs_deref := CritbitHash.deref;
|}.

(* ------------------------------------------------------------------ *)
(** ** Bits *)

Definition digest_bit (d : Digest) (i : nat) : bool :=
  Z.testbit (byte_at d (i / 8)) (7 - Z.of_nat (i mod 8)).

Lemma byte_at_range d i : 0 ≤ byte_at d i < 256.
Proof. apply u8_val_range. Qed.

Lemma byte_high_bits d i n : 8 ≤ n → Z.testbit (byte_at d i) n = false.
Proof.
  intros Hn. pose proof (byte_at_range d i).
  apply (Z.bounded_iff_bits_nonneg 8 (byte_at d i)); lia.
Qed.

Lemma get_bit_bool d i : get_bit d i = Z.b2z (digest_bit d i).
Proof.
  unfold get_bit, digest_bit.
  assert (i mod 8 < 8)%nat by (apply Nat.mod_upper_bound; lia).
  replace (7 - Z.of_nat (i mod 8)) with (Z.of_nat (7 - i mod 8)) by lia.
  change 1 with (Z.ones 1). rewrite Z.land_ones by lia.
  change (2 ^ 1) with 2. by rewrite <-Z.bit0_mod, Z.shiftr_spec, Z.add_0_l by lia.
Qed.

Lemma get_bit_zero d i : (get_bit d i =? 0) = negb (digest_bit d i).
Proof. rewrite get_bit_bool. by destruct (digest_bit d i). Qed.

#[global] Arguments get_bit : simpl never.

Definition agree (n : nat) (a b : Digest) : Prop := ∀ i, (i < n)%nat → digest_bit a i = digest_bit b i.

Lemma div_mod_8 i j : (j < 8)%nat → ((i * 8 + j) / 8 = i)%nat ∧ ((i * 8 + j) mod 8 = j)%nat.
Proof.
  intros Hj. split.
  - rewrite Nat.div_add_l, Nat.div_small by lia. lia.
  - rewrite Nat.add_comm, Nat.Div0.mod_add. by apply Nat.mod_small.
Qed.

Lemma digest_bit_byte d i j :
  (j < 8)%nat → digest_bit d (i * 8 + j) = Z.testbit (byte_at d i) (7 - Z.of_nat j).
Proof. intros [H1 H2]%(div_mod_8 i). unfold digest_bit. by rewrite H1, H2. Qed.

(** Two bytes with no differing bit are equal. *)
Lemma byte_at_bits a b i :
  (∀ j, (j < 8)%nat → digest_bit a (i * 8 + j) = digest_bit b (i * 8 + j)) → byte_at a i = byte_at b i.
Proof.
  intros H. apply Z.bits_inj'. intros n Hn.
  assert (n < 8 ∨ 8 ≤ n) as [Hlt|Hge] by lia.
  - specialize (H (Z.to_nat (7 - n)) ltac:(lia)). rewrite !digest_bit_byte in H by lia.
    replace (7 - Z.of_nat (Z.to_nat (7 - n))) with n in H by lia. done.
  - by rewrite !byte_high_bits.
Qed.

(** The two cases of the search from byte [i] on: the first differing bit, or
    equal bytes. *)
Lemma find_critical_loop_spec a b n i :
  match find_critical_loop a b i n with
  | Some c => (i * 8 ≤ c < (i + n) * 8)%nat ∧ digest_bit a c ≠ digest_bit b c
              ∧ ∀ j, (i * 8 ≤ j < c)%nat → digest_bit a j = digest_bit b j
  | None => ∀ k, (i ≤ k < i + n)%nat → byte_at a k = byte_at b k
  end.
Proof.
  revert i. induction n as [|n IH]; intros i; cbn [find_critical_loop]; [lia|].
  destruct (Z.eqb_spec (Z.lxor (byte_at a i) (byte_at b i)) 0) as [E|E]; simpl.
  - apply Z.lxor_eq in E. specialize (IH (S i)).
    destruct (find_critical_loop a b (S i) n) as [c|].
    + destruct IH as (Hc & Hd & Hj). split_and!; [lia..|done|].
      intros j Hlt. destruct (decide (S i * 8 ≤ j)%nat); [apply Hj; lia|].
      replace j with (i * 8 + (j - i * 8))%nat by lia.
      rewrite !digest_bit_byte by lia. by rewrite E.
    + intros k Hk. destruct (decide (k = i)) as [->|]; [done|apply IH; lia].
  - set (x := Z.lxor (byte_at a i) (byte_at b i)) in *.
    pose proof (byte_at_range a i). pose proof (byte_at_range b i).
    assert (0 < x < 2 ^ 8) as Hx.
    { assert (0 ≤ x) by (apply Z.lxor_nonneg; lia). split; [lia|].
      apply Z.bounded_iff_bits_nonneg; [lia..|]. intros l Hl. subst x. rewrite Z.lxor_spec.
      by rewrite !byte_high_bits. }
    pose proof (Z.log2_nonneg x). assert (Z.log2 x < 8) by (apply Z.log2_lt_pow2; lia).
    assert (7 - (7 - leading_zeros x) = 7 - Z.to_nat (Z.log2 x))%nat as ->.
    { unfold leading_zeros. rewrite (proj2 (Z.eqb_neq _ _)) by lia. lia. }
    split_and!; [lia..| |].
    + rewrite !digest_bit_byte by lia.
      replace (7 - Z.of_nat (7 - Z.to_nat (Z.log2 x))) with (Z.log2 x) by lia.
      pose proof (Z.bit_log2 x ltac:(lia)) as Hb. unfold x in Hb at 1. rewrite Z.lxor_spec in Hb.
      intros Heq. rewrite Heq, xorb_nilpotent in Hb. done.
    + intros j Hj. replace j with (i * 8 + (j - i * 8))%nat by lia.
      rewrite !digest_bit_byte by lia.
      set (m := 7 - Z.of_nat (j - i * 8)).
      assert (Z.testbit x m = false) as Hb by (apply Z.bits_above_log2; lia).
      unfold x in Hb. rewrite Z.lxor_spec in Hb. by apply xorb_eq.
Qed.

Lemma byte_at_inj a b : (∀ k, (k < 32)%nat → byte_at a k = byte_at b k) → a = b.
Proof.
  intros H. apply (inj bytes_of). apply list_eq. intros k.
  destruct (decide (k < 32)%nat) as [Hk|Hk].
  - specialize (H k Hk). unfold byte_at in H. apply (inj u8_val) in H.
    destruct (lookup_lt_is_Some_2 (bytes_of a) k) as [x Hx]; [by rewrite length_bytes_of|].
    destruct (lookup_lt_is_Some_2 (bytes_of b) k) as [y Hy]; [by rewrite length_bytes_of|].
    rewrite Hx, Hy in *. simpl in H. by subst.
  - rewrite !lookup_ge_None_2; [done|rewrite length_bytes_of; lia..].
Qed.

(** [find_critical_bit] finds the first bit where two digests differ. *)
Lemma find_critical_bit_Some a b c :
  find_critical_bit a b = Some c →
  (c < 256)%nat ∧ digest_bit a c ≠ digest_bit b c ∧ agree c a b.
Proof.
  unfold find_critical_bit. intros E.
  pose proof (find_critical_loop_spec a b DIGEST_LEN 0) as H. rewrite E in H.
  destruct H as (Hc & Hd & Hj). split_and!; [unfold DIGEST_LEN in *; lia|done|].
  intros i Hi. apply Hj. lia.
Qed.

Lemma find_critical_bit_None a b : find_critical_bit a b = None ↔ a = b.
Proof.
  unfold find_critical_bit. pose proof (find_critical_loop_spec a b DIGEST_LEN 0) as H.
  destruct (find_critical_loop a b 0 DIGEST_LEN) as [c|].
  - destruct H as (_ & Hd & _). split; [done|]. by intros ->.
  - split; [intros _|done]. apply byte_at_inj. intros k Hk. apply H. unfold DIGEST_LEN. lia.
Qed.

Lemma agree_all a b : agree 256 a b → a = b.
Proof.
  intros H. apply find_critical_bit_None. destruct (find_critical_bit a b) as [c|] eqn:E; [|done].
  apply find_critical_bit_Some in E as (Hc & Hd & _). by destruct Hd; apply H.
Qed.

(* ------------------------------------------------------------------ *)
(** ** The tree invariant *)

Fixpoint leaves (node : CritbitNode) : list ObjHead :=
  match node with
  | Leaf oh => [oh]
  | Internal _ l r => leaves l ++ leaves r
  end.

(** All leaves have the value [v] at bit [b]. *)
Definition side (b : nat) (v : bool) (node : CritbitNode) : Prop :=
  ∀ oh, oh ∈ leaves node → digest_bit (oh_digest oh) b = v.

(** All leaves agree on the bits before [b]. *)
Definition common (b : nat) (node : CritbitNode) : Prop :=
  ∀ x y, x ∈ leaves node → y ∈ leaves node → agree b (oh_digest x) (oh_digest y).

Fixpoint tree_wf (lo : nat) (node : CritbitNode) : Prop :=
  match node with
  | Leaf _ => True
  | Internal b l r =>
      (lo ≤ b < 256)%nat ∧ common b node ∧ side b false l ∧ side b true r
      ∧ tree_wf (S b) l ∧ tree_wf (S b) r
  end.

Lemma tree_wf_weaken lo lo' node : (lo' ≤ lo)%nat → tree_wf lo node → tree_wf lo' node.
Proof. destruct node; simpl; [|done]. intros ? (? & ?). split; [lia|done]. Qed.

Lemma agree_sym n a b : agree n a b → agree n b a.
Proof. intros H i Hi. symmetry. by apply H. Qed.
Lemma agree_trans n a b c : agree n a b → agree n b c → agree n a c.
Proof. intros H1 H2 i Hi. rewrite H1 by done. by apply H2. Qed.
Lemma agree_le n m a b : (m ≤ n)%nat → agree n a b → agree m a b.
Proof. intros Hle H i Hi. apply H. lia. Qed.

#[local] Hint Resolve agree_sym agree_trans agree_le : core.

Lemma walk_in_leaves node d : walk_to_leaf node d ∈ leaves node.
Proof. induction node; simpl; [case_if; set_solver|set_solver]. Qed.

(** Walking to the leaf finds the digest whenever it is in the tree. *)
Lemma walk_finds node : ∀ lo oh,
  tree_wf lo node → oh ∈ leaves node → walk_to_leaf node (oh_digest oh) = oh.
Proof.
  induction node as [b l IHl r IHr|oh']; intros lo oh.
  - intros (_ & _ & Hl & Hr & Wl & Wr) [Hin|Hin]%elem_of_app; simpl; rewrite get_bit_zero.
    + rewrite (Hl _ Hin). simpl. by eapply IHl.
    + rewrite (Hr _ Hin). simpl. by eapply IHr.
  - intros _ ->%list_elem_of_singleton. done.
Qed.

(** In particular the leaves have distinct digests. *)
Lemma leaves_inj node lo x y :
  tree_wf lo node → x ∈ leaves node → y ∈ leaves node → oh_digest x = oh_digest y → x = y.
Proof.
  intros Hwf Hx Hy E. rewrite <-(walk_finds _ _ _ Hwf Hx), <-(walk_finds _ _ _ Hwf Hy). by rewrite E.
Qed.

Lemma leaves_nonempty node : ∃ oh, oh ∈ leaves node.
Proof. exists (walk_to_leaf node Digest_ZERO). apply walk_in_leaves. Qed.

Lemma leaves_insert node new c d oh :
  oh ∈ leaves (insert_node node (Leaf new) c d) ↔ oh = new ∨ oh ∈ leaves node.
Proof.
  induction node as [b l IHl r IHr|oh']; simpl.
  - repeat case_if; simpl; set_solver.
  - case_if; simpl; set_solver.
Qed.

Section insert.
  Context (new : ObjHead) (c : nat).
  Context (Hc : (c < 256)%nat).
Let d := oh_digest new.

  (** The new digest leaves the subtree at bit [c]: it agrees with all the leaves
      before that bit and differs from all of them there. *)
Lemma split_wf lo node (Hlo : (lo ≤ c)%nat) :
    tree_wf (S c) node → common (S c) node →
    (∀ y, y ∈ leaves node → agree c d (oh_digest y) ∧ digest_bit d c ≠ digest_bit (oh_digest y) c) →
    tree_wf lo (if get_bit d c =? 0 then Internal c (Leaf new) node else Internal c node (Leaf new)).
  Proof using Hc.
    intros Hwf Hcom Hy. rewrite get_bit_zero.
    assert (common c (Internal c (Leaf new) node)) as Hall.
    { intros x y. simpl. rewrite !elem_of_cons.
      intros [->|Hx] [->|Hy']; [done|by apply Hy|by apply agree_sym, Hy|].
      eapply agree_le; [|by apply Hcom]. lia. }
    assert (side c (negb (digest_bit d c)) node) as Hside.
    { intros y Hin. apply Hy in Hin as [_ Hne].
      by destruct (digest_bit d c), (digest_bit (oh_digest y) c). }
    assert (side c (digest_bit d c) (Leaf new)) as Hnew
      by (by intros y ->%list_elem_of_singleton).
    destruct (digest_bit d c); simpl; split_and!; try done; try lia.
    intros x y Hx Hy'. apply Hall; simpl in *; set_solver.
  Qed.

Lemma insert_node_wf node : ∀ lo,
    (lo ≤ c)%nat → tree_wf lo node → 
    let x := oh_digest (walk_to_leaf node d) in
    agree c d x → digest_bit d c ≠ digest_bit x c →
    (∀ y, y ∈ leaves node → agree lo d (oh_digest y)) →
    tree_wf lo (insert_node node (Leaf new) c d).
  Proof using Hc.
    induction node as [b l IHl r IHr|oh]; intros lo Hlo Hwf x Hagree Hdiff Hcommon.
    - pose proof Hwf as (Hb & Hcom & Hl & Hr & Wl & Wr).
      assert (x_in : walk_to_leaf (Internal b l r) d ∈ leaves (Internal b l r))
        by apply walk_in_leaves.
      cbn [insert_node]. destruct (Nat.ltb_spec c b) as [Hcb|Hcb].
      + apply split_wf; [done|split; [lia|done]| |].
        * intros y z Hy Hz. eapply agree_le; [|by apply Hcom]. lia.
        * intros y Hy. split.
          -- eapply agree_trans; [done|]. eapply agree_le; [|by apply Hcom]. lia.
          -- intros E. apply Hdiff. rewrite E. apply Hcom; [done..|lia].
      + assert (agree_all_leaves : ∀ y, y ∈ leaves (Internal b l r) → agree b d (oh_digest y)).
        { intros y Hy. eapply agree_trans; [eapply agree_le; [done|exact Hagree]|]. by apply Hcom. }
        assert (c ≠ b) as Hne.
        { intros ->. subst x. apply Hdiff. simpl. rewrite get_bit_zero.
          destruct (digest_bit d b) eqn:E; simpl;
            [rewrite Hr|rewrite Hl]; (done || apply walk_in_leaves). }
        assert (agree_next : ∀ y t v, side b v t → digest_bit d b = v → y ∈ leaves t →
                  y ∈ leaves (Internal b l r) → agree (S b) d (oh_digest y)).
        { intros y t v Hside Hv Hy Hy' i Hi. destruct (decide (i = b)) as [->|].
          - by rewrite Hv, (Hside y).
          - apply agree_all_leaves; [done|lia]. }
        assert (common_new : ∀ t, (∀ y, y ∈ leaves t → y = new ∨ y ∈ leaves (Internal b l r)) →
                  common b t).
        { intros t Ht y z [->|Hy]%Ht [->|Hz]%Ht;
            [done|by apply agree_all_leaves|by apply agree_sym, agree_all_leaves|by apply Hcom]. }
        subst x. cbn [walk_to_leaf] in Hagree, Hdiff. rewrite get_bit_zero in Hagree, Hdiff |- *.
        destruct (digest_bit d b) eqn:E; simpl in Hagree, Hdiff |- *.
        * split_and!; [lia|lia| |done| |done|].
          -- apply common_new. intros y. simpl. rewrite elem_of_app, leaves_insert.
             set_solver.
          -- intros y [->|?]%leaves_insert; [done|by apply Hr].
          -- apply IHr; [lia|done|done|done|]. intros y Hy.
             apply (agree_next y r true); try done. set_solver.
        * split_and!; [lia|lia| | |done| |done].
          -- apply common_new. intros y. simpl. rewrite elem_of_app, leaves_insert.
             set_solver.
          -- intros y [->|?]%leaves_insert; [done|by apply Hl].
          -- apply IHl; [lia|done|done|done|]. intros y Hy.
             apply (agree_next y l false); try done. set_solver.
    - apply split_wf; [done..| |]; simpl in *.
      + by intros y z ->%list_elem_of_singleton ->%list_elem_of_singleton.
      + by intros y ->%list_elem_of_singleton.
  Qed.
End insert.

(* ------------------------------------------------------------------ *)
(** ** Removal *)

Lemma remove_node_none node d t : remove_node node d = (t, None) → t = Some node.
Proof.
  revert t. induction node as [b l IHl r IHr|oh]; intros t; simpl.
  - case_if.
    + destruct (remove_node l d) as [[l'|] [oh|]]; intros; simplify_eq;
        specialize (IHl _ eq_refl); by simplify_eq.
    + destruct (remove_node r d) as [[r'|] [oh|]]; intros; simplify_eq;
        specialize (IHr _ eq_refl); by simplify_eq.
  - case_decide; intros; by simplify_eq.
Qed.

Definition tree_leaves (t : option CritbitNode) : list ObjHead :=
  match t with Some node => leaves node | None => [] end.

Definition root_wf (lo : nat) (t : option CritbitNode) : Prop :=
  match t with Some node => tree_wf lo node | None => True end.

Lemma common_subset b t t' : (∀ y, y ∈ leaves t → y ∈ leaves t') → common b t' → common b t.
Proof. intros Hsub H x y Hx Hy. apply H; auto. Qed.

(** Removing a digest that is in the tree takes out exactly its leaf. *)
Lemma remove_node_spec node d : ∀ lo t oh,
  tree_wf lo node → remove_node node d = (t, Some oh) →
  oh_digest oh = d ∧ oh ∈ leaves node ∧ root_wf lo t
  ∧ ∀ y, y ∈ tree_leaves t ↔ y ∈ leaves node ∧ oh_digest y ≠ d.
Proof.
  induction node as [b l IHl r IHr|oh']; intros lo t oh.
  - intros Hwf. pose proof Hwf as (Hb & Hcom & Hl & Hr & Wl & Wr). simpl. rewrite get_bit_zero.
    assert (Hnl : digest_bit d b = true → ∀ y, y ∈ leaves l → oh_digest y ≠ d).
    { intros E y Hy <-. rewrite (Hl y Hy) in E. done. }
    assert (Hnr : digest_bit d b = false → ∀ y, y ∈ leaves r → oh_digest y ≠ d).
    { intros E y Hy <-. rewrite (Hr y Hy) in E. done. }
    destruct (digest_bit d b) eqn:E; simpl.
    + destruct (remove_node r d) as [[r'|] [oh1|]] eqn:R; intros; simplify_eq;
        destruct (IHr _ _ _ Wr eq_refl) as (Hd & Hin & Hwf' & Hy); simpl in Hwf', Hy.
      * split; [done|]. split; [set_solver|]. split.
        -- simpl. split_and!; try done; try lia.
           ++ eapply common_subset, Hcom. intros y. simpl. rewrite !elem_of_app, Hy. tauto.
           ++ intros y [? _]%Hy. by apply Hr.
        -- intros y. simpl. rewrite !elem_of_app, Hy. specialize (Hnl eq_refl y). tauto.
      * split; [done|]. split; [set_solver|]. split.
        -- simpl. eapply tree_wf_weaken; [|done]. lia.
        -- intros y. simpl. rewrite elem_of_app. specialize (Hnl eq_refl y).
           specialize (Hy y). set_solver.
    + destruct (remove_node l d) as [[l'|] [oh1|]] eqn:R; intros; simplify_eq;
        destruct (IHl _ _ _ Wl eq_refl) as (Hd & Hin & Hwf' & Hy); simpl in Hwf', Hy.
      * split; [done|]. split; [set_solver|]. split.
        -- simpl. split_and!; try done; try lia.
           ++ eapply common_subset, Hcom. intros y. simpl. rewrite !elem_of_app, Hy. tauto.
           ++ intros y [? _]%Hy. by apply Hl.
        -- intros y. simpl. rewrite !elem_of_app, Hy. specialize (Hnr eq_refl y). tauto.
      * split; [done|]. split; [set_solver|]. split.
        -- simpl. eapply tree_wf_weaken; [|done]. lia.
        -- intros y. simpl. rewrite elem_of_app. specialize (Hnr eq_refl y).
           specialize (Hy y). set_solver.
  - intros _. simpl. case_decide; intros; simplify_eq. split; [done|]. split; [set_solver|]. split; [done|].
    intros y. set_solver.
Qed.

(** Removal finds every digest of the tree. *)
Lemma remove_node_finds node : ∀ lo oh,
  tree_wf lo node → oh ∈ leaves node →
  ∃ t, remove_node node (oh_digest oh) = (t, Some oh).
Proof.
  induction node as [b l IHl r IHr|oh']; intros lo oh.
  - intros (_ & _ & Hl & Hr & Wl & Wr) [Hin|Hin]%elem_of_app; simpl; rewrite get_bit_zero.
    + rewrite (Hl _ Hin). destruct (IHl _ _ Wl Hin) as [t ->]. simpl. destruct t; eauto.
    + rewrite (Hr _ Hin). destruct (IHr _ _ Wr Hin) as [t ->]. simpl. destruct t; eauto.
  - intros _ ->%list_elem_of_singleton. simpl. rewrite decide_True by done. eauto.
Qed.

(* ------------------------------------------------------------------ *)
(** ** The slinger contract *)

Definition critbit_repr (r : CritbitHash.root) (t : table) : Prop :=
  root_wf 0 r ∧ ∀ oh, oh ∈ tree_leaves r ↔ t !! oh_digest oh = Some oh.

Lemma critbit_search r t d :
  table_wf t → critbit_repr r t → CritbitHash.search r d = t !! d.
Proof.
  intros [Hd _] [Hwf Hin]. destruct (t !! d) as [oh|] eqn:E.
  - pose proof (Hd _ _ E) as <-. apply Hin in E.
    destruct r as [node|]; [|by apply not_elem_of_nil in E]. simpl.
    rewrite (walk_finds node 0 oh Hwf E). by rewrite decide_True.
  - destruct r as [node|]; [|done]. simpl. rewrite decide_False; [done|]. intros Heq.
    pose proof (walk_in_leaves node d) as Hw. apply (Hin (walk_to_leaf node d)) in Hw.
    congruence.
Qed.

Lemma critbit_insert node t new_oh c :
  critbit_repr (Some node) t → t !! oh_digest new_oh = None →
  find_critical_bit (oh_digest new_oh) (oh_digest (walk_to_leaf node (oh_digest new_oh))) = Some c →
  critbit_repr (Some (insert_node node (Leaf new_oh) c (oh_digest new_oh)))
    (<[oh_digest new_oh := new_oh]> t).
Proof.
  intros [Hwf Hin] Hnone (Hc & Hdiff & Hagree)%find_critical_bit_Some. split.
  - simpl. apply insert_node_wf; [done|lia|done..|]. intros y Hy i Hi. lia.
  - intros oh. simpl. rewrite leaves_insert, lookup_insert_Some. simpl in Hin. rewrite Hin.
    split; [|naive_solver]. intros [->|?]; [by left|].
    right. split; [|done]. congruence.
Qed.

#[global] Instance CritbitHash_laws : HashSlingerLaws CritbitHash.root.
Proof.
  refine {| hs_repr := critbit_repr |}.
  - split; [done|]. intros oh. rewrite lookup_empty. set_solver.
  - intros r c t d new_oh Hr Hwf [<- Hfresh]. cbn [hs_lookup CritbitHash_slinger].
    unfold CritbitHash.lookup. pose proof (critbit_search r t (oh_digest new_oh) Hwf Hr) as Hs.
    rewrite Hs. unfold table_lookup. destruct (t !! oh_digest new_oh) as [oh|] eqn:E; [by exists t|].
    destruct r as [node|].
    + simpl in Hs. case_decide as Hd; [done|].
      destruct (find_critical_bit _ _) as [crit|] eqn:Ec.
      * eexists. split; [done|]. by apply critbit_insert.
      * by apply find_critical_bit_None in Ec as ?.
    + eexists. split; [done|]. split; [done|]. intros oh. simpl. destruct Hr as [_ Hr].
      rewrite list_elem_of_singleton, lookup_insert_Some. simpl in Hr.
      split; [naive_solver|]. intros [[_ ->]|[_ H]]; [done|].
      apply Hr in H. by apply not_elem_of_nil in H.
  - intros r c t oh Hr Hwf Hpre. cbn [hs_deref CritbitHash_slinger].
    unfold CritbitHash.deref, table_deref. destruct (dec_ref oh c) as [n c'].
    destruct (n =? 0); [|by exists t].
    destruct Hr as [Hw Hin]. apply Hin in Hpre as Hleaf.
    destruct r as [node|]; [|by apply not_elem_of_nil in Hleaf]. simpl in Hw, Hleaf.
    eexists. split; [done|].
    destruct (remove_node_finds node 0 oh Hw Hleaf) as [t' Ht']. rewrite Ht'. simpl.
    apply (remove_node_spec _ _ 0) in Ht' as (_ & _ & Hw' & Hy); [|done]. split; [done|].
    intros y. rewrite Hy, lookup_delete_Some. simpl in Hin. rewrite Hin. naive_solver.
Defined.
