(* ===== verification/Slinger.v ===== *)
(** * The hash slingers: what clients rely on

    The client theorems of the slinger interface, proved from its laws alone and
    instantiated at the three backends of [rv-hash]: the backends are
    observationally equal, reference counts balance lookups against derefs, and
    the crit-bit tree keeps its invariant.  The last section models the two
    atomic steps of the crit-bit [deref] and shows that a lookup between them
    defeats the count. *)

From S2P Require Import Prelude RustStr F64 Enums Types HashSlinger ListHash Critbit.
Local Open Scope Z_scope.

(* ------------------------------------------------------------------ *)
(** ** The three backends agree *)

Definition outs_of {A} (r : list slinger_out * (A * refcnts)) : list slinger_out * refcnts :=
  (fst r, snd (snd r)).

Lemma slinger_run_outs {S} `{HashSlingerLaws S} ops :
  trace_ok ops (∅, ∅) →
  outs_of (run_with slinger_step ops (hs_new (S := S), ∅)) = outs_of (run_with table_step ops (∅, ∅)).
Proof.
  intros Hok.
  destruct (slinger_run_refines ops hs_new ∅ ∅ hs_new_repr table_wf_empty Hok)
    as (s' & t' & c' & outs & E1 & E2 & _).
  by rewrite E1, E2.
Qed.

(** C8. Refinement: on every sequence of lookups and derefs that respects the
    callers' obligations, the simple list, the classic bucket table and the
    crit-bit tree return the same object heads, the same spare heads and the same
    removal flags, and leave the same reference counts, as the abstract table
    from digests to object heads. *)
Theorem slinger_backends_refine_table ops :
  trace_ok ops (∅, ∅) →
  let spec := outs_of (run_with table_step ops (∅, ∅)) in
  outs_of (run_with slinger_step ops (SimpleListHash.new, ∅)) = spec
  ∧ outs_of (run_with slinger_step ops (ClassicHash.new, ∅)) = spec
  ∧ outs_of (run_with slinger_step ops (CritbitHash.new, ∅)) = spec.
Proof.
  intros Hok spec. split_and!.
  - exact (slinger_run_outs (S := SimpleListHash.entries) ops Hok).
  - exact (slinger_run_outs (S := ClassicHash.t) ops Hok).
  - exact (slinger_run_outs (S := CritbitHash.root) ops Hok).
Qed.

Definition head1 : ObjHead := mkObjHead 1 (test_digest x01).
Definition head2 : ObjHead := mkObjHead 2 (test_digest x03).
Definition head3 : ObjHead := mkObjHead 3 (test_digest x01).

Definition sample_trace : list slinger_op :=
  [OpLookup (test_digest x01) head1; OpLookup (test_digest x03) head2;
   OpLookup (test_digest x01) head3; OpDeref head2; OpDeref head1].

(** Decide the callers' obligations of a concrete trace. *)
Definition op_ok (o : slinger_op) (t : table) : bool :=
  match o with
  | OpLookup d new_oh =>
      bool_decide (oh_digest new_oh = d) &&
      forallb (λ p, negb (bool_decide (oh_addr p.2 = oh_addr new_oh))) (map_to_list t)
  | OpDeref oh => bool_decide (t !! oh_digest oh = Some oh)
  end.

Fixpoint trace_okb (ops : list slinger_op) (st : table * refcnts) : bool :=
  match ops with
  | [] => true
  | o :: ops => op_ok o (fst st) && trace_okb ops (snd (table_step o st))
  end.

Lemma trace_okb_sound ops st : trace_okb ops st = true → trace_ok ops st.
Proof.
  revert st. induction ops as [|o ops IH]; intros st; cbn [trace_okb trace_ok]; [done|].
  intros [Ho Hops]%andb_true_iff. split; [|by apply IH].
  destruct o as [d new_oh|oh]; simpl in *; [|by apply bool_decide_eq_true in Ho].
  apply andb_true_iff in Ho as [Hd Hall]. apply bool_decide_eq_true in Hd. split; [done|].
  intros d' oh Hl. rewrite forallb_forall in Hall. apply elem_of_map_to_list in Hl.
  apply list_elem_of_In, Hall in Hl. apply negb_true_iff, bool_decide_eq_false in Hl. done.
Qed.

Lemma slinger_backends_refine_table_witness :
  let spec := outs_of (run_with table_step sample_trace (∅, ∅)) in
  fst spec = [OutHead head1 None; OutHead head2 None; OutHead head1 (Some head3);
              OutRemoved true; OutRemoved false]
  ∧ outs_of (run_with slinger_step sample_trace (SimpleListHash.new, ∅)) = spec
  ∧ outs_of (run_with slinger_step sample_trace (ClassicHash.new, ∅)) = spec
  ∧ outs_of (run_with slinger_step sample_trace (CritbitHash.new, ∅)) = spec.
Proof.
  split; [vm_compute; reflexivity|].
  apply slinger_backends_refine_table. apply trace_okb_sound. vm_compute. reflexivity.
Defined.

(** C26. The crit-bit invariant holds after every well-behaved run: bit positions
    stay below 256 (so that [get_bit] never indexes out of the digest) and grow
    along every path, the leaves below a node agree before its bit and its
    children are separated by it; the leaves are exactly the heads of the
    abstract table. *)
Theorem critbit_invariant ops :
  trace_ok ops (∅, ∅) →
  ∃ r c t, run_with slinger_step ops (CritbitHash.new, ∅)
             = (fst (run_with table_step ops (∅, ∅)), (r, c))
    ∧ snd (run_with table_step ops (∅, ∅)) = (t, c)
    ∧ root_wf 0 r ∧ ∀ oh, oh ∈ tree_leaves r ↔ t !! oh_digest oh = Some oh.
Proof.
  intros Hok.
  destruct (slinger_run_refines (S := CritbitHash.root) ops hs_new ∅ ∅
              hs_new_repr table_wf_empty Hok) as (r & t & c & outs & E1 & E2 & [Hwf Hin] & _).
  exists r, c, t. rewrite E2. done.
Qed.

Lemma critbit_invariant_witness :
  ∃ r c t, run_with slinger_step sample_trace (CritbitHash.new, ∅)
             = (fst (run_with table_step sample_trace (∅, ∅)), (r, c))
    ∧ snd (run_with table_step sample_trace (∅, ∅)) = (t, c)
    ∧ root_wf 0 r ∧ ∀ oh, oh ∈ tree_leaves r ↔ t !! oh_digest oh = Some oh.
Proof. apply critbit_invariant. apply trace_okb_sound. vm_compute. reflexivity. Defined.

(** [find_critical_bit] returns exactly the first bit position at which two
    digests differ, and nothing exactly when they are equal. *)
Theorem find_critical_bit_first a b c :
  find_critical_bit a b = Some c ↔
  (c < 256)%nat ∧ get_bit a c ≠ get_bit b c ∧ ∀ i, (i < c)%nat → get_bit a i = get_bit b i.
Proof.
  assert (get_bit_eq : ∀ i, get_bit a i = get_bit b i ↔ digest_bit a i = digest_bit b i).
  { intros i. rewrite (get_bit_bool a), (get_bit_bool b).
    by destruct (digest_bit a i), (digest_bit b i). }
  setoid_rewrite get_bit_eq. split.
  - intros (? & ? & ?)%find_critical_bit_Some. done.
  - intros (Hc & Hd & Hlt). destruct (find_critical_bit a b) as [c'|] eqn:E.
    + apply find_critical_bit_Some in E as (Hc' & Hd' & Hlt'). f_equal.
      destruct (Nat.lt_total c c') as [?|[?|?]]; [|done|].
      * by destruct Hd; apply Hlt'.
      * by destruct Hd'; apply Hlt.
    + by apply find_critical_bit_None in E as ->.
Qed.

(* ------------------------------------------------------------------ *)
(** ** Reference counts balance lookups and derefs *)

(** References taken by an output and given up by an operation, at address [a]. *)
Definition taken (a : nat) (out : slinger_out) : Z :=
  match out with
  | OutHead oh _ => if decide (oh_addr oh = a) then 1 else 0
  | OutRemoved _ => 0
  end.

Definition dropped (a : nat) (o : slinger_op) : Z :=
  match o with
  | OpDeref oh => if decide (oh_addr oh = a) then 1 else 0
  | OpLookup _ _ => 0
  end.

Definition total {A} (f : A → Z) (l : list A) : Z := foldr (λ x n, f x + n) 0 l.

(** [n a] references are outstanding at address [a], and the table holds exactly
    the heads that have some. *)
Definition balanced (t : table) (c : refcnts) (n : nat → Z) : Prop :=
  ∀ a, default 0 (c !! a) = n a ∧ 0 ≤ n a ∧ (0 < n a ↔ ∃ d oh, t !! d = Some oh ∧ oh_addr oh = a).

Lemma balanced_lookup t c n d new_oh :
  table_wf t → lookup_pre d new_oh t → balanced t c n → (∀ a, n a < u32_max) →
  let '((oh, _), (t', c')) := table_lookup d new_oh (t, c) in
  balanced t' c' (λ a, n a + if decide (oh_addr oh = a) then 1 else 0).
Proof.
  intros Hwf [Hd Hfresh] Hbal Hlt. unfold table_lookup, inc_ref, ref_count. simpl.
  destruct (t !! d) as [oh|] eqn:E; intros a;
    [destruct (Hbal (oh_addr oh)) as (Hc & Hn & Hex)|destruct (Hbal (oh_addr new_oh)) as (Hc & Hn & Hex)];
    rewrite Hc, u32_wrap_small by (specialize (Hlt (oh_addr oh)) || specialize (Hlt (oh_addr new_oh)); lia);
    destruct (Hbal a) as (Hca & Hna & Hexa); case_decide as Ea.
  - subst a. rewrite lookup_insert_eq. simpl. split_and!; [done|lia|]. split; [eauto|lia].
  - rewrite lookup_insert_ne by done. split_and!; [lia..|]. rewrite <-Hexa. lia.
  - subst a. rewrite lookup_insert_eq. simpl. split_and!; [done|lia|].
    split; [|lia]. intros _. exists d, new_oh. by rewrite lookup_insert_eq.
  - rewrite lookup_insert_ne by done. split_and!; [lia..|].
    replace (n a + 0) with (n a) by lia. rewrite Hexa. split.
    + intros (d' & oh & Hl & Hoh). exists d', oh. split; [|done].
      rewrite lookup_insert_ne; [done|]. intros ->. congruence.
    + intros (d' & oh & [[? ?]|[? ?]]%lookup_insert_Some & Hoh); [by subst|eauto].
Qed.

Lemma balanced_deref t c n oh :
  table_wf t → deref_pre oh t → balanced t c n → (∀ a, n a < u32_max) →
  let '(_, (t', c')) := table_deref oh (t, c) in
  balanced t' c' (λ a, n a - if decide (oh_addr oh = a) then 1 else 0).
Proof.
  intros [Hd Ha] Hpre Hbal Hlt. unfold table_deref, dec_ref, ref_count.
  destruct (Hbal (oh_addr oh)) as (Hc & Hn & Hex). specialize (Hlt (oh_addr oh)).
  assert (0 < n (oh_addr oh)) as Hpos by (apply Hex; eauto).
  rewrite Hc, u32_wrap_small by lia.
  destruct (Z.eqb_spec (n (oh_addr oh) - 1) 0) as [Ez|Ez]; intros a;
    destruct (Hbal a) as (Hca & Hna & Hexa); case_decide as Ea.
  - subst a. rewrite lookup_insert_eq. simpl. split_and!; [lia..|]. split; [lia|].
    intros (d' & oh' & [Hne Hl]%lookup_delete_Some & Hoh').
    destruct Hne. assert (oh' = oh) as -> by (by eapply Ha). by apply Hd.
  - rewrite lookup_insert_ne by done. split_and!; [lia..|].
    replace (n a - 0) with (n a) by lia. rewrite Hexa. split.
    + intros (d' & oh' & Hl & Hoh'). exists d', oh'. split; [|done].
      apply lookup_delete_Some. split; [|done]. intros <-. rewrite Hpre in Hl. congruence.
    + intros (d' & oh' & [_ ?]%lookup_delete_Some & ?). eauto.
  - subst a. rewrite lookup_insert_eq. simpl. split_and!; [lia..|]. split; [eauto|lia].
  - rewrite lookup_insert_ne by done. split_and!; [lia..|].
    replace (n a - 0) with (n a) by lia. done.
Qed.

Lemma balanced_ext t c n n' : (∀ a, n a = n' a) → balanced t c n → balanced t c n'.
Proof. intros E H a. rewrite <-E. apply H. Qed.

Lemma balanced_step o t c n :
  table_wf t → op_pre o t → balanced t c n → (∀ a, n a < u32_max) →
  let '(out, (t', c')) := table_step o (t, c) in
  balanced t' c' (λ a, n a + taken a out - dropped a o).
Proof.
  intros Hwf Hpre Hbal Hlt. destruct o as [d new_oh|oh]; unfold table_step, step_with.
  - pose proof (balanced_lookup t c n d new_oh Hwf Hpre Hbal Hlt) as H.
    destruct (table_lookup d new_oh (t, c)) as [[oh u] [t' c']].
    eapply balanced_ext, H. intros a. simpl. lia.
  - pose proof (balanced_deref t c n oh Hwf Hpre Hbal Hlt) as H.
    destruct (table_deref oh (t, c)) as [b [t' c']].
    eapply balanced_ext, H. intros a. simpl. lia.
Qed.

Lemma table_step_wf o t c out t' c' :
  table_wf t → op_pre o t → table_step o (t, c) = (out, (t', c')) → table_wf t'.
Proof.
  intros Hwf Hpre. destruct o as [d new_oh|oh]; unfold table_step, step_with.
  - destruct (table_lookup d new_oh (t, c)) as [[oh u] [t1 c1]] eqn:E. intros. simplify_eq.
    by eapply table_lookup_wf.
  - destruct (table_deref oh (t, c)) as [b [t1 c1]] eqn:E. intros. simplify_eq.
    by eapply table_deref_wf.
Qed.

Lemma taken_bound a out : 0 ≤ taken a out ≤ 1.
Proof. unfold taken. destruct out; [case_decide|]; lia. Qed.
Lemma dropped_bound a o : 0 ≤ dropped a o ≤ 1.
Proof. unfold dropped. destruct o; [|case_decide]; lia. Qed.

Lemma balanced_run ops : ∀ t c n k,
  table_wf t → trace_ok ops (t, c) → balanced t c n →
  (∀ a, n a ≤ k) → k + Z.of_nat (length ops) < 2 ^ 32 →
  let '(outs, (t', c')) := run_with table_step ops (t, c) in
  balanced t' c' (λ a, n a + total (taken a) outs - total (dropped a) ops).
Proof.
  induction ops as [|o ops IH]; intros t c n k Hwf Hok Hbal Hn Hk.
  - simpl. eapply balanced_ext, Hbal. intros a. simpl. lia.
  - destruct Hok as [Hpre Hok]. cbn [fst] in Hpre. cbn [run_with length] in *.
    pose proof (balanced_step o t c n Hwf Hpre Hbal) as Hstep.
    destruct (table_step o (t, c)) as [out [t1 c1]] eqn:E.
    pose proof (table_step_wf _ _ _ _ _ _ Hwf Hpre E) as Hwf1. cbn [snd] in Hok.
    specialize (IH t1 c1 _ (k + 1) Hwf1 Hok (Hstep ltac:(intros a; specialize (Hn a); unfold u32_max; lia))).
    destruct (run_with table_step ops (t1, c1)) as [outs [t' c']].
    eapply balanced_ext, IH; [|intros a|lia].
    + intros a. simpl. lia.
    + specialize (Hn a). pose proof (taken_bound a out). pose proof (dropped_bound a o). lia.
Qed.

(** Reference counting is exact, for any backend that discharges the slinger
    laws: after a well-behaved run of fewer than 2^32 operations, the count of
    every head is the number of lookups that returned it minus the number of
    derefs it received, and the heads of the table are exactly the ones with
    outstanding references, so that nothing in use is dropped and nothing
    unused is kept. *)
Theorem slinger_refcount_exact {S} `{HashSlingerLaws S} ops :
  trace_ok ops (∅, ∅) → Z.of_nat (length ops) < 2 ^ 32 →
  let '(outs, (s, c)) := run_with slinger_step ops (hs_new (S := S), ∅) in
  ∃ t, hs_repr s t ∧ ∀ a,
    let n := total (taken a) outs - total (dropped a) ops in
    default 0 (c !! a) = n ∧ 0 ≤ n ∧ (0 < n ↔ ∃ d oh, t !! d = Some oh ∧ oh_addr oh = a).
Proof.
  intros Hok Hlen.
  destruct (slinger_run_refines ops hs_new ∅ ∅ hs_new_repr table_wf_empty Hok)
    as (s' & t' & c' & outs & E1 & E2 & Hr & _). rewrite E1. exists t'. split; [done|].
  assert (balanced ∅ ∅ (λ _, 0)) as Hinit.
  { intros a. rewrite lookup_empty. split_and!; [done..|]. split; [lia|].
    intros (d & oh & Hl & _). by rewrite lookup_empty in Hl. }
  pose proof (balanced_run ops ∅ ∅ (λ _, 0) 0 table_wf_empty Hok Hinit) as Hb.
  rewrite E2 in Hb. apply Hb; [done|lia].
Qed.

Lemma slinger_refcount_exact_witness :
  let '(outs, (s, c)) :=
    run_with slinger_step sample_trace (hs_new (S := CritbitHash.root), ∅) in
  ∃ t, hs_repr (S := CritbitHash.root) s t ∧ ∀ a,
    let n := total (taken a) outs - total (dropped a) sample_trace in
    default 0 (c !! a) = n ∧ 0 ≤ n ∧ (0 < n ↔ ∃ d oh, t !! d = Some oh ∧ oh_addr oh = a).
Proof.
  refine (slinger_refcount_exact (S := CritbitHash.root) sample_trace _ _).
  - apply trace_okb_sound. vm_compute. reflexivity.
  - vm_compute. reflexivity.
Defined.

(* ------------------------------------------------------------------ *)
(** ** The window in [deref]

    [deref] decrements the count first and takes the write lock afterwards; other
    threads run between the two.  Threads interleave the atomic parts: a whole
    lookup (its count update happens under a lock), the decrement of a deref,
    and, for a deref whose count reached zero, the removal under the write
    lock. *)

Module CritbitRace.

Record state : Type := mk {
  tree : CritbitHash.root;
  counts : refcnts;
  (** derefs that saw zero and wait for the write lock *)
  removing : list ObjHead;
}.

Definition init : state := mk CritbitHash.new ∅ [].

(** The locked part of [deref]. *)
Definition remove_locked (r : CritbitHash.root) (oh : ObjHead) : CritbitHash.root :=
  match r with
  | Some tree => fst (remove_node tree (oh_digest oh))
  | None => None
  end.

Inductive step : state → state → Prop :=
| step_lookup r c q d new_oh res r' c' :
    CritbitHash.lookup d new_oh (r, c) = (res, (r', c')) →
    step (mk r c q) (mk r' c' q)
| step_dec r c q oh n c' :
    0 < ref_count oh c → dec_ref oh c = (n, c') →
    step (mk r c q) (mk r c' (if n =? 0 then q ++ [oh] else q))
| step_remove r c q1 oh q2 :
    step (mk r c (q1 ++ oh :: q2)) (mk (remove_locked r oh) c (q1 ++ q2)).

(** Run without interruption, the two steps are [deref]. *)
Lemma deref_two_steps oh r c b r' c' :
  0 < ref_count oh c → CritbitHash.deref oh (r, c) = (b, (r', c')) →
  rtc step (mk r c []) (mk r' c' []).
Proof.
  intros Hpos. unfold CritbitHash.deref. destruct (dec_ref oh c) as [n c1] eqn:E.
  destruct (n =? 0) eqn:En; intros Heq.
  - eapply rtc_l; [by eapply (step_dec r c [] oh n c1)|]. rewrite En. simpl.
    eapply rtc_l; [apply (step_remove r c1 [] oh [])|]. simpl.
    destruct r; simplify_eq; apply rtc_refl.
  - eapply rtc_l; [by eapply (step_dec r c [] oh n c1)|]. rewrite En. simplify_eq. apply rtc_refl.
Qed.

End CritbitRace.

(** The decrement-then-lock protocol loses a live head: a state is reachable
    in which a head has one outstanding reference and yet is no longer in the
    tree, so that the next lookup of its digest installs a second object head
    for the same digest. *)
Theorem critbit_deref_race :
  ∃ st, rtc CritbitRace.step CritbitRace.init st
    ∧ CritbitRace.removing st = []
    ∧ ref_count head1 (CritbitRace.counts st) = 1
    ∧ (head1 ∉ tree_leaves (CritbitRace.tree st))
    ∧ fst (CritbitHash.lookup (oh_digest head1) head3 (CritbitRace.tree st, CritbitRace.counts st))
      = (head3, None).
Proof.
  eexists. split; [|split_and!].
  - eapply rtc_l; [eapply (CritbitRace.step_lookup _ _ _ (oh_digest head1) head1); reflexivity|].
    eapply rtc_l; [eapply (CritbitRace.step_dec _ _ _ head1); [|reflexivity]; vm_compute; done|].
    eapply rtc_l; [eapply (CritbitRace.step_lookup _ _ _ (oh_digest head1) head3); reflexivity|].
    eapply rtc_l; [apply (CritbitRace.step_remove _ _ [] head1 [])|]. apply rtc_refl.
  - reflexivity.
  - reflexivity.
  - vm_compute. by intros ?%not_elem_of_nil.
  - vm_compute. reflexivity.
Qed.
