(* ===== verification/Lru.v ===== *)
(** * The sharded LRU tracker

    Models [rv-cache/src/lru.rs].  A shard is an intrusive doubly-linked list of
    raw pointers: the model keeps a heap from addresses to nodes, and every
    dereference of a pointer that is null or not allocated makes the operation
    fail ([None], undefined behaviour in the code).  The representation
    predicate relates a shard to the list of its entries, oldest first; every
    operation is shown to run without undefined behaviour and to implement the
    corresponding list operation.  The 64-shard tracker with its global clock
    then refines one least-recently-used list. *)

From Stdlib Require Import Sorted.
From S2P Require Import Prelude RustStr F64 Enums Types.
Local Open Scope Z_scope.

(* ------------------------------------------------------------------ *)
(** ** Nodes and shards *)

Record LruNode : Set := mkLruNode {
  ln_digest : Digest;
  ln_timestamp : Z;
  ln_prev : option nat;
  ln_next : option nat;
}.

Record LruShard : Type := mkLruShard {
  sh_heap : gmap nat LruNode;
  sh_map : gmap Digest nat;
  sh_head : option nat;
  sh_tail : option nat;
}.

Definition with_heap (sh : LruShard) (h : gmap nat LruNode) : LruShard :=
  mkLruShard h (sh_map sh) (sh_head sh) (sh_tail sh).
Definition with_map (sh : LruShard) (m : gmap Digest nat) : LruShard :=
  mkLruShard (sh_heap sh) m (sh_head sh) (sh_tail sh).
Definition with_head (sh : LruShard) (p : option nat) : LruShard :=
  mkLruShard (sh_heap sh) (sh_map sh) p (sh_tail sh).
Definition with_tail (sh : LruShard) (p : option nat) : LruShard :=
  mkLruShard (sh_heap sh) (sh_map sh) (sh_head sh) p.

Definition set_prev (p : option nat) (n : LruNode) : LruNode :=
  mkLruNode (ln_digest n) (ln_timestamp n) p (ln_next n).
Definition set_next (p : option nat) (n : LruNode) : LruNode :=
  mkLruNode (ln_digest n) (ln_timestamp n) (ln_prev n) p.
Definition set_timestamp (ts : Z) (n : LruNode) : LruNode :=
  mkLruNode (ln_digest n) ts (ln_prev n) (ln_next n).

(** [( *p).field = v]: undefined when [p] is not allocated. *)
Definition modify (f : LruNode → LruNode) (p : nat) (sh : LruShard) : option LruShard :=
  n ← sh_heap sh !! p; Some (with_heap sh (<[p := f n]> (sh_heap sh))).

(** [drop(Box::from_raw(p))]. *)
Definition free (p : nat) (sh : LruShard) : option LruShard :=
  _ ← sh_heap sh !! p; Some (with_heap sh (delete p (sh_heap sh))).

Definition LruShard_new : LruShard := mkLruShard ∅ ∅ None None.

Definition unlink (node : nat) (sh : LruShard) : option LruShard :=
  n ← sh_heap sh !! node;
  let prev := ln_prev n in
  let next := ln_next n in
  sh ← match prev with
       | None => Some (with_head sh next)
       | Some p => modify (set_next next) p sh
       end;
  sh ← match next with
       | None => Some (with_tail sh prev)
       | Some p => modify (set_prev prev) p sh
       end;
  modify (λ n, set_next None (set_prev None n)) node sh.

Definition push_tail (node : nat) (sh : LruShard) : option LruShard :=
  sh ← modify (λ n, set_next None (set_prev (sh_tail sh) n)) node sh;
  sh ← match sh_tail sh with
       | None => Some (with_head sh (Some node))
       | Some t => modify (set_next (Some node)) t sh
       end;
  Some (with_tail sh (Some node)).

Definition head_timestamp (sh : LruShard) : option (option Z) :=
  match sh_head sh with
  | None => Some None
  | Some p => n ← sh_heap sh !! p; Some (Some (ln_timestamp n))
  end.

Definition pop_head (sh : LruShard) : option (option Digest * LruShard) :=
  match sh_head sh with
  | None => Some (None, sh)
  | Some node =>
      n ← sh_heap sh !! node;
      let digest := ln_digest n in
      sh ← unlink node sh;
      sh ← free node (with_map sh (delete digest (sh_map sh)));
      Some (Some digest, sh)
  end.

(** Refresh an entry: new timestamp, unlink, push to the tail. *)
Definition refresh (node : nat) (timestamp : Z) (sh : LruShard) : option LruShard :=
  sh ← modify (set_timestamp timestamp) node sh;
  sh ← unlink node sh;
  push_tail node sh.

(** [Box::into_raw(Box::new(..))] returns an address that is not allocated. *)
Definition LruShard_insert (digest : Digest) (timestamp : Z) (sh : LruShard) : option LruShard :=
  match sh_map sh !! digest with
  | Some node => refresh node timestamp sh
  | None =>
      let node := fresh (dom (sh_heap sh)) in
      let sh := with_heap sh
        (<[node := mkLruNode digest timestamp None None]> (sh_heap sh)) in
      sh ← push_tail node sh;
      Some (with_map sh (<[digest := node]> (sh_map sh)))
  end.

Definition LruShard_touch (digest : Digest) (timestamp : Z) (sh : LruShard)
    : option (bool * LruShard) :=
  match sh_map sh !! digest with
  | Some node => sh ← refresh node timestamp sh; Some (true, sh)
  | None => Some (false, sh)
  end.

Definition LruShard_remove (digest : Digest) (sh : LruShard) : option (bool * LruShard) :=
  match sh_map sh !! digest with
  | Some node =>
      let sh := with_map sh (delete digest (sh_map sh)) in
      sh ← unlink node sh;
      sh ← free node sh;
      Some (true, sh)
  | None => Some (false, sh)
  end.

Definition LruShard_len (sh : LruShard) : nat := size (sh_map sh).

(* ------------------------------------------------------------------ *)
(** ** The sharded tracker *)

Definition N_SHARDS : nat := 64.

Record ShardedLru : Type := mkShardedLru {
  shards : list LruShard;
  lru_capacity : Z;
  clock : Z;
}.

Definition ShardedLru_new (capacity : Z) : ShardedLru :=
  mkShardedLru (replicate N_SHARDS LruShard_new) capacity 0.

(** [fetch_add] returns the old value and wraps. *)
Definition next_timestamp (lru : ShardedLru) : Z * ShardedLru :=
  (clock lru, mkShardedLru (shards lru) (lru_capacity lru) (u64_wrap (clock lru + 1))).

Definition shard_index (d : Digest) : nat :=
  (Z.to_nat (u8_val (default x00 (bytes_of d !! 0%nat))) mod N_SHARDS)%nat.

Definition with_shard (lru : ShardedLru) (i : nat) (sh : LruShard) : ShardedLru :=
  mkShardedLru (<[i := sh]> (shards lru)) (lru_capacity lru) (clock lru).

Definition ShardedLru_insert (d : Digest) (lru : ShardedLru) : option ShardedLru :=
  let '(ts, lru) := next_timestamp lru in
  let idx := shard_index d in
  sh ← shards lru !! idx;
  sh ← LruShard_insert d ts sh;
  Some (with_shard lru idx sh).

Definition ShardedLru_touch (d : Digest) (lru : ShardedLru) : option ShardedLru :=
  let '(ts, lru) := next_timestamp lru in
  let idx := shard_index d in
  sh ← shards lru !! idx;
  '(_, sh) ← LruShard_touch d ts sh;
  Some (with_shard lru idx sh).

Definition ShardedLru_remove (d : Digest) (lru : ShardedLru) : option ShardedLru :=
  let idx := shard_index d in
  sh ← shards lru !! idx;
  '(_, sh) ← LruShard_remove d sh;
  Some (with_shard lru idx sh).

(** The first pass of [evict_oldest]: the scan over the shards with the best
    candidate so far. *)
Fixpoint oldest_loop (shs : list LruShard) (i : nat) (oldest_shard : option nat) (oldest_ts : Z)
    : option (option nat) :=
  match shs with
  | [] => Some oldest_shard
  | sh :: shs =>
      ts ← head_timestamp sh;
      match ts with
      | Some ts =>
          if ts <? oldest_ts then oldest_loop shs (S i) (Some i) ts
          else oldest_loop shs (S i) oldest_shard oldest_ts
      | None => oldest_loop shs (S i) oldest_shard oldest_ts
      end
  end.

Definition ShardedLru_evict_oldest (lru : ShardedLru) : option (option Digest * ShardedLru) :=
  oldest ← oldest_loop (shards lru) 0 None u64_max;
  match oldest with
  | Some idx =>
      sh ← shards lru !! idx;
      '(d, sh) ← pop_head sh;
      Some (d, with_shard lru idx sh)
  | None => Some (None, lru)
  end.

Definition ShardedLru_len (lru : ShardedLru) : Z :=
  Z.of_nat (sum_list (LruShard_len <$> shards lru)).

Definition ShardedLru_is_empty (lru : ShardedLru) : bool :=
  forallb (λ sh, Nat.eqb (LruShard_len sh) 0) (shards lru).

(* ------------------------------------------------------------------ *)
(** ** Doubly-linked segments *)

(** An entry of the abstract list: address, digest and timestamp. *)
Abbreviation entry := (nat * Digest * Z)%type.
Definition ptr (x : entry) : nat := x.1.1.
Definition key (x : entry) : Digest := x.1.2.
Definition age (x : entry) : Z := x.2.

(** The address of the first, the last entry of a list; [o] when it is empty. *)
Definition first_ptr (l : list entry) (o : option nat) : option nat :=
  match head l with Some x => Some (ptr x) | None => o end.
Definition last_ptr (l : list entry) (o : option nat) : option nat :=
  match last l with Some x => Some (ptr x) | None => o end.

(** The nodes of [l] are linked in order between [prev] and [next]. *)
Fixpoint dseg (h : gmap nat LruNode) (prev : option nat) (l : list entry) (next : option nat) : Prop :=
  match l with
  | [] => True
  | x :: l' =>
      h !! ptr x = Some (mkLruNode (key x) (age x) prev (first_ptr l' next))
      ∧ dseg h (Some (ptr x)) l' next
  end.

Lemma first_ptr_app l1 l2 o : first_ptr (l1 ++ l2) o = first_ptr l1 (first_ptr l2 o).
Proof. by destruct l1. Qed.

Lemma last_ptr_snoc l x o : last_ptr (l ++ [x]) o = Some (ptr x).
Proof. unfold last_ptr. by rewrite last_snoc. Qed.

Lemma last_ptr_cons l x o : last_ptr (x :: l) o = last_ptr l (Some (ptr x)).
Proof. unfold last_ptr. rewrite last_cons. by destruct (last l). Qed.

Lemma dseg_app h prev l1 l2 next :
  dseg h prev (l1 ++ l2) next ↔
  dseg h prev l1 (first_ptr l2 next) ∧ dseg h (last_ptr l1 prev) l2 next.
Proof.
  revert prev. induction l1 as [|x l1 IH]; intros prev; simpl; [tauto|].
  rewrite first_ptr_app, IH, last_ptr_cons. tauto.
Qed.

Lemma dseg_frame h h' prev l next :
  (∀ x, x ∈ l → h' !! ptr x = h !! ptr x) → dseg h prev l next → dseg h' prev l next.
Proof.
  revert prev. induction l as [|x l IH]; intros prev Hh; simpl; [done|].
  intros [Hx Hl]. split; [rewrite Hh; set_solver|]. apply IH; [|done]. set_solver.
Qed.

Lemma elem_of_ptrs x (l : list entry) : x ∈ l → ptr x ∈ ptr <$> l.
Proof. intros. apply list_elem_of_fmap. eauto. Qed.

Lemma dseg_frame_alter h f p prev l next :
  p ∉ ptr <$> l → dseg h prev l next → dseg (alter f p h) prev l next.
Proof.
  intros Hp. apply dseg_frame. intros x Hx. apply lookup_alter_ne.
  intros ->. by destruct Hp; apply elem_of_ptrs.
Qed.

(** Redirect the end of a segment: the code updates its last node, if any. *)
Definition update_next (l : list entry) (next : option nat) (h : gmap nat LruNode) : gmap nat LruNode :=
  match last l with Some x => alter (set_next next) (ptr x) h | None => h end.
Definition update_prev (l : list entry) (prev : option nat) (h : gmap nat LruNode) : gmap nat LruNode :=
  match head l with Some x => alter (set_prev prev) (ptr x) h | None => h end.

Lemma dseg_update_next h prev l next next' :
  NoDup (ptr <$> l) → dseg h prev l next → dseg (update_next l next' h) prev l next'.
Proof.
  intros Hnd Hd. destruct l as [|x l _] using rev_ind; [done|].
  unfold update_next. rewrite last_snoc. apply dseg_app in Hd as [Hl Hx].
  rewrite fmap_app in Hnd. apply NoDup_app in Hnd as (Hnd & Hdis & _).
  assert (ptr x ∉ ptr <$> l) as Hnin by (intros ?; by eapply Hdis; [done|set_solver]).
  apply dseg_app. split.
  - by apply dseg_frame_alter.
  - simpl in *. destruct Hx as [Hx _]. rewrite lookup_alter_eq, Hx. done.
Qed.

Lemma dseg_update_prev h prev prev' l next :
  NoDup (ptr <$> l) → dseg h prev l next → dseg (update_prev l prev' h) prev' l next.
Proof.
  destruct l as [|x l]; [done|]. intros [Hnin _]%NoDup_cons [Hx Hl].
  unfold update_prev. simpl. rewrite lookup_alter_eq, Hx. split; [done|]. by apply dseg_frame_alter.
Qed.

(* ------------------------------------------------------------------ *)
(** ** Shards and lists *)

(** The list part: links, ends and distinct addresses. *)
Definition links (sh : LruShard) (l : list entry) : Prop :=
  dseg (sh_heap sh) None l None ∧ NoDup (ptr <$> l)
  ∧ sh_head sh = first_ptr l None ∧ sh_tail sh = last_ptr l None.

(** Operations that keep the map and the set of allocated addresses. *)
Definition same_alloc (sh sh' : LruShard) : Prop :=
  sh_map sh' = sh_map sh ∧ dom (sh_heap sh') = dom (sh_heap sh).

Lemma same_alloc_trans sh1 sh2 sh3 : same_alloc sh1 sh2 → same_alloc sh2 sh3 → same_alloc sh1 sh3.
Proof. intros [? ?] [? ?]. split; congruence. Qed.

Lemma modify_alter f p sh n :
  sh_heap sh !! p = Some n → modify f p sh = Some (with_heap sh (alter f p (sh_heap sh))).
Proof.
  intros Hp. unfold modify. rewrite Hp. simpl. do 2 f_equal. apply map_eq. intros q.
  destruct (decide (q = p)) as [->|].
  - by rewrite lookup_insert_eq, lookup_alter_eq, Hp.
  - by rewrite lookup_insert_ne, lookup_alter_ne.
Qed.

Lemma dseg_lookup h prev l next x : dseg h prev l next → x ∈ l → is_Some (h !! ptr x).
Proof.
  revert prev. induction l as [|y l IH]; intros prev; [by intros _ ?%not_elem_of_nil|].
  intros [Hy Hl] [->|Hx]%elem_of_cons; [by eexists|by eapply IH].
Qed.

(** The two conditional writes of [unlink] and [push_tail]. *)
Lemma write_next sh l next :
  dseg (sh_heap sh) None l next →
  ∀ v, match last_ptr l None with
       | None => Some (with_head sh v)
       | Some p => modify (set_next v) p sh
       end = Some (mkLruShard (update_next l v (sh_heap sh)) (sh_map sh)
                     (match l with [] => v | _ => sh_head sh end) (sh_tail sh)).
Proof.
  intros Hd v. unfold last_ptr, update_next. destruct (last l) as [x|] eqn:E.
  - assert (x ∈ l) as Hx by (apply last_Some in E as [? ->]; set_solver).
    destruct (dseg_lookup _ _ _ _ _ Hd Hx) as [n Hn].
    rewrite (modify_alter _ _ _ _ Hn). by destruct l.
  - apply last_None in E as ->. done.
Qed.

Lemma write_prev sh l prev next :
  dseg (sh_heap sh) prev l next →
  ∀ v, match first_ptr l None with
       | None => Some (with_tail sh v)
       | Some p => modify (set_prev v) p sh
       end = Some (mkLruShard (update_prev l v (sh_heap sh)) (sh_map sh) (sh_head sh)
                     (match l with [] => v | _ => sh_tail sh end)).
Proof.
  intros Hd v. destruct l as [|x l]; [done|]. simpl in *. destruct Hd as [Hx _].
  by rewrite (modify_alter _ _ _ _ Hx).
Qed.

Lemma dom_update_next l v h : dom (update_next l v h) = dom h.
Proof. unfold update_next. destruct (last l); [apply dom_alter_L|done]. Qed.
Lemma dom_update_prev l v h : dom (update_prev l v h) = dom h.
Proof. unfold update_prev. destruct (head l); [apply dom_alter_L|done]. Qed.

Lemma lookup_update_next l v h p : p ∉ ptr <$> l → update_next l v h !! p = h !! p.
Proof.
  intros Hp. unfold update_next. destruct (last l) as [x|] eqn:E; [|done].
  apply lookup_alter_ne. intros <-. apply Hp, elem_of_ptrs.
  apply last_Some in E as [? ->]. set_solver.
Qed.
Lemma lookup_update_prev l v h p : p ∉ ptr <$> l → update_prev l v h !! p = h !! p.
Proof.
  intros Hp. unfold update_prev. destruct l as [|x l]; [done|].
  apply lookup_alter_ne. intros <-. by apply Hp; left.
Qed.

Lemma last_ptr_app_cons l1 x l2 o : last_ptr (l1 ++ x :: l2) o = last_ptr (x :: l2) None.
Proof. unfold last_ptr. rewrite last_app. by rewrite last_cons; destruct (last l2). Qed.

Lemma last_ptr_nonempty x l o o' : last_ptr (x :: l) o = last_ptr (x :: l) o'.
Proof. unfold last_ptr. rewrite last_cons. by destruct (last l). Qed.

(** [unlink] takes one entry out of the list; its node stays allocated. *)
Lemma unlink_spec sh l1 x l2 :
  links sh (l1 ++ x :: l2) →
  ∃ sh', unlink (ptr x) sh = Some sh' ∧ links sh' (l1 ++ l2) ∧ same_alloc sh sh'
    ∧ sh_heap sh' !! ptr x = Some (mkLruNode (key x) (age x) None None).
Proof.
  intros (Hd & Hnd & Hhead & Htail).
  apply dseg_app in Hd as [Hd1 [Hx Hd2]]. simpl in Hd1.
  rewrite fmap_app, fmap_cons in Hnd.
  apply NoDup_app in Hnd as (Hnd1 & Hdis & [Hx2 Hnd2]%NoDup_cons).
  assert (Hx1 : ptr x ∉ ptr <$> l1) by (intros ?; by eapply Hdis; [done|left]).
  assert (H12 : ∀ p, p ∈ ptr <$> l1 → p ∉ ptr <$> l2)
    by (intros p ? ?; by eapply Hdis; [done|right]).
  unfold unlink. rewrite Hx. cbn [mbind option_bind ln_prev ln_next].
  rewrite (write_next sh l1 _ Hd1). cbn [mbind option_bind].
  set (h1 := update_next l1 (first_ptr l2 None) (sh_heap sh)).
  assert (Hd2' : dseg h1 (Some (ptr x)) l2 None).
  { eapply dseg_frame, Hd2. intros y Hy. apply lookup_update_next.
    intros Hin. by eapply H12, elem_of_ptrs. }
  rewrite (write_prev (mkLruShard h1 _ _ _) l2 (Some (ptr x)) None Hd2').
  cbn [mbind option_bind sh_heap sh_map sh_head sh_tail].
  set (h2 := update_prev l2 (last_ptr l1 None) h1).
  assert (Hx' : h2 !! ptr x = Some (mkLruNode (key x) (age x) (last_ptr l1 None) (first_ptr l2 None))).
  { unfold h2. rewrite lookup_update_prev by done. unfold h1. by rewrite lookup_update_next. }
  rewrite (modify_alter _ _ (mkLruShard h2 _ _ _) _ Hx'). eexists. split; [done|].
  split_and!; [split_and!|split|]; cbn [with_heap sh_heap sh_map sh_head sh_tail].
  - apply dseg_frame_alter; [by rewrite fmap_app, elem_of_app; intros [?|?]|].
    apply dseg_app. split.
    + apply (dseg_frame h1); [|by eapply dseg_update_next].
      intros y Hy. apply lookup_update_prev. by apply H12, elem_of_ptrs.
    + by apply (dseg_update_prev h1 (Some (ptr x))).
  - rewrite fmap_app. apply NoDup_app. split_and!; [done|by apply H12|done].
  - rewrite Hhead, !first_ptr_app. by destruct l1.
  - rewrite Htail, last_ptr_app_cons. destruct l2 as [|z l2]; [by rewrite app_nil_r|].
    rewrite last_ptr_cons, last_ptr_app_cons. apply last_ptr_nonempty.
  - done.
  - rewrite dom_alter_L. unfold h2. rewrite dom_update_prev. unfold h1. apply dom_update_next.
  - rewrite lookup_alter_eq, Hx'. done.
Qed.

Lemma push_tail_spec sh l x n :
  links sh l → ptr x ∉ ptr <$> l → sh_heap sh !! ptr x = Some n →
  ln_digest n = key x → ln_timestamp n = age x →
  ∃ sh', push_tail (ptr x) sh = Some sh' ∧ links sh' (l ++ [x]) ∧ same_alloc sh sh'.
Proof.
  intros (Hd & Hnd & Hhead & Htail) Hnin Hn Hkey Hage.
  unfold push_tail. rewrite (modify_alter _ _ _ _ Hn). cbn [mbind option_bind sh_tail with_heap].
  set (f := λ n, set_next None (set_prev (sh_tail sh) n)).
  set (sh1 := with_heap sh (alter f (ptr x) (sh_heap sh))).
  assert (Hd1 : dseg (sh_heap sh1) None l None) by by apply dseg_frame_alter.
  rewrite Htail, (write_next sh1 l None Hd1). cbn [mbind option_bind sh_heap sh1 with_heap with_tail
    sh_map sh_head]. eexists. split; [done|].
  assert (Hx : alter f (ptr x) (sh_heap sh) !! ptr x
               = Some (mkLruNode (key x) (age x) (last_ptr l None) None)).
  { rewrite lookup_alter_eq, Hn. simpl. unfold f, set_next, set_prev. simpl.
    by rewrite Hkey, Hage, Htail. }
  split; [split_and!|split]; cbn [sh_heap sh_map sh_head sh_tail].
  - apply dseg_app. split; [by apply (dseg_update_next _ _ _ None)|].
    simpl. split; [|done]. by rewrite lookup_update_next.
  - rewrite fmap_app. apply NoDup_app. split_and!; [done| |apply NoDup_singleton].
    intros p Hp ->%list_elem_of_singleton. done.
  - rewrite Hhead, first_ptr_app. by destruct l.
  - by rewrite last_ptr_snoc.
  - done.
  - unfold sh1. cbn [with_heap sh_heap]. etransitivity; [apply dom_update_next|apply dom_alter_L].
Qed.

(** Changing a timestamp in place. *)
Lemma set_timestamp_spec sh l1 p d ts ts' l2 :
  links sh (l1 ++ (p, d, ts) :: l2) →
  ∃ sh', modify (set_timestamp ts') p sh = Some sh'
    ∧ links sh' (l1 ++ (p, d, ts') :: l2) ∧ same_alloc sh sh'.
Proof.
  intros (Hd & Hnd & Hhead & Htail).
  apply dseg_app in Hd as [Hd1 [Hx Hd2]]. simpl in Hx, Hd1, Hd2.
  rewrite (modify_alter _ _ _ _ Hx). eexists. split; [done|].
  pose proof Hnd as Hnd0. rewrite fmap_app, fmap_cons in Hnd.
  apply NoDup_app in Hnd as (Hnd1 & Hdis & [Hx2 Hnd2]%NoDup_cons).
  assert (Hx1 : p ∉ ptr <$> l1) by (intros ?; by eapply Hdis; [done|left]).
  split; [split_and!|split]; cbn [with_heap sh_heap sh_map sh_head sh_tail].
  - apply dseg_app. split; [by apply dseg_frame_alter|].
    simpl. split; [by rewrite lookup_alter_eq, Hx|by apply dseg_frame_alter].
  - by rewrite fmap_app in *.
  - by rewrite Hhead, !first_ptr_app.
  - rewrite Htail, !last_ptr_app_cons. by rewrite !last_ptr_cons.
  - done.
  - apply dom_alter_L.
Qed.

(** A shard represents the list [l]: its links, distinct digests, the map is the
    index of the list, and exactly the listed nodes are allocated. *)
Definition shard_repr (sh : LruShard) (l : list entry) : Prop :=
  links sh l ∧ NoDup (key <$> l)
  ∧ (∀ d p, sh_map sh !! d = Some p ↔ ∃ ts, (p, d, ts) ∈ l)
  ∧ (∀ p, p ∈ dom (sh_heap sh) ↔ p ∈ ptr <$> l).

(** Digests with their timestamps, oldest first: the abstract shard. *)
Abbreviation recency := (list (Digest * Z)).

Definition kv (x : entry) : Digest * Z := (key x, age x).

Definition shard_abs (sh : LruShard) (al : recency) : Prop :=
  ∃ l, shard_repr sh l ∧ al = kv <$> l.

Definition drop_key (d : Digest) (al : recency) : recency := filter (λ x, x.1 ≠ d) al.

Lemma drop_key_notin d al : d ∉ al.*1 → drop_key d al = al.
Proof.
  induction al as [|x al IH]; [done|]. rewrite fmap_cons, not_elem_of_cons. intros [Hx Hal].
  unfold drop_key. rewrite filter_cons_True by congruence. fold (drop_key d al). by rewrite IH.
Qed.

Lemma drop_key_app d al1 al2 : drop_key d (al1 ++ al2) = drop_key d al1 ++ drop_key d al2.
Proof. apply filter_app. Qed.

Lemma kv_keys l : (kv <$> l).*1 = key <$> l.
Proof. rewrite <-list_fmap_compose. done. Qed.

Lemma drop_key_split l1 p d ts l2 :
  NoDup (key <$> l1 ++ (p, d, ts) :: l2) →
  drop_key d (kv <$> l1 ++ (p, d, ts) :: l2) = kv <$> l1 ++ l2.
Proof.
  rewrite !fmap_app, fmap_cons. intros (Hnd1 & Hdis & [Hx Hnd2]%NoDup_cons)%NoDup_app.
  rewrite drop_key_app, fmap_cons. unfold drop_key at 2. rewrite filter_cons_False by auto.
  fold (drop_key d (kv <$> l2)). rewrite !drop_key_notin; rewrite ?kv_keys; [done|done|].
  intros Hin. eapply Hdis; [done|left].
Qed.

Lemma shard_repr_map sh l d :
  shard_repr sh l →
  match sh_map sh !! d with
  | Some p => ∃ l1 ts l2, l = l1 ++ (p, d, ts) :: l2
  | None => d ∉ key <$> l
  end.
Proof.
  intros (_ & _ & Hmap & _). destruct (sh_map sh !! d) as [p|] eqn:E.
  - apply Hmap in E as [ts Hin]. apply list_elem_of_split in Hin as (l1 & l2 & ->). eauto.
  - intros Hin. apply list_elem_of_fmap in Hin as ([[p d'] ts] & Hk & Hin). unfold key in Hk. simpl in Hk. subst d'.
    assert (sh_map sh !! d = Some p) by (apply Hmap; eauto). congruence.
Qed.

(** Moving one entry to the end of the list keeps the index. *)
Lemma shard_repr_move sh sh' l1 p d ts ts' l2 :
  shard_repr sh (l1 ++ (p, d, ts) :: l2) →
  links sh' ((l1 ++ l2) ++ [(p, d, ts')]) → same_alloc sh sh' →
  shard_repr sh' ((l1 ++ l2) ++ [(p, d, ts')]).
Proof.
  intros (_ & Hnd & Hmap & Hdom) Hlinks [Hm Hh].
  assert (Hperm : ∀ B (f : entry → B), f (p, d, ts') = f (p, d, ts) →
            f <$> (l1 ++ l2) ++ [(p, d, ts')] ≡ₚ f <$> l1 ++ (p, d, ts) :: l2).
  { intros B f Hf. rewrite <-!Permutation_middle, (Permutation_app_comm (l1 ++ l2)). simpl.
    by rewrite Hf. }
  split_and!; [done| | |].
  - by rewrite (Hperm _ key).
  - intros d' p'. rewrite Hm, Hmap.
    assert (∀ l : list entry, (∃ ts0, (p', d', ts0) ∈ l) ↔ (p', d') ∈ (λ x : entry, (ptr x, key x)) <$> l) as Hequiv.
    { intros l. rewrite list_elem_of_fmap. split.
      { intros [t Hin]. by exists (p', d', t). }
      intros ([[? ?] ?] & ? & Hin). simplify_eq. eauto. }
    by rewrite !Hequiv, (Hperm _ (λ x : entry, (ptr x, key x))).
  - intros q. by rewrite Hh, Hdom, (Hperm _ ptr).
Qed.

Lemma refresh_spec sh l1 p d ts ts' l2 :
  shard_repr sh (l1 ++ (p, d, ts) :: l2) →
  ∃ sh', refresh p ts' sh = Some sh' ∧ shard_repr sh' ((l1 ++ l2) ++ [(p, d, ts')]).
Proof.
  intros Hr. pose proof Hr as (Hl & _). unfold refresh.
  destruct (set_timestamp_spec sh l1 p d ts ts' l2 Hl) as (sh1 & E1 & Hl1 & Ha1).
  rewrite E1. cbn [mbind option_bind].
  destruct (unlink_spec sh1 l1 (p, d, ts') l2 Hl1) as (sh2 & E2 & Hl2 & Ha2 & Hx).
  change (ptr (p, d, ts')) with p in *. rewrite E2. cbn [mbind option_bind].
  destruct (push_tail_spec sh2 (l1 ++ l2) (p, d, ts') (mkLruNode d ts' None None) Hl2) as (sh3 & E3 & Hl3 & Ha3);
    [|done|done|done|].
  - destruct Hl1 as (_ & Hnd & _). rewrite fmap_app, fmap_cons in Hnd.
    rewrite <-Permutation_middle in Hnd. apply NoDup_cons in Hnd as [? _]. by rewrite fmap_app.
  - exists sh3. split; [done|]. eapply shard_repr_move; [done..|].
    eauto using same_alloc_trans.
Qed.

(* ------------------------------------------------------------------ *)
(** ** The shard operations implement the list operations *)

Lemma shard_insert_spec sh al d ts :
  shard_abs sh al →
  ∃ sh', LruShard_insert d ts sh = Some sh' ∧ shard_abs sh' (drop_key d al ++ [(d, ts)]).
Proof.
  intros (l & Hr & ->). unfold LruShard_insert. pose proof (shard_repr_map sh l d Hr) as Hm.
  destruct (sh_map sh !! d) as [p|] eqn:E.
  - destruct Hm as (l1 & ts0 & l2 & ->).
    destruct (refresh_spec sh l1 p d ts0 ts l2 Hr) as (sh' & -> & Hr').
    exists sh'. split; [done|]. eexists. split; [done|].
    rewrite drop_key_split by apply Hr. by rewrite (fmap_app kv (l1 ++ l2)).
  - destruct Hr as (Hl & Hnd & Hmap & Hdom).
    set (p := fresh (dom (sh_heap sh))).
    assert (Hp : p ∉ dom (sh_heap sh)) by apply is_fresh.
    assert (Hpl : p ∉ ptr <$> l) by by rewrite <-Hdom.
    set (sh1 := with_heap sh (<[p := mkLruNode d ts None None]> (sh_heap sh))).
    assert (Hl1 : links sh1 l).
    { destruct Hl as (Hd & ? & ? & ?). split_and!; try done. eapply dseg_frame, Hd.
      intros x Hx. apply lookup_insert_ne. intros ->. by apply Hpl, elem_of_ptrs. }
    destruct (push_tail_spec sh1 l (p, d, ts) (mkLruNode d ts None None) Hl1)
      as (sh2 & E2 & Hl2 & [Hm2 Hh2]); [done|apply lookup_insert_eq|done|done|].
    change (ptr (p, d, ts)) with p in E2. rewrite E2. cbn [mbind option_bind].
    eexists. split; [done|]. exists (l ++ [(p, d, ts)]). split.
    2: { rewrite drop_key_notin by by rewrite kv_keys. by rewrite fmap_app. }
    split_and!.
    + done.
    + rewrite fmap_app. apply NoDup_app. split_and!; [done| |apply NoDup_singleton].
      intros d' Hd' ->%list_elem_of_singleton. done.
    + intros d' p'. simpl. rewrite Hm2. simpl. rewrite lookup_insert_Some. setoid_rewrite elem_of_app.
      setoid_rewrite list_elem_of_singleton. split.
      * intros [[<- <-]|[Hne [ts' Hin]%Hmap]]; eauto.
      * intros [ts' [Hin|?]]; [right|left; naive_solver]. split; [|apply Hmap; eauto].
        intros <-. apply Hm. apply list_elem_of_fmap. by exists (p', d, ts').
    + intros q. simpl. rewrite Hh2. simpl. rewrite dom_insert_L, fmap_app, elem_of_app, <-Hdom.
      set_solver.
Qed.

Lemma shard_touch_spec sh al d ts :
  shard_abs sh al →
  ∃ sh', LruShard_touch d ts sh = Some (bool_decide (d ∈ al.*1), sh')
    ∧ shard_abs sh' (if bool_decide (d ∈ al.*1) then drop_key d al ++ [(d, ts)] else al).
Proof.
  intros (l & Hr & ->). unfold LruShard_touch. pose proof (shard_repr_map sh l d Hr) as Hm.
  rewrite kv_keys. destruct (sh_map sh !! d) as [p|] eqn:E.
  - destruct Hm as (l1 & ts0 & l2 & ->).
    destruct (refresh_spec sh l1 p d ts0 ts l2 Hr) as (sh' & -> & Hr').
    rewrite bool_decide_true by (rewrite fmap_app; set_solver).
    exists sh'. split; [done|]. eexists. split; [done|].
    rewrite drop_key_split by apply Hr. by rewrite (fmap_app kv (l1 ++ l2)).
  - rewrite bool_decide_false by done. exists sh. split; [done|]. by exists l.
Qed.

(** Unlinking and freeing an entry. *)
Lemma unlink_free_spec sh l1 p d ts l2 m :
  shard_repr sh (l1 ++ (p, d, ts) :: l2) →
  m = delete d (sh_map sh) →
  ∃ sh1 sh2, unlink p sh = Some sh1 ∧ free p (with_map sh1 m) = Some sh2
    ∧ shard_repr sh2 (l1 ++ l2).
Proof.
  intros (Hl & Hnd & Hmap & Hdom) ->.
  destruct (unlink_spec sh l1 (p, d, ts) l2 Hl) as (sh1 & E1 & Hl1 & [Hm1 Hh1] & Hx).
  change (ptr (p, d, ts)) with p in *. exists sh1. unfold free. simpl. rewrite Hx. simpl.
  eexists. split; [done|]. split; [done|].
  destruct Hl as (_ & Hndp & _). rewrite <-Permutation_middle in Hnd, Hndp.
  rewrite fmap_cons in Hnd. rewrite fmap_cons in Hndp.
  apply NoDup_cons in Hnd as [Hd Hnd]. apply NoDup_cons in Hndp as [Hp Hndp].
  change (key (p, d, ts)) with d in Hd. change (ptr (p, d, ts)) with p in Hp.
  split_and!.
  - destruct Hl1 as (Hd1 & ? & ? & ?). split_and!; try done. simpl.
    eapply dseg_frame, Hd1. intros x Hx'. apply lookup_delete_ne.
    intros ->. by apply Hp, elem_of_ptrs.
  - done.
  - intros d' p'. simpl. rewrite lookup_delete_Some, Hmap. setoid_rewrite elem_of_app.
    setoid_rewrite elem_of_cons. split.
    + intros [Hne [ts' Hin]]. exists ts'. naive_solver.
    + intros [ts' Hin]. split; [|exists ts'; tauto].
      intros <-. apply Hd, list_elem_of_fmap. exists (p', d, ts'). by rewrite elem_of_app.
  - intros q. simpl. rewrite dom_delete_L, Hh1, elem_of_difference, Hdom.
    rewrite fmap_app, fmap_app, fmap_cons, !elem_of_app, elem_of_cons, elem_of_singleton.
    change (ptr (p, d, ts)) with p. rewrite fmap_app, elem_of_app in Hp. naive_solver.
Qed.

(** [unlink] does not look at the map. *)
Lemma modify_with_map f p sh m :
  modify f p (with_map sh m) = (λ s, with_map s m) <$> modify f p sh.
Proof. unfold modify. simpl. by destruct (sh_heap sh !! p). Qed.

Lemma bind_with_map {sh m} (o : option LruShard) (k : LruShard → option LruShard) :
  sh = (λ s, with_map s m) <$> o →
  (∀ s, k (with_map s m) = (λ s, with_map s m) <$> k s) →
  (sh ≫= k) = (λ s, with_map s m) <$> (o ≫= k).
Proof. intros -> Hk. destruct o; [apply Hk|done]. Qed.

Lemma unlink_with_map p sh m :
  unlink p (with_map sh m) = (λ s, with_map s m) <$> unlink p sh.
Proof.
  unfold unlink. simpl. destruct (sh_heap sh !! p) as [n|]; [|done]. cbn [mbind option_bind].
  apply bind_with_map; [destruct (ln_prev n); [apply modify_with_map|done]|]. intros s.
  apply bind_with_map; [destruct (ln_next n); [apply modify_with_map|done]|]. intros s'.
  apply modify_with_map.
Qed.

Lemma shard_remove_spec sh al d :
  shard_abs sh al →
  ∃ sh', LruShard_remove d sh = Some (bool_decide (d ∈ al.*1), sh') ∧ shard_abs sh' (drop_key d al).
Proof.
  intros (l & Hr & ->). unfold LruShard_remove. pose proof (shard_repr_map sh l d Hr) as Hm.
  rewrite kv_keys. destruct (sh_map sh !! d) as [p|] eqn:E.
  - destruct Hm as (l1 & ts & l2 & ->).
    destruct (unlink_free_spec sh l1 p d ts l2 _ Hr eq_refl) as (sh1 & sh2 & E1 & E2 & Hr2).
    rewrite unlink_with_map, E1. cbn [fmap option_fmap option_map mbind option_bind]. rewrite E2.
    rewrite bool_decide_true by (rewrite fmap_app; set_solver).
    exists sh2. split; [done|]. eexists. split; [done|]. by rewrite drop_key_split by apply Hr.
  - rewrite bool_decide_false by done. exists sh. split; [done|]. exists l.
    by rewrite drop_key_notin by by rewrite kv_keys.
Qed.

Lemma shard_head_spec sh al :
  shard_abs sh al → head_timestamp sh = Some (snd <$> head al).
Proof.
  intros (l & ((Hd & _ & Hhead & _) & _) & ->). unfold head_timestamp. rewrite Hhead.
  destruct l as [|x l]; [done|]. simpl in *. by destruct Hd as [-> _].
Qed.

Lemma shard_pop_spec sh al :
  shard_abs sh al →
  ∃ sh', pop_head sh = Some (fst <$> head al, sh') ∧ shard_abs sh' (tail al).
Proof.
  intros (l & Hr & ->). pose proof Hr as ((Hd & _ & Hhead & _) & _). unfold pop_head. rewrite Hhead.
  destruct l as [|[[p d] ts] l]; simpl.
  - exists sh. split; [done|]. by exists [].
  - destruct Hd as [Hx _]. change (ptr (p, d, ts)) with p in *. rewrite Hx. simpl.
    change (key (p, d, ts)) with d.
    destruct (unlink_free_spec sh [] p d ts l _ Hr eq_refl) as (sh1 & sh2 & E1 & E2 & Hr2).
    destruct (unlink_spec sh [] (p, d, ts) l) as (sh1' & E1' & _ & [Hm _] & _); [apply Hr|].
    change (ptr (p, d, ts)) with p in E1'. rewrite E1 in *. simplify_eq. simpl.
    rewrite Hm, E2. exists sh2. split; [done|]. by eexists.
Qed.

Lemma shard_len_spec sh al : shard_abs sh al → LruShard_len sh = length al.
Proof.
  intros (l & (_ & Hnd & Hmap & _) & ->). unfold LruShard_len. rewrite length_fmap.
  assert (sh_map sh = list_to_map ((λ x, (key x, ptr x)) <$> l)) as ->.
  { apply map_eq. intros d. apply option_eq. intros p. rewrite Hmap.
    rewrite <-elem_of_list_to_map.
    - rewrite list_elem_of_fmap. split.
      + intros [ts Hin]. by exists (p, d, ts).
      + intros ([[p' d'] ts] & ? & ?). unfold key, ptr in *. simplify_eq/=. eauto.
    - rewrite <-list_fmap_compose. done. }
  rewrite map_size_list_to_map; [by rewrite length_fmap|]. rewrite <-list_fmap_compose. done.
Qed.

(* ------------------------------------------------------------------ *)
(** ** The sharded tracker refines one recency list *)

(** The part of the global list that lives in shard [i]. *)
Definition in_shard (i : nat) (L : recency) : recency := filter (λ x, shard_index x.1 = i) L.

Definition lru_repr (lru : ShardedLru) (L : recency) : Prop :=
  length (shards lru) = N_SHARDS
  ∧ (∀ i sh, shards lru !! i = Some sh → shard_abs sh (in_shard i L))
  ∧ StronglySorted (λ x y, x.2 < y.2) L
  ∧ NoDup L.*1
  ∧ Forall (λ x, x.2 < clock lru) L
  ∧ 0 ≤ clock lru.

Lemma shard_index_lt d : (shard_index d < N_SHARDS)%nat.
Proof. apply Nat.mod_upper_bound. done. Qed.

Lemma in_shard_drop_key i d L : in_shard i (drop_key d L) = drop_key d (in_shard i L).
Proof.
  unfold in_shard, drop_key. rewrite !list_filter_filter. apply list_filter_iff. tauto.
Qed.

Lemma in_shard_drop_other i d L : i ≠ shard_index d → drop_key d (in_shard i L) = in_shard i L.
Proof.
  intros Hi. apply drop_key_notin. intros Hin. apply list_elem_of_fmap in Hin as (x & -> & Hx).
  apply list_elem_of_filter in Hx as [Hx _]. done.
Qed.

Lemma in_shard_snoc i d ts L :
  in_shard i (L ++ [(d, ts)]) =
  if decide (i = shard_index d) then in_shard i L ++ [(d, ts)] else in_shard i L.
Proof.
  unfold in_shard. rewrite filter_app. case_decide; subst.
  - by rewrite filter_cons_True, filter_nil.
  - rewrite filter_cons_False, filter_nil, app_nil_r; [done|]. simpl. congruence.
Qed.

Lemma StronglySorted_snoc {A} (R : A → A → Prop) l x :
  StronglySorted R l → Forall (λ y, R y x) l → StronglySorted R (l ++ [x]).
Proof.
  induction 1 as [|y l Hs IH Hy]; intros HF; simpl; [repeat constructor|].
  apply Forall_cons in HF as [Hyx HF]. constructor; [by apply IH|].
  apply Forall_app. split; [done|]. by constructor.
Qed.

Lemma drop_key_elem d x L : x ∈ drop_key d L ↔ x ∈ L ∧ x.1 ≠ d.
Proof. unfold drop_key. rewrite list_elem_of_filter. tauto. Qed.

Lemma drop_key_keys d L : (drop_key d L).*1 = filter (λ d', d' ≠ d) L.*1.
Proof.
  induction L as [|x L IH]; [done|]. unfold drop_key in *.
  rewrite fmap_cons, !filter_cons. case_decide; [|done]. by rewrite fmap_cons, IH.
Qed.

Lemma NoDup_drop_key d L : NoDup L.*1 → NoDup (drop_key d L).*1.
Proof. rewrite drop_key_keys. apply NoDup_filter. Qed.

Lemma Forall_drop_key (P : Digest * Z → Prop) d L : Forall P L → Forall P (drop_key d L).
Proof. rewrite !Forall_forall. intros H x [Hx _]%drop_key_elem. by apply H. Qed.

(** Refreshing [d] in the global list. *)
Lemma lru_repr_refresh lru L d sh :
  lru_repr lru L → clock lru < u64_max →
  shard_abs sh (drop_key d (in_shard (shard_index d) L) ++ [(d, clock lru)]) →
  lru_repr (with_shard (snd (next_timestamp lru)) (shard_index d) sh) (drop_key d L ++ [(d, clock lru)]).
Proof.
  intros (Hlen & Hsh & Hsort & Hnd & Hts & Hc) Hmax Hnew. unfold next_timestamp. simpl.
  rewrite u64_wrap_small by lia. split_and!; simpl.
  - by rewrite length_insert.
  - intros i sh' Hi. rewrite in_shard_snoc, in_shard_drop_key. case_decide as E.
    + subst i. rewrite list_lookup_insert_eq in Hi by (rewrite Hlen; apply shard_index_lt).
      by simplify_eq.
    + rewrite list_lookup_insert_ne in Hi by done.
      rewrite in_shard_drop_other by done. by apply Hsh.
  - apply StronglySorted_snoc; [by apply StronglySorted_filter|]. by apply Forall_drop_key.
  - rewrite fmap_app. apply NoDup_app. split_and!; [by apply NoDup_drop_key| |apply NoDup_singleton].
    intros d' Hd' ->%list_elem_of_singleton. rewrite drop_key_keys in Hd'.
    by apply list_elem_of_filter in Hd' as [? _].
  - apply Forall_app. split; [|repeat constructor; simpl; lia].
    apply Forall_drop_key. eapply Forall_impl; [done|]. simpl. lia.
  - lia.
Qed.

(** The clock advances but nothing is refreshed. *)
Lemma lru_repr_same lru L i sh c :
  lru_repr lru L → clock lru ≤ c → shard_abs sh (in_shard i L) →
  lru_repr (mkShardedLru (<[i := sh]> (shards lru)) (lru_capacity lru) c) L.
Proof.
  intros (Hlen & Hsh & Hsort & Hnd & Hts & Hc) Hle Hnew. split_and!; simpl; try done; try lia.
  - by rewrite length_insert.
  - intros j sh'. intros [(<- & <- & ?)|[? ?]]%list_lookup_insert_Some; [done|by apply Hsh].
  - eapply Forall_impl; [done|]. simpl. lia.
Qed.

Lemma lru_shard lru L d :
  lru_repr lru L →
  ∃ sh, shards lru !! shard_index d = Some sh ∧ shard_abs sh (in_shard (shard_index d) L).
Proof.
  intros (Hlen & Hsh & _).
  destruct (lookup_lt_is_Some_2 (shards lru) (shard_index d)) as [sh Hi];
    [rewrite Hlen; apply shard_index_lt|]. eauto.
Qed.

Lemma in_shard_key d L : d ∈ (in_shard (shard_index d) L).*1 ↔ d ∈ L.*1.
Proof.
  unfold in_shard. rewrite !list_elem_of_fmap. split.
  - intros (x & -> & [_ Hx]%list_elem_of_filter). eauto.
  - intros (x & -> & Hx). exists x. split; [done|]. by apply list_elem_of_filter.
Qed.

Lemma lru_insert_refines lru L d :
  lru_repr lru L → clock lru < u64_max →
  ∃ lru', ShardedLru_insert d lru = Some lru' ∧ clock lru' ≤ clock lru + 1
    ∧ lru_repr lru' (drop_key d L ++ [(d, clock lru)]).
Proof.
  intros Hr Hmax. destruct (lru_shard lru L d Hr) as (sh & Hi & Habs).
  destruct (shard_insert_spec sh _ d (clock lru) Habs) as (sh' & E & Habs').
  unfold ShardedLru_insert, next_timestamp. cbn [shards]. rewrite Hi. simpl. rewrite E. simpl.
  eexists. split; [done|]. destruct Hr as (Hr1 & Hr2 & Hr3 & Hr4 & Hr5 & Hr6).
  split; [simpl; rewrite u64_wrap_small by lia; lia|]. by apply (lru_repr_refresh lru L d sh').
Qed.

Lemma lru_touch_refines lru L d :
  lru_repr lru L → clock lru < u64_max →
  ∃ lru', ShardedLru_touch d lru = Some lru' ∧ clock lru' ≤ clock lru + 1
    ∧ lru_repr lru' (if bool_decide (d ∈ L.*1) then drop_key d L ++ [(d, clock lru)] else L).
Proof.
  intros Hr Hmax. destruct (lru_shard lru L d Hr) as (sh & Hi & Habs).
  destruct (shard_touch_spec sh _ d (clock lru) Habs) as (sh' & E & Habs').
  pose proof Hr as (_ & _ & _ & _ & _ & Hc).
  unfold ShardedLru_touch, next_timestamp. cbn [shards]. rewrite Hi. simpl. rewrite E. simpl.
  eexists. split; [done|]. split; [simpl; rewrite u64_wrap_small by lia; lia|].
  rewrite (bool_decide_ext _ _ (in_shard_key d L)) in Habs'.
  destruct (bool_decide (d ∈ L.*1)).
  - by apply (lru_repr_refresh lru L d sh').
  - apply (lru_repr_same lru L (shard_index d) sh'); [done| |done]. simpl. rewrite u64_wrap_small by lia. lia.
Qed.

Lemma lru_remove_refines lru L d :
  lru_repr lru L →
  ∃ lru', ShardedLru_remove d lru = Some lru' ∧ clock lru' = clock lru
    ∧ lru_repr lru' (drop_key d L).
Proof.
  intros Hr. destruct (lru_shard lru L d Hr) as (sh & Hi & Habs).
  destruct (shard_remove_spec sh _ d Habs) as (sh' & E & Habs').
  unfold ShardedLru_remove. rewrite Hi. simpl. rewrite E. simpl.
  eexists. split; [done|]. split; [done|].
  destruct Hr as (Hlen & Hsh & Hsort & Hnd & Hts & Hc). split_and!; simpl; try done.
  - by rewrite length_insert.
  - intros i sh0 [(<- & <- & ?)|[? Hi']]%list_lookup_insert_Some; rewrite in_shard_drop_key; [done|].
    rewrite in_shard_drop_other by done. by apply Hsh.
  - by apply StronglySorted_filter.
  - by apply NoDup_drop_key.
  - by apply Forall_drop_key.
Qed.

(** The scan of [evict_oldest] picks the shard whose head is older than every
    other head. *)
Lemma oldest_loop_min shs : ∀ i o ts j t0,
  (∃ sh, shs !! j = Some sh ∧ head_timestamp sh = Some (Some t0)) →
  (∀ k sh, shs !! k = Some sh →
     ∃ ht, head_timestamp sh = Some ht ∧ (k ≠ j → ∀ t, ht = Some t → t0 < t)) →
  t0 < ts →
  oldest_loop shs i o ts = Some (Some (i + j)%nat).
Proof.
  assert (Hrest : ∀ shs i o t0,
    (∀ k sh, shs !! k = Some sh → ∃ ht, head_timestamp sh = Some ht ∧ ∀ t, ht = Some t → t0 < t) →
    oldest_loop shs i o t0 = Some o).
  { induction shs0 as [|sh shs0 IH]; intros i o t0 Hall; [done|]. simpl.
    destruct (Hall O sh eq_refl) as (ht & -> & Ht). simpl.
    destruct ht as [t|]; [|apply IH; intros k; apply (Hall (S k))].
    specialize (Ht t eq_refl). rewrite (proj2 (Z.ltb_ge _ _)) by lia.
    apply IH. intros k. apply (Hall (S k)). }
  induction shs as [|sh shs IH]; intros i o ts j t0 (shj & Hj & Hhj) Hall Hlt; [done|].
  destruct j as [|j]; simpl.
  - simpl in Hj. simplify_eq. rewrite Hhj. simpl. rewrite (proj2 (Z.ltb_lt _ _)) by done.
    rewrite Hrest; [do 2 f_equal; lia|]. intros k sh' Hk.
    destruct (Hall (S k) sh' Hk) as (ht & ? & Ht). exists ht. split; [done|]. by apply Ht.
  - destruct (Hall O sh eq_refl) as (ht & -> & Ht). simpl.
    assert (Hnext : ∀ k sh', shs !! k = Some sh' →
      ∃ ht, head_timestamp sh' = Some ht ∧ (k ≠ j → ∀ t, ht = Some t → t0 < t)).
    { intros k sh' Hk. destruct (Hall (S k) sh' Hk) as (ht' & ? & Ht').
      exists ht'. split; [done|]. intros Hkj. apply Ht'. lia. }
    replace (i + S j)%nat with (S i + j)%nat by lia.
    destruct ht as [t|]; [case_if|]; (eapply IH; [by exists shj|done|]); [|done..].
    by apply Ht.
Qed.

Lemma oldest_loop_none shs : ∀ i o ts,
  Forall (λ sh, head_timestamp sh = Some None) shs → oldest_loop shs i o ts = Some o.
Proof.
  induction shs as [|sh shs IH]; intros i o ts; [done|].
  intros [Hsh Hall]%Forall_cons. simpl. rewrite Hsh. simpl. by apply IH.
Qed.

Lemma StronglySorted_head (L : recency) x y :
  StronglySorted (λ x y, x.2 < y.2) (x :: L) → y ∈ L → x.2 < y.2.
Proof. intros Hs Hy. apply StronglySorted_inv in Hs as [_ HF]. rewrite Forall_forall in HF. by apply HF. Qed.

Lemma head_elem {A} (l : list A) x : head l = Some x → x ∈ l.
Proof. destruct l; [done|]. intros [= ->]. left. Qed.

Lemma lru_evict_refines lru L :
  lru_repr lru L → clock lru ≤ u64_max →
  ∃ lru', ShardedLru_evict_oldest lru = Some (fst <$> head L, lru') ∧ clock lru' = clock lru
    ∧ lru_repr lru' (tail L).
Proof.
  intros Hr Hmax. pose proof Hr as (Hlen & Hsh & Hsort & Hnd & Hts & Hc).
  unfold ShardedLru_evict_oldest. destruct L as [|[d0 t0] L].
  - rewrite oldest_loop_none.
    + exists lru. done.
    + apply Forall_forall. intros sh [i Hi]%list_elem_of_lookup. by apply (shard_head_spec sh []), (Hsh i).
  - destruct (lru_shard lru _ d0 Hr) as (sh0 & Hi0 & Habs0).
    assert (Hin0 : in_shard (shard_index d0) ((d0, t0) :: L) = (d0, t0) :: in_shard (shard_index d0) L)
      by (unfold in_shard; by rewrite filter_cons_True).
    assert (Hscan : oldest_loop (shards lru) 0 None u64_max = Some (Some (0 + shard_index d0)%nat)).
    { apply (oldest_loop_min _ _ _ _ _ t0).
      - exists sh0. split; [done|]. rewrite (shard_head_spec sh0 _ Habs0), Hin0. done.
      - intros k sh Hk. eexists. split; [apply (shard_head_spec _ _ (Hsh k sh Hk))|].
        intros Hne t Ht. unfold in_shard in Ht. rewrite filter_cons_False in Ht by (simpl; congruence).
        destruct (head _) as [y|] eqn:E; [|done]. simpl in Ht. simplify_eq.
        apply head_elem, list_elem_of_filter in E as [_ Hy].
        apply (StronglySorted_head _ _ _ Hsort Hy).
      - apply Forall_cons in Hts as [Ht0 _]. simpl in Ht0. lia. }
    rewrite Hscan. simpl. rewrite Hi0. simpl. rewrite Hin0 in Habs0.
    destruct (shard_pop_spec sh0 _ Habs0) as (sh' & E & Habs'). rewrite E. simpl.
    eexists. split; [done|]. split; [done|]. simpl in Habs'.
    apply Forall_cons in Hts as [_ Hts]. apply NoDup_cons in Hnd as [Hd0 Hnd].
    apply StronglySorted_inv in Hsort as [Hsort _].
    split_and!; simpl; try done.
    + by rewrite length_insert.
    + intros i sh [(<- & <- & ?)|[Hne Hi]]%list_lookup_insert_Some; [done|].
      apply Hsh in Hi. unfold in_shard in Hi. rewrite filter_cons_False in Hi by (simpl; congruence).
      done.
Qed.

(** Counting by shards: every digest is in exactly one of them. *)
Lemma sum_indicator n k :
  sum_list_with (λ i, if decide (k = i) then 1 else 0)%nat (seq 0 n)
  = (if decide (k < n) then 1 else 0)%nat.
Proof.
  induction n as [|n IH]; [done|]. rewrite seq_S, sum_list_with_app, IH. simpl.
  repeat case_decide; lia.
Qed.

Lemma sum_list_with_add {A} (f g : A → nat) l :
  sum_list_with (λ i, f i + g i)%nat l = (sum_list_with f l + sum_list_with g l)%nat.
Proof. induction l as [|x l IH]; simpl; [done|]. rewrite IH. lia. Qed.

Lemma sum_list_with_ext {A} (f g : A → nat) l :
  (∀ x, f x = g x) → sum_list_with f l = sum_list_with g l.
Proof. intros H. induction l as [|x l IH]; simpl; [done|]. by rewrite H, IH. Qed.

Lemma sum_in_shards (L : recency) :
  sum_list_with (λ i, length (in_shard i L)) (seq 0 N_SHARDS) = length L.
Proof.
  induction L as [|x L IH].
  - unfold in_shard. rewrite (sum_list_with_ext _ (λ _, 0%nat)) by done.
    generalize (seq 0 N_SHARDS). induction l; simpl; [done|]. by rewrite IHl.
  - rewrite (sum_list_with_ext _
      (λ i, length (in_shard i L) + if decide (shard_index x.1 = i) then 1 else 0)%nat).
    + rewrite sum_list_with_add, IH, sum_indicator.
      rewrite decide_True by apply shard_index_lt. simpl. lia.
    + intros i. unfold in_shard. rewrite filter_cons. case_decide; simpl; lia.
Qed.

Lemma lru_len_refines lru L : lru_repr lru L → ShardedLru_len lru = Z.of_nat (length L).
Proof.
  intros (Hlen & Hsh & _). unfold ShardedLru_len. f_equal. rewrite <-sum_in_shards.
  assert (LruShard_len <$> shards lru = (λ i, length (in_shard i L)) <$> seq 0 N_SHARDS) as ->.
  { apply list_eq. intros i. rewrite !list_lookup_fmap.
    destruct (shards lru !! i) as [sh|] eqn:E.
    - apply lookup_lt_Some in E as Hlt. rewrite Hlen in Hlt.
      rewrite lookup_seq_lt by done. simpl. f_equal. by apply shard_len_spec, Hsh.
    - apply lookup_ge_None in E. rewrite lookup_seq_ge by lia. done. }
  generalize (seq 0 N_SHARDS). intros l. induction l as [|k l IH]; [done|].
  rewrite fmap_cons. simpl. by rewrite IH.
Qed.

(* ------------------------------------------------------------------ *)
(** ** Traces *)

(** The reference tracker: digests in order of last use, oldest first. *)
Inductive lru_op : Set :=
| LInsert (d : Digest)
| LTouch (d : Digest)
| LRemove (d : Digest)
| LEvict.

Definition drop_digest (d : Digest) (ds : list Digest) : list Digest := filter (λ d', d' ≠ d) ds.

Definition lru_spec (o : lru_op) (ds : list Digest) : option Digest * list Digest :=
  match o with
  | LInsert d => (None, drop_digest d ds ++ [d])
  | LTouch d => (None, if bool_decide (d ∈ ds) then drop_digest d ds ++ [d] else ds)
  | LRemove d => (None, drop_digest d ds)
  | LEvict => (head ds, tail ds)
  end.

Definition lru_exec (o : lru_op) (lru : ShardedLru) : option (option Digest * ShardedLru) :=
  match o with
  | LInsert d => pair None <$> ShardedLru_insert d lru
  | LTouch d => pair None <$> ShardedLru_touch d lru
  | LRemove d => pair None <$> ShardedLru_remove d lru
  | LEvict => ShardedLru_evict_oldest lru
  end.

Fixpoint lru_spec_run (ops : list lru_op) (ds : list Digest) : list (option Digest) * list Digest :=
  match ops with
  | [] => ([], ds)
  | o :: ops => let '(x, ds1) := lru_spec o ds in
                let '(xs, ds2) := lru_spec_run ops ds1 in (x :: xs, ds2)
  end.

Fixpoint lru_run (ops : list lru_op) (lru : ShardedLru)
    : option (list (option Digest) * ShardedLru) :=
  match ops with
  | [] => Some ([], lru)
  | o :: ops => '(x, lru1) ← lru_exec o lru;
                '(xs, lru2) ← lru_run ops lru1; Some (x :: xs, lru2)
  end.

Lemma tail_fmap {A B} (f : A → B) l : f <$> tail l = tail (f <$> l).
Proof. by destruct l. Qed.
Lemma head_fmap {A B} (f : A → B) l : f <$> head l = head (f <$> l).
Proof. by destruct l. Qed.

Lemma lru_exec_refines o lru L :
  lru_repr lru L → clock lru < u64_max →
  ∃ x lru' L', lru_exec o lru = Some (x, lru') ∧ lru_spec o L.*1 = (x, L'.*1)
    ∧ clock lru' ≤ clock lru + 1 ∧ lru_repr lru' L'.
Proof.
  intros Hr Hmax. destruct o as [d|d|d|]; unfold lru_exec, lru_spec, drop_digest.
  - destruct (lru_insert_refines lru L d Hr Hmax) as (lru' & -> & Hc & Hr').
    eexists _, _, _. split_and!; [done| |done|done]. by rewrite fmap_app, drop_key_keys.
  - destruct (lru_touch_refines lru L d Hr Hmax) as (lru' & -> & Hc & Hr').
    eexists _, _, _. split_and!; [done| |done|done].
    case_bool_decide; [|done]. by rewrite fmap_app, drop_key_keys.
  - destruct (lru_remove_refines lru L d Hr) as (lru' & -> & Hc & Hr').
    eexists _, _, _. split_and!; [done| |lia|done]. by rewrite drop_key_keys.
  - destruct (lru_evict_refines lru L Hr) as (lru' & -> & Hc & Hr'); [lia|].
    eexists _, _, _. split_and!; [done| |lia|done]. by rewrite tail_fmap, head_fmap.
Qed.

Lemma lru_run_refines ops : ∀ lru L,
  lru_repr lru L → clock lru + Z.of_nat (length ops) ≤ u64_max →
  ∃ xs lru' L', lru_run ops lru = Some (xs, lru') ∧ lru_spec_run ops L.*1 = (xs, L'.*1)
    ∧ lru_repr lru' L'.
Proof.
  induction ops as [|o ops IH]; intros lru L Hr Hmax.
  - by exists [], lru, L.
  - cbn [length] in Hmax.
    destruct (lru_exec_refines o lru L Hr ltac:(lia)) as (x & lru1 & L1 & E1 & S1 & Hc & Hr1).
    destruct (IH lru1 L1 Hr1 ltac:(lia)) as (xs & lru2 & L2 & E2 & S2 & Hr2).
    exists (x :: xs), lru2, L2. simpl. rewrite E1, S1. simpl. rewrite E2, S2. done.
Qed.

Lemma lru_repr_new cap : lru_repr (ShardedLru_new cap) [].
Proof.
  split_and!; [done| |apply SSorted_nil|apply NoDup_nil_2|apply Forall_nil_2|done].
  intros i sh Hi. cbn [shards ShardedLru_new] in Hi. apply lookup_replicate in Hi as [-> _]. exists [].
  split; [|done]. split; [split_and!; try done; apply NoDup_nil_2|].
  split_and!; [apply NoDup_nil_2| |].
  - intros d p. simpl; rewrite lookup_empty. split; [done|]. by intros [ts ?%not_elem_of_nil].
  - intros p. simpl. rewrite dom_empty_L. set_solver.
Qed.

(** C7. The sharded tracker is a true LRU, and its pointer manipulation is safe:
    every sequence of fewer than 2^64 inserts, touches, removals and evictions,
    from the empty tracker, runs without dereferencing a null or freed pointer,
    and evicts exactly the digests a single list in order of last use would
    evict, oldest first; the length is that of the list. *)
Theorem sharded_lru_refines cap ops :
  Z.of_nat (length ops) ≤ u64_max →
  ∃ xs lru ds, lru_run ops (ShardedLru_new cap) = Some (xs, lru)
    ∧ lru_spec_run ops [] = (xs, ds) ∧ ShardedLru_len lru = Z.of_nat (length ds).
Proof.
  intros Hlen.
  destruct (lru_run_refines ops _ [] (lru_repr_new cap) Hlen) as (xs & lru & L & E & S & Hr).
  exists xs, lru, L.*1. split_and!; [done..|]. rewrite length_fmap. by apply lru_len_refines.
Qed.

Definition lru_sample : list lru_op :=
  [LInsert (test_digest x01); LInsert (test_digest x41); LInsert (test_digest x02);
   LTouch (test_digest x01); LRemove (test_digest x02); LEvict; LEvict; LEvict].

Lemma sharded_lru_refines_witness :
  fst <$> lru_run lru_sample (ShardedLru_new 10)
    = Some [None; None; None; None; None; Some (test_digest x41); Some (test_digest x01); None]
  ∧ ∃ xs lru ds, lru_run lru_sample (ShardedLru_new 10) = Some (xs, lru)
    ∧ lru_spec_run lru_sample [] = (xs, ds) ∧ ShardedLru_len lru = Z.of_nat (length ds).
Proof.
  split; [vm_compute; reflexivity|].
  apply sharded_lru_refines. vm_compute. discriminate.
Defined.
