(* ===== verification/LruList.v ===== *)
(** * The index-based LRU list of the storage crate

    Models [rv-storage/src/lru.rs]: a doubly-linked list threaded through a
    vector by indices, with a free list of slots, and its mutex wrapper.  Every
    vector access is partial ([None] is the panic of an index out of range).  The
    representation predicate relates the vector to the list of its occupied slots,
    most recently used first; each operation is shown to run without a panic and
    to be the operation on that list, and any sequence of operations, by any
    number of threads, behaves as one recency list whose slots are reused. *)

From S2P Require Import Prelude.
Local Open Scope Z_scope.

Module IndexLru.

(* ------------------------------------------------------------------ *)
(** ** The list *)

Record LruEntry : Set := mkEntry {
  le_key : Z;
  le_prev : option nat;
  le_next : option nat;
  le_active : bool;
}.

Record Lru : Set := mkLru {
  entries : list LruEntry;
  head : option nat;
  tail : option nat;
  len : Z;
  free_list : list nat;
}.

Definition set_entry_prev (p : option nat) (e : LruEntry) : LruEntry :=
  mkEntry (le_key e) p (le_next e) (le_active e).
Definition set_entry_next (n : option nat) (e : LruEntry) : LruEntry :=
  mkEntry (le_key e) (le_prev e) n (le_active e).
Definition set_entry_active (b : bool) (e : LruEntry) : LruEntry :=
  mkEntry (le_key e) (le_prev e) (le_next e) b.

Definition with_entries (l : Lru) (es : list LruEntry) : Lru :=
  mkLru es (head l) (tail l) (len l) (free_list l).
Definition with_head (l : Lru) (p : option nat) : Lru :=
  mkLru (entries l) p (tail l) (len l) (free_list l).
Definition with_tail (l : Lru) (p : option nat) : Lru :=
  mkLru (entries l) (head l) p (len l) (free_list l).
Definition with_len (l : Lru) (n : Z) : Lru :=
  mkLru (entries l) (head l) (tail l) n (free_list l).
Definition with_free_list (l : Lru) (fl : list nat) : Lru :=
  mkLru (entries l) (head l) (tail l) (len l) fl.

(** [self.entries[i].field = v]: panics when [i] is out of range. *)
Definition modify (f : LruEntry → LruEntry) (i : nat) (l : Lru) : option Lru :=
  e ← entries l !! i; Some (with_entries l (<[i := f e]> (entries l))).

Definition new : Lru := mkLru [] None None 0 [].

(** The capacity is not observable. *)
Definition with_capacity (cap : Z) : Lru := mkLru [] None None 0 [].

Definition is_empty (l : Lru) : bool := len l =? 0.

(** The slot of a new entry: the last freed one ([Vec::pop]), else a new one. *)
Definition take_slot (entry : LruEntry) (l : Lru) : option (nat * Lru) :=
  match last (free_list l) with
  | Some free_idx =>
      let l := with_free_list l (removelast (free_list l)) in
      _ ← entries l !! free_idx;
      Some (free_idx, with_entries l (<[free_idx := entry]> (entries l)))
  | None => Some (length (entries l), with_entries l (entries l ++ [entry]))
  end.

Definition insert (key : Z) (l : Lru) : option (nat * Lru) :=
  '(idx, l) ← take_slot (mkEntry key None (head l) true) l;
  l ← match head l with
      | Some old_head => modify (set_entry_prev (Some idx)) old_head l
      | None => Some l
      end;
  let l := with_head l (Some idx) in
  let l := match tail l with None => with_tail l (Some idx) | Some _ => l end in
  Some (idx, with_len l (u64_wrap (len l + 1))).

Definition unlink (idx : nat) (l : Lru) : option Lru :=
  e ← entries l !! idx;
  let prev := le_prev e in
  let next := le_next e in
  l ← match prev with
      | Some p => modify (set_entry_next next) p l
      | None => Some (with_head l next)
      end;
  l ← match next with
      | Some n => modify (set_entry_prev prev) n l
      | None => Some (with_tail l prev)
      end;
  modify (λ e, set_entry_next None (set_entry_prev None e)) idx l.

(** [idx >= self.entries.len() || !self.entries[idx].active] *)
Definition vacant (idx : nat) (l : Lru) : bool :=
  match entries l !! idx with
  | Some e => negb (le_active e)
  | None => true
  end.

Definition touch (idx : nat) (l : Lru) : option Lru :=
  if vacant idx l then Some l
  else if bool_decide (head l = Some idx) then Some l
  else
    l ← unlink idx l;
    l ← modify (λ e, set_entry_next (head l) (set_entry_prev None e)) idx l;
    l ← match head l with
        | Some old_head => modify (set_entry_prev (Some idx)) old_head l
        | None => Some l
        end;
    let l := with_head l (Some idx) in
    Some (match tail l with None => with_tail l (Some idx) | Some _ => l end).

Definition remove (idx : nat) (l : Lru) : option (option Z * Lru) :=
  if vacant idx l then Some (None, l)
  else
    l ← unlink idx l;
    l ← modify (set_entry_active false) idx l;
    let l := with_len l (u64_wrap (len l - 1)) in
    let l := with_free_list l (free_list l ++ [idx]) in
    e ← entries l !! idx;
    Some (Some (le_key e), l).

Definition evict_oldest (l : Lru) : option (option Z * Lru) :=
  match tail l with
  | None => Some (None, l)
  | Some tail_idx => remove tail_idx l
  end.

(** [option.map(|idx| self.entries[idx].key)] *)
Definition key_at (o : option nat) (l : Lru) : option (option Z) :=
  match o with
  | None => Some None
  | Some idx => e ← entries l !! idx; Some (Some (le_key e))
  end.

Definition peek_newest (l : Lru) : option (option Z) := key_at (head l) l.
Definition peek_oldest (l : Lru) : option (option Z) := key_at (tail l) l.

(* ------------------------------------------------------------------ *)
(** ** The mutex wrapper

    Every method locks the list for its whole duration, so the threads' calls are
    a sequence of whole operations. *)

Inductive op : Set :=
| Insert (key : Z)
| Touch (idx : nat)
| Remove (idx : nat)
| EvictOldest
| PeekNewest
| PeekOldest
| Len
| IsEmpty.

Inductive resp : Set :=
| RIdx (i : nat)
| RUnit
| RKey (k : option Z)
| RLen (n : Z)
| RBool (b : bool).

Definition sync_step (o : op) (l : Lru) : option (resp * Lru) :=
  match o with
  | Insert key => '(i, l) ← insert key l; Some (RIdx i, l)
  | Touch idx => l ← touch idx l; Some (RUnit, l)
  | Remove idx => '(k, l) ← remove idx l; Some (RKey k, l)
  | EvictOldest => '(k, l) ← evict_oldest l; Some (RKey k, l)
  | PeekNewest => k ← peek_newest l; Some (RKey k, l)
  | PeekOldest => k ← peek_oldest l; Some (RKey k, l)
  | Len => Some (RLen (len l), l)
  | IsEmpty => Some (RBool (is_empty l), l)
  end.

Fixpoint sync_run (os : list op) (l : Lru) : option (list resp * Lru) :=
  match os with
  | [] => Some ([], l)
  | o :: os =>
      '(r, l) ← sync_step o l;
      '(rs, l) ← sync_run os l;
      Some (r :: rs, l)
  end.

(* ------------------------------------------------------------------ *)
(** ** The promise: a recency list

    The occupied slots with their keys, most recent first, and the largest number
    of slots ever occupied.  [insert] may pick any slot that is not occupied, as
    long as the vector does not grow beyond that number. *)

Abbreviation slots := (list (nat * Z)).

Fixpoint key_of (i : nat) (L : slots) : option Z :=
  match L with
  | [] => None
  | (j, k) :: L => if decide (i = j) then Some k else key_of i L
  end.

Fixpoint drop_slot (i : nat) (L : slots) : slots :=
  match L with
  | [] => []
  | (j, k) :: L => if decide (i = j) then L else (j, k) :: drop_slot i L
  end.

Inductive spec_step : op → slots * nat → resp → slots * nat → Prop :=
| spec_insert key L peak i :
    i ∉ L.*1 → (i < Nat.max peak (S (length L)))%nat →
    spec_step (Insert key) (L, peak) (RIdx i) ((i, key) :: L, Nat.max peak (S (length L)))
| spec_touch i L peak :
    spec_step (Touch i) (L, peak) RUnit
      (match key_of i L with Some k => (i, k) :: drop_slot i L | None => L end, peak)
| spec_remove i L peak :
    spec_step (Remove i) (L, peak) (RKey (key_of i L)) (drop_slot i L, peak)
| spec_evict_some L i k peak :
    spec_step EvictOldest (L ++ [(i, k)], peak) (RKey (Some k)) (L, peak)
| spec_evict_none peak : spec_step EvictOldest ([], peak) (RKey None) ([], peak)
| spec_newest L peak : spec_step PeekNewest (L, peak) (RKey (snd <$> hd_error L)) (L, peak)
| spec_oldest L peak : spec_step PeekOldest (L, peak) (RKey (snd <$> last L)) (L, peak)
| spec_len L peak : spec_step Len (L, peak) (RLen (u64_wrap (Z.of_nat (length L)))) (L, peak)
| spec_is_empty L peak :
    spec_step IsEmpty (L, peak) (RBool (u64_wrap (Z.of_nat (length L)) =? 0)) (L, peak).

Inductive spec_run : list op → slots * nat → list resp → slots * nat → Prop :=
| spec_run_nil s : spec_run [] s [] s
| spec_run_cons o os s r s1 rs s2 :
    spec_step o s r s1 → spec_run os s1 rs s2 → spec_run (o :: os) s (r :: rs) s2.

(* ------------------------------------------------------------------ *)
(** ** Segments of the list *)

Definition first (L : slots) (n : option nat) : option nat :=
  match L with [] => n | (i, _) :: _ => Some i end.

Fixpoint lastp (p : option nat) (L : slots) : option nat :=
  match L with [] => p | (i, _) :: L => lastp (Some i) L end.

(** The entries of [L] are linked in its order between [p] and [n]. *)
Fixpoint dseg (es : list LruEntry) (p n : option nat) (L : slots) : Prop :=
  match L with
  | [] => True
  | (i, k) :: L => es !! i = Some (mkEntry k p (first L n) true) ∧ dseg es (Some i) n L
  end.

Lemma first_app A B n : first (A ++ B) n = first A (first B n).
Proof. by destruct A as [|[]]. Qed.

Lemma lastp_app p A B : lastp p (A ++ B) = lastp (lastp p A) B.
Proof. revert p. induction A as [|[i k] A IH]; intros p; simpl; [done|apply IH]. Qed.

Lemma slots_app es p n A B :
  dseg es p n (A ++ B) ↔ dseg es p (first B n) A ∧ dseg es (lastp p A) n B.
Proof.
  revert p. induction A as [|[i k] A IH]; intros p; simpl; [tauto|].
  rewrite IH, first_app. tauto.
Qed.

Lemma dseg_ext es es' p n L :
  (∀ i, i ∈ L.*1 → es' !! i = es !! i) → dseg es p n L → dseg es' p n L.
Proof.
  revert p. induction L as [|[i k] L IH]; intros p Hext; simpl; [done|].
  intros [Hi HL]. split; [rewrite Hext; [done|set_solver]|].
  apply IH; [|done]. intros j Hj. apply Hext. set_solver.
Qed.

Lemma dseg_insert_ne es i e p n L : i ∉ L.*1 → dseg es p n L → dseg (<[i := e]> es) p n L.
Proof.
  intros Hi. apply dseg_ext. intros j Hj. apply list_lookup_insert_ne. set_solver.
Qed.

Lemma slots_lookup es p n L i :
  dseg es p n L → i ∈ L.*1 → ∃ e, es !! i = Some e ∧ le_active e = true ∧ Some (le_key e) = key_of i L.
Proof.
  revert p. induction L as [|[j k] L IH]; intros p; simpl; [set_solver|].
  intros [Hj HL] Hi. case_decide; subst; [by eexists|].
  apply (IH (Some j)); [done|set_solver].
Qed.

(** Set the [next] of the last entry of a segment, or the [prev] of its first. *)
Lemma dseg_set_next es n n' A p :
  A ≠ [] → NoDup A.*1 → dseg es p n A →
  ∃ j e, lastp p A = Some j ∧ es !! j = Some e ∧ j ∈ A.*1
    ∧ dseg (<[j := set_entry_next n' e]> es) p n' A.
Proof.
  revert p. induction A as [|[i k] A IH]; intros p HA Hnd Hd; [done|].
  destruct Hd as [Hi Hd]. apply NoDup_cons in Hnd as [Hni Hnd].
  destruct A as [|[i2 k2] A].
  - exists i. eexists. split; [done|]. split; [done|]. split; [set_solver|].
    split; [|done]. apply list_lookup_insert_eq. by eapply lookup_lt_Some.
  - destruct (IH (Some i) ltac:(done) Hnd Hd) as (j & e & Hl & He & Hj & Hd').
    exists j, e. split; [done|]. split; [done|]. split; [set_solver|].
    split; [|done]. rewrite list_lookup_insert_ne; [done|]. intros ->. by apply Hni.
Qed.

Lemma dseg_set_prev es p p' n i k L :
  NoDup ((i, k) :: L).*1 → dseg es p n ((i, k) :: L) →
  ∃ e, es !! i = Some e ∧ dseg (<[i := set_entry_prev p' e]> es) p' n ((i, k) :: L).
Proof.
  intros Hnd [Hi Hd]. apply NoDup_cons in Hnd as [Hni Hnd].
  eexists. split; [done|]. split; [|by apply dseg_insert_ne].
  apply list_lookup_insert_eq. by eapply lookup_lt_Some.
Qed.

(** What an operation may change of the vector: the entries of [L] only. *)
Definition touches (es es' : list LruEntry) (L : slots) : Prop :=
  length es' = length es ∧ ∀ j, j ∉ L.*1 → es' !! j = es !! j.

Lemma touches_insert es i e L : i ∈ L.*1 → touches es (<[i := e]> es) L.
Proof.
  intros Hi. split; [apply length_insert|]. intros j Hj. apply list_lookup_insert_ne. set_solver.
Qed.

Lemma touches_trans es1 es2 es3 A B C :
  touches es1 es2 A → touches es2 es3 B → A.*1 ⊆ C.*1 → B.*1 ⊆ C.*1 → touches es1 es3 C.
Proof.
  intros [Hl1 H1] [Hl2 H2] HA HB. split; [congruence|]. intros j Hj.
  rewrite H2 by set_solver. apply H1. set_solver.
Qed.

Lemma modify_Some f i l e :
  entries l !! i = Some e → modify f i l = Some (with_entries l (<[i := f e]> (entries l))).
Proof. unfold modify. by intros ->. Qed.

(** The neighbour on the left of a removed entry, or the head. *)
Lemma relink_left n n' l A :
  NoDup A.*1 → dseg (entries l) None n A → head l = first A n →
  ∃ es', match lastp None A with
         | Some p => modify (set_entry_next n') p l
         | None => Some (with_head l n')
         end = Some (mkLru es' (first A n') (tail l) (len l) (free_list l))
    ∧ dseg es' None n' A ∧ touches (entries l) es' A.
Proof.
  intros Hnd Hd Hh. destruct (decide (A = [])) as [->|HA].
  - exists (entries l). by destruct l.
  - destruct (dseg_set_next _ _ n' _ _ HA Hnd Hd) as (j & e & -> & He & Hj & Hd').
    rewrite (modify_Some _ _ _ _ He). eexists. split; [|split; [done|by apply touches_insert]].
    destruct A as [|[] A]; [done|]. unfold with_entries. by rewrite Hh.
Qed.

(** The neighbour on the right, or the tail. *)
Lemma relink_right p p' l B :
  NoDup B.*1 → dseg (entries l) p None B → tail l = lastp p B →
  ∃ es', match first B None with
         | Some n => modify (set_entry_prev p') n l
         | None => Some (with_tail l p')
         end = Some (mkLru es' (head l) (lastp p' B) (len l) (free_list l))
    ∧ dseg es' p' None B ∧ touches (entries l) es' B.
Proof.
  intros Hnd Hd Ht. destruct B as [|[i k] B].
  - exists (entries l). by destruct l.
  - destruct (dseg_set_prev _ _ p' _ _ _ _ Hnd Hd) as (e & He & Hd').
    cbn [first]. rewrite (modify_Some _ _ _ _ He).
    eexists. split; [|split; [done|apply touches_insert; set_solver]].
    unfold with_entries. by rewrite Ht.
Qed.

Lemma unlink_slot l A i k B :
  let L := A ++ (i, k) :: B in
  NoDup L.*1 → dseg (entries l) None None L → head l = first L None → tail l = lastp None L →
  ∃ es', unlink i l = Some (mkLru es' (first (A ++ B) None) (lastp None (A ++ B)) (len l) (free_list l))
    ∧ dseg es' None None (A ++ B) ∧ es' !! i = Some (mkEntry k None None true)
    ∧ touches (entries l) es' L.
Proof.
  intros L Hnd Hd Hh Ht. unfold L in *. rewrite fmap_app, fmap_cons in Hnd.
  apply NoDup_app in Hnd as (HndA & HAB & HndB). apply NoDup_cons in HndB as [HiB HndB].
  assert (HiA : i ∉ A.*1) by set_solver.
  apply slots_app in Hd as [HA [Hi HB]]. rewrite first_app in Hh. rewrite lastp_app in Ht. cbn in Ht.
  unfold unlink. rewrite Hi. cbn [mbind option_bind le_prev le_next].
  destruct (relink_left _ (first B None) l A HndA HA Hh) as (es1 & -> & HA1 & T1).
  cbn [mbind option_bind].
  destruct (relink_right (Some i) (lastp None A) (mkLru es1 (first A (first B None)) (tail l) (len l) (free_list l)) B)
    as (es2 & -> & HB2 & T2); [done| |done|].
  { apply (dseg_ext (entries l)); [|done]. intros j Hj. apply T1. set_solver. }
  cbn [mbind option_bind entries head len free_list] in *.
  assert (Hi2 : es2 !! i = Some (mkEntry k (lastp None A) (first B None) true)).
  { rewrite (proj2 T2) by done. rewrite (proj2 T1) by done. done. }
  erewrite modify_Some by exact Hi2. eexists. rewrite first_app, lastp_app. split; [reflexivity|].
  split; [|split].
  - apply dseg_insert_ne; [set_solver|]. apply slots_app. split; [|done].
    apply (dseg_ext es1); [|done]. intros j Hj. apply T2. set_solver.
  - apply list_lookup_insert_eq. by eapply lookup_lt_Some.
  - eapply (touches_trans _ es2 _ (A ++ B) [(i, k)]); [|apply touches_insert; apply list_elem_of_here|..].
    + eapply touches_trans; [exact T1|exact T2|set_solver..].
    + rewrite !fmap_app. set_solver.
    + intros j. rewrite fmap_app, !fmap_cons. set_solver.
Qed.

(** Linking a prepared entry in front of the list. *)
Lemma push_front_spec l i k L :
  NoDup ((i, k) :: L).*1 → dseg (entries l) None None L → head l = first L None → tail l = lastp None L →
  entries l !! i = Some (mkEntry k None (head l) true) →
  ∃ es', match head l with
         | Some old_head => modify (set_entry_prev (Some i)) old_head l
         | None => Some l
         end = Some (mkLru es' (head l) (tail l) (len l) (free_list l))
    ∧ dseg es' None None ((i, k) :: L) ∧ touches (entries l) es' L
    ∧ match tail l with None => Some i | Some t => Some t end = lastp None ((i, k) :: L).
Proof.
  intros Hnd Hd Hh Ht Hi. apply NoDup_cons in Hnd as [Hni Hnd]. rewrite Hh, Ht in *.
  destruct L as [|[j kj] L].
  - exists (entries l). rewrite <- Hh, <- Ht. destruct l; simpl in *; subst. by repeat split.
  - destruct (dseg_set_prev _ _ (Some i) _ _ _ _ Hnd Hd) as (e & He & Hd').
    cbn [first]. rewrite (modify_Some _ _ _ _ He). unfold with_entries. rewrite Hh, Ht.
    eexists. split; [reflexivity|]. split; [|split; [apply touches_insert; set_solver|]].
    + split; [|done]. rewrite list_lookup_insert_ne by set_solver. done.
    + cbn [lastp]. clear. generalize j. induction L as [|[] L IH]; intros j'; simpl; [done|apply IH].
Qed.

(* ------------------------------------------------------------------ *)
(** ** The representation *)

Record repr (l : Lru) (L : slots) : Prop := {
  repr_slots : L.*1 ++ free_list l ≡ₚ seq 0 (length (entries l));
  repr_dseg : dseg (entries l) None None L;
  repr_head : head l = first L None;
  repr_tail : tail l = lastp None L;
  repr_len : len l = u64_wrap (Z.of_nat (length L));
  repr_free : ∀ i, i ∈ free_list l → ∃ e, entries l !! i = Some e ∧ le_active e = false;
}.

Lemma repr_NoDup l L : repr l L → NoDup (L.*1 ++ free_list l).
Proof. intros H. rewrite (repr_slots _ _ H). apply NoDup_seq. Qed.

Lemma repr_disjoint l L i : repr l L → i ∈ L.*1 → i ∈ free_list l → False.
Proof. intros H. apply repr_NoDup, NoDup_app in H as (_ & H & _). set_solver. Qed.

Lemma repr_lt l L i : repr l L → (i < length (entries l))%nat ↔ i ∈ L.*1 ∨ i ∈ free_list l.
Proof.
  intros H. rewrite <- elem_of_app, (repr_slots _ _ H), elem_of_seq. lia.
Qed.

Lemma repr_count l L : repr l L → (length L + length (free_list l) = length (entries l))%nat.
Proof.
  intros H. pose proof (Permutation_length (repr_slots _ _ H)) as E.
  by rewrite length_app, length_fmap, length_seq in E.
Qed.

Lemma key_of_None i L : key_of i L = None ↔ i ∉ L.*1.
Proof.
  induction L as [|[j k] L IH]; simpl; [set_solver|].
  case_decide; subst; [split; [done|set_solver]|]. rewrite IH. set_solver.
Qed.

Lemma key_of_Some i L k :
  NoDup L.*1 → key_of i L = Some k →
  ∃ A B, L = (A ++ (i, k) :: B) ∧ drop_slot i L = (A ++ B) ∧ (i ∉ A.*1) ∧ (i ∉ B.*1).
Proof.
  induction L as [|[j kj] L IH]; simpl; [done|]. rewrite NoDup_cons. intros [Hj Hnd] Hk.
  case_decide; simplify_eq.
  - exists [], L. set_solver.
  - destruct IH as (A & B & -> & -> & HA & HB); [done..|]. exists ((j, kj) :: A), B. set_solver.
Qed.

Lemma drop_slot_None i L : key_of i L = None → drop_slot i L = L.
Proof.
  induction L as [|[j k] L IH]; simpl; [done|]. case_decide; [done|]. intros ?. by rewrite IH.
Qed.

Lemma vacant_repr l L i : repr l L → vacant i l = bool_decide (key_of i L = None).
Proof.
  intros H. unfold vacant. destruct (decide (i ∈ L.*1)) as [Hi|Hi].
  - destruct (slots_lookup _ _ _ _ _ (repr_dseg _ _ H) Hi) as (e & -> & -> & He).
    by rewrite <- He.
  - rewrite (bool_decide_true (key_of i L = None)) by by apply key_of_None.
    destruct (entries l !! i) as [e|] eqn:E; [|done].
    destruct (proj1 (repr_lt l L i H)) as [|Hf]; [by eapply lookup_lt_Some|done|].
    destruct (repr_free _ _ H i Hf) as (e' & E' & Ha). simplify_eq. by rewrite Ha.
Qed.

Lemma key_at_repr l L o :
  repr l L → (∀ i, o = Some i → i ∈ L.*1) →
  key_at o l = Some (match o with Some i => key_of i L | None => None end).
Proof.
  intros H Ho. destruct o as [i|]; [|done]. unfold key_at.
  destruct (slots_lookup _ _ _ _ _ (repr_dseg _ _ H) (Ho i eq_refl)) as (e & -> & _ & He).
  by rewrite <- He.
Qed.

Lemma lastp_snoc p L i k : lastp p (L ++ [(i, k)]) = Some i.
Proof. by rewrite lastp_app. Qed.

Lemma new_repr : repr new [].
Proof. split; try done. set_solver. Qed.

(* ------------------------------------------------------------------ *)
(** ** The operations *)

(** A list with slot [i] prepared but not linked, and the rest of [insert] and
    [touch]. *)
Lemma link_front l i k L n :
  i :: L.*1 ++ free_list l ≡ₚ seq 0 (length (entries l)) →
  dseg (entries l) None None L → head l = first L None → tail l = lastp None L →
  entries l !! i = Some (mkEntry k None (head l) true) →
  (∀ j, j ∈ free_list l → ∃ e, entries l !! j = Some e ∧ le_active e = false) →
  n = u64_wrap (Z.of_nat (S (length L))) →
  ∃ es' t, match head l with
         | Some old_head => modify (set_entry_prev (Some i)) old_head l
         | None => Some l
         end = Some (mkLru es' (head l) (tail l) (len l) (free_list l))
    ∧ match tail l with None => Some i | Some t => Some t end = t
    ∧ repr (mkLru es' (Some i) t n (free_list l)) ((i, k) :: L)
    ∧ length es' = length (entries l).
Proof.
  intros Hp Hd Hh Ht Hi Hf ->.
  assert (Hnd : NoDup (i :: L.*1 ++ free_list l)) by (rewrite Hp; apply NoDup_seq).
  rewrite app_comm_cons in Hnd. apply NoDup_app in Hnd as (Hnd & Hdisj & _).
  destruct (push_front_spec l i k L Hnd Hd Hh Ht Hi) as (es' & -> & Hd' & [Hlen Hext] & Ht').
  exists es'. eexists. split; [done|]. split; [done|]. split; [|done].
  split; cbn [entries head tail len free_list].
  - by rewrite Hlen.
  - done.
  - done.
  - by rewrite <- Ht'.
  - done.
  - intros j Hj. rewrite Hext; [by apply Hf|]. specialize (Hdisj j). set_solver.
Qed.

Lemma u64_wrap_succ n : u64_wrap (u64_wrap (Z.of_nat n) + 1) = u64_wrap (Z.of_nat (S n)).
Proof. unfold u64_wrap, wrap. rewrite Zplus_mod_idemp_l. f_equal. lia. Qed.

Lemma u64_wrap_pred n : u64_wrap (u64_wrap (Z.of_nat (S n)) - 1) = u64_wrap (Z.of_nat n).
Proof. unfold u64_wrap, wrap. rewrite Zminus_mod_idemp_l. f_equal. lia. Qed.

Lemma dseg_app_entries es e p n L : dseg es p n L → dseg (es ++ [e]) p n L.
Proof.
  revert p. induction L as [|[i k] L IH]; intros p; simpl; [done|].
  intros [Hi HL]. split; [by apply lookup_app_l_Some|by apply IH].
Qed.

(** The slot [insert] takes, prepared. *)
Lemma take_slot_repr l L entry :
  repr l L → entry = mkEntry (le_key entry) None (head l) true →
  ∃ i l1, take_slot entry l = Some (i, l1)
    ∧ i :: L.*1 ++ free_list l1 ≡ₚ seq 0 (length (entries l1))
    ∧ dseg (entries l1) None None L ∧ head l1 = head l ∧ tail l1 = tail l ∧ len l1 = len l
    ∧ entries l1 !! i = Some entry
    ∧ (∀ j, j ∈ free_list l1 → ∃ e, entries l1 !! j = Some e ∧ le_active e = false)
    ∧ length (entries l1) = Nat.max (length (entries l)) (S (length L)).
Proof.
  intros H He. pose proof (repr_count _ _ H) as Hc. pose proof (repr_slots _ _ H) as Hp.
  pose proof (repr_NoDup _ _ H) as Hnd. pose proof (repr_free _ _ H) as Hfree. unfold take_slot.
  destruct (free_list l) as [|f fl _] eqn:Ef using rev_ind; cbn [last].
  - exists (length (entries l)). eexists. split; [reflexivity|]. cbn. rewrite Ef.
    rewrite app_nil_r in *. split_and!; try done.
    + rewrite length_app, Nat.add_1_r, seq_S, <- Hp. apply Permutation_cons_append.
    + apply dseg_app_entries, H.
    + apply list_lookup_middle. done.
    + set_solver.
    + rewrite length_app. simpl in *. lia.
  - rewrite last_snoc, removelast_last. cbn.
    destruct (Hfree f) as (e & Ee & _); [set_solver|]. rewrite Ee. cbn.
    exists f. eexists. split; [reflexivity|]. cbn.
    apply NoDup_app in Hnd as (_ & Hdisj & Hnd). apply NoDup_app in Hnd as (_ & Hf & _).
    split_and!; try done.
    + rewrite length_insert, <- Hp. rewrite app_assoc. apply Permutation_cons_append.
    + apply dseg_insert_ne; [specialize (Hdisj f); set_solver|apply H].
    + apply list_lookup_insert_eq. by eapply lookup_lt_Some.
    + intros j Hj. rewrite list_lookup_insert_ne by set_solver. apply Hfree. set_solver.
    + rewrite length_insert. rewrite length_app in Hc. simpl in Hc. lia.
Qed.

Lemma insert_repr l L key :
  repr l L → ∃ i l', insert key l = Some (i, l') ∧ repr l' ((i, key) :: L)
    ∧ length (entries l') = Nat.max (length (entries l)) (S (length L)).
Proof.
  intros H. unfold insert.
  destruct (take_slot_repr l L (mkEntry key None (head l) true) H eq_refl)
    as (i & l1 & -> & Hp & Hd & Hh & Ht & Hl & Hi & Hf & Hlen). cbn [mbind option_bind].
  destruct (link_front l1 i key L (u64_wrap (Z.of_nat (S (length L)))) Hp Hd) as (es' & t & E & Et & HR & Hlen'); try done.
  { rewrite Hh. apply H. }
  { rewrite Ht. apply H. }
  { by rewrite Hh. }
  rewrite E. cbn. do 2 eexists. split; [reflexivity|].
  destruct (tail l1); cbn; rewrite Hl, (repr_len _ _ H), u64_wrap_succ; subst t;
    (split; [done|congruence]).
Qed.

Lemma drop_slot_perm i k (A B : slots) (fl : list nat) :
  (A ++ (i, k) :: B).*1 ++ fl ≡ₚ i :: (A ++ B).*1 ++ fl.
Proof. rewrite !fmap_app, fmap_cons, <- !app_assoc. simpl. symmetry. apply Permutation_middle. Qed.

Lemma unlink_repr l L i k :
  repr l L → key_of i L = Some k →
  ∃ es', unlink i l = Some (mkLru es' (first (drop_slot i L) None) (lastp None (drop_slot i L)) (len l) (free_list l))
    ∧ dseg es' None None (drop_slot i L) ∧ es' !! i = Some (mkEntry k None None true)
    ∧ touches (entries l) es' L ∧ length L = S (length (drop_slot i L))
    ∧ i :: (drop_slot i L).*1 ++ free_list l ≡ₚ seq 0 (length es') ∧ i ∉ (drop_slot i L).*1.
Proof.
  intros H Hk. pose proof (repr_NoDup _ _ H) as Hnd. apply NoDup_app in Hnd as (Hnd & _ & _).
  destruct (key_of_Some i L k Hnd Hk) as (A & B & EL & -> & HA & HB). rewrite EL in Hnd.
  destruct (unlink_slot l A i k B Hnd) as (es' & E & Hd & Hi & T); [rewrite <- EL; apply H..|].
  exists es'. rewrite <- EL in T. split_and!; try done.
  - rewrite EL, !length_app. simpl. lia.
  - rewrite (proj1 T), <- (repr_slots _ _ H), EL. symmetry. apply drop_slot_perm.
  - rewrite fmap_app. set_solver.
Qed.

Lemma repr_free_touches l L es' j :
  repr l L → touches (entries l) es' L → j ∈ free_list l → ∃ e, es' !! j = Some e ∧ le_active e = false.
Proof.
  intros H [_ T] Hj. rewrite T; [by apply (repr_free _ _ H)|].
  intros Hj'. by eapply repr_disjoint.
Qed.

Lemma remove_repr l L i :
  repr l L → ∃ l', remove i l = Some (key_of i L, l') ∧ repr l' (drop_slot i L)
    ∧ length (entries l') = length (entries l).
Proof.
  intros H. unfold remove. rewrite (vacant_repr _ _ _ H).
  destruct (key_of i L) as [k|] eqn:Hk; simpl; [|exists l; by rewrite drop_slot_None].
  destruct (unlink_repr l L i k H Hk) as (es' & -> & Hd & Hi & T & Hlen & Hp & Hni). cbn.
  unfold modify. cbn. rewrite Hi. cbn.
  rewrite list_lookup_insert_eq by by eapply lookup_lt_Some. cbn.
  eexists. split; [reflexivity|]. cbn. split; [|rewrite length_insert; apply T].
  split; cbn; try done.
  - rewrite length_insert, <- Hp, app_assoc. symmetry. apply Permutation_cons_append.
  - by apply dseg_insert_ne.
  - rewrite (repr_len _ _ H), Hlen. apply u64_wrap_pred.
  - intros j Hj. destruct (decide (i = j)) as [<-|Hij].
    + eexists. rewrite list_lookup_insert_eq; [done|by eapply lookup_lt_Some].
    + rewrite list_lookup_insert_ne by done. eapply repr_free_touches; [done..|set_solver].
Qed.

Lemma touch_repr l L i :
  repr l L → ∃ l', touch i l = Some l'
    ∧ repr l' (match key_of i L with Some k => (i, k) :: drop_slot i L | None => L end)
    ∧ length (entries l') = length (entries l).
Proof.
  intros H. unfold touch. rewrite (vacant_repr _ _ _ H).
  destruct (key_of i L) as [k|] eqn:Hk; simpl; [|by exists l].
  case_bool_decide as Hh.
  { rewrite (repr_head _ _ H) in Hh. destruct L as [|[j kj] L]; [done|]. injection Hh as ->.
    simpl in Hk |- *. rewrite decide_True in Hk by done. rewrite decide_True by done.
    injection Hk as ->. by exists l. }
  destruct (unlink_repr l L i k H Hk) as (es' & -> & Hd & Hi & T & Hlen & Hp & Hni). cbn.
  erewrite modify_Some by exact Hi. cbn.
  set (l1 := with_entries _ _).
  destruct (link_front l1 i k (drop_slot i L) (len l)) as (es2 & t & E & Et & HR & Hl2); subst l1; cbn in *.
  - by rewrite length_insert.
  - by apply dseg_insert_ne.
  - done.
  - done.
  - apply list_lookup_insert_eq. by eapply lookup_lt_Some.
  - intros j Hj. rewrite list_lookup_insert_ne; [by eapply repr_free_touches|].
    intros ->. apply (repr_disjoint l L j H); [|done]. apply dec_stable. intros Hn.
    apply key_of_None in Hn. congruence.
  - by rewrite (repr_len _ _ H), Hlen.
  - rewrite E. cbn. subst t. rewrite <- (proj1 T). rewrite length_insert in Hl2.
    destruct (lastp None (drop_slot i L)); cbn; eexists; (split; [reflexivity|]); by split.
Qed.

Lemma evict_repr l L :
  repr l L →
  (L = [] ∧ evict_oldest l = Some (None, l))
  ∨ ∃ L0 i k l', L = (L0 ++ [(i, k)]) ∧ evict_oldest l = Some (Some k, l') ∧ repr l' L0
      ∧ length (entries l') = length (entries l).
Proof.
  intros H. unfold evict_oldest. rewrite (repr_tail _ _ H).
  destruct L as [|[i k] L0 _] using rev_ind; [by left|]. right. rewrite lastp_snoc.
  destruct (remove_repr _ _ i H) as (l' & -> & HR & Hl). exists L0, i, k, l'.
  assert (Hni : i ∉ L0.*1).
  { apply repr_NoDup, NoDup_app in H as (H & _). rewrite fmap_app in H.
    apply NoDup_app in H as (_ & H & _). specialize (H i). set_solver. }
  assert (Hk : key_of i (L0 ++ [(i, k)]) = Some k ∧ drop_slot i (L0 ++ [(i, k)]) = L0).
  { clear -Hni. induction L0 as [|[j kj] L0 IH]; simpl; [by rewrite !decide_True|].
    rewrite !decide_False by set_solver. destruct IH as [-> ->]; [set_solver|done]. }
  destruct Hk as [Hk Hd]. rewrite Hd in HR. by rewrite Hk.
Qed.

Lemma first_key L i : first L None = Some i → i ∈ L.*1 ∧ key_of i L = snd <$> hd_error L.
Proof.
  destruct L as [|[j k] L]; [done|]. simpl. intros [= ->]. rewrite decide_True by done. set_solver.
Qed.

Lemma last_key L i :
  NoDup L.*1 → lastp None L = Some i → i ∈ L.*1 ∧ key_of i L = snd <$> last L.
Proof.
  destruct L as [|[j k] L _] using rev_ind; [done|]. rewrite lastp_snoc, last_snoc, fmap_app.
  intros (_ & Hd & _)%NoDup_app [= ->]. split; [set_solver|].
  assert (Hni : i ∉ L.*1) by (specialize (Hd i); set_solver). clear Hd.
  induction L as [|[j' k'] L IH]; simpl; [by rewrite decide_True|].
  rewrite decide_False by set_solver. apply IH. set_solver.
Qed.

Lemma lastp_None L : lastp None L = None → L = [].
Proof. destruct L as [|[] L _] using rev_ind; [done|]. by rewrite lastp_snoc. Qed.

Lemma peek_repr l L :
  repr l L → peek_newest l = Some (snd <$> hd_error L) ∧ peek_oldest l = Some (snd <$> last L).
Proof.
  intros H. pose proof (repr_NoDup _ _ H) as Hnd. apply NoDup_app in Hnd as (Hnd & _).
  unfold peek_newest, peek_oldest. rewrite (repr_head _ _ H), (repr_tail _ _ H). split.
  - rewrite (key_at_repr _ _ _ H) by (intros; by apply first_key). f_equal.
    destruct (first L None) eqn:E; [by apply first_key|by destruct L as [|[]]].
  - rewrite (key_at_repr _ _ _ H) by (intros; by apply last_key). f_equal.
    destruct (lastp None L) eqn:E; [by apply last_key|by rewrite (lastp_None _ E)].
Qed.

(** One operation: it does not panic, and is allowed by the recency list; the
    vector has as many slots as the list ever had entries. *)
Lemma sync_step_refines o l L :
  repr l L → ∃ r l' L', sync_step o l = Some (r, l') ∧ repr l' L'
    ∧ spec_step o (L, length (entries l)) r (L', length (entries l')).
Proof.
  intros H. destruct o; cbn [sync_step].
  - destruct (insert_repr l L key H) as (i & l' & -> & HR & Hl). do 3 eexists. split; [reflexivity|].
    split; [exact HR|]. rewrite Hl. apply repr_NoDup in HR as Hnd. apply NoDup_cons in Hnd as [Hi _].
    constructor; [set_solver|]. rewrite <- Hl. apply (repr_lt _ _ i HR). set_solver.
  - destruct (touch_repr l L idx H) as (l' & -> & HR & Hl). do 3 eexists. split; [reflexivity|].
    split; [exact HR|]. rewrite Hl. constructor.
  - destruct (remove_repr l L idx H) as (l' & -> & HR & Hl). do 3 eexists. split; [reflexivity|].
    split; [exact HR|]. rewrite Hl. constructor.
  - destruct (evict_repr l L H) as [[-> ->]|(L0 & i & k & l' & -> & -> & HR & Hl)];
      (do 3 eexists; split; [reflexivity|split; [eassumption|]]); [|rewrite Hl]; constructor.
  - rewrite (proj1 (peek_repr l L H)). do 3 eexists. split; [reflexivity|]. split; [done|constructor].
  - rewrite (proj2 (peek_repr l L H)). do 3 eexists. split; [reflexivity|]. split; [done|constructor].
  - do 3 eexists. split; [reflexivity|]. split; [done|]. rewrite (repr_len _ _ H). constructor.
  - do 3 eexists. split; [reflexivity|]. split; [done|]. unfold is_empty.
    rewrite (repr_len _ _ H). constructor.
Qed.

(** The list behaves as a recency list: any sequence of calls on a new list,
    whatever indices they pass (stale, freed or out of range ones included), runs
    without a panic, and its results are those of one list of occupied slots, most
    recent first, in which [insert] puts the key in front under an index no live
    entry has, [touch] moves an entry to the front, [remove] and [evict_oldest]
    return the key and drop the entry, and unknown indices change nothing.  The
    vector never has more slots than the largest number of entries held at once. *)
Theorem lru_list_refines os :
  ∃ rs l' L', sync_run os new = Some (rs, l') ∧ spec_run os ([], 0%nat) rs (L', length (entries l')).
Proof.
  enough (∀ l L, repr l L → ∃ rs l' L', sync_run os l = Some (rs, l')
    ∧ spec_run os (L, length (entries l)) rs (L', length (entries l'))) as Hrun
    by exact (Hrun _ _ new_repr).
  induction os as [|o os IH]; intros l L H; [by eexists _, _, _; split; [|constructor]|].
  destruct (sync_step_refines o l L H) as (r & l1 & L1 & E & H1 & S1). cbn [sync_run]. rewrite E. cbn.
  destruct (IH l1 L1 H1) as (rs & l2 & L2 & -> & S2). cbn.
  do 3 eexists. split; [reflexivity|]. by eapply spec_run_cons.
Qed.

Example lru_list_touch :
  fst <$> sync_run [Insert 10; Insert 20; Insert 30; Touch 0; PeekNewest; EvictOldest; Touch 1;
                    Insert 40; Remove 999; EvictOldest; Len] new
  = Some [RIdx 0; RIdx 1; RIdx 2; RUnit; RKey (Some 10); RKey (Some 20); RUnit;
          RIdx 1; RKey None; RKey (Some 30); RLen 2].
Proof. vm_compute. reflexivity. Qed.

End IndexLru.
