(* ===== verification/RingLog.v ===== *)
(** * The shared log: ring buffer, writer and reader

    Models [rv-log/src/ringbuf.rs], [record.rs], [writer.rs] and [reader.rs].
    The ring buffer of capacity [cap] is related to the history of all records
    ever written: it stores the last [cap] of them, slot [i mod cap] holding
    record [i]. *)

From S2P Require Import Prelude RustStr F64 Enums Types.
Local Open Scope Z_scope.

(* ------------------------------------------------------------------ *)
(** ** Records *)

Record LogRecord : Set := mkLogRecord {
  lr_tag : LogTag;
  lr_vxid : Vxid;
  lr_timestamp : VtimReal;
  lr_data : bytes;
}.

(** [LogRecord::new] reads the clock: [now]. *)
Definition LogRecord_new (now : VtimReal) (tag : LogTag) (vxid : Vxid) (data : bytes) : LogRecord :=
  mkLogRecord tag vxid now data.

Definition LogRecord_with_timestamp (tag : LogTag) (vxid : Vxid) (timestamp : VtimReal) (data : bytes)
    : LogRecord := mkLogRecord tag vxid timestamp data.

(* ------------------------------------------------------------------ *)
(** ** The ring buffer *)

Record RingBuffer : Set := mkRingBuffer {
  slots : list (option LogRecord);
  write_pos : Z;
  total_written : Z;
  capacity : Z;
}.

(** Panics on capacity zero. *)
Definition RingBuffer_new (cap : Z) : option RingBuffer :=
  if cap <=? 0 then None else Some (mkRingBuffer (replicate (Z.to_nat cap) None) 0 0 cap).

(** [inner.slots[pos] = Some(record)] panics out of range ([None]). *)
Definition RingBuffer_write (record : LogRecord) (b : RingBuffer) : option RingBuffer :=
  let pos := write_pos b in
  if pos <? Z.of_nat (length (slots b)) then
    Some (mkRingBuffer (<[Z.to_nat pos := Some record]> (slots b))
            ((pos + 1) mod capacity b) (u64_wrap (total_written b + 1)) (capacity b))
  else None.

(** The copying loop of [read_from]: [count] records from [logical_pos] on; an
    index out of range would panic ([None]). *)
Fixpoint read_loop (b : RingBuffer) (logical_pos : Z) (count : nat) : option (list LogRecord) :=
  match count with
  | O => Some []
  | S count =>
      let slot_index := Z.to_nat (logical_pos mod capacity b) in
      slot ← slots b !! slot_index;
      records ← read_loop b (logical_pos + 1) count;
      Some (match slot with Some rec => rec :: records | None => records end)
  end.

Definition RingBuffer_read_from (b : RingBuffer) (position : Z) : option (list LogRecord * Z) :=
  let total := total_written b in
  if total <=? position then Some ([], total)
  else
    let stored := Z.min total (capacity b) in
    let oldest_available := total - stored in
    let effective_start := Z.max position oldest_available in
    let count := Z.to_nat (total - effective_start) in
    records ← read_loop b effective_start count;
    Some (records, total).

Definition RingBuffer_len (b : RingBuffer) : Z := Z.min (total_written b) (capacity b).
Definition RingBuffer_is_empty (b : RingBuffer) : bool := RingBuffer_len b =? 0.
Definition RingBuffer_is_full (b : RingBuffer) : bool := capacity b <=? total_written b.

(* ------------------------------------------------------------------ *)
(** ** Writer and reader *)

(** [LogWriter::log]: the tracing call has no effect on the buffer. *)
Definition LogWriter_log (now : VtimReal) (tag : LogTag) (vxid : Vxid) (data : bytes)
    (b : RingBuffer) : option RingBuffer :=
  RingBuffer_write (LogRecord_new now tag vxid data) b.

Definition LogWriter_debug (now : VtimReal) (vxid : Vxid) (msg : bytes) (b : RingBuffer)
    : option RingBuffer := LogWriter_log now LogTag_Debug vxid msg b.

Definition LogWriter_error (now : VtimReal) (vxid : Vxid) (msg : bytes) (b : RingBuffer)
    : option RingBuffer := RingBuffer_write (LogRecord_new now LogTag_Error vxid msg) b.

(** A reader is its position; the buffer is shared with the writers. *)
Record LogReader : Set := mkLogReader { position : Z }.

Definition LogReader_new (b : RingBuffer) : LogReader := mkLogReader (total_written b).
Definition LogReader_from_start : LogReader := mkLogReader 0.

Definition LogReader_read_new (r : LogReader) (b : RingBuffer) : option (list LogRecord * LogReader) :=
  '(records, new_pos) ← RingBuffer_read_from b (position r);
  Some (records, mkLogReader new_pos).

Definition LogReader_read_all (b : RingBuffer) : option (list LogRecord) :=
  fst <$> RingBuffer_read_from b 0.

Definition LogReader_tail (count : Z) (b : RingBuffer) : option (list LogRecord) :=
  let total := total_written b in
  let stored := Z.min total (capacity b) in
  let skip := if count <? stored then total - count else total - stored in
  fst <$> RingBuffer_read_from b skip.

Definition LogReader_filter_by_tag (records : list LogRecord) (tag : LogTag) : list LogRecord :=
  filter (λ r, lr_tag r = tag) records.

Definition LogReader_filter_by_vxid (records : list LogRecord) (vxid : Vxid) : list LogRecord :=
  filter (λ r, vxid_id (lr_vxid r) = vxid_id vxid) records.

Definition LogReader_skip_to_end (b : RingBuffer) : LogReader := mkLogReader (total_written b).
Definition LogReader_reset : LogReader := mkLogReader 0.

(* ------------------------------------------------------------------ *)
(** ** The buffer against its history *)

Definition ring_repr (b : RingBuffer) (cap : Z) (hist : list LogRecord) : Prop :=
  0 < cap ∧ capacity b = cap ∧ Z.of_nat (length (slots b)) = cap
  ∧ total_written b = Z.of_nat (length hist)
  ∧ write_pos b = Z.of_nat (length hist) mod cap
  ∧ ∀ i r, hist !! i = Some r → Z.of_nat (length hist) - cap ≤ Z.of_nat i →
      slots b !! Z.to_nat (Z.of_nat i mod cap) = Some (Some r).

Lemma ring_repr_new cap : 0 < cap → ∃ b, RingBuffer_new cap = Some b ∧ ring_repr b cap [].
Proof.
  intros Hc. unfold RingBuffer_new. rewrite (proj2 (Z.leb_gt _ _)) by done.
  eexists. split; [done|]. split_and!; simpl; try done.
  rewrite length_replicate. lia.
Qed.

(** Two positions less than [cap] apart share a slot only when equal. *)
Lemma mod_window cap i j : 0 < cap → i mod cap = j mod cap → 0 ≤ j - i < cap → i = j.
Proof.
  intros Hc Hm Hw. pose proof (Z.div_mod i cap ltac:(lia)). pose proof (Z.div_mod j cap ltac:(lia)).
  assert (j - i = cap * (j / cap - i / cap)) by nia.
  assert (j / cap - i / cap = 0) by nia. lia.
Qed.

Lemma ring_repr_write b cap hist r :
  ring_repr b cap hist → Z.of_nat (length hist) < u64_max →
  ∃ b', RingBuffer_write r b = Some b' ∧ ring_repr b' cap (hist ++ [r]).
Proof.
  intros (Hc & Hcap & Hlen & Htot & Hpos & Hslots) Hmax. unfold RingBuffer_write.
  set (n := Z.of_nat (length hist)) in *.
  pose proof (Z.mod_pos_bound n cap Hc) as Hb. rewrite Hpos, Hlen.
  rewrite (proj2 (Z.ltb_lt _ _)) by lia. eexists. split; [done|].
  split_and!; simpl; [done|done| | | |].
  - by rewrite length_insert.
  - rewrite Htot, u64_wrap_small, length_app by lia. simpl. lia.
  - rewrite Hcap, length_app. simpl. rewrite Z.add_mod_idemp_l by lia. f_equal. lia.
  - intros i r' Hi Hge. rewrite length_app in Hge. simpl in Hge.
    apply lookup_app_Some in Hi as [Hi|[Hge' Hi]].
    + pose proof (lookup_lt_Some _ _ _ Hi). rewrite list_lookup_insert_ne; [apply Hslots; [done|lia]|].
      pose proof (Z.mod_pos_bound (Z.of_nat i) cap Hc). intros Heq.
      assert (Z.of_nat i = n); [|lia]. apply (mod_window cap); lia.
    + apply list_lookup_singleton_Some in Hi as [Hi0 <-].
      replace (Z.of_nat i) with n by lia. apply list_lookup_insert_eq. lia.
Qed.

Lemma read_loop_spec b cap hist :
  ring_repr b cap hist → ∀ count k,
  (k + count)%nat = length hist → Z.of_nat (length hist) - cap ≤ Z.of_nat k →
  read_loop b (Z.of_nat k) count = Some (drop k hist).
Proof.
  intros (Hc & Hcap & Hlen & Htot & Hpos & Hslots). induction count as [|count IH]; intros k Hk Hge.
  - rewrite drop_ge by lia. done.
  - destruct (lookup_lt_is_Some_2 hist k) as [r Hr]; [lia|].
    cbn [read_loop]. rewrite Hcap, (Hslots k r Hr) by lia. cbn [mbind option_bind].
    replace (Z.of_nat k + 1) with (Z.of_nat (S k)) by lia. rewrite IH by lia. simpl.
    by rewrite (drop_S hist r k).
Qed.

Lemma ring_read_from b cap hist p :
  ring_repr b cap hist → 0 ≤ p →
  RingBuffer_read_from b p =
  Some (drop (Z.to_nat (Z.max p (Z.of_nat (length hist) - cap))) hist, Z.of_nat (length hist)).
Proof.
  intros Hr Hp. pose proof Hr as (Hc & Hcap & Hlen & Htot & _).
  unfold RingBuffer_read_from. rewrite Htot, Hcap. case_if; bool_to_prop.
  - rewrite drop_ge by lia. done.
  - set (n := Z.of_nat (length hist)) in *.
    replace (Z.max p (n - Z.min n cap)) with (Z.max p (n - cap)) by lia.
    set (s := Z.max p (n - cap)) in *.
    replace s with (Z.of_nat (Z.to_nat s)) at 1 by lia.
    rewrite (read_loop_spec b cap hist Hr) by lia. done.
Qed.

(** Writing a sequence of records. *)
Fixpoint write_all (rs : list LogRecord) (b : RingBuffer) : option RingBuffer :=
  match rs with
  | [] => Some b
  | r :: rs => b ← RingBuffer_write r b; write_all rs b
  end.

Lemma write_all_repr cap rs : ∀ b hist,
  ring_repr b cap hist → Z.of_nat (length hist + length rs) ≤ u64_max →
  ∃ b', write_all rs b = Some b' ∧ ring_repr b' cap (hist ++ rs).
Proof.
  induction rs as [|r rs IH]; intros b hist Hr Hmax.
  - exists b. by rewrite app_nil_r.
  - simpl in Hmax. destruct (ring_repr_write b cap hist r Hr) as (b1 & E & Hr1); [lia|].
    simpl. rewrite E. simpl. destruct (IH b1 (hist ++ [r]) Hr1) as (b' & E' & Hr').
    { rewrite length_app. simpl. lia. }
    exists b'. split; [done|]. by rewrite <-app_assoc in Hr'.
Qed.

(** The last [n] elements of a list. *)
Definition last_n {A} (n : Z) (l : list A) : list A := drop (length l - Z.to_nat n) l.

Lemma ring_tail b cap hist n :
  ring_repr b cap hist → 0 ≤ n → LogReader_tail n b = Some (last_n (Z.min n cap) hist).
Proof.
  intros Hr Hn. unfold LogReader_tail. pose proof Hr as (Hc & Hcap & _ & Htot & _).
  rewrite Htot, Hcap, (ring_read_from b cap hist); [|done|case_if; bool_to_prop; lia].
  simpl. f_equal. unfold last_n. f_equal. case_if; bool_to_prop; lia.
Qed.

(** C39. Reading the ring buffer: after writing any records [rs] into a buffer of
    capacity [cap], reading from logical position [p] returns exactly the records
    written since [p] that are among the last [cap], in order, with the position
    to continue from; [tail n] returns the last [min n cap] records.  No index
    is ever out of range. *)
Theorem ring_buffer_reads cap rs :
  0 < cap → Z.of_nat (length rs) ≤ u64_max →
  ∃ b0 b, RingBuffer_new cap = Some b0 ∧ write_all rs b0 = Some b
    ∧ (∀ p, 0 ≤ p → RingBuffer_read_from b p =
         Some (drop (Z.to_nat (Z.max p (Z.of_nat (length rs) - cap))) rs, Z.of_nat (length rs)))
    ∧ (∀ n, 0 ≤ n → LogReader_tail n b = Some (last_n (Z.min n cap) rs)).
Proof.
  intros Hc Hmax. destruct (ring_repr_new cap Hc) as (b0 & E0 & Hr0).
  destruct (write_all_repr cap rs b0 [] Hr0) as (b & E & Hr); [done|].
  exists b0, b. rewrite app_nil_l in Hr. split_and!; [done|done| |].
  - intros p Hp. by apply ring_read_from.
  - intros n Hn. by apply ring_tail.
Qed.

Definition log_sample : list LogRecord :=
  (λ n, mkLogRecord LogTag_Debug (mkVxid n) f64_zero (show_u64 n)) <$> [1; 2; 3; 4; 5].

Lemma ring_buffer_reads_witness :
  ∃ b0 b, RingBuffer_new 3 = Some b0 ∧ write_all log_sample b0 = Some b
    ∧ (∀ p, 0 ≤ p → RingBuffer_read_from b p =
         Some (drop (Z.to_nat (Z.max p (5 - 3))) log_sample, 5))
    ∧ (∀ n, 0 ≤ n → LogReader_tail n b = Some (last_n (Z.min n 3) log_sample)).
Proof. apply (ring_buffer_reads 3 log_sample); [reflexivity|vm_compute; discriminate]. Defined.

(** Following the log loses nothing: a reader positioned at the end of the
    buffer that reads after at most [cap] new records gets exactly these records
    and ends at the end again, whatever was logged before. *)
Theorem log_reader_follows cap before new :
  0 < cap → Z.of_nat (length before + length new) ≤ u64_max → Z.of_nat (length new) ≤ cap →
  ∃ b0 b1 b2, RingBuffer_new cap = Some b0 ∧ write_all before b0 = Some b1
    ∧ write_all new b1 = Some b2
    ∧ LogReader_read_new (LogReader_new b1) b2 = Some (new, LogReader_new b2).
Proof.
  intros Hc Hmax Hnew. destruct (ring_repr_new cap Hc) as (b0 & E0 & Hr0).
  destruct (write_all_repr cap before b0 [] Hr0) as (b1 & E1 & Hr1); [simpl; lia|].
  destruct (write_all_repr cap new b1 before Hr1) as (b2 & E2 & Hr2); [lia|].
  exists b0, b1, b2. split_and!; [done..|].
  unfold LogReader_read_new, LogReader_new. cbn [position].
  pose proof Hr1 as (_ & _ & _ & -> & _). pose proof Hr2 as (_ & _ & _ & -> & _).
  rewrite (ring_read_from b2 cap (before ++ new)) by (done || lia). cbn [mbind option_bind].
  rewrite app_nil_l, length_app, drop_app_length' by lia. done.
Qed.

Lemma log_reader_follows_witness :
  ∃ b0 b1 b2, RingBuffer_new 3 = Some b0 ∧ write_all log_sample b0 = Some b1
    ∧ write_all (take 2 log_sample) b1 = Some b2
    ∧ LogReader_read_new (LogReader_new b1) b2 = Some (take 2 log_sample, LogReader_new b2).
Proof.
  apply (log_reader_follows 3 log_sample); [reflexivity|vm_compute; discriminate..].
Defined.
