(* ===== verification/ObjCore.v ===== *)
(** * Object cores and their evaluation

    Models [rv-storage/src/objcore.rs] and [rv-cache/src/lookup.rs].  Once it is
    behind an [Arc], the plain fields of an [ObjCore] cannot change: an
    [Arc<ObjCore>] is a handle holding its address and those fields.  The atomics
    and the mutex-protected state are a cell of a store indexed by address, which
    every holder of the handle shares. *)

From S2P Require Import Prelude RustStr F64 Enums Types.
Local Open Scope Z_scope.

Record ObjCore : Set := mkObjCore {
  oc_addr : nat;
  oc_digest : Digest;
  t_origin : VtimReal;
  oc_ttl : VtimDur;
  oc_grace : VtimDur;
  oc_keep : VtimDur;
  oc_hits : Z;
  oc_timer_when : VtimReal;
  oc_last_lru : VtimReal;
  oc_timer_idx : Z;
  vary_data : option bytes;
}.

(** The shared part: [refcnt], [flags], [exp_flags] and the inner state. *)
Record OcCell : Type := mkOcCell {
  oc_refcnt : Z;
  oc_flags : ObjCoreFlags;
  oc_exp_flags : ObjExpFlags;
  oc_body : bytes;
  oc_attrs : gmap ObjAttr bytes;
  oc_obj_flags : ObjFlags;
}.

#[global] Instance ObjCore_eq_dec : EqDecision ObjCore.
Proof. solve_decision. Defined.

Abbreviation oc_store := (gmap nat OcCell).

(** A new object core and its cell, at address [a]. *)
Definition ObjCore_new (a : nat) (digest : Digest) : ObjCore :=
  mkObjCore a digest f64_zero VtimDur_ZERO VtimDur_ZERO VtimDur_ZERO 0 f64_zero f64_zero 0 None.

Definition OcCell_new : OcCell := mkOcCell 1 0 0 [] ∅ ObjFlags_empty.

(** The cell of a handle: always allocated, as the handle holds a reference. *)
Definition cell (oc : ObjCore) (st : oc_store) : OcCell := default OcCell_new (st !! oc_addr oc).

Definition set_cell (oc : ObjCore) (c : OcCell) (st : oc_store) : oc_store := <[oc_addr oc := c]> st.

(* ------------------------------------------------------------------ *)
(** ** Flags, freshness *)

Definition is_busy (oc : ObjCore) (st : oc_store) : bool :=
  ObjCoreFlags_contains (oc_flags (cell oc st)) ObjCoreFlags_BUSY.

Definition is_expired (oc : ObjCore) (now : VtimReal) : bool :=
  let deadline := VtimReal_add (t_origin oc) (oc_ttl oc) in f64_gt now deadline.

Definition remaining_ttl (oc : ObjCore) (now : VtimReal) : VtimDur :=
  let deadline := VtimReal_add (t_origin oc) (oc_ttl oc) in
  let remaining := f64_sub deadline now in
  if f64_gt remaining f64_zero then VtimDur_from_secs remaining else VtimDur_ZERO.

Definition remaining_grace (oc : ObjCore) (now : VtimReal) : VtimDur :=
  let deadline := VtimReal_add (VtimReal_add (t_origin oc) (oc_ttl oc)) (oc_grace oc) in
  let remaining := f64_sub deadline now in
  if f64_gt remaining f64_zero then VtimDur_from_secs remaining else VtimDur_ZERO.

Definition upd_flags (f : Z → Z) (c : OcCell) : OcCell :=
  mkOcCell (oc_refcnt c) (f (oc_flags c)) (oc_exp_flags c) (oc_body c) (oc_attrs c) (oc_obj_flags c).
Definition upd_exp_flags (f : Z → Z) (c : OcCell) : OcCell :=
  mkOcCell (oc_refcnt c) (oc_flags c) (f (oc_exp_flags c)) (oc_body c) (oc_attrs c) (oc_obj_flags c).
Definition upd_body (b : bytes) (c : OcCell) : OcCell :=
  mkOcCell (oc_refcnt c) (oc_flags c) (oc_exp_flags c) b (oc_attrs c) (oc_obj_flags c).
Definition upd_attrs (m : gmap ObjAttr bytes) (c : OcCell) : OcCell :=
  mkOcCell (oc_refcnt c) (oc_flags c) (oc_exp_flags c) (oc_body c) m (oc_obj_flags c).
Definition upd_obj_flags (f : ObjFlags) (c : OcCell) : OcCell :=
  mkOcCell (oc_refcnt c) (oc_flags c) (oc_exp_flags c) (oc_body c) (oc_attrs c) f.

Definition set_oc_flag (oc : ObjCore) (flag : ObjCoreFlags) (st : oc_store) : oc_store :=
  set_cell oc (upd_flags (λ f, Z.lor f flag) (cell oc st)) st.
Definition clear_oc_flag (oc : ObjCore) (flag : ObjCoreFlags) (st : oc_store) : oc_store :=
  set_cell oc (upd_flags (λ f, Z.land f (u8_not flag)) (cell oc st)) st.
Definition set_oe_flag (oc : ObjCore) (flag : ObjExpFlags) (st : oc_store) : oc_store :=
  set_cell oc (upd_exp_flags (λ f, Z.lor f flag) (cell oc st)) st.
Definition clear_oe_flag (oc : ObjCore) (flag : ObjExpFlags) (st : oc_store) : oc_store :=
  set_cell oc (upd_exp_flags (λ f, Z.land f (u8_not flag)) (cell oc st)) st.

(* ------------------------------------------------------------------ *)
(** ** Reference counting ([AtomicI32], wrapping) *)

Definition i32_wrap (z : Z) : Z := (z + 2 ^ 31) mod 2 ^ 32 - 2 ^ 31.

Definition upd_refcnt (n : Z) (c : OcCell) : OcCell :=
  mkOcCell n (oc_flags c) (oc_exp_flags c) (oc_body c) (oc_attrs c) (oc_obj_flags c).
Definition oc_ref_count (oc : ObjCore) (st : oc_store) : Z := oc_refcnt (cell oc st).
Definition oc_inc_ref (oc : ObjCore) (st : oc_store) : oc_store :=
  set_cell oc (upd_refcnt (i32_wrap (oc_ref_count oc st + 1)) (cell oc st)) st.
(** Returns the new count. *)
Definition oc_dec_ref (oc : ObjCore) (st : oc_store) : Z * oc_store :=
  let n := i32_wrap (oc_ref_count oc st - 1) in
  (n, set_cell oc (upd_refcnt n (cell oc st)) st).

(* ------------------------------------------------------------------ *)
(** ** Body and attributes *)

Definition store_body (oc : ObjCore) (data : bytes) (st : oc_store) : oc_store :=
  set_cell oc (upd_body data (cell oc st)) st.
Definition append_body (oc : ObjCore) (data : bytes) (st : oc_store) : oc_store :=
  set_cell oc (upd_body (oc_body (cell oc st) ++ data) (cell oc st)) st.
Definition get_body (oc : ObjCore) (st : oc_store) : option bytes :=
  match oc_body (cell oc st) with [] => None | b => Some b end.
Definition body_len (oc : ObjCore) (st : oc_store) : Z := Z.of_nat (length (oc_body (cell oc st))).
Definition clear_body (oc : ObjCore) (st : oc_store) : oc_store :=
  set_cell oc (upd_body [] (cell oc st)) st.
Definition set_attr (oc : ObjCore) (attr : ObjAttr) (data : bytes) (st : oc_store) : oc_store :=
  set_cell oc (upd_attrs (<[attr := data]> (oc_attrs (cell oc st))) (cell oc st)) st.
Definition get_attr (oc : ObjCore) (attr : ObjAttr) (st : oc_store) : option bytes :=
  oc_attrs (cell oc st) !! attr.
Definition remove_attr (oc : ObjCore) (attr : ObjAttr) (st : oc_store) : option bytes * oc_store :=
  (oc_attrs (cell oc st) !! attr,
   set_cell oc (upd_attrs (delete attr (oc_attrs (cell oc st))) (cell oc st)) st).
Definition set_obj_flags (oc : ObjCore) (flags : ObjFlags) (st : oc_store) : oc_store :=
  set_cell oc (upd_obj_flags flags (cell oc st)) st.

(** [set_vary] and the TTL assignments take [&mut self]: before sharing. *)
Definition set_vary (data : bytes) (oc : ObjCore) : ObjCore :=
  mkObjCore (oc_addr oc) (oc_digest oc) (t_origin oc) (oc_ttl oc) (oc_grace oc) (oc_keep oc)
    (oc_hits oc) (oc_timer_when oc) (oc_last_lru oc) (oc_timer_idx oc) (Some data).
Definition set_times (origin : VtimReal) (ttl grace keep : VtimDur) (oc : ObjCore) : ObjCore :=
  mkObjCore (oc_addr oc) (oc_digest oc) origin ttl grace keep
    (oc_hits oc) (oc_timer_when oc) (oc_last_lru oc) (oc_timer_idx oc) (vary_data oc).

(* ------------------------------------------------------------------ *)
(** ** Evaluation (lookup.rs) *)

Inductive CacheLookupResult : Set :=
| Hit (oc : ObjCore)
| Miss
| Grace (oc : ObjCore)
| HitForPass
| Busy.

#[global] Instance CacheLookupResult_eq_dec : EqDecision CacheLookupResult.
Proof. solve_decision. Defined.

Definition evaluate_object (oc : ObjCore) (now : VtimReal) (st : oc_store) : CacheLookupResult :=
  let flags := oc_flags (cell oc st) in
  if ObjCoreFlags_contains flags ObjCoreFlags_BUSY then Busy
  else if ObjCoreFlags_contains flags ObjCoreFlags_HFP then HitForPass
  else if ObjCoreFlags_contains flags ObjCoreFlags_DYING
          || ObjCoreFlags_contains flags ObjCoreFlags_WITHDRAWN then Miss
  else if negb (is_expired oc now) then Hit oc
  else
    let grace_remaining := remaining_grace oc now in
    if VtimDur_is_positive grace_remaining then Grace oc else Miss.

(** An object that may be served: none of the four blocking flags is set. *)
Definition servable (oc : ObjCore) (st : oc_store) : Prop :=
  let flags := oc_flags (cell oc st) in
  Z.testbit flags 0 = false ∧ Z.testbit flags 1 = false
  ∧ Z.testbit flags 3 = false ∧ Z.testbit flags 7 = false.

Lemma contains_bit flags n :
  0 ≤ n → (Z.land flags (Z.shiftl 1 n) =? Z.shiftl 1 n) = Z.testbit flags n.
Proof.
  intros Hn. apply eq_true_iff_eq. rewrite flags_contains_spec, Z.shiftl_1_l. split.
  - intros H. apply H; [done|]. by apply Z.pow2_bits_true.
  - intros H i Hi. destruct (decide (i = n)) as [->|Hne]; [done|].
    rewrite Z.pow2_bits_false by congruence. done.
Qed.

(** The decision as a table over single bits. *)
Lemma evaluate_object_bits oc now st :
  let flags := oc_flags (cell oc st) in
  evaluate_object oc now st =
  if Z.testbit flags 1 then Busy
  else if Z.testbit flags 3 then HitForPass
  else if Z.testbit flags 7 || Z.testbit flags 0 then Miss
  else if negb (is_expired oc now) then Hit oc
  else if VtimDur_is_positive (remaining_grace oc now) then Grace oc else Miss.
Proof.
  simpl. unfold evaluate_object, ObjCoreFlags_contains, ObjCoreFlags_BUSY, ObjCoreFlags_HFP,
    ObjCoreFlags_DYING, ObjCoreFlags_WITHDRAWN.
  by rewrite !contains_bit by lia.
Qed.

Lemma evaluate_hit oc now st oc' :
  evaluate_object oc now st = Hit oc' ↔ oc' = oc ∧ servable oc st ∧ is_expired oc now = false.
Proof.
  rewrite evaluate_object_bits. unfold servable. cbv zeta.
  destruct (Z.testbit _ 1), (Z.testbit _ 3), (Z.testbit _ 7), (Z.testbit _ 0);
    simpl; try naive_solver.
  destruct (is_expired oc now); simpl; [|naive_solver].
  destruct (VtimDur_is_positive _); naive_solver.
Qed.

Lemma evaluate_grace oc now st oc' :
  evaluate_object oc now st = Grace oc' ↔
  oc' = oc ∧ servable oc st ∧ is_expired oc now = true
  ∧ VtimDur_is_positive (remaining_grace oc now) = true.
Proof.
  rewrite evaluate_object_bits. unfold servable. cbv zeta.
  destruct (Z.testbit _ 1), (Z.testbit _ 3), (Z.testbit _ 7), (Z.testbit _ 0);
    simpl; try naive_solver.
  destruct (is_expired oc now); simpl; [|naive_solver].
  destruct (VtimDur_is_positive _); naive_solver.
Qed.

(** Freshness only decreases: an object that would be served fresh at some
    time would have been served fresh at every earlier time (with the same
    flags), whatever its TTL, infinities included. *)
Theorem freshness_monotone oc st now now' :
  f64_le now now' = true →
  evaluate_object oc now' st = Hit oc → evaluate_object oc now st = Hit oc.
Proof.
  intros Hle (_ & Hs & He)%evaluate_hit. apply evaluate_hit. split_and!; [done..|].
  unfold is_expired, f64_gt in *. destruct (f64_lt _ now) eqn:E; [|done].
  by rewrite (f64_lt_le_trans _ _ _ E Hle) in He.
Qed.

Definition sample_oc : ObjCore :=
  set_times (f64_of_Z 1000) (f64_of_Z 60) (f64_of_Z 30) f64_zero (ObjCore_new 0 (test_digest x01)).

Lemma freshness_monotone_witness :
  evaluate_object sample_oc (f64_of_Z 1050) ∅ = Hit sample_oc.
Proof.
  apply (freshness_monotone sample_oc ∅ (f64_of_Z 1050) (f64_of_Z 1060));
    vm_compute; reflexivity.
Defined.

Example evaluate_grace_ex : evaluate_object sample_oc (f64_of_Z 1070) ∅ = Grace sample_oc.
Proof. vm_compute. reflexivity. Qed.
Example evaluate_miss_ex : evaluate_object sample_oc (f64_of_Z 1200) ∅ = Miss.
Proof. vm_compute. reflexivity. Qed.
