(* ===== verification/Expire.v ===== *)
(** * The expiry queue

    Models [rv-cache/src/expire.rs]: sixteen binary heaps of deadlines, chosen by
    the first digest byte.  [BinaryHeap] is modelled by a list; [peek] and [pop]
    take a greatest entry for [ExpiryEntry]'s reversed order, that is one with
    the earliest deadline (the first such one; the library leaves the choice
    among equals open, and no statement below depends on it). *)

From Stdlib Require Import Sorted.
From S2P Require Import Prelude RustStr F64 Enums Types ObjCore.
Local Open Scope Z_scope.

Definition N_EXPIRY_SHARDS : nat := 16.

Record ExpiryEntry : Set := mkExpiryEntry { when : VtimReal; objcore : ObjCore }.

#[global] Instance ExpiryEntry_eq_dec : EqDecision ExpiryEntry.
Proof. solve_decision. Defined.

(** [Ord for ExpiryEntry]: reversed comparison of the deadlines, [Equal] when a
    deadline is NaN. *)
Definition entry_cmp (a b : ExpiryEntry) : comparison :=
  default Eq (f64_compare (when b) (when a)).

(** Take out a greatest element: [b] is the best so far, [skipped] what was
    passed over. *)
Fixpoint pop_loop (b : ExpiryEntry) (skipped l : list ExpiryEntry)
    : ExpiryEntry * list ExpiryEntry :=
  match l with
  | [] => (b, skipped)
  | e :: l =>
      match entry_cmp e b with
      | Gt => pop_loop e (skipped ++ [b]) l
      | _ => pop_loop b (skipped ++ [e]) l
      end
  end.

Definition heap_pop (l : list ExpiryEntry) : option (ExpiryEntry * list ExpiryEntry) :=
  match l with
  | [] => None
  | e :: l => Some (pop_loop e [] l)
  end.

Definition heap_peek (l : list ExpiryEntry) : option ExpiryEntry := fst <$> heap_pop l.

Definition heap_push (e : ExpiryEntry) (l : list ExpiryEntry) : list ExpiryEntry := l ++ [e].

Definition expiry_shard_index (d : Digest) : nat :=
  (Z.to_nat (u8_val (default x00 (bytes_of d !! 0%nat))) mod N_EXPIRY_SHARDS)%nat.

Definition ExpiryManager : Type := list (list ExpiryEntry).

Definition ExpiryManager_new : ExpiryManager := replicate N_EXPIRY_SHARDS [].

Definition ExpiryManager_insert_at (oc : ObjCore) (w : VtimReal) (m : ExpiryManager) : ExpiryManager :=
  let idx := expiry_shard_index (oc_digest oc) in
  alter (heap_push (mkExpiryEntry w oc)) idx m.

(** [oc.t_origin + oc.ttl + oc.grace + oc.keep] *)
Definition deadline (oc : ObjCore) : VtimReal :=
  VtimReal_add (VtimReal_add (VtimReal_add (t_origin oc) (oc_ttl oc)) (oc_grace oc)) (oc_keep oc).

Definition ExpiryManager_insert (oc : ObjCore) (m : ExpiryManager) : ExpiryManager :=
  let w := deadline oc in
  ExpiryManager_insert_at oc w m.

(** The scan of [peek_when] over the shards. *)
Fixpoint peek_loop (shards : ExpiryManager) (earliest : option VtimReal) : option VtimReal :=
  match shards with
  | [] => earliest
  | h :: shards =>
      let earliest :=
        match heap_peek h with
        | Some entry =>
            match earliest with
            | Some current => if f64_le current (when entry) then earliest else Some (when entry)
            | None => Some (when entry)
            end
        | None => earliest
        end in
      peek_loop shards earliest
  end.

Definition ExpiryManager_peek_when (m : ExpiryManager) : option VtimReal := peek_loop m None.

(** The inner [while let Some(entry) = heap.peek()] loop of [expire]; every round
    pops one entry, so [length heap] rounds are enough. *)
Fixpoint expire_shard (fuel : nat) (now : VtimReal) (heap : list ExpiryEntry)
    (expired : list ObjCore) : list ObjCore * list ExpiryEntry :=
  match fuel with
  | O => (expired, heap)
  | S fuel =>
      match heap_peek heap with
      | None => (expired, heap)
      | Some entry =>
          if f64_gt (when entry) now then (expired, heap)
          else
            match heap_pop heap with
            | Some (entry, heap) => expire_shard fuel now heap (expired ++ [objcore entry])
            | None => expire_shard fuel now heap expired
            end
      end
  end.

Fixpoint expire_loop (now : VtimReal) (shards : ExpiryManager) (expired : list ObjCore)
    : list ObjCore * ExpiryManager :=
  match shards with
  | [] => (expired, [])
  | heap :: shards =>
      let '(expired, heap) := expire_shard (length heap) now heap expired in
      let '(expired, shards) := expire_loop now shards expired in
      (expired, heap :: shards)
  end.

Definition ExpiryManager_expire (now : VtimReal) (m : ExpiryManager) : list ObjCore * ExpiryManager :=
  expire_loop now m [].

Definition ExpiryManager_len (m : ExpiryManager) : nat := sum_list (length <$> m).
Definition ExpiryManager_is_empty (m : ExpiryManager) : bool := forallb (λ h, Nat.eqb (length h) 0) m.

Definition ExpiryManager_time_to_next (now : VtimReal) (m : ExpiryManager) : option VtimDur :=
  (λ w, let diff := f64_sub w now in
        if f64_gt diff f64_zero then VtimDur_from_secs diff else VtimDur_ZERO)
  <$> ExpiryManager_peek_when m.

(* ------------------------------------------------------------------ *)
(** ** Heaps *)

(** No deadline is NaN. *)
Definition no_nan (l : list ExpiryEntry) : Prop := Forall (λ e, ¬ is_nan (when e)) l.

Lemma entry_cmp_gt a b : entry_cmp a b = Gt ↔ f64_lt (when a) (when b) = true.
Proof.
  rewrite <-f64_compare_gt. unfold entry_cmp.
  destruct (f64_compare (when b) (when a)) as [[]|]; simpl; naive_solver.
Qed.

Lemma pop_loop_spec l : ∀ b skipped,
  let '(m, rest) := pop_loop b skipped l in
  m :: rest ≡ₚ b :: skipped ++ l
  ∧ (no_nan (b :: skipped ++ l) → Forall (λ e, f64_le (when b) (when e) = true) skipped →
     Forall (λ e, f64_le (when m) (when e) = true) rest).
Proof.
  induction l as [|e l IH]; intros b skipped; simpl.
  - rewrite app_nil_r. done.
  - destruct (decide (f64_lt (when e) (when b) = true)) as [Hlt|Hlt].
    + rewrite (proj2 (entry_cmp_gt e b) Hlt). specialize (IH e (skipped ++ [b])).
      destruct (pop_loop e (skipped ++ [b]) l) as [m rest]. destruct IH as [Hperm Hmin].
      assert (e :: (skipped ++ [b]) ++ l ≡ₚ b :: skipped ++ e :: l) as Hp by solve_Permutation.
      split; [by rewrite Hperm|]. intros Hnan Hs. apply Hmin.
      * unfold no_nan in *. by rewrite Hp.
      * apply Forall_app. split.
        -- eapply Forall_impl; [done|]. intros x Hx. simpl in Hx.
           apply f64_lt_le. eapply f64_lt_le_trans; [done|]. done.
        -- constructor; [by apply f64_lt_le|constructor].
    + replace (match entry_cmp e b with Gt => _ | _ => _ end) with (pop_loop b (skipped ++ [e]) l)
        by (destruct (entry_cmp e b) eqn:E; [done..|by apply entry_cmp_gt in E]).
      specialize (IH b (skipped ++ [e])).
      destruct (pop_loop b (skipped ++ [e]) l) as [m rest]. destruct IH as [Hperm Hmin].
      assert (b :: (skipped ++ [e]) ++ l ≡ₚ b :: skipped ++ e :: l) as Hp by solve_Permutation.
      split; [by rewrite Hperm|]. intros Hnan Hs. apply Hmin.
      * unfold no_nan in *. by rewrite Hp.
      * apply Forall_app. split; [done|]. constructor; [|constructor].
        assert (¬ is_nan (when b) ∧ ¬ is_nan (when e)) as [Hb He].
        { unfold no_nan in Hnan. rewrite Forall_cons, Forall_app, Forall_cons in Hnan. tauto. }
        rewrite f64_le_not_lt by done. by apply negb_true_iff, not_true_iff_false.
Qed.

(** [pop] removes one entry, of earliest deadline. *)
Lemma heap_pop_spec l m rest :
  heap_pop l = Some (m, rest) →
  m :: rest ≡ₚ l ∧ (no_nan l → Forall (λ e, f64_le (when m) (when e) = true) rest).
Proof.
  destruct l as [|e l]; [done|]. simpl. intros [= H].
  pose proof (pop_loop_spec l e []) as Hs. rewrite H in Hs. destruct Hs as [Hp Hmin].
  split; [done|]. intros Hn. apply Hmin; [done|constructor].
Qed.

Lemma heap_peek_pop l : heap_peek l = fst <$> heap_pop l.
Proof. done. Qed.

(* ------------------------------------------------------------------ *)
(** ** Expiry *)

Definition due (now : VtimReal) (e : ExpiryEntry) : bool := negb (f64_gt (when e) now).

Lemma filter_all_out {A} (P : A → bool) l : Forall (λ x, P x = false) l → List.filter P l = [].
Proof. induction 1 as [|x l Hx _ IH]; simpl; [done|]. by rewrite Hx. Qed.
Lemma filter_all_in {A} (P : A → bool) l : Forall (λ x, P x = true) l → List.filter P l = l.
Proof. induction 1 as [|x l Hx _ IH]; simpl; [done|]. by rewrite Hx, IH. Qed.

#[global] Instance filter_Permutation {A} (P : A → bool) :
  Proper (Permutation ==> Permutation) (List.filter P).
Proof.
  intros l l' H. induction H; simpl; try done.
  - case_if; by rewrite IHPermutation.
  - repeat case_if; try done. apply perm_swap.
  - by etrans.
Qed.

Lemma no_nan_perm l l' : l ≡ₚ l' → no_nan l → no_nan l'.
Proof. unfold no_nan. by intros ->. Qed.

(** Popping while due takes exactly the due entries out of a heap. *)
Lemma expire_shard_spec now fuel : ∀ heap expired,
  (length heap ≤ fuel)%nat → no_nan heap →
  let '(out, rest) := expire_shard fuel now heap expired in
  out ≡ₚ expired ++ (objcore <$> List.filter (due now) heap)
  ∧ rest ≡ₚ List.filter (λ e, negb (due now e)) heap.
Proof.
  induction fuel as [|fuel IH]; intros heap expired Hlen Hnan; simpl.
  - destruct heap; [|simpl in Hlen; lia]. simpl. by rewrite app_nil_r.
  - unfold heap_peek. destruct (heap_pop heap) as [[m rest]|] eqn:Hpop; simpl.
    2: { destruct heap; [|done]. simpl. by rewrite app_nil_r. }
    apply heap_pop_spec in Hpop as [Hperm Hmin]. specialize (Hmin Hnan).
    assert (Hn : no_nan (m :: rest)) by by eapply no_nan_perm.
    apply Forall_cons in Hn as [Hm Hn].
    destruct (f64_gt (when m) now) eqn:E.
    + assert (HF : Forall (λ e, due now e = false) (m :: rest)).
      { constructor; [unfold due; by rewrite E|]. eapply Forall_impl; [exact Hmin|]. intros e He.
        simpl in He. unfold due, f64_gt in *. by rewrite (f64_lt_le_trans _ _ _ E He). }
      assert (HF' : Forall (λ e, due now e = false) heap) by by rewrite <-Hperm.
      rewrite filter_all_out by done. rewrite filter_all_in; [by rewrite app_nil_r|].
      eapply Forall_impl; [exact HF'|]. intros e He. simpl in He. by rewrite He.
    + specialize (IH rest (expired ++ [objcore m])).
      assert (Hdue : due now m = true) by (unfold due; by rewrite E).
      destruct (expire_shard fuel now rest (expired ++ [objcore m])) as [out rest'].
      destruct IH as [H1 H2]; [|done|].
      { apply Permutation_length in Hperm. simpl in Hperm. lia. }
      split.
      * rewrite H1, <-Hperm. simpl. rewrite Hdue. simpl. by rewrite <-app_assoc.
      * rewrite H2, <-Hperm. simpl. by rewrite Hdue.
Qed.

Definition entries (m : ExpiryManager) : list ExpiryEntry := mjoin m.

Lemma expire_loop_spec now m : ∀ expired,
  no_nan (entries m) →
  let '(out, m') := expire_loop now m expired in
  out ≡ₚ expired ++ (objcore <$> List.filter (due now) (entries m))
  ∧ entries m' ≡ₚ List.filter (λ e, negb (due now e)) (entries m) ∧ length m' = length m.
Proof.
  unfold entries. induction m as [|heap m IH]; intros expired Hnan; simpl.
  - by rewrite app_nil_r.
  - apply Forall_app in Hnan as [Hh Hm].
    pose proof (expire_shard_spec now (length heap) heap expired (le_n _) Hh) as Hs.
    destruct (expire_shard (length heap) now heap expired) as [out1 heap'].
    destruct Hs as [H1 H2]. specialize (IH out1 Hm).
    destruct (expire_loop now m out1) as [out m']. destruct IH as (H3 & H4 & H5).
    rewrite !List.filter_app, fmap_app. split_and!.
    + rewrite H3, H1. by rewrite app_assoc.
    + simpl. by rewrite H4, H2.
    + simpl. by rewrite H5.
Qed.

(** Nothing is lost in a cycle, whatever the deadlines are. *)
Lemma expire_shard_perm now fuel : ∀ heap expired,
  let '(out, rest) := expire_shard fuel now heap expired in
  ∃ gone, out = expired ++ (objcore <$> gone) ∧ gone ++ rest ≡ₚ heap.
Proof.
  induction fuel as [|fuel IH]; intros heap expired; simpl; [exists []; by rewrite app_nil_r|].
  unfold heap_peek. destruct (heap_pop heap) as [[m rest]|] eqn:Hpop; simpl; [|exists []; by rewrite app_nil_r].
  destruct (f64_gt _ _); [exists []; by rewrite app_nil_r|]. apply heap_pop_spec in Hpop as [Hperm _].
  specialize (IH rest (expired ++ [objcore m])). destruct (expire_shard _ _ _ _) as [out rest'].
  destruct IH as (gone & -> & Hg). exists (m :: gone). rewrite <-app_assoc. split; [done|]. by rewrite <-Hperm, <-Hg.
Qed.

Lemma expire_loop_perm now m : ∀ expired,
  let '(out, m') := expire_loop now m expired in
  length m' = length m ∧ ∃ gone, out = expired ++ (objcore <$> gone) ∧ gone ++ entries m' ≡ₚ entries m.
Proof.
  unfold entries. induction m as [|heap m IH]; intros expired; simpl; [split; [done|]; exists []; by rewrite app_nil_r|].
  pose proof (expire_shard_perm now (length heap) heap expired) as Hs.
  destruct (expire_shard (length heap) now heap expired) as [out1 heap']. destruct Hs as (g1 & -> & H1).
  specialize (IH (expired ++ (objcore <$> g1))). destruct (expire_loop now m _) as [out m'].
  destruct IH as (Hl & g2 & -> & H2). simpl. split; [by rewrite Hl|]. exists (g1 ++ g2).
  rewrite fmap_app, app_assoc. split; [done|]. rewrite <-H1, <-H2. solve_Permutation.
Qed.

(** An expiry cycle at time [now] takes out of the queue exactly the objects
    whose deadline is not after [now], each as often as it was queued, and
    leaves all the others in place, whatever the order of insertion and the
    distribution over the shards. *)
Theorem expire_exact now m :
  no_nan (entries m) →
  let '(out, m') := ExpiryManager_expire now m in
  out ≡ₚ objcore <$> List.filter (due now) (entries m)
  ∧ entries m' ≡ₚ List.filter (λ e, negb (due now e)) (entries m).
Proof.
  intros Hnan. unfold ExpiryManager_expire. pose proof (expire_loop_spec now m [] Hnan) as H.
  destruct (expire_loop now m []) as [out m']. by destruct H as (? & ? & _).
Qed.

Definition expiry_sample : ExpiryManager :=
  ExpiryManager_insert sample_oc
    (ExpiryManager_insert_at (ObjCore_new 1 (test_digest x02)) (f64_of_Z 2000) ExpiryManager_new).

Lemma expire_exact_witness :
  let '(out, m') := ExpiryManager_expire (f64_of_Z 1500) expiry_sample in
  out ≡ₚ objcore <$> List.filter (due (f64_of_Z 1500)) (entries expiry_sample)
  ∧ entries m' ≡ₚ List.filter (λ e, negb (due (f64_of_Z 1500) e)) (entries expiry_sample).
Proof.
  apply (expire_exact (f64_of_Z 1500) expiry_sample).
  vm_compute. repeat constructor; discriminate.
Defined.

Example expire_sample_out :
  fst (ExpiryManager_expire (f64_of_Z 1500) expiry_sample) = [sample_oc].
Proof. vm_compute. reflexivity. Qed.

(** Inserting adds one entry, with the deadline after the keep period. *)
Lemma entries_insert_at oc w m :
  length m = N_EXPIRY_SHARDS →
  entries (ExpiryManager_insert_at oc w m) ≡ₚ mkExpiryEntry w oc :: entries m.
Proof.
  intros Hlen. unfold ExpiryManager_insert_at, entries.
  assert (expiry_shard_index (oc_digest oc) < length m)%nat as Hi
    by (rewrite Hlen; by apply Nat.mod_upper_bound).
  generalize dependent (expiry_shard_index (oc_digest oc)). clear Hlen.
  induction m as [|h m IH]; intros [|i] Hi; [simpl in Hi; lia..| |].
  - change (heap_push (mkExpiryEntry w oc) h ++ mjoin m ≡ₚ mkExpiryEntry w oc :: h ++ mjoin m).
    unfold heap_push. rewrite <-app_assoc. simpl. by rewrite Permutation_middle.
  - change (h ++ mjoin (alter (heap_push (mkExpiryEntry w oc)) i m)
            ≡ₚ mkExpiryEntry w oc :: h ++ mjoin m).
    rewrite IH by (simpl in Hi; lia). by rewrite Permutation_middle.
Qed.

Lemma heap_peek_spec h :
  no_nan h →
  match heap_peek h with
  | None => h = []
  | Some e => e ∈ h ∧ ∀ e', e' ∈ h → f64_le (when e) (when e') = true
  end.
Proof.
  intros Hn. unfold heap_peek. destruct (heap_pop h) as [[m rest]|] eqn:E; simpl.
  - apply heap_pop_spec in E as [Hp Hmin]. specialize (Hmin Hn). split.
    + rewrite <-Hp. left.
    + intros e'. rewrite <-Hp. intros [->|He]%elem_of_cons.
      * apply f64_le_refl. apply (no_nan_perm _ _ (symmetry Hp)) in Hn.
        by apply Forall_cons in Hn as [? _].
      * rewrite Forall_forall in Hmin. by apply Hmin.
  - by destruct h.
Qed.

(** The scan keeps the earliest of the start value and the heads seen. *)
Lemma peek_loop_spec m : ∀ o : option VtimReal,
  no_nan (entries m) → match o with Some w => ¬ is_nan w | None => True end →
  match peek_loop m o with
  | Some w => (o = Some w ∨ ∃ e, e ∈ entries m ∧ when e = w)
              ∧ (∀ e, e ∈ entries m → f64_le w (when e) = true)
              ∧ match o with Some w0 => f64_le w w0 = true | None => True end
  | None => o = None ∧ entries m = []
  end.
Proof.
  unfold entries. induction m as [|h m IH]; intros o Hn Ho; simpl.
  - destruct o as [w|]; [|done]. split_and!; [by left|by intros ? ?%not_elem_of_nil|].
    by apply f64_le_refl.
  - apply Forall_app in Hn as [Hh Hm]. pose proof (heap_peek_spec h Hh) as Hpeek.
    destruct (heap_peek h) as [e0|].
    2: { subst h. by apply IH. }
    destruct Hpeek as [Hin Hmin].
    assert (He0 : ¬ is_nan (when e0)) by (unfold no_nan in Hh; rewrite Forall_forall in Hh; by apply Hh).
    match goal with |- context [peek_loop m ?x] => set (o' := x) end.
    assert (Ho' : ∃ w', o' = Some w' ∧ ¬ is_nan w' ∧ f64_le w' (when e0) = true
              ∧ (o = Some w' ∨ w' = when e0)
              ∧ match o with Some w0 => f64_le w' w0 = true | None => True end).
    { subst o'. destruct o as [w0|].
      - destruct (f64_le w0 (when e0)) eqn:E.
        + exists w0. split_and!; auto. by apply f64_le_refl.
        + exists (when e0). split_and!; auto using f64_le_refl.
          destruct (f64_le_total w0 (when e0) Ho He0); [congruence|done].
      - exists (when e0). split_and!; auto using f64_le_refl. }
    destruct Ho' as (w' & Eo' & Hw' & Hle & Hsrc & Hold). rewrite Eo'.
    specialize (IH (Some w') Hm Hw'). destruct (peek_loop m (Some w')) as [w|]; [|naive_solver].
    destruct IH as (Hsrc' & Hmin' & Hle'). split_and!.
    + destruct Hsrc' as [[= <-]|(e & He & <-)].
      * destruct Hsrc as [?|?]; [by left|right]. exists e0. set_solver.
      * right. exists e. set_solver.
    + intros e [He|He]%elem_of_app; [|by apply Hmin'].
      eapply f64_le_trans; [done|]. eapply f64_le_trans; [done|by apply Hmin].
    + destruct o as [w0|]; [|done]. by eapply f64_le_trans.
Qed.

(** [peek_when] is the earliest deadline in the queue: none when it is empty,
    otherwise the deadline of some entry that no other entry precedes. *)
Lemma peek_when_earliest m :
  no_nan (entries m) →
  match ExpiryManager_peek_when m with
  | None => entries m = []
  | Some w => (∃ e, e ∈ entries m ∧ when e = w) ∧ ∀ e, e ∈ entries m → f64_le w (when e) = true
  end.
Proof.
  intros Hnan. pose proof (peek_loop_spec m None) as H. unfold ExpiryManager_peek_when.
  specialize (H Hnan I). destruct (peek_loop m None) as [w|].
  - destruct H as ([?|He] & Hmin & _); [done|]. done.
  - destruct H as [_ H]. done.
Qed.

Lemma peek_when_earliest_witness :
  match ExpiryManager_peek_when expiry_sample with
  | None => entries expiry_sample = []
  | Some w => (∃ e, e ∈ entries expiry_sample ∧ when e = w)
              ∧ ∀ e, e ∈ entries expiry_sample → f64_le w (when e) = true
  end.
Proof. apply (peek_when_earliest expiry_sample). vm_compute. repeat constructor; discriminate. Defined.
