(* ===== verification/Stevedore.v ===== *)
(** * Storage: the stevedore interface and the malloc stevedore

    Models [rv-storage/src/traits.rs] and [rv-storage/src/malloc.rs].  The trait
    is a class over the state of a storage backend.  Space accounting is the
    point of the malloc backend: [used] is an [AtomicUsize] that wraps.
    [std::mem::size_of::<StoredObject>()] depends on the layout of a standard
    library type and is a parameter. *)

From S2P Require Import Prelude RustStr F64 Enums Types ObjCore.
Local Open Scope Z_scope.

Inductive StorageError : Set :=
| StorageError_AllocFailed
| StorageError_Full
| StorageError_NotFound
| StorageError_Io (msg : bytes).

#[global] Instance StorageError_eq_dec : EqDecision StorageError.
Proof. solve_decision. Defined.

(** The operations the cache uses.  [free_obj] and [alloc_obj] only read the
    digest of the object they are given; [get_body] also reads the object's
    shared cell. *)
Class Stevedore (S : Type) := {
  sv_alloc_obj : Digest → Z → S → result unit StorageError * S;
  sv_free_obj : Digest → S → S;
  sv_get_space : Z → S → result unit StorageError * S;
  sv_extend : Digest → bytes → S → result unit StorageError * S;
  sv_get_attr : Digest → ObjAttr → S → option bytes;
  sv_set_attr : Digest → ObjAttr → bytes → S → result unit StorageError * S;
  sv_get_body : ObjCore → oc_store → S → option bytes;
  sv_total_space : S → Z;
  sv_used_space : S → Z;
}.

(* ------------------------------------------------------------------ *)
(** ** The malloc stevedore *)

Module Malloc.

Record StoredObject : Type := mkStored { attrs : gmap ObjAttr bytes; body_size : Z }.

Definition StoredObject_new : StoredObject := mkStored ∅ 0.

Record t : Type := mk {
  name : bytes;
  max_size : Z;
  used : Z;
  objects : gmap Digest StoredObject;
  is_open : bool;
}.

Definition with_used (u : Z) (m : t) : t := mk (name m) (max_size m) u (objects m) (is_open m).
Definition with_objects (o : gmap Digest StoredObject) (m : t) : t :=
  mk (name m) (max_size m) (used m) o (is_open m).

Definition new (nm : bytes) (max : Z) : t := mk nm max 0 ∅ false.

Definition open (m : t) : t := mk (name m) (max_size m) (used m) (objects m) true.
Definition close (m : t) : t := mk (name m) (max_size m) 0 ∅ false.

Definition object_count (m : t) : nat := size (objects m).

(** The compare-and-swap loop, as the one atomic update it performs. *)
Definition try_reserve (additional : Z) (m : t) : result unit StorageError * t :=
  match checked_add (used m) additional with
  | None => (Err StorageError_Full, m)
  | Some new_val =>
      if max_size m <? new_val then (Err StorageError_Full, m)
      else (Ok tt, with_used new_val m)
  end.

Definition release (amount : Z) (m : t) : t := with_used (u64_wrap (used m - amount)) m.

Section sized.
  (** [size_of::<StoredObject>()]; [size_of::<ObjAttr>()] is 1. *)
  Context (overhead : Z).

Definition attrs_size (a : gmap ObjAttr bytes) : Z :=
  foldr (λ p n, Z.of_nat (length p.2) + 1 + n) 0 (map_to_list a).

Definition size (o : StoredObject) : Z := body_size o + attrs_size (attrs o) + overhead.

Definition alloc_obj (d : Digest) (size_hint : Z) (m : t) : result unit StorageError * t :=
  let reserve := u64_wrap (size_hint + overhead) in
  match try_reserve reserve m with
  | (Err e, m) => (Err e, m)
  | (Ok _, m) => (Ok tt, with_objects (<[d := StoredObject_new]> (objects m)) m)
  end.

Definition free_obj (d : Digest) (m : t) : t :=
  match objects m !! d with
  | Some obj => release (size obj) (with_objects (delete d (objects m)) m)
  | None => m
  end.

Definition get_space (desired : Z) (m : t) : result unit StorageError * t := try_reserve desired m.

Definition extend (d : Digest) (data : bytes) (m : t) : result unit StorageError * t :=
  match objects m !! d with
  | None => (Err StorageError_NotFound, m)
  | Some entry =>
      (Ok tt, with_objects
        (<[d := mkStored (attrs entry) (u64_wrap (body_size entry + Z.of_nat (length data)))]>
           (objects m)) m)
  end.

Definition get_attr (d : Digest) (attr : ObjAttr) (m : t) : option bytes :=
  entry ← objects m !! d; attrs entry !! attr.

Definition set_attr (d : Digest) (attr : ObjAttr) (data : bytes) (m : t)
    : result unit StorageError * t :=
  match objects m !! d with
  | None => (Err StorageError_NotFound, m)
  | Some entry =>
      let old_size := match attrs entry !! attr with
                      | Some v => Z.of_nat (length v) | None => 0 end in
      let new_size := Z.of_nat (length data) in
      let '(r, m) := if old_size <? new_size then try_reserve (new_size - old_size) m
                     else (Ok tt, release (old_size - new_size) m) in
      match r with
      | Err e => (Err e, m)
      | Ok _ => (Ok tt, with_objects
          (<[d := mkStored (<[attr := data]> (attrs entry)) (body_size entry)]> (objects m)) m)
      end
  end.

(** The body lives in the object core; the entry must exist. *)
Definition get_body (oc : ObjCore) (st : oc_store) (m : t) : option bytes :=
  _ ← objects m !! oc_digest oc; ObjCore.get_body oc st.

Definition total_space (m : t) : Z := max_size m.
Definition used_space (m : t) : Z := used m.
Definition free_space (m : t) : Z := saturating_sub (max_size m) (used m).

#[global] Instance stevedore : Stevedore t := {|
  sv_alloc_obj := alloc_obj;
  sv_free_obj := free_obj;
  sv_get_space := get_space;
  sv_extend := extend;
  sv_get_attr := get_attr;
  sv_set_attr := set_attr;
  sv_get_body := get_body;
  sv_total_space := total_space;
  sv_used_space := used_space;
|}.
End sized.

End Malloc.

(* ------------------------------------------------------------------ *)
(** ** Accounting *)

Import Malloc.

(** The bytes of all the objects. *)
Definition total_size (overhead : Z) (m : gmap Digest StoredObject) : Z :=
  map_fold (λ _ o n, size overhead o + n) 0 m.

Lemma total_size_insert overhead m d o :
  m !! d = None → total_size overhead (<[d := o]> m) = size overhead o + total_size overhead m.
Proof.
  intros Hd. unfold total_size.
  apply (map_fold_insert_L (λ _ o n, size overhead o + n)); [|done]. intros. lia.
Qed.

Lemma total_size_delete overhead m d o :
  m !! d = Some o → total_size overhead m = size overhead o + total_size overhead (delete d m).
Proof.
  intros Hd. rewrite <-(insert_delete_id m d o) at 1 by done.
  apply total_size_insert, lookup_delete_eq.
Qed.

(** Storing a new object the way the cache engine does: allocate the exact body
    size, then extend by the body. *)
Definition store (overhead : Z) (d : Digest) (body : bytes) (m : t) : result unit StorageError * t :=
  match alloc_obj overhead d (Z.of_nat (length body)) m with
  | (Err e, m) => (Err e, m)
  | (Ok _, m) => extend d body m
  end.

Inductive store_op : Set :=
| SStore (d : Digest) (body : bytes)
| SFree (d : Digest).

Definition store_step (overhead : Z) (o : store_op) (m : t) : t :=
  match o with
  | SStore d body => snd (store overhead d body m)
  | SFree d => free_obj overhead d m
  end.

(** The discipline under which the accounting is exact: a digest is stored only
    when it is not already there. *)
Fixpoint stores_ok (overhead : Z) (ops : list store_op) (m : t) : Prop :=
  match ops with
  | [] => True
  | o :: ops =>
      match o with SStore d _ => objects m !! d = None | SFree _ => True end
      ∧ stores_ok overhead ops (store_step overhead o m)
  end.

(** The accounting invariant. *)
Definition accounted (overhead : Z) (m : t) : Prop :=
  used m = total_size overhead (objects m) ∧ 0 ≤ used m ≤ max_size m ∧ max_size m ≤ u64_max
  ∧ map_Forall (λ _ o, 0 ≤ size overhead o) (objects m).

Lemma attrs_size_empty : attrs_size ∅ = 0.
Proof. unfold attrs_size. by rewrite map_to_list_empty. Qed.

Lemma total_size_nonneg overhead m :
  map_Forall (λ _ o, 0 ≤ size overhead o) m → 0 ≤ total_size overhead m.
Proof.
  intros H. induction m as [|d o m Hd IH] using map_ind; [done|].
  apply map_Forall_insert in H as [Ho H]; [|done]. rewrite total_size_insert by done.
  specialize (IH H). lia.
Qed.

Lemma store_accounted overhead d body m :
  0 ≤ overhead → Z.of_nat (length body) + overhead ≤ u64_max →
  accounted overhead m → objects m !! d = None → accounted overhead (snd (store overhead d body m)).
Proof.
  intros Ho Hb (Hu & Hr & Hm & HF) Hd. unfold store, alloc_obj.
  rewrite u64_wrap_small by lia. unfold try_reserve.
  destruct (checked_add (used m) _) as [nv|] eqn:E; [|done].
  apply checked_add_Some in E as [-> E]. case_if; [done|]. bool_to_prop. simpl.
  unfold extend. simpl. rewrite lookup_insert_eq. simpl. rewrite insert_insert_eq.
  assert (Hs : size overhead (mkStored ∅ (u64_wrap (0 + Z.of_nat (length body))))
               = Z.of_nat (length body) + overhead).
  { unfold size. simpl. rewrite attrs_size_empty, u64_wrap_small by lia. lia. }
  split_and!; simpl; [|lia|lia|lia|].
  - rewrite total_size_insert by done. rewrite Hs. lia.
  - apply map_Forall_insert; [done|]. split; [lia|done].
Qed.

Lemma free_accounted overhead d m : accounted overhead m → accounted overhead (free_obj overhead d m).
Proof.
  intros (Hu & Hr & Hm & HF). unfold free_obj. destruct (objects m !! d) as [o|] eqn:E; [|done].
  pose proof (HF _ _ E) as Ho. simpl in Ho.
  pose proof (total_size_delete overhead _ _ _ E) as Ht.
  assert (HF' : map_Forall (λ _ o, 0 ≤ size overhead o) (delete d (objects m)))
    by by apply map_Forall_delete.
  pose proof (total_size_nonneg overhead _ HF').
  split_and!; simpl; rewrite ?u64_wrap_small by lia; try lia. done.
Qed.

Lemma max_size_store overhead d body m : max_size (snd (store overhead d body m)) = max_size m.
Proof.
  unfold store, alloc_obj, try_reserve. destruct (checked_add _ _); [|done]. case_if; [done|].
  unfold extend. simpl. by rewrite lookup_insert_eq.
Qed.

(** Well-formed requests: bodies whose size fits the machine word. *)
Definition ops_fit (overhead : Z) (ops : list store_op) : Prop :=
  Forall (λ o, match o with
               | SStore _ body => Z.of_nat (length body) + overhead ≤ u64_max
               | SFree _ => True end) ops.

(** Malloc accounting is exact under the store-once discipline: after any
    sequence of stores (of digests not present) and frees, the bytes in use are
    the sum of the sizes of the stored objects, never exceed the configured
    maximum, and are zero when the store is empty; a store beyond the maximum
    fails without changing anything. *)
Theorem malloc_accounting overhead nm max ops :
  0 ≤ overhead → 0 ≤ max ≤ u64_max → ops_fit overhead ops →
  stores_ok overhead ops (new nm max) →
  let m := foldl (λ m o, store_step overhead o m) (new nm max) ops in
  used_space m = total_size overhead (objects m) ∧ 0 ≤ used_space m ≤ max
  ∧ (objects m = ∅ → used_space m = 0).
Proof.
  intros Ho Hmax Hfit Hok.
  assert (Hinv : ∀ ops m, max_size m = max → accounted overhead m → ops_fit overhead ops →
            stores_ok overhead ops m →
            let m' := foldl (λ m o, store_step overhead o m) m ops in
            accounted overhead m' ∧ max_size m' = max).
  { clear -Ho. induction ops as [|o ops IH]; intros m Hm Hacc Hfit Hok; [done|].
    apply Forall_cons in Hfit as [Ho' Hfit]. destruct Hok as [Hpre Hok].
    assert (accounted overhead (store_step overhead o m) ∧ max_size (store_step overhead o m) = max)
      as [Hacc' Hm']; [|by apply IH].
    destruct o as [d body|d].
    - split; [by apply store_accounted|]. simpl. by rewrite max_size_store.
    - split; [by apply free_accounted|]. simpl. unfold free_obj. by destruct (objects m !! d). }
  assert (accounted overhead (new nm max)) as Hnew.
  { split_and!; simpl; try lia; [done|apply map_Forall_empty]. }
  destruct (Hinv ops (new nm max) eq_refl Hnew Hfit Hok) as [(Hu & Hr & _) Hm].
  simpl. unfold used_space. split_and!; [done|lia|lia|]. intros He. by rewrite Hu, He.
Qed.

(** The discipline, decided. *)
Fixpoint stores_okb (overhead : Z) (ops : list store_op) (m : t) : bool :=
  match ops with
  | [] => true
  | o :: ops =>
      match o with SStore d _ => bool_decide (objects m !! d = None) | SFree _ => true end
      && stores_okb overhead ops (store_step overhead o m)
  end.

Lemma stores_okb_sound overhead ops m : stores_okb overhead ops m = true → stores_ok overhead ops m.
Proof.
  revert m. induction ops as [|o ops IH]; intros m; [done|]. cbn [stores_okb stores_ok].
  intros [Ho Hops]%andb_true_iff. split; [|by apply IH].
  destruct o; [by apply bool_decide_eq_true in Ho|done].
Qed.

Definition malloc_sample : list store_op :=
  [SStore (test_digest x01) (str "hello"); SStore (test_digest x02) (str "hi");
   SFree (test_digest x01); SStore (test_digest x01) (str "again"); SFree (test_digest x07)].

Lemma malloc_accounting_witness :
  let m := foldl (λ m o, store_step 56 o m) (new (str "s0") 200) malloc_sample in
  used_space m = 119 ∧
  used_space m = total_size 56 (objects m) ∧ 0 ≤ used_space m ≤ 200
  ∧ (objects m = ∅ → used_space m = 0).
Proof.
  cbv zeta. split; [vm_compute; reflexivity|].
  apply (malloc_accounting 56 (str "s0") 200 malloc_sample); [lia|unfold u64_max; lia| |].
  - repeat constructor; vm_compute; discriminate.
  - apply stores_okb_sound. vm_compute. reflexivity.
Defined.

(** Storing a second variant under the same digest leaks space for good: the
    entry is overwritten, so freeing both variants leaves an empty store that
    still counts the bytes of the first. *)
Theorem malloc_variant_leak overhead d b1 b2 max :
  0 < overhead → Z.of_nat (length b1) + Z.of_nat (length b2) + 2 * overhead ≤ max ≤ u64_max →
  let m := foldl (λ m o, store_step overhead o m) (new [] max)
             [SStore d b1; SStore d b2; SFree d; SFree d] in
  objects m = ∅ ∧ used_space m = Z.of_nat (length b1) + overhead ∧ 0 < used_space m.
Proof.
  intros Ho Hmax. simpl.
  assert (Hsize : ∀ b : bytes, 0 ≤ Z.of_nat (length b) ≤ u64_max →
    size overhead (mkStored ∅ (u64_wrap (0 + Z.of_nat (length b)))) = Z.of_nat (length b) + overhead).
  { intros b Hb. unfold size. simpl. rewrite attrs_size_empty, u64_wrap_small by lia. lia. }
  assert (Hstore : ∀ b m, 0 ≤ used m → max_size m = max →
    used m + Z.of_nat (length b) + overhead ≤ max →
    snd (store overhead d b m) =
    with_objects (<[d := mkStored ∅ (u64_wrap (0 + Z.of_nat (length b)))]> (objects m))
      (with_used (used m + (Z.of_nat (length b) + overhead)) m)).
  { intros b m Hu Hm Hfit. unfold store, alloc_obj. rewrite u64_wrap_small by lia.
    unfold try_reserve, checked_add. rewrite (proj2 (Z.leb_le _ _)) by lia.
    rewrite (proj2 (Z.ltb_ge _ _)) by lia. simpl. unfold extend. simpl.
    rewrite lookup_insert_eq. simpl. by rewrite insert_insert_eq. }
  rewrite (Hstore b1 (new [] max)) by (simpl; lia). rewrite Hstore by (simpl; lia). simpl.
  rewrite insert_insert_eq. unfold free_obj. simpl. rewrite lookup_insert_eq. simpl.
  rewrite delete_insert_id by done. unfold release, with_used. simpl. rewrite lookup_empty.
  rewrite Hsize by lia. unfold used_space. simpl. rewrite u64_wrap_small by lia.
  split_and!; [done|lia|lia].
Qed.

Lemma malloc_variant_leak_witness :
  let m := foldl (λ m o, store_step 56 o m) (new [] 1000)
             [SStore (test_digest x01) (str "gzip"); SStore (test_digest x01) (str "br");
              SFree (test_digest x01); SFree (test_digest x01)] in
  objects m = ∅ ∧ used_space m = 4 + 56 ∧ 0 < used_space m.
Proof. apply (malloc_variant_leak 56 (test_digest x01) (str "gzip") (str "br") 1000); vm_compute; intuition discriminate. Defined.

(** Freeing can underflow the counter: an object with one attribute releases a
    byte more than was ever reserved, after which the counter has wrapped to the
    top of the word and every later allocation is refused. *)
Theorem malloc_attr_underflow overhead d max :
  0 < overhead → 1 + overhead ≤ max ≤ u64_max →
  let '(_, m) := alloc_obj overhead d 0 (new [] max) in
  let '(_, m) := set_attr d ObjAttr_Vary [x00] m in
  let m := free_obj overhead d m in
  objects m = ∅ ∧ used_space m = u64_max
  ∧ ∀ d' n, 0 ≤ n → n + overhead ≤ u64_max → fst (alloc_obj overhead d' n m) = Err StorageError_Full.
Proof.
  intros Ho Hmax. unfold alloc_obj. rewrite u64_wrap_small by lia.
  unfold try_reserve at 1, checked_add at 1. simpl.
  rewrite (proj2 (Z.leb_le _ _)) by lia. rewrite (proj2 (Z.ltb_ge _ _)) by lia. simpl.
  unfold set_attr. simpl. rewrite lookup_insert_eq. simpl.
  rewrite lookup_empty. simpl. unfold try_reserve at 1, checked_add at 1. simpl.
  rewrite (proj2 (Z.leb_le _ _)) by lia. rewrite (proj2 (Z.ltb_ge _ _)) by lia. simpl.
  rewrite insert_insert_eq. unfold free_obj. simpl. rewrite lookup_insert_eq. simpl.
  rewrite delete_insert_id by done. unfold size. simpl.
  assert (attrs_size {[ObjAttr_Vary := [x00]]} = 2) as Ha by (vm_compute; reflexivity).
  rewrite insert_empty. rewrite Ha.
  assert (Hwrap : u64_wrap (0 + (0 + overhead) + (Z.of_nat 1 - 0) - (0 + 2 + overhead)) = u64_max)
    by (replace (0 + (0 + overhead) + (Z.of_nat 1 - 0) - (0 + 2 + overhead)) with (-1) by lia; reflexivity).
  split; [reflexivity|]. split; [exact Hwrap|].
  intros d' n Hn Hfit. unfold try_reserve, checked_add. simpl.
  rewrite Hwrap, (u64_wrap_small (n + overhead)) by lia.
  rewrite (proj2 (Z.leb_gt _ _)) by lia. done.
Qed.

Lemma malloc_attr_underflow_witness :
  let '(_, m) := alloc_obj 56 (test_digest x01) 0 (new [] 1000) in
  let '(_, m) := set_attr (test_digest x01) ObjAttr_Vary [x00] m in
  let m := free_obj 56 (test_digest x01) m in
  objects m = ∅ ∧ used_space m = u64_max
  ∧ ∀ d' n, 0 ≤ n → n + 56 ≤ u64_max → fst (alloc_obj 56 d' n m) = Err StorageError_Full.
Proof. apply (malloc_attr_underflow 56 (test_digest x01) 1000); vm_compute; intuition discriminate. Defined.
