(* ===== verification/Mmap.v ===== *)
(** * Memory-mapped files

    What the file-backed stevedores use of memmap2's [MmapMut]: a region of
    [mm_len] bytes that reads as zeros where nothing was written (a file grown by
    [set_len]), written through raw pointers and read through slices.  A write or
    a read outside the region is [None]: undefined behaviour for the pointer copy,
    a panic for the slice. *)

From S2P Require Import Prelude RustStr.
Local Open Scope Z_scope.

Record Mmap : Type := mkMmap { mm_len : Z; mm_cells : gmap Z byte }.

(** A region of a file just created with [set_len]. *)
Definition mmap_zeroed (len : Z) : Mmap := mkMmap len ∅.

Definition byte_at (m : Mmap) (i : Z) : byte := default x00 (mm_cells m !! i).

Fixpoint put (off : Z) (data : bytes) (cells : gmap Z byte) : gmap Z byte :=
  match data with
  | [] => cells
  | b :: data => <[off := b]> (put (off + 1) data cells)
  end.

(** Is [off .. off + n] inside the region? *)
Definition in_region (m : Mmap) (off n : Z) : bool := (0 <=? off) && (off + n <=? mm_len m).

(** [ptr::copy_nonoverlapping(data.as_ptr(), base.add(off), data.len())]. *)
Definition mmap_write (off : Z) (data : bytes) (m : Mmap) : option Mmap :=
  if in_region m off (Z.of_nat (length data)) then
    Some (mkMmap (mm_len m) (put off data (mm_cells m)))
  else None.

(** The bytes from [off] on. *)
Fixpoint peek_bytes (m : Mmap) (off : Z) (n : nat) : bytes :=
  match n with
  | O => []
  | S n => byte_at m off :: peek_bytes m (off + 1) n
  end.

(** [mmap[off .. off + n].to_vec()]. *)
Definition mmap_read (off : Z) (n : nat) (m : Mmap) : option bytes :=
  if in_region m off (Z.of_nat n) then Some (peek_bytes m off n) else None.

(* ------------------------------------------------------------------ *)
(** ** Reading back what was written *)

Lemma length_peek_bytes m n : ∀ off, length (peek_bytes m off n) = n.
Proof. induction n as [|n IH]; intros off; simpl; [done|]. by rewrite IH. Qed.

Lemma put_other data : ∀ off cells i,
  i < off ∨ off + Z.of_nat (length data) ≤ i → put off data cells !! i = cells !! i.
Proof.
  induction data as [|b data IH]; intros off cells i Hi; simpl in *; [done|].
  rewrite lookup_insert_ne by lia. apply IH. lia.
Qed.

Lemma put_same data : ∀ off cells k b,
  data !! k = Some b → put off data cells !! (off + Z.of_nat k) = Some b.
Proof.
  induction data as [|b' data IH]; intros off cells k b Hk; [done|].
  destruct k as [|k]; simpl in *.
  - rewrite Z.add_0_r, lookup_insert_eq. congruence.
  - rewrite lookup_insert_ne by lia.
    replace (off + Z.of_nat (S k)) with (off + 1 + Z.of_nat k) by lia. by apply IH.
Qed.

Lemma peek_bytes_ext m m' n : ∀ off,
  (∀ i, off ≤ i < off + Z.of_nat n → byte_at m i = byte_at m' i) →
  peek_bytes m off n = peek_bytes m' off n.
Proof.
  induction n as [|n IH]; intros off Hb; simpl; [done|].
  rewrite Hb by lia. f_equal. apply IH. intros i Hi. apply Hb. lia.
Qed.

Lemma peek_bytes_lookup m n : ∀ off k,
  (k < n)%nat → peek_bytes m off n !! k = Some (byte_at m (off + Z.of_nat k)).
Proof.
  induction n as [|n IH]; intros off k Hk; [lia|]. destruct k as [|k]; simpl.
  - by rewrite Z.add_0_r.
  - rewrite IH by lia. do 2 f_equal. lia.
Qed.

Lemma peek_bytes_app m n n' : ∀ off,
  peek_bytes m off (n + n') = peek_bytes m off n ++ peek_bytes m (off + Z.of_nat n) n'.
Proof.
  induction n as [|n IH]; intros off; simpl; [by rewrite Z.add_0_r|].
  rewrite IH. do 3 f_equal. lia.
Qed.

Lemma peek_put_same len off data cells n :
  n = length data → peek_bytes (mkMmap len (put off data cells)) off n = data.
Proof.
  intros ->. apply list_eq. intros k. destruct (decide (k < length data)%nat) as [Hk|Hk].
  - rewrite peek_bytes_lookup by done. destruct (lookup_lt_is_Some_2 data k Hk) as [b Hb].
    rewrite Hb. unfold byte_at. simpl. by rewrite (put_same _ _ _ _ b).
  - rewrite !lookup_ge_None_2; [done|lia|]. rewrite length_peek_bytes. lia.
Qed.

(** Reading inside what was written. *)
Lemma peek_put_inside len off data cells k n :
  (k + n ≤ length data)%nat →
  peek_bytes (mkMmap len (put off data cells)) (off + Z.of_nat k) n = take n (drop k data).
Proof.
  intros Hk. set (M := mkMmap _ _).
  assert (peek_bytes M off (k + (n + (length data - k - n))) = data) as Hp
    by (apply peek_put_same; lia).
  clearbody M. rewrite !peek_bytes_app in Hp. rewrite <-Hp.
  rewrite drop_app_length' by (by rewrite length_peek_bytes).
  by rewrite take_app_length' by (by rewrite length_peek_bytes).
Qed.

Lemma peek_put_other len len' off data cells off' n :
  off' + Z.of_nat n ≤ off ∨ off + Z.of_nat (length data) ≤ off' →
  peek_bytes (mkMmap len (put off data cells)) off' n = peek_bytes (mkMmap len' cells) off' n.
Proof.
  intros Hd. apply peek_bytes_ext. intros i Hi. unfold byte_at. simpl. rewrite put_other; [done|lia].
Qed.

Lemma mmap_write_Some off data m :
  0 ≤ off → off + Z.of_nat (length data) ≤ mm_len m →
  mmap_write off data m = Some (mkMmap (mm_len m) (put off data (mm_cells m))).
Proof.
  intros. unfold mmap_write, in_region. case_if; [done|].
  apply andb_false_iff in E as [E|E]; bool_to_prop; lia.
Qed.

Lemma mmap_read_Some off n m :
  0 ≤ off → off + Z.of_nat n ≤ mm_len m → mmap_read off n m = Some (peek_bytes m off n).
Proof.
  intros. unfold mmap_read, in_region. case_if; [done|].
  apply andb_false_iff in E as [E|E]; bool_to_prop; lia.
Qed.

Lemma mmap_write_inv off data m m' :
  mmap_write off data m = Some m' →
  m' = mkMmap (mm_len m) (put off data (mm_cells m))
  ∧ 0 ≤ off ∧ off + Z.of_nat (length data) ≤ mm_len m.
Proof.
  unfold mmap_write, in_region. case_if; [|done]. bool_to_prop. intros [= <-]. split; [done|lia].
Qed.

(* ------------------------------------------------------------------ *)
(** ** Alignment: [(len + align - 1) & !(align - 1)] on [usize] *)

Definition align_up (align len : Z) : Z :=
  Z.land (u64_wrap (len + align - 1)) (Z.lxor u64_max (align - 1)).

Lemma align_up_8 len : 0 ≤ len → len + 7 ≤ u64_max → align_up 8 len = 8 * ((len + 7) / 8).
Proof.
  intros H0 H1. unfold align_up. rewrite u64_wrap_small by lia.
  replace (len + 8 - 1) with (len + 7) by lia.
  change (Z.lxor u64_max (8 - 1)) with (Z.ldiff (Z.ones 64) (Z.ones 3)).
  transitivity (Z.shiftl (Z.shiftr (len + 7) 3) 3).
  - apply Z.bits_inj'. intros n Hn. rewrite Z.land_spec, Z.ldiff_spec, !Z.testbit_ones_nonneg by lia.
    destruct (decide (n < 3)) as [Hs|Hs].
    + rewrite Z.shiftl_spec_low by lia. rewrite (proj2 (Z.ltb_lt n 3)) by lia. apply andb_false_intro2.
      by rewrite andb_false_r.
    + rewrite Z.shiftl_spec, Z.shiftr_spec by lia. replace (n - 3 + 3) with n by lia.
      rewrite (proj2 (Z.ltb_ge n 3)) by lia. simpl.
      destruct (Z.ltb_spec n 64) as [Hb|Hb]; simpl; rewrite ?andb_true_r; [done|].
      rewrite andb_false_r. symmetry. apply Z.bits_above_log2; [lia|].
      destruct (decide (len + 7 = 0)) as [->|]; [simpl; lia|].
      apply Z.log2_lt_pow2; [lia|]. unfold u64_max in H1. pose proof (Z.pow_le_mono_r 2 64 n). lia.
  - rewrite Z.shiftl_mul_pow2, Z.shiftr_div_pow2 by lia. change (2 ^ 3) with 8. lia.
Qed.

Lemma align_up_bounds len :
  0 ≤ len → len + 7 ≤ u64_max → len ≤ align_up 8 len ≤ len + 7 ∧ align_up 8 len mod 8 = 0.
Proof.
  intros. rewrite align_up_8 by lia. split.
  - pose proof (Z.div_mod (len + 7) 8). pose proof (Z.mod_pos_bound (len + 7) 8). lia.
  - rewrite Z.mul_comm. apply Z.mod_mul. lia.
Qed.
