(* ===== verification/FileStore.v ===== *)
(** * The file stevedore

    Models [rv-storage/src/file.rs]: a bump allocator over a memory-mapped file,
    with an in-process index from digests to slots.  Offsets and lengths are
    [usize] and wrap; the compare-and-swap loop of the allocator is the one atomic
    update it performs.  [None] is undefined behaviour or a panic. *)

From S2P Require Import Prelude RustStr Enums Types ObjCore Stevedore Mmap.
Local Open Scope Z_scope.

Definition SLOT_HEADER_SIZE : Z := 64.
Definition ALLOC_ALIGN : Z := 8.

Record FileSlot : Type := mkFileSlot {
  fs_offset : Z;
  fs_reserved : Z;
  fs_body_len : Z;
  fs_attrs : gmap ObjAttr bytes;
}.

Module FileStevedore.

Record t : Type := mk {
  name : bytes;
  path : bytes;
  size : Z;
  mmap : option Mmap;
  bump : Z;
  index : gmap Digest FileSlot;
  is_open : bool;
}.

Definition with_mmap (m : option Mmap) (s : t) : t :=
  mk (name s) (path s) (size s) m (bump s) (index s) (is_open s).
Definition with_bump (b : Z) (s : t) : t :=
  mk (name s) (path s) (size s) (mmap s) b (index s) (is_open s).
Definition with_index (i : gmap Digest FileSlot) (s : t) : t :=
  mk (name s) (path s) (size s) (mmap s) (bump s) i (is_open s).

Definition new (nm pt : bytes) (sz : Z) : t := mk nm pt sz None 0 ∅ false.

Definition object_count (s : t) : nat := base.size (index s).

Definition bump_alloc (len : Z) (s : t) : option Z * t :=
  let aligned := align_up ALLOC_ALIGN len in
  match checked_add (bump s) aligned with
  | None => (None, s)
  | Some new_val =>
      if size s <? new_val then (None, s) else (Some (bump s), with_bump new_val s)
  end.

Definition not_open : StorageError := StorageError_Io (str "file stevedore not open").

(** [io] is the outcome of creating, sizing and mapping the file. *)
Definition open (io : result unit bytes) (s : t) : result unit StorageError * t :=
  match io with
  | Err e => (Err (StorageError_Io e), s)
  | Ok _ => (Ok tt, mk (name s) (path s) (size s) (Some (mmap_zeroed (size s))) 0 (index s) true)
  end.

Definition close (s : t) : t := mk (name s) (path s) (size s) None 0 ∅ false.

Definition alloc_obj (d : Digest) (size_hint : Z) (s : t) : option (result unit StorageError * t) :=
  let total := u64_wrap (SLOT_HEADER_SIZE + size_hint) in
  match bump_alloc total s with
  | (None, s) => Some (Err StorageError_Full, s)
  | (Some offset, s) =>
      match mmap s with
      | None => Some (Err not_open, s)
      | Some m =>
          m ← mmap_write offset (bytes_of d) m;
          Some (Ok tt, with_index (<[d := mkFileSlot offset total 0 ∅]> (index s))
                         (with_mmap (Some m) s))
      end
  end.

Definition free_obj (d : Digest) (s : t) : t := with_index (delete d (index s)) s.

(** The buffer handed out does not belong to the store. *)
Definition get_space (desired : Z) (s : t) : result unit StorageError * t := (Ok tt, s).

Definition extend (d : Digest) (data : bytes) (s : t) : option (result unit StorageError * t) :=
  match mmap s with
  | None => Some (Err not_open, s)
  | Some m =>
      match index s !! d with
      | None => Some (Err StorageError_NotFound, s)
      | Some slot =>
          let len := Z.of_nat (length data) in
          let body_start := u64_wrap (fs_offset slot + SLOT_HEADER_SIZE) in
          let write_offset := u64_wrap (body_start + fs_body_len slot) in
          let write_end := u64_wrap (write_offset + len) in
          let slot_end := u64_wrap (fs_offset slot + fs_reserved slot) in
          let commit reserved s :=
            m ← mmap_write write_offset data m;
            Some (Ok tt, with_index
              (<[d := mkFileSlot (fs_offset slot) reserved
                        (u64_wrap (fs_body_len slot + len)) (fs_attrs slot)]> (index s))
              (with_mmap (Some m) s)) in
          if slot_end <? write_end then
            let extra := u64_wrap (write_end - slot_end) in
            match bump_alloc extra s with
            | (None, s) => Some (Err StorageError_Full, s)
            | (Some _, s) => commit (u64_wrap (fs_reserved slot + extra)) s
            end
          else commit (fs_reserved slot) s
      end
  end.

Definition trim (d : Digest) (s : t) : t := s.

Definition get_attr (d : Digest) (attr : ObjAttr) (s : t) : option bytes :=
  slot ← index s !! d; fs_attrs slot !! attr.

Definition set_attr (d : Digest) (attr : ObjAttr) (data : bytes) (s : t)
    : result unit StorageError * t :=
  match index s !! d with
  | None => (Err StorageError_NotFound, s)
  | Some slot =>
      (Ok tt, with_index
        (<[d := mkFileSlot (fs_offset slot) (fs_reserved slot) (fs_body_len slot)
                  (<[attr := data]> (fs_attrs slot))]> (index s)) s)
  end.

(** The outer option is the slice's panic, the inner one the method's result. *)
Definition get_body (d : Digest) (s : t) : option (option bytes) :=
  match mmap s, index s !! d with
  | Some m, Some slot =>
      if fs_body_len slot =? 0 then Some None
      else Some <$> mmap_read (u64_wrap (fs_offset slot + SLOT_HEADER_SIZE))
                      (Z.to_nat (fs_body_len slot)) m
  | _, _ => Some None
  end.

Definition total_space (s : t) : Z := size s.
Definition used_space (s : t) : Z := bump s.
Definition free_space (s : t) : Z := saturating_sub (size s) (bump s).

End FileStevedore.

(* ------------------------------------------------------------------ *)
(** ** The store of bodies

    The contract: a map from digests to the size asked for and the body written
    so far. *)

Import FileStevedore.

Inductive file_op : Set :=
| FAlloc (d : Digest) (size_hint : Z)
| FExtend (d : Digest) (data : bytes)
| FFree (d : Digest)
| FSetAttr (d : Digest) (attr : ObjAttr) (data : bytes).

Definition file_step (o : file_op) (s : t) : option (result unit StorageError * t) :=
  match o with
  | FAlloc d n => alloc_obj d n s
  | FExtend d data => extend d data s
  | FFree d => Some (Ok tt, free_obj d s)
  | FSetAttr d a data => Some (set_attr d a data s)
  end.

Abbreviation bodies := (gmap Digest (Z * bytes)).

Definition spec_step (o : file_op) (r : result unit StorageError) (c : bodies) : bodies :=
  match r, o with
  | Ok _, FAlloc d n => <[d := (n, [])]> c
  | Ok _, FExtend d data =>
      match c !! d with Some (n, b) => <[d := (n, b ++ data)]> c | None => c end
  | Ok _, FFree d => delete d c
  | _, _ => c
  end.

(** The store and its contract side by side, the contract following the results. *)
Fixpoint file_run (ops : list file_op) (s : t) (c : bodies) : option (t * bodies) :=
  match ops with
  | [] => Some (s, c)
  | o :: ops => '(r, s) ← file_step o s; file_run ops s (spec_step o r c)
  end.

(** The sizes asked for are below 2^62 and bodies stay within them: what the
    operations promise their callers, who know the body's length when they
    allocate. *)
Definition within (o : file_op) (c : bodies) : Prop :=
  match o with
  | FAlloc _ n => 0 ≤ n < 2 ^ 62
  | FExtend d data =>
      match c !! d with
      | Some (n, b) => Z.of_nat (length b) + Z.of_nat (length data) ≤ n
      | None => True
      end
  | _ => True
  end.

(** A slot lies below the bump pointer and holds its body. *)
Definition slot_holds (m : Mmap) (limit : Z) (sl : FileSlot) (nb : Z * bytes) : Prop :=
  fs_reserved sl = SLOT_HEADER_SIZE + nb.1
  ∧ fs_body_len sl = Z.of_nat (length nb.2) ∧ Z.of_nat (length nb.2) ≤ nb.1
  ∧ 0 ≤ fs_offset sl ∧ fs_offset sl + fs_reserved sl ≤ limit
  ∧ peek_bytes m (fs_offset sl + SLOT_HEADER_SIZE) (length nb.2) = nb.2.

Definition apart (sl sl' : FileSlot) : Prop :=
  fs_offset sl + fs_reserved sl ≤ fs_offset sl' ∨ fs_offset sl' + fs_reserved sl' ≤ fs_offset sl.

Record file_ok (s : t) (c : bodies) : Prop := {
  fo_mmap : ∃ m, mmap s = Some m ∧ mm_len m = size s
     ∧ ∀ d, option_Forall2 (slot_holds m (bump s)) (index s !! d) (c !! d);
  fo_bump : 0 ≤ bump s ≤ size s ∧ size s < 2 ^ 62;
  fo_apart : ∀ d d' sl sl', d ≠ d' → index s !! d = Some sl → index s !! d' = Some sl' → apart sl sl';
}.

Lemma file_ok_opened nm pt sz :
  0 ≤ sz < 2 ^ 62 → file_ok (snd (open (Ok tt) (new nm pt sz))) ∅.
Proof.
  intros Hsz. split; simpl; [|lia|].
  - eexists. split_and!; [done..|]. intros d. rewrite !lookup_empty. constructor.
  - intros d d' sl sl' _. by rewrite lookup_empty.
Qed.

(** What one allocation from the bump pointer gives. *)
Lemma bump_alloc_cases len s :
  0 ≤ len < 2 ^ 63 → 0 ≤ bump s ≤ size s → size s < 2 ^ 62 →
  bump_alloc len s = (None, s)
  ∨ (bump_alloc len s = (Some (bump s), with_bump (bump s + align_up 8 len) s)
     ∧ len ≤ align_up 8 len ∧ bump s + align_up 8 len ≤ size s).
Proof.
  intros Hl Hb Hs. unfold bump_alloc. change ALLOC_ALIGN with 8.
  destruct (align_up_bounds len) as [Ha _]; [lia|unfold u64_max; lia|].
  unfold checked_add. rewrite (proj2 (Z.leb_le _ _)) by (unfold u64_max; lia).
  case_if; [by left|]. bool_to_prop. right. split; [done|lia].
Qed.

Lemma slot_holds_mono m m' limit limit' sl nb :
  slot_holds m limit sl nb → limit ≤ limit' →
  (∀ i, fs_offset sl ≤ i < fs_offset sl + fs_reserved sl → byte_at m' i = byte_at m i) →
  slot_holds m' limit' sl nb.
Proof.
  intros (Hr & Hl & Hn & Ho & He & Hp) Hlim Hb. split_and!; [done..|lia|].
  rewrite <-Hp at 2. apply peek_bytes_ext. unfold SLOT_HEADER_SIZE in *. intros i Hi. apply Hb. lia.
Qed.

(** A write that touches no other slot keeps what they hold. *)
Lemma byte_at_put_other len off data cells i :
  i < off ∨ off + Z.of_nat (length data) ≤ i →
  byte_at (mkMmap len (put off data cells)) i = byte_at (mkMmap len cells) i.
Proof. intros. unfold byte_at. simpl. by rewrite put_other. Qed.

(** Installing one slot: the others are apart from it and keep their bytes. *)
Lemma install_ok s s' c d sl nb m m' :
  file_ok s c → mmap s = Some m → mmap s' = Some m' → mm_len m' = size s' → size s' = size s →
  bump s ≤ bump s' ≤ size s → index s' = <[d := sl]> (index s) →
  slot_holds m' (bump s') sl nb →
  (∀ d' sl', d' ≠ d → index s !! d' = Some sl' →
     apart sl sl' ∧ ∀ i, fs_offset sl' ≤ i < fs_offset sl' + fs_reserved sl' →
       byte_at m' i = byte_at m i) →
  file_ok s' (<[d := nb]> c).
Proof.
  intros [(m0 & Hm & Hlen & Hsl) Hb Hap] Hm0 Hm' Hlen' Hsz Hbump Hidx Hnew Hothers.
  simplify_eq. split.
  - exists m'. split_and!; [done..|]. intros d'. rewrite Hidx. destruct (decide (d = d')) as [<-|Hd].
    + rewrite !lookup_insert_eq. by constructor.
    + rewrite !lookup_insert_ne by done. specialize (Hsl d').
      destruct (index s !! d') as [sl'|] eqn:E; inversion Hsl; subst; constructor.
      eapply slot_holds_mono; [done|lia|]. by apply (Hothers d').
  - lia.
  - intros d1 d2 sl1 sl2 Hd. rewrite Hidx. intros H1 H2.
    apply lookup_insert_Some in H1 as [[<- <-]|[? H1]];
      apply lookup_insert_Some in H2 as [[<- <-]|[? H2]]; [done| | |by apply (Hap d1 d2)].
    + by eapply (Hothers d2).
    + unfold apart. destruct (Hothers d1 sl1) as [Hx _]; [done..|]. destruct Hx; [by right|by left].
Qed.

Lemma slot_of s c d sl m :
  file_ok s c → mmap s = Some m → index s !! d = Some sl →
  ∃ nb, c !! d = Some nb ∧ slot_holds m (bump s) sl nb.
Proof.
  intros [(m0 & Hm & Hlen & Hsl) _ _] Hm0 Hd. simplify_eq. specialize (Hsl d). rewrite Hd in Hsl.
  inversion Hsl; subst. eauto.
Qed.

Lemma file_alloc_ok d n s c :
  file_ok s c → 0 ≤ n < 2 ^ 62 →
  ∃ r s', alloc_obj d n s = Some (r, s') ∧ file_ok s' (spec_step (FAlloc d n) r c).
Proof.
  intros Hok Hn. pose proof Hok as [(m & Hm & Hlen & Hsl) Hb Hap]. unfold alloc_obj.
  rewrite u64_wrap_small by (unfold SLOT_HEADER_SIZE, u64_max; lia).
  destruct (bump_alloc_cases (SLOT_HEADER_SIZE + n) s) as [->|(-> & Ha & Hfit)];
    [unfold SLOT_HEADER_SIZE; lia|lia|lia| |]; [by eexists _, _|].
  simpl. rewrite Hm. unfold SLOT_HEADER_SIZE in *.
  rewrite mmap_write_Some; [|lia|rewrite Hlen, length_bytes_of; lia].
  eexists _, _. split; [done|]. simpl. eapply install_ok; [done|done|done|done|done|simpl; lia|done| |].
  - split_and!; simpl; unfold SLOT_HEADER_SIZE; try done; lia.
  - intros d' sl' Hd Hd'. destruct (slot_of s c d' sl' m) as (nb & _ & Hr & _ & _ & Ho & He & _); [done..|].
    split; [right; simpl; lia|]. intros i Hi. apply byte_at_put_other. lia.
Qed.

Lemma file_extend_ok d data s c :
  file_ok s c → within (FExtend d data) c →
  ∃ r s', extend d data s = Some (r, s') ∧ file_ok s' (spec_step (FExtend d data) r c).
Proof.
  intros Hok Hw. pose proof Hok as [(m & Hm & Hlen & Hsl) Hb Hap]. unfold extend. rewrite Hm.
  destruct (index s !! d) as [sl|] eqn:E; [|by eexists _, _].
  destruct (slot_of s c d sl m) as ([n b] & Hc & Hr & Hl & Hn & Ho & He & Hp); [done..|].
  simpl in Hw. rewrite Hc in Hw. simpl in *. unfold SLOT_HEADER_SIZE in *.
  rewrite (u64_wrap_small (fs_offset sl + 64)) by (unfold u64_max; lia).
  rewrite (u64_wrap_small (_ + fs_body_len sl)) by (unfold u64_max; lia).
  rewrite (u64_wrap_small (_ + Z.of_nat (length data))) by (unfold u64_max; lia).
  rewrite (u64_wrap_small (fs_offset sl + fs_reserved sl)) by (unfold u64_max; lia).
  rewrite (u64_wrap_small (fs_body_len sl + _)) by (unfold u64_max; lia).
  rewrite (proj2 (Z.ltb_ge _ _)) by lia. rewrite mmap_write_Some by lia.
  eexists _, _. split; [done|]. simpl. rewrite Hc.
  eapply install_ok; [done|done|done|done|done|simpl; lia|done| |].
  - split_and!; simpl; unfold SLOT_HEADER_SIZE; try done; rewrite ?length_app; try lia.
    rewrite peek_bytes_app. f_equal.
    + rewrite <-Hp at 2. rewrite (peek_put_other _ (mm_len m)) by lia. by destruct m.
    + rewrite Hl. by apply peek_put_same.
  - intros d' sl' Hd Hd'. specialize (Hap d d' sl sl' ltac:(done) E Hd').
    split; [done|]. intros i Hi. unfold apart in Hap. apply byte_at_put_other. lia.
Qed.

Lemma file_step_ok o s c :
  file_ok s c → within o c →
  ∃ r s', file_step o s = Some (r, s') ∧ file_ok s' (spec_step o r c).
Proof.
  intros Hok Hw. pose proof Hok as [(m & Hm & Hlen & Hsl) Hb Hap].
  destruct o as [d n|d data|d|d a data]; simpl.
  - by apply file_alloc_ok.
  - by apply file_extend_ok.
  - eexists _, _. split; [done|]. split; simpl; [|done|].
    + exists m. split_and!; [done..|]. intros d'. destruct (decide (d = d')) as [<-|Hd].
      * rewrite !lookup_delete_eq. constructor.
      * by rewrite !lookup_delete_ne by done.
    + intros d1 d2 sl1 sl2 Hd [_ H1]%lookup_delete_Some [_ H2]%lookup_delete_Some. by apply (Hap d1 d2).
  - unfold set_attr. destruct (index s !! d) as [sl|] eqn:E; [|by eexists _, _].
    destruct (slot_of s c d sl m) as (nb & Hc & Hs); [done..|].
    eexists _, _. split; [done|]. rewrite <-(insert_id c d nb) by done.
    eapply install_ok; [done|done|done|done|done|simpl; lia|done| |]; [exact Hs|].
    intros d' sl' Hd Hd'. split; [|done]. exact (Hap d d' sl sl' ltac:(done) E Hd').
Qed.

(** Every operation stays within its contract's conditions. *)
Fixpoint all_within (ops : list file_op) (s : t) (c : bodies) : Prop :=
  match ops with
  | [] => True
  | o :: ops => within o c
     ∧ match file_step o s with
       | Some (r, s') => all_within ops s' (spec_step o r c)
       | None => True
       end
  end.

Lemma file_run_ok ops : ∀ s c,
  file_ok s c → all_within ops s c → ∃ s' c', file_run ops s c = Some (s', c') ∧ file_ok s' c'.
Proof.
  induction ops as [|o ops IH]; intros s c Hok Hw; [by eexists _, _|].
  destruct Hw as [Ho Hw]. destruct (file_step_ok o s c Hok Ho) as (r & s' & E & Hok').
  rewrite E in Hw. simpl. rewrite E. simpl. by apply IH.
Qed.

Lemma get_body_reads d s m sl n body :
  mmap s = Some m → index s !! d = Some sl → fs_body_len sl = Z.of_nat (S n) →
  0 ≤ fs_offset sl → fs_offset sl + 64 + Z.of_nat (S n) ≤ mm_len m → mm_len m < 2 ^ 62 →
  peek_bytes m (fs_offset sl + 64) (S n) = body → get_body d s = Some (Some body).
Proof.
  intros Hm Hd Hn Ho He Hs <-. unfold get_body. rewrite Hm, Hd, Hn, Nat2Z.id.
  rewrite (proj2 (Z.eqb_neq _ _)) by lia. unfold SLOT_HEADER_SIZE.
  rewrite u64_wrap_small by (unfold u64_max; lia). by rewrite mmap_read_Some by lia.
Qed.

Lemma file_get_body_ok s c d :
  file_ok s c →
  get_body d s = Some (match c !! d with Some (_, []) | None => None | Some (_, b) => Some b end).
Proof.
  intros Hok. pose proof Hok as [(m & Hm & Hlen & Hsl) Hb _].
  specialize (Hsl d). destruct (index s !! d) as [sl|] eqn:E;
    inversion Hsl as [? [n b] Hs|]; subst; [|unfold get_body; by rewrite Hm, E].
  destruct Hs as (Hr & Hl & Hn & Ho & He & Hp). simpl in *. unfold SLOT_HEADER_SIZE in *.
  destruct b as [|x b]; [unfold get_body; by rewrite Hm, E, Hl|].
  apply (get_body_reads d s m sl (length b)); [done|done|done|done|rewrite Hlen; simpl in *; lia|lia|].
  exact Hp.
Qed.

(** C19. The file stevedore keeps every body apart and intact: on any sequence of
    allocations, extensions, frees and attribute writes in which bodies stay
    within the size asked for at allocation, no write leaves the mapping, the
    bump pointer stays within the file, and reading an object gives exactly the
    bytes written to it since its allocation, whatever was written to the others. *)
Theorem file_store_refines nm pt sz ops :
  0 ≤ sz < 2 ^ 62 →
  let s0 := snd (open (Ok tt) (new nm pt sz)) in
  all_within ops s0 ∅ →
  ∃ s c, file_run ops s0 ∅ = Some (s, c)
    ∧ 0 ≤ used_space s ≤ total_space s
    ∧ ∀ d, get_body d s
           = Some (match c !! d with Some (_, []) | None => None | Some (_, b) => Some b end).
Proof.
  intros Hsz s0 Hw. destruct (file_run_ok ops s0 ∅) as (s & c & Hrun & Hok); [by apply file_ok_opened|done|].
  exists s, c. split_and!; [done|apply Hok..|]. intros d. by apply file_get_body_ok.
Qed.

Definition stored_two (da db : Digest) (a b : bytes) : list file_op :=
  [FAlloc da (Z.of_nat (length a)); FExtend da a; FAlloc db (Z.of_nat (length b)); FExtend db b].

Lemma alloc_fits d n s m :
  mmap s = Some m → mm_len m = size s → 0 ≤ n → 0 ≤ bump s →
  bump s + n + 71 ≤ size s → size s < 2 ^ 62 →
  alloc_obj d n s = Some (Ok tt,
    mk (name s) (path s) (size s) (Some (mkMmap (size s) (put (bump s) (bytes_of d) (mm_cells m))))
       (bump s + align_up 8 (64 + n)) (<[d := mkFileSlot (bump s) (64 + n) 0 ∅]> (index s)) (is_open s)).
Proof.
  intros Hm Hlen Hn Hb Hfit Hs. destruct (align_up_bounds (64 + n)) as [Ha _]; [lia|unfold u64_max; lia|].
  unfold alloc_obj. unfold SLOT_HEADER_SIZE. rewrite u64_wrap_small by (unfold u64_max; lia).
  unfold bump_alloc, checked_add. change ALLOC_ALIGN with 8.
  rewrite (proj2 (Z.leb_le _ _)) by (unfold u64_max; lia). rewrite (proj2 (Z.ltb_ge _ _)) by lia.
  simpl. rewrite Hm, mmap_write_Some, Hlen by (rewrite ?length_bytes_of; lia). done.
Qed.

(** An extension that outgrows its slot is written behind it, wherever the space
    it paid for lies. *)
Lemma extend_writes d data s m sl :
  mmap s = Some m → mm_len m = size s → index s !! d = Some sl →
  0 ≤ fs_offset sl → 0 ≤ fs_body_len sl → 64 + fs_body_len sl ≤ fs_reserved sl →
  fs_offset sl + fs_reserved sl ≤ bump s →
  64 + fs_body_len sl + Z.of_nat (length data) ≤ fs_reserved sl ∧ bump s ≤ size s
  ∨ bump s + Z.of_nat (length data) + 7 ≤ size s → size s < 2 ^ 62 →
  ∃ b' r', extend d data s = Some (Ok tt,
    mk (name s) (path s) (size s)
       (Some (mkMmap (size s) (put (fs_offset sl + 64 + fs_body_len sl) data (mm_cells m))))
       b' (<[d := mkFileSlot (fs_offset sl) r' (fs_body_len sl + Z.of_nat (length data)) (fs_attrs sl)]>
             (index s)) (is_open s))
    ∧ (64 + fs_body_len sl + Z.of_nat (length data) = fs_reserved sl → b' = bump s ∧ r' = fs_reserved sl).
Proof.
  intros Hm Hlen Hd H0 Hb Hr Hbump Hfit Hs. unfold extend. rewrite Hm, Hd. unfold SLOT_HEADER_SIZE.
  rewrite (u64_wrap_small (fs_offset sl + 64)) by (unfold u64_max; lia).
  rewrite (u64_wrap_small (_ + fs_body_len sl)) by (unfold u64_max; lia).
  rewrite (u64_wrap_small (_ + Z.of_nat (length data))) by (unfold u64_max; lia).
  rewrite (u64_wrap_small (fs_offset sl + fs_reserved sl)) by (unfold u64_max; lia).
  rewrite (u64_wrap_small (fs_body_len sl + _)) by (unfold u64_max; lia).
  case_if; bool_to_prop.
  - rewrite (u64_wrap_small (_ - _)) by (unfold u64_max; lia).
    destruct (align_up_bounds (fs_offset sl + 64 + fs_body_len sl + Z.of_nat (length data)
                               - (fs_offset sl + fs_reserved sl))) as [Ha _]; [lia|unfold u64_max; lia|].
    unfold bump_alloc, checked_add. change ALLOC_ALIGN with 8.
    rewrite (proj2 (Z.leb_le _ _)) by (unfold u64_max; lia). rewrite (proj2 (Z.ltb_ge _ _)) by lia.
    rewrite mmap_write_Some, Hlen by lia. eexists _, _. split; [done|lia].
  - rewrite mmap_write_Some, Hlen by lia. eexists _, _. split; [done|done].
Qed.

#[local] Arguments extend : simpl never.
#[local] Arguments alloc_obj : simpl never.

(** Where the two objects lie. *)
Lemma stored_two_state nm pt sz da db a b :
  da ≠ db → Z.of_nat (length a) mod 8 = 0 → Z.of_nat (length a + length b) + 142 ≤ sz < 2 ^ 62 →
  ∃ s c cells, file_run (stored_two da db a b) (snd (open (Ok tt) (new nm pt sz))) ∅ = Some (s, c)
    ∧ size s = sz ∧ mmap s = Some (mkMmap sz (put (128 + Z.of_nat (length a)) b cells))
    ∧ index s !! da = Some (mkFileSlot 0 (64 + Z.of_nat (length a)) (Z.of_nat (length a)) ∅)
    ∧ index s !! db = Some (mkFileSlot (64 + Z.of_nat (length a)) (64 + Z.of_nat (length b))
                              (Z.of_nat (length b)) ∅)
    ∧ Z.of_nat (length a + length b) + 128 ≤ bump s ≤ Z.of_nat (length a + length b) + 135.
Proof.
  intros Hd Ha Hsz. unfold stored_two. cbn [file_run file_step]. set (s0 := snd _).
  rewrite (alloc_fits _ _ s0 (mmap_zeroed sz)) by (simpl; lia || done). cbn.
  rewrite align_up_8 by (unfold u64_max; lia).
  replace (8 * ((64 + Z.of_nat (length a) + 7) / 8)) with (64 + Z.of_nat (length a))
    by (Z.to_euclidean_division_equations; lia).
  match goal with |- context [extend da a ?s] => set (s1 := s) end.
  destruct (extend_writes da a s1 _ _ eq_refl eq_refl (lookup_insert_eq _ _ _))
    as (b1 & r1 & -> & Hx); [simpl; lia..|]. destruct Hx as [-> ->]; [done|]. cbn.
  match goal with |- context [alloc_obj db _ ?s] => set (s2 := s) end.
  rewrite (alloc_fits _ _ s2 _ eq_refl) by (simpl; lia || done). cbn.
  match goal with |- context [extend db b ?s] => set (s3 := s) end.
  destruct (align_up_bounds (64 + Z.of_nat (length b))) as [Hal _]; [lia|unfold u64_max; lia|].
  destruct (extend_writes db b s3 _ _ eq_refl eq_refl (lookup_insert_eq _ _ _))
    as (b2 & r2 & -> & Hx); [simpl; lia..|]. destruct Hx as [-> ->]; [done|]. cbn.
  eexists _, _, _. split; [done|]. cbn. split_and!; [done| | | |lia..].
  - do 3 f_equal. lia.
  - rewrite !lookup_insert_ne by done. by rewrite lookup_insert_eq.
  - by rewrite lookup_insert_eq.
Qed.

(** Extending an object beyond its reservation overwrites its neighbour: with
    two objects stored one after the other, an extension of the first takes its
    extra space from the end of the file but writes on behind its own body, and
    the second object then reads as bytes of the first. *)
Theorem file_extend_overwrites nm pt sz da db a b data :
  da ≠ db → Z.of_nat (length a) mod 8 = 0 → b ≠ [] → (64 + length b ≤ length data)%nat →
  Z.of_nat (length a + length b + length data) + 142 ≤ sz < 2 ^ 62 →
  ∃ s1 c s2, file_run (stored_two da db a b) (snd (open (Ok tt) (new nm pt sz))) ∅ = Some (s1, c)
    ∧ get_body db s1 = Some (Some b)
    ∧ extend da data s1 = Some (Ok tt, s2)
    ∧ get_body db s2 = Some (Some (take (length b) (drop 64 data))).
Proof.
  intros Hd Ha Hb Hdata Hsz. destruct b as [|x b]; [done|].
  destruct (stored_two_state nm pt sz da db a (x :: b)) as (s & c & cells & Hrun & Hsize & Hm & HA & HB & Hbump);
    [done|done|lia|].
  destruct (extend_writes da data s _ _ Hm (eq_sym Hsize) HA) as (b3 & r3 & E & _);
    [cbn [fs_offset fs_body_len fs_reserved]; lia..|].
  exists s, c. eexists. split_and!; [done| |exact E|].
  - eapply (get_body_reads db _ _ _ (length b)); [done..|cbn -[length]; lia|cbn [mm_len fs_offset]; simpl in *; lia|simpl; lia|].
    cbn [fs_offset]. replace (64 + Z.of_nat (length a) + 64) with (128 + Z.of_nat (length a)) by lia.
    by apply peek_put_same.
  - eapply (get_body_reads db _ _ _ (length b)); [done| |..].
    { cbn [index]. by rewrite lookup_insert_ne by done. }
    1-4: simpl in *; lia.
    cbn [fs_offset fs_body_len]. rewrite Hsize.
    rewrite <-(peek_put_inside sz (0 + 64 + Z.of_nat (length a)) data (put (128 + Z.of_nat (length a)) (x :: b) cells))
      by (simpl in *; lia).
    f_equal; lia.
Qed.

Lemma file_extend_overwrites_witness :
  ∃ s1 c s2,
    file_run (stored_two (test_digest x01) (test_digest x02) (str "12345678") (str "second"))
      (snd (open (Ok tt) (new (str "file") (str "/tmp/x") 400))) ∅ = Some (s1, c)
    ∧ get_body (test_digest x02) s1 = Some (Some (str "second"))
    ∧ extend (test_digest x01) (replicate 80 x61) s1 = Some (Ok tt, s2)
    ∧ get_body (test_digest x02) s2 = Some (Some (str "aaaaaa")).
Proof. apply file_extend_overwrites; [by vm_compute|by vm_compute|done|vm_compute; lia|vm_compute; done]. Defined.

Lemma file_store_refines_witness :
  ∃ s c,
    file_run (stored_two (test_digest x01) (test_digest x02) (str "12345678") (str "second"))
      (snd (open (Ok tt) (new (str "file") (str "/tmp/x") 400))) ∅ = Some (s, c)
    ∧ 0 ≤ used_space s ≤ total_space s
    ∧ ∀ d, get_body d s
           = Some (match c !! d with Some (_, []) | None => None | Some (_, b) => Some b end).
Proof.
  apply (file_store_refines (str "file") (str "/tmp/x") 400); [lia|].
  vm_compute. repeat split; done.
Defined.
