(* ===== verification/Persistent.v ===== *)
(** * The persistent stevedore

    Models [rv-storage/src/persistent.rs]: slabs in a memory-mapped file whose
    table is scanned when the file is opened again.  The mapping is shared with
    the file, so the bytes written through it are what a later [open] finds.
    Offsets, sizes and the usage counter are [usize] and wrap; [None] is undefined
    behaviour or a panic. *)

From S2P Require Import Prelude RustStr Enums Types ObjCore Stevedore Mmap.
From stdpp Require Import sorting.
Local Open Scope Z_scope.

Definition MAGIC : bytes := str "RVSLAB01".
Definition VERSION : Z := 1.
Definition FILE_HEADER_SIZE : Z := 128.
Definition SLAB_ENTRY_SIZE : Z := 64.
Definition MAX_SLABS : Z := 65536.
Definition DATA_REGION_OFFSET : Z := FILE_HEADER_SIZE + MAX_SLABS * SLAB_ENTRY_SIZE.
Definition DATA_ALIGN : Z := 8.

Record SlabEntry : Type := mkSlab {
  sb_index : nat;
  sb_offset : Z;
  sb_size : Z;
  sb_in_use : bool;
  sb_digest : Digest;
  sb_body_len : Z;
  sb_attrs : gmap ObjAttr bytes;
}.

Definition slab_end (sl : SlabEntry) : Z := sb_offset sl + sb_size sl.

Module PersistentStevedore.

(** [file] is the content of the backing file, if it exists; [mapped] tells
    whether [mmap] holds its mapping. *)
Record t : Type := mk {
  name : bytes;
  path : bytes;
  total_size : Z;
  used_size : Z;
  file : option Mmap;
  mapped : bool;
  allocations : list SlabEntry;
  digest_index : gmap Digest nat;
  is_open : bool;
}.

Definition mmap (s : t) : option Mmap := if mapped s then file s else None.

Definition with_file (f : option Mmap) (s : t) : t :=
  mk (name s) (path s) (total_size s) (used_size s) f (mapped s) (allocations s) (digest_index s) (is_open s).
Definition with_used (u : Z) (s : t) : t :=
  mk (name s) (path s) (total_size s) u (file s) (mapped s) (allocations s) (digest_index s) (is_open s).
Definition with_slabs (a : list SlabEntry) (s : t) : t :=
  mk (name s) (path s) (total_size s) (used_size s) (file s) (mapped s) a (digest_index s) (is_open s).
Definition with_digests (i : gmap Digest nat) (s : t) : t :=
  mk (name s) (path s) (total_size s) (used_size s) (file s) (mapped s) (allocations s) i (is_open s).

(** The constructor asserts that there is a data region; [f] is what the path holds. *)
Definition new (nm pt : bytes) (size : Z) (f : option Mmap) : option t :=
  if DATA_REGION_OFFSET <? size then Some (mk nm pt size 0 f false [] ∅ false) else None.

Definition slab_count (s : t) : nat := length (filter (λ sl, sb_in_use sl = true) (allocations s)).
Definition data_capacity (s : t) : Z := saturating_sub (total_size s) DATA_REGION_OFFSET.

(* ------------------------------------------------------------------ *)
(** ** The slab table on disk *)

Definition entry_offset (i : nat) : Z := FILE_HEADER_SIZE + Z.of_nat i * SLAB_ENTRY_SIZE.

Definition in_use_flag (b : bool) : byte := if b then x01 else x00.

(** The five copies of [write_slab_entry]. *)
Definition put_entry (sl : SlabEntry) (m : Mmap) : option Mmap :=
  let dst := entry_offset (sb_index sl) in
  m ← mmap_write dst (bytes_of (sb_digest sl)) m;
  m ← mmap_write (dst + 32) (to_le_bytes 8 (sb_offset sl)) m;
  m ← mmap_write (dst + 40) (to_le_bytes 8 (sb_size sl)) m;
  m ← mmap_write (dst + 48) [in_use_flag (sb_in_use sl)] m;
  mmap_write (dst + 49) (to_le_bytes 8 (sb_body_len sl)) m.

Definition write_slab_entry (sl : SlabEntry) (s : t) : option t :=
  match mmap s with
  | None => Some s
  | Some m => m ← put_entry sl m; Some (with_file (Some m) s)
  end.

Definition write_header (s : t) : option t :=
  match mmap s with
  | None => Some s
  | Some m =>
      m ← mmap_write 0 MAGIC m;
      m ← mmap_write 8 (to_le_bytes 4 VERSION) m;
      m ← mmap_write 12 (to_le_bytes 8 (total_size s)) m;
      Some (with_file (Some m) s)
  end.

Definition validate_header (s : t) : option bool :=
  match mmap s with
  | None => Some false
  | Some m =>
      if mm_len m <? FILE_HEADER_SIZE then Some false
      else
        magic ← mmap_read 0 8 m; ver ← mmap_read 8 4 m;
        Some (bool_decide (magic = MAGIC) && (from_le_bytes ver =? VERSION))
  end.

Definition digest_of (entry : bytes) : Digest :=
  default Digest_ZERO (Digest_from_slice (take 32 entry)).
Definition u64_field (entry : bytes) (at_ : nat) : Z := from_le_bytes (take 8 (drop at_ entry)).
Definition in_use_byte (entry : bytes) : bool := negb (bool_decide (entry !! 48%nat = Some x00)).

(** One round of the scan: [None] stops it. *)
Definition read_entry (i : nat) (entry : bytes) : option SlabEntry :=
  if in_use_byte entry then
    Some (mkSlab i (u64_field entry 32) (u64_field entry 40) true (digest_of entry)
            (u64_field entry 49) ∅)
  else if forallb (λ b, bool_decide (b = x00)) (take 32 entry) then None
  else Some (mkSlab i (u64_field entry 32) (u64_field entry 40) false (digest_of entry) 0 ∅).

(** The loop over the table from entry [i], [n] entries to go: slabs, index,
    recovered digests (in reverse) and usage so far. *)
Fixpoint load_loop (n : nat) (total : Z) (m : Mmap) (i : nat) (allocs : list SlabEntry)
    (digests : gmap Digest nat) (recovered : list Digest) (used : Z)
    : option (list SlabEntry * gmap Digest nat * list Digest * Z) :=
  match n with
  | O => Some (allocs, digests, recovered, used)
  | S n =>
      if total <? entry_offset i + SLAB_ENTRY_SIZE then Some (allocs, digests, recovered, used)
      else
        entry ← mmap_read (entry_offset i) 64 m;
        match read_entry i entry with
        | None => Some (allocs, digests, recovered, used)
        | Some sl =>
            if sb_in_use sl then
              load_loop n total m (S i) (allocs ++ [sl]) (<[sb_digest sl := i]> digests)
                (recovered ++ [sb_digest sl]) (u64_wrap (used + sb_size sl))
            else load_loop n total m (S i) (allocs ++ [sl]) digests recovered used
        end
  end.

(** The recovered objects are fresh object cores, one per digest returned. *)
Definition load_existing (s : t) : option (list Digest * t) :=
  match mmap s with
  | None => Some ([], s)
  | Some m =>
      '(allocs, digests, recovered, used) ←
        load_loop (Z.to_nat MAX_SLABS) (total_size s) m 0 (allocations s) (digest_index s) [] 0;
      Some (recovered, with_used used (with_digests digests (with_slabs allocs s)))
  end.

(** [set_len] on the file: cut, or grown with zeros. *)
Definition set_len (len : Z) (m : Mmap) : Mmap :=
  mkMmap len (filter (λ p, p.1 < len) (mm_cells m)).

(** The mapping of a file that may have existed before. *)
Definition remapped (s : t) : t :=
  mk (name s) (path s) (total_size s) (used_size s)
     (Some (set_len (total_size s) (default (mmap_zeroed 0) (file s)))) true
     (allocations s) (digest_index s) (is_open s).

Definition recover (exists_ : bool) (s : t) : option t :=
  valid ← (if exists_ then validate_header s else Some false);
  if valid : bool then snd <$> load_existing s else write_header s.

(** [io] is the outcome of opening, sizing and mapping the file. *)
Definition open (io : result unit bytes) (s : t) : option (result unit StorageError * t) :=
  match io with
  | Err e => Some (Err (StorageError_Io e), s)
  | Ok _ =>
      s ← recover (bool_decide (is_Some (file s))) (remapped s);
      Some (Ok tt, mk (name s) (path s) (total_size s) (used_size s) (file s) (mapped s)
                     (allocations s) (digest_index s) true)
  end.

Definition close (s : t) : t :=
  mk (name s) (path s) (total_size s) 0 (file s) false [] ∅ false.

(* ------------------------------------------------------------------ *)
(** ** Objects *)

Definition find_free_slab (size : Z) (s : t) : option nat :=
  fst <$> list_find (λ sl, sb_in_use sl = false ∧ size ≤ sb_size sl) (allocations s).

Definition next_offset (allocs : list SlabEntry) : Z :=
  match allocs with
  | [] => DATA_REGION_OFFSET
  | sl :: rest => foldl (λ z sl, Z.max z (u64_wrap (slab_end sl))) (u64_wrap (slab_end sl)) rest
  end.

Definition alloc_new_slab (size : Z) (s : t) : result nat StorageError * t :=
  let aligned_size := align_up DATA_ALIGN size in
  let aligned_offset := align_up DATA_ALIGN (next_offset (allocations s)) in
  if total_size s <? u64_wrap (aligned_offset + aligned_size) then (Err StorageError_Full, s)
  else if MAX_SLABS <=? Z.of_nat (length (allocations s)) then (Err StorageError_Full, s)
  else
    let index := length (allocations s) in
    (Ok index, with_slabs
       (allocations s ++ [mkSlab index aligned_offset aligned_size false Digest_ZERO 0 ∅]) s).

(** [alloc_obj] chooses a slab, then takes the lock again to claim it. *)
Definition alloc_pick (size_hint : Z) (s : t) : result nat StorageError * t :=
  let required := Z.max size_hint 64 in
  match find_free_slab required s with
  | Some idx => (Ok idx, s)
  | None => alloc_new_slab required s
  end.

Definition alloc_claim (d : Digest) (idx : nat) (s : t) : option t :=
  sl ← allocations s !! idx;
  let sl := mkSlab (sb_index sl) (sb_offset sl) (sb_size sl) true d 0 ∅ in
  let s := with_used (u64_wrap (used_size s + sb_size sl))
             (with_slabs (<[idx := sl]> (allocations s)) s) in
  s ← write_slab_entry sl s;
  Some (with_digests (<[d := idx]> (digest_index s)) s).

Definition alloc_obj (d : Digest) (size_hint : Z) (s : t) : option (result unit StorageError * t) :=
  match alloc_pick size_hint s with
  | (Err e, s) => Some (Err e, s)
  | (Ok idx, s) => s ← alloc_claim d idx s; Some (Ok tt, s)
  end.

Definition free_obj (d : Digest) (s : t) : option t :=
  match digest_index s !! d with
  | None => Some s
  | Some idx =>
      let s := with_digests (delete d (digest_index s)) s in
      match allocations s !! idx with
      | None => Some s
      | Some sl =>
          let freed := sb_size sl in
          let sl := mkSlab (sb_index sl) (sb_offset sl) (sb_size sl) false (sb_digest sl) 0 ∅ in
          write_slab_entry sl
            (with_used (u64_wrap (used_size s - freed))
               (with_slabs (<[idx := sl]> (allocations s)) s))
      end
  end.

Definition get_space (desired : Z) (s : t) : result unit StorageError * t := (Ok tt, s).

Definition not_open : StorageError := StorageError_Io (str "persistent stevedore not open").

Definition extend (d : Digest) (data : bytes) (s : t) : option (result unit StorageError * t) :=
  match digest_index s !! d with
  | None => Some (Err StorageError_NotFound, s)
  | Some idx =>
      match mmap s with
      | None => Some (Err not_open, s)
      | Some m =>
          match allocations s !! idx with
          | None => Some (Err StorageError_NotFound, s)
          | Some sl =>
              let len := Z.of_nat (length data) in
              let write_offset := u64_wrap (sb_offset sl + sb_body_len sl) in
              let write_end := u64_wrap (write_offset + len) in
              if u64_wrap (slab_end sl) <? write_end then Some (Err StorageError_Full, s)
              else
                m ← mmap_write write_offset data m;
                Some (Ok tt, with_slabs
                  (<[idx := mkSlab (sb_index sl) (sb_offset sl) (sb_size sl) (sb_in_use sl)
                              (sb_digest sl) (u64_wrap (sb_body_len sl + len)) (sb_attrs sl)]>
                     (allocations s)) (with_file (Some m) s))
          end
      end
  end.

Definition trim (d : Digest) (s : t) : t := s.

Definition get_attr (d : Digest) (attr : ObjAttr) (s : t) : option bytes :=
  idx ← digest_index s !! d; sl ← allocations s !! idx; sb_attrs sl !! attr.

Definition set_attr (d : Digest) (attr : ObjAttr) (data : bytes) (s : t)
    : result unit StorageError * t :=
  match digest_index s !! d with
  | None => (Err StorageError_NotFound, s)
  | Some idx =>
      match allocations s !! idx with
      | None => (Err StorageError_NotFound, s)
      | Some sl =>
          (Ok tt, with_slabs
             (<[idx := mkSlab (sb_index sl) (sb_offset sl) (sb_size sl) (sb_in_use sl)
                         (sb_digest sl) (sb_body_len sl) (<[attr := data]> (sb_attrs sl))]>
                (allocations s)) s)
      end
  end.

(** The outer option is the slice's panic, the inner one the method's result. *)
Definition get_body (d : Digest) (s : t) : option (option bytes) :=
  match digest_index s !! d, mmap s with
  | Some idx, Some m =>
      match allocations s !! idx with
      | None => Some None
      | Some sl =>
          if sb_body_len sl =? 0 then Some None
          else Some <$> mmap_read (sb_offset sl) (Z.to_nat (sb_body_len sl)) m
      end
  | _, _ => Some None
  end.

Definition total_space (s : t) : Z := total_size s.
Definition used_space (s : t) : Z := used_size s.
Definition free_space (s : t) : Z := saturating_sub (total_size s) (used_size s).

(* ------------------------------------------------------------------ *)
(** ** Compaction *)

(** [sort_by_key], stable. *)
Fixpoint insert_by (key : nat → Z) (x : nat) (l : list nat) : list nat :=
  match l with
  | [] => [x]
  | y :: l' => if key x <=? key y then x :: l else y :: insert_by key x l'
  end.
Definition sort_by_key (key : nat → Z) (l : list nat) : list nat := foldr (insert_by key) [] l.

(** The indices of the slabs in use, in order, counted from [i]. *)
Fixpoint in_use_from (i : nat) (allocs : list SlabEntry) : list nat :=
  match allocs with
  | [] => []
  | sl :: allocs =>
      if sb_in_use sl then i :: in_use_from (S i) allocs else in_use_from (S i) allocs
  end.

Definition offset_at (allocs : list SlabEntry) (i : nat) : Z :=
  match allocs !! i with Some sl => sb_offset sl | None => 0 end.

(** [ptr::copy] within the mapping. *)
Definition mmap_move (src dst : Z) (n : nat) (m : Mmap) : option Mmap :=
  data ← mmap_read src n m; mmap_write dst data m.

(** One slab moved to [next] and its table entry updated in place. *)
Definition move_slab (idx : nat) (allocs : list SlabEntry) (m : Mmap) (next : Z)
    : option (list SlabEntry * Mmap * Z) :=
  sl ← allocs !! idx;
  let size := sb_body_len sl in
  let aligned_size := align_up DATA_ALIGN size in
  m ← (if negb (next =? sb_offset sl) && (0 <? size)
       then mmap_move (sb_offset sl) next (Z.to_nat size) m else Some m);
  let sl := mkSlab (sb_index sl) next (Z.max aligned_size (sb_size sl)) (sb_in_use sl)
              (sb_digest sl) (sb_body_len sl) (sb_attrs sl) in
  let dst := entry_offset (sb_index sl) in
  m ← mmap_write (dst + 32) (to_le_bytes 8 (sb_offset sl)) m;
  m ← mmap_write (dst + 40) (to_le_bytes 8 (sb_size sl)) m;
  Some (<[idx := sl]> allocs, m, u64_wrap (next + sb_size sl)).

Fixpoint move_slabs (idxs : list nat) (allocs : list SlabEntry) (m : Mmap) (next : Z)
    : option (list SlabEntry * Mmap) :=
  match idxs with
  | [] => Some (allocs, m)
  | idx :: idxs =>
      '(allocs, m, next) ← move_slab idx allocs m next; move_slabs idxs allocs m next
  end.

Definition reindex (i : nat) (sl : SlabEntry) : SlabEntry :=
  mkSlab i (sb_offset sl) (sb_size sl) (sb_in_use sl) (sb_digest sl) (sb_body_len sl) (sb_attrs sl).

(** The index rebuilt from the slabs, later ones winning. *)
Fixpoint index_from (i : nat) (allocs : list SlabEntry) (acc : gmap Digest nat) : gmap Digest nat :=
  match allocs with
  | [] => acc
  | sl :: allocs => index_from (S i) allocs (<[sb_digest sl := i]> acc)
  end.

Definition compact (s : t) : option t :=
  match mmap s with
  | None => Some s
  | Some m =>
      let in_use := sort_by_key (offset_at (allocations s)) (in_use_from 0 (allocations s)) in
      '(allocs, m) ← move_slabs in_use (allocations s) m DATA_REGION_OFFSET;
      let active := filter (λ sl, sb_in_use sl = true) allocs in
      let used := foldl (λ n sl, u64_wrap (n + sb_size sl)) 0 active in
      Some (with_used used
             (with_digests (index_from 0 active ∅)
               (with_slabs (imap reindex active) (with_file (Some m) s))))
  end.

End PersistentStevedore.

(* ------------------------------------------------------------------ *)
(** ** The layout of the slabs *)

Import PersistentStevedore.

(** Aligned slabs one behind the other from [lo] to [total], numbered from [i]. *)
Definition slab_ok (lo total : Z) (i : nat) (sl : SlabEntry) : Prop :=
  sb_index sl = i ∧ lo ≤ sb_offset sl ∧ slab_end sl ≤ total
  ∧ sb_offset sl mod 8 = 0 ∧ 64 ≤ sb_size sl ∧ sb_size sl mod 8 = 0
  ∧ 0 ≤ sb_body_len sl ≤ sb_size sl.

Fixpoint chain (lo total : Z) (i : nat) (l : list SlabEntry) : Prop :=
  match l with
  | [] => lo ≤ total
  | sl :: l => slab_ok lo total i sl ∧ chain (slab_end sl) total (S i) l
  end.

Lemma slab_ok_weaken lo lo' total i sl : slab_ok lo total i sl → lo' ≤ lo → slab_ok lo' total i sl.
Proof. unfold slab_ok. intuition lia. Qed.

Lemma chain_lookup l : ∀ lo total k i sl,
  chain lo total k l → l !! i = Some sl → slab_ok lo total (k + i) sl.
Proof.
  induction l as [|a l IH]; intros lo total k i sl Hc Hi; [done|]. destruct Hc as [Ha Hc].
  destruct i as [|i]; simplify_eq/=; [by rewrite Nat.add_0_r|].
  rewrite Nat.add_succ_r, <-Nat.add_succ_l. eapply slab_ok_weaken; [by eapply IH|].
  unfold slab_ok, slab_end in *. lia.
Qed.

Lemma chain_apart l : ∀ lo total k i j a b,
  chain lo total k l → l !! i = Some a → l !! j = Some b → (i < j)%nat → slab_end a ≤ sb_offset b.
Proof.
  induction l as [|c l IH]; intros lo total k i j a b Hc Hi Hj Hij; [done|]. destruct Hc as [Hc Hl].
  destruct j as [|j]; [lia|]. destruct i as [|i]; simplify_eq/=; [|apply (IH _ _ _ i j a b Hl); [done|done|lia]].
  eapply chain_lookup in Hj as (_ & ? & _); [|done]. done.
Qed.

(** The same place in the file, with the same number. *)
Definition same_place (a b : SlabEntry) : Prop :=
  sb_index a = sb_index b ∧ sb_offset a = sb_offset b ∧ sb_size a = sb_size b.

Lemma chain_insert l : ∀ lo total k i a b,
  chain lo total k l → l !! i = Some a → same_place a b → 0 ≤ sb_body_len b ≤ sb_size b →
  chain lo total k (<[i := b]> l).
Proof.
  induction l as [|c l IH]; intros lo total k i a b Hc Hi Hs Hb; [done|]. destruct Hc as [Hc Hl].
  destruct i as [|i]; simplify_eq/=; [|split; [done|by eapply IH]].
  destruct Hs as (H1 & H2 & H3). unfold slab_ok, slab_end in *. rewrite <-H1, <-H2, <-H3. intuition lia.
Qed.

Definition end_of (lo : Z) (l : list SlabEntry) : Z :=
  match last l with Some sl => slab_end sl | None => lo end.

Lemma end_of_cons lo sl l : end_of lo (sl :: l) = end_of (slab_end sl) l.
Proof.
  unfold end_of. destruct l; [done|]. rewrite last_cons_cons.
  destruct (last (_ :: l)) eqn:E; [done|]. by apply last_None in E.
Qed.

Lemma chain_end l : ∀ lo total k, chain lo total k l → lo ≤ end_of lo l ≤ total.
Proof.
  induction l as [|sl l IH]; intros lo total k Hc; [simpl in *; unfold end_of; simpl; lia|].
  rewrite end_of_cons. destruct Hc as [Hs Hc]. apply IH in Hc. unfold slab_ok, slab_end in *. lia.
Qed.

Lemma chain_snoc l : ∀ lo total k sl,
  chain lo total k l → slab_ok (end_of lo l) total (k + length l) sl → chain lo total k (l ++ [sl]).
Proof.
  induction l as [|a l IH]; intros lo total k sl Hc Hs; simpl.
  - rewrite Nat.add_0_r in Hs. unfold slab_ok in *. intuition.
  - destruct Hc as [Ha Hc]. split; [done|]. apply IH; [done|].
    rewrite end_of_cons in Hs. by rewrite Nat.add_succ_l, <-Nat.add_succ_r.
Qed.

Lemma next_offset_end total l k :
  0 ≤ DATA_REGION_OFFSET → total < 2 ^ 62 →
  chain DATA_REGION_OFFSET total k l → next_offset l = end_of DATA_REGION_OFFSET l.
Proof.
  intros H0 Ht Hc. destruct l as [|sl l]; [done|]. rewrite end_of_cons. destruct Hc as [Hs Hc].
  unfold next_offset.
  assert (0 ≤ slab_end sl) as Hp by (unfold slab_ok, slab_end in *; lia).
  rewrite u64_wrap_small by (unfold slab_ok, u64_max in *; lia). clear Hs.
  revert k sl Hp Hc. induction l as [|b l IH]; intros k sl Hp Hc; [done|].
  rewrite end_of_cons. destruct Hc as [Hb Hc]. cbn [foldl].
  assert (slab_end sl ≤ slab_end b) by (unfold slab_ok, slab_end in *; lia).
  rewrite (u64_wrap_small (slab_end b)) by (unfold slab_ok, u64_max in *; lia).
  rewrite Z.max_r by lia. apply (IH (S k)); [lia|done].
Qed.

(** Bytes of the slabs in use. *)
Definition used_by (sl : SlabEntry) : Z := if sb_in_use sl then sb_size sl else 0.
Definition used_sum (l : list SlabEntry) : Z := foldr (λ sl n, used_by sl + n) 0 l.
#[global] Arguments used_sum : simpl never.

Lemma used_sum_cons sl l : used_sum (sl :: l) = used_by sl + used_sum l.
Proof. done. Qed.

Lemma used_sum_app l l' : used_sum (l ++ l') = used_sum l + used_sum l'.
Proof. induction l as [|a l IH]; cbn [app]; rewrite ?used_sum_cons; [done|lia]. Qed.

Lemma used_sum_insert l : ∀ i a b,
  l !! i = Some a → used_sum (<[i := b]> l) = used_sum l - used_by a + used_by b.
Proof.
  induction l as [|c l IH]; intros i a b Hi; [done|].
  destruct i as [|i]; simplify_eq/=; rewrite !used_sum_cons; [lia|]. rewrite (IH i a b Hi). lia.
Qed.

Lemma used_sum_bound l : ∀ lo total k, chain lo total k l → 0 ≤ used_sum l ≤ end_of lo l - lo.
Proof.
  induction l as [|sl l IH]; intros lo total k Hc; [unfold end_of, used_sum; simpl in *; lia|].
  rewrite end_of_cons, used_sum_cons. destruct Hc as [Hs Hc]. apply IH in Hc. unfold used_by.
  unfold slab_ok, slab_end in *. destruct (sb_in_use sl); lia.
Qed.

Lemma used_by_le l lo total k i a :
  chain lo total k l → l !! i = Some a → used_by a ≤ used_sum l.
Proof.
  intros Hc Hi. pose proof (chain_lookup _ _ _ _ _ _ Hc Hi) as Ha.
  pose proof (used_sum_insert l i a (mkSlab (sb_index a) (sb_offset a) (sb_size a) false (sb_digest a) (sb_body_len a) ∅) Hi) as Hu.
  assert (0 ≤ used_sum (<[i := mkSlab (sb_index a) (sb_offset a) (sb_size a) false (sb_digest a) (sb_body_len a) ∅]> l)).
  { eapply used_sum_bound. eapply chain_insert; [done|done|done|]. unfold slab_ok in Ha. simpl. lia. }
  unfold used_by at 2 in Hu. simpl in Hu. lia.
Qed.

(* ------------------------------------------------------------------ *)
(** ** The invariant of the store

    [c] is the contract: the body written to each stored digest. *)

Definition holds (m : Mmap) (sl : SlabEntry) (b : bytes) : Prop :=
  sb_body_len sl = Z.of_nat (length b) ∧ peek_bytes m (sb_offset sl) (length b) = b.

Definition body_held (m : Mmap) (allocs : list SlabEntry) (oi : option nat) (ob : option bytes) : Prop :=
  match oi with
  | Some i => ∃ sl b, allocs !! i = Some sl ∧ ob = Some b ∧ holds m sl b
  | None => ob = None
  end.

Record store_ok (s : t) (c : gmap Digest bytes) (m : Mmap) : Prop := {
  so_mmap : mapped s = true ∧ file s = Some m ∧ mm_len m = total_size s;
  so_size : DATA_REGION_OFFSET < total_size s < 2 ^ 62;
  so_chain : chain DATA_REGION_OFFSET (total_size s) 0 (allocations s);
  so_count : Z.of_nat (length (allocations s)) ≤ MAX_SLABS;
  so_index : ∀ d i, digest_index s !! d = Some i
     ↔ ∃ sl, allocations s !! i = Some sl ∧ sb_in_use sl = true ∧ sb_digest sl = d;
  so_used : used_size s = used_sum (allocations s);
  so_body : ∀ d, body_held m (allocations s) (digest_index s !! d) (c !! d);
}.

Lemma so_mmap_eq s c m : store_ok s c m → mmap s = Some m.
Proof. intros [(H1 & H2 & _) _ _ _ _ _ _]. unfold mmap. by rewrite H1. Qed.

Lemma so_slab s c m i sl :
  store_ok s c m → allocations s !! i = Some sl → slab_ok DATA_REGION_OFFSET (total_size s) i sl.
Proof. intros Hs Hi. by eapply (chain_lookup _ _ _ 0) in Hi; [|apply Hs]. Qed.

(** Memories that agree on a slab hold the same bodies in it. *)
Lemma holds_frame m m' sl b :
  holds m sl b → Z.of_nat (length b) ≤ sb_size sl →
  (∀ i, sb_offset sl ≤ i < slab_end sl → byte_at m' i = byte_at m i) → holds m' sl b.
Proof.
  intros [Hl Hp] Hb Hm. split; [done|]. rewrite <-Hp at 2. apply peek_bytes_ext.
  intros i Hi. apply Hm. unfold slab_end. lia.
Qed.

Lemma body_frame m m' allocs total oi ob :
  chain DATA_REGION_OFFSET total 0 allocs → body_held m allocs oi ob →
  (∀ i, DATA_REGION_OFFSET ≤ i → byte_at m' i = byte_at m i) → body_held m' allocs oi ob.
Proof.
  intros Hc Hb Hm. destruct oi as [i|]; [|done]. destruct Hb as (sl & b & Hi & -> & Hh).
  exists sl, b. split_and!; [done..|].
  eapply (chain_lookup _ _ _ 0) in Hc as (_ & Ho & _ & _ & _ & _ & Hl); [|exact Hi].
  eapply holds_frame; [done|destruct Hh; lia|]. intros j Hj. apply Hm. lia.
Qed.

(** The bytes of a table entry, its padding left out. *)
Definition entry_bytes (sl : SlabEntry) : bytes :=
  bytes_of (sb_digest sl) ++ to_le_bytes 8 (sb_offset sl) ++ to_le_bytes 8 (sb_size sl)
  ++ [in_use_flag (sb_in_use sl)] ++ to_le_bytes 8 (sb_body_len sl).

Lemma entry_in_table i :
  (Z.of_nat i < MAX_SLABS) → 128 ≤ entry_offset i ∧ entry_offset i + 64 ≤ DATA_REGION_OFFSET.
Proof. unfold entry_offset, DATA_REGION_OFFSET, FILE_HEADER_SIZE, SLAB_ENTRY_SIZE, MAX_SLABS. lia. Qed.

Lemma put_entry_spec sl m :
  Z.of_nat (sb_index sl) < MAX_SLABS → DATA_REGION_OFFSET ≤ mm_len m →
  ∃ m', put_entry sl m = Some m' ∧ mm_len m' = mm_len m
    ∧ (∀ j, j < entry_offset (sb_index sl) ∨ entry_offset (sb_index sl) + 57 ≤ j →
         byte_at m' j = byte_at m j)
    ∧ peek_bytes m' (entry_offset (sb_index sl)) 57 = entry_bytes sl.
Proof.
  intros Hi Hm. pose proof (entry_in_table _ Hi) as He. set (e := entry_offset (sb_index sl)) in *.
  unfold put_entry. fold e. pose proof (length_bytes_of (sb_digest sl)) as Hd.
  rewrite mmap_write_Some by (rewrite ?Hd; simpl; lia). cbn [mbind option_bind].
  do 4 (rewrite mmap_write_Some by (rewrite ?length_to_le_bytes; simpl; lia); cbn [mbind option_bind]).
  eexists. split_and!; [done..| |].
  - intros j Hj. unfold byte_at. cbn [mm_cells].
    rewrite !put_other by (rewrite ?length_to_le_bytes, ?Hd; simpl; lia). done.
  - unfold entry_bytes. change 57%nat with (32 + (8 + (8 + (1 + 8))))%nat. cbn [mm_len mm_cells].
    rewrite !peek_bytes_app, <-!Z.add_assoc. repeat f_equal.
    all: repeat first [ apply peek_put_same; rewrite ?length_to_le_bytes; done
                      | rewrite (peek_put_other _ 0) by (rewrite ?length_to_le_bytes; simpl; lia) ].
Qed.

Lemma data_region_pos : 0 < DATA_REGION_OFFSET.
Proof. done. Qed.

(** What one write of a table entry does to the mapping. *)
Definition wrote_entry (m m' : Mmap) (sl : SlabEntry) : Prop :=
  (∀ j, j < entry_offset (sb_index sl) ∨ entry_offset (sb_index sl) + 57 ≤ j →
     byte_at m' j = byte_at m j)
  ∧ peek_bytes m' (entry_offset (sb_index sl)) 57 = entry_bytes sl.

Lemma wrote_entry_data m m' sl :
  wrote_entry m m' sl → Z.of_nat (sb_index sl) < MAX_SLABS →
  ∀ i, DATA_REGION_OFFSET ≤ i → byte_at m' i = byte_at m i.
Proof. intros [H _] Hi j Hj. apply H. pose proof (entry_in_table _ Hi). lia. Qed.

(** A slab chosen for an allocation: free, large enough, old or just appended. *)
Definition picked (n : Z) (idx : nat) (s s1 : t) : Prop :=
  ∃ sl, allocations s1 !! idx = Some sl ∧ sb_in_use sl = false ∧ Z.max n 64 ≤ sb_size sl
    ∧ (s1 = s ∨ s1 = with_slabs (allocations s ++ [sl]) s ∧ idx = length (allocations s)).

Lemma new_slab_ok n s c m :
  store_ok s c m → 64 ≤ n < 2 ^ 62 →
  let sl := mkSlab (length (allocations s)) (align_up 8 (next_offset (allocations s)))
              (align_up 8 n) false Digest_ZERO 0 ∅ in
  alloc_new_slab n s = (Err StorageError_Full, s)
  ∨ (alloc_new_slab n s = (Ok (length (allocations s)), with_slabs (allocations s ++ [sl]) s)
     ∧ store_ok (with_slabs (allocations s ++ [sl]) s) c m ∧ n ≤ sb_size sl).
Proof.
  intros Hs Hn sl. pose proof Hs as [_ Hsz Hch Hcount Hidx Hu Hb].
  pose proof (chain_end _ _ _ _ Hch) as He. pose proof data_region_pos.
  unfold alloc_new_slab. change DATA_ALIGN with 8. fold sl.
  assert (next_offset (allocations s) = end_of DATA_REGION_OFFSET (allocations s)) as Hno
    by (apply (next_offset_end (total_size s) _ 0); [lia|lia|done]).
  destruct (align_up_bounds n) as [Ha Ha8]; [lia|unfold u64_max; lia|].
  destruct (align_up_bounds (next_offset (allocations s))) as [Ho Ho8]; [lia|unfold u64_max; lia|].
  rewrite u64_wrap_small by (unfold u64_max; lia).
  case_if; [by left|]. case_if; [by left|]. bool_to_prop. right. split; [done|]. split; [|simpl; lia].
  assert (chain DATA_REGION_OFFSET (total_size s) 0 (allocations s ++ [sl])) as Hch'.
  { apply chain_snoc; [done|]. rewrite <-Hno. unfold slab_ok, slab_end. simpl. split_and!; try done; lia. }
  split; [apply Hs|done|done| | | |].
  - simpl. rewrite length_app. simpl. lia.
  - intros d i. simpl. rewrite Hidx. split; intros (x & Hx & Hin & Hd); exists x.
    + split; [by apply lookup_app_l_Some|done].
    + apply lookup_app_Some in Hx as [Hx|[_ Hx]]; [done|].
      apply list_lookup_singleton_Some in Hx as [_ <-]. done.
  - simpl. rewrite used_sum_app, Hu. change (used_sum [sl]) with 0. lia.
  - intros d. simpl. specialize (Hb d). destruct (digest_index s !! d) as [i|]; [|done].
    destruct Hb as (x & b & Hx & Hrest). exists x, b. split; [by apply lookup_app_l_Some|done].
Qed.

Lemma pick_ok n s c m :
  store_ok s c m → 0 ≤ n < 2 ^ 62 →
  ∃ r s1, alloc_pick n s = (r, s1) ∧ store_ok s1 c m
    ∧ match r with Ok idx => picked n idx s s1 | Err _ => s1 = s end.
Proof.
  intros Hs Hn. unfold alloc_pick, find_free_slab.
  destruct (list_find _ _) as [[i sl]|] eqn:E; simpl.
  - apply list_find_Some in E as (Hi & [Hf Hsz] & _). eexists _, _. split_and!; [done..|].
    exists sl. split_and!; [done..|by left].
  - destruct (new_slab_ok (Z.max n 64) s c m) as [->|(-> & Hok & Hsz)]; [done|lia| |].
    + eexists _, _. by split_and!.
    + eexists _, _. split_and!; [done..|]. eexists. split_and!; [by apply list_lookup_middle|done|done|].
      by right.
Qed.

Lemma body_insert m m' allocs total i sl' oi ob :
  chain DATA_REGION_OFFSET total 0 allocs → oi ≠ Some i → body_held m allocs oi ob →
  (∀ j x, allocs !! j = Some x → j ≠ i → ∀ k, sb_offset x ≤ k < slab_end x → byte_at m' k = byte_at m k) →
  body_held m' (<[i := sl']> allocs) oi ob.
Proof.
  intros Hc Hne Hb Hm. destruct oi as [j|]; [|done]. destruct Hb as (sl & b & Hj & -> & Hh).
  exists sl, b. split_and!; [|done|].
  - rewrite list_lookup_insert_ne; [done|congruence].
  - eapply (chain_lookup _ _ _ 0) in Hc as (_ & Ho & _ & _ & _ & _ & Hl); [|exact Hj].
    eapply holds_frame; [done|destruct Hh; lia|]. apply (Hm j); [done|congruence].
Qed.

Lemma write_entry_ok sl s c m :
  store_ok s c m → Z.of_nat (sb_index sl) < MAX_SLABS →
  ∃ m', (∀ allocs digs used, write_slab_entry sl
           (mk (name s) (path s) (total_size s) used (file s) (mapped s) allocs digs (is_open s))
         = Some (mk (name s) (path s) (total_size s) used (Some m') (mapped s) allocs digs (is_open s)))
    ∧ mm_len m' = total_size s ∧ wrote_entry m m' sl.
Proof.
  intros [(H1 & H2 & H3) Hsz _ _ _ _ _] Hi.
  destruct (put_entry_spec sl m Hi) as (m' & E & Hlen & Hw); [lia|].
  exists m'. split_and!; [|congruence|exact Hw].
  intros allocs digs used. unfold write_slab_entry, mmap. simpl. rewrite H1, H2. simpl. by rewrite E.
Qed.

(** The slab claimed for [d]. *)
Definition claimed (d : Digest) (sl : SlabEntry) : SlabEntry :=
  mkSlab (sb_index sl) (sb_offset sl) (sb_size sl) true d 0 ∅.

Lemma slab_count_bound s c m i sl :
  store_ok s c m → allocations s !! i = Some sl → Z.of_nat (sb_index sl) < MAX_SLABS.
Proof.
  intros Hs Hi. pose proof (so_slab _ _ _ _ _ Hs Hi) as (-> & _).
  apply lookup_lt_Some in Hi. pose proof (so_count _ _ _ Hs). lia.
Qed.

Lemma claim_ok d idx s c m sl :
  store_ok s c m → digest_index s !! d = None → allocations s !! idx = Some sl → sb_in_use sl = false →
  ∃ s' m', alloc_claim d idx s = Some s' ∧ store_ok s' (<[d := []]> c) m'
    ∧ allocations s' = <[idx := claimed d sl]> (allocations s) ∧ wrote_entry m m' (claimed d sl).
Proof.
  intros Hs Hd Hi Hf. pose proof Hs as [(H1 & H2 & H3) Hsz Hch Hcount Hidx Hu Hb].
  assert (same_place sl (claimed d sl)) as Hplace by done.
  pose proof (so_slab _ _ _ _ _ Hs Hi) as Hsl.
  assert (Z.of_nat (sb_index (claimed d sl)) < MAX_SLABS) as Hmax by exact (slab_count_bound _ _ _ _ _ Hs Hi).
  assert (chain DATA_REGION_OFFSET (total_size s) 0 (<[idx:=claimed d sl]> (allocations s))) as Hch'.
  { eapply chain_insert; [done..|]. unfold slab_ok in Hsl. simpl. lia. }
  pose proof (used_sum_insert _ _ _ (claimed d sl) Hi) as Hu'.
  unfold used_by in Hu'. rewrite Hf in Hu'. simpl in Hu'.
  pose proof (used_sum_bound _ _ _ _ Hch'). pose proof (chain_end _ _ _ _ Hch'). pose proof data_region_pos.
  destruct (write_entry_ok (claimed d sl) s c m Hs Hmax) as (m' & Hw & Hlen & Hwrote).
  unfold alloc_claim. rewrite Hi. cbn [mbind option_bind]. fold (claimed d sl).
  unfold with_used, with_slabs. cbn. rewrite Hw. cbn.
  eexists _, m'. split_and!; [done| |done|done].
  split; cbn; [done|done|done|by rewrite length_insert| | |].
  - intros d' i. rewrite lookup_insert_Some, Hidx. split.
    + intros [[<- <-]|[Hne (x & Hx & Hin & Hxd)]].
      * exists (claimed d sl). split; [|done]. apply list_lookup_insert_eq. by eapply lookup_lt_Some.
      * exists x. split; [|done]. rewrite list_lookup_insert_ne; [done|congruence].
    + intros (x & Hx & Hin & Hxd). apply list_lookup_insert_Some in Hx as [(<- & <- & _)|[Hne Hx]]; [by left|].
      right. split; [|by eauto]. intros ->. assert (digest_index s !! d' = Some i) by (apply Hidx; eauto). congruence.
  - rewrite u64_wrap_small by (unfold u64_max; lia). lia.
  - intros d'. destruct (decide (d = d')) as [<-|Hne].
    + rewrite !lookup_insert_eq. exists (claimed d sl), []. split_and!; [|done|done].
      apply list_lookup_insert_eq. by eapply lookup_lt_Some.
    + rewrite !lookup_insert_ne by done. eapply body_insert; [done| |apply Hb|].
      * intros E. apply Hidx in E as (x & Hx & Hin & _). congruence.
      * intros j x Hx _ k Hk. eapply wrote_entry_data; [done..|].
        pose proof (so_slab _ _ _ _ _ Hs Hx) as (_ & ? & _). lia.
Qed.

Lemma alloc_ok d n s c m :
  store_ok s c m → 0 ≤ n < 2 ^ 62 → c !! d = None →
  ∃ r s' m', alloc_obj d n s = Some (r, s') ∧
    match r with
    | Err _ => s' = s ∧ m' = m
    | Ok _ => store_ok s' (<[d := []]> c) m'
        ∧ ∃ idx s1 sl, picked n idx s s1 ∧ allocations s1 !! idx = Some sl ∧ sb_index sl = idx
          ∧ allocations s' = <[idx := claimed d sl]> (allocations s1) ∧ wrote_entry m m' (claimed d sl)
    end.
Proof.
  intros Hs Hn Hd. unfold alloc_obj. destruct (pick_ok n s c m Hs Hn) as (r & s1 & -> & Hs1 & Hr).
  destruct r as [idx|e]; [|subst; eexists _, _, m; by split_and!].
  pose proof Hr as (sl & Hi & Hf & _).
  assert (digest_index s1 !! d = None) as Hd1.
  { pose proof (so_body _ _ _ Hs1 d) as Hb. rewrite Hd in Hb. destruct (digest_index s1 !! d); [|done].
    by destruct Hb as (? & ? & _ & ? & _). }
  destruct (claim_ok d idx s1 c m sl) as (s' & m' & E & Hs' & Ha & Hw); [done..|].
  rewrite E. eexists _, s', m'. split; [done|]. split; [done|]. exists idx, s1, sl.
  split_and!; try done. by destruct (so_slab _ _ _ _ _ Hs1 Hi).
Qed.

Definition freed (sl : SlabEntry) : SlabEntry :=
  mkSlab (sb_index sl) (sb_offset sl) (sb_size sl) false (sb_digest sl) 0 ∅.

Lemma free_ok d s c m :
  store_ok s c m →
  ∃ s' m', free_obj d s = Some s' ∧ store_ok s' (delete d c) m'
    ∧ ((s' = s ∧ m' = m) ∨ ∃ idx sl, allocations s !! idx = Some sl ∧ sb_index sl = idx
         ∧ allocations s' = <[idx := freed sl]> (allocations s) ∧ wrote_entry m m' (freed sl)).
Proof.
  intros Hs. pose proof Hs as [(H1 & H2 & H3) Hsz Hch Hcount Hidx Hu Hb]. unfold free_obj.
  destruct (digest_index s !! d) as [idx|] eqn:Hd.
  2: { exists s, m. split_and!; [done| |by left]. rewrite delete_id; [done|].
       specialize (Hb d). by rewrite Hd in Hb. }
  destruct (proj1 (Hidx d idx) Hd) as (sl & Hi & Hin & Hsd). cbn. rewrite Hi.
  pose proof (so_slab _ _ _ _ _ Hs Hi) as Hsl. fold (freed sl).
  destruct (write_entry_ok (freed sl) s c m Hs) as (m' & Hw & Hlen & Hwrote);
    [exact (slab_count_bound _ _ _ _ _ Hs Hi)|].
  unfold with_used, with_slabs, with_digests. cbn. rewrite Hw. eexists _, m'.
  split_and!; [done| |right; exists idx, sl; split_and!; try done; by destruct Hsl].
  assert (chain DATA_REGION_OFFSET (total_size s) 0 (<[idx:=freed sl]> (allocations s))) as Hch'.
  { eapply chain_insert; [done..|]. unfold slab_ok in Hsl. simpl. lia. }
  pose proof (used_sum_insert _ _ _ (freed sl) Hi) as Hu'.
  unfold used_by in Hu'. rewrite Hin in Hu'. simpl in Hu'.
  pose proof (used_sum_bound _ _ _ _ Hch'). pose proof (chain_end _ _ _ _ Hch'). pose proof data_region_pos.
  split; cbn; [done|done|done|by rewrite length_insert| | |].
  - intros d' i. rewrite lookup_delete_Some, Hidx. split.
    + intros [Hne (x & Hx & Hxi & Hxd)]. exists x. split; [|done].
      rewrite list_lookup_insert_ne; [done|congruence].
    + intros (x & Hx & Hxi & Hxd). apply list_lookup_insert_Some in Hx as [(<- & <- & _)|[Hne Hx]]; [done|].
      split; [|by eauto]. intros ->. assert (digest_index s !! d' = Some i) by (apply Hidx; eauto). congruence.
  - rewrite u64_wrap_small by (unfold u64_max; lia). lia.
  - intros d'. destruct (decide (d = d')) as [<-|Hne]; [by rewrite !lookup_delete_eq|].
    rewrite !lookup_delete_ne by done. eapply body_insert; [done| |apply Hb|].
    + intros E. apply Hidx in E as (x & Hx & _ & Hxd). congruence.
    + intros j x Hx _ k Hk. eapply wrote_entry_data; [done|exact (slab_count_bound _ _ _ _ _ Hs Hi)|].
      pose proof (so_slab _ _ _ _ _ Hs Hx) as (_ & ? & _). lia.
Qed.

(** A slab whose body or attributes changed in memory only. *)
Definition touched (sl : SlabEntry) (len : Z) (attrs : gmap ObjAttr bytes) : SlabEntry :=
  mkSlab (sb_index sl) (sb_offset sl) (sb_size sl) (sb_in_use sl) (sb_digest sl) len attrs.

Lemma touch_ok d idx s c m sl m' len attrs b b' :
  store_ok s c m → digest_index s !! d = Some idx → allocations s !! idx = Some sl → c !! d = Some b →
  0 ≤ len ≤ sb_size sl → mm_len m' = total_size s → holds m' (touched sl len attrs) b' →
  (∀ k, k < sb_offset sl ∨ slab_end sl ≤ k → byte_at m' k = byte_at m k) →
  store_ok (with_slabs (<[idx := touched sl len attrs]> (allocations s)) (with_file (Some m') s))
    (<[d := b']> c) m'.
Proof.
  intros Hs Hd Hi Hc Hl Hlen Hh Hm. pose proof Hs as [(H1 & H2 & H3) Hsz Hch Hcount Hidx Hu Hb].
  destruct (proj1 (Hidx d idx) Hd) as (sl' & Hi' & Hin & Hsd). simplify_eq.
  pose proof (so_slab _ _ _ _ _ Hs Hi) as Hsl.
  split; cbn; [done|done|by eapply chain_insert|by rewrite length_insert| | |].
  - intros d' i. rewrite Hidx. split; intros (x & Hx & Hxi & Hxd).
    + destruct (decide (i = idx)) as [->|]; [|exists x; by rewrite list_lookup_insert_ne].
      simplify_eq. exists (touched sl len attrs). split; [|done].
      apply list_lookup_insert_eq. by eapply lookup_lt_Some.
    + apply list_lookup_insert_Some in Hx as [(-> & <- & _)|[Hne Hx]]; [|by eauto]. exists sl. done.
  - rewrite (used_sum_insert _ _ sl) by done. unfold used_by. simpl. lia.
  - intros d'. destruct (decide (sb_digest sl = d')) as [<-|Hne].
    + rewrite Hd, lookup_insert_eq. eexists _, b'. split_and!; [|done|exact Hh].
      apply list_lookup_insert_eq. by eapply lookup_lt_Some.
    + rewrite lookup_insert_ne by done. eapply body_insert; [done| |apply Hb|].
      * intros E. apply Hidx in E as (x & Hx & _ & Hxd). congruence.
      * intros j x Hx Hj k Hk. apply Hm. destruct (decide (j < idx)%nat).
        -- pose proof (chain_apart _ _ _ _ j idx _ _ Hch Hx Hi ltac:(lia)). lia.
        -- pose proof (chain_apart _ _ _ _ idx j _ _ Hch Hi Hx ltac:(lia)). lia.
Qed.

Lemma stored_slab s c m d idx :
  store_ok s c m → digest_index s !! d = Some idx →
  ∃ sl b, allocations s !! idx = Some sl ∧ c !! d = Some b ∧ holds m sl b
    ∧ slab_ok DATA_REGION_OFFSET (total_size s) idx sl.
Proof.
  intros Hs Hd. pose proof (so_body _ _ _ Hs d) as Hb. rewrite Hd in Hb.
  destruct Hb as (sl & b & Hi & Hc & Hh). exists sl, b. split_and!; [done..|by eapply so_slab].
Qed.

Lemma with_file_same s c m : store_ok s c m → with_file (Some m) s = s.
Proof. intros [(_ & H & _) _ _ _ _ _ _]. destruct s. unfold with_file. simpl in *. by subst. Qed.

Lemma extend_ok d data s c m :
  store_ok s c m → Z.of_nat (length data) < 2 ^ 62 →
  ∃ r s' m', extend d data s = Some (r, s') ∧
    match r with
    | Err _ => s' = s ∧ m' = m
    | Ok _ => ∃ b idx sl len, c !! d = Some b ∧ store_ok s' (<[d := b ++ data]> c) m'
        ∧ allocations s !! idx = Some sl
        ∧ allocations s' = <[idx := touched sl len (sb_attrs sl)]> (allocations s)
        ∧ ∀ k, k < DATA_REGION_OFFSET → byte_at m' k = byte_at m k
    end.
Proof.
  intros Hs Hdata. unfold extend.
  destruct (digest_index s !! d) as [idx|] eqn:Hd; [|eexists _, s, m; by split_and!].
  rewrite (so_mmap_eq _ _ _ Hs). pose proof data_region_pos as HD. pose proof (so_size _ _ _ Hs) as Hsz.
  destruct (stored_slab _ _ _ _ _ Hs Hd) as (sl & b & Hi & Hc & [Hl Hp] & Hsl). rewrite Hi.
  pose proof Hsl as (_ & Ho & He & _ & _ & _ & Hbl). unfold slab_end in *.
  rewrite (u64_wrap_small (_ + sb_body_len sl)) by (unfold u64_max; lia).
  rewrite (u64_wrap_small (_ + Z.of_nat (length data))) by (unfold u64_max; lia).
  rewrite (u64_wrap_small (sb_offset sl + sb_size sl)) by (unfold u64_max; lia).
  case_if; [eexists _, s, m; by split_and!|]. bool_to_prop.
  pose proof (so_mmap _ _ _ Hs) as (_ & _ & Hlen). rewrite mmap_write_Some by lia. cbn [mbind option_bind].
  rewrite u64_wrap_small by (unfold u64_max; lia). eexists _, _, _. split; [done|].
  exists b, idx, sl, (sb_body_len sl + Z.of_nat (length data)). split_and!; [done| |done|done|].
  - eapply touch_ok; [done..|lia|done| |].
    + split; simpl; rewrite length_app; [lia|]. rewrite peek_bytes_app. f_equal.
      * rewrite <-Hp at 2. rewrite (peek_put_other _ (mm_len m)) by lia. by destruct m.
      * rewrite Hl. by apply peek_put_same.
    + intros k Hk. unfold byte_at. simpl. rewrite put_other; [done|]. unfold slab_end in Hk. lia.
  - intros k Hk. unfold byte_at. simpl. rewrite put_other; [done|lia].
Qed.

Lemma set_attr_ok d a data s c m :
  store_ok s c m →
  ∃ r s', set_attr d a data s = (r, s') ∧ store_ok s' c m ∧
    (s' = s ∨ ∃ idx sl at', allocations s !! idx = Some sl
              ∧ allocations s' = <[idx := touched sl (sb_body_len sl) at']> (allocations s)).
Proof.
  intros Hs. unfold set_attr.
  destruct (digest_index s !! d) as [idx|] eqn:Hd; [|eexists _, s; split_and!; by try left].
  destruct (stored_slab _ _ _ _ _ Hs Hd) as (sl & b & Hi & Hc & Hh & Hsl). rewrite Hi.
  eexists _, _. split_and!; [done| |right; eexists _, _, _; done].
  rewrite <-(with_file_same _ _ _ Hs) at 2. rewrite <-(insert_id c d b) by done.
  eapply touch_ok; [done..|apply Hsl|apply Hs|exact Hh|done].
Qed.

Lemma get_body_ok d s c m :
  store_ok s c m →
  get_body d s = Some (match c !! d with Some [] | None => None | Some b => Some b end).
Proof.
  intros Hs. unfold get_body. rewrite (so_mmap_eq _ _ _ Hs).
  destruct (digest_index s !! d) as [idx|] eqn:Hd.
  - destruct (stored_slab _ _ _ _ _ Hs Hd) as (sl & b & Hi & -> & [Hl Hp] & Hsl). rewrite Hi, Hl.
    destruct b as [|x b]; [done|]. rewrite (proj2 (Z.eqb_neq _ _)) by (simpl; lia).
    pose proof data_region_pos. pose proof (so_mmap _ _ _ Hs) as (_ & _ & Hlen).
    unfold slab_ok, slab_end in Hsl. rewrite Nat2Z.id, mmap_read_Some, Hp by lia. done.
  - pose proof (so_body _ _ _ Hs d) as Hb. rewrite Hd in Hb. simpl in Hb. by rewrite Hb.
Qed.

(* ------------------------------------------------------------------ *)
(** ** Compaction keeps the bodies *)

Lemma align_up_le len n : 0 ≤ len ≤ n → n mod 8 = 0 → n < 2 ^ 62 → align_up 8 len ≤ n.
Proof.
  intros Hl Hn Hb. rewrite align_up_8 by (unfold u64_max; lia). Z.to_euclidean_division_equations. lia.
Qed.

Lemma sort_by_key_sorted key l :
  StronglySorted (λ i j, key i ≤ key j) l → sort_by_key key l = l.
Proof.
  induction 1 as [|x l Hs IH Hx]; [done|]. unfold sort_by_key in *. cbn [foldr]. rewrite IH.
  destruct l as [|y l]; [done|]. inversion Hx; subst. cbn [insert_by]. by rewrite (proj2 (Z.leb_le _ _)).
Qed.

Lemma in_use_from_elem l : ∀ k i, i ∈ in_use_from k l → (k ≤ i)%nat ∧ is_Some (l !! (i - k)%nat).
Proof.
  induction l as [|sl l IH]; intros k i Hi; [by apply not_elem_of_nil in Hi|]. simpl in Hi.
  assert (i ∈ in_use_from (S k) l → (k ≤ i)%nat ∧ is_Some ((sl :: l) !! (i - k)%nat)) as Hrest.
  { intros H%IH. destruct H as [Hk Hl]. split; [lia|].
    replace (i - k)%nat with (S (i - S k)) by lia. done. }
  destruct (sb_in_use sl); [|auto]. apply elem_of_cons in Hi as [->|Hi]; [|auto].
  split; [done|]. rewrite Nat.sub_diag. by eexists.
Qed.

Lemma in_use_sorted rest : ∀ pre lo total,
  chain lo total (length pre) rest →
  StronglySorted (λ i j, offset_at (pre ++ rest) i ≤ offset_at (pre ++ rest) j)
    (in_use_from (length pre) rest).
Proof.
  induction rest as [|sl rest IH]; intros pre lo total Hc; simpl; [constructor|].
  pose proof Hc as [Hsl Hc']. specialize (IH (pre ++ [sl]) (slab_end sl) total).
  rewrite length_app, Nat.add_1_r, <-app_assoc in IH. specialize (IH Hc').
  destruct (sb_in_use sl); [|done]. constructor; [done|]. apply Forall_forall. intros j Hj.
  apply in_use_from_elem in Hj as [Hk [x Hx]]. unfold offset_at. rewrite list_lookup_middle by done.
  rewrite lookup_app_r by lia. replace (j - length pre)%nat with (S (j - S (length pre))) by lia. simpl.
  rewrite Hx. eapply (chain_lookup _ _ _ _ _ _ Hc') in Hx as (_ & Ho & _).
  unfold slab_ok, slab_end in *. lia.
Qed.

(** The slabs [old] moved one behind the other from [next] on, with their bodies. *)
Fixpoint moved (m m' : Mmap) (next : Z) (old new : list SlabEntry) : Prop :=
  match old, new with
  | [], [] => True
  | a :: old, b :: new =>
      b = mkSlab (sb_index a) next (sb_size a) (sb_in_use a) (sb_digest a) (sb_body_len a) (sb_attrs a)
      ∧ peek_bytes m' next (Z.to_nat (sb_body_len a))
        = peek_bytes m (sb_offset a) (Z.to_nat (sb_body_len a))
      ∧ moved m m' (next + sb_size a) old new
  | _, _ => False
  end.

(** Only what the old slabs hold matters. *)
Lemma moved_frame old : ∀ m1 m m' next new lo total k,
  chain lo total k old → (∀ j, lo ≤ j → byte_at m1 j = byte_at m j) →
  moved m1 m' next (filter (λ sl, sb_in_use sl = true) old) new →
  moved m m' next (filter (λ sl, sb_in_use sl = true) old) new.
Proof.
  induction old as [|a old IH]; intros m1 m m' next new lo total k Hc Hm Hmv; [done|].
  destruct Hc as [Ha Hc]. unfold slab_ok, slab_end in Ha. rewrite filter_cons in *.
  destruct (decide (sb_in_use a = true)).
  - destruct new as [|b new]; [done|]. destruct Hmv as (Hb & Hp & Hmv). split_and!; [done| |].
    + rewrite Hp. apply peek_bytes_ext. intros j Hj. apply Hm. lia.
    + eapply IH; [done| |done]. intros j Hj. apply Hm. unfold slab_end in Hj. lia.
  - eapply IH; [done| |done]. intros j Hj. apply Hm. unfold slab_end in Hj. lia.
Qed.

Definition placed (next : Z) (a : SlabEntry) : SlabEntry :=
  mkSlab (sb_index a) next (sb_size a) (sb_in_use a) (sb_digest a) (sb_body_len a) (sb_attrs a).

(** The copy of one body down to [next]. *)
Lemma move_body_ok a m next total lo k :
  slab_ok lo total k a → DATA_REGION_OFFSET ≤ next ≤ sb_offset a → mm_len m = total →
  ∃ m1, (if negb (next =? sb_offset a) && (0 <? sb_body_len a)
         then mmap_move (sb_offset a) next (Z.to_nat (sb_body_len a)) m else Some m) = Some m1
    ∧ mm_len m1 = total
    ∧ peek_bytes m1 next (Z.to_nat (sb_body_len a)) = peek_bytes m (sb_offset a) (Z.to_nat (sb_body_len a))
    ∧ ∀ j, j < next ∨ slab_end a ≤ j → byte_at m1 j = byte_at m j.
Proof.
  intros Ha Hn Hm. pose proof data_region_pos. unfold slab_ok, slab_end in *.
  destruct (negb _ && _) eqn:E.
  - bool_to_prop. unfold mmap_move. rewrite mmap_read_Some by lia. cbn [mbind option_bind].
    rewrite mmap_write_Some by (rewrite ?length_peek_bytes; lia). eexists.
    split_and!; [done|done| |].
    + apply peek_put_same. by rewrite length_peek_bytes.
    + intros j Hj. unfold byte_at. cbn [mm_cells]. rewrite put_other; [done|].
      rewrite length_peek_bytes. lia.
  - exists m. split_and!; [done..| |done]. apply andb_false_iff in E as [E|E]; bool_to_prop.
    + by rewrite E.
    + by replace (sb_body_len a) with 0 by lia.
Qed.

Lemma move_slab_ok a pre rest m next total lo :
  slab_ok lo total (length pre) a → Z.of_nat (length pre) < MAX_SLABS →
  DATA_REGION_OFFSET ≤ next ≤ sb_offset a → mm_len m = total → DATA_REGION_OFFSET < total < 2 ^ 62 →
  ∃ m1, move_slab (length pre) (pre ++ a :: rest) m next
        = Some (pre ++ placed next a :: rest, m1, next + sb_size a)
    ∧ mm_len m1 = total
    ∧ peek_bytes m1 next (Z.to_nat (sb_body_len a)) = peek_bytes m (sb_offset a) (Z.to_nat (sb_body_len a))
    ∧ ∀ j, DATA_REGION_OFFSET ≤ j < next ∨ slab_end a ≤ j → byte_at m1 j = byte_at m j.
Proof.
  intros Ha Hk Hn Hm Ht. destruct (move_body_ok a m next total lo (length pre)) as (m0 & E & Hl0 & Hp0 & Hb0);
    [done..|].
  pose proof Ha as (Hidx & Ho & He & _ & H64 & H8 & Hbl). unfold slab_end in *. pose proof data_region_pos.
  pose proof (entry_in_table _ Hk) as Hen. unfold move_slab. rewrite list_lookup_middle by done.
  cbn [mbind option_bind]. rewrite E. cbn [mbind option_bind sb_index sb_offset sb_size].
  change DATA_ALIGN with 8. rewrite Z.max_r by (apply align_up_le; lia). rewrite Hidx.
  do 2 (rewrite mmap_write_Some by (rewrite ?length_to_le_bytes; simpl; lia); cbn [mbind option_bind]).
  rewrite u64_wrap_small by (unfold u64_max; lia). eexists. split_and!; [| |rewrite <-Hp0|].
  - do 4 f_equal. rewrite insert_app_r_alt, Nat.sub_diag by done. unfold placed. by rewrite Hidx.
  - done.
  - apply peek_bytes_ext. intros j Hj. unfold byte_at. cbn [mm_cells].
    by rewrite !put_other by (rewrite length_to_le_bytes; lia).
  - intros j Hj. rewrite <-Hb0 by lia. unfold byte_at. cbn [mm_cells].
    by rewrite !put_other by (rewrite length_to_le_bytes; lia).
Qed.

Lemma move_slabs_ok rest : ∀ pre m next total lo,
  chain lo total (length pre) rest → Z.of_nat (length pre + length rest) ≤ MAX_SLABS →
  DATA_REGION_OFFSET ≤ next ≤ lo → mm_len m = total → DATA_REGION_OFFSET < total < 2 ^ 62 →
  ∃ rest' m', move_slabs (in_use_from (length pre) rest) (pre ++ rest) m next = Some (pre ++ rest', m')
    ∧ mm_len m' = total ∧ (∀ j, DATA_REGION_OFFSET ≤ j < next → byte_at m' j = byte_at m j)
    ∧ moved m m' next (filter (λ sl, sb_in_use sl = true) rest)
        (filter (λ sl, sb_in_use sl = true) rest').
Proof.
  induction rest as [|a rest IH]; intros pre m next total lo Hc Hk Hn Hm Ht; [by exists [], m|].
  pose proof Hc as [Ha Hc']. cbn [length] in Hk. cbn [in_use_from]. rewrite !filter_cons.
  pose proof Ha as (_ & Ho & _ & _ & H64 & _ & Hbl). unfold slab_end in *.
  assert (∀ x, length (pre ++ [x : SlabEntry]) = S (length pre)) as Hpre
    by (intros; rewrite length_app; simpl; lia).
  destruct (sb_in_use a) eqn:Ein.
  - destruct (move_slab_ok a pre rest m next total lo) as (m1 & E & Hl1 & Hp1 & Hb1); [done|lia|lia|done|done|].
    cbn [move_slabs]. rewrite E. cbn [mbind option_bind].
    destruct (IH (pre ++ [placed next a]) m1 (next + sb_size a) total (sb_offset a + sb_size a))
      as (rest' & m' & E' & Hl' & Hb' & Hmv); rewrite ?Hpre; [done|lia|lia|done|done|].
    rewrite Hpre, <-app_assoc in E'. cbn in E'. rewrite E', <-app_assoc. cbn [app].
    exists (placed next a :: rest'), m'. split_and!; [done|done| |].
    + intros j Hj. rewrite Hb', Hb1 by lia. done.
    + rewrite filter_cons. cbn [placed sb_in_use]. rewrite Ein, !decide_True by done. split_and!; [done| |].
      * rewrite <-Hp1. apply peek_bytes_ext. intros j Hj. apply Hb'. lia.
      * eapply moved_frame; [exact Hc'| |exact Hmv]. intros j Hj. apply Hb1. unfold slab_end in *. lia.
  - destruct (IH (pre ++ [a]) m next total (sb_offset a + sb_size a))
      as (rest' & m' & E' & Hl' & Hb' & Hmv); rewrite ?Hpre; [done|lia|lia|done|done|].
    rewrite Hpre, <-app_assoc in E'. cbn [app] in E'. rewrite E', <-app_assoc. cbn [app].
    exists (a :: rest'), m'. split_and!; [done..|].
    rewrite filter_cons, Ein, !decide_False by done. done.
Qed.

Abbreviation live := (filter (λ sl, sb_in_use sl = true)).

Lemma moved_lookup old : ∀ m m' next new j,
  moved m m' next old new →
  option_Forall2 (λ a b, ∃ n, b = placed n a
      ∧ peek_bytes m' n (Z.to_nat (sb_body_len a)) = peek_bytes m (sb_offset a) (Z.to_nat (sb_body_len a)))
    (old !! j) (new !! j).
Proof.
  induction old as [|a old IH]; intros m m' next [|b new] j Hmv; [constructor|done|done|].
  destruct Hmv as (Hb & Hp & Hmv). destruct j as [|j]; simpl; [|by eapply IH].
  constructor. by exists next.
Qed.

Lemma used_sum_live l : used_sum (live l) = used_sum l.
Proof.
  induction l as [|a l IH]; [done|]. rewrite filter_cons, used_sum_cons.
  destruct (decide (sb_in_use a = true)) as [E|E]; [by rewrite used_sum_cons, IH|].
  rewrite IH. unfold used_by. apply not_true_is_false in E. rewrite E. lia.
Qed.

Lemma moved_used old : ∀ m m' next new, moved m m' next old new → used_sum new = used_sum old.
Proof.
  induction old as [|a old IH]; intros m m' next [|b new] Hmv; try done.
  destruct Hmv as (-> & _ & Hmv). rewrite !used_sum_cons. by erewrite IH.
Qed.

(** The moved slabs lie one behind the other without a gap. *)
Lemma moved_chain old : ∀ m m' next new k lo total total0 ks,
  moved m m' next old new → Forall (λ a, slab_ok lo total0 (ks a) a ∧ sb_in_use a = true) old →
  next mod 8 = 0 → next + used_sum old ≤ total →
  chain next total k (imap (λ i sl, reindex (k + i) sl) new)
  ∧ end_of next (imap (λ i sl, reindex (k + i) sl) new) = next + used_sum old.
Proof.
  induction old as [|a old IH]; intros m m' next [|b new] k lo total total0 ks Hmv Hf Hn Ht; try done.
  { unfold end_of, used_sum in *. simpl in *. lia. }
  destruct Hmv as (-> & _ & Hmv). apply Forall_cons in Hf as [[Ha Hin] Hf].
  rewrite used_sum_cons in *. unfold used_by in *. rewrite Hin in *. unfold slab_ok, slab_end in Ha.
  assert (0 ≤ used_sum old) as Hpos.
  { clear -Hf. induction Hf as [|x l [Hx _] _ IHl]; [done|]. rewrite used_sum_cons. unfold used_by, slab_ok in *.
    destruct (sb_in_use x); lia. }
  destruct (IH m m' (next + sb_size a) new (S k) lo total total0 ks) as [IH1 IH2]; [done|done| |lia|].
  { rewrite Z.add_mod, Hn by done. replace (sb_size a mod 8) with 0 by lia. done. }
  rewrite imap_cons, end_of_cons.
  assert (imap ((λ i sl, reindex (k + i) sl) ∘ S) new = imap (λ i sl, reindex (S k + i) sl) new) as Himap.
  { apply imap_ext. intros i x _. simpl. by rewrite Nat.add_succ_r. }
  rewrite Himap. split; [|change (end_of (next + sb_size a) (imap (λ i sl, reindex (S k + i) sl) new)
                            = next + (sb_size a + used_sum old)); rewrite IH2; lia].
  split; [|exact IH1]. unfold slab_ok, slab_end. simpl. rewrite Nat.add_0_r. split_and!; try done; lia.
Qed.

Lemma sum_used l : ∀ u,
  Forall (λ sl, sb_in_use sl = true ∧ 0 ≤ sb_size sl) l → 0 ≤ u → u + used_sum l ≤ u64_max →
  foldl (λ n sl, u64_wrap (n + sb_size sl)) u l = u + used_sum l.
Proof.
  induction l as [|a l IH]; intros u Hf Hu Hs; [unfold used_sum; simpl; lia|].
  apply Forall_cons in Hf as [[Hin Ha] Hf]. rewrite used_sum_cons in *. unfold used_by in *. rewrite Hin in *.
  assert (0 ≤ used_sum l) as Hpos.
  { clear -Hf. induction Hf as [|x l [Hx Hz] _ IHl]; [done|]. rewrite used_sum_cons. unfold used_by.
    rewrite Hx. lia. }
  cbn [foldl]. rewrite u64_wrap_small by lia. rewrite IH by (done || lia). lia.
Qed.

Lemma index_from_lookup l : ∀ k acc d i,
  NoDup (sb_digest <$> l) →
  index_from k l acc !! d = Some i
  ↔ (∃ j sl, l !! j = Some sl ∧ sb_digest sl = d ∧ i = (k + j)%nat)
    ∨ ((d ∉ (sb_digest <$> l)) ∧ acc !! d = Some i).
Proof.
  induction l as [|a l IH]; intros k acc d i Hnd; simpl.
  - split; [intros; right; split; [apply not_elem_of_nil|done]|].
    intros [(j & sl & Hj & _)|[_ H]]; [done|done].
  - apply NoDup_cons in Hnd as [Ha Hnd]. rewrite IH by done. rewrite lookup_insert_Some, not_elem_of_cons.
    split.
    + intros [(j & sl & Hj & Hd & ->)|[Hd [[<- <-]|[Hne Hacc]]]].
      * left. exists (S j), sl. split_and!; [done..|lia].
      * left. exists 0%nat, a. split_and!; [done..|lia].
      * right. split_and!; [congruence|done|done].
    + intros [([|j] & sl & Hj & Hd & ->)|[[Hda Hd] Hacc]]; simplify_eq/=.
      * right. split; [done|]. left. split; [done|lia].
      * left. exists j, sl. split_and!; [done..|lia].
      * right. split; [done|]. right. split; [congruence|done].
Qed.

Lemma NoDup_live l :
  (∀ i j a b, l !! i = Some a → l !! j = Some b → sb_in_use a = true → sb_in_use b = true →
     sb_digest a = sb_digest b → i = j) →
  NoDup (sb_digest <$> live l).
Proof.
  induction l as [|a l IH]; intros Hu; [constructor|]. rewrite filter_cons.
  assert (NoDup (sb_digest <$> live l)) as Hl.
  { apply IH. intros i j x y Hx Hy H1 H2 H3.
    by apply (inj S), (Hu (S i) (S j) x y). }
  destruct (decide _) as [E|]; [|done]. cbn. constructor; [|done].
  intros (b & Hb & Hin)%list_elem_of_fmap. apply list_elem_of_filter in Hin as [Hbu Hin].
  apply list_elem_of_lookup in Hin as [j Hj]. by specialize (Hu 0%nat (S j) a b eq_refl Hj E Hbu Hb).
Qed.

Lemma moved_digests old : ∀ m m' next new,
  moved m m' next old new → sb_digest <$> new = sb_digest <$> old.
Proof.
  induction old as [|a old IH]; intros m m' next [|b new] Hmv; try done.
  destruct Hmv as (-> & _ & Hmv). cbn. f_equal. by eapply IH.
Qed.

(** What is known of the slabs in use. *)
Lemma live_facts s c m :
  store_ok s c m →
  Forall (λ a, slab_ok DATA_REGION_OFFSET (total_size s) (sb_index a) a ∧ sb_in_use a = true)
    (live (allocations s))
  ∧ NoDup (sb_digest <$> live (allocations s))
  ∧ ∀ a, a ∈ live (allocations s) → digest_index s !! sb_digest a = Some (sb_index a)
         ∧ allocations s !! sb_index a = Some a.
Proof.
  intros Hs. pose proof (so_index _ _ _ Hs) as Hidx.
  assert (∀ a, a ∈ live (allocations s) → sb_in_use a = true ∧ allocations s !! sb_index a = Some a) as Hel.
  { intros a [Hin [i Hi]%list_elem_of_lookup]%list_elem_of_filter. split; [done|].
    by destruct (so_slab _ _ _ _ _ Hs Hi) as [-> _]. }
  split_and!.
  - apply Forall_forall. intros a Ha. destruct (Hel a Ha) as [Hin Hi]. split; [by eapply so_slab|done].
  - apply NoDup_live. intros i j a b Ha Hb Hau Hbu Hd.
    assert (digest_index s !! sb_digest a = Some i) as E1 by (apply Hidx; eauto).
    assert (digest_index s !! sb_digest a = Some j) as E2 by (apply Hidx; eauto). congruence.
  - intros a Ha. destruct (Hel a Ha) as [Hin Hi]. split; [|done]. apply Hidx. eauto.
Qed.

Lemma used_sum_reindex l : ∀ k, used_sum (imap (λ i sl, reindex (k + i) sl) l) = used_sum l.
Proof.
  induction l as [|a l IH]; intros k; [done|]. rewrite imap_cons, !used_sum_cons. f_equal.
  rewrite <-(IH (S k)). f_equal. apply imap_ext. intros i x _. simpl. by rewrite Nat.add_succ_r.
Qed.

(** The rebuilt index finds the renumbered slabs. *)
Lemma reindexed_index l d i :
  NoDup (sb_digest <$> l) → Forall (λ sl, sb_in_use sl = true) l →
  index_from 0 l ∅ !! d = Some i
  ↔ ∃ sl, imap reindex l !! i = Some sl ∧ sb_in_use sl = true ∧ sb_digest sl = d.
Proof.
  intros Hnd Hu. rewrite index_from_lookup by done. split.
  - intros [(j & sl & Hj & Hd & ->)|[_ H]]; [|by rewrite lookup_empty in H].
    exists (reindex j sl). rewrite list_lookup_imap. cbn [plus]. rewrite Hj. split_and!; [done| |done].
    exact (Forall_lookup_1 _ _ _ _ Hu Hj).
  - intros (sl & Hi & _ & Hd). rewrite list_lookup_imap in Hi.
    destruct (l !! i) as [x|] eqn:E; simplify_eq/=. left. by exists i, x.
Qed.

(** The live slabs of a store before and after being moved. *)
Definition moved_store (s : t) (m m' : Mmap) (new : list SlabEntry) : Prop :=
  ∀ j, option_Forall2 (λ a b, ∃ n, b = placed n a
      ∧ peek_bytes m' n (Z.to_nat (sb_body_len a)) = peek_bytes m (sb_offset a) (Z.to_nat (sb_body_len a)))
    (live (allocations s) !! j) (new !! j).

Lemma moved_bodies s c m m' new d :
  store_ok s c m → moved_store s m m' new → NoDup (sb_digest <$> new) →
  Forall (λ sl, sb_in_use sl = true) new →
  body_held m' (imap reindex new) (index_from 0 new ∅ !! d) (c !! d).
Proof.
  intros Hs Hmv Hnd Hu. destruct (live_facts s c m Hs) as (_ & _ & Hat).
  destruct (index_from 0 new ∅ !! d) as [i|] eqn:E.
  - apply (reindexed_index new d i Hnd Hu) in E as (sl & Hi & _ & <-). rewrite list_lookup_imap in Hi.
    destruct (new !! i) as [x|] eqn:Hx; simplify_eq/=. specialize (Hmv i). rewrite Hx in Hmv.
    inversion Hmv as [a ? [n [-> Hp]] Ha|]; subst. symmetry in Ha.
    destruct (Hat a) as [Hda Haa]; [by eapply list_elem_of_lookup_2|]. cbn.
    destruct (stored_slab _ _ _ _ _ Hs Hda) as (a' & b & Ha' & Hc & [Hl Hpb] & _). simplify_eq.
    eexists _, b. split_and!; [by rewrite list_lookup_imap, Hx|done|].
    rewrite Hl, Nat2Z.id in Hp. split; simpl; [done|]. by rewrite Hp.
  - destruct (digest_index s !! d) as [k|] eqn:Hd.
    + apply (so_index _ _ _ Hs) in Hd as (a & Hk & Hin & <-).
      assert (a ∈ live (allocations s)) as [j Hj]%list_elem_of_lookup
        by (apply list_elem_of_filter; split; [done|by eapply list_elem_of_lookup_2]).
      specialize (Hmv j). rewrite Hj in Hmv. destruct (new !! j) as [x|] eqn:Hb; inversion Hmv as [? ? [n [Hx _]]|]; subst.
      enough (index_from 0 new ∅ !! sb_digest a = Some j) by congruence.
      apply reindexed_index; [done..|]. exists (reindex j (placed n a)). by rewrite list_lookup_imap, Hb.
    + pose proof (so_body _ _ _ Hs d) as Hb. by rewrite Hd in Hb.
Qed.

(** The result of compaction: the live slabs, renumbered, side by side from the
    start of the data region. *)
Lemma compact_ok s c m :
  store_ok s c m →
  ∃ s' m', compact s = Some s' ∧ store_ok s' c m'
    ∧ end_of DATA_REGION_OFFSET (allocations s') = DATA_REGION_OFFSET + used_space s'.
Proof.
  intros Hs. pose proof Hs as [(H1 & H2 & H3) Hsz Hch Hcount Hidx Hu Hb].
  unfold compact. rewrite (so_mmap_eq _ _ _ Hs).
  rewrite sort_by_key_sorted by exact (in_use_sorted (allocations s) [] _ _ Hch).
  destruct (move_slabs_ok (allocations s) [] m DATA_REGION_OFFSET (total_size s) DATA_REGION_OFFSET)
    as (allocs' & m' & E & Hlen & _ & Hmv); [done|done|lia|done|done|].
  cbn [length app] in E. rewrite E. cbn [mbind option_bind]. set (new := live allocs') in *.
  assert (moved_store s m m' new) as Hlook by (intros j; exact (moved_lookup _ _ _ _ _ j Hmv)).
  assert (Forall (λ sl, sb_in_use sl = true) new) as Hnew
    by (apply Forall_forall; intros x Hx; by apply list_elem_of_filter in Hx as [? _]).
  destruct (live_facts s c m Hs) as (Hlive & Hnd & Hat). rewrite <-(moved_digests _ _ _ _ _ Hmv) in Hnd.
  pose proof (used_sum_bound _ _ _ _ Hch) as Hub. pose proof (chain_end _ _ _ _ Hch).
  pose proof data_region_pos as HD. pose proof (moved_used _ _ _ _ _ Hmv) as Hun. rewrite used_sum_live in Hun.
  destruct (moved_chain _ _ _ _ _ 0 _ (total_size s) _ _ Hmv Hlive) as [Hch' Hend];
    [done|rewrite used_sum_live; lia|]. rewrite used_sum_live in Hend.
  assert (foldl (λ n sl, u64_wrap (n + sb_size sl)) 0 new = used_sum (allocations s)) as Hsum.
  { rewrite sum_used, Hun; [lia| |lia|rewrite Hun; unfold u64_max; lia].
    apply Forall_lookup. intros j b Hj. specialize (Hlook j). rewrite Hj in Hlook.
    inversion Hlook as [a ? [n [-> _]] Ha|]; subst. symmetry in Ha.
    eapply Forall_lookup_1 in Hlive as [Hok Hin]; [|exact Ha]. unfold slab_ok in Hok. simpl. split; [done|lia]. }
  eexists _, m'. split; [done|]. split; [|simpl; rewrite Hsum; exact Hend].
  split; cbn -[used_sum]; [done|done|exact Hch'| | | |].
  - rewrite length_imap, <-(length_fmap sb_digest), (moved_digests _ _ _ _ _ Hmv), length_fmap.
    pose proof (length_filter (λ sl, sb_in_use sl = true) (allocations s)). lia.
  - intros d i. by apply reindexed_index.
  - rewrite Hsum. rewrite <-Hun. symmetry. exact (used_sum_reindex new 0).
  - intros d. by apply (moved_bodies s c m).
Qed.
