(* ===== verification/PersistentRestart.v ===== *)
(** * The persistent stevedore over its lifetime

    Traces of operations of [Persistent], with and without compaction; closing the
    store and opening its file again; the two steps of a concurrent allocation. *)

From S2P Require Import Prelude RustStr Enums Types ObjCore Stevedore Mmap Persistent.
Import PersistentStevedore.
Local Open Scope Z_scope.

Inductive slab_op : Set :=
| PAlloc (d : Digest) (size_hint : Z)
| PExtend (d : Digest) (data : bytes)
| PFree (d : Digest)
| PSetAttr (d : Digest) (attr : ObjAttr) (data : bytes)
| PCompact.

Definition slab_step (o : slab_op) (s : t) : option (result unit StorageError * t) :=
  match o with
  | PAlloc d n => alloc_obj d n s
  | PExtend d data => extend d data s
  | PFree d => s ← free_obj d s; Some (Ok tt, s)
  | PSetAttr d a data => Some (set_attr d a data s)
  | PCompact => s ← compact s; Some (Ok tt, s)
  end.

(** The contract: what was written to each digest. *)
Definition slab_spec (o : slab_op) (r : result unit StorageError) (c : gmap Digest bytes)
    : gmap Digest bytes :=
  match r, o with
  | Ok _, PAlloc d _ => <[d := []]> c
  | Ok _, PExtend d data => match c !! d with Some b => <[d := b ++ data]> c | None => c end
  | Ok _, PFree d => delete d c
  | _, _ => c
  end.

Fixpoint slab_run (ops : list slab_op) (s : t) (c : gmap Digest bytes) : option (t * gmap Digest bytes) :=
  match ops with
  | [] => Some (s, c)
  | o :: ops => '(r, s) ← slab_step o s; slab_run ops s (slab_spec o r c)
  end.

(** A digest is allocated when it is not stored, with sizes far from overflow. *)
Definition permitted (o : slab_op) (c : gmap Digest bytes) : Prop :=
  match o with
  | PAlloc d n => 0 ≤ n < 2 ^ 62 ∧ c !! d = None
  | PExtend _ data => Z.of_nat (length data) < 2 ^ 62
  | _ => True
  end.

Fixpoint all_permitted (P : slab_op → Prop) (ops : list slab_op) (s : t) (c : gmap Digest bytes) : Prop :=
  match ops with
  | [] => True
  | o :: ops => P o ∧ permitted o c
     ∧ match slab_step o s with
       | Some (r, s') => all_permitted P ops s' (slab_spec o r c)
       | None => True
       end
  end.

(** A store on a new file. *)
Definition created (nm pt : bytes) (size : Z) : option t :=
  s ← new nm pt size None; snd <$> open (Ok tt) s.

Lemma step_ok o s c m :
  store_ok s c m → permitted o c →
  ∃ r s' m', slab_step o s = Some (r, s') ∧ store_ok s' (slab_spec o r c) m'.
Proof.
  intros Hs Hp. destruct o as [d n|d data|d|d a data|]; cbn [slab_step].
  - destruct Hp as [Hn Hd]. destruct (alloc_ok d n s c m Hs Hn Hd) as (r & s' & m' & E & Hr).
    exists r, s', m'. split; [done|]. destruct r; [apply Hr|]. by destruct Hr as [-> ->].
  - destruct (extend_ok d data s c m Hs Hp) as (r & s' & m' & E & Hr).
    exists r, s', m'. split; [done|]. destruct r; [|by destruct Hr as [-> ->]].
    destruct Hr as (b & _ & _ & _ & Hc & Hs' & _). simpl. by rewrite Hc.
  - destruct (free_ok d s c m Hs) as (s' & m' & -> & Hs' & _). by eexists _, s', m'.
  - destruct (set_attr_ok d a data s c m Hs) as (r & s' & -> & Hs' & _). exists r, s', m.
    split; [done|]. by destruct r.
  - destruct (compact_ok s c m Hs) as (s' & m' & -> & Hs' & _). by eexists _, s', m'.
Qed.

Lemma run_ok P ops : ∀ s c m,
  store_ok s c m → all_permitted P ops s c →
  ∃ s' c' m', slab_run ops s c = Some (s', c') ∧ store_ok s' c' m'.
Proof.
  induction ops as [|o ops IH]; intros s c m Hs Hp; [by eexists _, _, m|].
  destruct Hp as (_ & Ho & Hp). destruct (step_ok o s c m Hs Ho) as (r & s' & m' & E & Hs').
  rewrite E in Hp. simpl. rewrite E. simpl. by eapply IH.
Qed.

(* ------------------------------------------------------------------ *)
(** ** The slab table follows the slabs *)

(** What the table keeps of a slab: not its body's length, nor its attributes. *)
Definition saved (sl : SlabEntry) : SlabEntry :=
  mkSlab (sb_index sl) (sb_offset sl) (sb_size sl) (sb_in_use sl) (sb_digest sl) 0 ∅.

Record disk_ok (allocs : list SlabEntry) (m : Mmap) : Prop := {
  dk_header : peek_bytes m 0 8 = MAGIC ∧ peek_bytes m 8 4 = to_le_bytes 4 VERSION;
  dk_entries : ∀ i sl, allocs !! i = Some sl →
     peek_bytes m (entry_offset i) 57 = entry_bytes (saved sl) ∧ sb_digest sl ≠ Digest_ZERO;
  dk_rest : ∀ j, entry_offset (length allocs) ≤ j < DATA_REGION_OFFSET → byte_at m j = x00;
}.

Lemma disk_write allocs allocs1 idx sl m m' :
  disk_ok allocs m → (allocs1 = allocs ∨ ∃ x, allocs1 = allocs ++ [x] ∧ idx = length allocs) →
  (idx < length allocs1)%nat → sb_index sl = idx → saved sl = sl → sb_digest sl ≠ Digest_ZERO →
  wrote_entry m m' sl → disk_ok (<[idx := sl]> allocs1) m'.
Proof.
  intros [[Hm Hv] He Hr] Hcase Hlt Hidx Hsaved Hd [Hw Hwe]. rewrite Hidx in *.
  assert (∀ i, i ≠ idx → ∀ k, entry_offset i ≤ k < entry_offset i + 57 → byte_at m' k = byte_at m k) as Hother.
  { intros i Hi k Hk. apply Hw. unfold entry_offset, FILE_HEADER_SIZE, SLAB_ENTRY_SIZE in *. lia. }
  split.
  - split; [rewrite <-Hm|rewrite <-Hv]; apply peek_bytes_ext; intros j Hj; apply Hw;
      unfold entry_offset, FILE_HEADER_SIZE, SLAB_ENTRY_SIZE; lia.
  - intros i x Hx. apply list_lookup_insert_Some in Hx as [(-> & <- & _)|[Hne Hx]].
    + by rewrite Hwe, Hsaved.
    + assert (allocs !! i = Some x) as Hx'.
      { destruct Hcase as [->|(y & -> & Hl)]; [done|]. apply lookup_app_Some in Hx as [Hx|[Hge Hx]]; [done|].
        apply list_lookup_singleton_Some in Hx as [Hx _]. lia. }
      destruct (He i x Hx') as [<- Hz]. split; [|done]. apply peek_bytes_ext. intros j Hj. apply (Hother i); [done|lia].
  - intros j Hj. rewrite length_insert in Hj. rewrite Hw.
    + apply Hr. destruct Hcase as [->|(y & -> & Hl)]; [done|]. rewrite length_app in Hj.
      unfold entry_offset, FILE_HEADER_SIZE, SLAB_ENTRY_SIZE in *. simpl in Hj. lia.
    + right. unfold entry_offset, FILE_HEADER_SIZE, SLAB_ENTRY_SIZE in *. lia.
Qed.

(** Only the bytes below the data region matter. *)
Lemma disk_ext allocs m m' :
  disk_ok allocs m → Z.of_nat (length allocs) ≤ MAX_SLABS →
  (∀ k, k < DATA_REGION_OFFSET → byte_at m' k = byte_at m k) → disk_ok allocs m'.
Proof.
  intros [[Hm Hv] He Hr] Hmax Hk. split.
  - split; [rewrite <-Hm|rewrite <-Hv]; apply peek_bytes_ext; intros j Hj; apply Hk;
      unfold DATA_REGION_OFFSET, FILE_HEADER_SIZE, SLAB_ENTRY_SIZE, MAX_SLABS; lia.
  - intros i x Hx. destruct (He i x Hx) as [<- Hz]. split; [|done]. apply peek_bytes_ext. intros j Hj.
    apply Hk. apply lookup_lt_Some in Hx. destruct (entry_in_table i) as [_ ?]; lia.
  - intros j Hj. rewrite Hk by lia. by apply Hr.
Qed.

Lemma disk_touch allocs idx sl len attrs m m' :
  disk_ok allocs m → allocs !! idx = Some sl →
  (∀ k, k < DATA_REGION_OFFSET → byte_at m' k = byte_at m k) →
  Z.of_nat (length allocs) ≤ MAX_SLABS →
  disk_ok (<[idx := touched sl len attrs]> allocs) m'.
Proof.
  intros Hd Hi Hk Hmax. destruct (disk_ext allocs m m' Hd Hmax Hk) as [Hh He Hr].
  split; [done| |by rewrite length_insert].
  intros i x Hx. apply list_lookup_insert_Some in Hx as [(-> & <- & Hl)|[Hne Hx]]; [|by apply He].
  exact (He _ _ Hi).
Qed.

(** The operations whose effect a restart can find. *)
Definition on_table (o : slab_op) : Prop :=
  match o with PAlloc d _ => d ≠ Digest_ZERO | PCompact => False | _ => True end.

Lemma step_disk o s c m :
  store_ok s c m → disk_ok (allocations s) m → permitted o c → on_table o →
  ∃ r s' m', slab_step o s = Some (r, s') ∧ store_ok s' (slab_spec o r c) m' ∧ disk_ok (allocations s') m'.
Proof.
  intros Hs Hd Hp Ho. pose proof (so_count _ _ _ Hs) as Hmax.
  destruct o as [d n|d data|d|d a data|]; cbn [slab_step]; [| | | |done].
  - destruct Hp as [Hn Hc]. destruct (alloc_ok d n s c m Hs Hn Hc) as (r & s' & m' & E & Hr).
    exists r, s', m'. split; [done|]. destruct r; [|by destruct Hr as [-> ->]].
    destruct Hr as (Hs' & idx & s1 & sl & Hpick & Hi & Hidx & -> & Hw). split; [done|].
    eapply disk_write; [exact Hd| |by eapply lookup_lt_Some|done|done|done|exact Hw].
    destruct Hpick as (x & _ & _ & _ & [->|[-> Hl]]); [by left|]. right. by exists x.
  - destruct (extend_ok d data s c m Hs Hp) as (r & s' & m' & E & Hr).
    exists r, s', m'. split; [done|]. destruct r; [|by destruct Hr as [-> ->]].
    destruct Hr as (b & idx & sl & len & Hc & Hs' & Hi & -> & Hk). simpl. rewrite Hc.
    split; [done|]. by eapply disk_touch.
  - destruct (free_ok d s c m Hs) as (s' & m' & -> & Hs' & Hcase). eexists _, s', m'. split_and!; [done..|].
    destruct Hcase as [[-> ->]|(idx & sl & Hi & Hidx & -> & Hw)]; [done|].
    eapply disk_write; [exact Hd|by left|by eapply lookup_lt_Some|done|done| |exact Hw].
    by apply (dk_entries _ _ Hd idx sl Hi).
  - destruct (set_attr_ok d a data s c m Hs) as (r & s' & -> & Hs' & Hcase). exists r, s', m.
    split; [done|]. split; [by destruct r|]. destruct Hcase as [->|(idx & sl & at' & Hi & ->)]; [done|].
    by eapply disk_touch.
Qed.

Lemma run_disk ops : ∀ s c m,
  store_ok s c m → disk_ok (allocations s) m → all_permitted on_table ops s c →
  ∃ s' c' m', slab_run ops s c = Some (s', c') ∧ store_ok s' c' m' ∧ disk_ok (allocations s') m'.
Proof.
  induction ops as [|o ops IH]; intros s c m Hs Hd Hp; [by eexists _, _, m|].
  destruct Hp as (Ht & Ho & Hp). destruct (step_disk o s c m Hs Hd Ho Ht) as (r & s' & m' & E & Hs' & Hd').
  rewrite E in Hp. simpl. rewrite E. simpl. by eapply IH.
Qed.

Lemma header_in_file : 128 < DATA_REGION_OFFSET.
Proof. done. Qed.

Lemma created_ok nm pt size :
  DATA_REGION_OFFSET < size < 2 ^ 62 →
  ∃ s m, created nm pt size = Some s ∧ store_ok s ∅ m ∧ disk_ok (allocations s) m.
Proof.
  intros Hsz. unfold created, new. rewrite (proj2 (Z.ltb_lt _ _)) by lia. cbn [mbind option_bind].
  pose proof header_in_file. unfold open. cbn [file]. rewrite bool_decide_false by (by intros []).
  unfold recover, remapped. cbn [mbind option_bind default from_option total_size].
  unfold write_header, mmap.
  cbn [mapped file name path total_size used_size allocations digest_index is_open].
  do 3 (rewrite mmap_write_Some by (simpl; lia); cbn [mbind option_bind fmap option_fmap option_map snd]).
  eexists _, _. split; [done|]. split.
  - split; cbn -[put]; [done|lia|lia|unfold MAX_SLABS; lia| |done|].
    + intros d i. rewrite lookup_empty. split; [done|]. by intros (sl & Hsl & _).
    + intros d. by rewrite !lookup_empty.
  - split; [|done|].
    + split; cbn [mm_len mm_cells];
        repeat first [ apply peek_put_same; reflexivity | rewrite (peek_put_other _ 0) by (simpl; lia) ].
    + intros j [Hj _]. change (128 ≤ j) in Hj. unfold byte_at. cbn [mm_cells].
      rewrite !put_other by (rewrite ?length_to_le_bytes; cbn; lia).
      unfold set_len. simpl. by rewrite map_filter_empty, lookup_empty.
Qed.

(* ------------------------------------------------------------------ *)
(** ** Opening the file again *)

Lemma from_to_le_u64 z : 0 ≤ z ≤ u64_max → from_le_bytes (to_le_bytes 8 z) = z.
Proof. intros. rewrite from_to_le_bytes. apply Z.mod_small. unfold u64_max in *. simpl. lia. Qed.

Lemma all_zero_digest d : forallb (λ b, bool_decide (b = x00)) (bytes_of d) = true → d = Digest_ZERO.
Proof.
  intros H. assert (bytes_of d = bytes_of Digest_ZERO) as E.
  { apply list_eq. intros i. destruct (decide (i < 32)%nat) as [Hi|Hi].
    - destruct (lookup_lt_is_Some_2 (bytes_of d) i) as [b Hb]; [by rewrite length_bytes_of|].
      rewrite Hb. rewrite List.forallb_forall in H. specialize (H b).
      rewrite <-list_elem_of_In, bool_decide_eq_true in H. rewrite H by (by eapply list_elem_of_lookup_2). unfold bytes_of, Digest_ZERO. cbn [digest_bytes].
      rewrite vec_to_list_replicate. symmetry. by apply lookup_replicate_2.
    - rewrite !lookup_ge_None_2; [done|rewrite length_bytes_of; lia..]. }
  pose proof (Digest_from_slice_bytes_of d) as H1. rewrite E, Digest_from_slice_bytes_of in H1. congruence.
Qed.

Lemma read_saved i sl pad :
  sb_index sl = i → 0 ≤ sb_offset sl ≤ u64_max → 0 ≤ sb_size sl ≤ u64_max → sb_digest sl ≠ Digest_ZERO →
  read_entry i (entry_bytes (saved sl) ++ pad) = Some (saved sl).
Proof.
  intros <- Ho Hsz Hd. unfold entry_bytes, saved. cbn [sb_digest sb_offset sb_size sb_in_use sb_body_len].
  set (D := bytes_of _). set (O := to_le_bytes 8 (sb_offset sl)). set (S := to_le_bytes 8 (sb_size sl)).
  assert (length D = 32%nat) as HD by apply length_bytes_of.
  assert (length O = 8%nat) as HO by apply length_to_le_bytes.
  assert (length S = 8%nat) as HS by apply length_to_le_bytes.
  set (F := in_use_flag _). set (B := to_le_bytes 8 0).
  assert (length B = 8%nat) as HB by apply length_to_le_bytes.
  rewrite <-!app_assoc. set (e := D ++ _).
  assert (take 32 e = D) as E1 by (unfold e; by rewrite take_app_length').
  assert (take 8 (drop 32 e) = O) as E2 by (unfold e; rewrite drop_app_length' by done; by rewrite take_app_length').
  assert (take 8 (drop 40 e) = S) as E3.
  { unfold e. rewrite app_assoc, drop_app_length' by (by rewrite length_app, HD, HO). by rewrite take_app_length'. }
  assert (e !! 48%nat = Some F) as E4.
  { unfold e. rewrite !app_assoc. rewrite <-!app_assoc. rewrite lookup_app_r, HD by (rewrite HD; lia).
    rewrite lookup_app_r, HO by (rewrite HO; simpl; lia). rewrite lookup_app_r, HS by (rewrite HS; simpl; lia). done. }
  assert (take 8 (drop 49 e) = B) as E5.
  { unfold e. rewrite !app_assoc. rewrite <-(app_assoc (((D ++ O) ++ S) ++ [F])).
    rewrite drop_app_length' by (rewrite !length_app, HD, HO, HS; done). by rewrite take_app_length'. }
  unfold read_entry, in_use_byte, u64_field, digest_of. rewrite E1, E2, E3, E4, E5.
  assert (Digest_from_slice D = Some (sb_digest sl)) as -> by apply Digest_from_slice_bytes_of.
  cbn [default]. unfold O, S, B. rewrite !from_to_le_u64 by (unfold u64_max in *; lia).
  unfold F. destruct (sb_in_use sl) eqn:Ein; cbn [in_use_flag].
  - by rewrite bool_decide_false.
  - rewrite bool_decide_true by done. cbn [negb].
    destruct (forallb _ D) eqn:Ez; [|done]. by apply all_zero_digest in Ez.
Qed.

Lemma peek_zeros m n : ∀ off,
  (∀ j, off ≤ j < off + Z.of_nat n → byte_at m j = x00) → peek_bytes m off n = replicate n x00.
Proof.
  induction n as [|n IH]; intros off Hz; [done|]. simpl. rewrite Hz by lia. f_equal.
  apply IH. intros j Hj. apply Hz. lia.
Qed.

(** The index the scan builds. *)
Fixpoint live_index (k : nat) (l : list SlabEntry) (acc : gmap Digest nat) : gmap Digest nat :=
  match l with
  | [] => acc
  | sl :: l => live_index (S k) l (if sb_in_use sl then <[sb_digest sl := k]> acc else acc)
  end.

Lemma live_index_lookup l : ∀ k acc d i,
  NoDup (sb_digest <$> filter (λ sl, sb_in_use sl = true) l) →
  live_index k l acc !! d = Some i
  ↔ (∃ j sl, l !! j = Some sl ∧ sb_in_use sl = true ∧ sb_digest sl = d ∧ i = (k + j)%nat)
    ∨ ((d ∉ (sb_digest <$> filter (λ sl, sb_in_use sl = true) l)) ∧ acc !! d = Some i).
Proof.
  induction l as [|a l IH]; intros k acc d i Hnd.
  - cbn. split; [intros; right; split; [apply not_elem_of_nil|done]|].
    intros [(j & sl & Hj & _)|[_ H]]; [done|done].
  - cbn [live_index]. rewrite filter_cons in *. destruct (sb_in_use a) eqn:Ein.
    + rewrite decide_True in * by done. cbn in *. apply NoDup_cons in Hnd as [Ha Hnd].
      rewrite IH by done. rewrite lookup_insert_Some, not_elem_of_cons. split.
      * intros [(j & sl & Hj & Hu & Hd & ->)|[Hd [[<- <-]|[Hne Hacc]]]].
        -- left. exists (S j), sl. split_and!; [done..|lia].
        -- left. exists 0%nat, a. split_and!; [done..|lia].
        -- right. split_and!; [congruence|done|done].
      * intros [([|j] & sl & Hj & Hu & Hd & ->)|[[Hda Hd] Hacc]]; simplify_eq/=.
        -- right. split; [done|]. left. split; [done|lia].
        -- left. exists j, sl. split_and!; [done..|lia].
        -- right. split; [done|]. right. split; [congruence|done].
    + rewrite decide_False in * by done. rewrite IH by done. split.
      * intros [(j & sl & Hj & Hu & Hd & ->)|Hr]; [|by right]. left. exists (S j), sl. split_and!; [done..|lia].
      * intros [([|j] & sl & Hj & Hu & Hd & ->)|Hr]; [|left|by right]; simplify_eq/=; [congruence|].
        exists j, sl. split_and!; [done..|lia].
Qed.

Lemma load_loop_ok rest : ∀ pre n m total lo digs rec used,
  disk_ok (pre ++ rest) m → chain lo total (length pre) rest → 0 ≤ lo →
  mm_len m = total → DATA_REGION_OFFSET < total < 2 ^ 62 →
  Z.of_nat (length pre + n) = MAX_SLABS → Z.of_nat (length pre + length rest) ≤ MAX_SLABS →
  0 ≤ used → used + used_sum rest ≤ u64_max →
  ∃ rec', load_loop n total m (length pre) (saved <$> pre) digs rec used
    = Some (saved <$> (pre ++ rest), live_index (length pre) rest digs, rec', used + used_sum rest).
Proof.
  induction rest as [|a rest IH]; intros pre n m total lo digs rec used Hd Hc Hlo Hm Ht Hn Hlen Hu Hus.
  - rewrite app_nil_r in *. replace (used + used_sum []) with used by (unfold used_sum; simpl; lia).
    exists rec. destruct n as [|n]; [done|]. cbn [load_loop].
    destruct (entry_in_table (length pre)) as [He1 He2]; [lia|]. unfold SLAB_ENTRY_SIZE.
    rewrite (proj2 (Z.ltb_ge _ _)) by lia. rewrite mmap_read_Some by lia. cbn [mbind option_bind].
    rewrite peek_zeros; [done|]. intros j Hj. apply (dk_rest _ _ Hd). lia.
  - cbn [length] in Hlen. destruct n as [|n]; [lia|]. cbn [load_loop]. pose proof Hc as [Ha Hc'].
    destruct (entry_in_table (length pre)) as [He1 He2]; [lia|]. unfold SLAB_ENTRY_SIZE.
    rewrite (proj2 (Z.ltb_ge _ _)) by lia. rewrite mmap_read_Some by lia. cbn [mbind option_bind].
    destruct (dk_entries _ _ Hd (length pre) a) as [Hent Hz]; [by apply list_lookup_middle|].
    change 64%nat with (57 + 7)%nat. rewrite peek_bytes_app, Hent.
    pose proof Ha as (Hidx & Ho & He & _ & H64 & _ & _). unfold slab_end in *.
    rewrite read_saved by (done || unfold u64_max; lia). cbn [saved sb_in_use sb_digest sb_size].
    pose proof (used_sum_bound _ _ _ _ Hc') as [Hpos _]. rewrite used_sum_cons in *.
    assert (length (pre ++ [a]) = S (length pre)) as Hpre by (rewrite length_app; simpl; lia).
    specialize (IH (pre ++ [a]) n m total (sb_offset a + sb_size a)).
    rewrite Hpre, fmap_app, <-app_assoc in IH. cbn [app] in IH.
    unfold used_by in *. destruct (sb_in_use a) eqn:Ein.
    + rewrite u64_wrap_small by lia. cbn [live_index]. rewrite Ein, Z.add_assoc.
      apply IH; [done|exact Hc'|lia|done|done|lia|lia|lia|lia].
    + cbn [live_index]. rewrite Ein, Z.add_0_l. apply IH; [done|exact Hc'|lia|done|done|lia|lia|lia|lia].
Qed.

Lemma chain_saved l : ∀ lo total k, chain lo total k l → chain lo total k (saved <$> l).
Proof.
  induction l as [|a l IH]; intros lo total k Hc; [done|]. destruct Hc as [Ha Hc]. cbn. split; [|by apply IH].
  unfold slab_ok, slab_end in *. simpl. intuition lia.
Qed.

Lemma used_sum_saved l : used_sum (saved <$> l) = used_sum l.
Proof. induction l as [|a l IH]; [done|]. cbn. rewrite !used_sum_cons, IH. done. Qed.

Lemma live_index_eq s c m : store_ok s c m → live_index 0 (allocations s) ∅ = digest_index s.
Proof.
  intros Hs. apply map_eq. intros d. destruct (live_facts s c m Hs) as (_ & Hnd & _).
  apply option_eq. intros i. rewrite live_index_lookup by done. rewrite (so_index _ _ _ Hs). split.
  - intros [(j & sl & Hj & Hu & Hd & ->)|[_ H]]; [by exists sl|by rewrite lookup_empty in H].
  - intros (sl & Hi & Hu & Hd). left. by exists i, sl.
Qed.

Lemma set_len_byte m j : j < mm_len m → byte_at (set_len (mm_len m) m) j = byte_at m j.
Proof.
  intros Hj. unfold byte_at, set_len. simpl. rewrite map_lookup_filter.
  destruct (mm_cells m !! j) as [b|]; simpl; [|done]. by rewrite option_guard_True.
Qed.

Lemma header_valid s allocs m :
  disk_ok allocs m → mmap s = Some m → DATA_REGION_OFFSET < mm_len m → validate_header s = Some true.
Proof.
  intros [[Hm Hv] _ _] Hs Hl. unfold validate_header. rewrite Hs. pose proof header_in_file.
  rewrite (proj2 (Z.ltb_ge _ _)) by (unfold FILE_HEADER_SIZE; lia).
  rewrite mmap_read_Some by lia. cbn [mbind option_bind]. rewrite mmap_read_Some by lia. cbn [mbind option_bind].
  by rewrite Hm, Hv.
Qed.

(** The scan of a table that follows [allocs]. *)
Lemma load_existing_ok s allocs m :
  mmap s = Some m → allocations s = [] → digest_index s = ∅ →
  disk_ok allocs m → chain DATA_REGION_OFFSET (total_size s) 0 allocs →
  Z.of_nat (length allocs) ≤ MAX_SLABS → mm_len m = total_size s →
  DATA_REGION_OFFSET < total_size s < 2 ^ 62 →
  ∃ rec', load_existing s
    = Some (rec', with_used (used_sum allocs) (with_digests (live_index 0 allocs ∅) (with_slabs (saved <$> allocs) s))).
Proof.
  intros Hm Ha Hi Hd Hch Hcount Hlen Hsz. unfold load_existing. rewrite Hm, Ha, Hi.
  pose proof (used_sum_bound _ _ _ _ Hch) as Hub. pose proof (chain_end _ _ _ _ Hch) as He.
  pose proof data_region_pos as HD.
  generalize (Z.to_nat MAX_SLABS), (Z2Nat.id MAX_SLABS ltac:(done)). intros N HN.
  destruct (load_loop_ok allocs [] N m (total_size s) DATA_REGION_OFFSET ∅ [] 0)
    as (rec' & E); [done|done|lia|done|done|done|done|done|unfold u64_max; lia|].
  change (saved <$> []) with (@nil SlabEntry) in E. cbn [length app] in E. rewrite E, Z.add_0_l. by exists rec'.
Qed.

Lemma open_existing s f rec s1 :
  file s = Some f → validate_header (remapped s) = Some true →
  load_existing (remapped s) = Some (rec, s1) →
  open (Ok tt) s = Some (Ok tt, mk (name s1) (path s1) (total_size s1) (used_size s1) (file s1) (mapped s1)
                                  (allocations s1) (digest_index s1) true).
Proof.
  intros Hf Hv Hl.
  assert (recover (bool_decide (is_Some (file s))) (remapped s) = Some s1) as Hr.
  { rewrite bool_decide_true by (by rewrite Hf). unfold recover. rewrite Hv. simpl. by rewrite Hl. }
  unfold open. by rewrite Hr.
Qed.

Lemma reopen_ok s c m :
  store_ok s c m → disk_ok (allocations s) m →
  ∃ s' m', open (Ok tt) (close s) = Some (Ok tt, s') ∧ store_ok s' ((λ _, []) <$> c) m'
    ∧ digest_index s' = digest_index s ∧ allocations s' = saved <$> allocations s
    ∧ used_size s' = used_size s.
Proof.
  intros Hs Hd. pose proof Hs as [(H1 & H2 & H3) Hsz Hch Hcount Hidx Hu Hb].
  set (m' := set_len (total_size s) m).
  assert (disk_ok (allocations s) m') as Hd'.
  { eapply disk_ext; [done..|]. intros k Hk. unfold m'. rewrite <-H3. apply set_len_byte. lia. }
  set (s0 := remapped (close s)).
  assert (mmap s0 = Some m') as Hm0 by (unfold m'; cbn; by rewrite H2).
  assert (validate_header s0 = Some true) as Hv by (eapply header_valid; [done..|simpl; lia]).
  destruct (load_existing_ok s0 (allocations s) m') as (rec' & E); [done..|].
  rewrite (open_existing (close s) m _ _ H2 Hv E). clear E Hv. unfold s0, close, remapped. cbn [name path total_size used_size file mapped
    allocations digest_index is_open with_used with_digests with_slabs].
  rewrite (live_index_eq s c m Hs), <-Hu, H2. fold m'. cbn [default from_option id]. fold m'. eexists _, m'. split_and!; [done| |done|done|done].
  split; cbn [name path total_size used_size file mapped allocations digest_index is_open];
    [done|done|by apply chain_saved|by rewrite length_fmap| |by rewrite used_sum_saved|].
  - intros d i. rewrite Hidx. split; intros (sl & Hi & Hin & Hdg).
    + exists (saved sl). by rewrite list_lookup_fmap, Hi.
    + rewrite list_lookup_fmap in Hi. destruct (allocations s !! i) as [x|] eqn:Ex; simplify_eq/=. by exists x.
  - intros d. rewrite lookup_fmap. specialize (Hb d). destruct (digest_index s !! d) as [i|]; [|by rewrite Hb].
    destruct Hb as (sl & b & Hi & -> & _). exists (saved sl), []. by rewrite list_lookup_fmap, Hi.
Qed.

Lemma created_inv nm pt size s :
  created nm pt size = Some s → size < 2 ^ 62 → ∃ m, store_ok s ∅ m ∧ disk_ok (allocations s) m.
Proof.
  intros H Hs. destruct (Z.ltb_spec DATA_REGION_OFFSET size) as [Hd|Hd].
  - destruct (created_ok nm pt size) as (s' & m & E & Hok & Hdisk); [lia|]. rewrite H in E.
    injection E as ->. by exists m.
  - unfold created, new in H. by rewrite (proj2 (Z.ltb_ge _ _)) in H.
Qed.

Definition read_back (ob : option bytes) : option bytes :=
  match ob with Some [] | None => None | b => b end.

(** C18. The persistent stevedore keeps every body apart and intact: on any sequence
    of allocations, extensions, frees, attribute writes and compactions of a store
    on a new file, where a digest is allocated only when it is not stored, no
    access leaves the mapping, the usage counter is the sum of the slabs in use and
    within the data region, and reading an object gives exactly the bytes written
    to it since its allocation, wherever compaction has moved them. *)
Theorem persistent_store_refines nm pt size ops s0 :
  size < 2 ^ 62 → created nm pt size = Some s0 → all_permitted (λ _, True) ops s0 ∅ →
  ∃ s c, slab_run ops s0 ∅ = Some (s, c)
    ∧ used_space s = used_sum (allocations s) ∧ 0 ≤ used_space s ≤ data_capacity s
    ∧ ∀ d, get_body d s = Some (read_back (c !! d)).
Proof.
  intros Hsz H0 Hp. destruct (created_inv _ _ _ _ H0 Hsz) as (m0 & Hok & _).
  destruct (run_ok _ ops s0 ∅ m0 Hok Hp) as (s & c & m & Hrun & Hs). exists s, c.
  pose proof (so_used _ _ _ Hs) as Hu. pose proof (so_chain _ _ _ Hs) as Hch.
  pose proof (used_sum_bound _ _ _ _ Hch). pose proof (chain_end _ _ _ _ Hch).
  split_and!; [done|done|unfold used_space; lia|unfold used_space, data_capacity, saturating_sub; lia|].
  intros d. rewrite (get_body_ok d s c m Hs). by destruct (c !! d) as [[|]|].
Qed.

(** C33. A restart recovers the slabs but not what they hold: after any such sequence
    without compaction, closing the store and opening its file again finds exactly
    the digests stored and the same usage, and every recovered object reads as
    having no body, because the body lengths never reach the table. *)
Theorem persistent_restart nm pt size ops s0 :
  size < 2 ^ 62 → created nm pt size = Some s0 → all_permitted on_table ops s0 ∅ →
  ∃ s c s', slab_run ops s0 ∅ = Some (s, c) ∧ (∀ d, get_body d s = Some (read_back (c !! d)))
    ∧ open (Ok tt) (close s) = Some (Ok tt, s')
    ∧ digest_index s' = digest_index s ∧ used_space s' = used_space s
    ∧ ∀ d, get_body d s' = Some None.
Proof.
  intros Hsz H0 Hp. destruct (created_inv _ _ _ _ H0 Hsz) as (m0 & Hok & Hd0).
  destruct (run_disk ops s0 ∅ m0 Hok Hd0 Hp) as (s & c & m & Hrun & Hs & Hd).
  destruct (reopen_ok s c m Hs Hd) as (s' & m' & Hopen & Hs' & Hi & Ha & Hu). exists s, c, s'.
  split_and!; [done| |done|done|done|].
  - intros d. rewrite (get_body_ok d s c m Hs). by destruct (c !! d) as [[|]|].
  - intros d. rewrite (get_body_ok d s' _ m' Hs'), lookup_fmap. by destruct (c !! d).
Qed.

(* ------------------------------------------------------------------ *)
(** ** What the code gets wrong *)

(** Three objects stored, the first freed, the slabs compacted, a fourth stored. *)
Definition compaction_ops (d1 d2 d3 d4 : Digest) : list slab_op :=
  [PAlloc d1 64; PAlloc d2 64; PAlloc d3 64; PExtend d3 (str "three"); PFree d1; PCompact; PAlloc d4 64].

(** Compaction renumbers the slabs without rewriting the table, so the next
    allocation overwrites the entry of a live object: here the third object is
    stored and readable, and is gone after a restart that finds the other two. *)
Theorem persistent_compaction_forgets :
  let d := λ b, test_digest b in
  (s0 ← created (str "p") (str "/p") (DATA_REGION_OFFSET + 1024);
   '(s, _) ← slab_run (compaction_ops (d x01) (d x02) (d x03) (d x04)) s0 ∅;
   '(_, s') ← open (Ok tt) (close s);
   Some (get_body (d x03) s, digest_index s' !! d x02, digest_index s' !! d x04, digest_index s' !! d x03))
  = Some (Some (Some (str "three")), Some 1%nat, Some 2%nat, None).
Proof. vm_compute. reflexivity. Qed.

Lemma pick_again n s c m i s1 :
  store_ok s c m → 0 ≤ n < 2 ^ 62 → alloc_pick n s = (Ok i, s1) →
  alloc_pick n s1 = (Ok i, s1) ∧ store_ok s1 c m
  ∧ ∃ sl, allocations s1 !! i = Some sl ∧ sb_in_use sl = false ∧ Z.max n 64 ≤ sb_size sl.
Proof.
  intros Hs Hn Hp. destruct (pick_ok n s c m Hs Hn) as (r & s1' & E & Hs1 & Hr). rewrite Hp in E. simplify_eq.
  destruct Hr as (sl & Hi & Hf & Hsz & Hcase). split_and!; [|done|by exists sl].
  destruct Hcase as [->|[-> ->]]; [done|]. unfold alloc_pick, find_free_slab in *. cbn [allocations with_slabs] in *.
  destruct (list_find _ (allocations s)) as [[j x]|] eqn:E.
  - cbn in Hp. simplify_eq. apply list_find_Some in E as (E & _).
    apply lookup_lt_Some in E. lia.
  - rewrite list_find_app_r by done. cbn. rewrite decide_True by done. done.
Qed.

(** Claiming a slab never looks at whether it is free. *)
Lemma claim_any d idx s c m sl used digs allocs m1 :
  store_ok s c m → mm_len m1 = total_size s → allocs !! idx = Some sl → Z.of_nat (sb_index sl) < MAX_SLABS →
  ∃ m2, alloc_claim d idx (mk (name s) (path s) (total_size s) used (Some m1) true allocs digs (is_open s))
    = Some (mk (name s) (path s) (total_size s) (u64_wrap (used + sb_size sl)) (Some m2) true
              (<[idx := claimed d sl]> allocs) (<[d := idx]> digs) (is_open s))
    ∧ mm_len m2 = total_size s.
Proof.
  intros Hs Hl Hi Hmax. pose proof (so_size _ _ _ Hs).
  destruct (put_entry_spec (claimed d sl) m1) as (m2 & E & Hlen & _); [done|lia|].
  exists m2. split; [|congruence]. unfold alloc_claim. cbn [allocations]. rewrite Hi. cbn [mbind option_bind].
  fold (claimed d sl). unfold write_slab_entry, mmap. cbn. rewrite E. done.
Qed.

Lemma extend_shared d1 d2 data s m i sl :
  mmap s = Some m → digest_index s !! d1 = Some i → digest_index s !! d2 = Some i →
  allocations s !! i = Some sl → sb_body_len sl = 0 → 0 ≤ sb_offset sl → slab_end sl ≤ mm_len m →
  mm_len m < 2 ^ 62 → data ≠ [] → Z.of_nat (length data) ≤ sb_size sl →
  ∃ s', extend d1 data s = Some (Ok tt, s') ∧ get_body d2 s' = Some (Some data).
Proof.
  intros Hm H1 H2 Hi Hb Ho He Hl Hd Hlen. unfold extend. rewrite H1, Hm, Hi, Hb, Z.add_0_r, Z.add_0_l.
  unfold slab_end in *. rewrite (u64_wrap_small (sb_offset sl)) by (unfold u64_max; lia).
  rewrite !u64_wrap_small by (unfold u64_max; lia).
  rewrite (proj2 (Z.ltb_ge _ _)) by lia. rewrite mmap_write_Some by lia. cbn [mbind option_bind].
  eexists. split; [done|]. unfold get_body, mmap in *.
  cbn [digest_index allocations mapped file with_slabs with_file]. rewrite H2.
  destruct (mapped s); [|done]. rewrite list_lookup_insert_eq by (by eapply lookup_lt_Some).
  cbn [sb_body_len sb_offset]. destruct data as [|x data]; [done|].
  rewrite (proj2 (Z.eqb_neq _ _)) by (cbn [length]; lia). rewrite Nat2Z.id, mmap_read_Some by (cbn [mm_len]; lia).
  cbn [fmap option_fmap option_map]. do 2 f_equal. by apply peek_put_same.
Qed.

(** Two concurrent allocations share a slab: the search for a slab and its
    claim are separate critical sections, and the claim does not look again.  When
    a second allocation chooses between the two steps of a first one, it is given
    the same slab; both then succeed, and what is written to one object is read
    back from the other. *)
Theorem persistent_alloc_race nm pt size ops s0 s c d1 d2 n i s1 data :
  size < 2 ^ 62 → created nm pt size = Some s0 → all_permitted (λ _, True) ops s0 ∅ →
  slab_run ops s0 ∅ = Some (s, c) → d1 ≠ d2 → 0 ≤ n < 2 ^ 62 →
  alloc_pick n s = (Ok i, s1) → data ≠ [] → Z.of_nat (length data) ≤ n →
  alloc_pick n s1 = (Ok i, s1)
  ∧ ∃ s2 s3 s4, alloc_claim d1 i s1 = Some s2 ∧ alloc_claim d2 i s2 = Some s3
    ∧ extend d1 data s3 = Some (Ok tt, s4) ∧ get_body d2 s4 = Some (Some data).
Proof.
  intros Hsz H0 Hp Hrun Hd Hn Hpick Hdata Hlen. destruct (created_inv _ _ _ _ H0 Hsz) as (m0 & Hok0 & _).
  destruct (run_ok _ ops s0 ∅ m0 Hok0 Hp) as (s' & c' & m & Hrun' & Hs). rewrite Hrun in Hrun'. simplify_eq.
  destruct (pick_again n s' c' m i s1 Hs Hn Hpick) as (Hagain & Hs1 & sl & Hi & Hf & Hsize). split; [done|].
  pose proof (so_slab _ _ _ _ _ Hs1 Hi) as (_ & Ho & He & _). pose proof (slab_count_bound _ _ _ _ _ Hs1 Hi) as Hmax.
  pose proof (so_mmap _ _ _ Hs1) as (H1 & H2 & H3). pose proof (so_size _ _ _ Hs1). pose proof data_region_pos.
  destruct (claim_any d1 i s1 c' m sl (used_size s1) (digest_index s1) (allocations s1) m) as (m2 & E2 & Hl2);
    [done..|].
  assert (mk (name s1) (path s1) (total_size s1) (used_size s1) (Some m) true (allocations s1)
            (digest_index s1) (is_open s1) = s1) as Hs1eq by (destruct s1; simpl in *; by subst).
  rewrite Hs1eq in E2. pose proof (lookup_lt_Some _ _ _ Hi) as Hlt.
  edestruct (claim_any d2 i s1 c' m (claimed d1 sl)) as (m3 & E3 & Hl3);
    [done|exact Hl2|by apply list_lookup_insert_eq|done|].
  match type of E3 with
  | _ = Some ?s3 =>
      destruct (extend_shared d1 d2 data s3 m3 i (claimed d2 (claimed d1 sl))) as (s4 & E4 & Hread)
  end; cbn [digest_index allocations sb_offset sb_size claimed]; unfold slab_end in *;
    cbn [sb_offset sb_size claimed] in *; try (done || lia).
  - rewrite lookup_insert_ne by done. apply lookup_insert_eq.
  - apply lookup_insert_eq.
  - apply list_lookup_insert_eq. by rewrite length_insert.
  - by eexists _, _, s4.
Qed.

Lemma persistent_store_refines_witness :
  let d := λ b, test_digest b in
  ∃ s c,
    slab_run (compaction_ops (d x01) (d x02) (d x03) (d x04))
      (default (mk [] [] 0 0 None false [] ∅ false)
         (created (str "p") (str "/p") (DATA_REGION_OFFSET + 1024))) ∅ = Some (s, c)
    ∧ used_space s = used_sum (allocations s) ∧ 0 ≤ used_space s ≤ data_capacity s
    ∧ ∀ d, get_body d s = Some (read_back (c !! d)).
Proof.
  apply (persistent_store_refines (str "p") (str "/p") (DATA_REGION_OFFSET + 1024)); [done|vm_compute; reflexivity|].
  vm_compute. repeat split; done.
Defined.

(** Two objects stored and one freed. *)
Definition restart_ops (d1 d2 : Digest) : list slab_op :=
  [PAlloc d1 64; PAlloc d2 64; PExtend d2 (str "two"); PFree d1].

Lemma persistent_restart_witness :
  let d := λ b, test_digest b in
  ∃ s c s',
    slab_run (restart_ops (d x01) (d x02))
      (default (mk [] [] 0 0 None false [] ∅ false)
         (created (str "p") (str "/p") (DATA_REGION_OFFSET + 1024))) ∅ = Some (s, c)
    ∧ (∀ d, get_body d s = Some (read_back (c !! d)))
    ∧ open (Ok tt) (close s) = Some (Ok tt, s')
    ∧ digest_index s' = digest_index s ∧ used_space s' = used_space s
    ∧ ∀ d, get_body d s' = Some None.
Proof.
  apply (persistent_restart (str "p") (str "/p") (DATA_REGION_OFFSET + 1024)); [done|vm_compute; reflexivity|].
  vm_compute. repeat split; done.
Defined.

Lemma persistent_alloc_race_witness :
  let s := default (mk [] [] 0 0 None false [] ∅ false)
             (created (str "p") (str "/p") (DATA_REGION_OFFSET + 1024)) in
  let s1 := snd (alloc_pick 100 s) in
  alloc_pick 100 s1 = (Ok 0%nat, s1)
  ∧ ∃ s2 s3 s4, alloc_claim (test_digest x01) 0 s1 = Some s2
    ∧ alloc_claim (test_digest x02) 0 s2 = Some s3
    ∧ extend (test_digest x01) (str "mine") s3 = Some (Ok tt, s4)
    ∧ get_body (test_digest x02) s4 = Some (Some (str "mine")).
Proof.
  intros s s1.
  apply (persistent_alloc_race (str "p") (str "/p") (DATA_REGION_OFFSET + 1024) [] s s ∅
           (test_digest x01) (test_digest x02) 100 0 s1); try done; vm_compute; done.
Defined.
