(* ===== verification/Backend.v ===== *)
(** * Backends, health probes and directors

    Models [rv-backend/src/traits.rs], [health.rs], [simple.rs] and [director.rs]:
    the window of probe results that decides a backend's health, the
    administrative override, and the four directors.  A director sees its
    backends through the trait ([Backend]); a resolution reads their health at one
    moment.  Counters are [AtomicU64] and [AtomicUsize] and wrap. *)

From S2P Require Import Prelude RustStr.
Local Open Scope Z_scope.

(** [std::net]: an IPv4 or IPv6 address as its number, with a port. *)
Inductive IpAddr : Set := V4 (n : Z) | V6 (n : Z).
Record SocketAddr : Set := mkSocketAddr { sa_ip : IpAddr; sa_port : Z }.

#[global] Instance IpAddr_eq_dec : EqDecision IpAddr.
Proof. solve_decision. Defined.
#[global] Instance SocketAddr_eq_dec : EqDecision SocketAddr.
Proof. solve_decision. Defined.
#[global] Instance SocketAddr_countable : Countable SocketAddr.
Proof.
  refine (inj_countable'
    (λ a, (match sa_ip a with V4 n => inl n | V6 n => inr n end : Z + Z, sa_port a))
    (λ p, mkSocketAddr (match p.1 with inl n => V4 n | inr n => V6 n end) p.2) _).
  intros [[n|n] p]; done.
Defined.

Module AdminHealth.

Inductive t : Set := Probe | Healthy | Sick | Deleted.

#[global] Instance t_eq_dec : EqDecision t.
Proof. solve_decision. Defined.

Definition name (h : t) : bytes :=
  match h with
  | Probe => str "probe"
  | Healthy => str "healthy"
  | Sick => str "sick"
  | Deleted => str "deleted"
  end.

End AdminHealth.

(* ------------------------------------------------------------------ *)
(** ** Health probes *)

Module ProbeStatus.

Inductive t : Set := Healthy | Sick | Unknown.

#[global] Instance t_eq_dec : EqDecision t.
Proof. solve_decision. Defined.

End ProbeStatus.

(** Durations are in nanoseconds. *)
Record ProbeResult : Set := mkProbeResult {
  pr_status : ProbeStatus.t;
  pr_response_time : Z;
  pr_http_status : option Z;
}.

Module HealthProbe.

Record t : Type := mk {
  url : bytes;
  interval : Z;
  timeout : Z;
  threshold : Z;
  window : Z;
  initial : Z;
  target : SocketAddr;
  is_healthy : bool;
  good_count : Z;
  total_count : Z;
  bitmap : list bool;
}.

Definition new (tg : SocketAddr) (u : bytes) (iv tmo th w : Z) : t :=
  mk u iv tmo th w 0 tg false 0 0 (replicate (Z.to_nat w) false).

Definition count_true (l : list bool) : nat := length (filter (λ b, b = true) l).

(** [None] is the panic of the remainder by a zero window or of the index. *)
Definition record_result (r : ProbeResult) (p : t) : option t :=
  let is_good := bool_decide (pr_status r = ProbeStatus.Healthy) in
  let total := u64_wrap (total_count p + 1) in
  let good := if is_good then u64_wrap (good_count p + 1) else good_count p in
  if window p =? 0 then None
  else
    let idx := Z.to_nat (u64_wrap (total - 1) mod window p) in
    if (idx <? length (bitmap p))%nat then
      let bm := <[idx := is_good]> (bitmap p) in
      let healthy_in_window := u32_wrap (Z.of_nat (count_true bm)) in
      Some (mk (url p) (interval p) (timeout p) (threshold p) (window p) (initial p) (target p)
              (threshold p <=? healthy_in_window) good total bm)
    else None.

End HealthProbe.

(* ------------------------------------------------------------------ *)
(** ** The backend trait and the simple backend *)

Class Backend (B : Type) := {
  be_name : B → bytes;
  be_addr : B → SocketAddr;
  be_is_healthy : B → bool;
  be_admin_health : B → AdminHealth.t;
}.

(** The probe is shared with the task that feeds it. *)
Record SimpleBackend : Type := mkSimpleBackend {
  sb_name : bytes;
  sb_addr : SocketAddr;
  sb_admin_health : AdminHealth.t;
  sb_probe : option nat;
}.

Definition SimpleBackend_new (name : bytes) (addr : SocketAddr) : SimpleBackend :=
  mkSimpleBackend name addr AdminHealth.Probe None.
Definition SimpleBackend_with_probe (name : bytes) (addr : SocketAddr) (probe : nat) : SimpleBackend :=
  mkSimpleBackend name addr AdminHealth.Probe (Some probe).

Definition SimpleBackend_is_healthy (probes : gmap nat HealthProbe.t) (b : SimpleBackend) : bool :=
  match sb_admin_health b with
  | AdminHealth.Healthy => true
  | AdminHealth.Sick | AdminHealth.Deleted => false
  | AdminHealth.Probe =>
      match sb_probe b with
      | Some p => match probes !! p with Some p => HealthProbe.is_healthy p | None => false end
      | None => true
      end
  end.

Definition SimpleBackend_set_admin_health (h : AdminHealth.t) (b : SimpleBackend) : SimpleBackend :=
  mkSimpleBackend (sb_name b) (sb_addr b) h (sb_probe b).

Definition simple_backend (probes : gmap nat HealthProbe.t) : Backend SimpleBackend := {|
  be_name := sb_name;
  be_addr := sb_addr;
  be_is_healthy := SimpleBackend_is_healthy probes;
  be_admin_health := sb_admin_health;
|}.

(* ------------------------------------------------------------------ *)
(** ** Directors *)

Record DirectorListEntry : Set := mkDirectorListEntry {
  dl_name : bytes;
  dl_admin_health : AdminHealth.t;
  dl_is_healthy : bool;
  dl_description : bytes;
}.

Section directors.
Context {B : Type} {backend : Backend B} (show_addr : SocketAddr → bytes).

(** [healthy] and [list] are the same in every director. *)
Definition any_healthy (bs : list B) : bool := existsb be_is_healthy bs.

Definition list_backends (bs : list B) : list DirectorListEntry :=
  (λ b, mkDirectorListEntry (be_name b) (be_admin_health b) (be_is_healthy b) (show_addr (be_addr b))) <$> bs.

(** Round robin: the backends and the next index to try. *)
Record RoundRobin : Type := mkRoundRobin { rr_name : bytes; rr_backends : list B; rr_next : Z }.

Definition RoundRobin_new (name : bytes) : RoundRobin := mkRoundRobin name [] 0.
Definition RoundRobin_add_backend (b : B) (d : RoundRobin) : RoundRobin :=
  mkRoundRobin (rr_name d) (rr_backends d ++ [b]) (rr_next d).

Fixpoint rr_loop (n : nat) (bs : list B) (next : Z) : option B * Z :=
  match n with
  | O => (None, next)
  | S n =>
      let idx := Z.to_nat (next mod Z.of_nat (length bs)) in
      let next := u64_wrap (next + 1) in
      match bs !! idx with
      | Some b => if be_is_healthy b then (Some b, next) else rr_loop n bs next
      | None => (None, next)
      end
  end.

Definition RoundRobin_resolve (d : RoundRobin) : option B * RoundRobin :=
  match rr_backends d with
  | [] => (None, d)
  | bs =>
      let '(r, next) := rr_loop (length bs) bs (rr_next d) in
      (r, mkRoundRobin (rr_name d) bs next)
  end.

(** Random: a counter over the healthy backends. *)
Record Random : Type := mkRandom { rd_name : bytes; rd_backends : list B; rd_counter : Z }.

Definition Random_new (name : bytes) : Random := mkRandom name [] 0.
Definition Random_add_backend (b : B) (d : Random) : Random :=
  mkRandom (rd_name d) (rd_backends d ++ [b]) (rd_counter d).

Definition healthy_of (bs : list B) : list B := filter (λ b, be_is_healthy b = true) bs.

Definition Random_resolve (d : Random) : option B * Random :=
  match healthy_of (rd_backends d) with
  | [] => (None, d)
  | h =>
      (h !! Z.to_nat (rd_counter d mod Z.of_nat (length h)),
       mkRandom (rd_name d) (rd_backends d) (u64_wrap (rd_counter d + 1)))
  end.

(** Hash: the key picks among the healthy backends. *)
Record HashDirector : Type := mkHashDirector { hd_name : bytes; hd_backends : list B }.
Definition HashDirector_new (name : bytes) : HashDirector := mkHashDirector name [].
Definition HashDirector_add_backend (b : B) (d : HashDirector) : HashDirector :=
  mkHashDirector (hd_name d) (hd_backends d ++ [b]).

Definition HashDirector_resolve_with_key (key : Z) (d : HashDirector) : option B :=
  match healthy_of (hd_backends d) with
  | [] => None
  | h => h !! Z.to_nat (key mod Z.of_nat (length h))
  end.

Definition HashDirector_resolve (d : HashDirector) : option B := HashDirector_resolve_with_key 0 d.

(** Fallback: the first healthy backend. *)
Record Fallback : Type := mkFallback { fb_name : bytes; fb_backends : list B }.
Definition Fallback_new (name : bytes) : Fallback := mkFallback name [].
Definition Fallback_add_backend (b : B) (d : Fallback) : Fallback :=
  mkFallback (fb_name d) (fb_backends d ++ [b]).

Definition Fallback_resolve (d : Fallback) : option B :=
  snd <$> list_find (λ b, be_is_healthy b = true) (fb_backends d).

End directors.

(* ------------------------------------------------------------------ *)
(** ** The window of probe results *)

Import HealthProbe.

Fixpoint record_all (rs : list ProbeResult) (p : HealthProbe.t) : option HealthProbe.t :=
  match rs with
  | [] => Some p
  | r :: rs => p ← record_result r p; record_all rs p
  end.

Definition good (r : ProbeResult) : bool := bool_decide (pr_status r = ProbeStatus.Healthy).

(** The last [n] elements. *)
Definition lastn {A} (n : nat) (l : list A) : list A := drop (length l - n) l.

Definition good_in (rs : list ProbeResult) : nat := count_true (good <$> rs).

Lemma count_true_app l l' : count_true (l ++ l') = (count_true l + count_true l')%nat.
Proof. unfold count_true. by rewrite filter_app, length_app. Qed.

Lemma count_true_insert l i b : ∀ b0,
  l !! i = Some b0 → (count_true (<[i := b]> l) + count_true [b0] = count_true l + count_true [b])%nat.
Proof.
  intros b0 Hi. rewrite <-(take_drop_middle l i b0 Hi) at 2.
  rewrite insert_take_drop by (by eapply lookup_lt_Some).
  change (b :: drop (S i) l) with ([b] ++ drop (S i) l).
  change (b0 :: drop (S i) l) with ([b0] ++ drop (S i) l). rewrite !count_true_app. lia.
Qed.

Lemma count_true_clear n : count_true (replicate n false) = 0%nat.
Proof.
  unfold count_true. induction n as [|n IH]; [done|].
  rewrite replicate_S, filter_cons, decide_False by done. exact IH.
Qed.

(** The bitmap after the results [rs]: one bit for each of the last [w], the
    others still clear. *)
Record window_ok (w : nat) (rs : list ProbeResult) (p : HealthProbe.t) : Prop := {
  wo_total : total_count p = Z.of_nat (length rs);
  wo_good : good_count p = Z.of_nat (good_in rs);
  wo_window : window p = Z.of_nat w;
  wo_bits : length (bitmap p) = w;
  wo_recent : ∀ j r, rs !! j = Some r → (length rs ≤ j + w)%nat →
     bitmap p !! (j mod w)%nat = Some (good r);
  wo_clear : ∀ i, (length rs ≤ i < w)%nat → bitmap p !! i = Some false;
  wo_count : count_true (bitmap p) = good_in (lastn w rs);
}.

Lemma good_in_lastn_snoc w rs r : (0 < w)%nat →
  (good_in (lastn w (rs ++ [r]))
   + match rs !! (length rs - w)%nat with
     | Some old => if decide (w ≤ length rs)%nat then count_true [good old] else 0
     | None => 0
     end = good_in (lastn w rs) + count_true [good r])%nat.
Proof.
  intros Hw. unfold lastn, good_in. rewrite length_app. simpl.
  destruct (decide (w ≤ length rs)%nat) as [Hle|Hle].
  - destruct (lookup_lt_is_Some_2 rs (length rs - w)) as [old Hold]; [lia|]. rewrite Hold.
    rewrite (drop_S _ old _ Hold). rewrite drop_app_le by lia.
    replace (length rs + 1 - w)%nat with (S (length rs - w)) by lia.
    rewrite fmap_app, count_true_app.
    change (good <$> old :: drop (S (length rs - w)) rs) with ([good old] ++ (good <$> drop (S (length rs - w)) rs)).
    rewrite count_true_app. change (good <$> [r]) with [good r]. lia.
  - replace (length rs + 1 - w)%nat with 0%nat by lia. replace (length rs - w)%nat with 0%nat by lia.
    rewrite !drop_0, fmap_app, count_true_app. destruct (rs !! 0%nat); simpl; lia.
Qed.

Lemma count_true_le l : (count_true l ≤ length l)%nat.
Proof. apply length_filter. Qed.

(** The bit about to be overwritten belongs to the result that leaves the window. *)
Lemma window_old_bit w rs p :
  (0 < w)%nat → window_ok w rs p →
  ∃ b, bitmap p !! (length rs mod w)%nat = Some b
    ∧ count_true [b] = match rs !! (length rs - w)%nat with
                       | Some old => if decide (w ≤ length rs)%nat then count_true [good old] else 0%nat
                       | None => 0%nat
                       end.
Proof.
  intros Hw [_ _ _ _ Hrec Hcl _]. destruct (decide (w ≤ length rs)%nat) as [Hle|Hle].
  - destruct (lookup_lt_is_Some_2 rs (length rs - w)) as [old Hold]; [lia|]. rewrite Hold. exists (good old).
    split; [|done]. rewrite <-(Hrec _ old Hold) by lia. f_equal.
    replace (length rs) with ((length rs - w) + 1 * w)%nat at 1 by lia. apply Nat.Div0.mod_add.
  - exists false. split; [|by destruct (rs !! _)]. rewrite Nat.mod_small by lia. apply Hcl. lia.
Qed.

Lemma mod_ne n j w : (0 < n - j < w)%nat → (n mod w ≠ j mod w)%nat.
Proof.
  intros H E. pose proof (Nat.div_mod n w ltac:(lia)). pose proof (Nat.div_mod j w ltac:(lia)).
  assert (n - j = w * (n / w - j / w))%nat as Hd by nia. destruct (n / w - j / w)%nat; nia.
Qed.

Lemma record_window w rs r p :
  (0 < w)%nat → Z.of_nat w ≤ u32_max → Z.of_nat (length rs) + 1 ≤ u64_max → window_ok w rs p →
  ∃ p', record_result r p = Some p' ∧ window_ok w (rs ++ [r]) p'
    ∧ threshold p' = threshold p
    ∧ is_healthy p' = (threshold p <=? Z.of_nat (good_in (lastn w (rs ++ [r])))).
Proof.
  intros Hw Hw32 Hn Hok. pose proof Hok as [Ht Hg Hwin Hlen Hrec Hcl Hc].
  unfold record_result. rewrite Ht, Hwin, Hlen.
  rewrite (proj2 (Z.eqb_neq _ _)) by lia.
  rewrite (u64_wrap_small (Z.of_nat (length rs) + 1)) by lia.
  rewrite (u64_wrap_small (_ - 1)) by lia. replace (Z.of_nat (length rs) + 1 - 1) with (Z.of_nat (length rs)) by lia.
  rewrite <-Nat2Z.inj_mod, Nat2Z.id. pose proof (Nat.mod_upper_bound (length rs) w ltac:(lia)) as Hidx.
  rewrite (proj2 (Nat.ltb_lt _ _)) by lia. fold (good r).
  destruct (window_old_bit w rs p Hw Hok) as (b & Hb & Hold).
  set (i := (length rs mod w)%nat) in *. set (bm := <[i := good r]> (bitmap p)).
  assert (count_true bm = good_in (lastn w (rs ++ [r]))) as Hcount.
  { pose proof (good_in_lastn_snoc w rs r Hw) as Hsnoc. rewrite <-Hold in Hsnoc.
    pose proof (count_true_insert (bitmap p) i (good r) b Hb) as Hins. fold bm in Hins. lia. }
  pose proof (count_true_le bm) as Hle. unfold bm in Hle at 2. rewrite length_insert, Hlen in Hle.
  rewrite u32_wrap_small by lia. eexists. split; [done|]. split; [|cbn; by rewrite Hcount].
  assert (good_in (rs ++ [r]) = good_in rs + count_true [good r])%nat as Hgs
    by (unfold good_in; by rewrite fmap_app, count_true_app).
  split; cbn.
  - rewrite length_app. simpl. lia.
  - rewrite Hgs, Hg. pose proof (count_true_le (good <$> rs)) as Hgl. rewrite length_fmap in Hgl. fold (good_in rs) in Hgl.
    destruct (good r); [change (count_true [true]) with 1%nat; rewrite u64_wrap_small by lia|
                        change (count_true [false]) with 0%nat]; lia.
  - done.
  - unfold bm. by rewrite length_insert.
  - intros j x Hj Hjw. rewrite length_app in Hjw. simpl in Hjw. apply lookup_app_Some in Hj as [Hj|[Hge Hj]].
    + pose proof (lookup_lt_Some _ _ _ Hj). unfold bm. rewrite list_lookup_insert_ne; [by apply Hrec; [|lia]|].
      unfold i. apply mod_ne. lia.
    + apply list_lookup_singleton_Some in Hj as [Hj <-]. replace j with (length rs) by lia.
      apply list_lookup_insert_eq. lia.
  - intros k Hk. rewrite length_app in Hk. simpl in Hk. unfold bm. rewrite list_lookup_insert_ne.
    + apply Hcl. lia.
    + unfold i. rewrite Nat.mod_small by lia. lia.
  - done.
Qed.

Lemma record_all_window w rs' : ∀ rs p,
  (0 < w)%nat → Z.of_nat w ≤ u32_max → Z.of_nat (length (rs ++ rs')) ≤ u64_max → window_ok w rs p →
  ∃ p', record_all rs' p = Some p' ∧ window_ok w (rs ++ rs') p' ∧ threshold p' = threshold p
    ∧ (rs' ≠ [] → is_healthy p' = (threshold p <=? Z.of_nat (good_in (lastn w (rs ++ rs'))))).
Proof.
  induction rs' as [|r rs' IH]; intros rs p Hw Hw32 Hn Hok.
  { exists p. rewrite app_nil_r. by split_and!. }
  rewrite length_app in Hn. simpl in Hn.
  destruct (record_window w rs r p) as (p1 & E & Hok1 & Hth & Hh); [done|done|lia|done|].
  destruct (IH (rs ++ [r]) p1) as (p' & E' & Hok' & Hth' & Hh'); [done|done|rewrite !length_app; simpl; lia|done|].
  rewrite <-app_assoc in Hok', Hh'. exists p'. simpl. rewrite E. simpl. split_and!; [done|done|congruence|].
  intros _. destruct rs' as [|r' rs']; [|rewrite <-Hth; by apply Hh'].
  simpl in E'. simplify_eq. done.
Qed.

(** A probe is healthy exactly when at least [threshold] of its last [window]
    results were good, whatever came before, and its counters are exact: for every
    sequence of results of a new probe with a window of at least one. *)
Theorem health_window tg u iv tmo th w rs :
  0 < w ≤ u32_max → rs ≠ [] → Z.of_nat (length rs) ≤ u64_max →
  ∃ p, record_all rs (new tg u iv tmo th w) = Some p
    ∧ is_healthy p = (th <=? Z.of_nat (good_in (lastn (Z.to_nat w) rs)))
    ∧ total_count p = Z.of_nat (length rs) ∧ good_count p = Z.of_nat (good_in rs).
Proof.
  intros Hw Hne Hlen.
  assert (window_ok (Z.to_nat w) [] (new tg u iv tmo th w)) as Hok.
  { split; cbn; try done; [lia|by rewrite length_replicate| |].
    - intros i Hi. apply lookup_replicate_2. lia.
    - apply count_true_clear. }
  destruct (record_all_window (Z.to_nat w) rs [] (new tg u iv tmo th w)) as (p & E & [Ht Hg _ _ _ _ _] & _ & Hh);
    [lia|lia|done|done|]. exists p. split_and!; [done|by apply Hh|done|done].
Qed.

Definition probe_ok : ProbeResult := mkProbeResult ProbeStatus.Healthy 1000 (Some 200).
Definition probe_bad : ProbeResult := mkProbeResult ProbeStatus.Sick 1000 (Some 503).

Lemma health_window_witness :
  ∃ p, record_all [probe_ok; probe_ok; probe_bad; probe_ok; probe_bad]
         (new (mkSocketAddr (V4 2130706433) 80) (str "/") 5 1 2 3) = Some p
    ∧ is_healthy p = false ∧ total_count p = 5 ∧ good_count p = 3.
Proof.
  apply (health_window (mkSocketAddr (V4 2130706433) 80) (str "/") 5 1 2 3
           [probe_ok; probe_ok; probe_bad; probe_ok; probe_bad]); [done|done|done].
Defined.

(* ------------------------------------------------------------------ *)
(** ** Round robin *)

Section round_robin.
Context {B : Type} {backend : Backend B}.

Lemma take_rotate_S (k n : nat) (l : list B) :
  (n < length l)%nat → take n (drop 1 (rotate k l)) = take n (rotate (S k) l).
Proof.
  intros Hn. apply list_eq. intros i. destruct (decide (i < n)%nat) as [Hi|Hi].
  - rewrite !lookup_take_lt, lookup_drop by lia. rewrite !lookup_rotate_r by lia.
    unfold rotate_nat_add. do 3 f_equal. lia.
  - rewrite !lookup_take_ge by lia. done.
Qed.

Lemma rotate_head (k : nat) (l : list B) :
  l ≠ [] → ∃ b, l !! (k mod length l)%nat = Some b ∧ rotate k l = b :: drop 1 (rotate k l).
Proof.
  intros Hl. assert (0 < length l)%nat as H0 by (destruct l; [done|simpl; lia]).
  destruct (lookup_lt_is_Some_2 l (k mod length l)) as [b Hb]; [apply Nat.mod_upper_bound; lia|].
  exists b. split; [done|]. unfold rotate. by rewrite (drop_S _ _ _ Hb).
Qed.

(** The loop tries the backends from the counter on, once round. *)
Lemma rr_loop_first (bs : list B) n : ∀ next,
  bs ≠ [] → (n ≤ length bs)%nat → 0 ≤ next → next + Z.of_nat n ≤ u64_max →
  (rr_loop n bs next).1
  = snd <$> list_find (λ b, be_is_healthy b = true) (take n (rotate (Z.to_nat next) bs)).
Proof.
  induction n as [|n IH]; intros next Hne Hn H0 Hmax; [done|]. cbn [rr_loop].
  destruct (rotate_head (Z.to_nat next) bs Hne) as (b & Hb & Hrot).
  assert (Z.to_nat (next mod Z.of_nat (length bs)) = (Z.to_nat next mod length bs)%nat) as ->.
  { rewrite <-(Z2Nat.id next) at 1 by done. by rewrite <-Nat2Z.inj_mod, Nat2Z.id. }
  rewrite Hb, Hrot. cbn [take list_find]. rewrite u64_wrap_small by lia.
  destruct (be_is_healthy b) eqn:E; [by rewrite decide_True|]. rewrite decide_False by done.
  rewrite IH by (done || lia). rewrite take_rotate_S by lia.
  replace (Z.to_nat (next + 1)) with (S (Z.to_nat next)) by lia.
  by destruct (list_find _ _) as [[]|].
Qed.

(** Resolving gives the first healthy backend from the counter on, round the list:
    one is returned if and only if some backend is healthy. *)
Lemma round_robin_first (d : RoundRobin) :
  0 ≤ rr_next d → rr_next d + Z.of_nat (length (rr_backends d)) ≤ u64_max →
  (RoundRobin_resolve d).1
  = snd <$> list_find (λ b, be_is_healthy b = true) (rotate (Z.to_nat (rr_next d)) (rr_backends d))
  ∧ (is_Some (RoundRobin_resolve d).1 ↔ any_healthy (rr_backends d) = true).
Proof.
  intros H0 Hmax. unfold RoundRobin_resolve.
  assert ((RoundRobin_resolve d).1
     = snd <$> list_find (λ b, be_is_healthy b = true) (rotate (Z.to_nat (rr_next d)) (rr_backends d))) as E.
  { unfold RoundRobin_resolve. destruct (rr_backends d) as [|b bs] eqn:Eb; [unfold rotate; by rewrite drop_nil, take_nil|].
    destruct (rr_loop _ _ _) as [r next] eqn:Er. cbn [fst].
    rewrite <-(firstn_all (rotate _ _)), length_rotate, <-rr_loop_first by (done || lia). by rewrite Er. }
  split; [done|]. fold (RoundRobin_resolve d). rewrite E, fmap_is_Some. unfold any_healthy.
  rewrite List.existsb_exists. split.
  - intros [[i b] (Hi & Hh & _)%list_find_Some]. exists b. split; [|done].
    apply list_elem_of_In, (elem_of_rotate _ (Z.to_nat (rr_next d))). by eapply list_elem_of_lookup_2.
  - intros (b & Hin & Hh). eapply list_find_elem_of; [|exact Hh].
    by apply elem_of_rotate, list_elem_of_In.
Qed.
End round_robin.
