(* ===== verification/Shard.v ===== *)
(** * The shard director

    Models [rv-backend/src/shard_director.rs]: a consistent hash ring.  The hash
    ([DefaultHasher], whose algorithm the standard library leaves open) is a
    parameter; the slice's binary search is a class with its documented laws. *)

From S2P Require Import Prelude RustStr Backend.
From stdpp Require Import sorting.
Local Open Scope Z_scope.

(** [slice::binary_search_by_key] on the keys: a position of the key, or the
    position where it could be inserted; which of several equal keys is found is
    not specified. *)
Class BinarySearch := {
  binary_search : list Z → Z → result nat nat;
  binary_search_ok l h pos :
    StronglySorted Z.le l → binary_search l h = Ok pos → l !! pos = Some h;
  binary_search_err l h pos :
    StronglySorted Z.le l → binary_search l h = Err pos →
    ∀ i x, l !! i = Some x → if decide (i < pos)%nat then x < h else h < x;
}.

Definition DEFAULT_REPLICAS : Z := 150.

Record RingPoint : Set := mkRingPoint { rp_hash : Z; rp_backend : nat }.

(** [sort_by_key], stable. *)
Fixpoint insert_point (p : RingPoint) (l : list RingPoint) : list RingPoint :=
  match l with
  | [] => [p]
  | q :: l' => if rp_hash p <=? rp_hash q then p :: l else q :: insert_point p l'
  end.
Definition sort_points (l : list RingPoint) : list RingPoint := foldr insert_point [] l.

Section shard.
Context {B : Type} {backend : Backend B} {search : BinarySearch} (hash_key : bytes → Z).

Record ShardDirector : Type := mkShardDirector {
  sd_name : bytes;
  sd_ring : list RingPoint;
  sd_backends : list B;
  sd_replicas : Z;
}.

Definition point_key (b : B) (r : nat) : bytes := be_name b ++ str "-" ++ show_u64 (Z.of_nat r).

Definition build_ring (bs : list B) (replicas : Z) : list RingPoint :=
  sort_points (concat (imap (λ idx b,
    (λ r, mkRingPoint (hash_key (point_key b r)) idx) <$> seq 0 (Z.to_nat replicas)) bs)).

Definition ShardDirector_with_replicas (name : bytes) (bs : list B) (replicas : Z) : ShardDirector :=
  mkShardDirector name (build_ring bs replicas) bs replicas.
Definition ShardDirector_new (name : bytes) (bs : list B) : ShardDirector :=
  ShardDirector_with_replicas name bs DEFAULT_REPLICAS.

Definition ShardDirector_set_backends (bs : list B) (d : ShardDirector) : ShardDirector :=
  mkShardDirector (sd_name d) (build_ring bs (sd_replicas d)) bs (sd_replicas d).

(** The first ring point at or after [hash], wrapping around. *)
Definition ring_start (ring : list RingPoint) (hash : Z) : nat :=
  match binary_search (rp_hash <$> ring) hash with
  | Ok pos => pos
  | Err pos => if (length ring <=? pos)%nat then 0%nat else pos
  end.

(** The walk, [n] points to go: [seen] marks the backends tried, [visited] counts
    them. *)
Fixpoint walk (ring : list RingPoint) (bs : list B) (start n offset : nat) (seen : list bool)
    (visited : nat) : option B :=
  match n with
  | O => None
  | S n =>
      match ring !! ((start + offset) mod length ring)%nat with
      | None => None
      | Some p =>
          match bs !! rp_backend p with
          | None => walk ring bs start n (S offset) seen visited
          | Some be =>
              if be_is_healthy be then Some be
              else if default true (seen !! rp_backend p) then walk ring bs start n (S offset) seen visited
              else if (length bs <=? S visited)%nat then None
              else walk ring bs start n (S offset) (<[rp_backend p := true]> seen) (S visited)
          end
      end
  end.

Definition ShardDirector_resolve_with_hash (hash : Z) (d : ShardDirector) : option B :=
  match sd_ring d, sd_backends d with
  | [], _ | _, [] => None
  | ring, bs =>
      walk ring bs (ring_start ring hash) (length ring) 0 (replicate (length bs) false) 0
  end.

Definition ShardDirector_resolve_with_key (key : bytes) (d : ShardDirector) : option B :=
  ShardDirector_resolve_with_hash (hash_key key) d.

(** The trait's [resolve]: the first healthy backend on the ring. *)
Definition ShardDirector_resolve (d : ShardDirector) : option B :=
  snd <$> list_find (λ b, be_is_healthy b = true)
    (omap (λ p, sd_backends d !! rp_backend p) (sd_ring d)).

Definition ring_size (d : ShardDirector) : nat := length (sd_ring d).
Definition backend_count (d : ShardDirector) : nat := length (sd_backends d).

End shard.

(* ------------------------------------------------------------------ *)
(** ** The ring *)

Lemma insert_point_perm p l : insert_point p l ≡ₚ p :: l.
Proof.
  induction l as [|q l IH]; simpl; [done|]. case_if; [done|]. rewrite IH. apply Permutation_swap.
Qed.

Lemma sort_points_perm l : sort_points l ≡ₚ l.
Proof. induction l as [|p l IH]; simpl; [done|]. by rewrite insert_point_perm, IH. Qed.

Lemma insert_point_sorted p l :
  StronglySorted Z.le (rp_hash <$> l) → StronglySorted Z.le (rp_hash <$> insert_point p l).
Proof.
  induction l as [|q l IH]; intros Hs; [by repeat constructor|]. cbn [insert_point fmap list_fmap] in *.
  inversion Hs as [|? ? Hl Hq]; subst. case_if; bool_to_prop.
  - constructor; [done|]. constructor; [done|]. eapply Forall_impl; [exact Hq|]. simpl. lia.
  - constructor; [by apply IH|]. rewrite insert_point_perm. cbn. constructor; [lia|done].
Qed.

Lemma sort_points_sorted l : StronglySorted Z.le (rp_hash <$> sort_points l).
Proof. induction l as [|p l IH]; [constructor|]. by apply insert_point_sorted. Qed.

(** Clockwise distance from [h] to [x] on the ring of 64-bit hashes. *)
Definition distance (h x : Z) : Z := (x - h) mod 2 ^ 64.

Lemma distance_after h x : 0 ≤ h → h ≤ x < 2 ^ 64 → distance h x = x - h.
Proof. intros. apply Z.mod_small. lia. Qed.

Lemma distance_before h x : 0 ≤ x < h → h < 2 ^ 64 → distance h x = x - h + 2 ^ 64.
Proof. intros. unfold distance. rewrite <-(Z.mod_add _ 1), Z.mod_small by lia. lia. Qed.

Lemma distance_inj h x y :
  0 ≤ h < 2 ^ 64 → 0 ≤ x < 2 ^ 64 → 0 ≤ y < 2 ^ 64 → distance h x = distance h y → x = y.
Proof.
  intros Hh Hx Hy. destruct (decide (h ≤ x)), (decide (h ≤ y)).
  all: rewrite ?(distance_after h x), ?(distance_before h x), ?(distance_after h y), ?(distance_before h y) by lia; lia.
Qed.

Lemma StronglySorted_lookup {A} (R : A → A → Prop) l i j x y :
  StronglySorted R l → l !! i = Some x → l !! j = Some y → (i < j)%nat → R x y.
Proof.
  intros Hs Hx Hy Hij. rewrite <-(take_drop (S i) l) in Hs. eapply StronglySorted_app_1_elem_of; [exact Hs| |].
  - apply (list_elem_of_lookup_2 _ i). by rewrite lookup_take_lt by lia.
  - apply (list_elem_of_lookup_2 _ (j - S i)). rewrite lookup_drop. by replace (S i + (j - S i))%nat with j by lia.
Qed.

Lemma StronglySorted_intro {A} (R : A → A → Prop) l :
  (∀ i j x y, l !! i = Some x → l !! j = Some y → (i < j)%nat → R x y) → StronglySorted R l.
Proof.
  induction l as [|a l IH]; intros H; constructor.
  - apply IH. intros i j x y Hx Hy Hij. apply (H (S i) (S j) x y); [done|done|lia].
  - apply Forall_lookup. intros i x Hx. apply (H 0%nat (S i) a x); [done|done|lia].
Qed.

(** A ring without collisions. *)
Record ring_ok (ring : list RingPoint) (n : nat) : Prop := {
  ro_sorted : StronglySorted Z.le (rp_hash <$> ring);
  ro_distinct : NoDup (rp_hash <$> ring);
  ro_range : ∀ p, p ∈ ring → 0 ≤ rp_hash p < 2 ^ 64;
  ro_backend : ∀ p, p ∈ ring → (rp_backend p < n)%nat;
}.

Lemma ring_lt ring n i j p q :
  ring_ok ring n → ring !! i = Some p → ring !! j = Some q → (i < j)%nat → rp_hash p < rp_hash q.
Proof.
  intros [Hs Hn _ _] Hp Hq Hij.
  assert (rp_hash p ≤ rp_hash q).
  { eapply (StronglySorted_lookup Z.le (rp_hash <$> ring) i j); [done| | |exact Hij];
      rewrite list_lookup_fmap, ?Hp, ?Hq; done. }
  assert (rp_hash p ≠ rp_hash q); [|lia]. intros E.
  assert (i = j); [|lia]. eapply (NoDup_lookup (rp_hash <$> ring)); [done| |];
    rewrite list_lookup_fmap, ?Hp, ?Hq; [done|]. by rewrite E.
Qed.

Import HealthProbe.

Section shard_proofs.
Context {B : Type} {backend : Backend B} {search : BinarySearch}.

(** Every point before the start lies behind the hash and every later one at or
    after it, unless the hash is beyond the whole ring. *)
Lemma ring_start_spec ring n h :
  ring_ok ring n →
  (∀ i p, ring !! i = Some p → if decide (i < ring_start ring h)%nat then rp_hash p < h else h ≤ rp_hash p)
  ∨ (ring_start ring h = 0%nat ∧ ∀ p, p ∈ ring → rp_hash p < h).
Proof.
  intros Hr. pose proof (ro_sorted _ _ Hr) as Hs. unfold ring_start.
  destruct (binary_search _ h) as [pos|pos] eqn:E.
  - apply binary_search_ok in E; [|done]. rewrite list_lookup_fmap in E.
    destruct (ring !! pos) as [q|] eqn:Hq; simplify_eq/=. left. intros i p Hp. case_decide as Hi.
    + by eapply ring_lt.
    + destruct (decide (i = pos)) as [->|]; [by simplify_eq|].
      enough (rp_hash q < rp_hash p) by lia. eapply ring_lt; [done|exact Hq|exact Hp|lia].
  - assert (∀ i p, ring !! i = Some p → if decide (i < pos)%nat then rp_hash p < h else h < rp_hash p) as Herr.
    { intros i p Hp. eapply binary_search_err in E; [exact E|done|]. by rewrite list_lookup_fmap, Hp. }
    destruct (Nat.leb_spec (length ring) pos) as [Hl|Hl].
    + right. split; [done|]. intros p [i Hi]%list_elem_of_lookup. pose proof (lookup_lt_Some _ _ _ Hi).
      specialize (Herr i p Hi). by rewrite decide_True in Herr by lia.
    + left. intros i p Hp. specialize (Herr i p Hp). case_decide; lia.
Qed.

Lemma ring_start_lt ring n h : ring_ok ring n → ring ≠ [] → (ring_start ring h < length ring)%nat.
Proof.
  intros Hr Hne. assert (0 < length ring)%nat by (destruct ring; [done|simpl; lia]). unfold ring_start.
  destruct (binary_search _ h) as [pos|pos] eqn:E.
  - apply binary_search_ok in E; [|apply Hr]. apply lookup_lt_Some in E. by rewrite length_fmap in E.
  - destruct (Nat.leb_spec (length ring) pos); lia.
Qed.

(** From the start on, the points come in the order of their clockwise distance. *)
Lemma rotated_sorted ring n h :
  ring_ok ring n → 0 ≤ h < 2 ^ 64 →
  StronglySorted (λ p q, distance h (rp_hash p) ≤ distance h (rp_hash q)) (rotate (ring_start ring h) ring).
Proof.
  intros Hr Hh. apply StronglySorted_intro. intros i j p q Hp Hq Hij.
  apply lookup_rotate_r_Some in Hp as [Hp Hi], Hq as [Hq Hj].
  assert (ring ≠ []) as Hne by (intros ->; simpl in Hi; lia).
  pose proof (ring_start_lt ring n h Hr Hne) as Hlt.
  rewrite rotate_nat_add_alt in Hp, Hq by lia.
  pose proof (ro_range _ _ Hr p ltac:(by eapply list_elem_of_lookup_2)) as Hpr.
  pose proof (ro_range _ _ Hr q ltac:(by eapply list_elem_of_lookup_2)) as Hqr.
  destruct (ring_start_spec ring n h Hr) as [Hspec|[H0 Hspec]].
  - case_decide; case_decide; try lia.
    + pose proof (Hspec _ _ Hp) as Hph. pose proof (Hspec _ _ Hq) as Hqh.
      rewrite decide_False in Hph by lia. rewrite decide_False in Hqh by lia.
      pose proof (ring_lt _ _ _ _ _ _ Hr Hp Hq ltac:(lia)). rewrite !distance_after by lia. lia.
    + pose proof (Hspec _ _ Hp) as Hph. pose proof (Hspec _ _ Hq) as Hqh.
      rewrite decide_False in Hph by lia. rewrite decide_True in Hqh by lia.
      rewrite (distance_before h (rp_hash q)), distance_after by lia. lia.
    + pose proof (Hspec _ _ Hp) as Hph. pose proof (Hspec _ _ Hq) as Hqh.
      rewrite decide_True in Hph by lia. rewrite decide_True in Hqh by lia.
      pose proof (ring_lt _ _ _ _ _ _ Hr Hp Hq ltac:(lia)). rewrite !distance_before by lia. lia.
  - rewrite H0 in *. rewrite decide_True in Hp by lia. rewrite decide_True in Hq by lia.
    pose proof (ring_lt _ _ _ _ _ _ Hr Hp Hq ltac:(lia)).
    pose proof (Hspec p ltac:(by eapply list_elem_of_lookup_2)).
    pose proof (Hspec q ltac:(by eapply list_elem_of_lookup_2)). rewrite !distance_before by lia. lia.
Qed.

Lemma count_true_full l b i : count_true l = length l → l !! i = Some b → b = true.
Proof.
  revert i. induction l as [|a l IH]; intros i Hc Hi; [done|].
  pose proof (count_true_le l) as Hle. change (a :: l) with ([a] ++ l) in Hc. rewrite count_true_app in Hc.
  simpl in Hc. assert (count_true [a] ≤ 1)%nat as Ha by apply count_true_le.
  destruct i as [|i]; simplify_eq/=; [|apply (IH i); [lia|done]].
  destruct b; [done|]. change (count_true [false]) with 0%nat in Hc. lia.
Qed.

Definition tried (ring : list RingPoint) (bs : list B) (start n : nat) : list B :=
  omap (λ p, bs !! rp_backend p) (take n (rotate start ring)).

Lemma find_all_sick (bs l : list B) :
  (∀ b, b ∈ bs → be_is_healthy b = false) → (∀ b, b ∈ l → b ∈ bs) →
  snd <$> list_find (λ b, be_is_healthy b = true) l = None.
Proof.
  intros Hs Hl. assert (list_find (λ b, be_is_healthy b = true) l = None) as ->; [|done].
  apply list_find_None, Forall_forall. intros b Hb. rewrite (Hs b (Hl b Hb)). done.
Qed.

(** The walk, its marks and its early exit find the first healthy backend on the
    way round. *)
Lemma walk_first ring bs start n : ∀ offset seen visited,
  ring ≠ [] → (∀ p, p ∈ ring → (rp_backend p < length bs)%nat) → (n ≤ length ring)%nat →
  length seen = length bs → count_true seen = visited →
  (∀ i b, seen !! i = Some true → bs !! i = Some b → be_is_healthy b = false) →
  walk ring bs start n offset seen visited
  = snd <$> list_find (λ b, be_is_healthy b = true) (tried ring bs (start + offset) n).
Proof.
  induction n as [|n IH]; intros offset seen visited Hne Hb Hn Hlen Hc Hsick; [done|]. cbn [walk].
  destruct (rotate_head (start + offset) ring Hne) as (p & Hp & Hrot). rewrite Hp.
  assert (tried ring bs (start + S offset) n = omap (λ p, bs !! rp_backend p) (take n (drop 1 (rotate (start + offset) ring)))) as Hnext.
  { unfold tried. rewrite take_rotate_S by lia. by rewrite Nat.add_succ_r. }
  unfold tried. rewrite Hrot. cbn [take omap list_omap].
  assert (p ∈ ring) as Hin by (by eapply list_elem_of_lookup_2).
  destruct (lookup_lt_is_Some_2 bs (rp_backend p)) as [be Hbe]; [by apply Hb|]. rewrite Hbe. cbn [list_find].
  assert (∀ seen' visited', length seen' = length bs → count_true seen' = visited' →
    (∀ i b, seen' !! i = Some true → bs !! i = Some b → be_is_healthy b = false) →
    walk ring bs start n (S offset) seen' visited'
    = snd <$> (prod_map S id <$> list_find (λ b, be_is_healthy b = true)
                (omap (λ p, bs !! rp_backend p) (take n (drop 1 (rotate (start + offset) ring)))))) as Hrec.
  { intros seen' visited' Hl' Hc' Hs'. rewrite IH by (done || lia). rewrite Hnext. by destruct (list_find _ _) as [[]|]. }
  destruct (be_is_healthy be) eqn:Eh; [by rewrite decide_True|]. rewrite decide_False by done.
  destruct (lookup_lt_is_Some_2 seen (rp_backend p)) as [sn Hsn]; [rewrite Hlen; by apply Hb|].
  rewrite Hsn. cbn [default from_option id]. destruct sn; [by apply Hrec|].
  assert (∀ i b, <[rp_backend p := true]> seen !! i = Some true → bs !! i = Some b → be_is_healthy b = false) as Hsick'.
  { intros i b [(<- & _ & _)|[_ Hi]]%list_lookup_insert_Some Hbi; [congruence|by eapply Hsick]. }
  pose proof (count_true_insert seen (rp_backend p) true false Hsn) as Hins.
  change (count_true [false]) with 0%nat in Hins. change (count_true [true]) with 1%nat in Hins.
  destruct (Nat.leb_spec (length bs) (S visited)) as [Hdone|Hdone]; [|apply Hrec; [by rewrite length_insert|lia|done]].
  symmetry. pose proof (find_all_sick bs (omap (λ p, bs !! rp_backend p) (take n (drop 1 (rotate (start + offset) ring))))) as Hnone.
  destruct (list_find _ _) as [[k0 b0]|]; [|done]. discriminate Hnone.
  - intros b [i Hi]%list_elem_of_lookup. eapply Hsick'; [|exact Hi].
    destruct (lookup_lt_is_Some_2 (<[rp_backend p := true]> seen) i) as [x Hx].
    { rewrite length_insert, Hlen. by eapply lookup_lt_Some. }
    rewrite Hx. f_equal. eapply count_true_full; [|exact Hx].
    pose proof (count_true_le (<[rp_backend p:=true]> seen)). rewrite length_insert in *. lia.
  - intros b (q & _ & Hq)%list_elem_of_omap. by eapply list_elem_of_lookup_2.
Qed.
End shard_proofs.

(* ------------------------------------------------------------------ *)
(** ** Consistent hashing *)

Section consistent.
Context {B : Type} {backend : Backend B} {search : BinarySearch} (hash_key : bytes → Z).

(** No two virtual nodes have the same hash. *)
Definition no_collision (bs : list B) (replicas : Z) : Prop :=
  NoDup (rp_hash <$> build_ring hash_key bs replicas).

Lemma elem_of_ring bs replicas p :
  p ∈ build_ring hash_key bs replicas
  ↔ ∃ i b r, bs !! i = Some b ∧ (r < Z.to_nat replicas)%nat
      ∧ p = mkRingPoint (hash_key (point_key b r)) i.
Proof.
  unfold build_ring. rewrite sort_points_perm, list_elem_of_In, List.in_concat. split.
  - intros (l & Hl & Hp). apply list_elem_of_In in Hl. apply list_elem_of_lookup in Hl as [i Hi].
    rewrite list_lookup_imap in Hi. destruct (bs !! i) as [b|] eqn:Eb; simplify_eq/=.
    apply list_elem_of_In in Hp. apply list_elem_of_fmap in Hp as (r & -> & Hr). apply elem_of_seq in Hr.
    exists i, b, r. split_and!; [done|lia|done].
  - intros (i & b & r & Hi & Hr & ->).
    exists ((λ r, mkRingPoint (hash_key (point_key b r)) i) <$> seq 0 (Z.to_nat replicas)). split.
    + apply list_elem_of_In, (list_elem_of_lookup_2 _ i). by rewrite list_lookup_imap, Hi.
    + apply list_elem_of_In, list_elem_of_fmap. exists r. split; [done|]. apply elem_of_seq. lia.
Qed.

Lemma built_ring_ok bs replicas :
  (∀ k, 0 ≤ hash_key k < 2 ^ 64) → no_collision bs replicas →
  ring_ok (build_ring hash_key bs replicas) (length bs).
Proof.
  intros Hh Hn. split; [apply sort_points_sorted|done|..].
  - intros p (i & b & r & _ & _ & ->)%elem_of_ring. apply Hh.
  - intros p (i & b & r & Hi & _ & ->)%elem_of_ring. by eapply lookup_lt_Some.
Qed.

(** [p] is the healthy ring point nearest to [h], clockwise. *)
Definition nearest (ring : list RingPoint) (bs : list B) (h : Z) (p : RingPoint) (b : B) : Prop :=
  p ∈ ring ∧ bs !! rp_backend p = Some b ∧ be_is_healthy b = true
  ∧ ∀ q b', q ∈ ring → bs !! rp_backend q = Some b' → be_is_healthy b' = true →
      distance h (rp_hash p) ≤ distance h (rp_hash q).

(** The first match of a sorted list is the least. *)
Lemma find_omap_least (l : list RingPoint) (bs : list B) h b :
  StronglySorted (λ p q, distance h (rp_hash p) ≤ distance h (rp_hash q)) l →
  snd <$> list_find (λ b, be_is_healthy b = true) (omap (λ p, bs !! rp_backend p) l) = Some b →
  ∃ p, nearest l bs h p b.
Proof.
  induction l as [|p l IH]; intros Hs Hf; [done|]. inversion Hs as [|? ? Hl Hp]; subst. cbn [omap list_omap] in Hf.
  assert (∀ q b', q ∈ p :: l → bs !! rp_backend q = Some b' → be_is_healthy b' = true →
            distance h (rp_hash p) ≤ distance h (rp_hash q)) as Hleast.
  { intros q b' [->|Hq]%elem_of_cons _ _; [lia|]. rewrite Forall_forall in Hp. by apply Hp. }
  destruct (bs !! rp_backend p) as [b0|] eqn:Eb.
  - cbn [list_find] in Hf. destruct (decide (be_is_healthy b0 = true)) as [Hh|Hh].
    + simplify_eq/=. exists p. split_and!; [by left|done|done|done].
    + destruct IH as (p' & Hin & Hb & Hh' & Hmin); [done| |].
      { destruct (list_find _ _) as [[]|]; simplify_eq/=. done. }
      exists p'. split_and!; [by right|done|done|]. intros q b' [->|Hq]%elem_of_cons Hqb Hqh; [congruence|by eapply Hmin].
  - destruct IH as (p' & Hin & Hb & Hh' & Hmin); [done|done|].
    exists p'. split_and!; [by right|done|done|]. intros q b' [->|Hq]%elem_of_cons Hqb Hqh; [congruence|by eapply Hmin].
Qed.

Lemma resolve_first bs replicas name h :
  (∀ k, 0 ≤ hash_key k < 2 ^ 64) → no_collision bs replicas →
  let d := ShardDirector_with_replicas hash_key name bs replicas in
  ShardDirector_resolve_with_hash h d
  = snd <$> list_find (λ b, be_is_healthy b = true)
      (omap (λ p, bs !! rp_backend p) (rotate (ring_start (sd_ring d) h) (sd_ring d))).
Proof.
  intros Hh Hn d. pose proof (built_ring_ok bs replicas Hh Hn) as Hr.
  unfold ShardDirector_resolve_with_hash, d, ShardDirector_with_replicas. cbn [sd_ring sd_backends].
  destruct (build_ring hash_key bs replicas) as [|p ring] eqn:Er.
  { unfold rotate. by rewrite drop_nil, take_nil. }
  destruct bs as [|b bs'].
  { pose proof (ro_backend _ _ Hr p ltac:(by left)). simpl in *. lia. }
  rewrite (walk_first (p :: ring)); try done.
  - rewrite Nat.add_0_r. unfold tried. by rewrite firstn_all2 by (rewrite length_rotate; done).
  - apply Hr.
  - by rewrite length_replicate.
  - apply count_true_clear.
  - intros i x Hi. apply lookup_replicate in Hi as [? _]. done.
Qed.

Lemma resolve_nearest bs replicas name h :
  (∀ k, 0 ≤ hash_key k < 2 ^ 64) → no_collision bs replicas → 0 ≤ h < 2 ^ 64 →
  let d := ShardDirector_with_replicas hash_key name bs replicas in
  match ShardDirector_resolve_with_hash h d with
  | Some b => ∃ p, nearest (sd_ring d) bs h p b
  | None => ∀ p b, p ∈ sd_ring d → bs !! rp_backend p = Some b → be_is_healthy b = false
  end.
Proof.
  intros Hk Hn Hh d. pose proof (built_ring_ok bs replicas Hk Hn) as Hr.
  pose proof (resolve_first bs replicas name h Hk Hn) as E. fold d in E. cbv zeta in E. rewrite E.
  destruct (snd <$> _) as [b|] eqn:Ef.
  - eapply find_omap_least in Ef as (p & Hin & Hb & Hhe & Hmin); [|by eapply rotated_sorted].
    exists p. split_and!; [by apply elem_of_rotate in Hin|done|done|].
    intros q b' Hq. apply (Hmin q b'). by apply elem_of_rotate.
  - intros p b Hp Hb. apply fmap_None in Ef. apply list_find_None in Ef. rewrite Forall_forall in Ef.
    apply not_true_is_false, Ef, list_elem_of_omap. exists p. split; [by apply elem_of_rotate|done].
Qed.

(** C22. The shard director sends a key to the healthy backend whose virtual node is
    nearest clockwise to the key's hash, when no two virtual nodes fall on one
    point, and finds none only when no backend on the ring is healthy: the binary
    search, the wrap-around, the marks of the backends tried and the early exit
    compute exactly that. *)
Theorem shard_resolve_nearest bs replicas name h :
  (∀ k, 0 ≤ hash_key k < 2 ^ 64) → no_collision bs replicas → 0 ≤ h < 2 ^ 64 →
  let d := ShardDirector_with_replicas hash_key name bs replicas in
  match ShardDirector_resolve_with_hash h d with
  | Some b => ∃ p, nearest (sd_ring d) bs h p b
  | None => ∀ p b, p ∈ sd_ring d → bs !! rp_backend p = Some b → be_is_healthy b = false
  end.
Proof. apply resolve_nearest. Qed.

(** The points of the old backends stay where they are. *)
Lemma ring_grows bs b replicas p :
  p ∈ build_ring hash_key (bs ++ [b]) replicas →
  rp_backend p = length bs ∨ p ∈ build_ring hash_key bs replicas.
Proof.
  intros (i & x & r & Hi & Hr & ->)%elem_of_ring. apply lookup_app_Some in Hi as [Hi|[Hge Hi]].
  - right. apply elem_of_ring. by exists i, x, r.
  - apply list_lookup_singleton_Some in Hi as [Hi _]. left. simpl. lia.
Qed.

Lemma ring_grows_incl bs b replicas p :
  p ∈ build_ring hash_key bs replicas → p ∈ build_ring hash_key (bs ++ [b]) replicas.
Proof.
  intros (i & x & r & Hi & Hr & ->)%elem_of_ring. apply elem_of_ring. exists i, x, r.
  split_and!; [by apply lookup_app_l_Some|done|done].
Qed.

(** Adding a backend moves keys only to it: with one more backend on the ring, a
    key is served by the new backend or by the backend that served it before. *)
Theorem shard_add_backend_stable bs b replicas name h x :
  (∀ k, 0 ≤ hash_key k < 2 ^ 64) → no_collision (bs ++ [b]) replicas → no_collision bs replicas →
  0 ≤ h < 2 ^ 64 →
  ShardDirector_resolve_with_hash h (ShardDirector_with_replicas hash_key name (bs ++ [b]) replicas) = Some x →
  x = b ∨ ShardDirector_resolve_with_hash h (ShardDirector_with_replicas hash_key name bs replicas) = Some x.
Proof.
  intros Hk Hn' Hn Hh Hx. pose proof (resolve_nearest (bs ++ [b]) replicas name h Hk Hn' Hh) as Hnew.
  cbv zeta in Hnew. rewrite Hx in Hnew. destruct Hnew as (p & Hp & Hpb & Hph & Hmin).
  destruct (ring_grows _ _ _ _ Hp) as [Hidx|Hold].
  { left. rewrite Hidx, list_lookup_middle in Hpb by done. congruence. }
  right. pose proof (built_ring_ok bs replicas Hk Hn) as Hr. pose proof (ro_backend _ _ Hr p Hold) as Hlt.
  rewrite lookup_app_l in Hpb by done.
  pose proof (resolve_nearest bs replicas name h Hk Hn Hh) as Hres. cbv zeta in Hres.
  destruct (ShardDirector_resolve_with_hash _ (ShardDirector_with_replicas _ _ bs _)) as [y|].
  - destruct Hres as (q & Hq & Hqb & Hqh & Hqmin).
    assert (distance h (rp_hash p) = distance h (rp_hash q)) as Hd.
    { apply Z.le_antisymm; [|by eapply Hqmin]. eapply Hmin; [by apply ring_grows_incl| |exact Hqh].
      rewrite lookup_app_l; [done|]. by apply (ro_backend _ _ Hr). }
    apply distance_inj in Hd; [|done|by apply (ro_range _ _ Hr)..].
    assert (p = q) as ->; [|congruence].
    change (q ∈ build_ring hash_key bs replicas) in Hq.
    apply list_elem_of_lookup in Hold as [i Hi], Hq as [j Hj].
    assert (i = j) as ->; [|congruence]. eapply (NoDup_lookup _ i j (rp_hash p)); [exact Hn| |];
      rewrite list_lookup_fmap, ?Hi, ?Hj; simpl; congruence.
  - specialize (Hres p x Hold Hpb). congruence.
Qed.
End consistent.

(** A linear search satisfies the laws of the binary one. *)
Fixpoint linear_search (l : list Z) (h : Z) : result nat nat :=
  match l with
  | [] => Err 0%nat
  | x :: l =>
      if x =? h then Ok 0%nat
      else if h <? x then Err 0%nat
      else match linear_search l h with Ok n => Ok (S n) | Err n => Err (S n) end
  end.

Lemma linear_search_ok l h : ∀ pos, linear_search l h = Ok pos → l !! pos = Some h.
Proof.
  induction l as [|x l IH]; intros pos; simpl; [done|].
  destruct (Z.eqb_spec x h) as [->|]; [by intros [= <-]|]. destruct (h <? x); [done|].
  destruct (linear_search l h) as [m|m] eqn:E; intros [= <-]. by apply IH.
Qed.

Lemma linear_search_err l h : ∀ pos,
  StronglySorted Z.le l → linear_search l h = Err pos →
  ∀ i x, l !! i = Some x → if decide (i < pos)%nat then x < h else h < x.
Proof.
  induction l as [|y l IH]; intros pos Hs; simpl; [done|]. inversion Hs as [|? ? Hl Hy]; subst.
  destruct (Z.eqb_spec y h); [done|]. destruct (Z.ltb_spec h y) as [Hlt|Hlt].
  - intros [= <-] i x Hi. rewrite decide_False by lia. destruct i as [|i]; simplify_eq/=; [done|].
    rewrite Forall_lookup in Hy. specialize (Hy i x Hi). lia.
  - destruct (linear_search l h) as [m|m] eqn:E; intros [= <-] i x Hi.
    destruct i as [|i]; [injection Hi as ->|apply (IH m Hl eq_refl) in Hi]; repeat case_decide; lia.
Qed.

Definition linear : BinarySearch := {|
  binary_search := linear_search;
  binary_search_ok l h pos _ := linear_search_ok l h pos;
  binary_search_err l h pos := linear_search_err l h pos;
|}.

(** Three backends, the second of them down, and a small hash. *)
Definition sample_hash (k : bytes) : Z := (from_le_bytes k * 2654435761) mod 2 ^ 64.
Definition sample_backend (n : string) : SimpleBackend := SimpleBackend_new (str n) (mkSocketAddr (V4 0) 80).
Definition sample_backends : list SimpleBackend :=
  [sample_backend "a"; SimpleBackend_set_admin_health AdminHealth.Sick (sample_backend "b"); sample_backend "c"].

Lemma sample_hash_range k : 0 ≤ sample_hash k < 2 ^ 64.
Proof. apply Z.mod_pos_bound. lia. Qed.

Lemma shard_resolve_nearest_witness :
  let d := ShardDirector_with_replicas (backend := simple_backend ∅) sample_hash (str "s") sample_backends 3 in
  match ShardDirector_resolve_with_hash (backend := simple_backend ∅) (search := linear) 77 d with
  | Some b => ∃ p, nearest (backend := simple_backend ∅) (sd_ring d) sample_backends 77 p b
  | None => ∀ p b, p ∈ sd_ring d → sample_backends !! rp_backend p = Some b →
              be_is_healthy (Backend := simple_backend ∅) b = false
  end.
Proof.
  apply (shard_resolve_nearest (backend := simple_backend ∅) (search := linear) sample_hash sample_backends 3 (str "s") 77).
  - apply sample_hash_range.
  - apply (bool_decide_unpack _). vm_compute. exact I.
  - done.
Defined.

Lemma shard_add_backend_stable_witness :
  let old := [sample_backend "a"; sample_backend "b"] in
  sample_backend "a" = sample_backend "c"
  ∨ ShardDirector_resolve_with_hash (backend := simple_backend ∅) (search := linear) (2 ^ 60)
      (ShardDirector_with_replicas (backend := simple_backend ∅) sample_hash (str "s") old 2) = Some (sample_backend "a").
Proof.
  apply (shard_add_backend_stable (backend := simple_backend ∅) (search := linear) sample_hash
    [sample_backend "a"; sample_backend "b"] (sample_backend "c") 2 (str "s") (2 ^ 60)).
  - apply sample_hash_range.
  - apply (bool_decide_unpack _). vm_compute. exact I.
  - apply (bool_decide_unpack _). vm_compute. exact I.
  - done.
  - vm_compute. reflexivity.
Defined.
