(* ===== verification/BackendTasks.v ===== *)
(** * Background tasks of the backends

    Models [rv-backend/src/dns_director.rs], a round robin rebuilt from the answers of
    the resolver, and [probe_scheduler.rs], the task that probes a backend and feeds
    the [HealthProbe] of [Backend].  The answers of the network are arguments: what
    the resolver returns, what a connection yields and how long it takes. *)

From S2P Require Import Prelude RustStr Enums Types HttpTypes Header Vary Backend.
Local Open Scope Z_scope.

(* ------------------------------------------------------------------ *)
(** ** The DNS director

    A backend is shared by the director, its round robin and whoever was handed it:
    a handle into a store. *)

Abbreviation backends := (gmap nat SimpleBackend).

Definition no_addr : SocketAddr := mkSocketAddr (V4 0) 0.

Section dns.
  Context (show_addr : SocketAddr → bytes) (probes : gmap nat HealthProbe.t).

(** The backend behind a handle. *)
Definition shared_backend (st : backends) : Backend nat := {|
  be_name h := match st !! h with Some b => sb_name b | None => [] end;
  be_addr h := match st !! h with Some b => sb_addr b | None => no_addr end;
  be_is_healthy h := match st !! h with Some b => SimpleBackend_is_healthy probes b | None => false end;
  be_admin_health h := match st !! h with Some b => sb_admin_health b | None => AdminHealth.Deleted end;
|}.

Record DnsDirector : Type := mkDnsDirector {
  dd_name : bytes;
  dd_hostname : bytes;
  dd_port : Z;
  dd_backends : list nat;
  dd_resolve_interval : Z;
  dd_sub_director : RoundRobin (B := nat);
}.

Definition DnsDirector_new (name hostname : bytes) (port resolve_interval : Z) : DnsDirector :=
  mkDnsDirector name hostname port [] resolve_interval (RoundRobin_new (name ++ str ".rr")).

(** The loop that makes a backend of each address. *)
Fixpoint add_resolved (name : bytes) (i : nat) (addrs : list SocketAddr) (st : backends) (rr : RoundRobin)
    (new_backends : list nat) : backends * RoundRobin * list nat :=
  match addrs with
  | [] => (st, rr, new_backends)
  | addr :: addrs =>
      let be := fresh (dom st) in
      let st := <[be := SimpleBackend_new (name ++ str "." ++ show_u64 (Z.of_nat i)) addr]> st in
      add_resolved name (S i) addrs st (RoundRobin_add_backend be rr) (new_backends ++ [be])
  end.

(** The two writes of a resolution, in this order. *)
Definition swap_backends (bs : list nat) (d : DnsDirector) : DnsDirector :=
  mkDnsDirector (dd_name d) (dd_hostname d) (dd_port d) bs (dd_resolve_interval d) (dd_sub_director d).
Definition swap_sub_director (rr : RoundRobin) (d : DnsDirector) : DnsDirector :=
  mkDnsDirector (dd_name d) (dd_hostname d) (dd_port d) (dd_backends d) (dd_resolve_interval d) rr.

(** [lookup_host] is the resolver of the system. *)
Definition DnsDirector_resolve_dns {E} (lookup_host : bytes → result (list SocketAddr) E) (st : backends) (d : DnsDirector) :
    backends * DnsDirector :=
  match lookup_host (dd_hostname d ++ str ":" ++ show_u64 (dd_port d)) with
  | Ok [] => (st, d)
  | Ok addrs =>
      let '(st, new_rr, new_backends) :=
        add_resolved (dd_name d) 0 addrs st (RoundRobin_new (dd_name d ++ str ".rr")) [] in
      (st, swap_sub_director new_rr (swap_backends new_backends d))
  | Err _ => (st, d)
  end.

(** The methods of [Director]. *)
Definition DnsDirector_resolve (st : backends) (d : DnsDirector) : option nat * DnsDirector :=
  let '(r, rr) := RoundRobin_resolve (backend := shared_backend st) (dd_sub_director d) in (r, swap_sub_director rr d).
Definition DnsDirector_healthy (st : backends) (d : DnsDirector) : bool :=
  any_healthy (backend := shared_backend st) (rr_backends (dd_sub_director d)).
Definition DnsDirector_admin_health (d : DnsDirector) : AdminHealth.t := AdminHealth.Probe.
Definition DnsDirector_list (st : backends) (d : DnsDirector) : list DirectorListEntry :=
  list_backends (backend := shared_backend st) show_addr (rr_backends (dd_sub_director d)).

End dns.

(* ------------------------------------------------------------------ *)
(** ** Probing *)

(** The errors of an exchange with a backend. *)
Inductive probe_error : Set := ConnectionError | UnexpectedEof | InvalidStatus | InvalidStatusLine.

(** What the network does: fails, takes longer than the timeout, or returns the bytes
    of a first read, at most 256. *)
Inductive probe_exchange : Set := ExFails | ExTimeout | ExReads (buf : bytes).

(** [splitn(3, ' ')] has two parts or more: its second. *)
Definition second_part (s : bytes) : option bytes :=
  match split_once [x20] s with
  | Some (_, r) => Some match split_once [x20] r with Some (p, _) => p | None => r end
  | None => None
  end.

Section probe.
  Context (from_utf8_lossy : bytes → bytes) (show_addr : SocketAddr → bytes).

Definition probe_request (addr : SocketAddr) (url : bytes) : bytes :=
  str "GET " ++ url ++ str " HTTP/1.1" ++ [x0d; x0a] ++ str "Host: " ++ show_addr addr ++ [x0d; x0a]
  ++ str "Connection: close" ++ [x0d; x0a; x0d; x0a].

Definition parse_probe_response (buf : bytes) : result Z probe_error :=
  match buf with
  | [] => Err UnexpectedEof
  | _ =>
      let response := from_utf8_lossy buf in
      let status_line := default [] (head (str_lines response)) in
      match second_part status_line with
      | Some p => match parse_u16 p with Some code => Ok code | None => Err InvalidStatus end
      | None => Err InvalidStatusLine
      end
  end.

(** The network's answer to the request; [None] when the timeout passes first. *)
Definition probe_backend (net : bytes → probe_exchange) (addr : SocketAddr) (url : bytes) : option (result Z probe_error) :=
  match net (probe_request addr url) with
  | ExFails => Some (Err ConnectionError)
  | ExTimeout => None
  | ExReads buf => Some (parse_probe_response buf)
  end.

Definition execute_probe (net : bytes → probe_exchange) (elapsed : Z) (probe : HealthProbe.t) : ProbeResult :=
  match probe_backend net (HealthProbe.target probe) (HealthProbe.url probe) with
  | Some (Ok status_code) =>
      let is_healthy := (200 <=? status_code) && (status_code <? 400) in
      mkProbeResult (if is_healthy then ProbeStatus.Healthy else ProbeStatus.Sick) elapsed (Some status_code)
  | Some (Err _) => mkProbeResult ProbeStatus.Sick elapsed None
  | None => mkProbeResult ProbeStatus.Sick elapsed None
  end.

(** What wakes the task: the interval passed, with the network's behaviour and the time
    the exchange takes, or the shutdown channel changed to a value. *)
Inductive probe_wake : Type :=
| Tick (net : bytes → probe_exchange) (elapsed : Z)
| Changed (value : bool).

(** The task: the probe as it leaves it, and whether it stopped. *)
Fixpoint probe_task (ws : list probe_wake) (probe : HealthProbe.t) : option (HealthProbe.t * bool) :=
  match ws with
  | [] => Some (probe, false)
  | Tick net elapsed :: ws =>
      probe ← HealthProbe.record_result (execute_probe net elapsed probe) probe;
      probe_task ws probe
  | Changed true :: _ => Some (probe, true)
  | Changed false :: ws => probe_task ws probe
  end.

End probe.

(* ------------------------------------------------------------------ *)
(** ** The addresses are used in turn *)

Section rotation.
  Context (probes : gmap nat HealthProbe.t).

(** The loop adds one healthy backend per address, in order, and touches no other. *)
Lemma add_resolved_spec name addrs : ∀ i st rr bes st' rr' bes',
  add_resolved name i addrs st rr bes = (st', rr', bes') →
  st ⊆ st' ∧ rr_next rr' = rr_next rr
  ∧ ∃ hs, rr_backends rr' = rr_backends rr ++ hs ∧ bes' = bes ++ hs
    ∧ Forall2 (λ h ka, st' !! h = Some (SimpleBackend_new (name ++ str "." ++ show_u64 (Z.of_nat ka.1)) ka.2))
        hs (zip (seq i (length addrs)) addrs).
Proof.
  induction addrs as [|addr addrs IH]; intros i st rr bes st' rr' bes'; cbn [add_resolved].
  - intros [= <- <- <-]. split; [reflexivity|]. split; [reflexivity|]. exists []. split; [symmetry; apply app_nil_r|]. split; [symmetry; apply app_nil_r|constructor].
  - assert (Hbe : st !! fresh (dom st) = None) by (apply not_elem_of_dom, is_fresh).
    revert Hbe. generalize (fresh (dom st)). intros be Hbe H. apply IH in H as (Hst & Hn & hs & Hb & Hbes & HF). split_and!.
    + etrans; [by apply insert_subseteq|exact Hst].
    + by rewrite Hn.
    + exists (be :: hs). cbn [RoundRobin_add_backend rr_backends] in Hb.
      rewrite Hb, Hbes, <- !app_assoc. split; [done|]. split; [done|].
      cbn [length seq zip]. constructor; [|exact HF]. eapply lookup_weaken; [apply lookup_insert_eq|exact Hst].
Qed.

(** With every backend healthy, round robin takes the one at the counter. *)
Lemma round_robin_all_healthy {B} {backend : Backend B} (d : RoundRobin) :
  rr_backends d ≠ [] → 0 ≤ rr_next d → Forall (λ b, be_is_healthy b = true) (rr_backends d) →
  RoundRobin_resolve d
  = (rr_backends d !! (Z.to_nat (rr_next d) mod length (rr_backends d))%nat,
     mkRoundRobin (rr_name d) (rr_backends d) (u64_wrap (rr_next d + 1))).
Proof.
  intros Hne Hn HF. unfold RoundRobin_resolve.
  destruct (rr_backends d) as [|b bs] eqn:E; [done|]. rewrite <- E in *. clear E.
  set (l := rr_backends d) in *.
  assert (Hl : (0 < length l)%nat) by (destruct l; [done|simpl; lia]).
  destruct (length l) as [|n] eqn:El; [lia|]. cbn [rr_loop]. rewrite El.
  assert (Z.to_nat (rr_next d mod Z.of_nat (S n)) = (Z.to_nat (rr_next d) mod S n)%nat) as ->.
  { rewrite <-(Z2Nat.id (rr_next d)) at 1 by done. by rewrite <-Nat2Z.inj_mod, Nat2Z.id. }
  destruct (lookup_lt_is_Some_2 l (Z.to_nat (rr_next d) mod S n)) as [x Hx]; [rewrite El; apply Nat.mod_upper_bound; lia|].
  rewrite Hx. assert (be_is_healthy x = true) as -> by exact (Forall_lookup_1 _ l _ x HF Hx). done.
Qed.

Fixpoint after_resolves (k : nat) (st : backends) (d : DnsDirector) : DnsDirector :=
  match k with
  | O => d
  | S k => after_resolves k st (DnsDirector_resolve probes st d).2
  end.

(** The address the director gives. *)
Definition resolved_addr (st : backends) (d : DnsDirector) : option SocketAddr :=
  match (DnsDirector_resolve probes st d).1 with
  | Some h => sb_addr <$> st !! h
  | None => None
  end.

(** A director whose round robin holds healthy backends of these addresses, with its
    counter at [n]. *)
Definition rotates (st : backends) (d : DnsDirector) (addrs : list SocketAddr) (n : Z) : Prop :=
  rr_next (dd_sub_director d) = n
  ∧ Forall2 (λ h addr, ∃ name, st !! h = Some (SimpleBackend_new name addr)) (rr_backends (dd_sub_director d)) addrs.

Lemma rotates_resolve st d addrs n :
  addrs ≠ [] → 0 ≤ n → rotates st d addrs n →
  resolved_addr st d = addrs !! (Z.to_nat n mod length addrs)%nat
  ∧ rotates st (DnsDirector_resolve probes st d).2 addrs (u64_wrap (n + 1)).
Proof.
  intros Hne Hn [Hnext HF]. pose proof (Forall2_length _ _ _ HF) as Hlen.
  assert (E : RoundRobin_resolve (backend := shared_backend probes st) (dd_sub_director d)
    = (rr_backends (dd_sub_director d) !! (Z.to_nat n mod length addrs)%nat,
       mkRoundRobin (rr_name (dd_sub_director d)) (rr_backends (dd_sub_director d)) (u64_wrap (n + 1)))).
  { rewrite round_robin_all_healthy; [by rewrite Hnext, Hlen| |lia|].
    - intros E. rewrite E in HF. by apply Forall2_nil_inv_l in HF.
    - eapply Forall2_Forall_l; [exact HF|]. apply Forall_true. intros addr h [name Hh]. cbn. by rewrite Hh. }
  unfold resolved_addr, DnsDirector_resolve. rewrite E. cbn [fst snd]. split; [|split; [done|exact HF]].
  destruct (lookup_lt_is_Some_2 addrs (Z.to_nat n mod length addrs)) as [a Ha];
    [apply Nat.mod_upper_bound; destruct addrs; [done|simpl; lia]|].
  destruct (Forall2_lookup_r _ _ _ _ _ HF Ha) as (h & Hh & name & Hst). by rewrite Hh, Ha, Hst.
Qed.

Lemma rotates_after st addrs k : ∀ d n,
  addrs ≠ [] → 0 ≤ n → n + Z.of_nat k ≤ u64_max → rotates st d addrs n → rotates st (after_resolves k st d) addrs (n + Z.of_nat k).
Proof.
  induction k as [|k IH]; intros d n Hne Hn Hk Hr; cbn [after_resolves]; [by rewrite Z.add_0_r|].
  destruct (rotates_resolve st d addrs n Hne Hn Hr) as [_ Hr']. rewrite u64_wrap_small in Hr' by lia.
  replace (n + Z.of_nat (S k)) with (n + 1 + Z.of_nat k) by lia. apply IH; [done|lia|lia|exact Hr'].
Qed.

(** A resolution changes the director to exactly the addresses found: the director
    gives them in turn, in the order of the resolver, over and over; the backends
    listed are those it gives.  A resolution that fails or finds nothing changes
    nothing, and the backends already handed out stay as they were. *)
Theorem dns_rotation {E} (lookup_host : bytes → result (list SocketAddr) E) st d :
  let '(st', d') := DnsDirector_resolve_dns lookup_host st d in
  st ⊆ st'
  ∧ match lookup_host (dd_hostname d ++ str ":" ++ show_u64 (dd_port d)) with
    | Ok ((_ :: _) as addrs) =>
        dd_backends d' = rr_backends (dd_sub_director d')
        ∧ ∀ k, Z.of_nat k ≤ u64_max →
            resolved_addr st' (after_resolves k st' d') = addrs !! (k mod length addrs)%nat
    | _ => st' = st ∧ d' = d
    end.
Proof.
  unfold DnsDirector_resolve_dns. destruct (lookup_host _) as [[|addr addrs]|e]; [done| |done].
  destruct (add_resolved _ _ _ _ _ _) as [[st' rr] bes] eqn:Ea.
  apply add_resolved_spec in Ea as (Hst & Hn & hs & Hb & -> & HF). cbn [RoundRobin_new rr_backends app] in Hb. subst hs.
  split; [exact Hst|]. split; [done|]. intros k Hk.
  set (d' := swap_sub_director rr _). assert (Hr : rotates st' d' (addr :: addrs) 0).
  { split; [done|]. cbn. apply Forall2_same_length_lookup. pose proof (Forall2_length _ _ _ HF) as Hlen.
    rewrite length_zip, length_seq, Nat.min_id in Hlen. split; [done|]. intros i h a Hh Ha.
    destruct (Forall2_lookup_l _ _ _ _ _ HF Hh) as ([j a'] & Hz & Hs). apply lookup_zip_Some in Hz as [_ Hz]. cbn in Hs.
    rewrite Ha in Hz. injection Hz as <-. by eexists. }
  apply (rotates_after _ _ k) in Hr; [|discriminate|lia|lia].
  destruct (rotates_resolve st' _ (addr :: addrs) (0 + Z.of_nat k) ltac:(discriminate) ltac:(lia) Hr) as [-> _]. by rewrite Z.add_0_l, Nat2Z.id.
Qed.
End rotation.

(* ------------------------------------------------------------------ *)
(** ** What a probe sees *)

(** What the standard library documents of [String::from_utf8_lossy]: valid parts are
    kept, here an ASCII beginning. *)
Class Utf8Lossy (from_utf8_lossy : bytes → bytes) : Prop := {
  lossy_nil : from_utf8_lossy [] = [];
  lossy_ascii a b : Forall (λ c, byte_in 0 127 c = true) a → from_utf8_lossy (a ++ b) = a ++ from_utf8_lossy b;
}.

Lemma second_part_word s w : second_part s = Some w ↔ second_word s w.
Proof.
  unfold second_part, second_word. split.
  - destruct (decide (x20 ∈ s)) as [Hin|Hout]; [|by rewrite split_once_byte_None].
    apply list_elem_of_split_l in Hin as (a & r & -> & Ha). rewrite split_once_byte_Some by done.
    destruct (decide (x20 ∈ r)) as [Hin|Hout].
    + apply list_elem_of_split_l in Hin as (b & t & -> & Hb). rewrite split_once_byte_Some by done.
      intros [= <-]. exists a, (x20 :: t). by eauto.
    + rewrite split_once_byte_None by done. intros [= <-]. exists a, []. rewrite app_nil_r. by eauto.
  - intros (a & rest & -> & Ha & Hw & Hr). rewrite split_once_byte_Some by done. destruct Hr as [->|Hr].
    + rewrite app_nil_r. by rewrite split_once_byte_None.
    + destruct rest as [|c t]; [done|]. injection Hr as ->. by rewrite split_once_byte_Some.
Qed.

Section probing.
  Context (from_utf8_lossy : bytes → bytes) `{lossy : !Utf8Lossy from_utf8_lossy} (show_addr : SocketAddr → bytes).

(** The second word of the text's first line is the number [code]. *)
Definition answers_code (text : bytes) (code : Z) : Prop :=
  ∃ line word, first_line text line ∧ second_word line word ∧ numeral word code ∧ code ≤ u16_max.

(** The exchange counts for the backend: the first read brings a text that answers with
    a code from 200 to 399. *)
Definition good_exchange (e : probe_exchange) : Prop :=
  match e with
  | ExReads buf => ∃ code, answers_code (from_utf8_lossy buf) code ∧ 200 ≤ code ≤ 399
  | ExFails | ExTimeout => False
  end.

Lemma parse_probe_code buf code :
  parse_probe_response from_utf8_lossy buf = Ok code ↔ answers_code (from_utf8_lossy buf) code.
Proof.
  unfold parse_probe_response, answers_code. destruct buf as [|b buf].
  { rewrite lossy_nil. split; [done|]. intros (line & word & Hl & (a & r & -> & _) & _).
    apply str_lines_head in Hl. cbn in Hl. by destruct a. }
  set (text := from_utf8_lossy (b :: buf)). split.
  - intros H. exists (default [] (head (str_lines text))). destruct (second_part _) as [w|] eqn:Ew; [|done].
    apply second_part_word in Ew. destruct (parse_u16 w) as [n|] eqn:En; [|done]. injection H as ->.
    apply parse_uint_iff in En as [Hn Hm]; [|unfold u16_max; lia]. exists w. by rewrite str_lines_head.
  - intros (line & word & Hl & Hw & Hn). apply str_lines_head in Hl. rewrite Hl. apply second_part_word in Hw. rewrite Hw.
    unfold parse_u16. by rewrite (proj2 (parse_uint_iff u16_max word code ltac:(unfold u16_max; lia)) Hn).
Qed.

Lemma execute_probe_good net elapsed p :
  good (execute_probe from_utf8_lossy show_addr net elapsed p) = true
  ↔ good_exchange (net (probe_request show_addr (HealthProbe.target p) (HealthProbe.url p))).
Proof.
  unfold execute_probe, probe_backend, good_exchange, good. destruct (net _) as [| |buf]; [done..|].
  split.
  - destruct (parse_probe_response from_utf8_lossy buf) as [code|e] eqn:E; [|done]. intros H. exists code.
    split; [by apply parse_probe_code|]. destruct ((200 <=? code) && (code <? 400)) eqn:Ec; [|done]. bool_to_prop. lia.
  - intros (code & Hc%parse_probe_code & Hr). rewrite Hc. rewrite (proj2 (Z.leb_le _ _)), (proj2 (Z.ltb_lt _ _)) by lia. done.
Qed.

(** The beginning of a status line, up to the code: [d] is its text, or a part of it. *)
Definition status_start (v : HttpVersion) (d : bytes) : bytes := HttpVersion_as_str v ++ x20 :: d.

Lemma version_graphic v : Forall ascii_graphic (HttpVersion_as_str v).
Proof. destruct v; (apply (bool_decide_unpack _); vm_compute; exact I). Qed.

Lemma graphic_byte_in s : Forall ascii_graphic s → Forall (λ c, byte_in 0 127 c = true) s.
Proof.
  intros Hs. eapply Forall_impl; [exact Hs|]. unfold ascii_graphic, byte_in. intros c Hb. apply andb_true_intro.
  split; apply Z.leb_le; lia.
Qed.

Lemma text_notin c s : Forall ascii_graphic s → bool_decide (ascii_graphic c) = false → (c ∉ s).
Proof. intros Hs Hc Hin. rewrite Forall_forall in Hs. specialize (Hs _ Hin). by rewrite bool_decide_true in Hc. Qed.

(** A read that holds the status line up to the space after the code. *)
Lemma whole_code_word v c t :
  0 ≤ c ≤ u64_max →
  ∃ line, first_line (from_utf8_lossy (status_start v (show_u64 c ++ x20 :: t))) line ∧ second_part line = Some (show_u64 c).
Proof.
  intros Hc. pose proof (show_u64_graphic _ Hc) as Hg. pose proof (version_graphic v) as Hv.
  set (a := HttpVersion_as_str v ++ x20 :: show_u64 c ++ [x20]).
  replace (status_start v (show_u64 c ++ x20 :: t)) with (a ++ t)
    by (unfold a, status_start; rewrite <- app_assoc; cbn; by rewrite <- app_assoc).
  rewrite lossy_ascii.
  2: { unfold a. rewrite Forall_app, Forall_cons, Forall_app.
       split_and!; [by apply graphic_byte_in|done|by apply graphic_byte_in|by repeat constructor]. }
  set (text := a ++ from_utf8_lossy t). exists (default [] (head (str_lines text))).
  assert (Hl : first_line text (default [] (head (str_lines text)))) by by apply str_lines_head. split; [exact Hl|].
  apply first_line_prefix in Hl as [t' ->].
  2,3: unfold a; rewrite not_elem_of_app, not_elem_of_cons, not_elem_of_app;
       split_and!; [by apply text_notin|done|by apply text_notin|set_solver].
  unfold second_part, a. rewrite <- app_assoc. cbn [app].
  rewrite split_once_byte_Some by by apply text_notin. rewrite <- app_assoc. cbn [app].
  by rewrite split_once_byte_Some by by apply text_notin.
Qed.

Lemma whole_status_line v c t :
  0 ≤ c ≤ u16_max → good_exchange (ExReads (status_start v (show_u64 c ++ x20 :: t))) ↔ 200 ≤ c ≤ 399.
Proof.
  intros Hc. destruct (whole_code_word v c t) as (line & Hl & Hw); [unfold u16_max, u64_max in *; lia|].
  assert (Hn : parse_uint u16_max (show_u64 c) = Some c) by (apply parse_show_uint; unfold u16_max, u64_max in *; lia).
  split.
  - intros (code & (line' & word & Hl' & Hw' & Hn') & Hr). apply str_lines_head in Hl, Hl'. rewrite Hl in Hl'. subst line'.
    apply second_part_word in Hw'. rewrite Hw in Hw'. injection Hw' as <-.
    apply parse_uint_iff in Hn'; [|unfold u16_max; lia]. rewrite Hn in Hn'. by injection Hn' as <-.
  - intros Hr. exists c. split; [|done]. exists line, (show_u64 c). split_and!; [done|by apply second_part_word|..].
    + by apply (parse_uint_iff u16_max); [unfold u16_max; lia|].
    + lia.
Qed.

(** A read that brings graphic characters only, and no space in them but one: the code
    has no more digits than follow it. *)
Lemma part_of_code v d code :
  Forall ascii_graphic d → answers_code (from_utf8_lossy (status_start v d)) code → code < 10 ^ len d.
Proof.
  intros Hd (line & word & Hl & Hw & Hn & _). pose proof (version_graphic v) as Hv.
  rewrite <- (app_nil_r (status_start v d)), lossy_ascii, lossy_nil, app_nil_r in Hl.
  2: { unfold status_start. rewrite Forall_app, Forall_cons. split_and!; [by apply graphic_byte_in|done|by apply graphic_byte_in]. }
  assert (Hline : line = status_start v d).
  { apply str_lines_head in Hl. rewrite <- Hl. apply str_lines_head. constructor. unfold status_start.
    rewrite not_elem_of_app, not_elem_of_cons. split_and!; [by apply text_notin|done|by apply text_notin]. }
  subst line. apply second_part_word in Hw. unfold second_part, status_start in Hw.
  rewrite split_once_byte_Some in Hw by by apply text_notin. rewrite split_once_byte_None in Hw by by apply text_notin.
  injection Hw as <-. by apply numeral_lt.
Qed.

Lemma no_code s code : Forall ascii_graphic s → answers_code (from_utf8_lossy s) code → False.
Proof.
  intros Hs (line & word & Hl & Hw & _). rewrite <- (app_nil_r s), lossy_ascii, lossy_nil, app_nil_r in Hl by by apply graphic_byte_in.
  assert (Hline : line = s) by (apply str_lines_head in Hl; rewrite <- Hl; apply str_lines_head; constructor; by apply text_notin).
  subst line. destruct Hw as (a & r & -> & _). eapply (text_notin x20); [exact Hs|done|set_solver].
Qed.

(** A first read that stops inside the status line before the end of a code of three
    digits counts against the backend. *)
Lemma split_status_line v c k :
  100 ≤ c ≤ 999 → (k < length (status_start v (show_u64 c)))%nat → ¬ good_exchange (ExReads (take k (status_start v (show_u64 c)))).
Proof.
  intros Hc Hk (code & Ha & Hr). pose proof (version_graphic v) as Hv.
  assert (Hg : Forall ascii_graphic (show_u64 c)) by (apply show_u64_graphic; unfold u64_max; lia).
  unfold status_start in Ha, Hk. destruct (decide (k ≤ length (HttpVersion_as_str v))%nat) as [Hle|Hgt].
  - rewrite take_app_le in Ha by done. eapply no_code; [|exact Ha]. by apply Forall_take.
  - rewrite take_app_ge in Ha by lia. destruct (k - _)%nat as [|j] eqn:Ej; [lia|]. cbn [take] in Ha.
    apply (part_of_code v (take j (show_u64 c))) in Ha; [|by apply Forall_take].
    rewrite length_app in Hk. cbn [length] in Hk. rewrite show_u64_three in Hk by done.
    unfold len in Ha. rewrite length_take, show_u64_three in Ha by done.
    assert (10 ^ Z.of_nat (j `min` 3) ≤ 10 ^ 2) by (apply Z.pow_le_mono_r; lia). lia.
Qed.

(** The task's probe keeps its target and URL. *)
Lemma record_result_target r p p' :
  HealthProbe.record_result r p = Some p' →
  HealthProbe.target p' = HealthProbe.target p ∧ HealthProbe.url p' = HealthProbe.url p.
Proof.
  unfold HealthProbe.record_result. destruct (_ =? 0); [done|]. destruct (_ <? _)%nat; [|done]. by intros [= <-].
Qed.

(** A tick of the task, and whether the exchange of its probe counts for the backend. *)
Definition tick_ok (tg : SocketAddr) (u : bytes) (b : bool) (w : probe_wake) : Prop :=
  match w with
  | Tick net _ => b = true ↔ good_exchange (net (probe_request show_addr tg u))
  | Changed _ => False
  end.

(** The ticks record the results of the exchanges. *)
Lemma probe_task_records tg u bs ws : Forall2 (tick_ok tg u) bs ws → ∀ p,
  HealthProbe.target p = tg → HealthProbe.url p = u →
  ∃ rs, good <$> rs = bs
    ∧ ∀ more, probe_task from_utf8_lossy show_addr (ws ++ more) p
              = match record_all rs p with
                | Some p' => probe_task from_utf8_lossy show_addr more p'
                | None => None
                end.
Proof.
  induction 1 as [|b w bs ws Hw Hws IH]; intros p Ht Hu; [by exists []|].
  destruct w as [net elapsed|v]; [|done]. cbn [tick_ok] in Hw.
  assert (Hg : good (execute_probe from_utf8_lossy show_addr net elapsed p) = b).
  { apply eq_true_iff_eq. by rewrite execute_probe_good, Ht, Hu, Hw. }
  set (r := execute_probe from_utf8_lossy show_addr net elapsed p) in *.
  destruct (HealthProbe.record_result r p) as [p1|] eqn:Er.
  - destruct (record_result_target _ _ _ Er) as [Ht1 Hu1].
    destruct (IH p1) as (rs & Hrs & Hrun); [congruence..|]. exists (r :: rs).
    split; [by rewrite fmap_cons, Hg, Hrs|]. intros more. cbn [app probe_task record_all]. fold r. rewrite Er. apply Hrun.
  - destruct (IH p) as (rs & Hrs & _); [done..|]. exists (r :: rs). split; [by rewrite fmap_cons, Hg, Hrs|].
    intros more. cbn [app probe_task record_all]. fold r. by rewrite Er.
Qed.

(** C37. Probing decides a backend's health by what its answers bring in their first
    read: after any number of intervals, the last of them included in the window, the
    backend counts as healthy exactly when at least [threshold] of its last [window]
    exchanges were good ones, and the task stops at the shutdown signal and not
    before.  An exchange is good exactly when there is no error and no timeout and the
    second word of the first line of what was read is a number from 200 to 399.  For a
    response whose status line was read up to the space after the code, that is when
    its status is from 200 to 399; when the read stops earlier inside a status line
    with a code of three digits, the exchange counts against the backend whatever the
    status.  Nothing else of the line is looked at. *)
Theorem probe_health tg u iv tmo th w bs ws :
  0 < w ≤ u32_max → bs ≠ [] → Z.of_nat (length bs) ≤ u64_max → Forall2 (tick_ok tg u) bs ws →
  (∃ p, probe_task from_utf8_lossy show_addr ws (HealthProbe.new tg u iv tmo th w) = Some (p, false)
    ∧ HealthProbe.is_healthy p = (th <=? Z.of_nat (length (filter (λ b, b = true) (lastn (Z.to_nat w) bs))))
    ∧ ∀ more, probe_task from_utf8_lossy show_addr (ws ++ Changed true :: more) (HealthProbe.new tg u iv tmo th w) = Some (p, true))
  ∧ (∀ v c t, 0 ≤ c ≤ u16_max →
       good_exchange (ExReads (status_start v (show_u64 c ++ x20 :: t))) ↔ 200 ≤ c ≤ 399)
  ∧ (∀ v c k, 100 ≤ c ≤ 999 → (k < length (status_start v (show_u64 c)))%nat →
       ¬ good_exchange (ExReads (take k (status_start v (show_u64 c))))).
Proof.
  intros Hw Hne Hlen HF. split_and!; [|by apply whole_status_line|by apply split_status_line].
  destruct (probe_task_records tg u bs ws HF (HealthProbe.new tg u iv tmo th w) eq_refl eq_refl) as (rs & Hrs & Hrun).
  assert (Hl : length rs = length bs) by (by rewrite <- Hrs, length_fmap).
  assert (Hrne : rs ≠ []) by (intros ->; by destruct bs).
  destruct (health_window tg u iv tmo th w rs Hw Hrne) as (p & Hp & Hh & _); [lia|].
  exists p. pose proof (Hrun []) as H0. rewrite app_nil_r, Hp in H0. split; [exact H0|].
  split; [|intros more; by rewrite Hrun, Hp]. rewrite Hh. f_equal. f_equal. unfold good_in, HealthProbe.count_true, lastn.
  by rewrite fmap_drop, Hrs, Hl.
Qed.
End probing.

(* ------------------------------------------------------------------ *)
(** ** Examples *)

(** A reading that replaces every byte that is not ASCII. *)
Definition replace_lossy (s : bytes) : bytes := mjoin ((λ b, if byte_in 0 127 b then [b] else [xef; xbf; xbd]) <$> s).

#[global] Instance replace_lossy_ascii : Utf8Lossy replace_lossy.
Proof.
  split; [done|]. intros a b Ha. induction Ha as [|c a Hc _ IH]; [done|].
  unfold replace_lossy in *. cbn [app fmap list_fmap mjoin]. rewrite Hc. cbn [app mjoin list_join] in *. by rewrite IH.
Qed.

Definition local_addr : SocketAddr := mkSocketAddr (V4 2130706433) 80.
(** What the first read brings decides: a status line cut off in its code is sick, and
    a line that is no status line can be healthy. *)
Example read_codes :
  (parse_probe_response replace_lossy <$>
     [str "HTTP/1.1 200 OK"; str "HTTP/1.1 20"; str "HTTP/1."; str "x 200 y"; str "HTTP/1.1 +0200"; str "HTTP/1.1 200" ++ [x0d]])
  = [Ok 200; Ok 20; Err InvalidStatusLine; Ok 200; Ok 200; Err InvalidStatus].
Proof. vm_compute. reflexivity. Qed.

Definition sample_wakes : list probe_wake :=
  [Tick (λ _, ExReads (str "HTTP/1.1 200 OK" ++ [x0d; x0a] ++ str "Server: x")) 5; Tick (λ _, ExTimeout) 9;
   Tick (λ _, ExReads (str "HTTP/1.1 503 ")) 5; Tick (λ _, ExReads (str "HTTP/1.1 20")) 5].

Lemma probe_health_witness :
  ∃ p, probe_task replace_lossy (λ _, []) sample_wakes (HealthProbe.new local_addr (str "/") 5 1 2 3) = Some (p, false)
    ∧ HealthProbe.is_healthy p = false
    ∧ ∀ more, probe_task replace_lossy (λ _, []) (sample_wakes ++ Changed true :: more)
                (HealthProbe.new local_addr (str "/") 5 1 2 3) = Some (p, true).
Proof.
  apply (probe_health replace_lossy (λ _, []) local_addr (str "/") 5 1 2 3 [true; false; false; false] sample_wakes).
  - split; [reflexivity|discriminate].
  - discriminate.
  - discriminate.
  - unfold sample_wakes. repeat constructor; cbn [good_exchange]; try done.
    + intros _. apply (whole_status_line replace_lossy Http11 200); split; discriminate.
    + intros H. apply (whole_status_line replace_lossy Http11 503) in H; [lia|]. split; discriminate.
    + intros H. exfalso. revert H. apply (split_status_line replace_lossy Http11 200 11); [lia|]. apply (bool_decide_unpack _). vm_compute. exact I.
Defined.

(** Three resolutions of a host: two addresses, a failure, one address. *)
Example sample_resolutions :
  let host := DnsDirector_new (str "be") (str "backend.example.com") 8080 30 in
  let a := mkSocketAddr (V4 1) 8080 in
  let b := mkSocketAddr (V4 2) 8080 in
  let '(st, d) := DnsDirector_resolve_dns (E := unit) (λ _, Ok [a; b]) ∅ host in
  let '(st, d) := DnsDirector_resolve_dns (λ _, Err tt) st d in
  (λ k, resolved_addr ∅ st (after_resolves ∅ k st d)) <$> [0; 1; 2]%nat = [Some a; Some b; Some a]
  ∧ let '(st, d) := DnsDirector_resolve_dns (E := unit) (λ _, Ok [b]) st (after_resolves ∅ 3 st d) in
    (λ k, resolved_addr ∅ st (after_resolves ∅ k st d)) <$> [0; 1]%nat = [Some b; Some b].
Proof. vm_compute. split; reflexivity. Qed.
