(* ===== verification/ConnPool.v ===== *)
(** * The pool of backend connections

    Models [rv-backend/src/connection.rs]: idle streams by remote address, pruned
    by age, with a bound on their number.  A stream is its identity; the clock
    counts nanoseconds.  [get] has two atomic parts, the work under the entry's
    lock and the removal of an emptied entry after the lock is released.

    The specification sees the pool as the multiset of its connections. *)

From S2P Require Import Prelude Backend.
From stdpp Require Import sorting.
Local Open Scope Z_scope.

Record PooledConnection : Set := mkPooled {
  pc_stream : nat;
  pc_addr : SocketAddr;
  pc_created : Z;
  pc_last_used : Z;
}.

Abbreviation queues := (gmap SocketAddr (list PooledConnection)).

(** [DashMap::iter]: every entry once, in some order. *)
Class DashIter := {
  dash_iter : queues → list (SocketAddr * list PooledConnection);
  dash_iter_perm m : dash_iter m ≡ₚ map_to_list m;
}.

Record ConnectionPool : Type := mkPool {
  cp_max_connections : Z;
  cp_idle_timeout : Z;
  cp_connections : queues;
  cp_total : Z;
}.

Definition ConnectionPool_new (max_connections idle_timeout : Z) : ConnectionPool :=
  mkPool max_connections idle_timeout ∅ 0.

Definition with_queues (qs : queues) (total : Z) (p : ConnectionPool) : ConnectionPool :=
  mkPool (cp_max_connections p) (cp_idle_timeout p) qs (u64_wrap total).

(** [now.duration_since(last_used) >= idle_timeout]; the difference saturates. *)
Definition pc_expired (now idle : Z) (pc : PooledConnection) : bool :=
  idle <=? saturating_sub now (pc_last_used pc).

(** The loop that prunes the front of a queue. *)
Fixpoint prune_front (now idle : Z) (queue : list PooledConnection) : Z * list PooledConnection :=
  match queue with
  | front :: queue' =>
      if pc_expired now idle front then
        let '(n, q) := prune_front now idle queue' in (n + 1, q)
      else (0, queue)
  | [] => (0, [])
  end.

(** The part of [get] under the entry's lock: the stream found, the pool, and
    whether the entry is to be removed once the lock is released. *)
Definition get_locked (addr : SocketAddr) (now : Z) (p : ConnectionPool) : option nat * ConnectionPool * bool :=
  match cp_connections p !! addr with
  | None => (None, p, false)
  | Some queue =>
      let '(expired_count, queue) := prune_front now (cp_idle_timeout p) queue in
      let total := cp_total p - expired_count in
      match last queue with
      | Some pc =>
          let queue := take (length queue - 1) queue in
          (Some (pc_stream pc),
           with_queues (<[addr := queue]> (cp_connections p)) (total - 1) p,
           bool_decide (queue = []))
      | None => (None, with_queues (<[addr := queue]> (cp_connections p)) total p, true)
      end
  end.

Definition get_remove (addr : SocketAddr) (p : ConnectionPool) : ConnectionPool :=
  mkPool (cp_max_connections p) (cp_idle_timeout p) (delete addr (cp_connections p)) (cp_total p).

Definition ConnectionPool_get (addr : SocketAddr) (now : Z) (p : ConnectionPool) : option nat * ConnectionPool :=
  let '(s, p, emptied) := get_locked addr now p in
  (s, if emptied then get_remove addr p else p).

Section pool.
Context {iter : DashIter}.

(** The entry whose front is the oldest, the first of them in iteration order. *)
Definition oldest_step (best : option (SocketAddr * Z)) (e : SocketAddr * list PooledConnection)
    : option (SocketAddr * Z) :=
  match e.2 with
  | [] => best
  | front :: _ =>
      let dominated := match best with None => true | Some (_, t) => pc_last_used front <? t end in
      if dominated then Some (e.1, pc_last_used front) else best
  end.

Definition evict_one (p : ConnectionPool) : ConnectionPool :=
  match foldl oldest_step None (dash_iter (cp_connections p)) with
  | None => p
  | Some (addr, _) =>
      match cp_connections p !! addr with
      | Some (_ :: queue) =>
          with_queues (if decide (queue = []) then delete addr (cp_connections p)
                       else <[addr := queue]> (cp_connections p)) (cp_total p - 1) p
      | _ => p
      end
  end.

Definition ConnectionPool_put (addr : SocketAddr) (stream : nat) (now : Z) (p : ConnectionPool) : ConnectionPool :=
  let p := if cp_max_connections p <=? cp_total p then evict_one p else p in
  let pc := mkPooled stream addr now now in
  with_queues (<[addr := default [] (cp_connections p !! addr) ++ [pc]]> (cp_connections p)) (cp_total p + 1) p.

Definition ConnectionPool_len (p : ConnectionPool) : Z := cp_total p.
Definition ConnectionPool_is_empty (p : ConnectionPool) : bool := cp_total p =? 0.

(** [queue.retain(..)] over every entry, then the removal of the empty ones. *)
Definition retain_fresh (now idle : Z) (q : list PooledConnection) : list PooledConnection :=
  filter (λ pc, pc_expired now idle pc = false) q.

Definition removed_by (now idle : Z) (es : list (SocketAddr * list PooledConnection)) : Z :=
  foldl (λ n e, n + (Z.of_nat (length e.2) - Z.of_nat (length (retain_fresh now idle e.2)))) 0 es.

Definition ConnectionPool_cleanup (now : Z) (p : ConnectionPool) : ConnectionPool :=
  let idle := cp_idle_timeout p in
  let removed := removed_by now idle (dash_iter (cp_connections p)) in
  let qs := filter (λ e, e.2 ≠ []) (retain_fresh now idle <$> cp_connections p) in
  with_queues qs (if 0 <? removed then cp_total p - removed else cp_total p) p.

End pool.

(* ------------------------------------------------------------------ *)
(** ** The pool as a multiset *)

Definition entries (m : queues) : list PooledConnection := concat (snd <$> map_to_list m).

Lemma entries_lookup m k q : m !! k = Some q → entries m ≡ₚ q ++ entries (delete k m).
Proof. intros Hk. unfold entries. by rewrite <-(map_to_list_delete m k q Hk). Qed.

Lemma entries_insert m k q : entries (<[k := q]> m) ≡ₚ q ++ entries (delete k m).
Proof. rewrite (entries_lookup _ k q) by apply lookup_insert_eq. by rewrite delete_insert_eq. Qed.

Lemma entries_split m k : entries m ≡ₚ default [] (m !! k) ++ entries (delete k m).
Proof.
  destruct (m !! k) as [q|] eqn:E; [by apply entries_lookup|]. by rewrite delete_id.
Qed.

Lemma elem_of_entries m pc : pc ∈ entries m ↔ ∃ k q, m !! k = Some q ∧ pc ∈ q.
Proof.
  unfold entries. rewrite list_elem_of_In, List.in_concat. split.
  - intros (q & Hq & Hpc). apply list_elem_of_In, list_elem_of_fmap in Hq as ([k q'] & -> & Hk).
    apply elem_of_map_to_list in Hk. exists k, q'. split; [done|]. by apply list_elem_of_In.
  - intros (k & q & Hk & Hpc). exists q. split; [|by apply list_elem_of_In].
    apply list_elem_of_In, list_elem_of_fmap. exists (k, q). split; [done|]. by apply elem_of_map_to_list.
Qed.

(** What holds of the pool at time [now]. *)
Record pool_ok (now : Z) (p : ConnectionPool) : Prop := {
  po_max : 0 ≤ cp_max_connections p ≤ u64_max;
  po_addr : ∀ k q pc, cp_connections p !! k = Some q → pc ∈ q → pc_addr pc = k ∧ pc_last_used pc ≤ now;
  po_sorted : ∀ k q, cp_connections p !! k = Some q → StronglySorted (λ a b, pc_last_used a ≤ pc_last_used b) q;
  po_nonempty : ∀ k, cp_connections p !! k ≠ Some [];
  po_total : cp_total p = Z.of_nat (length (entries (cp_connections p)));
  po_bound : cp_total p ≤ Z.max 1 (cp_max_connections p);
}.

Lemma pool_ok_later now now' p : pool_ok now p → now ≤ now' → pool_ok now' p.
Proof.
  intros [Hm Ha Hs Hn Ht Hb] Hle. split; try done.
  intros k q pc Hk Hpc. destruct (Ha k q pc Hk Hpc). split; [done|lia].
Qed.

Lemma pool_ok_new max idle now : 0 ≤ max ≤ u64_max → pool_ok now (ConnectionPool_new max idle).
Proof. intros H. split; simpl; try done. lia. Qed.

Lemma rest_addr now p k pc :
  pool_ok now p → pc ∈ entries (delete k (cp_connections p)) → pc_addr pc ≠ k.
Proof.
  intros Hp (k' & q & [Hne Hk]%lookup_delete_Some & Hpc)%elem_of_entries. by destruct (po_addr _ _ Hp k' q pc Hk Hpc) as [-> _].
Qed.

(** Replacing a queue by a sublist of it, or removing an emptied one. *)
Definition set_queue (k : SocketAddr) (q : list PooledConnection) (m : queues) : queues :=
  if decide (q = []) then delete k m else <[k := q]> m.

Lemma entries_set_queue k q m : entries (set_queue k q m) ≡ₚ q ++ entries (delete k m).
Proof. unfold set_queue. case_decide as E; [by rewrite E|apply entries_insert]. Qed.

Lemma pool_ok_set_queue now p k q total :
  pool_ok now p →
  (∀ pc, pc ∈ q → pc_addr pc = k ∧ pc_last_used pc ≤ now) →
  StronglySorted (λ a b, pc_last_used a ≤ pc_last_used b) q →
  total = Z.of_nat (length (entries (set_queue k q (cp_connections p)))) →
  total ≤ Z.max 1 (cp_max_connections p) →
  pool_ok now (with_queues (set_queue k q (cp_connections p)) total p)
  ∧ cp_total (with_queues (set_queue k q (cp_connections p)) total p) = total.
Proof.
  intros Hp Hq Hsq Ht Hb. pose proof (po_max _ _ Hp) as Hmax. unfold u64_max in Hmax.
  assert (u64_wrap total = total) as Hw by (apply u64_wrap_small; unfold u64_max; lia).
  assert (∀ k' q', set_queue k q (cp_connections p) !! k' = Some q' →
    (k' = k ∧ q' = q ∧ q ≠ []) ∨ cp_connections p !! k' = Some q') as Hlk.
  { intros k' q'. unfold set_queue. case_decide; [rewrite lookup_delete_Some; naive_solver|].
    rewrite lookup_insert_Some. naive_solver. }
  split; [|done]. split; simpl; rewrite ?Hw; try done.
  - intros k' q' pc [(-> & -> & _)|Hk]%Hlk; [apply Hq|by apply (po_addr _ _ Hp)].
  - intros k' q' [(-> & -> & _)|Hk]%Hlk; [done|by apply (po_sorted _ _ Hp k')].
  - intros k' [(_ & E & Hne)|Hk]%Hlk; [by rewrite <-E in Hne|by apply (po_nonempty _ _ Hp k')].
Qed.

(** *** The loops *)

Lemma expired_mono now idle a b :
  pc_last_used a ≤ pc_last_used b → pc_expired now idle a = false → pc_expired now idle b = false.
Proof. unfold pc_expired, saturating_sub. rewrite !Z.leb_gt. lia. Qed.

Lemma filter_keep_all {A} (P : A → Prop) `{∀ x, Decision (P x)} (l : list A) :
  (∀ x, x ∈ l → P x) → filter P l = l.
Proof.
  induction l as [|x l IH]; intros HP; [done|]. rewrite filter_cons, decide_True by (apply HP; by left).
  f_equal. apply IH. intros y Hy. apply HP. by right.
Qed.

(** On a sorted queue, pruning the front drops every expired connection. *)
Lemma prune_front_spec now idle q :
  StronglySorted (λ a b, pc_last_used a ≤ pc_last_used b) q →
  prune_front now idle q
  = (Z.of_nat (length q) - Z.of_nat (length (retain_fresh now idle q)), retain_fresh now idle q).
Proof.
  induction q as [|pc q IH]; intros Hs; [done|]. inversion Hs as [|? ? Hq Hpc]; subst. cbn [prune_front].
  unfold retain_fresh in *. rewrite filter_cons. destruct (pc_expired now idle pc) eqn:E.
  - rewrite IH by done. rewrite decide_False by done. f_equal. simpl. lia.
  - rewrite decide_True by done. assert (filter (λ pc, pc_expired now idle pc = false) q = q) as ->.
    { apply filter_keep_all. rewrite Forall_forall in Hpc. intros x Hx. eapply expired_mono; [by apply Hpc|done]. }
    f_equal. lia.
Qed.

Lemma removed_by_app now idle (es : list (SocketAddr * list PooledConnection)) n :
  foldl (λ n e, n + (Z.of_nat (length e.2) - Z.of_nat (length (retain_fresh now idle e.2)))) n es
  = n + Z.of_nat (length (concat (snd <$> es))) - Z.of_nat (length (retain_fresh now idle (concat (snd <$> es)))).
Proof.
  revert n. induction es as [|e es IH]; intros n; [unfold retain_fresh; simpl; lia|].
  cbn [foldl fmap list_fmap concat]. rewrite IH. unfold retain_fresh. rewrite filter_app, !length_app. lia.
Qed.

Lemma removed_by_entries {iter : DashIter} now idle m :
  removed_by now idle (dash_iter m)
  = Z.of_nat (length (entries m)) - Z.of_nat (length (retain_fresh now idle (entries m))).
Proof.
  unfold removed_by, entries. rewrite removed_by_app. unfold retain_fresh. rewrite dash_iter_perm. lia.
Qed.

#[global] Instance retain_fresh_perm now idle : Proper ((≡ₚ) ==> (≡ₚ)) (retain_fresh now idle).
Proof. intros l l' Hl. unfold retain_fresh. by rewrite Hl. Qed.

(** Retaining commutes with taking the entries. *)
Lemma entries_retain now idle m :
  entries (filter (λ e, e.2 ≠ []) (retain_fresh now idle <$> m)) ≡ₚ retain_fresh now idle (entries m).
Proof.
  induction m as [|k q m Hk IH] using map_ind; [done|].
  rewrite (entries_insert m k q), delete_id, fmap_insert by done. 
  assert (retain_fresh now idle (q ++ entries m) = retain_fresh now idle q ++ retain_fresh now idle (entries m)) as -> by apply filter_app. rewrite <-IH.
  assert ((retain_fresh now idle <$> m) !! k = None) as Hk' by (by rewrite lookup_fmap, Hk).
  destruct (decide (retain_fresh now idle q = [])) as [E|E].
  - rewrite map_filter_insert_False by (simpl; by intros H). rewrite delete_id by done. by rewrite E.
  - rewrite map_filter_insert_True by done. rewrite entries_insert, delete_id; [done|].
    apply map_lookup_filter_None. by left.
Qed.

(** The scan of [evict_one] finds the least front. *)
Lemma oldest_scan es best :
  match foldl oldest_step best es with
  | None => best = None ∧ ∀ k q, (k, q) ∈ es → q = []
  | Some (k, t) =>
      (best = Some (k, t) ∨ ∃ pc q, (k, pc :: q) ∈ es ∧ pc_last_used pc = t)
      ∧ (∀ k' t', best = Some (k', t') → t ≤ t')
      ∧ ∀ k' pc q, (k', pc :: q) ∈ es → t ≤ pc_last_used pc
  end.
Proof.
  revert best. induction es as [|[k q] es IH]; intros best; cbn [foldl].
  - destruct best as [[k t]|]; split_and!; try set_solver.
  - specialize (IH (oldest_step best (k, q))). destruct (foldl _ _ es) as [[k0 t0]|].
    + destruct IH as (Hsrc & Hbest & Hall). unfold oldest_step in *. cbn [fst snd] in *.
      destruct q as [|pc q]; [set_solver|].
      destruct best as [[kb tb]|]; [destruct (Z.ltb_spec (pc_last_used pc) tb) as [Hlt|Hlt]|];
        specialize (Hbest _ _ eq_refl); split_and!.
      all: try (intros k' pc' q' [[= -> -> ->]|Hin]%elem_of_cons; [lia|by eapply Hall]).
      all: try (intros k' t' [= <- <-]; lia).
      * destruct Hsrc as [[= <- <-]|(pc' & q' & Hin & Ht)]; right; [exists pc, q|exists pc', q']; set_solver.
      * destruct Hsrc as [[= <- <-]|(pc' & q' & Hin & Ht)]; [by left|right; exists pc', q'; set_solver].
      * destruct Hsrc as [[= <- <-]|(pc' & q' & Hin & Ht)]; right; [exists pc, q|exists pc', q']; set_solver.
    + destruct IH as [Hb Hall]. unfold oldest_step in Hb. cbn [fst snd] in Hb.
      destruct q as [|pc q]; [set_solver|]. destruct best as [[kb tb]|]; [case_if_in Hb; done|done].
Qed.

(* ------------------------------------------------------------------ *)
(** ** Specification and refinement *)

Inductive pool_op : Set :=
| Get (addr : SocketAddr)
| Put (addr : SocketAddr) (stream : nat)
| Cleanup.

(** [get] looks at the connections of one address that have not expired. *)
Definition pruned (addr : SocketAddr) (now idle : Z) (a : list PooledConnection) : list PooledConnection :=
  filter (λ pc, pc_addr pc ≠ addr ∨ pc_expired now idle pc = false) a.

(** What each operation does to the multiset of pooled connections. *)
Inductive pool_spec (max idle now : Z) :
    pool_op → list PooledConnection → option nat → list PooledConnection → Prop :=
| spec_get_some addr a pc a' :
    pruned addr now idle a ≡ₚ pc :: a' → pc_addr pc = addr →
    (∀ pc', pc' ∈ a' → pc_addr pc' = addr → pc_last_used pc' ≤ pc_last_used pc) →
    pool_spec max idle now (Get addr) a (Some (pc_stream pc)) a'
| spec_get_none addr a a' :
    a' ≡ₚ pruned addr now idle a → (∀ pc, pc ∈ a' → pc_addr pc ≠ addr) →
    pool_spec max idle now (Get addr) a None a'
| spec_put_room addr s a a' :
    Z.of_nat (length a) < max ∨ a = [] → a' ≡ₚ mkPooled s addr now now :: a →
    pool_spec max idle now (Put addr s) a None a'
| spec_put_full addr s a v a0 a' :
    max ≤ Z.of_nat (length a) → a ≡ₚ v :: a0 →
    (∀ pc, pc ∈ a0 → pc_last_used v ≤ pc_last_used pc) → a' ≡ₚ mkPooled s addr now now :: a0 →
    pool_spec max idle now (Put addr s) a None a'
| spec_cleanup a a' :
    a' ≡ₚ retain_fresh now idle a →
    pool_spec max idle now Cleanup a None a'.

(** [o] takes [p] to [r] as specified, and the pool stays well formed. *)
Definition refines (now : Z) (o : pool_op) (p : ConnectionPool) (r : option nat * ConnectionPool) : Prop :=
  pool_spec (cp_max_connections p) (cp_idle_timeout p) now o
    (entries (cp_connections p)) r.1 (entries (cp_connections r.2))
  ∧ pool_ok now r.2
  ∧ cp_max_connections r.2 = cp_max_connections p ∧ cp_idle_timeout r.2 = cp_idle_timeout p.

#[global] Instance pruned_perm addr now idle : Proper ((≡ₚ) ==> (≡ₚ)) (pruned addr now idle).
Proof. intros l l' Hl. unfold pruned. by rewrite Hl. Qed.

Lemma pruned_own addr now idle q :
  (∀ pc, pc ∈ q → pc_addr pc = addr) → pruned addr now idle q = retain_fresh now idle q.
Proof.
  induction q as [|pc q IH]; intros Ha; [done|]. unfold pruned, retain_fresh in *. rewrite !filter_cons.
  rewrite IH by (intros x Hx; apply Ha; by right). pose proof (Ha pc ltac:(by left)).
  repeat case_decide; naive_solver.
Qed.

Lemma pruned_split now p addr idle :
  pool_ok now p →
  pruned addr now idle (entries (cp_connections p))
  ≡ₚ retain_fresh now idle (default [] (cp_connections p !! addr)) ++ entries (delete addr (cp_connections p)).
Proof.
  intros Hp. rewrite (entries_split _ addr). unfold pruned at 1. rewrite filter_app. f_equiv.
  - apply reflexive_eq, pruned_own. destruct (_ !! addr) as [q|] eqn:Hq; [|set_solver].
    intros pc Hpc. by destruct (po_addr _ _ Hp _ _ _ Hq Hpc).
  - apply reflexive_eq, filter_keep_all. intros pc Hpc. left. by eapply rest_addr.
Qed.

Lemma get_unfold now p addr q :
  pool_ok now p → cp_connections p !! addr = Some q →
  let q' := retain_fresh now (cp_idle_timeout p) q in
  let total := cp_total p - (Z.of_nat (length q) - Z.of_nat (length q')) in
  ConnectionPool_get addr now p
  = match last q' with
    | Some pc => (Some (pc_stream pc), with_queues (set_queue addr (take (length q' - 1) q') (cp_connections p)) (total - 1) p)
    | None => (None, with_queues (set_queue addr [] (cp_connections p)) (cp_total p - Z.of_nat (length q)) p)
    end.
Proof.
  intros Hp Hq q' total. unfold ConnectionPool_get, get_locked. rewrite Hq.
  rewrite prune_front_spec by (by apply (po_sorted _ _ Hp addr)). fold q'. destruct (last q') as [pc|] eqn:El.
  - unfold set_queue, get_remove, with_queues. case_bool_decide as E; cbn.
    + rewrite decide_True by done. by rewrite delete_insert_eq.
    + by rewrite decide_False by done.
  - apply last_None in El. unfold set_queue, get_remove, with_queues. rewrite El. cbn.
    rewrite delete_insert_eq. do 3 f_equal. lia.
Qed.

Lemma length_retain_le now idle q : (length (retain_fresh now idle q) ≤ length q)%nat.
Proof. apply length_filter. Qed.

Lemma entries_length now p k :
  pool_ok now p →
  cp_total p = Z.of_nat (length (default [] (cp_connections p !! k)))
               + Z.of_nat (length (entries (delete k (cp_connections p)))).
Proof.
  intros Hp. rewrite (po_total _ _ Hp), (entries_split _ k), length_app. lia.
Qed.

Lemma get_refines now p addr : pool_ok now p → refines now (Get addr) p (ConnectionPool_get addr now p).
Proof.
  intros Hp. pose proof (pruned_split now p addr (cp_idle_timeout p) Hp) as Hpr.
  pose proof (entries_length now p addr Hp) as Hlen. pose proof (po_bound _ _ Hp) as Hb.
  destruct (cp_connections p !! addr) as [q|] eqn:Hq; cbn [default from_option id] in Hpr, Hlen.
  2: { unfold ConnectionPool_get, get_locked. rewrite Hq. split_and!; try done.
       apply spec_get_none; [by rewrite Hpr, delete_id|]. intros pc Hpc. cbn [snd] in Hpc.
       rewrite <-(delete_id _ _ Hq) in Hpc. by eapply rest_addr. }
  rewrite (get_unfold _ _ _ _ Hp Hq). cbv zeta. set (q' := retain_fresh now (cp_idle_timeout p) q) in *.
  pose proof (length_retain_le now (cp_idle_timeout p) q) as Hle. fold q' in Hle.
  destruct (last q') as [pc|] eqn:El.
  - apply last_Some in El as [l El].
    assert (∀ x, x ∈ l ++ [pc] → pc_addr x = addr ∧ pc_last_used x ≤ now) as Haddr.
    { intros x. rewrite <-El. intros [_ Hx]%list_elem_of_filter. by apply (po_addr _ _ Hp addr q). }
    assert (StronglySorted (λ a b, pc_last_used a ≤ pc_last_used b) (l ++ [pc])) as Hs.
    { rewrite <-El. apply StronglySorted_filter. by apply (po_sorted _ _ Hp addr). }
    rewrite El, length_app in Hle |- *. simpl in Hle. rewrite take_app_length' by (simpl; lia). rewrite El in Hpr.
    match goal with |- context [with_queues _ ?t _] => destruct (pool_ok_set_queue now p addr l t) as [Hok _] end.
    { done. } { intros x Hx. apply Haddr. set_solver. } { by eapply StronglySorted_app_1_l. }
    { rewrite entries_set_queue, length_app. simpl. lia. } { simpl. lia. }
    split_and!; try done. apply spec_get_some.
    + rewrite Hpr. cbn. rewrite entries_set_queue, <-app_assoc. symmetry. apply Permutation_middle.
    + apply Haddr. set_solver.
    + cbn. intros pc' Hpc' Ha. rewrite entries_set_queue in Hpc'. apply elem_of_app in Hpc' as [Hl|Hr].
      * apply (StronglySorted_app_1_elem_of (λ a b, pc_last_used a ≤ pc_last_used b) l [pc]); [done|done|set_solver].
      * by eapply rest_addr in Hr.
  - apply last_None in El. rewrite El in Hpr.
    destruct (pool_ok_set_queue now p addr [] (cp_total p - Z.of_nat (length q))) as [Hok _];
      [done|set_solver|constructor| |lia|].
    { rewrite entries_set_queue. simpl. lia. }
    split_and!; try done. apply spec_get_none; cbn.
    + by rewrite Hpr, entries_set_queue.
    + intros pc Hpc. rewrite entries_set_queue in Hpc. by eapply (rest_addr now p).
Qed.

Section refinement_proofs.
Context {iter : DashIter}.

Lemma pool_ok_max now p : pool_ok now p → 0 ≤ cp_total p ≤ u64_max.
Proof.
  intros Hp. pose proof (po_bound _ _ Hp). pose proof (po_max _ _ Hp). pose proof (po_total _ _ Hp).
  unfold u64_max in *. lia.
Qed.

Lemma evict_one_spec now p :
  pool_ok now p →
  (entries (cp_connections p) = [] ∧ evict_one p = p)
  ∨ ∃ v a0, entries (cp_connections p) ≡ₚ v :: a0 ∧ (∀ pc, pc ∈ a0 → pc_last_used v ≤ pc_last_used pc)
      ∧ entries (cp_connections (evict_one p)) ≡ₚ a0 ∧ pool_ok now (evict_one p)
      ∧ cp_total (evict_one p) = cp_total p - 1
      ∧ cp_max_connections (evict_one p) = cp_max_connections p
      ∧ cp_idle_timeout (evict_one p) = cp_idle_timeout p.
Proof.
  intros Hp. pose proof (oldest_scan (dash_iter (cp_connections p)) None) as Hscan. unfold evict_one.
  assert (∀ e, e ∈ dash_iter (cp_connections p) ↔ cp_connections p !! e.1 = Some e.2) as Hin.
  { intros [k q]. rewrite dash_iter_perm, elem_of_map_to_list. done. }
  destruct (foldl _ _ _) as [[k t]|].
  2: { left. split; [|done]. destruct Hscan as [_ Hall]. apply elem_of_nil_inv. intros pc (k & q & Hk & Hpc)%elem_of_entries.
       rewrite (Hall k q) in Hpc by (by apply Hin). set_solver. }
  right. destruct Hscan as ([[=]|(v & q & Hv%Hin & <-)] & _ & Hall). cbn in Hv. rewrite Hv.
  exists v, (q ++ entries (delete k (cp_connections p))).
  pose proof (entries_lookup _ _ _ Hv) as He. pose proof (po_sorted _ _ Hp _ _ Hv) as Hs.
  inversion Hs as [|? ? Hsq Hvq]; subst. pose proof (entries_length now p k Hp) as Hlen. rewrite Hv in Hlen. cbn in Hlen.
  fold (set_queue k q (cp_connections p)). pose proof (po_bound _ _ Hp).
  destruct (pool_ok_set_queue now p k q (cp_total p - 1)) as [Hok Ht]; [done| |done| |lia|].
  { intros pc Hpc. apply (po_addr _ _ Hp k (v :: q)); [done|by right]. }
  { rewrite entries_set_queue, length_app. lia. }
  split_and!; try done.
  - intros pc [Hpc|(k' & q' & [_ Hk]%lookup_delete_Some & Hpc)%elem_of_entries]%elem_of_app.
    + rewrite Forall_forall in Hvq. by apply Hvq.
    + destruct q' as [|w q']; [set_solver|]. specialize (Hall k' w q' ltac:(by apply Hin)).
      pose proof (po_sorted _ _ Hp _ _ Hk) as Hs'. inversion Hs' as [|? ? _ Hw]; subst. rewrite Forall_forall in Hw.
      apply elem_of_cons in Hpc as [->|Hpc]; [done|]. specialize (Hw pc Hpc). lia.
  - cbn. apply entries_set_queue.
Qed.

(** Adding a connection to a pool with room for it. *)
Lemma push_ok now p addr s :
  pool_ok now p → cp_total p + 1 ≤ Z.max 1 (cp_max_connections p) →
  let pc := mkPooled s addr now now in
  let p' := with_queues (<[addr := default [] (cp_connections p !! addr) ++ [pc]]> (cp_connections p)) (cp_total p + 1) p in
  pool_ok now p' ∧ entries (cp_connections p') ≡ₚ pc :: entries (cp_connections p).
Proof.
  intros Hp Hroom pc. pose proof (entries_length now p addr Hp) as Hlen.
  set (q := default [] (cp_connections p !! addr)) in *.
  assert (set_queue addr (q ++ [pc]) (cp_connections p) = <[addr := q ++ [pc]]> (cp_connections p)) as Hset.
  { unfold set_queue. rewrite decide_False; [done|]. by destruct q. }
  assert (∀ x, x ∈ q → pc_addr x = addr ∧ pc_last_used x ≤ now) as Hq.
  { intros x Hx. subst q. destruct (_ !! addr) as [q|] eqn:E; [|set_solver]. by apply (po_addr _ _ Hp addr q). }
  rewrite <-Hset. cbv zeta. split.
  - apply pool_ok_set_queue; [done| | | |done].
    + intros x [Hx|Hx]%elem_of_app; [by apply Hq|]. apply list_elem_of_singleton in Hx as ->. split; simpl; [done|lia].
    + apply StronglySorted_app. split_and!; [|subst q|by repeat constructor].
      * intros x y Hx%Hq Hy. apply list_elem_of_singleton in Hy as ->. simpl. lia.
      * destruct (_ !! addr) as [q|] eqn:E; [by apply (po_sorted _ _ Hp addr)|constructor].
    + rewrite entries_set_queue, !length_app. simpl. lia.
  - cbn. rewrite entries_set_queue, (entries_split (cp_connections p) addr). fold q. rewrite <-app_assoc.
    symmetry. apply Permutation_middle.
Qed.

Lemma put_refines now p addr s :
  pool_ok now p → refines now (Put addr s) p (None, ConnectionPool_put addr s now p).
Proof.
  intros Hp. pose proof (po_total _ _ Hp) as Ht. unfold ConnectionPool_put. cbn [fst snd].
  destruct (Z.leb_spec (cp_max_connections p) (cp_total p)) as [Hfull|Hroom].
  - destruct (evict_one_spec now p Hp) as [[He ->]|(v & a0 & Hv & Hmin & Ha & Hok & Htot & Hmax & Hidle)].
    + rewrite He in Ht. simpl in Ht. destruct (push_ok now p addr s Hp) as [Hok Hperm]; [lia|].
      split_and!; try done. apply spec_put_room; [by right|done].
    + pose proof (po_bound _ _ Hp). destruct (push_ok now (evict_one p) addr s Hok) as [Hok' Hperm]; [rewrite Hmax; lia|].
      split_and!; try done. eapply (spec_put_full _ _ _ _ _ _ v a0); [lia|done|done|]. cbn in *. by rewrite Hperm, Ha.
  - destruct (push_ok now p addr s Hp) as [Hok Hperm]; [lia|]. split_and!; try done.
    apply spec_put_room; [left; lia|done].
Qed.

Lemma cleanup_refines now p :
  pool_ok now p → refines now Cleanup p (None, ConnectionPool_cleanup now p).
Proof.
  intros Hp. unfold ConnectionPool_cleanup. rewrite removed_by_entries. pose proof (pool_ok_max _ _ Hp) as Hmax.
  pose proof (length_retain_le now (cp_idle_timeout p) (entries (cp_connections p))) as Hle.
  pose proof (entries_retain now (cp_idle_timeout p) (cp_connections p)) as He.
  set (qs := filter _ _) in *. pose proof (po_total _ _ Hp) as Ht. pose proof (po_bound _ _ Hp) as Hb.
  match goal with |- context [with_queues _ ?t _] => assert (t = Z.of_nat (length (entries qs))) as Hnew end.
  { rewrite He. case_if; bool_to_prop; lia. }
  rewrite Hnew. assert (u64_wrap (Z.of_nat (length (entries qs))) = Z.of_nat (length (entries qs))) as Hw.
  { apply u64_wrap_small. rewrite He. lia. }
  assert (∀ k q, qs !! k = Some q → q ≠ [] ∧ ∃ q0, cp_connections p !! k = Some q0 ∧ q = retain_fresh now (cp_idle_timeout p) q0) as Hqs.
  { intros k q [Hk Hne]%map_lookup_filter_Some. rewrite lookup_fmap in Hk.
    destruct (cp_connections p !! k) as [q0|]; simplify_eq/=. eauto. }
  split_and!; try done.
  - cbn. by apply spec_cleanup.
  - split; cbn; rewrite ?Hw, ?He; try done; try lia.
    + apply (po_max _ _ Hp).
    + intros k q pc (_ & q0 & Hk & ->)%Hqs [_ Hpc]%list_elem_of_filter. by apply (po_addr _ _ Hp k q0).
    + intros k q (_ & q0 & Hk & ->)%Hqs. apply StronglySorted_filter. by apply (po_sorted _ _ Hp k).
    + intros k Hk%Hqs. naive_solver.
Qed.

Definition pool_step (now : Z) (o : pool_op) (p : ConnectionPool) : option nat * ConnectionPool :=
  match o with
  | Get addr => ConnectionPool_get addr now p
  | Put addr s => (None, ConnectionPool_put addr s now p)
  | Cleanup => (None, ConnectionPool_cleanup now p)
  end.

Definition pool_run (ops : list (Z * pool_op)) (p : ConnectionPool) : ConnectionPool :=
  foldl (λ p o, (pool_step o.1 o.2 p).2) p ops.

Lemma step_refines now o p : pool_ok now p → refines now o p (pool_step now o p).
Proof. destruct o; [apply get_refines|apply put_refines|apply cleanup_refines]. Qed.

Lemma pool_run_ok ops : ∀ start p,
  pool_ok start p → Sorted Z.le (start :: (fst <$> ops)) →
  pool_ok (default start (last (fst <$> ops))) (pool_run ops p)
  ∧ cp_max_connections (pool_run ops p) = cp_max_connections p
  ∧ cp_idle_timeout (pool_run ops p) = cp_idle_timeout p.
Proof.
  induction ops as [|[t o] ops IH]; intros start p Hp Hs; [done|].
  inversion Hs as [|? ? Hs' Hhd]; subst. inversion Hhd; subst.
  destruct (step_refines t o p) as (_ & Hok & Hm & Hi); [by eapply pool_ok_later|].
  destruct (IH t (pool_step t o p).2 Hok Hs') as (Hrun & Hm' & Hi').
  split_and!; [|by etrans..]. replace (default start (last (fst <$> (t, o) :: ops))) with (default t (last (fst <$> ops))); [done|].
  cbn [fmap list_fmap]. rewrite last_cons. by destruct (last _).
Qed.

(** C21. The connection pool is a bounded multiset of idle streams: after any
    sequence of operations with a monotone clock, [get] hands out the connection
    to that address used most recently, never an expired one, and takes it out
    of the pool; it finds none only when none is left that has not expired;
    [put] evicts nothing while there is room and otherwise the connection idle
    longest; [cleanup] drops exactly the expired ones.  The counter is the
    number of connections, and that stays within the limit (one connection is
    held even when the limit is zero). *)
Theorem conn_pool_refines max idle ops now o :
  0 ≤ max ≤ u64_max → Sorted Z.le ((fst <$> ops) ++ [now]) →
  let p := pool_run ops (ConnectionPool_new max idle) in
  let r := pool_step now o p in
  pool_spec max idle now o (entries (cp_connections p)) r.1 (entries (cp_connections r.2))
  ∧ ConnectionPool_len r.2 = Z.of_nat (length (entries (cp_connections r.2)))
  ∧ ConnectionPool_len r.2 ≤ Z.max 1 max
  ∧ ∀ addr, cp_connections r.2 !! addr ≠ Some [].
Proof.
  intros Hmax Hs p r. set (start := default now (head (fst <$> ops))).
  assert (Sorted Z.le (start :: (fst <$> ops) ++ [now])) as Hs0.
  { constructor; [done|]. subst start. destruct ops as [|[t o'] ops]; simpl; constructor; lia. }
  assert (Sorted Z.le (start :: (fst <$> ops))) as Hs1.
  { apply Sorted_StronglySorted in Hs0; [|intros ???; lia]. rewrite app_comm_cons in Hs0.
    by apply StronglySorted_app_1_l, StronglySorted_Sorted in Hs0. }
  destruct (pool_run_ok ops start (ConnectionPool_new max idle) (pool_ok_new max idle start Hmax) Hs1) as (Hok & Hm & Hi).
  assert (default start (last (fst <$> ops)) ≤ now) as Hle.
  { apply Sorted_StronglySorted in Hs0; [|intros ???; lia]. rewrite app_comm_cons in Hs0.
    apply (StronglySorted_app_1_elem_of _ _ _ _ _ Hs0); [|by left].
    destruct (last (fst <$> ops)) as [t|] eqn:E; [right; by apply last_Some_elem_of|by left]. }
  destruct (step_refines now o p) as (Hspec & Hok' & Hm' & _); [by eapply pool_ok_later|].
  fold p in Hm, Hi. fold r in Hok', Hm', Hspec. rewrite Hm, Hi in Hspec. rewrite Hm in Hm'. cbn in Hm', Hspec.
  split_and!; [done|apply (po_total _ _ Hok')| |apply (po_nonempty _ _ Hok')].
  rewrite <-Hm'. apply (po_bound _ _ Hok').
Qed.
End refinement_proofs.

Definition map_iter : DashIter := {| dash_iter := map_to_list; dash_iter_perm m := Permutation_refl _ |}.

Lemma conn_pool_refines_witness :
  let a := mkSocketAddr (V4 1) 80 in let b := mkSocketAddr (V4 2) 80 in
  let ops := [(1, Put a 1); (2, Put b 2); (5, Put a 3)] in
  let p := pool_run (iter := map_iter) ops (ConnectionPool_new 2 10) in
  let r := pool_step (iter := map_iter) 6 (Get a) p in
  r.1 = Some 3%nat ∧ pool_spec 2 10 6 (Get a) (entries (cp_connections p)) r.1 (entries (cp_connections r.2)).
Proof.
  intros a b ops p r. split; [vm_compute; reflexivity|].
  destruct (conn_pool_refines (iter := map_iter) 2 10 ops 6 (Get a)) as [H _]; [done| |exact H].
  repeat constructor; simpl; lia.
Defined.

(** [get] removes an emptied entry after releasing its lock: a [put] for the same
    address in between is lost with the entry, and the counter keeps counting
    the lost stream for ever. *)
Theorem conn_pool_get_race :
  let addr := mkSocketAddr (V4 1) 80 in
  let p := ConnectionPool_put (iter := map_iter) addr 1 0 (ConnectionPool_new 10 100) in
  let '(taken, p1, emptied) := get_locked addr 1 p in
  let p2 := ConnectionPool_put (iter := map_iter) addr 2 2 p1 in
  let p3 := get_remove addr p2 in
  taken = Some 1%nat ∧ emptied = true ∧ ConnectionPool_len p3 = 1
  ∧ entries (cp_connections p3) = [] ∧ (ConnectionPool_get addr 3 p3).1 = None.
Proof. vm_compute. done. Qed.
