(* ===== verification/Http1.v ===== *)
(** * HTTP/1 on the wire

    Models [rv-transport/src/http1_server.rs], [http1_client.rs] and [error.rs]: how
    requests and responses are read from and written to a connection.  A connection
    is the sequence of bytes the peer will send before it closes; reading is a small
    monad over it, whose outcomes are a value with the bytes left, an error of the
    source, or a panic ([vec![0u8; n]] beyond [isize::MAX]; the allocator grants
    smaller sizes).  The httparse crate and the texts of the standard library's
    errors are arguments.  What the server writes is what the client reads, with the
    framing exact; every chunking of a body is decoded; the readers end on every
    input. *)

From S2P Require Import Prelude RustStr Enums Types HttpTypes Header Vary Backend ConnPool.
Local Open Scope Z_scope.

Module TransportError.

(** The [std::io::Error]s reading from memory can give. *)
Inductive io_error : Set := UnexpectedEof | InvalidData.

Inductive t : Set :=
| Io (e : io_error)
| HttpParse (msg : bytes)
| ConnectionClosed
| RequestTooLarge
| InvalidVersion
| Timeout
| ProxyProtocol (msg : bytes)
| Http2 (msg : bytes)
| Tls (msg : bytes).

(** [Display]; [io_text] is that of the [std::io::Error]. *)
Definition display (io_text : io_error → bytes) (e : t) : bytes :=
  match e with
  | Io e => str "I/O error: " ++ io_text e
  | HttpParse msg => str "HTTP parse error: " ++ msg
  | ConnectionClosed => str "connection closed"
  | RequestTooLarge => str "request too large"
  | InvalidVersion => str "invalid HTTP version"
  | Timeout => str "timeout"
  | ProxyProtocol msg => str "PROXY protocol error: " ++ msg
  | Http2 msg => str "HTTP/2 error: " ++ msg
  | Tls msg => str "TLS error: " ++ msg
  end.

End TransportError.

(* ------------------------------------------------------------------ *)
(** ** Reading *)

Inductive outcome (A : Type) : Type :=
| Done (a : A) (rest : bytes)
| Fails (e : TransportError.t)
| Panics.
Arguments Done {A} a rest.
Arguments Fails {A} e.
Arguments Panics {A}.

(** [None]: the rounds given to a loop were not enough. *)
Definition io (A : Type) : Type := bytes → option (outcome A).

Definition io_ret {A} (a : A) : io A := λ s, Some (Done a s).
Definition io_fail {A} (e : TransportError.t) : io A := λ _, Some (Fails e).
Definition io_panic {A} : io A := λ _, Some Panics.

Definition io_bind {A B} (m : io A) (k : A → io B) : io B := λ s,
  match m s with
  | Some (Done a rest) => k a rest
  | Some (Fails e) => Some (Fails e)
  | Some Panics => Some Panics
  | None => None
  end.

Declare Scope io_scope.
Delimit Scope io_scope with io.
Notation "x ←! m ; k" := (io_bind m (λ x, k))
  (at level 20, m at level 100, k at level 200, right associativity) : io_scope.
Local Open Scope io_scope.

(** [read_until]: up to and with the delimiter, or all that is left. *)
Fixpoint take_until (c : byte) (s : bytes) : bytes * bytes :=
  match s with
  | [] => ([], [])
  | b :: s =>
      if decide (b = c) then ([b], s)
      else let '(l, r) := take_until c s in (b :: l, r)
  end.

Definition read_until (c : byte) : io bytes := λ s, let '(l, r) := take_until c s in Some (Done l r).

Definition read_line : io bytes := λ s,
  let '(l, r) := take_until x0a s in
  if utf8_valid l then Some (Done l r) else Some (Fails (TransportError.Io TransportError.InvalidData)).

Definition read_exact (n : Z) : io bytes := λ s,
  if n <=? len s then Some (Done (take (Z.to_nat n) s) (drop (Z.to_nat n) s))
  else Some (Fails (TransportError.Io TransportError.UnexpectedEof)).

Definition read_to_end : io bytes := λ s, Some (Done s []).

(** [vec![0u8; n]] *)
Definition zeroed (n : Z) : io unit := if n <=? i64_max then io_ret tt else io_panic.

(** [usize::from_str_radix(s, 16)] *)
Definition hex_val (b : byte) : option Z :=
  if byte_in 48 57 b then Some (u8_val b - 48)
  else if byte_in 65 70 b then Some (u8_val b - 55)
  else if byte_in 97 102 b then Some (u8_val b - 87)
  else None.

Fixpoint parse_hex_digits (acc : Z) (s : bytes) : option Z :=
  match s with
  | [] => Some acc
  | c :: s =>
      match hex_val c with
      | None => None
      | Some d => if 16 * acc + d <=? u64_max then parse_hex_digits (16 * acc + d) s else None
      end
  end.

Definition parse_hex (s : bytes) : option Z :=
  match s with
  | [] => None
  | c :: r =>
      if decide (c = x2b) then match r with [] => None | _ => parse_hex_digits 0 r end
      else parse_hex_digits 0 s
  end.

(** [body] as an [Option]: empty is none. *)
Definition non_empty (body : bytes) : option bytes :=
  match body with [] => None | _ => Some body end.

(* ------------------------------------------------------------------ *)
(** ** The server's side *)

Definition MAX_HEADERS : Z := 64.
Definition MAX_HEADER_SIZE : Z := 64 * 1024.

(** What httparse finds in a request: method, path, version and headers. *)
Record parsed_request : Set := mkParsed {
  pr_method : option bytes;
  pr_path : option bytes;
  pr_version : option Z;
  pr_headers : list (bytes * bytes);
}.

(** [Request::parse] with room for [MAX_HEADERS] headers: [Ok None] is
    [Status::Partial], an error is its text. *)
Class Httparse := httparse_request : Z → bytes → result (option parsed_request) bytes.

Definition ends_with (p s : bytes) : bool := bool_decide (is_Some (strip_suffix p s)).

(** The loop that accumulates the header bytes. *)
Fixpoint read_head (fuel : nat) (buf : bytes) : io bytes :=
  match fuel with
  | O => λ _, None
  | S fuel =>
      segment ←! read_until x0a;
      match segment with
      | [] =>
          match buf with
          | [] => io_fail TransportError.ConnectionClosed
          | _ => io_fail (TransportError.HttpParse (str "incomplete request headers"))
          end
      | _ =>
          let buf := buf ++ segment in
          if ends_with [x0d; x0a; x0d; x0a] buf then io_ret buf
          else if ends_with [x0a; x0a] buf then io_ret buf
          else if bool_decide (segment = [x0d; x0a] ∨ segment = [x0a]) then io_ret buf
          else if MAX_HEADER_SIZE <? len buf then io_fail TransportError.RequestTooLarge
          else read_head fuel buf
      end
  end.

Definition set_body_status (b : BodyStatus) (m : HttpMessage) : HttpMessage :=
  {| msg_headers := msg_headers m; msg_status := msg_status m; msg_protocol := msg_protocol m;
     msg_method := msg_method m; msg_url := msg_url m; msg_reason := msg_reason m;
     msg_body_status := b |}.

Definition is_chunked (m : HttpMessage) : bool :=
  match HttpMessage_get_header m (str "Transfer-Encoding") with
  | Some te => eq_ignore_ascii_case te (str "chunked")
  | None => false
  end.

(** [cl.parse::<usize>().unwrap_or(0)] *)
Definition content_length (cl : bytes) : Z := default 0 (parse_u64 cl).

Definition request_body_status (msg : HttpMessage) : HttpMessage :=
  match HttpMessage_get_header msg (str "Content-Length") with
  | Some cl => if 0 <? content_length cl then set_body_status BodyStatus_Length msg else msg
  | None => if is_chunked msg then set_body_status BodyStatus_Chunked msg else msg
  end.

Definition message_of_request (req : parsed_request) : HttpMessage :=
  let method := HttpMethod_parse_method (default (str "GET") (pr_method req)) in
  let version := match pr_version req with Some 0 => Http10 | _ => Http11 end in
  let msg := HttpMessage_new_request method (default (str "/") (pr_path req)) version in
  let msg := foldl (λ m h, HttpMessage_set_header m h.1 (default [] (from_utf8 h.2))) msg (pr_headers req) in
  request_body_status msg.

Section server.
  Context {httparse : Httparse} {errors : StdErrors}.

Definition read_request (fuel : nat) : io HttpMessage :=
  buf ←! read_head fuel [];
  match httparse_request MAX_HEADERS buf with
  | Ok (Some req) => io_ret (message_of_request req)
  | Ok None => io_fail (TransportError.HttpParse (str "incomplete HTTP request"))
  | Err e => io_fail (TransportError.HttpParse (str "HTTP parse error: " ++ e))
  end.

(** The chunk loop of [read_body]. *)
Fixpoint read_request_chunks (fuel : nat) (max_size : Z) (body : bytes) : io bytes :=
  match fuel with
  | O => λ _, None
  | S fuel =>
      size_line ←! read_line;
      match parse_hex (trim size_line) with
      | None => io_fail (TransportError.HttpParse (str "invalid chunk size: " ++ int_error (trim size_line)))
      | Some chunk_size =>
          if chunk_size =? 0 then
            trailer ←! read_line;
            io_ret body
          else if max_size <? u64_wrap (len body + chunk_size) then io_fail TransportError.RequestTooLarge
          else
            _ ←! zeroed chunk_size;
            chunk ←! read_exact chunk_size;
            crlf ←! read_exact 2;
            read_request_chunks fuel max_size (body ++ chunk)
      end
  end.

Definition read_body (fuel : nat) (msg : HttpMessage) (max_size : Z) : io (option bytes) :=
  match msg_body_status msg with
  | BodyStatus_Length =>
      let length := default 0 (HttpMessage_get_header msg (str "Content-Length") ≫= parse_u64) in
      if length =? 0 then io_ret None
      else if max_size <? length then io_fail TransportError.RequestTooLarge
      else
        _ ←! zeroed length;
        body ←! read_exact length;
        io_ret (Some body)
  | BodyStatus_Chunked =>
      body ←! read_request_chunks fuel max_size [];
      io_ret (non_empty body)
  | _ => io_ret None
  end.

End server.

Definition header_line (h : Header) : bytes := h_name h ++ str ": " ++ h_value h ++ [x0d; x0a].

(** The bytes [write_response] sends. *)
Definition write_response (response : HttpMessage) (body : option bytes) : bytes :=
  HttpMessage_status_line response ++ [x0d; x0a]
  ++ concat (header_line <$> headers (msg_headers response))
  ++ match body with
     | Some body =>
         if bool_decide (HttpMessage_get_header response (str "Content-Length") = None)
            && bool_decide (HttpMessage_get_header response (str "Transfer-Encoding") = None)
         then str "Content-Length: " ++ show_u64 (len body) ++ [x0d; x0a] else []
     | None => []
     end
  ++ [x0d; x0a]
  ++ default [] body.

Definition should_keepalive (msg : HttpMessage) : bool :=
  let connection := HttpMessage_get_header msg (str "Connection") in
  if decide (msg_protocol msg = Http10) then
    match connection with Some v => eq_ignore_ascii_case v (str "keep-alive") | None => false end
  else
    negb match connection with Some v => eq_ignore_ascii_case v (str "close") | None => false end.

(* ------------------------------------------------------------------ *)
(** ** The client's side *)

Definition is_keep_alive (response : HttpMessage) : bool :=
  let conn_header := default [] (HttpMessage_get_header response (str "Connection")) in
  match msg_protocol response with
  | Http11 => negb (eq_ignore_ascii_case conn_header (str "close"))
  | _ => eq_ignore_ascii_case conn_header (str "keep-alive")
  end.

(** The bytes of the request; [show_addr] is the [Display] of the address. *)
Definition request_bytes (show_addr : SocketAddr → bytes) (addr : SocketAddr) (request : HttpMessage)
    (body : option bytes) : bytes :=
  HttpMessage_request_line request ++ [x0d; x0a]
  ++ concat (header_line <$> headers (msg_headers request))
  ++ (if bool_decide (HttpMessage_get_header request (str "Host") = None)
      then str "Host: " ++ show_addr addr ++ [x0d; x0a] else [])
  ++ match body with
     | Some body => str "Content-Length: " ++ show_u64 (len body) ++ [x0d; x0a; x0d; x0a] ++ body
     | None => [x0d; x0a]
     end.

(** [str::trim_end_matches] with a string. *)
Definition trim_end_matches (p s : bytes) : bytes :=
  reverse (strip_while (length s) [reverse p] (reverse s)).

(** The response's header loop: a closed connection ends it too. *)
Fixpoint read_headers (fuel : nat) (response : HttpMessage) : io HttpMessage :=
  match fuel with
  | O => λ _, None
  | S fuel =>
      line ←! read_line;
      match line with
      | [] => io_ret response
      | _ =>
          let line := trim_end_matches [x0a] (trim_end_matches [x0d; x0a] line) in
          match line with
          | [] => io_ret response
          | _ =>
              read_headers fuel
                (match split_once [x3a] line with
                 | Some (name, value) => HttpMessage_set_header response (trim name) (trim value)
                 | None => response
                 end)
          end
      end
  end.

Definition set_reason (reason : bytes) (m : HttpMessage) : HttpMessage :=
  {| msg_headers := msg_headers m; msg_status := msg_status m; msg_protocol := msg_protocol m;
     msg_method := msg_method m; msg_url := msg_url m; msg_reason := reason;
     msg_body_status := msg_body_status m |}.

(** [splitn(3, ' ')]: version, code and reason. *)
Definition status_parts (line : bytes) : option (bytes * bytes * bytes) :=
  '(version, rest) ← split_once [x20] line;
  match split_once [x20] rest with
  | Some (code, reason) => Some (version, code, reason)
  | None => Some (version, rest, [])
  end.

Section client.
  Context {errors : StdErrors}.

Definition read_status : io HttpMessage :=
  status_line ←! read_line;
  match status_line with
  | [] => io_fail TransportError.ConnectionClosed
  | _ =>
      let status_line := trim_end status_line in
      match status_parts status_line with
      | None => io_fail (TransportError.HttpParse (str "invalid status line: " ++ status_line))
      | Some (version, code, reason) =>
          let version := match HttpVersion_from_str version with Ok v => v | Err _ => Http11 end in
          match parse_u16 code with
          | None => io_fail (TransportError.HttpParse (str "invalid status code: " ++ int_error code))
          | Some status_code =>
              io_ret (set_reason reason (HttpMessage_new_response (HttpStatus_new status_code) version))
          end
      end
  end.

(** The client's chunk loop: a size it cannot read counts as zero. *)
Fixpoint read_response_chunks (fuel : nat) (body : bytes) : io bytes :=
  match fuel with
  | O => λ _, None
  | S fuel =>
      size_line ←! read_line;
      let chunk_size := default 0 (parse_hex (trim size_line)) in
      if chunk_size =? 0 then
        trailer ←! read_line;
        io_ret body
      else
        _ ←! zeroed chunk_size;
        chunk ←! read_exact chunk_size;
        crlf ←! read_exact 2;
        read_response_chunks fuel (body ++ chunk)
  end.

(** The body, and whether its length was known. *)
Definition read_response_body (fuel : nat) (response : HttpMessage) : io (option bytes * bool) :=
  if HttpMessage_response_has_body response then
    match HttpMessage_get_header response (str "Content-Length") with
    | Some cl =>
        let length := content_length cl in
        if 0 <? length then
          _ ←! zeroed length;
          body ←! read_exact length;
          io_ret (Some body, true)
        else io_ret (None, true)
    | None =>
        if is_chunked response then
          body ←! read_response_chunks fuel [];
          io_ret (non_empty body, true)
        else
          body ←! read_to_end;
          io_ret (non_empty body, false)
    end
  else io_ret (None, true).

(** From the status line to the body; the last part says whether the stream goes
    back to the pool. *)
Definition read_response (fuel : nat) : io (HttpMessage * option bytes * bool) :=
  response ←! read_status;
  response ←! read_headers fuel response;
  let keep_alive := is_keep_alive response in
  bk ←! read_response_body fuel response;
  io_ret (response, bk.1, keep_alive && bk.2).

(** The result of an exchange, the stream used with the bytes written to it, and
    the pool afterwards. *)
Inductive exchange : Type :=
| Answered (r : result (HttpMessage * option bytes) TransportError.t) (written : option (nat * bytes))
    (pool : option ConnectionPool)
| ExchangePanics.

(** The whole exchange.  [connect] is the stream a new connection gives, if it can
    be opened; [input] what each stream will answer. *)
Definition send_backend_request `{DashIter} (show_addr : SocketAddr → bytes) (fuel : nat) (now : Z)
    (connect : result nat TransportError.t) (input : nat → bytes) (addr : SocketAddr)
    (request : HttpMessage) (body : option bytes) (pool : option ConnectionPool) :
    option exchange :=
  let '(stream, pool) :=
    match pool with
    | Some p => let '(s, p) := ConnectionPool_get addr now p in (s, Some p)
    | None => (None, None)
    end in
  match match stream with Some s => Ok s | None => connect end with
  | Err e => Some (Answered (Err e) None pool)
  | Ok stream =>
      let written := Some (stream, request_bytes show_addr addr request body) in
      match read_response fuel (input stream) with
      | None => None
      | Some Panics => Some ExchangePanics
      | Some (Fails e) => Some (Answered (Err e) written pool)
      | Some (Done (response, resp_body, reuse) _) =>
          let pool := match pool with
                      | Some p => Some (if reuse then ConnectionPool_put addr stream now p else p)
                      | None => None
                      end in
          Some (Answered (Ok (response, resp_body)) written pool)
      end
  end.

End client.

(* ------------------------------------------------------------------ *)
(** ** The readers end *)

Lemma take_until_app c l r : c ∉ l → take_until c (l ++ c :: r) = (l ++ [c], r).
Proof.
  induction l as [|b l IH]; simpl.
  - intros _. by rewrite decide_True.
  - intros [Hb Hl]%not_elem_of_cons. rewrite decide_False by congruence. by rewrite IH.
Qed.

Lemma take_until_split c s :
  s = (take_until c s).1 ++ (take_until c s).2 ∧ (s ≠ [] → (take_until c s).1 ≠ []).
Proof.
  induction s as [|b s [IH _]]; [done|]. simpl. case_decide; [done|].
  destruct (take_until c s) as [l r]. simpl in *. split; [by f_equal|done].
Qed.

(** A reader that needs no fuel and leaves a suffix of the input. *)
Definition reads_suffix {A} (m : io A) : Prop :=
  ∀ s, ∃ o, m s = Some o ∧ ∀ a rest, o = Done a rest → ∃ p, s = p ++ rest.

Lemma read_line_suffix : reads_suffix read_line.
Proof.
  intros s. unfold read_line. destruct (take_until_split x0a s) as [Hs _].
  destruct (take_until x0a s) as [l r]. case_if; eexists; (split; [done|]); naive_solver.
Qed.

Lemma read_exact_suffix n : reads_suffix (read_exact n).
Proof.
  intros s. unfold read_exact. case_if; eexists; (split; [done|]); [|done].
  intros a rest [= <- <-]. exists (take (Z.to_nat n) s). by rewrite take_drop.
Qed.

Lemma zeroed_suffix n : reads_suffix (zeroed n).
Proof. intros s. unfold zeroed. case_if; eexists; (split; [done|]); [|done]. intros a rest [= <- <-]. by exists []. Qed.

(** Running a bind whose first part leaves a suffix. *)
Lemma suffix_bind {A B} (m : io A) (k : A → io B) s (P : option (outcome B) → Prop) :
  reads_suffix m → (∀ e, P (Some (Fails e))) → P (Some Panics) →
  (∀ a p rest, s = p ++ rest → m s = Some (Done a rest) → P (k a rest)) → P (io_bind m k s).
Proof.
  intros Hm Hf Hp Hk. unfold io_bind. destruct (Hm s) as (o & Ho & Hs). rewrite Ho.
  destruct o as [a rest|e|]; [|done..]. destruct (Hs a rest eq_refl) as [p Hp']. by eapply Hk.
Qed.

(** What a reader returns: it ended, left a suffix, and the value satisfies [Q]. *)
Definition ended {A} (s : bytes) (Q : A → Prop) (r : option (outcome A)) : Prop :=
  ∃ o, r = Some o ∧ ∀ a rest, o = Done a rest → Q a ∧ ∃ p, s = p ++ rest.

Lemma ended_fails {A} s (Q : A → Prop) e : ended s Q (Some (Fails e)).
Proof. by eexists. Qed.
Lemma ended_panics {A} s (Q : A → Prop) : ended s Q (Some Panics).
Proof. by eexists. Qed.
Lemma ended_ret {A} s p rest (Q : A → Prop) a : s = p ++ rest → Q a → ended s Q (Some (Done a rest)).
Proof. intros -> HQ. eexists. split; [done|]. intros ? ? [= <- <-]. eauto. Qed.
Lemma ended_trans {A} s p rest (Q : A → Prop) r : s = p ++ rest → ended rest Q r → ended s Q r.
Proof.
  intros -> (o & -> & H). eexists. split; [done|]. intros a rest' E.
  destruct (H a rest' E) as [HQ [q ->]]. split; [done|]. exists (p ++ q). by rewrite app_assoc.
Qed.
Lemma ended_bind {A B} (m : io A) (k : A → io B) s (P : A → Prop) (Q : B → Prop) :
  ended s P (m s) → (∀ a rest, P a → (length rest ≤ length s)%nat → ended rest Q (k a rest)) →
  ended s Q (io_bind m k s).
Proof.
  intros (o & Ho & Hs) Hk. unfold io_bind. rewrite Ho.
  destruct o as [a rest|e|]; [|apply ended_fails|apply ended_panics].
  destruct (Hs a rest eq_refl) as [HP [p Hp]]. eapply ended_trans; [done|]. apply Hk; [done|]. rewrite Hp, length_app. lia.
Qed.

#[local] Hint Resolve ended_fails ended_panics read_line_suffix read_exact_suffix zeroed_suffix : core.

Lemma parse_hex_digits_range s acc n :
  0 ≤ acc ≤ u64_max → parse_hex_digits acc s = Some n → 0 ≤ n ≤ u64_max.
Proof.
  revert acc. induction s as [|c s IH]; intros acc Hacc; simpl; [intros [= <-]; done|].
  destruct (hex_val c) as [d|] eqn:Ed; [|done]. case_if; [|done]. bool_to_prop. apply IH.
  assert (0 ≤ d); [|lia]. unfold hex_val, byte_in in Ed.
  repeat case_if_in Ed; try done; injection Ed as <-; bool_to_prop; lia.
Qed.

Lemma parse_hex_range s n : parse_hex s = Some n → 0 ≤ n ≤ u64_max.
Proof.
  assert (0 ≤ 0 ≤ u64_max) by (unfold u64_max; lia).
  unfold parse_hex. destruct s as [|c s]; [done|].
  case_decide; [destruct s; [done|]|]; by apply parse_hex_digits_range.
Qed.

Section ends.
  Context {httparse : Httparse} {errors : StdErrors}.

Lemma read_line_shorter s l rest : read_line s = Some (Done l rest) → s ≠ [] → (length rest < length s)%nat.
Proof.
  unfold read_line. destruct (take_until_split x0a s) as [Hs Hne].
  destruct (take_until x0a s) as [l' r'] eqn:E. simpl in *. case_if; [|done]. intros [= <- <-] Hs'.
  rewrite Hs, length_app. destruct l'; [by destruct Hne|simpl; lia].
Qed.

Lemma read_line_nil : read_line [] = Some (Done [] []).
Proof. done. Qed.

(** The chunk loop keeps its accumulator within the limit. *)
Lemma read_request_chunks_ended fuel max : 0 ≤ max ≤ i64_max → ∀ body s,
  (length s < fuel)%nat → len body ≤ max →
  ended s (λ b, len b ≤ max) (read_request_chunks fuel max body s).
Proof.
  intros Hmax. induction fuel as [|fuel IH]; intros body s Hf Hb; [lia|]. cbn [read_request_chunks].
  apply suffix_bind; auto. intros line p r1 Es El.
  destruct (parse_hex (trim line)) as [n|] eqn:En; [|apply ended_fails].
  destruct (decide (s = [])) as [->|Hne].
  { rewrite read_line_nil in El. injection El as <- <-. done. }
  pose proof (read_line_shorter _ _ _ El Hne) as Hlt.
  case_if; [apply suffix_bind; auto; intros ? q r2 -> _; eapply (ended_ret _ (p ++ q)); [by rewrite <- app_assoc|done]|].
  case_if; [apply ended_fails|]. bool_to_prop.
  apply suffix_bind; auto. intros [] q2 r2 E2 Hz. unfold zeroed in Hz. case_if_in Hz; [|done].
  injection Hz as <-. bool_to_prop. clear q2 E2.
  apply suffix_bind; auto. intros chunk q3 r3 E3 Hc. unfold read_exact in Hc. case_if_in Hc; [|done].
  injection Hc as <- <-. bool_to_prop.
  apply suffix_bind; auto. intros crlf q4 r4 E4 _.
  apply (ended_trans _ (p ++ q3 ++ q4) r4); [rewrite Es, E3, E4; by rewrite !app_assoc|].
  apply IH.
  - rewrite E3, E4 in Hlt. rewrite !length_app in Hlt. lia.
  - assert (Hn : 0 ≤ n) by (apply parse_hex_range in En; lia).
    unfold len in *. rewrite length_app, length_take. rewrite u64_wrap_small in E0; [lia|].
    unfold u64_max, i64_max in *. lia.
Qed.

Lemma read_body_ends fuel msg max s :
  0 ≤ max ≤ i64_max → (length s < fuel)%nat →
  ended s (λ r, match r with Some b => 0 < len b ≤ max | None => True end) (read_body fuel msg max s).
Proof.
  intros Hmax Hf. unfold read_body. destruct (msg_body_status msg); try by eapply (ended_ret _ []).
  - (* chunked *)
    eapply ended_bind; [apply (read_request_chunks_ended fuel max Hmax [] s Hf); unfold len; simpl; lia|].
    intros b rest Hb _. eapply (ended_ret _ []); [done|]. destruct b; simpl; [done|unfold len in *; simpl in *; lia].
  - (* length *)
    set (n := default 0 _). assert (Hn : 0 ≤ n).
    { subst n. destruct (HttpMessage_get_header msg (str "Content-Length")) as [v|]; [|done]. simpl.
      destruct (parse_u64 v) as [z|] eqn:Ez; [|done]. by apply parse_u64_bounded in Ez as [? _]. }
    case_if; [by eapply (ended_ret _ [])|]. case_if; [apply ended_fails|]. bool_to_prop.
    apply suffix_bind; auto. intros [] q r1 E1 Hz. unfold zeroed in Hz. case_if_in Hz; [|done]. injection Hz as <-.
    apply suffix_bind; auto. intros body q' r2 Er2 Hc. unfold read_exact in Hc. case_if_in Hc; [|done].
    injection Hc as <- _. bool_to_prop. eapply ended_ret; [exact Er2|].
    unfold len in *. rewrite length_take. lia.
Qed.


Lemma read_response_chunks_ended fuel : ∀ body s,
  (length s < fuel)%nat → ended s (λ _, True) (read_response_chunks fuel body s).
Proof.
  induction fuel as [|fuel IH]; intros body s Hf; [lia|]. cbn [read_response_chunks].
  apply suffix_bind; auto. intros line p r1 Es El.
  case_if; [apply suffix_bind; auto; intros ? q r2 -> _; eapply (ended_ret _ (p ++ q)); [by rewrite <- app_assoc|done]|].
  destruct (decide (s = [])) as [->|Hne]; [rewrite read_line_nil in El; by injection El as <- <-|].
  pose proof (read_line_shorter _ _ _ El Hne) as Hlt.
  apply suffix_bind; auto. intros [] q2 r2 E2 _. apply suffix_bind; auto. intros chunk q3 r3 E3 _.
  apply suffix_bind; auto. intros crlf q4 r4 E4 _.
  apply (ended_trans _ (p ++ q2 ++ q3 ++ q4) r4); [by rewrite Es, E2, E3, E4, !app_assoc|].
  apply IH. rewrite E2, E3, E4 in Hlt. rewrite !length_app in Hlt. lia.
Qed.

Lemma read_headers_ended fuel : ∀ resp s,
  (length s < fuel)%nat → ended s (λ _, True) (read_headers fuel resp s).
Proof.
  induction fuel as [|fuel IH]; intros resp s Hf; [lia|]. cbn [read_headers].
  apply suffix_bind; auto. intros line p r1 Es El.
  destruct line as [|b line]; [by eapply ended_ret|].
  destruct (trim_end_matches _ _) as [|x l]; [by eapply ended_ret|].
  destruct (decide (s = [])) as [->|Hne]; [rewrite read_line_nil in El; by injection El|].
  pose proof (read_line_shorter _ _ _ El Hne) as Hlt.
  eapply ended_trans; [exact Es|]. apply IH. lia.
Qed.

(** The client ends on every answer, and so does the server on every request. *)
Lemma read_response_ended fuel s : (length s < fuel)%nat → ended s (λ _, True) (read_response fuel s).
Proof.
  intros Hf. unfold read_response. eapply (ended_bind _ _ _ (λ _, True)).
  { unfold read_status. apply suffix_bind; auto. intros line p r -> _. destruct line; [apply ended_fails|].
    destruct (status_parts _) as [[[v c] re]|]; [|apply ended_fails].
    destruct (parse_u16 c); [by eapply ended_ret|apply ended_fails]. }
  intros resp r1 _ H1. eapply (ended_bind _ _ _ (λ _, True)); [apply read_headers_ended; lia|].
  intros resp' r2 _ H2. cbv zeta. eapply (ended_bind _ _ _ (λ _, True)); [|intros; by eapply (ended_ret _ [])].
  unfold read_response_body. case_if; [|by eapply (ended_ret _ [])].
  destruct (HttpMessage_get_header resp' (str "Content-Length")) as [cl|].
  - case_if; [|by eapply (ended_ret _ [])].
    apply suffix_bind; auto. intros [] q r3 -> _. apply suffix_bind; auto. intros body q' r4 -> _.
    eapply (ended_ret _ (q ++ q')); [by rewrite <- app_assoc|done].
  - case_if.
    + eapply (ended_bind _ _ _ (λ _, True)); [apply read_response_chunks_ended; lia|].
      intros; by eapply (ended_ret _ []).
    + unfold read_to_end, io_bind, io_ret. eapply (ended_ret _ r2); [by rewrite app_nil_r|done].
Qed.

(** An answer the client panics on. *)
Definition oversized (input : bytes) : Prop := read_response (S (length input)) input = Some Panics.

Lemma bind_panics {A B} (m : io A) (k : A → io B) s :
  io_bind m k s = Some Panics → m s = Some Panics ∨ ∃ a r, m s = Some (Done a r) ∧ k a r = Some Panics.
Proof. unfold io_bind. destruct (m s) as [[a r|e|]|]; [|done|by left|done]. right. by exists a, r. Qed.

Lemma read_line_panics s : read_line s ≠ Some Panics.
Proof. unfold read_line. destruct (take_until _ _). by case_if. Qed.
Lemma read_exact_panics n s : read_exact n s ≠ Some Panics.
Proof. unfold read_exact. by case_if. Qed.
Lemma zeroed_panics n s : zeroed n s = Some Panics → i64_max < n.
Proof. unfold zeroed. case_if; [done|]. bool_to_prop. lia. Qed.
Lemma read_headers_panics fuel : ∀ response s, read_headers fuel response s ≠ Some Panics.
Proof.
  induction fuel as [|fuel IH]; intros response s; cbn [read_headers]; [done|]. intros H.
  apply bind_panics in H as [H|(line & r & _ & H)]; [by eapply read_line_panics|].
  destruct line; [done|]. destruct (trim_end_matches _ _); [done|]. by eapply IH.
Qed.

(** A chunk beyond [isize::MAX] is what makes the chunk loop panic. *)
Lemma read_response_chunks_panics fuel : ∀ body s,
  read_response_chunks fuel body s = Some Panics →
  ∃ p line q n, s = p ++ line ++ q ∧ parse_hex (trim line) = Some n ∧ i64_max < n.
Proof.
  induction fuel as [|fuel IH]; intros body s; cbn [read_response_chunks]; [done|]. intros H.
  apply bind_panics in H as [H|(line & r & El & H)]; [by eapply read_line_panics in H|].
  assert (Es : s = line ++ r).
  { unfold read_line in El. destruct (take_until_split x0a s) as [Hs _]. destruct (take_until x0a s). by case_if_in El; simplify_eq. }
  case_if_in H.
  { apply bind_panics in H as [H|(t & r' & _ & H)]; [by eapply read_line_panics in H|done]. }
  apply bind_panics in H as [Hz%zeroed_panics|([] & r2 & E2 & H)].
  { destruct (parse_hex (trim line)) as [n|] eqn:En; [|unfold i64_max in Hz; cbn in Hz; lia].
    by exists [], line, r, n. }
  apply bind_panics in H as [H|(chunk & r3 & E3 & H)]; [by eapply read_exact_panics in H|].
  apply bind_panics in H as [H|(crlf & r4 & E4 & H)]; [by eapply read_exact_panics in H|].
  destruct (zeroed_suffix (default 0 (parse_hex (trim line))) r) as (o & Eo & Ho). rewrite E2 in Eo. injection Eo as <-.
  destruct (Ho _ _ eq_refl) as [q2 ->].
  destruct (read_exact_suffix (default 0 (parse_hex (trim line))) r2) as (o & Eo & Ho'). rewrite E3 in Eo. injection Eo as <-.
  destruct (Ho' _ _ eq_refl) as [q3 ->].
  destruct (read_exact_suffix 2 r3) as (o & Eo & Ho''). rewrite E4 in Eo. injection Eo as <-.
  destruct (Ho'' _ _ eq_refl) as [q4 ->].
  destruct (IH _ _ H) as (p & line' & q & n & -> & Hn & Hlt).
  exists (line ++ q2 ++ q3 ++ q4 ++ p), line', q, n. split; [|done]. rewrite Es. by rewrite <- !app_assoc.
Qed.

(** What an oversized answer asks for: a body, or a chunk, of more than [isize::MAX] bytes. *)
Lemma oversized_asks input :
  oversized input →
  ∃ response rest, (status ←! read_status; read_headers (S (length input)) status) input = Some (Done response rest)
    ∧ HttpMessage_response_has_body response = true
    ∧ match HttpMessage_get_header response (str "Content-Length") with
      | Some cl => i64_max < content_length cl
      | None => is_chunked response = true
                ∧ ∃ p line q n, rest = p ++ line ++ q ∧ parse_hex (trim line) = Some n ∧ i64_max < n
      end.
Proof.
  unfold oversized, read_response. intros H. apply bind_panics in H as [H|(status & r1 & E1 & H)].
  { unfold read_status in H. apply bind_panics in H as [H|(line & r & _ & H)]; [by eapply read_line_panics in H|].
    destruct line; [done|]. destruct (status_parts _) as [[[v c] re]|]; [|done]. by destruct (parse_u16 c). }
  apply bind_panics in H as [H|(response & r2 & E2 & H)]; [by eapply read_headers_panics in H|].
  exists response, r2. split; [unfold io_bind; by rewrite E1|]. cbv zeta in H.
  apply bind_panics in H as [H|([b k] & r3 & E3 & H)]; [|done]. unfold read_response_body in H.
  destruct (HttpMessage_response_has_body response); [|done]. split; [done|].
  destruct (HttpMessage_get_header response (str "Content-Length")) as [cl|].
  - case_if_in H; [|done]. apply bind_panics in H as [H%zeroed_panics|([] & r4 & _ & H)]; [done|].
    apply bind_panics in H as [H|(body & r5 & _ & H)]; [by eapply read_exact_panics in H|done].
  - destruct (is_chunked response); [|done]. split; [done|].
    apply bind_panics in H as [H|(body & r4 & _ & H)]; [|done]. by eapply read_response_chunks_panics.
Qed.

Lemma read_head_ended fuel : ∀ buf s, (length s < fuel)%nat → ended s (λ _, True) (read_head fuel buf s).
Proof.
  induction fuel as [|fuel IH]; intros buf s Hf; [lia|]. cbn [read_head]. unfold io_bind, read_until.
  destruct (take_until_split x0a s) as [Hs Hne]. destruct (take_until x0a s) as [l r]. simpl in *.
  destruct l as [|b l]; [destruct buf; apply ended_fails|].
  repeat (case_if; [by eapply ended_ret || apply ended_fails|]).
  eapply ended_trans; [exact Hs|]. apply IH. rewrite Hs in Hf. simpl in Hf. rewrite length_app in Hf. lia.
Qed.

Lemma read_request_ended fuel s : (length s < fuel)%nat → ended s (λ _, True) (read_request fuel s).
Proof.
  intros Hf. unfold read_request. eapply (ended_bind _ _ _ (λ _, True)); [by apply read_head_ended|].
  intros buf rest _ _. destruct (httparse_request MAX_HEADERS buf) as [[req|]|e];
    [by eapply (ended_ret _ [])|apply ended_fails..].
Qed.

(** Reading a request's head does not panic. *)
Lemma read_head_panics fuel : ∀ buf s, read_head fuel buf s ≠ Some Panics.
Proof.
  induction fuel as [|fuel IH]; intros buf s; cbn [read_head]; [done|]. intros H.
  apply bind_panics in H as [H|(segment & r & _ & H)]; [unfold read_until in H; by destruct (take_until _ _)|].
  destruct segment; [by destruct buf|]. repeat (case_if_in H; [done|]). by eapply IH.
Qed.

Lemma read_request_panics fuel s : read_request fuel s ≠ Some Panics.
Proof.
  unfold read_request. intros H. apply bind_panics in H as [H|(buf & r & _ & H)]; [by eapply read_head_panics|].
  by destruct (httparse_request MAX_HEADERS buf) as [[req|]|e].
Qed.

End ends.

(* ------------------------------------------------------------------ *)
(** ** Chunked bodies *)

(** A chunk is its size as written, and its bytes. *)
Definition chunk_ok (c : bytes * bytes) : Prop :=
  Forall ascii_graphic c.1 ∧ parse_hex c.1 = Some (len c.2) ∧ c.2 ≠ [].

Definition chunk_bytes (c : bytes * bytes) : bytes := c.1 ++ [x0d; x0a] ++ c.2 ++ [x0d; x0a].

(** The chunks, the last line and the empty line after it. *)
Definition chunked (cs : list (bytes * bytes)) (zero : bytes) : bytes :=
  concat (chunk_bytes <$> cs) ++ zero ++ [x0d; x0a; x0d; x0a].

Lemma read_line_crlf l r :
  utf8_valid l = true → x0a ∉ l → read_line (l ++ x0d :: x0a :: r) = Some (Done (l ++ [x0d; x0a]) r).
Proof.
  intros Hu Hn. unfold read_line.
  replace (l ++ x0d :: x0a :: r) with ((l ++ [x0d]) ++ x0a :: r) by by rewrite <- app_assoc.
  rewrite take_until_app by set_solver. rewrite <- app_assoc. cbn [app].
  by rewrite utf8_valid_split, Hu.
Qed.

Lemma trim_end_crlf l : strip_any (reverse <$> ws_seqs) (reverse l) = None → trim_end (l ++ [x0d; x0a]) = l.
Proof.
  intros Hl. unfold trim_end. rewrite length_app, Nat.add_comm, reverse_app.
  change (strip_while (length [x0d; x0a] + length l) (reverse <$> ws_seqs) (reverse [x0d; x0a] ++ reverse l))
    with (strip_while (length l) (reverse <$> ws_seqs) (reverse l)).
  rewrite strip_while_none by done. apply reverse_involutive.
Qed.

Lemma trim_crlf l : trimmed l → trim (l ++ [x0d; x0a]) = l.
Proof.
  intros [H1 H2]. unfold trim. destruct l as [|b l]; [by vm_compute|].
  assert (Hs : trim_start ((b :: l) ++ [x0d; x0a]) = (b :: l) ++ [x0d; x0a]).
  { apply strip_while_none. apply (strip_any_app x0d); [done| |done]. by apply (bool_decide_unpack _). }
  rewrite Hs. by apply trim_end_crlf.
Qed.

Lemma graphic_facts t :
  Forall ascii_graphic t → utf8_valid t = true ∧ (x0a ∉ t) ∧ (t ≠ [] → trimmed t).
Proof.
  intros Ht. split_and!.
  - rewrite <- (app_nil_r t), ascii_utf8; [done|]. eapply Forall_impl; [done|].
    intros b [_ Hb]. unfold byte_in. pose proof (u8_val_range b). apply andb_true_iff. rewrite !Z.leb_le. lia.
  - intros Hin. rewrite Forall_forall in Ht. apply Ht in Hin as [? _]. done.
  - intros Hne. destruct t as [|a t]; [done|]. destruct (last (a :: t)) as [b|] eqn:E; [|by apply last_None in E].
    apply Forall_cons in Ht as Ha. apply (trimmed_graphic a t b); [by apply Ha| |done].
    apply last_Some in E as [s' E]. rewrite E in Ht. by decompose_Forall.
Qed.

Lemma size_line t n r :
  Forall ascii_graphic t → parse_hex t = Some n →
  read_line (t ++ x0d :: x0a :: r) = Some (Done (t ++ [x0d; x0a]) r) ∧ trim (t ++ [x0d; x0a]) = t.
Proof.
  intros Ht Hn. destruct (graphic_facts t Ht) as (Hu & Hnl & Htr). split; [by apply read_line_crlf|].
  apply trim_crlf, Htr. by intros ->.
Qed.

Lemma read_exact_app n a r : n = len a → read_exact n (a ++ r) = Some (Done a r).
Proof.
  intros ->. unfold read_exact, len. rewrite length_app.
  assert ((Z.of_nat (length a) <=? Z.of_nat (length a + length r)) = true) as -> by (apply Z.leb_le; lia).
  by rewrite Nat2Z.id, take_app_length, drop_app_length.
Qed.

Lemma len_pos (s : bytes) : s ≠ [] → 0 < len s.
Proof. destruct s; [done|]. unfold len. simpl. lia. Qed.

Section chunks.
  Context {errors : StdErrors}.

Lemma chunk_step fuel max body c r :
  chunk_ok c → len body + len c.2 ≤ max → max ≤ i64_max →
  read_request_chunks (S fuel) max body (chunk_bytes c ++ r) = read_request_chunks fuel max (body ++ c.2) r
  ∧ read_response_chunks (S fuel) body (chunk_bytes c ++ r) = read_response_chunks fuel (body ++ c.2) r.
Proof.
  destruct c as [t d]. intros (Ht & Hn & Hd) Hmax Hi. simpl in *. pose proof (len_pos d Hd) as Hp.
  assert (chunk_bytes (t, d) ++ r = t ++ x0d :: x0a :: d ++ x0d :: x0a :: r) as ->
    by (unfold chunk_bytes; simpl; rewrite <- app_assoc; simpl; by rewrite <- app_assoc).
  destruct (size_line t (len d) (d ++ [x0d; x0a] ++ r) Ht Hn) as [Hl Htr].
  assert (Hz : ∀ s, zeroed (len d) s = Some (Done tt s)).
  { intros s. unfold zeroed. assert ((len d <=? i64_max) = true) as ->; [|done]. apply Z.leb_le. unfold len in *. lia. }
  assert (Hne : (len d =? 0) = false) by (apply Z.eqb_neq; lia).
  assert (Hw : (max <? u64_wrap (len body + len d)) = false).
  { rewrite u64_wrap_small by (unfold len, u64_max, i64_max in *; lia). apply Z.ltb_ge. lia. }
  cbn [app] in Hl.
  split; cbn [read_request_chunks read_response_chunks]; unfold io_bind at 1; rewrite Hl, Htr, Hn; cbv zeta;
    change (default 0 (Some (len d))) with (len d).
  - rewrite Hne, Hw. unfold io_bind. rewrite Hz, (read_exact_app _ d) by done.
    by rewrite (read_exact_app 2 [x0d; x0a] r eq_refl : read_exact 2 (x0d :: x0a :: r) = _).
  - rewrite Hne. unfold io_bind. rewrite Hz, (read_exact_app _ d) by done.
    by rewrite (read_exact_app 2 [x0d; x0a] r eq_refl : read_exact 2 (x0d :: x0a :: r) = _).
Qed.

(** Every way to cut a body into chunks is undone: whatever the sizes of the
    chunks and however they are written (upper or lower case, leading zeros), the
    server's reader and the client's return the bytes of all chunks in order, as
    long as they are within the limit, and leave exactly what follows the last
    line. *)
Theorem chunked_decoded cs zero rest fuel max :
  Forall chunk_ok cs → Forall ascii_graphic zero → parse_hex zero = Some 0 →
  len (concat (snd <$> cs)) ≤ max → max ≤ i64_max → (length cs < fuel)%nat →
  read_request_chunks fuel max [] (chunked cs zero ++ rest) = Some (Done (concat (snd <$> cs)) rest)
  ∧ read_response_chunks fuel [] (chunked cs zero ++ rest) = Some (Done (concat (snd <$> cs)) rest).
Proof.
  intros Hcs Hz Hz0. change (concat (snd <$> cs)) with ([] ++ concat (snd <$> cs)).
  generalize ([] : bytes) as body. revert fuel. unfold chunked.
  induction Hcs as [|c cs Hc _ IH]; intros fuel body Hmax Hi Hf; (destruct fuel as [|fuel]; [lia|]).
  - simpl. rewrite app_nil_r, <- app_assoc. cbn [app].
    destruct (size_line zero 0 (x0d :: x0a :: rest) Hz Hz0) as [Hl Htr].
    pose proof (read_line_crlf [] rest eq_refl ltac:(set_solver)) as Hl2. cbn [app] in Hl2.
    cbn [read_request_chunks read_response_chunks]. unfold io_bind.
    rewrite Hl, Htr, Hz0. cbn. by rewrite Hl2.
  - set (tl := (concat (chunk_bytes <$> cs) ++ zero ++ [x0d; x0a; x0d; x0a]) ++ rest).
    assert ((concat (chunk_bytes <$> c :: cs) ++ zero ++ [x0d; x0a; x0d; x0a]) ++ rest = chunk_bytes c ++ tl) as ->
      by (unfold tl; rewrite fmap_cons; cbn [concat]; by rewrite <- !app_assoc).
    assert (body ++ concat (snd <$> c :: cs) = (body ++ c.2) ++ concat (snd <$> cs)) as Eb
      by (rewrite fmap_cons; cbn [concat]; by rewrite app_assoc).
    rewrite Eb in Hmax |- *. destruct (chunk_step fuel max body c tl Hc) as [E1 E2]; [|done|].
    { unfold len in *. rewrite !length_app in Hmax. lia. }
    rewrite E1, E2. apply IH; [done..|simpl in Hf; lia].
Qed.

End chunks.

(* ------------------------------------------------------------------ *)
(** ** What the server writes, the client reads *)

Definition lower_name (h : Header) : bytes := to_ascii_lowercase (h_name h).

(** A header a line can carry. *)
Definition header_ok (h : Header) : Prop :=
  header_wf h ∧ h_name h ≠ [] ∧ trimmed (h_name h) ∧ trimmed (h_value h)
  ∧ (x3a ∉ h_name h) ∧ (x0a ∉ h_name h) ∧ (x0a ∉ h_value h)
  ∧ utf8_valid (h_name h) = true ∧ utf8_valid (h_value h) = true.

(** The headers the server sends, its own Content-Length included. *)
Definition sent_headers (response : HttpMessage) (body : option bytes) : list Header :=
  headers (msg_headers response)
  ++ match body with
     | Some body =>
         if bool_decide (HttpMessage_get_header response (str "Content-Length") = None)
            && bool_decide (HttpMessage_get_header response (str "Transfer-Encoding") = None)
         then [Header_new (str "Content-Length") (show_u64 (len body))] else []
     | None => []
     end.

(** The response as the client sees it. *)
Definition received (response : HttpMessage) (body : option bytes) : HttpMessage :=
  msg_with_headers
    (set_reason (msg_reason response) (HttpMessage_new_response (msg_status response) (msg_protocol response)))
    (mkHeaderMap (sent_headers response body)).

(** A response whose body has a length both sides agree on. *)
Definition framed (response : HttpMessage) (body : option bytes) : Prop :=
  if HttpMessage_response_has_body response then
    match HttpMessage_get_header response (str "Content-Length") with
    | Some cl => parse_u64 cl = Some (len (default [] body))
    | None => HttpMessage_get_header response (str "Transfer-Encoding") = None ∧ is_Some body
    end
  else default [] body = [].

Definition response_ok (response : HttpMessage) (body : option bytes) : Prop :=
  Forall header_ok (headers (msg_headers response))
  ∧ NoDup (lower_name <$> headers (msg_headers response))
  ∧ 0 ≤ status_code (msg_status response) ≤ u16_max
  ∧ trimmed (msg_reason response) ∧ (x0a ∉ msg_reason response) ∧ utf8_valid (msg_reason response) = true
  ∧ len (default [] body) ≤ i64_max
  ∧ framed response body.

Lemma trim_end_matches_none q l : x0a ∉ l → trim_end_matches (reverse (x0a :: q)) l = l.
Proof.
  intros Hl. unfold trim_end_matches. rewrite reverse_involutive, strip_while_none; [apply reverse_involutive|].
  cbn [strip_any]. destruct (reverse l) as [|y t] eqn:E; [done|]. rewrite strip_prefix_cons.
  rewrite decide_False; [done|]. intros <-. apply Hl. rewrite <- (reverse_involutive l), E. set_solver.
Qed.

Lemma trim_end_matches_crlf l : x0a ∉ l → trim_end_matches [x0d; x0a] (l ++ [x0d; x0a]) = l.
Proof.
  intros Hl. unfold trim_end_matches. rewrite length_app, Nat.add_comm, reverse_app.
  change (strip_while (length [x0d; x0a] + length l) [reverse [x0d; x0a]] (reverse [x0d; x0a] ++ reverse l))
    with (strip_while (S (length l)) [[x0a; x0d]] (reverse l)).
  pose proof (trim_end_matches_none [x0d] l Hl) as H. unfold trim_end_matches in H.
  change (reverse (reverse [x0a; x0d])) with [x0a; x0d] in H.
  rewrite strip_while_none; [apply reverse_involutive|].
  destruct (reverse l) as [|y t] eqn:E; [done|]. cbn [strip_any]. rewrite strip_prefix_cons.
  rewrite decide_False; [done|]. intros <-. apply Hl. rewrite <- (reverse_involutive l), E. set_solver.
Qed.

(** [set_header] of a name that is not there appends it. *)
Lemma HeaderMap_set_fresh m h :
  header_wf h → lower_name h ∉ lower_name <$> headers m →
  HeaderMap_set m (h_name h) (h_value h) = mkHeaderMap (headers m ++ [h]).
Proof.
  intros Hwf Hni. unfold HeaderMap_set, retain. cbn [headers]. f_equal. f_equal.
  - induction (headers m) as [|g l IH]; [done|]. rewrite fmap_cons in Hni. apply not_elem_of_cons in Hni as [Hg Hl].
    cbn [List.filter]. rewrite IH by done. unfold Header_name_eq_ignore_case at 1.
    destruct (eq_ignore_ascii_case (h_name g) (h_name h)) eqn:E; [|done].
    apply eq_ignore_ascii_case_spec in E. by destruct Hg.
  - destruct h as [n v k]. unfold header_wf in Hwf. simpl in *. by rewrite Hwf.
Qed.

Lemma header_line_read h r :
  header_ok h →
  read_line (header_line h ++ r) = Some (Done (header_line h) r)
  ∧ trim_end_matches [x0a] (trim_end_matches [x0d; x0a] (header_line h)) = h_name h ++ x3a :: x20 :: h_value h.
Proof.
  intros (_ & Hne & _ & _ & _ & Hn & Hv & Un & Uv).
  assert (header_line h = (h_name h ++ x3a :: x20 :: h_value h) ++ [x0d; x0a]) as ->
    by (unfold header_line; by rewrite <- app_assoc).
  assert (Hnl : x0a ∉ h_name h ++ x3a :: x20 :: h_value h) by set_solver.
  split.
  - rewrite <- app_assoc. apply read_line_crlf; [|done]. rewrite utf8_valid_split, Un by done.
    by rewrite !utf8_valid_ascii_cons, Uv.
  - rewrite trim_end_matches_crlf by done. by apply (trim_end_matches_none []).
Qed.

Lemma read_headers_step fuel resp h r :
  header_ok h →
  read_headers (S fuel) resp (header_line h ++ r)
  = read_headers fuel (HttpMessage_set_header resp (h_name h) (h_value h)) r.
Proof.
  intros Hok. destruct (header_line_read h r Hok) as [Hl Ht]. destruct Hok as (_ & Hne & Tn & Tv & Hc & _).
  cbn [read_headers]. unfold io_bind. rewrite Hl, Ht. rewrite split_once_byte_Some by done.
  rewrite (trim_trimmed _ Tn), (trim_space _ Tv).
  destruct (h_name h) as [|x n] eqn:En; [done|]. unfold header_line. rewrite En. done.
Qed.

Lemma read_headers_all hs : ∀ fuel resp rest,
  Forall header_ok hs → NoDup (lower_name <$> headers (msg_headers resp) ++ hs) → (length hs < fuel)%nat →
  read_headers fuel resp (concat (header_line <$> hs) ++ x0d :: x0a :: rest)
  = Some (Done (msg_with_headers resp (mkHeaderMap (headers (msg_headers resp) ++ hs))) rest).
Proof.
  induction hs as [|h hs IH]; intros fuel resp rest Hok Hnd Hf; (destruct fuel as [|fuel]; [lia|]).
  - cbn [fmap list_fmap concat app read_headers]. unfold io_bind.
    pose proof (read_line_crlf [] rest eq_refl ltac:(set_solver)) as Hl. cbn [app] in Hl. rewrite Hl.
    change (trim_end_matches [x0a] (trim_end_matches [x0d; x0a] [x0d; x0a])) with ([] : bytes). cbv iota zeta.
    rewrite app_nil_r. destruct resp as [[hs0] st p m u re b]. done.
  - apply Forall_cons in Hok as [Hh Hok]. rewrite fmap_cons. cbn [concat]. rewrite <- app_assoc.
    rewrite read_headers_step by done. destruct Hh as (Hwf & _).
    unfold HttpMessage_set_header. rewrite HeaderMap_set_fresh; [|done|].
    + rewrite IH; [|done| |simpl in Hf; lia]; cbn [msg_headers msg_with_headers headers]; rewrite <- app_assoc; done.
    + rewrite fmap_app, fmap_cons in Hnd. apply NoDup_app in Hnd as (_ & Hd & _). intros Hin. apply (Hd _ Hin). set_solver.
Qed.

Lemma version_facts v :
  Forall ascii_graphic (HttpVersion_as_str v) ∧ (x20 ∉ HttpVersion_as_str v).
Proof. split; apply (bool_decide_unpack _); by destruct v; vm_compute. Qed.

Lemma trim_end_space_crlf l :
  strip_any (reverse <$> ws_seqs) (reverse l) = None → trim_end ((l ++ [x20]) ++ [x0d; x0a]) = l.
Proof.
  intros Hl. unfold trim_end. rewrite <- app_assoc, length_app, Nat.add_comm, reverse_app.
  change (strip_while (length ([x20] ++ [x0d; x0a]) + length l) (reverse <$> ws_seqs) (reverse ([x20] ++ [x0d; x0a]) ++ reverse l))
    with (strip_while (length l) (reverse <$> ws_seqs) (reverse l)).
  rewrite strip_while_none by done. apply reverse_involutive.
Qed.

(** A line that ends with a graphic byte, or with a non-empty trimmed part. *)
Lemma end_trimmed_app a b :
  b ≠ [] → trimmed b → (∃ c a', a = a' ++ [c] ∧ (ascii_graphic c ∨ c = x20)) →
  strip_any (reverse <$> ws_seqs) (reverse (a ++ b)) = None.
Proof.
  intros Hb [_ Tb] (c & a' & -> & Hc). rewrite <- app_assoc. cbn [app]. rewrite reverse_app, reverse_cons, <- app_assoc.
  cbn [app]. apply (strip_any_app c); [| |done].
  - destruct b as [|x b]; [done|]. rewrite reverse_cons. by destruct (reverse b).
  - destruct Hc as [Hc| ->]; [by apply graphic_not_in_ws|by apply (bool_decide_unpack _)].
Qed.

Section response.
  Context {errors : StdErrors}.

(** The three parts of a status line, with or without a reason. *)
Lemma status_line_read m r :
  0 ≤ status_code (msg_status m) ≤ u16_max → trimmed (msg_reason m) → x0a ∉ msg_reason m →
  utf8_valid (msg_reason m) = true →
  read_status (HttpMessage_status_line m ++ x0d :: x0a :: r)
  = Some (Done (set_reason (msg_reason m) (HttpMessage_new_response (msg_status m) (msg_protocol m))) r).
Proof.
  intros Hst Tr Nr Ur. destruct (version_facts (msg_protocol m)) as [Gv Sv].
  assert (Hst' : 0 ≤ status_code (msg_status m) ≤ u64_max) by (unfold u16_max, u64_max in *; lia).
  pose proof (show_u64_graphic _ Hst') as Gc. pose proof (show_u64_notin x20 _ Hst' eq_refl) as Sc.
  destruct (graphic_facts _ Gv) as (Uv & Nv & _), (graphic_facts _ Gc) as (Uc & Nc & _).
  set (v := HttpVersion_as_str (msg_protocol m)) in *. set (c := show_u64 (status_code (msg_status m))) in *.
  assert (El : HttpMessage_status_line m = v ++ x20 :: c ++ x20 :: msg_reason m) by done.
  assert (Hread : read_line (HttpMessage_status_line m ++ x0d :: x0a :: r)
                  = Some (Done (HttpMessage_status_line m ++ [x0d; x0a]) r)).
  { apply read_line_crlf; rewrite El.
    - rewrite utf8_valid_split, utf8_valid_ascii_cons, utf8_valid_split, utf8_valid_ascii_cons by done.
      by rewrite Uv, Uc, Ur.
    - set_solver. }
  assert (Hparts : status_parts (trim_end (HttpMessage_status_line m ++ [x0d; x0a])) = Some (v, c, msg_reason m)).
  { rewrite El. destruct (decide (msg_reason m = [])) as [->|Hne].
    - assert (v ++ x20 :: c ++ [x20] = (v ++ x20 :: c) ++ [x20]) as -> by by rewrite <- app_assoc.
      rewrite trim_end_space_crlf.
      + unfold status_parts. rewrite split_once_byte_Some by done. cbn. by rewrite split_once_byte_None.
      + destruct (show_u64_cons (status_code (msg_status m))) as (x & s & Ex). fold c in Ex.
        replace (v ++ x20 :: c) with ((v ++ [x20]) ++ c) by by rewrite <- app_assoc.
        apply end_trimmed_app; [by rewrite Ex|apply (graphic_facts c Gc); by rewrite Ex|].
        exists x20, v. by auto.
    - rewrite trim_end_crlf.
      + unfold status_parts. rewrite split_once_byte_Some by done. cbn. by rewrite split_once_byte_Some.
      + replace (v ++ x20 :: c ++ x20 :: msg_reason m) with (((v ++ x20 :: c) ++ [x20]) ++ msg_reason m)
          by (rewrite <- !app_assoc; done).
        apply end_trimmed_app; [done..|]. exists x20, (v ++ x20 :: c). by auto. }
  unfold read_status, io_bind. rewrite Hread.
  destruct (HttpMessage_status_line m ++ [x0d; x0a]) as [|y l] eqn:Ey; [by apply app_eq_nil in Ey as [_ ?]|].
  rewrite <- Ey in Hparts |- *. rewrite Hparts. unfold v, c. rewrite HttpVersion_from_as_str.
  unfold parse_u16. rewrite parse_show_uint by (unfold u16_max, u64_max in *; lia).
  by destruct (msg_status m).
Qed.

Lemma HeaderMap_get_app hs extra name :
  HeaderMap_get (mkHeaderMap (hs ++ extra)) name
  = match HeaderMap_get (mkHeaderMap hs) name with
    | Some v => Some v
    | None => HeaderMap_get (mkHeaderMap extra) name
    end.
Proof.
  unfold HeaderMap_get. cbn [headers].
  induction hs as [|h hs IH]; [done|]. cbn [List.find app]. by case_if.
Qed.

Lemma get_None_lower m name h :
  HeaderMap_get m name = None → h_name h = name → lower_name h ∉ lower_name <$> headers m.
Proof.
  unfold HeaderMap_get. intros Hg%fmap_None <- Hin. apply list_elem_of_fmap in Hin as (g & Eg & Hg').
  apply list_elem_of_In in Hg'. eapply find_none in Hg; [|done]. unfold Header_name_eq_ignore_case in Hg.
  assert (eq_ignore_ascii_case (h_name g) (h_name h) = true); [|congruence].
  by apply eq_ignore_ascii_case_spec.
Qed.

Lemma content_length_ok t : Forall ascii_graphic t → t ≠ [] → header_ok (Header_new (str "Content-Length") t).
Proof.
  intros G Hne. destruct (graphic_facts _ G) as (U & N & T). specialize (T Hne).
  unfold header_ok. cbn [h_name h_value Header_new].
  split; [reflexivity|]. split; [discriminate|]. split; [apply (bool_decide_unpack _); vm_compute; exact I|].
  split; [exact T|]. split; [apply (bool_decide_unpack _); vm_compute; exact I|].
  split; [apply (bool_decide_unpack _); vm_compute; exact I|]. split; [exact N|]. split; [reflexivity|exact U].
Qed.

Lemma sent_headers_ok response body :
  response_ok response body →
  Forall header_ok (sent_headers response body) ∧ NoDup (lower_name <$> sent_headers response body).
Proof.
  intros (Hh & Hnd & _ & _ & _ & _ & Hlen & _). unfold sent_headers.
  destruct body as [b|]; [|by rewrite app_nil_r]. case_if; [|by rewrite app_nil_r].
  apply andb_true_iff in E as [E%bool_decide_eq_true _]. split.
  - apply Forall_app. split; [done|]. constructor; [|constructor]. apply content_length_ok.
    + apply show_u64_graphic. unfold len, i64_max, u64_max in *. simpl in Hlen. lia.
    + by destruct (show_u64_cons (len b)) as (x & s & ->).
  - rewrite fmap_app. apply NoDup_app. split; [done|]. split; [|apply NoDup_singleton].
    intros x Hx Hx'. apply list_elem_of_singleton in Hx'. subst x.
    by eapply get_None_lower in Hx; [| |reflexivity].
Qed.

(** The bytes of the response, headers as sent. *)
Lemma write_response_shape response body :
  write_response response body
  = HttpMessage_status_line response ++ x0d :: x0a :: concat (header_line <$> sent_headers response body)
    ++ x0d :: x0a :: default [] body.
Proof.
  unfold write_response, sent_headers. rewrite fmap_app, concat_app. cbn [app]. do 3 f_equal.
  rewrite <- app_assoc. f_equal. destruct body as [b|]; [|done]. case_if; [|done].
  cbn [fmap list_fmap concat]. unfold header_line. cbn [h_name h_value Header_new]. rewrite app_nil_r. done.
Qed.

(** The length the client reads is the one the server meant. *)
Lemma received_length response body :
  framed response body → len (default [] body) ≤ i64_max → HttpMessage_response_has_body response = true →
  ∃ cl, HttpMessage_get_header (received response body) (str "Content-Length") = Some cl
    ∧ content_length cl = len (default [] body).
Proof.
  unfold framed. intros Hf Hlen Hb. rewrite Hb in Hf. unfold HttpMessage_get_header, received. cbn [msg_with_headers msg_headers].
  unfold sent_headers. rewrite HeaderMap_get_app.
  unfold HttpMessage_get_header in Hf at 1.
  assert (E0 : HeaderMap_get (mkHeaderMap (headers (msg_headers response))) (str "Content-Length")
               = HeaderMap_get (msg_headers response) (str "Content-Length")) by by destruct (msg_headers response).
  rewrite E0. destruct (HeaderMap_get (msg_headers response) (str "Content-Length")) as [cl|] eqn:E.
  - exists cl. split; [done|]. unfold content_length. by rewrite Hf.
  - destruct Hf as [Hte [b ->]]. exists (show_u64 (len b)). 
    rewrite (bool_decide_true (HttpMessage_get_header response (str "Content-Length") = None)) by exact E.
    rewrite bool_decide_true by exact Hte. split; [done|]. unfold content_length. rewrite parse_show_u64; [done|]. unfold len, i64_max, u64_max in *. simpl in Hlen. lia.
Qed.

(** A message with the headers [hs], and how the client sees it. *)
Definition message_bytes (response : HttpMessage) (hs : list Header) (body : option bytes) : bytes :=
  HttpMessage_status_line response ++ x0d :: x0a :: concat (header_line <$> hs) ++ x0d :: x0a :: default [] body.

Definition received_with (response : HttpMessage) (hs : list Header) : HttpMessage :=
  msg_with_headers
    (set_reason (msg_reason response) (HttpMessage_new_response (msg_status response) (msg_protocol response)))
    (mkHeaderMap hs).

(** What a message needs apart from its headers' framing. *)
Definition message_ok (response : HttpMessage) (hs : list Header) (body : option bytes) : Prop :=
  Forall header_ok hs ∧ NoDup (lower_name <$> hs)
  ∧ 0 ≤ status_code (msg_status response) ≤ u16_max
  ∧ trimmed (msg_reason response) ∧ (x0a ∉ msg_reason response) ∧ utf8_valid (msg_reason response) = true
  ∧ len (default [] body) ≤ i64_max.

(** The headers announce the length of the body, or there can be none. *)
Definition length_announced (response : HttpMessage) (hs : list Header) (body : option bytes) : Prop :=
  if HttpMessage_response_has_body response then
    ∃ cl, HeaderMap_get (mkHeaderMap hs) (str "Content-Length") = Some cl ∧ content_length cl = len (default [] body)
  else default [] body = [].

Lemma body_read fuel response hs body rest :
  length_announced response hs body → len (default [] body) ≤ i64_max →
  read_response_body fuel (received_with response hs) (default [] body ++ rest)
  = Some (Done (non_empty (default [] body), true) rest).
Proof.
  unfold length_announced. intros Hf Hlen. unfold read_response_body.
  change (HttpMessage_response_has_body (received_with response hs)) with (HttpMessage_response_has_body response).
  change (HttpMessage_get_header (received_with response hs) (str "Content-Length"))
    with (HeaderMap_get (mkHeaderMap hs) (str "Content-Length")).
  destruct (HttpMessage_response_has_body response) eqn:Hb; [|by rewrite Hf].
  destruct Hf as (cl & -> & ->). destruct (default [] body) as [|x d] eqn:Ed; [done|].
  assert ((0 <? len (x :: d)) = true) as -> by (apply Z.ltb_lt, len_pos; done).
  unfold io_bind, zeroed. assert ((len (x :: d) <=? i64_max) = true) as -> by by apply Z.leb_le.
  unfold io_ret at 1. by rewrite read_exact_app.
Qed.

Lemma message_read fuel response hs body rest :
  message_ok response hs body → length_announced response hs body → (length hs < fuel)%nat →
  read_response fuel (message_bytes response hs body ++ rest)
  = Some (Done (received_with response hs, non_empty (default [] body), is_keep_alive (received_with response hs)) rest).
Proof.
  intros (Hh & Hnd & Hst & Tr & Nr & Ur & Hlen) Hfr Hf. unfold message_bytes.
  rewrite <- app_assoc. cbn [app]. rewrite <- app_assoc. cbn [app].
  unfold read_response, io_bind at 1. rewrite status_line_read by done.
  unfold io_bind at 1. rewrite read_headers_all; [|done|done|done].
  change (msg_with_headers _ _) with (received_with response hs).
  unfold io_bind. rewrite body_read by done. cbn. by rewrite andb_true_r.
Qed.

(** What [write_response] writes, the client reads: a response with distinct header
    names that a line can carry, and with a body whose length is announced by its own
    Content-Length or by the one that is added, comes back with the same status,
    version, reason, headers in their order and body, and the reader stops exactly
    at the end of the message.  The server has no call of it ([Connection]). *)
Theorem response_roundtrip fuel response body rest :
  response_ok response body → (length (sent_headers response body) < fuel)%nat →
  read_response fuel (write_response response body ++ rest)
  = Some (Done (received response body, non_empty (default [] body), is_keep_alive (received response body)) rest).
Proof.
  intros Hok Hf. destruct (sent_headers_ok response body Hok) as [Hh Hnd].
  destruct Hok as (_ & _ & Hst & Tr & Nr & Ur & Hlen & Hfr).
  rewrite write_response_shape. apply message_read; [unfold message_ok; do 6 (split; [assumption|]); assumption| |done].
  unfold length_announced. destruct (HttpMessage_response_has_body response) eqn:Hb.
  - by apply received_length.
  - unfold framed in Hfr. by rewrite Hb in Hfr.
Qed.

End response.

(** The two sides agree on keeping a connection for HTTP/1 messages. *)
Lemma keepalive_agrees m : msg_protocol m ≠ Http2 → is_keep_alive m = should_keepalive m.
Proof.
  intros Hp. unfold is_keep_alive, should_keepalive.
  destruct (HttpMessage_get_header m (str "Connection")) as [v|]; destruct (msg_protocol m) eqn:E; done.
Qed.

(** An exchange over a connection the server answers: the stream goes back to the
    pool exactly when both sides keep the connection. *)
Lemma exchange_answered `{DashIter} {errors : StdErrors} show_addr fuel now connect stream input addr request body
    response rbody rest pool :
  (match pool with Some p => (ConnectionPool_get addr now p).1 = Some stream | None => connect = Ok stream end) →
  input stream = write_response response rbody ++ rest →
  response_ok response rbody → (length (sent_headers response rbody) < fuel)%nat →
  send_backend_request show_addr fuel now connect input addr request body pool
  = Some (Answered (Ok (received response rbody, non_empty (default [] rbody)))
           (Some (stream, request_bytes show_addr addr request body))
           ((λ p, let p := (ConnectionPool_get addr now p).2 in
                  if is_keep_alive (received response rbody) then ConnectionPool_put addr stream now p else p) <$> pool)).
Proof.
  intros Hs Hin Hok Hf. unfold send_backend_request.
  destruct pool as [p|].
  - destruct (ConnectionPool_get addr now p) as [s p'] eqn:Ep. simpl in Hs. subst s.
    rewrite Hin, response_roundtrip by done. cbn. by rewrite Ep.
  - rewrite Hs, Hin, response_roundtrip by done. done.
Qed.

(* ------------------------------------------------------------------ *)
(** ** What the code does not do *)

Section limits.
  Context {errors : StdErrors}.

(** The sum that is compared with the limit wraps around: a second chunk of
    2^64 - 1 bytes passes the test, and asking for its buffer panics. *)
Example chunk_overflow_panics :
  read_request_chunks 3 100 [] (str "1" ++ [x0d; x0a] ++ str "a" ++ [x0d; x0a] ++ str "ffffffffffffffff" ++ [x0d; x0a])
  = Some Panics.
Proof. vm_compute. reflexivity. Qed.

(** A chunk extension makes the client stop: the body is lost, what follows is left
    on a connection that goes back to the pool. *)
Example client_chunk_extension :
  read_response 4
    (str "HTTP/1.1 200 OK" ++ [x0d; x0a] ++ str "Transfer-Encoding: chunked" ++ [x0d; x0a; x0d; x0a]
     ++ str "5;name=value" ++ [x0d; x0a] ++ str "hello" ++ [x0d; x0a] ++ str "0" ++ [x0d; x0a; x0d; x0a])
  = Some (Done (HttpMessage_set_header (HttpMessage_new_response HttpStatus_OK Http11)
                  (str "Transfer-Encoding") (str "chunked"), None, true)
            (str "0" ++ [x0d; x0a; x0d; x0a])).
Proof. vm_compute. reflexivity. Qed.

(** Of several headers with one name the client keeps the last. *)
Example client_duplicate_headers :
  read_headers 4 (HttpMessage_new_response HttpStatus_OK Http11)
    (str "Set-Cookie: a=1" ++ [x0d; x0a] ++ str "Set-Cookie: b=2" ++ [x0d; x0a; x0d; x0a])
  = Some (Done (HttpMessage_set_header (HttpMessage_new_response HttpStatus_OK Http11)
                  (str "Set-Cookie") (str "b=2")) []).
Proof. vm_compute. reflexivity. Qed.

(** A request with an empty Content-Length and a chunked body has no body for the
    server: its chunks stay on the connection, as the next request. *)
Example length_hides_chunks :
  let m := HttpMessage_set_header
             (HttpMessage_set_header (HttpMessage_new_request HttpMethod_Post (str "/") Http11)
                (str "Content-Length") (str "0")) (str "Transfer-Encoding") (str "chunked") in
  let s := str "1" ++ [x0d; x0a] ++ str "G" ++ [x0d; x0a] ++ str "0" ++ [x0d; x0a; x0d; x0a] in
  read_body 10 (request_body_status m) 100 s = Some (Done None s).
Proof. vm_compute. reflexivity. Qed.

(** A response that announces chunks is written with its body as it is. *)
Example write_response_unchunked :
  let m := HttpMessage_set_header (HttpMessage_new_response HttpStatus_OK Http11)
             (str "Transfer-Encoding") (str "chunked") in
  read_response 4 (write_response m (Some (str "hello")))
  = Some (Done (m, None, true) []).
Proof. vm_compute. reflexivity. Qed.

(** A pooled connection the peer has closed is an error, although a new one could
    be opened. *)
Example stale_connection `{DashIter} show_addr addr request :
  let p := mkPool 10 60 (<[addr := [mkPooled 0 addr 0 0]]> ∅) 1 in
  ∃ w q, send_backend_request show_addr 1 0 (Ok 1%nat) (λ _, []) addr request None (Some p)
         = Some (Answered (Err TransportError.ConnectionClosed) w q).
Proof.
  intros p. assert (Hg : (ConnectionPool_get addr 0 p).1 = Some 0%nat).
  { unfold p, ConnectionPool_get, get_locked. cbn [cp_connections]. by rewrite lookup_insert_eq. }
  unfold send_backend_request. destruct (ConnectionPool_get addr 0 p) as [s q]. simpl in Hg. subst s.
  by do 2 eexists.
Qed.

End limits.

(* ------------------------------------------------------------------ *)
(** ** Witnesses *)

Definition no_errors : StdErrors := {| utf8_error _ := []; int_error _ := [] |}.


Lemma chunked_decoded_witness :
  @read_request_chunks no_errors 3 100 [] (chunked [(str "5", str "hello"); (str "0B", str " and more..")] (str "00") ++ str "GET")
  = Some (Done (str "hello and more..") (str "GET"))
  ∧ read_response_chunks 3 [] (chunked [(str "5", str "hello"); (str "0B", str " and more..")] (str "00") ++ str "GET")
    = Some (Done (str "hello and more..") (str "GET")).
Proof.
  apply (@chunked_decoded no_errors [(str "5", str "hello"); (str "0B", str " and more..")] (str "00") (str "GET") 3 100).
  - constructor; [|constructor; [|constructor]]; apply (bool_decide_unpack _); vm_compute; exact I.
  - apply (bool_decide_unpack _). vm_compute. exact I.
  - vm_compute. reflexivity.
  - vm_compute. discriminate.
  - vm_compute. discriminate.
  - apply (bool_decide_unpack _). vm_compute. exact I.
Defined.

Definition sample_response : HttpMessage :=
  HttpMessage_set_header
    (HttpMessage_set_header (HttpMessage_new_response HttpStatus_OK Http11) (str "Content-Type") (str "text/plain"))
    (str "X-Cache") (str "HIT from edge").

Lemma response_roundtrip_witness :
  @read_response no_errors 10 (write_response sample_response (Some (str "hello")) ++ str "HTTP/1.1 404")
  = Some (Done (received sample_response (Some (str "hello")), Some (str "hello"), true) (str "HTTP/1.1 404")).
Proof.
  apply (@response_roundtrip no_errors 10 sample_response (Some (str "hello")) (str "HTTP/1.1 404")).
  - unfold response_ok. repeat split; try (apply (bool_decide_unpack _); vm_compute; exact I).
  - apply (bool_decide_unpack _). vm_compute. exact I.
Defined.
