(* ===== verification/ProxyProto.v ===== *)
(** * The PROXY protocol

    Models [rv-transport/src/proxy_proto.rs], with the parser of addresses of
    [std::net] the text form relies on.  Slices and indices are partial ([None] is a
    panic): no input panics, and headers of both versions are read back with the
    number of bytes they take. *)

From S2P Require Import Prelude RustStr Types Vary Backend HttpTypes Header ConnPool Http1.
Local Open Scope Z_scope.
Local Open Scope rust_scope.

(* ------------------------------------------------------------------ *)
(** ** [std::net]: reading addresses

    The standard library's parser: each reader takes the input and gives the value
    and the rest, or fails without consuming. *)

Definition hex_digit_val (radix : Z) (b : byte) : option Z :=
  match hex_val b with
  | Some d => if d <? radix then Some d else None
  | None => None
  end.

(** The digits at the front, with their number, while the value fits [max] and
    there are at most [max_digits]. *)
Fixpoint read_digits_of (radix max : Z) (max_digits count : nat) (acc : Z) (s : bytes) :
    option (Z * nat * bytes) :=
  match s with
  | [] => Some (acc, count, [])
  | b :: r =>
      match hex_digit_val radix b with
      | None => Some (acc, count, s)
      | Some d =>
          if (max <? acc * radix + d) || (max_digits <? S count)%nat then None
          else read_digits_of radix max max_digits (S count) (acc * radix + d) r
      end
  end.

Definition read_radix_number (radix max : Z) (max_digits : nat) (allow_zero_prefix : bool) (s : bytes) :
    option (Z * bytes) :=
  '(n, count, r) ← read_digits_of radix max max_digits 0 0 s;
  if bool_decide (count = O) then None
  else if negb allow_zero_prefix && bool_decide (head s = Some x30) && (1 <? count)%nat then None
  else Some (n, r).

Definition read_given_char (c : byte) (s : bytes) : option bytes := strip_prefix [c] s.

(** [read_separator]: the separator first, unless this is the first element. *)
Definition read_separator {A} (sep : byte) (index : nat) (inner : bytes → option (A * bytes)) (s : bytes) :
    option (A * bytes) :=
  match index with
  | O => inner s
  | S _ => r ← read_given_char sep s; inner r
  end.

Definition read_octet (index : nat) : bytes → option (Z * bytes) :=
  read_separator x2e index (read_radix_number 10 255 3 false).

Definition read_ipv4_addr (s : bytes) : option (Z * bytes) :=
  '(a, s) ← read_octet 0 s;
  '(b, s) ← read_octet 1 s;
  '(c, s) ← read_octet 2 s;
  '(d, s) ← read_octet 3 s;
  Some (((a * 256 + b) * 256 + c) * 256 + d, s).

(** [read_groups]: up to [limit] groups from index [i] on, the groups read, whether
    they end with an embedded IPv4 address, and the rest. *)
Fixpoint read_groups (limit i : nat) (s : bytes) : list Z * bool * bytes :=
  match limit with
  | O => ([], false, s)
  | S limit =>
      match (if (0 <? limit)%nat then read_separator x3a i read_ipv4_addr s else None) with
      | Some (v4, r) => ([v4 / 65536; v4 mod 65536], true, r)
      | None =>
          match read_separator x3a i (read_radix_number 16 65535 4 true) s with
          | Some (g, r) => let '(gs, v4, r) := read_groups limit (S i) r in (g :: gs, v4, r)
          | None => ([], false, s)
          end
      end
  end.

Definition groups_value (gs : list Z) : Z := foldl (λ acc g, acc * 65536 + g) 0 gs.

Definition read_ipv6_addr (s : bytes) : option (Z * bytes) :=
  let '(head, head_ipv4, r) := read_groups 8 0 s in
  if bool_decide (length head = 8%nat) then Some (groups_value head, r)
  else if head_ipv4 then None
  else
    r ← read_given_char x3a r;
    r ← read_given_char x3a r;
    let '(tail, _, r) := read_groups (8 - (length head + 1)) 0 r in
    Some (groups_value (head ++ replicate (8 - length head - length tail) 0 ++ tail), r).

(** [str::parse::<IpAddr>()]: IPv4 first, and nothing may be left. *)
Definition parse_ip (s : bytes) : option IpAddr :=
  match read_ipv4_addr s with
  | Some (n, []) => Some (V4 n)
  | Some _ => None
  | None =>
      match read_ipv6_addr s with
      | Some (n, []) => Some (V6 n)
      | _ => None
      end
  end.

Example parse_ip_examples :
  parse_ip (str "192.168.1.1") = Some (V4 3232235777) ∧ parse_ip (str "::1") = Some (V6 1)
  ∧ parse_ip (str "fe80::1:0") = Some (V6 (0xfe80 * 2 ^ 112 + 65536)) ∧ parse_ip (str "01.2.3.4") = None
  ∧ parse_ip (str "::ffff:1.2.3.4") = Some (V6 (0xffff01020304)) ∧ parse_ip (str "1:2:3:4:5:6:7:8:9") = None
  ∧ parse_ip (str "1:2:3:4:5:6:7:8") = Some (V6 0x00010002000300040005000600070008) ∧ parse_ip (str "1.2.3.256") = None.
Proof. vm_compute. done. Qed.

(* ------------------------------------------------------------------ *)
(** ** The two headers *)

Inductive ProxyVersion : Set := ProxyV1 | ProxyV2.

Record ProxyHeader : Set := mkProxyHeader {
  ph_version : ProxyVersion;
  ph_src_addr : SocketAddr;
  ph_dst_addr : SocketAddr;
}.

(** A header with its length, no header, or an error; [None] is a panic. *)
Abbreviation proxy_result := (option (result (option (ProxyHeader * Z)) TransportError.t)).

Definition proxy_error (msg : bytes) : proxy_result := Some (Err (TransportError.ProxyProtocol msg)).

Definition PROXY_V2_SIG : bytes := [x0d; x0a; x0d; x0a; x00; x0d; x0a; x51; x55; x49; x54; x0a].

Definition unspecified : SocketAddr := mkSocketAddr (V4 0) 0.

(** Slices and indices of a buffer. *)
Definition buf_slice (a b : Z) (buf : bytes) : option bytes :=
  if (0 <=? a) && (a <=? b) && (b <=? len buf) then Some (take (Z.to_nat (b - a)) (drop (Z.to_nat a) buf)) else None.
Definition byte_at (i : Z) (buf : bytes) : option Z := u8_val <$> buf !! Z.to_nat i.

(** Numbers from big-endian bytes. *)
Definition from_be_bytes (s : bytes) : Z := foldl (λ acc b, acc * 256 + u8_val b) 0 s.

Section parse.
  Context {errors : StdErrors} (addr_error : bytes → bytes).

(** [windows(2).position(..)] *)
Fixpoint find_crlf (s : bytes) : option nat :=
  match s with
  | [] => None
  | b :: r => if bool_decide (b = x0d ∧ head r = Some x0a) then Some O else S <$> find_crlf r
  end.

Definition ip_field (what s : bytes) : result IpAddr TransportError.t :=
  ok_or (parse_ip s) (TransportError.ProxyProtocol (str "invalid " ++ what ++ str " IP: " ++ addr_error s)).
Definition port_field (what s : bytes) : result Z TransportError.t :=
  ok_or (parse_u16 s) (TransportError.ProxyProtocol (str "invalid " ++ what ++ str " port: " ++ int_error s)).

Definition parse_v1 (buf : bytes) : proxy_result :=
  match find_crlf buf with
  | None => proxy_error (str "incomplete PROXY v1 header")
  | Some line_end =>
      line ← buf_slice 0 (Z.of_nat line_end) buf;
      if negb (utf8_valid line) then proxy_error (str "invalid UTF-8: " ++ utf8_error line)
      else
        let consumed := Z.of_nat line_end + 2 in
        match split_char x20 line with
        | [_; protocol; src; dst; sport; dport] =>
            if negb (bool_decide (protocol ∈ [str "TCP4"; str "TCP6"; str "UNKNOWN"])) then
              proxy_error (str "unsupported PROXY v1 protocol: " ++ protocol)
            else if bool_decide (protocol = str "UNKNOWN") then
              Some (Ok (Some (mkProxyHeader ProxyV1 unspecified unspecified, consumed)))
            else
              Some (src_ip ←? ip_field (str "source") src;
                    dst_ip ←? ip_field (str "dest") dst;
                    src_port ←? port_field (str "source") sport;
                    dst_port ←? port_field (str "dest") dport;
                    Ok (Some (mkProxyHeader ProxyV1 (mkSocketAddr src_ip src_port) (mkSocketAddr dst_ip dst_port),
                              consumed)))
        | parts => proxy_error (str "expected 6 fields in PROXY v1 header, got " ++ show_u64 (Z.of_nat (length parts)))
        end
  end.

(** The address block of version 2, with addresses of [n] bytes. *)
Definition v2_addresses (ip : Z → IpAddr) (n : Z) (consumed : Z) (addr_data : bytes) : proxy_result :=
  src ← buf_slice 0 n addr_data;
  dst ← buf_slice n (2 * n) addr_data;
  sport ← buf_slice (2 * n) (2 * n + 2) addr_data;
  dport ← buf_slice (2 * n + 2) (2 * n + 4) addr_data;
  Some (Ok (Some (mkProxyHeader ProxyV2 (mkSocketAddr (ip (from_be_bytes src)) (from_be_bytes sport))
                    (mkSocketAddr (ip (from_be_bytes dst)) (from_be_bytes dport)), consumed))).

Definition parse_v2 (buf : bytes) : proxy_result :=
  if len buf <? 16 then proxy_error (str "PROXY v2 header too short")
  else
    ver_cmd ← byte_at 12 buf;
    family ← byte_at 13 buf;
    length_bytes ← buf_slice 14 16 buf;
    let n := from_be_bytes length_bytes in
    if len buf <? 16 + n then proxy_error (str "PROXY v2 header truncated")
    else
      let version := Z.land (Z.shiftr ver_cmd 4) 15 in
      if negb (version =? 2) then proxy_error (str "unsupported PROXY version: " ++ show_u64 version)
      else
        let cmd := Z.land ver_cmd 15 in
        let af := Z.land (Z.shiftr family 4) 15 in
        let proto := Z.land family 15 in
        if cmd =? 0 then Some (Ok (Some (mkProxyHeader ProxyV2 unspecified unspecified, 16 + n)))
        else if negb (cmd =? 1) then proxy_error (str "unsupported PROXY v2 command: " ++ show_u64 cmd)
        else
          addr_data ← buf_slice 16 (16 + n) buf;
          if (af =? 1) && (proto =? 1) then
            if len addr_data <? 12 then proxy_error (str "PROXY v2 IPv4 address data too short")
            else v2_addresses V4 4 (16 + n) addr_data
          else if (af =? 2) && (proto =? 1) then
            if len addr_data <? 36 then proxy_error (str "PROXY v2 IPv6 address data too short")
            else v2_addresses V6 16 (16 + n) addr_data
          else
            proxy_error (str "unsupported address family/protocol: af=" ++ show_u64 af ++ str ", proto=" ++ show_u64 proto).

Definition parse_proxy_header (buf : bytes) : proxy_result :=
  if len buf <? 8 then Some (Ok None)
  else if starts_with (str "PROXY ") buf then parse_v1 buf
  else if (16 <=? len buf) && bool_decide (take 12 buf = PROXY_V2_SIG) then parse_v2 buf
  else Some (Ok None).

End parse.

(* ------------------------------------------------------------------ *)
(** ** No input panics *)

Lemma slice_some a b buf : 0 ≤ a ≤ b → b ≤ len buf → ∃ s, buf_slice a b buf = Some s ∧ len s = b - a.
Proof.
  intros Hab Hb. unfold buf_slice.
  assert ((0 <=? a) && (a <=? b) && (b <=? len buf) = true) as ->
    by (rewrite !andb_true_iff, !Z.leb_le; lia).
  eexists. split; [done|]. unfold len in *. rewrite length_take, length_drop. lia.
Qed.

Lemma byte_at_some i buf : 0 ≤ i < len buf → ∃ z, byte_at i buf = Some z.
Proof.
  intros Hi. unfold byte_at, len in *. destruct (lookup_lt_is_Some_2 buf (Z.to_nat i)) as [b ->]; [lia|]. by eexists.
Qed.

Lemma from_be_range s : 0 ≤ from_be_bytes s < 256 ^ len s.
Proof.
  unfold from_be_bytes, len. induction s as [|b s IH] using rev_ind; [done|].
  rewrite foldl_app, length_app, Nat.add_1_r, Nat2Z.inj_succ, Z.pow_succ_r by lia. simpl.
  pose proof (u8_val_range b). lia.
Qed.

(** A result that is not a panic and does not claim bytes that are not there. *)
Definition within (buf : bytes) (r : proxy_result) : Prop :=
  ∃ x, r = Some x ∧ ∀ h n, x = Ok (Some (h, n)) → 0 < n ≤ len buf.

Lemma within_error buf msg : within buf (proxy_error msg).
Proof. by eexists. Qed.
Lemma within_ok buf h n : 0 < n ≤ len buf → within buf (Some (Ok (Some (h, n)))).
Proof. intros Hn. eexists. split; [done|]. by intros ? ? [= <- <-]. Qed.

#[local] Hint Resolve within_error : core.

Lemma find_crlf_bound s n : find_crlf s = Some n → (n + 2 ≤ length s)%nat.
Proof.
  revert n. induction s as [|b s IH]; intros n; [done|]. cbn [find_crlf]. case_bool_decide as Hb.
  - intros [= <-]. destruct Hb as [_ Hb]. destruct s; [done|]. simpl. lia.
  - intros (m & Hm & ->)%fmap_Some. specialize (IH m Hm). simpl. lia.
Qed.

Section safe.
  Context {errors : StdErrors} (addr_error : bytes → bytes).

Lemma parse_v1_within buf : within buf (parse_v1 addr_error buf).
Proof.
  unfold parse_v1. destruct (find_crlf buf) as [e|] eqn:Ee; [|done]. apply find_crlf_bound in Ee.
  destruct (slice_some 0 (Z.of_nat e) buf) as (line & -> & _); [lia|unfold len; lia|]. cbn [mbind option_bind].
  case_if; [done|]. destruct (split_char x20 line) as [|? [|protocol [|src [|dst [|sp [|dp [|? ?]]]]]]]; try done.
  case_if; [done|]. case_if; [apply within_ok; unfold len; lia|].
  destruct (ip_field addr_error (str "source") src); [|by eexists].
  destruct (ip_field addr_error (str "dest") dst); [|by eexists].
  destruct (port_field (str "source") sp); [|by eexists].
  destruct (port_field (str "dest") dp); [|by eexists]. apply within_ok. unfold len. lia.
Qed.

Lemma v2_addresses_within ip n consumed data buf :
  0 ≤ n → 2 * n + 4 ≤ len data → 0 < consumed ≤ len buf → within buf (v2_addresses ip n consumed data).
Proof.
  intros Hn Hd Hc. unfold v2_addresses.
  destruct (slice_some 0 n data) as (? & -> & _); [lia..|]. destruct (slice_some n (2 * n) data) as (? & -> & _); [lia..|].
  destruct (slice_some (2 * n) (2 * n + 2) data) as (? & -> & _); [lia..|].
  destruct (slice_some (2 * n + 2) (2 * n + 4) data) as (? & -> & _); [lia..|]. by apply within_ok.
Qed.

Lemma parse_v2_within buf : within buf (parse_v2 buf).
Proof.
  unfold parse_v2. case_if; [done|]. bool_to_prop.
  destruct (byte_at_some 12 buf) as (vc & ->); [lia|]. destruct (byte_at_some 13 buf) as (fam & ->); [lia|].
  destruct (slice_some 14 16 buf) as (lb & -> & _); [lia..|]. cbn [mbind option_bind].
  pose proof (from_be_range lb) as Hn. set (n := from_be_bytes lb) in *. clearbody n.
  case_if; [done|]. bool_to_prop. case_if; [done|]. case_if; [apply within_ok; lia|]. case_if; [done|].
  destruct (slice_some 16 (16 + n) buf) as (data & -> & Hd); [lia..|]. cbn [mbind option_bind].
  case_if; [case_if; [done|]; bool_to_prop; apply v2_addresses_within; lia|].
  case_if; [case_if; [done|]; bool_to_prop; apply v2_addresses_within; lia|done].
Qed.

(** Untrusted bytes are safe: on every buffer the parser returns without an
    index or a slice out of range, and a header it finds takes at least one byte and
    no more than the buffer has. *)
Theorem proxy_header_safe buf : within buf (parse_proxy_header addr_error buf).
Proof.
  unfold parse_proxy_header. case_if; [by eexists|]. case_if; [apply parse_v1_within|].
  case_if; [apply parse_v2_within|by eexists].
Qed.

End safe.

(* ------------------------------------------------------------------ *)
(** ** Headers are read back *)

(** The text of an IPv4 address: four octets in decimal. *)
Definition octet (i n : Z) : Z := n / 256 ^ i mod 256.
Definition print_ipv4 (n : Z) : bytes := join [x2e] ((λ i, show_u64 (octet i n)) <$> [3; 2; 1; 0]).

Definition to_be_bytes (n : nat) (z : Z) : bytes := reverse (to_le_bytes n z).

(** Version 2: the signature, the command, the family, the length, the addresses
    with their ports, and the extensions after them. *)
Definition print_v2 (family : byte) (size : nat) (src dst sport dport : Z) (tlvs : bytes) : bytes :=
  PROXY_V2_SIG ++ [x21; family] ++ to_be_bytes 2 (2 * Z.of_nat size + 4 + len tlvs)
  ++ to_be_bytes size src ++ to_be_bytes size dst ++ to_be_bytes 2 sport ++ to_be_bytes 2 dport ++ tlvs.

Lemma octet_range i n : 0 ≤ octet i n < 256.
Proof. by apply Z.mod_pos_bound. Qed.

Lemma octets_value n :
  0 ≤ n < 2 ^ 32 → ((octet 3 n * 256 + octet 2 n) * 256 + octet 1 n) * 256 + octet 0 n = n.
Proof.
  intros Hn. unfold octet. change (256 ^ 3) with 16777216. change (256 ^ 2) with 65536.
  change (256 ^ 1) with 256. change (256 ^ 0) with 1. change (2 ^ 32) with 4294967296 in Hn.
  rewrite Z.div_1_r. rewrite (Z.mod_small (n / 16777216)) by (split; [apply Z.div_pos|apply Z.div_lt_upper_bound]; lia).
  replace (n / 16777216) with (n / 65536 / 256) by by rewrite Z.div_div.
  replace (n / 65536) with (n / 256 / 256) by by rewrite Z.div_div.
  pose proof (Z_div_mod_eq_full n 256). pose proof (Z_div_mod_eq_full (n / 256) 256).
  pose proof (Z_div_mod_eq_full (n / 256 / 256) 256). lia.
Qed.

(** The first byte after a number is not a digit. *)
Definition no_digit (r : bytes) : Prop := match r with b :: _ => hex_digit_val 10 b = None | [] => True end.

Lemma digit_reads d : 0 ≤ d < 10 → hex_digit_val 10 (digit_byte d) = Some d ∧ (d ≠ 0 → digit_byte d ≠ x30).
Proof.
  intros Hd. assert (Hin : d ∈ seqZ 0 10) by (apply elem_of_seqZ; lia).
  revert Hin. generalize d. rewrite <- Forall_forall. apply (bool_decide_unpack _). by vm_compute.
Qed.

Lemma read_digits_end count max md acc r :
  no_digit r → read_digits_of 10 max md count acc r = Some (acc, count, r).
Proof. destruct r as [|b r]; simpl; [done|]. by intros ->. Qed.

Lemma read_digits_step count max md acc d r :
  0 ≤ d < 10 → acc * 10 + d ≤ max → (S count ≤ md)%nat →
  read_digits_of 10 max md count acc (digit_byte d :: r) = read_digits_of 10 max md (S count) (acc * 10 + d) r.
Proof.
  intros Hd Hmax Hc. cbn [read_digits_of]. rewrite (proj1 (digit_reads d Hd)).
  assert ((max <? acc * 10 + d) || (md <? S count)%nat = false) as ->; [|done].
  apply orb_false_iff. split; [by apply Z.ltb_ge|by apply Nat.ltb_ge].
Qed.

Lemma show_small n :
  0 ≤ n < 256 →
  show_u64 n = if n <? 10 then [digit_byte n]
               else if n <? 100 then [digit_byte (n / 10); digit_byte (n mod 10)]
               else [digit_byte (n / 100); digit_byte (n / 10 mod 10); digit_byte (n mod 10)].
Proof.
  intros Hn. assert (Hin : n ∈ seqZ 0 256) by (apply elem_of_seqZ; lia).
  revert Hin. generalize n. rewrite <- Forall_forall. apply (bool_decide_unpack _). by vm_compute.
Qed.

Lemma read_octet_show n r : 0 ≤ n < 256 → no_digit r → read_radix_number 10 255 3 false (show_u64 n ++ r) = Some (n, r).
Proof.
  intros Hn Hr. unfold read_radix_number. rewrite show_small by done.
  pose proof (Z.mod_pos_bound n 10 ltac:(lia)) as Hm. pose proof (Z_div_mod_eq_full n 10) as Ed.
  pose proof (Z.mod_pos_bound (n / 10) 10 ltac:(lia)) as Hm'. pose proof (Z_div_mod_eq_full (n / 10) 10) as Ed'.
  assert (n / 10 / 10 = n / 100) as E100 by by rewrite Z.div_div. rewrite E100 in Ed'. clear E100.
  generalize dependent (n / 100). generalize dependent (n / 10). generalize dependent (n mod 10).
  intros d Hd q Eq Hq h Eh.
  assert (Hlead : ∀ x, 0 ≤ x < 10 → x ≠ 0 → bool_decide (Some (digit_byte x) = Some x30) = false).
  { intros x Hx Hx0. apply bool_decide_false. intros [= E]. by apply (digit_reads x Hx) in E. }
  case_if; [|case_if]; bool_to_prop; cbn [app head];
    rewrite !read_digits_step by lia; rewrite read_digits_end by done; cbn [mbind option_bind];
    rewrite (bool_decide_false (_ = O)) by done.
  - rewrite andb_false_r. do 2 f_equal; lia.
  - rewrite Hlead by lia. cbn [negb andb]. do 2 f_equal; lia.
  - rewrite Hlead by lia. cbn [negb andb]. do 2 f_equal; lia.
Qed.

Lemma read_given_char_same c r : read_given_char c (c :: r) = Some r.
Proof. unfold read_given_char. by rewrite strip_prefix_cons, decide_True. Qed.

Lemma read_ipv4_print n r :
  0 ≤ n < 2 ^ 32 → no_digit r → read_ipv4_addr (print_ipv4 n ++ r) = Some (n, r).
Proof.
  intros Hn Hr.
  assert (print_ipv4 n ++ r = show_u64 (octet 3 n) ++ x2e :: show_u64 (octet 2 n) ++ x2e :: show_u64 (octet 1 n)
            ++ x2e :: show_u64 (octet 0 n) ++ r) as ->.
  { unfold print_ipv4. cbn [fmap list_fmap join]. repeat (rewrite <- app_assoc; cbn [app]). done. }
  unfold read_ipv4_addr, read_octet, read_separator.
  rewrite read_octet_show by (done || apply octet_range). cbn [mbind option_bind].
  do 3 (rewrite read_given_char_same; cbn [mbind option_bind];
        rewrite read_octet_show by (done || apply octet_range); cbn [mbind option_bind]).
  by rewrite octets_value.
Qed.

Lemma from_to_be_bytes n z : 0 ≤ z < 256 ^ Z.of_nat n → from_be_bytes (to_be_bytes n z) = z.
Proof.
  intros Hz. unfold to_be_bytes. rewrite <- (Z.mod_small z (256 ^ Z.of_nat n)) at 2 by done.
  rewrite <- from_to_le_bytes. unfold from_be_bytes.
  induction (to_le_bytes n z) as [|b s IH]; [done|]. rewrite reverse_cons, foldl_app. simpl. rewrite IH. lia.
Qed.

Lemma len_to_be_bytes n z : len (to_be_bytes n z) = Z.of_nat n.
Proof. unfold len, to_be_bytes. by rewrite length_reverse, length_to_le_bytes. Qed.

Lemma slice_app a b p m s : a = len p → b = len p + len m → buf_slice a b (p ++ m ++ s) = Some m.
Proof.
  intros -> ->. unfold buf_slice, len. rewrite !length_app.
  assert ((0 <=? Z.of_nat (length p)) && (Z.of_nat (length p) <=? Z.of_nat (length p) + Z.of_nat (length m))
          && (Z.of_nat (length p) + Z.of_nat (length m) <=? Z.of_nat (length p + (length m + length s))) = true) as ->
    by (rewrite !andb_true_iff, !Z.leb_le; lia).
  rewrite Nat2Z.id, drop_app_length. replace (Z.to_nat _) with (length m) by lia. by rewrite take_app_length.
Qed.

Lemma v2_addresses_print ip size src dst sport dport tlvs consumed :
  0 ≤ src < 256 ^ Z.of_nat size → 0 ≤ dst < 256 ^ Z.of_nat size → 0 ≤ sport < 65536 → 0 ≤ dport < 65536 →
  v2_addresses ip (Z.of_nat size) consumed
    (to_be_bytes size src ++ to_be_bytes size dst ++ to_be_bytes 2 sport ++ to_be_bytes 2 dport ++ tlvs)
  = Some (Ok (Some (mkProxyHeader ProxyV2 (mkSocketAddr (ip src) sport) (mkSocketAddr (ip dst) dport), consumed))).
Proof.
  intros Hs Hd Hsp Hdp. unfold v2_addresses. set (a := to_be_bytes size src). set (b := to_be_bytes size dst).
  set (c := to_be_bytes 2 sport). set (d := to_be_bytes 2 dport).
  assert (len a = Z.of_nat size ∧ len b = Z.of_nat size ∧ len c = 2 ∧ len d = 2) as (La & Lb & Lc & Ld)
    by (split_and!; apply len_to_be_bytes).
  assert (buf_slice 0 (Z.of_nat size) (a ++ b ++ c ++ d ++ tlvs) = Some a) as -> by (apply (slice_app 0 _ []); change (len []) with 0; lia).
  cbn [mbind option_bind].
  rewrite (slice_app (Z.of_nat size) (2 * Z.of_nat size) a b) by lia. cbn [mbind option_bind].
  assert (buf_slice (2 * Z.of_nat size) (2 * Z.of_nat size + 2) (a ++ b ++ c ++ d ++ tlvs) = Some c) as ->.
  { rewrite app_assoc. apply slice_app; unfold len in *; rewrite length_app; lia. }
  assert (buf_slice (2 * Z.of_nat size + 2) (2 * Z.of_nat size + 4) (a ++ b ++ c ++ d ++ tlvs) = Some d) as ->.
  { rewrite app_assoc, (app_assoc (a ++ b)). apply slice_app; unfold len in *; rewrite !length_app; lia. }
  cbn [mbind option_bind]. unfold a, b, c, d. by rewrite !from_to_be_bytes.
Qed.

Lemma parse_v2_print family ip size src dst sport dport tlvs rest :
  (family = x11 ∧ ip = V4 ∧ size = 4%nat) ∨ (family = x21 ∧ ip = V6 ∧ size = 16%nat) →
  0 ≤ src < 256 ^ Z.of_nat size → 0 ≤ dst < 256 ^ Z.of_nat size → 0 ≤ sport < 65536 → 0 ≤ dport < 65536 →
  2 * Z.of_nat size + 4 + len tlvs < 65536 →
  parse_v2 (print_v2 family size src dst sport dport tlvs ++ rest)
  = Some (Ok (Some (mkProxyHeader ProxyV2 (mkSocketAddr (ip src) sport) (mkSocketAddr (ip dst) dport),
                    len (print_v2 family size src dst sport dport tlvs)))).
Proof.
  intros Hfam Hs Hd Hsp Hdp Hlen. unfold print_v2. set (n := 2 * Z.of_nat size + 4 + len tlvs) in *.
  set (data := to_be_bytes size src ++ to_be_bytes size dst ++ to_be_bytes 2 sport ++ to_be_bytes 2 dport ++ tlvs).
  assert (Ldata : len data = n).
  { unfold data, n, len, to_be_bytes. rewrite !length_app, !length_reverse, !length_to_le_bytes. lia. }
  set (sig := PROXY_V2_SIG ++ [x21; family]). assert (Lsig : len sig = 14) by done.
  replace ((PROXY_V2_SIG ++ [x21; family] ++ to_be_bytes 2 n ++ data) ++ rest)
    with (sig ++ to_be_bytes 2 n ++ data ++ rest) by (unfold sig; by rewrite <- !app_assoc).
  replace (len (PROXY_V2_SIG ++ [x21; family] ++ to_be_bytes 2 n ++ data)) with (16 + n)
    by (pose proof (len_to_be_bytes 2 n); unfold len in *; rewrite !length_app; simpl; lia).
  assert (Hn : 0 ≤ n < 65536) by (split; [unfold n, len; lia|exact Hlen]).
  assert (Lbuf : len (sig ++ to_be_bytes 2 n ++ data ++ rest) = 16 + n + len rest)
    by (pose proof (len_to_be_bytes 2 n); unfold len in *; rewrite !length_app; lia).
  unfold parse_v2. rewrite Lbuf. assert ((16 + n + len rest <? 16) = false) as -> by (apply Z.ltb_ge; unfold len; lia).
  change (byte_at 12 (sig ++ to_be_bytes 2 n ++ data ++ rest)) with (Some 33).
  change (byte_at 13 (sig ++ to_be_bytes 2 n ++ data ++ rest)) with (Some (u8_val family)). cbn [mbind option_bind].
  rewrite (slice_app 14 16 sig) by (rewrite ?len_to_be_bytes; lia). cbn [mbind option_bind].
  rewrite from_to_be_bytes by done. cbv zeta.
  assert ((16 + n + len rest <? 16 + n) = false) as -> by (apply Z.ltb_ge; unfold len; lia).
  change (negb (Z.land (Z.shiftr 33 4) 15 =? 2)) with false. change (Z.land 33 15 =? 0) with false.
  change (negb (Z.land 33 15 =? 1)) with false. cbv iota.
  assert (buf_slice 16 (16 + n) (sig ++ to_be_bytes 2 n ++ data ++ rest) = Some data) as ->.
  { rewrite app_assoc. pose proof (len_to_be_bytes 2 n). apply slice_app; unfold len in *; rewrite length_app; lia. }
  cbn [mbind option_bind]. rewrite Ldata.
  destruct Hfam as [(-> & -> & ->)|(-> & -> & ->)].
  - change ((Z.land (Z.shiftr (u8_val x11) 4) 15 =? 1) && (Z.land (u8_val x11) 15 =? 1)) with true. cbv iota.
    assert ((n <? 12) = false) as -> by (apply Z.ltb_ge; unfold n, len; lia). by apply (v2_addresses_print V4 4).
  - change ((Z.land (Z.shiftr (u8_val x21) 4) 15 =? 1) && (Z.land (u8_val x21) 15 =? 1)) with false.
    change ((Z.land (Z.shiftr (u8_val x21) 4) 15 =? 2) && (Z.land (u8_val x21) 15 =? 1)) with true. cbv iota.
    assert ((n <? 36) = false) as -> by (apply Z.ltb_ge; unfold n, len; lia). by apply (v2_addresses_print V6 16).
Qed.

Lemma find_crlf_app l r : x0d ∉ l → find_crlf (l ++ x0d :: x0a :: r) = Some (length l).
Proof.
  induction l as [|b l IH]; simpl; [done|]. intros [Hb Hl]%not_elem_of_cons.
  rewrite bool_decide_false by (intros [-> _]; done). by rewrite IH.
Qed.

Lemma octet_show_graphic i n : Forall ascii_graphic (show_u64 (octet i n)).
Proof. apply show_u64_graphic. pose proof (octet_range i n). unfold u64_max. lia. Qed.

Lemma print_ipv4_graphic n : Forall ascii_graphic (print_ipv4 n).
Proof.
  unfold print_ipv4. apply Forall_join; [apply (bool_decide_unpack _); by vm_compute|].
  apply Forall_fmap, Forall_true. intros i. apply octet_show_graphic.
Qed.

Lemma parse_print_ipv4 n : 0 ≤ n < 2 ^ 32 → parse_ip (print_ipv4 n) = Some (V4 n).
Proof.
  intros Hn. unfold parse_ip. pose proof (read_ipv4_print n [] Hn I) as H. rewrite app_nil_r in H. by rewrite H.
Qed.

Lemma graphic_notin c s : ¬ ascii_graphic c → Forall ascii_graphic s → c ∉ s.
Proof. intros Hc Hs Hin. rewrite Forall_forall in Hs. by apply Hc, Hs. Qed.

(* ------------------------------------------------------------------ *)
(** *** The text of an IPv6 address *)

(** A group: one to four hexadecimal digits of either case. *)
Definition group_text (g : Z) (t : bytes) : Prop :=
  ∃ ds, mapM hex_val t = Some ds ∧ g = foldl (λ acc d, acc * 16 + d) 0 ds ∧ (1 ≤ length t ≤ 4)%nat.

(** Groups from index [i] on, a colon before each but the very first. *)
Fixpoint groups_from (i : nat) (ts : list bytes) : bytes :=
  match ts with
  | [] => []
  | t :: ts => match i with O => [] | S _ => [x3a] end ++ t ++ groups_from (S i) ts
  end.

(** An IPv4 address in place of the last two groups, or none. *)
Definition v4_part (i : nat) (v4 : option Z) : bytes :=
  match v4 with Some n => match i with O => [] | S _ => [x3a] end ++ print_ipv4 n | None => [] end.
Definition v4_groups (v4 : option Z) : list Z := match v4 with Some n => [n / 65536; n mod 65536] | None => [] end.

(** Groups, the last two of which can be written as an IPv4 address. *)
Definition groups_text (gs : list Z) (t : bytes) : Prop :=
  ∃ hs ts v4, gs = hs ++ v4_groups v4 ∧ Forall2 group_text hs ts ∧ t = groups_from 0 ts ++ v4_part (length ts) v4
    ∧ (∀ n, v4 = Some n → 0 ≤ n < 2 ^ 32).

(** The textual forms of an address: four decimal octets; eight groups; or fewer, with
    two colons for a run of zero groups. *)
Inductive ip_text : IpAddr → bytes → Prop :=
| text_v4 n : 0 ≤ n < 2 ^ 32 → ip_text (V4 n) (print_ipv4 n)
| text_v6 gs t : length gs = 8%nat → groups_text gs t → ip_text (V6 (groups_value gs)) t
| text_v6_short hs ts tl t :
    (length hs + length tl ≤ 7)%nat → Forall2 group_text hs ts → groups_text tl t →
    ip_text (V6 (groups_value (hs ++ replicate (8 - length hs - length tl) 0 ++ tl))) (groups_from 0 ts ++ x3a :: x3a :: t).

(** What can follow a group: the end, or a colon. *)
Definition after_group (r : bytes) : Prop := r = [] ∨ ∃ r', r = x3a :: r'.

Lemma read_digits_within radix max md t r : after_group r → ∀ count acc n c r1,
  read_digits_of radix max md count acc (t ++ r) = Some (n, c, r1) → r1 = r ∨ ∃ x r', r1 = x :: r' ∧ x ∈ t.
Proof.
  intros Hr. induction t as [|b t IH]; intros count acc n c r1; cbn [app read_digits_of].
  - destruct Hr as [->|[r' ->]]; [intros [= _ _ <-]; by left|]. cbn. intros [= _ _ <-]. by left.
  - destruct (hex_digit_val radix b) as [d|]; [|intros [= _ _ <-]; right; exists b, (t ++ r); set_solver].
    case_if; [done|]. intros [->|(x & r' & -> & Hx)]%IH; [by left|]. right. exists x, r'. set_solver.
Qed.

(** A text without a dot in front of the next colon is no IPv4 address. *)
Lemma no_ipv4 t r : (x2e ∉ t) → after_group r → read_ipv4_addr (t ++ r) = None.
Proof.
  intros Ht Hr. unfold read_ipv4_addr, read_octet, read_separator.
  destruct (read_radix_number 10 255 3 false (t ++ r)) as [[n r1]|] eqn:E; [|done]. cbn [mbind option_bind].
  assert (read_given_char x2e r1 = None) as ->; [|done].
  unfold read_radix_number in E. destruct (read_digits_of _ _ _ _ _ _) as [[[n' c] r2]|] eqn:Ed; [|done]. cbn [mbind option_bind] in E.
  destruct (bool_decide (c = O)); [done|]. destruct (negb _ && _ && _); [done|]. injection E as <- <-. unfold read_given_char.
  destruct (read_digits_within _ _ _ _ _ Hr _ _ _ _ _ Ed) as [->|(x & r' & -> & Hx)].
  - destruct Hr as [->|[r' ->]]; [done|]. by rewrite strip_prefix_cons.
  - rewrite strip_prefix_cons, decide_False; [done|]. by intros <-.
Qed.

Lemma group_text_hex g t : group_text g t → Forall (λ b, is_Some (hex_val b)) t ∧ t ≠ [].
Proof.
  intros (ds & Hm & _ & Hl). split; [|by intros ->; cbn in Hl; lia]. apply mapM_Some_1 in Hm.
  clear Hl. induction Hm; constructor; [by eexists|done].
Qed.

Lemma hex_not_dot t : Forall (λ b, is_Some (hex_val b)) t → (x2e ∉ t).
Proof. intros Ht Hin. rewrite Forall_forall in Ht. destruct (Ht _ Hin) as [d Hd]. by vm_compute in Hd. Qed.

Lemma hex_val_range b d : hex_val b = Some d → 0 ≤ d < 16.
Proof.
  unfold hex_val, byte_in. repeat case_if; intros [= <-]; bool_to_prop; lia.
Qed.

(** The digits of a group, which fit its four places. *)
Lemma read_hex_digits t ds r : after_group r → mapM hex_val t = Some ds → ∀ count acc,
  0 ≤ acc < 16 ^ Z.of_nat count → (count + length t ≤ 4)%nat →
  read_digits_of 16 65535 4 count acc (t ++ r) = Some (foldl (λ acc d, acc * 16 + d) acc ds, (count + length t)%nat, r).
Proof.
  intros Hr Hm. apply mapM_Some_1 in Hm. induction Hm as [|b d t ds Hb _ IH]; intros count acc Hacc Hc; cbn [app read_digits_of].
  - rewrite Nat.add_0_r. destruct Hr as [->|[r' ->]]; [done|]. done.
  - pose proof (hex_val_range _ _ Hb) as Hd. cbn [length] in Hc. unfold hex_digit_val. rewrite Hb, (proj2 (Z.ltb_lt d 16)) by lia.
    assert (Hn : 0 ≤ acc * 16 + d < 16 ^ Z.of_nat (S count)) by (rewrite Nat2Z.inj_succ, Z.pow_succ_r by lia; lia).
    assert (16 ^ Z.of_nat (S count) ≤ 16 ^ 4) by (apply Z.pow_le_mono_r; lia).
    rewrite (proj2 (Z.ltb_ge 65535 (acc * 16 + d))) by lia. rewrite (proj2 (Nat.ltb_ge 4 (S count))) by lia. cbn [orb].
    rewrite IH by (done || lia). cbn [foldl length]. do 3 f_equal. lia.
Qed.

Lemma read_group_text g t r :
  group_text g t → after_group r → read_radix_number 16 65535 4 true (t ++ r) = Some (g, r).
Proof.
  intros (ds & Hm & -> & Hl) Hr. unfold read_radix_number. rewrite (read_hex_digits t ds r Hr Hm) by (cbn; lia).
  cbn [mbind option_bind]. rewrite bool_decide_false by lia. done.
Qed.

(** Two colons, or the end, stop the groups. *)
Definition stops_groups (r : bytes) : Prop := r = [] ∨ ∃ r', r = x3a :: x3a :: r'.

Lemma stops_after r : stops_groups r → after_group r.
Proof. intros [->|[r' ->]]; [by left|right; by eexists]. Qed.

Lemma read_groups_stop limit i r : stops_groups r → read_groups limit i r = ([], false, r).
Proof.
  intros Hr. destruct limit as [|limit]; [done|]. cbn [read_groups].
  assert (H4 : (if (0 <? limit)%nat then read_separator x3a i read_ipv4_addr r else None) = None).
  { case_if; [|done]. by destruct Hr as [->|[r' ->]], i. }
  rewrite H4. by destruct Hr as [->|[r' ->]], i.
Qed.

Lemma after_groups i ts r : after_group r → after_group (groups_from (S i) ts ++ r).
Proof. intros Hr. destruct ts as [|t ts]; [done|]. right. by eexists. Qed.

(** The groups before [r] are read one by one. *)
Lemma read_groups_app gs ts : Forall2 group_text gs ts → ∀ limit i r,
  (length gs ≤ limit)%nat → after_group r →
  read_groups limit i (groups_from i ts ++ r)
  = let '(gs', v4, r') := read_groups (limit - length gs) (i + length ts) r in (gs ++ gs', v4, r').
Proof.
  induction 1 as [|g t gs ts Hg _ IH]; intros limit i r Hl Hr.
  { cbn. rewrite Nat.sub_0_r, Nat.add_0_r. by destruct (read_groups limit i r) as [[? ?] ?]. }
  destruct limit as [|limit]; [cbn in Hl; lia|]. cbn [groups_from read_groups length] in *.
  destruct (group_text_hex g t Hg) as [Hhex Hne]. set (r1 := groups_from (S i) ts ++ r).
  assert (Hr1 : after_group r1) by by apply after_groups.
  assert (Hsep : ∀ (A : Type) (inner : bytes → option (A * bytes)),
    read_separator x3a i inner ((match i with O => [] | S _ => [x3a] end ++ t ++ groups_from (S i) ts) ++ r) = inner (t ++ r1)).
  { intros A inner. unfold read_separator, r1. destruct i; rewrite <- ?app_assoc; [done|]. cbn [app]. by rewrite read_given_char_same. }
  rewrite !Hsep, (no_ipv4 t r1 (hex_not_dot t Hhex) Hr1), (read_group_text g t r1 Hg Hr1).
  assert ((if (0 <? limit)%nat then (None : option (Z * bytes)) else None) = None) as -> by by case_if.
  unfold r1. rewrite (IH limit (S i) r) by (done || lia). cbn [Nat.sub]. replace (i + S (length ts))%nat with (S i + length ts)%nat by lia.
  by destruct (read_groups (limit - length gs) (S i + length ts) r) as [[? ?] ?].
Qed.

Lemma read_groups_v4 limit i n :
  (2 ≤ limit)%nat → 0 ≤ n < 2 ^ 32 → read_groups limit i (v4_part i (Some n)) = (v4_groups (Some n), true, []).
Proof.
  intros Hl Hn. destruct limit as [|limit]; [lia|]. cbn [read_groups]. rewrite (proj2 (Nat.ltb_lt 0 limit)) by lia.
  assert (read_separator x3a i read_ipv4_addr (v4_part i (Some n)) = Some (n, [])) as ->; [|done].
  pose proof (read_ipv4_print n [] Hn I) as H. rewrite app_nil_r in H. unfold v4_part, read_separator. destruct i; [done|].
  cbn [app]. by rewrite read_given_char_same.
Qed.

Lemma read_groups_text limit gs t :
  groups_text gs t → (length gs ≤ limit)%nat → ∃ v4, read_groups limit 0 t = (gs, v4, []).
Proof.
  intros (hs & ts & [n|] & -> & HF & -> & Hn) Hl; rewrite length_app in Hl; cbn [v4_groups length] in Hl.
  - exists true. destruct HF as [|g t hs ts Hg HF]; [by apply read_groups_v4; [lia|apply Hn]|].
    rewrite (read_groups_app (g :: hs) (t :: ts)); [|by constructor|lia|right; by eexists].
    rewrite Nat.add_0_l, read_groups_v4; [done|lia|by apply Hn].
  - exists false. rewrite (read_groups_app hs ts) by (done || lia || by left). by rewrite read_groups_stop by by left.
Qed.

Lemma groups_no_ipv4 gs ts r : Forall2 group_text gs ts → after_group r → read_ipv4_addr (groups_from 0 ts ++ r) = None.
Proof.
  intros [|g t gs' ts' Hg HF] Hr; [by apply (no_ipv4 []); [set_solver|]|]. cbn [groups_from app]. rewrite <- app_assoc.
  apply no_ipv4; [by eapply hex_not_dot, group_text_hex|by apply after_groups].
Qed.

Lemma parse_ip_text a t : ip_text a t → parse_ip t = Some a.
Proof.
  intros [n Hn|gs t' Hl Hg|hs ts tl t' Hl Hh Ht]; [by apply parse_print_ipv4|..]; unfold parse_ip.
  - assert (read_ipv4_addr t' = None) as ->.
    { destruct Hg as (hs & ts & v4 & -> & HF & -> & _). eapply groups_no_ipv4; [exact HF|]. unfold v4_part.
      destruct v4; [|by left]. rewrite length_app in Hl. destruct HF; [cbn in Hl; lia|right; by eexists]. }
    destruct (read_groups_text 8 gs t' Hg) as [v4 E]; [lia|]. unfold read_ipv6_addr. rewrite E. by rewrite bool_decide_true.
  - rewrite (groups_no_ipv4 hs ts) by (done || right; by eexists). unfold read_ipv6_addr.
    rewrite (read_groups_app hs ts Hh) by (lia || right; by eexists). rewrite read_groups_stop by (right; by eexists).
    rewrite app_nil_r, bool_decide_false by lia. rewrite !read_given_char_same. cbn [mbind option_bind]. rewrite read_given_char_same.
    cbn [mbind option_bind]. destruct (read_groups_text (8 - (length hs + 1)) tl t' Ht) as [v4 ->]; [lia|]. done.
Qed.

Lemma hex_graphic b : is_Some (hex_val b) → ascii_graphic b.
Proof. intros [d Hd]. unfold hex_val, byte_in, ascii_graphic in *. repeat case_if_in Hd; bool_to_prop; try done; lia. Qed.

Lemma colon_graphic : ascii_graphic x3a.
Proof. by apply (bool_decide_unpack _). Qed.

Lemma groups_from_graphic gs ts : Forall2 group_text gs ts → ∀ i, Forall ascii_graphic (groups_from i ts).
Proof.
  induction 1 as [|g t gs ts Hg _ IH]; intros i; [constructor|]. cbn [groups_from]. rewrite !Forall_app. split_and!; [| |done].
  - destruct i; repeat constructor; apply colon_graphic.
  - eapply Forall_impl; [apply (group_text_hex g t Hg)|apply hex_graphic].
Qed.

Lemma groups_text_graphic gs t : groups_text gs t → Forall ascii_graphic t.
Proof.
  intros (hs & ts & v4 & -> & HF & -> & _). apply Forall_app. split; [by eapply groups_from_graphic|].
  destruct v4 as [n|]; [|constructor]. unfold v4_part. apply Forall_app. split; [|apply print_ipv4_graphic].
  destruct (length ts); repeat constructor; apply colon_graphic.
Qed.

Lemma ip_text_graphic a t : ip_text a t → Forall ascii_graphic t.
Proof.
  intros [n _|gs t' _ Hg|hs ts tl t' _ Hh Ht]; [apply print_ipv4_graphic|by eapply groups_text_graphic|].
  apply Forall_app. split; [by eapply groups_from_graphic|]. constructor; [apply colon_graphic|].
  constructor; [apply colon_graphic|by eapply groups_text_graphic].
Qed.

(** *** Version 1 *)

(** A line of version 1 with six fields. *)
Definition v1_line (protocol src dst sport dport : bytes) : bytes :=
  join [x20] [str "PROXY"; protocol; src; dst; sport; dport] ++ [x0d; x0a].

(** Version 2, the command LOCAL: whatever block of data follows is skipped. *)
Definition print_v2_local (family : byte) (data : bytes) : bytes :=
  PROXY_V2_SIG ++ [x20; family] ++ to_be_bytes 2 (len data) ++ data.

(** The headers a proxy sends: version 1 for both families or UNKNOWN, with its six
    fields; version 2 for both families, with any extensions after the addresses, or
    LOCAL with any data. *)
Inductive proxy_encoding : ProxyHeader → bytes → Prop :=
| encoding_v1 protocol src dst s d sport dport :
    (protocol = str "TCP4" ∧ (∃ n m, src = V4 n ∧ dst = V4 m)) ∨ (protocol = str "TCP6" ∧ (∃ n m, src = V6 n ∧ dst = V6 m)) →
    ip_text src s → ip_text dst d → 0 ≤ sport ≤ u16_max → 0 ≤ dport ≤ u16_max →
    proxy_encoding (mkProxyHeader ProxyV1 (mkSocketAddr src sport) (mkSocketAddr dst dport))
      (v1_line protocol s d (show_u64 sport) (show_u64 dport))
| encoding_v1_unknown s d sport dport :
    Forall (Forall ascii_graphic) [s; d; sport; dport] →
    proxy_encoding (mkProxyHeader ProxyV1 unspecified unspecified) (v1_line (str "UNKNOWN") s d sport dport)
| encoding_v2 family ip size src dst sport dport tlvs :
    (family = x11 ∧ ip = V4 ∧ size = 4%nat) ∨ (family = x21 ∧ ip = V6 ∧ size = 16%nat) →
    0 ≤ src < 256 ^ Z.of_nat size → 0 ≤ dst < 256 ^ Z.of_nat size → 0 ≤ sport < 65536 → 0 ≤ dport < 65536 →
    2 * Z.of_nat size + 4 + len tlvs < 65536 →
    proxy_encoding (mkProxyHeader ProxyV2 (mkSocketAddr (ip src) sport) (mkSocketAddr (ip dst) dport))
      (print_v2 family size src dst sport dport tlvs)
| encoding_v2_local family data :
    len data < 65536 → proxy_encoding (mkProxyHeader ProxyV2 unspecified unspecified) (print_v2_local family data).

Section roundtrip.
  Context {errors : StdErrors} (addr_error : bytes → bytes).

(** The fields of a line are taken apart again. *)
Lemma parse_v1_line protocol s d sport dport rest :
  protocol ∈ [str "TCP4"; str "TCP6"; str "UNKNOWN"] → Forall (Forall ascii_graphic) [s; d; sport; dport] →
  parse_v1 addr_error (v1_line protocol s d sport dport ++ rest)
  = let consumed := len (v1_line protocol s d sport dport) in
    if bool_decide (protocol = str "UNKNOWN") then Some (Ok (Some (mkProxyHeader ProxyV1 unspecified unspecified, consumed)))
    else Some (src_ip ←? ip_field addr_error (str "source") s;
               dst_ip ←? ip_field addr_error (str "dest") d;
               src_port ←? port_field (str "source") sport;
               dst_port ←? port_field (str "dest") dport;
               Ok (Some (mkProxyHeader ProxyV1 (mkSocketAddr src_ip src_port) (mkSocketAddr dst_ip dst_port), consumed))).
Proof.
  intros Hp Hf. unfold v1_line. set (fields := [str "PROXY"; protocol; s; d; sport; dport]).
  assert (Hg : Forall (Forall ascii_graphic) fields).
  { unfold fields. apply Forall_cons; split; [by apply (bool_decide_unpack _)|]. apply Forall_cons; split; [|done].
    rewrite !elem_of_cons, elem_of_nil in Hp. destruct_or!; subst; try done; by apply (bool_decide_unpack _). }
  assert (Hno : ∀ c, ¬ ascii_graphic c → Forall (λ f, c ∉ f) fields)
    by (intros c Hc; eapply Forall_impl; [exact Hg|]; intros f Hf'; by apply graphic_notin).
  set (line := join [x20] fields).
  assert (Hcr : x0d ∉ line) by (apply not_elem_of_join; [set_solver|apply Hno; by intros [? ?]]).
  assert (Hsplit : split_char x20 line = fields) by (apply split_char_join_inv; [done|apply Hno; by intros [? ?]]).
  assert (Hutf : utf8_valid line = true).
  { unfold line. rewrite utf8_valid_join by done. apply forallb_forall. intros f Hf'%list_elem_of_In.
    rewrite Forall_forall in Hg. by apply graphic_facts, Hg. }
  clearbody line. rewrite <- app_assoc. cbn [app]. unfold parse_v1. rewrite find_crlf_app by done.
  assert (buf_slice 0 (Z.of_nat (length line)) (line ++ x0d :: x0a :: rest) = Some line) as ->.
  { apply (slice_app 0 _ []); [done|]. by change (len []) with 0. }
  cbn [mbind option_bind]. rewrite Hutf, Hsplit. unfold fields at 1. cbn [negb]. rewrite bool_decide_true by done. cbn [negb].
  replace (len (line ++ [x0d; x0a])) with (Z.of_nat (length line) + 2) by (unfold len; rewrite length_app; simpl; lia). done.
Qed.

Lemma parse_v2_local family data rest :
  len data < 65536 →
  parse_v2 (print_v2_local family data ++ rest)
  = Some (Ok (Some (mkProxyHeader ProxyV2 unspecified unspecified, len (print_v2_local family data)))).
Proof.
  intros Hlen. unfold print_v2_local. set (n := len data) in *. set (sig := PROXY_V2_SIG ++ [x20; family]).
  replace ((PROXY_V2_SIG ++ [x20; family] ++ to_be_bytes 2 n ++ data) ++ rest)
    with (sig ++ to_be_bytes 2 n ++ data ++ rest) by (unfold sig; by rewrite <- !app_assoc).
  pose proof (len_to_be_bytes 2 n) as L2. assert (Lsig : len sig = 14) by done.
  replace (len (PROXY_V2_SIG ++ [x20; family] ++ to_be_bytes 2 n ++ data)) with (16 + n)
    by (unfold n, len in *; rewrite !length_app; simpl; lia).
  assert (Lbuf : len (sig ++ to_be_bytes 2 n ++ data ++ rest) = 16 + n + len rest)
    by (unfold n, len in *; rewrite !length_app; lia).
  assert (Hn : 0 ≤ n < 65536) by (split; [unfold n, len; lia|done]).
  unfold parse_v2. rewrite Lbuf. rewrite (proj2 (Z.ltb_ge (16 + n + len rest) 16)) by (unfold len; lia).
  change (byte_at 12 (sig ++ to_be_bytes 2 n ++ data ++ rest)) with (Some 32).
  change (byte_at 13 (sig ++ to_be_bytes 2 n ++ data ++ rest)) with (Some (u8_val family)). cbn [mbind option_bind].
  rewrite (slice_app 14 16 sig) by lia. cbn [mbind option_bind]. rewrite from_to_be_bytes by done. cbv zeta.
  rewrite (proj2 (Z.ltb_ge (16 + n + len rest) (16 + n))) by (unfold len; lia). done.
Qed.

Lemma parse_v1_header h enc rest :
  proxy_encoding h enc → starts_with (str "PROXY ") enc = true →
  parse_v1 addr_error (enc ++ rest) = Some (Ok (Some (h, len enc))).
Proof.
  assert (Hm : ∀ z, 0 ≤ z ≤ u16_max → 0 ≤ z ≤ u64_max) by (unfold u16_max, u64_max; lia).
  intros [protocol src dst s d sport dport Hp Hs Hd Hsp Hdp|s d sport dport Hf| |]; [| |done..]; intros _.
  - rewrite parse_v1_line.
    + cbv zeta. rewrite bool_decide_false by (destruct Hp as [[-> _]|[-> _]]; done).
      unfold ip_field, port_field, parse_u16. rewrite (parse_ip_text _ _ Hs), (parse_ip_text _ _ Hd).
      rewrite !parse_show_uint by (done || unfold u16_max, u64_max; lia). done.
    + destruct Hp as [[-> _]|[-> _]]; set_solver.
    + pose proof (show_u64_graphic sport (Hm _ Hsp)). pose proof (show_u64_graphic dport (Hm _ Hdp)).
      apply ip_text_graphic in Hs, Hd. by repeat constructor.
  - rewrite parse_v1_line by (done || set_solver). cbv zeta. by rewrite bool_decide_true.
Qed.

(** C38. A PROXY header is read back exactly, with the number of bytes it takes,
    whatever follows it: of version 1 for TCP4 with the addresses as four decimal
    octets, for TCP6 in any textual form (eight groups of hexadecimal digits, or fewer
    and two colons, the last two groups possibly as four octets), or for UNKNOWN with
    four more fields, which stand for no address; of version 2 with addresses of either
    family and any extensions, or LOCAL with any data, which stands for no address. *)
Theorem proxy_header_roundtrip h enc rest :
  proxy_encoding h enc → parse_proxy_header addr_error (enc ++ rest) = Some (Ok (Some (h, len enc))).
Proof.
  intros Henc. pose proof (parse_v1_header h enc rest Henc) as H1. unfold parse_proxy_header.
  destruct Henc as [p src dst s d sport dport Hp|s d sport dport|family ip size src dst sport dport tlvs|family data].
  - assert (Hl : 8 ≤ len (v1_line p s d (show_u64 sport) (show_u64 dport) ++ rest))
      by (unfold v1_line, len; cbn [join]; repeat (rewrite length_app; cbn [length]); cbn; lia).
    rewrite (proj2 (Z.ltb_ge _ 8)) by exact Hl. by apply H1.
  - assert (Hl : 8 ≤ len (v1_line (str "UNKNOWN") s d sport dport ++ rest))
      by (unfold v1_line, len; cbn [join]; repeat (rewrite length_app; cbn [length]); cbn; lia).
    rewrite (proj2 (Z.ltb_ge _ 8)) by exact Hl. by apply H1.
  - set (buf := print_v2 family size src dst sport dport tlvs ++ rest).
    assert (Hl : 16 ≤ len buf).
    { unfold buf, print_v2, len. rewrite !length_app. unfold to_be_bytes at 1. rewrite length_reverse, length_to_le_bytes. simpl. lia. }
    rewrite (proj2 (Z.ltb_ge _ 8)), (proj2 (Z.leb_le 16 _)) by lia.
    change (starts_with (str "PROXY ") buf) with false. change (take 12 buf) with PROXY_V2_SIG.
    rewrite bool_decide_true by done. cbn [andb]. by apply parse_v2_print.
  - set (buf := print_v2_local family data ++ rest).
    assert (Hl : 16 ≤ len buf).
    { unfold buf, print_v2_local, len. rewrite !length_app. unfold to_be_bytes at 1. rewrite length_reverse, length_to_le_bytes. simpl. lia. }
    rewrite (proj2 (Z.ltb_ge _ 8)), (proj2 (Z.leb_le 16 _)) by lia.
    change (starts_with (str "PROXY ") buf) with false. change (take 12 buf) with PROXY_V2_SIG.
    rewrite bool_decide_true by done. cbn [andb]. by apply parse_v2_local.
Qed.
End roundtrip.

Definition no_std_errors : StdErrors := {| utf8_error _ := []; int_error _ := [] |}.

(** The address [fe80::1:192.168.1.1]. *)
Lemma sample_v6_text : ip_text (V6 (0xfe80 * 2 ^ 112 + 2 ^ 32 + 3232235777)) (str "Fe80::1:192.168.1.1").
Proof.
  refine (text_v6_short [0xfe80] [str "Fe80"] [1; 49320; 257] (str "1:192.168.1.1") _ _ _).
  - cbn. lia.
  - repeat constructor. exists [15; 14; 8; 0]. split_and!; [vm_compute; reflexivity..|cbn; lia|cbn; lia].
  - exists [1], [str "1"], (Some 3232235777). split_and!; [vm_compute; reflexivity| |vm_compute; reflexivity|by intros n [= <-]].
    repeat constructor. exists [1]. split_and!; [done..|cbn; lia].
Qed.

Lemma proxy_header_roundtrip_witness :
  @parse_proxy_header no_std_errors (λ _, []) (str "PROXY TCP6 Fe80::1:192.168.1.1 Fe80::1:192.168.1.1 56324 443" ++ [x0d; x0a] ++ str "GET /")
  = Some (Ok (Some (mkProxyHeader ProxyV1 (mkSocketAddr (V6 (0xfe80 * 2 ^ 112 + 2 ^ 32 + 3232235777)) 56324)
                      (mkSocketAddr (V6 (0xfe80 * 2 ^ 112 + 2 ^ 32 + 3232235777)) 443), 62))).
Proof.
  apply (@proxy_header_roundtrip no_std_errors (λ _, [])
           (mkProxyHeader ProxyV1 (mkSocketAddr (V6 (0xfe80 * 2 ^ 112 + 2 ^ 32 + 3232235777)) 56324)
              (mkSocketAddr (V6 (0xfe80 * 2 ^ 112 + 2 ^ 32 + 3232235777)) 443))
           (v1_line (str "TCP6") (str "Fe80::1:192.168.1.1") (str "Fe80::1:192.168.1.1") (show_u64 56324) (show_u64 443)) (str "GET /")).
  apply encoding_v1; [right; by eauto|exact sample_v6_text..|split; discriminate|split; discriminate].
Defined.
