(* ===== verification/Connection.v ===== *)
(** * Serving a connection

    Models [rv-transport/src/bufpool.rs] and the connection handler of
    [rv-transport/src/server.rs] with the types of [traits.rs]: protocol detection and
    the loop that reads requests, calls the handler and writes the responses.  The
    request handler is an argument with a state of its own; an HTTP/2 connection is
    handed to the h2 library.  The loop ends on every input, and a client that reads
    the bytes written gets the handler's responses, one per request and in order. *)

From S2P Require Import Prelude RustStr Enums Types HttpTypes Header Vary Backend ConnPool Http1.
Local Open Scope Z_scope.

(* ------------------------------------------------------------------ *)
(** ** The buffer pool *)

Definition MAX_POOL_SIZE : nat := 32.

(** The buffers of a thread, the last one returned on top. *)
Abbreviation buf_pool := (list bytes).

(** [clear] empties the buffer taken. *)
Definition get_buf (pool : buf_pool) : bytes * buf_pool :=
  match last pool with
  | Some buf => ([], removelast pool)
  | None => ([], pool)
  end.

Definition put_buf (buf : bytes) (pool : buf_pool) : buf_pool :=
  if (length pool <? MAX_POOL_SIZE)%nat then pool ++ [buf] else pool.

(* ------------------------------------------------------------------ *)
(** ** Connections *)

Inductive DetectedVersion : Set := Detected11 | Detected2 | DetectedUnknown.

Record ConnInfo : Set := mkConnInfo {
  ci_client_addr : SocketAddr;
  ci_local_addr : SocketAddr;
  ci_real_client_addr : option SocketAddr;
  ci_is_tls : bool;
  ci_http_version : DetectedVersion;
}.

Definition set_http_version (v : DetectedVersion) (c : ConnInfo) : ConnInfo :=
  mkConnInfo (ci_client_addr c) (ci_local_addr c) (ci_real_client_addr c) (ci_is_tls c) v.

Definition H2_PREFACE : bytes :=
  str "PRI * HTTP/2.0" ++ [x0d; x0a; x0d; x0a] ++ str "SM" ++ [x0d; x0a; x0d; x0a].

Definition continue_line : bytes := str "HTTP/1.1 100 Continue" ++ [x0d; x0a; x0d; x0a].

(** The bytes of the head of a response, built on the buffer taken. *)
Definition head_bytes (hdr_buf : bytes) (response : HttpMessage) (resp_body : option bytes) (keepalive : bool) : bytes :=
  hdr_buf ++ HttpMessage_status_line response ++ [x0d; x0a]
  ++ concat (header_line <$> headers (msg_headers response))
  ++ match resp_body with
     | Some body =>
         if bool_decide (HttpMessage_get_header response (str "Content-Length") = None)
         then str "Content-Length: " ++ show_u64 (len body) ++ [x0d; x0a] else []
     | None => []
     end
  ++ (if keepalive then [] else str "Connection: close" ++ [x0d; x0a])
  ++ [x0d; x0a].

Definition wants_continue (request : HttpMessage) : bool :=
  match HttpMessage_get_header request (str "Expect") with
  | Some v => eq_ignore_ascii_case v (str "100-continue")
  | None => false
  end.

(** How a connection ends. *)
Inductive conn_end : Set :=
| Closed
| Failed (e : TransportError.t)
| Panicked
| HandedToH2 (info : ConnInfo).

Section serve.
  Context {httparse : Httparse} {errors : StdErrors} {St : Type}.
  Context (handler : HttpMessage → option bytes → ConnInfo → St → (HttpMessage * option bytes) * St).
  Context (max_body_size : Z).

(** What is shared across requests: the handler's state, the buffer pool of the
    thread, and the bytes written so far. *)
Record conn_state : Type := mkConnState { cs_state : St; cs_pool : buf_pool; cs_written : bytes }.

Definition write (b : bytes) (c : conn_state) : conn_state :=
  mkConnState (cs_state c) (cs_pool c) (cs_written c ++ b).

(** The part of a round after the request was read: the interim response, the body,
    the handler, the response; the rest of the stream when the loop goes on. *)
Definition answer_request (info : ConnInfo) (request : HttpMessage) (s : bytes) (c : conn_state) :
    option (conn_end + bytes) * conn_state :=
  let keepalive := should_keepalive request in
  let '(request, c) :=
    if wants_continue request then (HttpMessage_unset_header request (str "Expect"), write continue_line c)
    else (request, c) in
  match read_body (S (length s)) request max_body_size s with
  | None => (None, c)
  | Some (Fails e) => (Some (inl (Failed e)), c)
  | Some Panics => (Some (inl Panicked), c)
  | Some (Done body rest) =>
      let '((response, resp_body), st) := handler request body info (cs_state c) in
      let '(hdr_buf, pool) := get_buf (cs_pool c) in
      let hdr_buf := head_bytes hdr_buf response resp_body keepalive in
      let c := mkConnState st (put_buf hdr_buf pool) (cs_written c ++ hdr_buf ++ default [] resp_body) in
      (Some (if keepalive then inr rest else inl Closed), c)
  end.

(** The HTTP/1 loop; a closed connection is its normal end. *)
Fixpoint conn_loop (fuel : nat) (info : ConnInfo) (s : bytes) (c : conn_state) : option (conn_end * conn_state) :=
  match fuel with
  | O => None
  | S fuel =>
      match read_request (S (length s)) s with
      | None => None
      | Some (Fails TransportError.ConnectionClosed) => Some (Closed, c)
      | Some (Fails e) => Some (Failed e, c)
      | Some Panics => Some (Panicked, c)
      | Some (Done request rest) =>
          match answer_request info request rest c with
          | (None, _) => None
          | (Some (inl e), c) => Some (e, c)
          | (Some (inr rest), c) => conn_loop fuel info rest c
          end
      end
  end.

(** [peeked] is how many bytes the first look at the stream saw. *)
Definition handle_http_connection (fuel peeked : nat) (info : ConnInfo) (s : bytes) (c : conn_state) :
    option (conn_end * conn_state) :=
  if (24 <=? peeked)%nat && bool_decide (take 24 s = H2_PREFACE)
  then Some (HandedToH2 (set_http_version Detected2 info), c)
  else conn_loop fuel info s c.

End serve.
Arguments conn_state : clear implicits.

(* ------------------------------------------------------------------ *)
(** ** The buffer pool hands out empty buffers and stays small *)

Lemma get_buf_empty pool : (get_buf pool).1 = [].
Proof. unfold get_buf. by destruct (last pool). Qed.

Lemma put_buf_bound buf pool : (length pool ≤ MAX_POOL_SIZE)%nat → (length (put_buf buf pool) ≤ MAX_POOL_SIZE)%nat.
Proof. intros Hp. unfold put_buf. case_if; [|done]. rewrite length_app. apply Nat.ltb_lt in E. simpl. lia. Qed.

(* ------------------------------------------------------------------ *)
(** ** The loop ends *)

Section ends.
  Context {httparse : Httparse} {errors : StdErrors} {St : Type}.
  Context (handler : HttpMessage → option bytes → ConnInfo → St → (HttpMessage * option bytes) * St).
  Context (max_body_size : Z) (Hmax : 0 ≤ max_body_size ≤ i64_max).

Lemma read_head_shorter fuel : ∀ buf s b rest,
  read_head fuel buf s = Some (Done b rest) → (length rest < length s)%nat.
Proof.
  induction fuel as [|fuel IH]; intros buf s b rest; [done|]. cbn [read_head]. unfold io_bind, read_until.
  destruct (take_until_split x0a s) as [Hs _]. destruct (take_until x0a s) as [l r]. simpl in Hs.
  destruct l as [|x l]; [by destruct buf|].
  assert (Hr : (length r < length s)%nat) by (rewrite Hs; simpl; rewrite length_app; lia).
  repeat (case_if; [by intros [= <- <-] || done|]). intros H. apply IH in H. lia.
Qed.

Lemma read_request_shorter fuel s m rest :
  read_request fuel s = Some (Done m rest) → (length rest < length s)%nat.
Proof.
  unfold read_request, io_bind. destruct (read_head fuel [] s) as [[b r|e|]|] eqn:E; try done.
  apply read_head_shorter in E. destruct (httparse_request MAX_HEADERS b) as [[req|]|e]; try done.
  by intros [= <- <-].
Qed.

(** A round returns, and what it leaves is no longer than what it got. *)
Lemma answer_request_ends info request s c :
  ∃ r c', answer_request handler max_body_size info request s c = (Some r, c')
    ∧ ∀ rest, r = inr rest → (length rest ≤ length s)%nat.
Proof.
  unfold answer_request. destruct (if wants_continue request then _ else _) as [request' c0].
  destruct (read_body_ends (S (length s)) request' max_body_size s Hmax ltac:(lia)) as (o & -> & Ho).
  destruct o as [body rest|e|]; [|by do 2 eexists..].
  destruct (handler request' body info (cs_state c0)) as [[resp rb] st]. destruct (get_buf (cs_pool c0)) as [hb pool].
  do 2 eexists. split; [reflexivity|]. destruct (Ho body rest eq_refl) as [_ [p ->]].
  intros rest'. case_if; [|done]. intros [= <-]. rewrite length_app. lia.
Qed.

Lemma conn_loop_ends fuel : ∀ info s c,
  (length s < fuel)%nat → is_Some (conn_loop handler max_body_size fuel info s c).
Proof.
  induction fuel as [|fuel IH]; intros info s c Hf; [lia|]. cbn [conn_loop].
  destruct (read_request_ended (S (length s)) s ltac:(lia)) as (o & Eo & _). rewrite Eo.
  destruct o as [request rest|e|]; [|by destruct e; eexists|by eexists].
  apply read_request_shorter in Eo.
  destruct (answer_request_ends info request rest c) as (r & c' & -> & Hr).
  destruct r as [e|rest']; [by eexists|]. apply IH. specialize (Hr rest' eq_refl). lia.
Qed.

End ends.

(* ------------------------------------------------------------------ *)
(** ** What the client reads *)

(** One request answered. *)
Record served : Type := mkServed {
  sv_request : HttpMessage;
  sv_body : option bytes;
  sv_interim : bool;
  sv_response : HttpMessage;
  sv_resp_body : option bytes;
  sv_keep : bool;
}.

Definition served_bytes (i : served) : bytes :=
  (if sv_interim i then continue_line else [])
  ++ head_bytes [] (sv_response i) (sv_resp_body i) (sv_keep i) ++ default [] (sv_resp_body i).

(** The headers with the server's own Content-Length. *)
Definition length_headers (i : served) : list Header :=
  headers (msg_headers (sv_response i))
  ++ match sv_resp_body i with
     | Some body =>
         if bool_decide (HttpMessage_get_header (sv_response i) (str "Content-Length") = None)
         then [Header_new (str "Content-Length") (show_u64 (len body))] else []
     | None => []
     end.

(** The headers of a reply as the client gets them. *)
Definition reply_headers (i : served) : list Header :=
  length_headers i ++ (if sv_keep i then [] else [Header_new (str "Connection") (str "close")]).

(** A reply the client can tell from the next one: its own headers have distinct
    names, none of them Connection, and the length of its body is announced. *)
Definition reply_ok (i : served) : Prop :=
  let m := sv_response i in
  message_ok m (headers (msg_headers m)) (sv_resp_body i)
  ∧ HttpMessage_get_header m (str "Connection") = None
  ∧ (if HttpMessage_response_has_body m then
       match HttpMessage_get_header m (str "Content-Length") with
       | Some cl => content_length cl = len (default [] (sv_resp_body i))
       | None => is_Some (sv_resp_body i)
       end
     else default [] (sv_resp_body i) = []).

Definition continue_message : HttpMessage := HttpMessage_new_response HttpStatus_CONTINUE Http11.

Definition replies_of (i : served) : list (HttpMessage * option bytes) :=
  (if sv_interim i then [(continue_message, None)] else [])
  ++ [(received_with (sv_response i) (reply_headers i), non_empty (default [] (sv_resp_body i)))].

Lemma continue_line_message : continue_line = message_bytes continue_message [] None.
Proof. by vm_compute. Qed.

Lemma served_bytes_message i :
  served_bytes i = (if sv_interim i then continue_line else [])
                   ++ message_bytes (sv_response i) (reply_headers i) (sv_resp_body i).
Proof.
  unfold served_bytes, head_bytes, message_bytes, reply_headers, length_headers.
  assert (E1 : ∀ (b : bool) c, (if b then str "Content-Length: " ++ show_u64 (len c) ++ [x0d; x0a] else [])
               = concat (header_line <$> if b then [Header_new (str "Content-Length") (show_u64 (len c))] else [])).
  { intros [] c; [|done]. cbn [fmap list_fmap concat]. unfold header_line. cbn [h_name h_value Header_new]. by rewrite app_nil_r. }
  assert (E2 : (if sv_keep i then [] else str "Connection: close" ++ [x0d; x0a])
               = concat (header_line <$> if sv_keep i then [] else [Header_new (str "Connection") (str "close")]))
    by by destruct (sv_keep i).
  rewrite E2, !fmap_app, !concat_app. f_equal.
  destruct (sv_resp_body i) as [b|]; [rewrite E1|]; by rewrite <- !app_assoc.
Qed.

(** Appending a header with a new name. *)
Lemma headers_snoc hs h :
  Forall header_ok hs → NoDup (lower_name <$> hs) → header_ok h →
  HeaderMap_get (mkHeaderMap hs) (h_name h) = None →
  Forall header_ok (hs ++ [h]) ∧ NoDup (lower_name <$> hs ++ [h]).
Proof.
  intros Hok Hnd Hh Hg. split; [apply Forall_app; split; [done|]; constructor; [done|constructor]|].
  rewrite fmap_app. apply NoDup_app. split; [done|]. split; [|apply NoDup_singleton].
  intros x Hx Hx'%list_elem_of_singleton. subst x. by apply (get_None_lower (mkHeaderMap hs) (h_name h) h Hg eq_refl).
Qed.

Lemma close_ok : header_ok (Header_new (str "Connection") (str "close")).
Proof.
  unfold header_ok. repeat split; try discriminate; apply (bool_decide_unpack _); vm_compute; exact I.
Qed.

Lemma show_len_graphic (b : bytes) : len b ≤ i64_max → Forall ascii_graphic (show_u64 (len b)) ∧ show_u64 (len b) ≠ [].
Proof.
  intros Hb. split; [|by destruct (show_u64_cons (len b)) as (x & s & ->)].
  apply show_u64_graphic. unfold len, i64_max, u64_max in *. lia.
Qed.

Lemma length_headers_ok i :
  reply_ok i → Forall header_ok (length_headers i) ∧ NoDup (lower_name <$> length_headers i)
    ∧ HeaderMap_get (mkHeaderMap (length_headers i)) (str "Connection") = None.
Proof.
  intros ((Hh & Hnd & _ & _ & _ & _ & Hlen) & Hc & _). unfold length_headers.
  assert (Hm : mkHeaderMap (headers (msg_headers (sv_response i))) = msg_headers (sv_response i))
    by by destruct (msg_headers (sv_response i)).
  destruct (sv_resp_body i) as [b|]; [case_if|].
  - apply bool_decide_eq_true in E. destruct (show_len_graphic b Hlen) as [Gb Nb].
    destruct (headers_snoc (headers (msg_headers (sv_response i))) (Header_new (str "Content-Length") (show_u64 (len b))))
      as [H1 H2]; [done|done|by apply content_length_ok|by rewrite Hm|].
    split; [done|]. split; [done|]. rewrite HeaderMap_get_app, Hm. unfold HttpMessage_get_header in Hc. by rewrite Hc.
  - rewrite app_nil_r, Hm. done.
  - rewrite app_nil_r, Hm. done.
Qed.

Lemma reply_message_ok i :
  reply_ok i → message_ok (sv_response i) (reply_headers i) (sv_resp_body i)
    ∧ length_announced (sv_response i) (reply_headers i) (sv_resp_body i).
Proof.
  intros Hok. destruct (length_headers_ok i Hok) as (Hh & Hnd & Hc).
  destruct Hok as ((_ & _ & Hst & Tr & Nr & Ur & Hlen) & _ & Hf). split.
  - assert (Forall header_ok (reply_headers i) ∧ NoDup (lower_name <$> reply_headers i)) as [H1 H2].
    { unfold reply_headers. destruct (sv_keep i); [by rewrite app_nil_r|]. apply headers_snoc; [done..|apply close_ok|done]. }
    unfold message_ok. do 6 (split; [assumption|]). assumption.
  - unfold length_announced. destruct (HttpMessage_response_has_body (sv_response i)); [|done].
    unfold reply_headers, length_headers. rewrite !HeaderMap_get_app.
    assert (Hm : mkHeaderMap (headers (msg_headers (sv_response i))) = msg_headers (sv_response i))
      by by destruct (msg_headers (sv_response i)).
    rewrite Hm. unfold HttpMessage_get_header in Hf.
    destruct (HeaderMap_get (msg_headers (sv_response i)) (str "Content-Length")) as [cl|] eqn:E; [by exists cl|].
    destruct Hf as [b Hb]. rewrite Hb in Hlen |- *. rewrite bool_decide_true by exact E.
    exists (show_u64 (len b)). split; [done|]. unfold content_length. rewrite parse_show_u64; [done|].
    unfold len, i64_max, u64_max in *. simpl in Hlen. lia.
Qed.

Section replies.
  Context {httparse : Httparse} {errors : StdErrors} {St : Type}.
  Context (handler : HttpMessage → option bytes → ConnInfo → St → (HttpMessage * option bytes) * St).
  Context (max_body_size : Z) (info : ConnInfo).

(** A client that reads [n] responses one after the other. *)
Fixpoint read_replies (fuel n : nat) : io (list (HttpMessage * option bytes)) :=
  match n with
  | O => io_ret []
  | S n => io_bind (read_response fuel) (λ r, io_bind (read_replies fuel n) (λ rs, io_ret (r.1 :: rs)))
  end.

(** A reply on its own. *)
Definition reply_of (response : HttpMessage) (body : option bytes) (keepalive : bool) : served :=
  mkServed HttpMessage_default None false response body keepalive.

(** The client keeps the connection when the server does and speaks HTTP/1.1. *)
Lemma reply_keep_alive response body keepalive :
  reply_ok (reply_of response body keepalive) →
  is_keep_alive (received_with response (reply_headers (reply_of response body keepalive)))
  = keepalive && bool_decide (msg_protocol response = Http11).
Proof.
  intros Hok. destruct (length_headers_ok _ Hok) as (_ & _ & Hc). unfold is_keep_alive, HttpMessage_get_header.
  set (i := reply_of response body keepalive) in *.
  assert (Hm : msg_headers (received_with response (reply_headers i))
    = mkHeaderMap (length_headers i ++ if keepalive then [] else [Header_new (str "Connection") (str "close")])) by reflexivity.
  rewrite Hm, HeaderMap_get_app, Hc. destruct keepalive; cbn; by destruct (msg_protocol response).
Qed.

(** C13. What the server writes to a connection, the client reads back.  The server
    writes the head of a reply into a buffer from its pool, with the Content-Length of
    the body unless the response has one and with Connection: close unless it keeps the
    connection, and the body after it.  For a response whose header fields have distinct
    names, none of them Connection, whose fields and reason are trimmed UTF-8 without a
    line break, and whose body has the length its own Content-Length says (or is there,
    when it has none and its status allows a body), the client gets the same status, version, reason, header fields in their
    order and those two, and the body; it stops exactly at the end of the reply,
    whatever follows, and keeps the connection exactly when the server does and the
    version is HTTP/1.1. *)
Theorem server_reply_roundtrip fuel pool response body keepalive rest :
  let hs := reply_headers (reply_of response body keepalive) in
  reply_ok (reply_of response body keepalive) → (length hs < fuel)%nat →
  read_response fuel (head_bytes (get_buf pool).1 response body keepalive ++ default [] body ++ rest)
  = Some (Done (received_with response hs, non_empty (default [] body), keepalive && bool_decide (msg_protocol response = Http11)) rest).
Proof.
  intros hs Hok Hf. destruct (reply_message_ok _ Hok) as [Hm Hl].
  pose proof (served_bytes_message (reply_of response body keepalive)) as Hb. unfold served_bytes in Hb.
  cbn [reply_of sv_interim sv_response sv_resp_body sv_keep app] in Hb. rewrite get_buf_empty, app_assoc, Hb.
  rewrite <- (reply_keep_alive response body keepalive Hok). by apply message_read.
Qed.

(** The request handed to the handler for a request read. *)
Definition handed (request : HttpMessage) : HttpMessage :=
  if wants_continue request then HttpMessage_unset_header request (str "Expect") else request.

Definition interim_bytes (request : HttpMessage) : bytes :=
  if wants_continue request then continue_line else [].

(** The bytes [s] that are left yield no further request: how the connection ends
    there, with the bytes written since the last response. *)
Inductive conn_stops (s : bytes) : conn_end → bytes → Prop :=
| stops_closed :
    read_request (S (length s)) s = Some (Fails TransportError.ConnectionClosed) → conn_stops s Closed []
| stops_request e :
    e ≠ TransportError.ConnectionClosed → read_request (S (length s)) s = Some (Fails e) → conn_stops s (Failed e) []
| stops_body request rest e :
    read_request (S (length s)) s = Some (Done request rest) →
    read_body (S (length rest)) (handed request) max_body_size rest = Some (Fails e) →
    conn_stops s (Failed e) (interim_bytes request)
| stops_body_panic request rest :
    read_request (S (length s)) s = Some (Done request rest) →
    read_body (S (length rest)) (handed request) max_body_size rest = Some Panics →
    conn_stops s Panicked (interim_bytes request).

(** The request and the body [i] answers are the first ones of [s], and [rest] is
    what follows them. *)
Definition request_read (s : bytes) (i : served) (rest : bytes) : Prop :=
  ∃ request r, read_request (S (length s)) s = Some (Done request r)
    ∧ read_body (S (length r)) (handed request) max_body_size r = Some (Done (sv_body i) rest)
    ∧ sv_request i = handed request ∧ sv_interim i = wants_continue request ∧ sv_keep i = should_keepalive request.

(** The requests of the bytes [s]: each is handed to the handler once, in order, with
    the state the one before left; the first one that does not keep the connection
    alive is the last. *)
Inductive handled : bytes → St → list served → St → conn_end → bytes → Prop :=
| handled_stop s st e tl : conn_stops s e tl → handled s st [] st e tl
| handled_last s st i rest st1 :
    request_read s i rest → sv_keep i = false →
    handler (sv_request i) (sv_body i) info st = ((sv_response i, sv_resp_body i), st1) →
    handled s st [i] st1 Closed []
| handled_next s st i rest st1 items st2 e tl :
    request_read s i rest → sv_keep i = true →
    handler (sv_request i) (sv_body i) info st = ((sv_response i, sv_resp_body i), st1) →
    handled rest st1 items st2 e tl → handled s st (i :: items) st2 e tl.

Lemma read_replies_app fuel n m r1 r2 s s1 s2 :
  read_replies fuel n s = Some (Done r1 s1) → read_replies fuel m s1 = Some (Done r2 s2) →
  read_replies fuel (n + m) s = Some (Done (r1 ++ r2) s2).
Proof.
  revert r1 s. induction n as [|n IH]; intros r1 s; cbn [read_replies Nat.add]; [by intros [= <- <-]|].
  unfold io_bind. destruct (read_response fuel s) as [[r s'|e|]|]; try done.
  destruct (read_replies fuel n s') as [[rs s''|e|]|] eqn:E; try done. intros [= <- <-] H2.
  by rewrite (IH rs s' E H2).
Qed.

Lemma message_replies fuel response hs body rest :
  message_ok response hs body → length_announced response hs body → (length hs < fuel)%nat →
  read_replies fuel 1 (message_bytes response hs body ++ rest)
  = Some (Done [(received_with response hs, non_empty (default [] body))] rest).
Proof. intros Hok Hl Hf. cbn [read_replies]. unfold io_bind at 1. by rewrite message_read. Qed.

Lemma served_replies fuel i rest :
  reply_ok i → (length (reply_headers i) < fuel)%nat →
  read_replies fuel (length (replies_of i)) (served_bytes i ++ rest) = Some (Done (replies_of i) rest).
Proof.
  intros Hok Hf. destruct (reply_message_ok i Hok) as [Hm Hl]. rewrite served_bytes_message. unfold replies_of.
  pose proof (message_replies fuel _ _ _ rest Hm Hl Hf) as H1. destruct (sv_interim i); [|exact H1].
  rewrite <- app_assoc, continue_line_message. cbn [app length].
  refine (read_replies_app fuel 1 1 [_] [_] _ _ _ _ H1).
  apply (message_replies fuel continue_message [] None).
  - unfold message_ok. repeat split; try discriminate; try (apply (bool_decide_unpack _); vm_compute; exact I).
  - reflexivity.
  - simpl. lia.
Qed.

Lemma all_replies fuel items rest :
  Forall reply_ok items → Forall (λ i, (length (reply_headers i) < fuel)%nat) items →
  read_replies fuel (length (concat (replies_of <$> items))) (concat (served_bytes <$> items) ++ rest)
  = Some (Done (concat (replies_of <$> items)) rest).
Proof.
  induction 1 as [|i items Hi _ IH]; intros Hf; [done|]. apply Forall_cons in Hf as [Hfi Hf].
  rewrite !fmap_cons. cbn [concat]. rewrite length_app, <- app_assoc.
  eapply read_replies_app; [by apply served_replies|by apply IH].
Qed.

(** One round on a request that was read: either its body failed, and nothing but an
    interim response was written, or it was answered. *)
Lemma answer_request_served s request rest c r c' :
  read_request (S (length s)) s = Some (Done request rest) →
  answer_request handler max_body_size info request rest c = (Some r, c') →
  (∃ e tl, r = inl e ∧ conn_stops s e tl ∧ cs_state c' = cs_state c ∧ cs_written c' = cs_written c ++ tl)
  ∨ ∃ i rest', request_read s i rest' ∧ r = (if sv_keep i then inr rest' else inl Closed)
        ∧ handler (sv_request i) (sv_body i) info (cs_state c) = ((sv_response i, sv_resp_body i), cs_state c')
        ∧ cs_written c' = cs_written c ++ served_bytes i.
Proof.
  intros Hr. unfold answer_request. set (p := if wants_continue request then _ else _).
  assert (Hp : p.1 = handed request ∧ cs_state p.2 = cs_state c
               ∧ cs_written p.2 = cs_written c ++ interim_bytes request).
  { subst p. unfold handed, interim_bytes. destruct (wants_continue request); simpl; [done|by rewrite app_nil_r]. }
  destruct p as [req c0]. simpl in Hp. destruct Hp as (-> & Hs & Hw).
  destruct (read_body (S (length rest)) (handed request) max_body_size rest) as [[body rest'|e|]|] eqn:Eb; [| | |done].
  - destruct (handler (handed request) body info (cs_state c0)) as [[resp rb] st] eqn:Eh.
    pose proof (get_buf_empty (cs_pool c0)) as Hb. destruct (get_buf (cs_pool c0)) as [hb pool]. simpl in Hb. subst hb.
    intros [= <- <-]. right.
    exists (mkServed (handed request) body (wants_continue request) resp rb (should_keepalive request)), rest'. cbn.
    split; [by exists request, rest|]. do 2 (split; [done || by rewrite <- Hs|]).
    rewrite Hw. unfold served_bytes, interim_bytes. cbn. by rewrite <- !app_assoc.
  - intros [= <- <-]. left. eexists _, _. split; [done|]. split; [by eapply stops_body|done].
  - intros [= <- <-]. left. eexists _, _. split; [done|]. split; [by eapply stops_body_panic|done].
Qed.

Lemma conn_loop_served fuel : ∀ s c e c',
  conn_loop handler max_body_size fuel info s c = Some (e, c') →
  ∃ items tl, handled s (cs_state c) items (cs_state c') e tl
    ∧ cs_written c' = cs_written c ++ concat (served_bytes <$> items) ++ tl.
Proof.
  induction fuel as [|fuel IH]; intros s c e c'; [done|]. cbn [conn_loop].
  destruct (read_request (S (length s)) s) as [[request rest|err|]|] eqn:Er; [| | |done].
  - destruct (answer_request handler max_body_size info request rest c) as [[r|] c1] eqn:Ea; [|done].
    destruct (answer_request_served _ _ _ _ _ _ Er Ea) as [(e1 & tl & -> & Hst & Hs & Hw)|(i & rest' & Hi & -> & Hh & Hw)].
    + intros [= <- <-]. exists [], tl. split; [rewrite Hs; by apply handled_stop|done].
    + destruct (sv_keep i) eqn:Ek.
      * intros H. destruct (IH _ _ _ _ H) as (items & tl & Hit & Hw'). exists (i :: items), tl.
        split; [by eapply handled_next|]. rewrite Hw', Hw, fmap_cons. cbn [concat]. by rewrite <- !app_assoc.
      * intros [= <- <-]. exists [i], []. split; [by eapply handled_last|]. simpl. by rewrite Hw, !app_nil_r.
  - intros H. exists [], []. destruct err; injection H as <- <-;
      (split; [apply handled_stop; by (apply stops_closed || apply stops_request)|by rewrite app_nil_r]).
  - by eapply read_request_panics in Er.
Qed.

(** A connection is served: whatever bytes the peer sends before it closes, and
    as long as writing to it works, the loop ends, within as many rounds as there are
    bytes and one.  The requests that can be read from the bytes one after the other
    were handed to the handler, each once and in order, every one with the state the
    one before left behind, up to the first that closes the connection or fails.  If
    the handler's responses can be told apart on a connection, a client that reads
    what was written gets exactly them, with the interim responses asked for, and
    nothing is left over but the interim response of a request whose body failed. *)
Theorem connection_served fuel s st pool :
  0 ≤ max_body_size ≤ i64_max → (length s < fuel)%nat →
  ∃ e c' items tl,
    conn_loop handler max_body_size fuel info s (mkConnState st pool []) = Some (e, c')
    ∧ handled s st items (cs_state c') e tl
    ∧ (∀ fuel', Forall reply_ok items → Forall (λ i, (length (reply_headers i) < fuel')%nat) items →
         read_replies fuel' (length (concat (replies_of <$> items))) (cs_written c')
         = Some (Done (concat (replies_of <$> items)) tl)).
Proof.
  intros Hmax Hf. destruct (conn_loop_ends handler max_body_size Hmax fuel info s (mkConnState st pool []) Hf) as [[e c'] E].
  destruct (conn_loop_served fuel s _ e c' E) as (items & tl & Hh & Hw). exists e, c', items, tl.
  do 2 (split; [done|]). intros fuel' Hok Hl. rewrite Hw. by apply all_replies.
Qed.

End replies.

(* ------------------------------------------------------------------ *)
(** ** A connection with three requests *)

(** A parser that accepts a GET of the root, with an Expect header when the head is long. *)
Definition get_parser : Httparse := λ _ head,
  if starts_with (str "GET ") head then
    Ok (Some (mkParsed (Some (str "GET")) (Some (str "/")) (Some 1)
      (if (20 <? length head)%nat then [(str "Expect", str "100-continue")] else [])))
  else Err (str "not a GET").

(** A handler that counts the requests and answers the first with a body. *)
Definition count_handler (request : HttpMessage) (_ : option bytes) (_ : ConnInfo) (n : nat) :
    (HttpMessage * option bytes) * nat :=
  ((HttpMessage_new_response HttpStatus_OK Http11, if (n =? 0)%nat then Some (str "hello") else Some []), S n).

Definition sample_conn_info : ConnInfo :=
  mkConnInfo (mkSocketAddr (V4 1) 80) (mkSocketAddr (V4 2) 80) None false DetectedUnknown.

Definition CRLF2 : bytes := [x0d; x0a; x0d; x0a].

Definition sample_stream : bytes :=
  str "GET / HTTP/1.1" ++ CRLF2 ++ str "GET /abcdefg HTTP/1.1" ++ CRLF2 ++ str "POST".

(** Two requests are answered, the second after an interim response, and the third
    breaks off. *)
Example sample_connection :
  match @conn_loop get_parser no_errors nat count_handler 100 100 sample_conn_info sample_stream (mkConnState 0%nat [str "used"] []) with
  | Some (e, c) =>
      e = Failed (TransportError.HttpParse (str "incomplete request headers")) ∧ cs_state c = 2%nat
      ∧ match @read_replies no_errors 5 3 (cs_written c) with
        | Some (Done rs []) => (λ r, (msg_status r.1, r.2)) <$> rs
            = [(HttpStatus_OK, Some (str "hello")); (HttpStatus_CONTINUE, None); (HttpStatus_OK, None)]
        | _ => False
        end
  | None => False
  end.
Proof. vm_compute. split; [reflexivity|]. split; reflexivity. Qed.

Lemma connection_served_witness :
  ∃ e c' items tl,
    @conn_loop get_parser no_errors nat count_handler 100 100 sample_conn_info sample_stream (mkConnState 0%nat [str "used"] []) = Some (e, c')
    ∧ @handled get_parser no_errors nat count_handler 100 sample_conn_info sample_stream 0%nat items (cs_state c') e tl
    ∧ (∀ fuel', Forall reply_ok items → Forall (λ i, (length (reply_headers i) < fuel')%nat) items →
         @read_replies no_errors fuel' (length (concat (replies_of <$> items))) (cs_written c')
         = Some (Done (concat (replies_of <$> items)) tl)).
Proof.
  apply (@connection_served get_parser no_errors nat count_handler 100 sample_conn_info 100 sample_stream 0%nat [str "used"]).
  - unfold i64_max. split; discriminate.
  - apply (bool_decide_unpack _). vm_compute. exact I.
Defined.

(** A reply with a body of five bytes, on a connection that is kept, before another. *)
Lemma server_reply_roundtrip_witness :
  let response := HttpMessage_set_header (HttpMessage_new_response HttpStatus_OK Http11) (str "X-Cache") (str "HIT") in
  let hs := reply_headers (reply_of response (Some (str "hello")) true) in
  @read_response no_errors 3 (head_bytes (get_buf [str "used"]).1 response (Some (str "hello")) true ++ default [] (Some (str "hello")) ++ str "HTTP")
  = Some (Done (received_with response hs, non_empty (default [] (Some (str "hello"))), true && bool_decide (msg_protocol response = Http11)) (str "HTTP")).
Proof.
  apply (@server_reply_roundtrip no_errors 3 [str "used"]); [|apply (bool_decide_unpack _); vm_compute; exact I].
  apply (bool_decide_unpack _). vm_compute. exact I.
Defined.
