(* ===== verification/Esi.v ===== *)
(** * Edge side includes

    Models [rv-filter/src/esi.rs]: the scanner that splits a body into literal
    bytes, includes and removed parts, the resolution of the fragments, and the
    delivery processor that applies it to each chunk of a body. *)

From S2P Require Import Prelude RustStr.
Local Open Scope nat_scope.

Module EsiFragment.

Inductive t : Set :=
| Literal (data : bytes)
| Include (src : bytes)
| Remove.

End EsiFragment.

Definition DEFAULT_MAX_DEPTH : Z := 5.

(** [windows(n).position(|w| w == needle)]: the first place [needle] starts at. *)
Fixpoint position_of (needle s : bytes) : option nat :=
  if starts_with needle s then Some 0
  else match s with
       | [] => None
       | _ :: s' => S <$> position_of needle s'
       end.

Definition find_bytes (haystack needle : bytes) (from : nat) : option nat :=
  if bool_decide (needle = []) || (length haystack <? from + length needle) then None
  else (λ p, p + from) <$> position_of needle (drop from haystack).

(** [&s[a..b]] for [a <= b <= s.len()]. *)
Definition byte_slice (s : bytes) (a b : nat) : bytes := take (b - a) (drop a s).

Definition push_literal (fragments : list EsiFragment.t) (data : bytes) : list EsiFragment.t :=
  match data with
  | [] => fragments
  | _ =>
      match last fragments with
      | Some (EsiFragment.Literal existing) =>
          take (length fragments - 1) fragments ++ [EsiFragment.Literal (existing ++ data)]
      | _ => fragments ++ [EsiFragment.Literal data]
      end
  end.

Definition parse_esi_include (body : bytes) (start : nat) : option (bytes * nat) :=
  close ← find_bytes body (str "/>") start;
  let tag_end := close + 2 in
  let tag_content := byte_slice body start close in
  src_start ← find_bytes tag_content (str "src=" ++ [x22]) 0;
  let url_start := src_start + 5 in
  url_end ← find_bytes tag_content [x22] url_start;
  src ← from_utf8 (byte_slice tag_content url_start url_end);
  Some (src, tag_end).

Definition parse_esi_remove (body : bytes) (start : nat) : option nat :=
  close ← find_bytes body (str "</esi:remove>") start;
  Some (close + 13).

Definition parse_esi_comment (body : bytes) (start : nat) : option nat :=
  close ← find_bytes body (str "/>") start;
  Some (close + 2).

(** One round of the loop of [parse_esi] at [pos]: [None] ends it. *)
Definition esi_step (body : bytes) (pos : nat) (fragments : list EsiFragment.t)
    : list EsiFragment.t * option nat :=
  match find_bytes body (str "<esi:") pos with
  | None => (push_literal fragments (drop pos body), None)
  | Some tag_start =>
      let fragments := if pos <? tag_start then push_literal fragments (byte_slice body pos tag_start) else fragments in
      let after_prefix := tag_start + 5 in
      let skip := (push_literal fragments (byte_slice body tag_start (tag_start + 1)), Some (tag_start + 1)) in
      if starts_with (str "include") (drop after_prefix body) then
        match parse_esi_include body tag_start with
        | Some (src, end_pos) => (fragments ++ [EsiFragment.Include src], Some end_pos)
        | None => skip
        end
      else if starts_with (str "remove") (drop after_prefix body) then
        match parse_esi_remove body tag_start with
        | Some end_pos => (fragments ++ [EsiFragment.Remove], Some end_pos)
        | None => skip
        end
      else if starts_with (str "comment") (drop after_prefix body) then
        match parse_esi_comment body tag_start with
        | Some end_pos => (fragments, Some end_pos)
        | None => skip
        end
      else skip
  end.

Fixpoint esi_loop (fuel : nat) (body : bytes) (pos : nat) (fragments : list EsiFragment.t)
    : option (list EsiFragment.t) :=
  if pos <? length body then
    match fuel with
    | O => None
    | S fuel =>
        match esi_step body pos fragments with
        | (fragments, None) => Some fragments
        | (fragments, Some pos) => esi_loop fuel body pos fragments
        end
    end
  else Some fragments.

(** One round per byte is enough, see [parse_esi_total]. *)
Definition parse_esi (body : bytes) : option (list EsiFragment.t) := esi_loop (length body) body 0 [].

Definition resolve_fragment (resolver : bytes → option bytes) (f : EsiFragment.t) : bytes :=
  match f with
  | EsiFragment.Literal data => data
  | EsiFragment.Include src => default [] (resolver src)
  | EsiFragment.Remove => []
  end.

Definition resolve_fragments (fragments : list EsiFragment.t) (resolver : bytes → option bytes) : bytes :=
  concat (resolve_fragment resolver <$> fragments).

Definition placeholder (f : EsiFragment.t) : bytes :=
  match f with
  | EsiFragment.Literal data => data
  | EsiFragment.Include src => str "<!--esi:include src=" ++ [x22] ++ src ++ [x22] ++ str "-->"
  | EsiFragment.Remove => []
  end.

Definition process_body (body : bytes) : option bytes :=
  fragments ← parse_esi body; Some (concat (placeholder <$> fragments)).

Record EsiProcessor : Set := mkEsiProcessor {
  ep_depth : Z;
  ep_max_depth : Z;
  ep_output : bytes;
}.

Definition EsiProcessor_new : EsiProcessor := mkEsiProcessor 0 DEFAULT_MAX_DEPTH [].
Definition EsiProcessor_with_max_depth (max_depth : Z) : EsiProcessor := mkEsiProcessor 0 max_depth [].
Definition EsiProcessor_at_depth (depth max_depth : Z) : EsiProcessor := mkEsiProcessor depth max_depth [].

Definition includes_from (body : bytes) : option (list bytes) :=
  (λ fragments : list EsiFragment.t,
     omap (λ f, match f with EsiFragment.Include src => Some src | _ => None end) fragments) <$> parse_esi body.

Definition EsiProcessor_init (p : EsiProcessor) : EsiProcessor := mkEsiProcessor (ep_depth p) (ep_max_depth p) [].

Definition EsiProcessor_bytes (data : bytes) (p : EsiProcessor) : option bytes :=
  if (ep_max_depth p <=? ep_depth p)%Z then Some data else process_body data.

Definition EsiProcessor_fini (p : EsiProcessor) : EsiProcessor := mkEsiProcessor (ep_depth p) (ep_max_depth p) [].

Example esi_simple :
  parse_esi (str "<p><esi:remove>x</esi:remove><esi:comment text=/>y<esi:foo>")
  = Some [EsiFragment.Literal (str "<p>"); EsiFragment.Remove; EsiFragment.Literal (str "y<esi:foo>")].
Proof. vm_compute. reflexivity. Qed.

(* ------------------------------------------------------------------ *)
(** ** Searching *)

Lemma position_of_split needle s : position_of needle s = (λ p, length p.1) <$> split_once needle s.
Proof.
  induction s as [|c s IH]; rewrite split_once_eq; cbn [position_of]; unfold starts_with;
    destruct (strip_prefix needle _) eqn:E; try done. cbn. rewrite IH. by destruct (split_once needle s) as [[]|].
Qed.

Lemma position_of_bound needle s p : position_of needle s = Some p → p + length needle ≤ length s.
Proof.
  rewrite position_of_split. destruct (split_once needle s) as [[a b]|] eqn:E; [|done]. intros [= <-].
  apply split_once_Some in E as ->. rewrite !length_app. simpl. lia.
Qed.

Lemma find_bytes_app pre s needle :
  needle ≠ [] → find_bytes (pre ++ s) needle (length pre) = (λ p, p + length pre) <$> position_of needle s.
Proof.
  intros Hne. unfold find_bytes. rewrite bool_decide_eq_false_2 by done. cbn [orb]. rewrite drop_app_length, length_app.
  destruct (Nat.ltb_spec (length pre + length s) (length pre + length needle)); [|done].
  destruct (position_of needle s) as [p|] eqn:E; [|done]. apply position_of_bound in E. lia.
Qed.

Lemma find_bytes_bound haystack needle from p :
  find_bytes haystack needle from = Some p → from ≤ p ∧ p + length needle ≤ length haystack.
Proof.
  unfold find_bytes. case_if; [done|]. apply orb_false_iff in E as [_ E]. apply Nat.ltb_ge in E.
  destruct (position_of _ _) as [q|] eqn:Eq; [|done]. intros [= <-]. apply position_of_bound in Eq.
  rewrite length_drop in Eq. lia.
Qed.

(** A needle whose first byte occurs once in it is found where it is put. *)
Lemma split_once_found c sep s t :
  c ∉ sep → split_once (c :: sep) s = None → split_once (c :: sep) (s ++ (c :: sep) ++ t) = Some (s, t).
Proof.
  intros Hc. induction s as [|x s IH]; intros Hn.
  - rewrite app_nil_l, split_once_eq. by rewrite strip_prefix_app.
  - rewrite split_once_eq in Hn |- *. destruct (strip_prefix (c :: sep) (x :: s)) eqn:E; [done|].
    destruct (strip_prefix (c :: sep) ((x :: s) ++ (c :: sep) ++ t)) as [r|] eqn:E'.
    + exfalso. apply strip_prefix_Some in E'. apply app_eq_inv in E' as [(k & E1 & _)|(k & E1 & E2)].
      * rewrite E1, strip_prefix_app in E. done.
      * injection E1 as -> ->. destruct k as [|y k].
        { rewrite app_nil_r in E. pose proof (strip_prefix_app (x :: s) []) as H. rewrite app_nil_r in H. congruence. }
        injection E2 as -> _. set_solver.
    + cbn [app] in *. apply fmap_None in Hn. by rewrite (IH Hn).
Qed.

(** ** Termination *)

Lemma include_bound body start src e : parse_esi_include body start = Some (src, e) → start + 2 ≤ e ≤ length body.
Proof.
  unfold parse_esi_include. destruct (find_bytes body _ start) as [c|] eqn:E; [|done]. cbn [mbind option_bind].
  destruct (find_bytes _ _ 0); [|done]. cbn [mbind option_bind]. destruct (find_bytes _ [x22] _); [|done].
  cbn [mbind option_bind]. destruct (from_utf8 _); [|done]. intros [= _ <-]. apply find_bytes_bound in E. simpl in E. lia.
Qed.

Lemma remove_bound body start e : parse_esi_remove body start = Some e → start + 2 ≤ e ≤ length body.
Proof.
  unfold parse_esi_remove. destruct (find_bytes _ _ _) as [c|] eqn:E; [|done]. intros [= <-].
  apply find_bytes_bound in E. simpl in E. lia.
Qed.

Lemma comment_bound body start e : parse_esi_comment body start = Some e → start + 2 ≤ e ≤ length body.
Proof.
  unfold parse_esi_comment. destruct (find_bytes _ _ _) as [c|] eqn:E; [|done]. intros [= <-].
  apply find_bytes_bound in E. simpl in E. lia.
Qed.

Lemma esi_step_progress body pos fs fs' pos' :
  esi_step body pos fs = (fs', Some pos') → pos < pos' ≤ length body.
Proof.
  unfold esi_step. destruct (find_bytes body _ pos) as [t|] eqn:E; [|done]. apply find_bytes_bound in E. simpl in E.
  case_if; [|case_if; [|case_if]].
  - destruct (parse_esi_include body t) as [[src e]|] eqn:Ei; intros [= _ <-]; [apply include_bound in Ei|]; lia.
  - destruct (parse_esi_remove body t) as [e|] eqn:Ei; intros [= _ <-]; [apply remove_bound in Ei|]; lia.
  - destruct (parse_esi_comment body t) as [e|] eqn:Ei; intros [= _ <-]; [apply comment_bound in Ei|]; lia.
  - intros [= _ <-]. lia.
Qed.

Lemma esi_loop_total body fuel : ∀ pos fs, length body ≤ pos + fuel → is_Some (esi_loop fuel body pos fs).
Proof.
  induction fuel as [|fuel IH]; intros pos fs Hf; simpl; destruct (Nat.ltb_spec pos (length body)); try (by eexists); [lia|].
  destruct (esi_step body pos fs) as [fs' [pos'|]] eqn:E; [|by eexists]. apply esi_step_progress in E. apply IH. lia.
Qed.

Lemma parse_esi_total body : is_Some (parse_esi body).
Proof. apply esi_loop_total. lia. Qed.

(* ------------------------------------------------------------------ *)
(** ** Documents

    A page as an author writes it. *)

Inductive esi_item : Set :=
| Text (s : bytes)
| IncludeTag (src : bytes)
| RemoveTag (content : bytes)
| CommentTag (text : bytes).

Definition print_item (i : esi_item) : bytes :=
  match i with
  | Text s => s
  | IncludeTag src => str "<esi:include src=" ++ [x22] ++ src ++ [x22] ++ str "/>"
  | RemoveTag c => str "<esi:remove>" ++ c ++ str "</esi:remove>"
  | CommentTag t => str "<esi:comment text=" ++ [x22] ++ t ++ [x22] ++ str "/>"
  end.
Definition print_doc (doc : list esi_item) : bytes := concat (print_item <$> doc).

(** What may stand where: text without a tag, a URL without quotes and without the
    end of a tag, removed text without its closing tag. *)
Definition item_ok (i : esi_item) : bool :=
  match i with
  | Text s => negb (bool_decide (s = [])) && negb (contains (str "<esi:") s)
  | IncludeTag src => bool_decide (x22 ∉ src) && negb (contains (str "/>") src) && utf8_valid src
  | RemoveTag c => negb (contains (str "</esi:remove>") c)
  | CommentTag t => negb (contains (str "/>") t)
  end.

Fixpoint doc_ok (doc : list esi_item) : bool :=
  match doc with
  | [] => true
  | Text s :: ((Text _ :: _) as doc) => false
  | i :: doc => item_ok i && doc_ok doc
  end.

(** What a reader gets of an item, and the pages a document includes. *)
Definition meaning (include : bytes → bytes) (i : esi_item) : bytes :=
  match i with
  | Text s => s
  | IncludeTag src => include src
  | RemoveTag _ | CommentTag _ => []
  end.
Definition doc_includes (doc : list esi_item) : list bytes :=
  omap (λ i, match i with IncludeTag src => Some src | _ => None end) doc.

(** The fragments of a document. *)
Definition add_item (fs : list EsiFragment.t) (i : esi_item) : list EsiFragment.t :=
  match i with
  | Text s => push_literal fs s
  | IncludeTag src => fs ++ [EsiFragment.Include src]
  | RemoveTag _ => fs ++ [EsiFragment.Remove]
  | CommentTag _ => fs
  end.

Definition is_tag (i : esi_item) : bool := match i with Text _ => false | _ => true end.

Lemma not_contains sep s : contains sep s = false → split_once sep s = None.
Proof. unfold contains. intros H. apply bool_decide_eq_false in H. by apply eq_None_not_Some. Qed.

Lemma position_of_found c sep s t :
  c ∉ sep → split_once (c :: sep) s = None → position_of (c :: sep) (s ++ (c :: sep) ++ t) = Some (length s).
Proof. intros Hc Hs. by rewrite position_of_split, split_once_found. Qed.

Lemma split_once_prefix c sep p s :
  c ∉ p → split_once (c :: sep) s = None → split_once (c :: sep) (p ++ s) = None.
Proof.
  induction p as [|x p IH]; intros Hp Hs; [done|]. apply not_elem_of_cons in Hp as [Hx Hp].
  cbn [app]. rewrite split_once_skip by congruence. by rewrite IH.
Qed.

Lemma split_once_snoc a b s x : x ≠ a → x ≠ b → split_once [a; b] s = None → split_once [a; b] (s ++ [x]) = None.
Proof.
  intros Ha Hb. induction s as [|y s IH]; intros Hs.
  - cbn [app]. by rewrite split_once_skip.
  - rewrite split_once_eq in Hs. cbn [app]. rewrite split_once_eq.
    destruct (strip_prefix [a; b] (y :: s)) eqn:E; [done|]. apply fmap_None in Hs. rewrite (IH Hs).
    destruct s as [|z s]; cbn [app] in *; rewrite ?strip_prefix_cons in E |- *; cbn [strip_prefix] in *; repeat (case_decide; rewrite ?strip_prefix_cons); (done || congruence).
Qed.

(** The position where each tag ends. *)
Lemma tag_close_quoted pre s rest :
  x2f ∉ pre → contains (str "/>") s = false →
  position_of (str "/>") ((pre ++ s ++ [x22]) ++ str "/>" ++ rest) = Some (length (pre ++ s ++ [x22])).
Proof.
  intros Hp Hs%not_contains. apply (position_of_found x2f [x3e]); [set_solver|].
  apply split_once_prefix; [done|]. by apply split_once_snoc.
Qed.

Lemma byte_slice_app pre s t a b :
  a = length pre → b = length pre + length s → byte_slice (pre ++ s ++ t) a b = s.
Proof.
  intros -> ->. unfold byte_slice. rewrite drop_app_length. replace (length pre + length s - length pre) with (length s) by lia.
  by rewrite take_app_length.
Qed.

Lemma include_parsed pre src rest :
  item_ok (IncludeTag src) = true →
  parse_esi_include (pre ++ print_item (IncludeTag src) ++ rest) (length pre)
  = Some (src, length pre + length (print_item (IncludeTag src))).
Proof.
  intros Hok. cbn [item_ok] in Hok. bool_to_prop.
  match goal with H : bool_decide _ = true |- _ => apply bool_decide_eq_true in H; rename H into Hq end.
  match goal with H : contains _ _ = false |- _ => rename H into Hc end.
  match goal with H : utf8_valid _ = true |- _ => rename H into Hu end.
  set (open := str "<esi:include src=" ++ [x22]).
  assert (print_item (IncludeTag src) ++ rest = (open ++ src ++ [x22]) ++ str "/>" ++ rest) as Ep.
  { unfold print_item, open. by rewrite <-!app_assoc. }
  unfold parse_esi_include. rewrite Ep, find_bytes_app by done.
  rewrite tag_close_quoted; [|vm_compute; set_solver|done]. cbn [fmap option_fmap option_map mbind option_bind].
  rewrite (byte_slice_app pre (open ++ src ++ [x22])) by (done || lia).
  rewrite (find_bytes_app [] (open ++ src ++ [x22])) by done.
  assert (position_of (str "src=" ++ [x22]) (open ++ src ++ [x22]) = Some 13) as ->.
  { change open with (str "<esi:include " ++ (str "src=" ++ [x22])). rewrite <-app_assoc.
    apply (position_of_found x73 (str "rc=" ++ [x22])); [vm_compute; set_solver|done]. }
  cbn [fmap option_fmap option_map mbind option_bind]. change (13 + length (@nil byte) + 5) with (length open).
  rewrite find_bytes_app by done.
  assert (position_of [x22] (src ++ [x22]) = Some (length src)) as ->.
  { rewrite position_of_split. pose proof (split_once_first x22 [] src [] Hq) as H. rewrite app_nil_r in H. by rewrite H. }
  cbn [fmap option_fmap option_map mbind option_bind]. rewrite (byte_slice_app open src) by (done || lia).
  unfold from_utf8. rewrite Hu. cbn [mbind option_bind]. do 2 f_equal. unfold print_item, open. rewrite !length_app. simpl. lia.
Qed.

Lemma remove_parsed pre c rest :
  item_ok (RemoveTag c) = true →
  parse_esi_remove (pre ++ print_item (RemoveTag c) ++ rest) (length pre)
  = Some (length pre + length (print_item (RemoveTag c))).
Proof.
  intros Hok. cbn [item_ok] in Hok. bool_to_prop. apply not_contains in Hok. unfold parse_esi_remove.
  rewrite find_bytes_app by done.
  assert (print_item (RemoveTag c) ++ rest = (str "<esi:remove>" ++ c) ++ str "</esi:remove>" ++ rest) as ->.
  { unfold print_item. by rewrite <-!app_assoc. }
  rewrite (position_of_found x3c (str "/esi:remove>")); [|vm_compute; set_solver|].
  - cbn [fmap option_fmap option_map mbind option_bind]. f_equal. unfold print_item. rewrite !length_app. simpl. lia.
  - change (str "<esi:remove>" ++ c) with (x3c :: str "esi:remove>" ++ c). rewrite split_once_eq.
    change (strip_prefix _ _) with (@None bytes). cbv iota. rewrite split_once_prefix; [done|vm_compute; set_solver|done].
Qed.

Lemma comment_parsed pre t rest :
  item_ok (CommentTag t) = true →
  parse_esi_comment (pre ++ print_item (CommentTag t) ++ rest) (length pre)
  = Some (length pre + length (print_item (CommentTag t))).
Proof.
  intros Hok. cbn [item_ok] in Hok. bool_to_prop. unfold parse_esi_comment. rewrite find_bytes_app by done.
  assert (print_item (CommentTag t) ++ rest = ((str "<esi:comment text=" ++ [x22]) ++ t ++ [x22]) ++ str "/>" ++ rest) as ->.
  { unfold print_item. by rewrite <-!app_assoc. }
  rewrite tag_close_quoted; [|vm_compute; set_solver|done]. cbn [fmap option_fmap option_map mbind option_bind].
  f_equal. unfold print_item. rewrite !length_app. simpl. lia.
Qed.

Lemma push_literal_nil fs : push_literal fs [] = fs.
Proof. done. Qed.

Definition tag_body (tag : esi_item) : bytes :=
  match tag with
  | IncludeTag src => str "include src=" ++ [x22] ++ src ++ [x22] ++ str "/>"
  | RemoveTag c => str "remove>" ++ c ++ str "</esi:remove>"
  | CommentTag t => str "comment text=" ++ [x22] ++ t ++ [x22] ++ str "/>"
  | Text _ => []
  end.

Lemma print_tag tag : is_tag tag = true → print_item tag = str "<esi:" ++ tag_body tag.
Proof. by destruct tag. Qed.

(** One round reads the text up to a tag and the tag. *)
Lemma esi_step_tag pre s tag rest fs :
  is_tag tag = true → item_ok tag = true → contains (str "<esi:") s = false →
  esi_step (pre ++ s ++ print_item tag ++ rest) (length pre) fs
  = (add_item (push_literal fs s) tag, Some (length pre + length s + length (print_item tag))).
Proof.
  intros Htag Hok Hs%not_contains. set (body := pre ++ s ++ print_item tag ++ rest).
  pose proof (print_tag tag Htag) as Et.
  assert (find_bytes body (str "<esi:") (length pre) = Some (length (pre ++ s))) as Hfind.
  { subst body. rewrite find_bytes_app by done. rewrite Et, <-app_assoc.
    rewrite (position_of_found x3c (str "esi:")) by (done || (vm_compute; set_solver)). cbn. f_equal. rewrite length_app. lia. }
  assert (drop (length (pre ++ s) + 5) body = tag_body tag ++ rest) as Hdrop.
  { subst body. rewrite app_assoc, <-drop_drop, drop_app_length, Et. done. }
  assert ((if length pre <? length (pre ++ s) then push_literal fs (byte_slice body (length pre) (length (pre ++ s))) else fs)
          = push_literal fs s) as Hlit.
  { rewrite length_app. destruct s as [|c s]; [by rewrite Nat.add_0_r, Nat.ltb_irrefl|].
    rewrite (proj2 (Nat.ltb_lt _ _)) by (simpl; lia). subst body. by rewrite byte_slice_app. }
  unfold esi_step. rewrite Hfind, Hlit, Hdrop. subst body. rewrite (app_assoc pre s), <-(length_app pre s).
  destruct tag as [|src|c|tx]; [done| | |].
  - change (starts_with (str "include") _) with true. by rewrite include_parsed.
  - change (starts_with (str "include") _) with false. change (starts_with (str "remove") _) with true.
    by rewrite remove_parsed.
  - change (starts_with (str "include") _) with false. change (starts_with (str "remove") _) with false.
    change (starts_with (str "comment") _) with true. by rewrite comment_parsed.
Qed.

Lemma esi_step_last pre s fs :
  contains (str "<esi:") s = false → esi_step (pre ++ s) (length pre) fs = (push_literal fs s, None).
Proof.
  intros Hs%not_contains. unfold esi_step. rewrite find_bytes_app by done. rewrite position_of_split, Hs. cbn.
  by rewrite drop_app_length.
Qed.

Lemma tag_length tag : is_tag tag = true → 0 < length (print_item tag).
Proof. destruct tag; [done|simpl; lia..]. Qed.

Lemma esi_loop_end fuel body fs : esi_loop fuel body (length body) fs = Some fs.
Proof. destruct fuel; simpl; by rewrite Nat.ltb_irrefl. Qed.

Lemma esi_loop_round fuel pre s fs :
  s ≠ [] → esi_loop (S fuel) (pre ++ s) (length pre) fs
  = match esi_step (pre ++ s) (length pre) fs with
    | (fs, None) => Some fs
    | (fs, Some pos) => esi_loop fuel (pre ++ s) pos fs
    end.
Proof.
  intros Hs. cbn [esi_loop]. rewrite (proj2 (Nat.ltb_lt _ _)); [done|]. rewrite length_app. destruct s; [done|simpl; lia].
Qed.

Lemma text_ok s : item_ok (Text s) = true → s ≠ [] ∧ contains (str "<esi:") s = false.
Proof. cbn. intros [Hs Hc]%andb_true_iff. apply negb_true_iff in Hs, Hc. by apply bool_decide_eq_false in Hs. Qed.

(** Text, then a tag, then the rest of the document. *)
Lemma loop_tag fuel pre s tag rest fs out :
  is_tag tag = true → item_ok tag = true → contains (str "<esi:") s = false →
  length (s ++ print_item tag ++ rest) ≤ fuel →
  (∀ fuel pre fs, length rest ≤ fuel → esi_loop fuel (pre ++ rest) (length pre) fs = Some (out fs)) →
  esi_loop fuel (pre ++ s ++ print_item tag ++ rest) (length pre) fs = Some (out (add_item (push_literal fs s) tag)).
Proof.
  intros Htag Hok Hs Hf Hrest. pose proof (tag_length tag Htag) as Hl. rewrite !length_app in Hf.
  destruct fuel as [|fuel]; [lia|].
  rewrite esi_loop_round by (intros E; apply (f_equal length) in E; rewrite !length_app in E; simpl in E; lia).
  rewrite esi_step_tag by done. specialize (Hrest fuel (pre ++ s ++ print_item tag) (add_item (push_literal fs s) tag)).
  rewrite <-!app_assoc, !length_app in Hrest. rewrite <-Nat.add_assoc. apply Hrest. lia.
Qed.

Lemma loop_doc doc : ∀ fuel pre fs,
  doc_ok doc = true → length (print_doc doc) ≤ fuel →
  esi_loop fuel (pre ++ print_doc doc) (length pre) fs = Some (foldl add_item fs doc).
Proof.
  induction doc as [doc IH] using (well_founded_induction (well_founded_ltof _ length)). unfold ltof in IH.
  intros fuel pre fs Hok Hf. destruct doc as [|i doc].
  { unfold print_doc. cbn. rewrite app_nil_r. apply esi_loop_end. }
  destruct (is_tag i) eqn:Ht.
  - assert (item_ok i && doc_ok doc = true) as [Hi Hd]%andb_true_iff by (by destruct i).
    apply (loop_tag fuel pre [] i (print_doc doc) fs (λ fs, foldl add_item fs doc)); try done.
    intros fuel' pre' fs' Hf'. apply IH; [simpl; lia|done|done].
  - destruct i as [s| | |]; try done. destruct doc as [|j doc].
    + cbn [doc_ok] in Hok. apply andb_true_iff in Hok as [[Hne Hs]%text_ok _].
      unfold print_doc in *. cbn in Hf |- *. rewrite app_nil_r in Hf |- *.
      destruct fuel as [|fuel]; [destruct s; [done|simpl in Hf; lia]|].
      rewrite esi_loop_round by done. by rewrite esi_step_last.
    + assert (is_tag j = true ∧ item_ok (Text s) && (item_ok j && doc_ok doc) = true)
        as (Hj & [[Hne Hs]%text_ok [Hjok Hd]%andb_true_iff]%andb_true_iff) by (by destruct j).
      apply (loop_tag fuel pre s j (print_doc doc) fs (λ fs, foldl add_item fs doc)); try done.
      intros fuel' pre' fs' Hf'. apply IH; [simpl; lia|done|done].
Qed.

(** ** What a document means *)

Lemma push_literal_render (f : EsiFragment.t → bytes) fs d :
  (∀ s, f (EsiFragment.Literal s) = s) → concat (f <$> push_literal fs d) = concat (f <$> fs) ++ d.
Proof.
  intros Hf. unfold push_literal. destruct d as [|c d]; [by rewrite app_nil_r|].
  destruct (last fs) as [[e| |]|] eqn:El; try (by rewrite fmap_app, concat_app; cbn; rewrite Hf, app_nil_r).
  apply last_Some in El as [l ->]. rewrite length_app, Nat.add_sub, take_app_length, !fmap_app, !concat_app. cbn.
  by rewrite !Hf, !app_nil_r, <-app_assoc.
Qed.

Lemma fold_render (f : EsiFragment.t → bytes) doc : ∀ fs,
  (∀ s, f (EsiFragment.Literal s) = s) → f EsiFragment.Remove = [] →
  concat (f <$> foldl add_item fs doc) = concat (f <$> fs) ++ concat (meaning (λ src, f (EsiFragment.Include src)) <$> doc).
Proof.
  intros fs Hl Hr. revert fs. induction doc as [|i doc IH]; intros fs; [cbn; by rewrite app_nil_r|].
  cbn [foldl fmap list_fmap concat]. rewrite IH, app_assoc. f_equal. destruct i; cbn [add_item meaning].
  - by apply push_literal_render.
  - rewrite fmap_app, concat_app. cbn. by rewrite app_nil_r.
  - rewrite fmap_app, concat_app. cbn. by rewrite Hr.
  - by rewrite app_nil_r.
Qed.

Definition fragment_include (f : EsiFragment.t) : option bytes :=
  match f with EsiFragment.Include src => Some src | _ => None end.

Lemma push_literal_includes fs d : omap fragment_include (push_literal fs d) = omap fragment_include fs.
Proof.
  unfold push_literal. destruct d as [|c d]; [done|].
  destruct (last fs) as [[e| |]|] eqn:El; try (by rewrite omap_app, app_nil_r).
  apply last_Some in El as [l ->]. by rewrite length_app, Nat.add_sub, take_app_length, !omap_app.
Qed.

Lemma fold_includes doc : ∀ fs,
  omap fragment_include (foldl add_item fs doc) = omap fragment_include fs ++ doc_includes doc.
Proof.
  induction doc as [|i doc IH]; intros fs; [cbn; by rewrite app_nil_r|]. cbn [foldl]. rewrite IH.
  destruct i; cbn [add_item].
  - by rewrite push_literal_includes.
  - rewrite omap_app, <-app_assoc. done.
  - by rewrite omap_app, app_nil_r.
  - done.
Qed.

(** C20. Edge side includes mean what they say: a page of text, includes, removed
    parts and comments is split so that, for every way of resolving includes,
    the text comes through unchanged and in order, each include is replaced by
    its page (or by nothing when it cannot be had), and removed parts and
    comments disappear; the processor puts a placeholder for each include, and
    the includes reported are those of the page in order. *)
Theorem esi_documents doc :
  doc_ok doc = true →
  ∃ fs, parse_esi (print_doc doc) = Some fs
    ∧ (∀ resolver, resolve_fragments fs resolver
                   = concat (meaning (λ src, default [] (resolver src)) <$> doc))
    ∧ process_body (print_doc doc)
      = Some (concat (meaning (λ src, placeholder (EsiFragment.Include src)) <$> doc))
    ∧ includes_from (print_doc doc) = Some (doc_includes doc).
Proof.
  intros Hok. exists (foldl add_item [] doc).
  assert (parse_esi (print_doc doc) = Some (foldl add_item [] doc)) as Hp by (by apply (loop_doc doc _ [] [])).
  unfold process_body, includes_from. rewrite Hp. cbn [fmap option_fmap option_map mbind option_bind]. split_and!; try done.
  - intros resolver. by apply (fold_render (resolve_fragment resolver) doc []).
  - f_equal. by apply (fold_render placeholder doc []).
  - f_equal. apply (fold_includes doc []).
Qed.

Definition sample_page : list esi_item :=
  [Text (str "<html><esi>"); IncludeTag (str "/header?a=1"); CommentTag (str "nav"); Text (str "<p>hi</p>");
   RemoveTag (str "no <b>ESI</b>"); IncludeTag (str "/footer"); Text (str "</html>")].

Lemma esi_documents_witness :
  ∃ fs, parse_esi (print_doc sample_page) = Some fs
    ∧ resolve_fragments fs (λ src, if decide (src = str "/header?a=1") then Some (str "HEAD") else None)
      = str "<html><esi>HEAD<p>hi</p></html>".
Proof.
  destruct (esi_documents sample_page) as (fs & Hp & Hr & _); [vm_compute; reflexivity|].
  exists fs. split; [exact Hp|]. rewrite Hr. vm_compute. reflexivity.
Defined.

(** The processor works on one chunk at a time: the same page, cut inside a tag,
    goes out with the tag unprocessed, and text inside a removed part is
    delivered. *)
Theorem esi_split_tag_passes :
  let page := print_doc [Text (str "a"); RemoveTag (str "secret"); Text (str "b")] in
  EsiProcessor_bytes page EsiProcessor_new = Some (str "ab")
  ∧ (a ← EsiProcessor_bytes (take 15 page) EsiProcessor_new;
     b ← EsiProcessor_bytes (drop 15 page) EsiProcessor_new; Some (a ++ b)) = Some page.
Proof. vm_compute. split; reflexivity. Qed.
