(* ===== verification/Filter.v ===== *)
(** * Filter chains

    Models [rv-filter/src/traits.rs], [chain.rs] and [gzip.rs]: the filters between a
    backend and the storage (pulled, over one shared buffer) and those between
    the cache and a client (pushed), as classes, and the two chains over them.
    Compression itself is a parameter. *)

From S2P Require Import Prelude RustStr Esi.
Local Open Scope nat_scope.

Module VfpStatus.

Inductive t : Set := Error | Ok | End | Null.

#[global] Instance t_eq_dec : EqDecision t.
Proof. solve_decision. Defined.

End VfpStatus.

Module VdpAction.

Inductive t : Set := Null | Flush | End.

End VdpAction.

(** [pull] overwrites the start of its buffer and says how many bytes it wrote. *)
Class FetchProcessor (F : Type) := {
  vfp_init : F → VfpStatus.t * F;
  vfp_pull : bytes → F → VfpStatus.t * nat * bytes * F;
  vfp_fini : F → F;
}.

Class DeliveryProcessor (D : Type) := {
  vdp_init : D → result unit Z * D;
  vdp_bytes : VdpAction.t → bytes → D → result bytes Z * D;
  vdp_fini : D → D;
}.

(* ------------------------------------------------------------------ *)
(** ** The fetch chain *)

Section fetch.
Context {F : Type} {fetch : FetchProcessor F}.

Definition FetchFilterChain_new : list F := [].
Definition FetchFilterChain_push (f : F) (fs : list F) : list F := fs ++ [f].

Fixpoint FetchFilterChain_init (fs : list F) : VfpStatus.t * list F :=
  match fs with
  | [] => (VfpStatus.Ok, [])
  | f :: fs =>
      let '(status, f) := vfp_init f in
      if decide (status = VfpStatus.Error) then (VfpStatus.Error, f :: fs)
      else let '(r, fs) := FetchFilterChain_init fs in (r, f :: fs)
  end.

(** The status after a further filter. *)
Definition merge_status (status new_status : VfpStatus.t) : VfpStatus.t :=
  match status, new_status with
  | _, VfpStatus.Error => VfpStatus.Error
  | VfpStatus.End, _ => VfpStatus.End
  | _, s => s
  end.

(** The filters before the source, the one nearest to it first: each works in place
    on the [len] bytes the one behind it left ([None]: the slice panics). *)
Fixpoint pull_through (fs : list F) (status : VfpStatus.t) (len : nat) (buf : bytes)
    : option (VfpStatus.t * nat * bytes * list F) :=
  match fs with
  | [] => Some (status, len, buf, [])
  | f :: fs =>
      if decide (status = VfpStatus.Error) then Some (status, len, buf, f :: fs)
      else if length buf <? len then None
      else
        let '(new_status, new_len, part, f) := vfp_pull (take len buf) f in
        '(r, fs) ← pull_through fs (merge_status status new_status) new_len (part ++ drop len buf);
        Some (r, f :: fs)
  end.

(** The last filter is the source. *)
Definition FetchFilterChain_pull (buf : bytes) (fs : list F) : option (VfpStatus.t * nat * bytes * list F) :=
  match reverse fs with
  | [] => Some (VfpStatus.End, 0, buf, [])
  | source :: others =>
      let '(status, len, buf, source) := vfp_pull buf source in
      '(r, others) ← pull_through others status len buf;
      Some (r, reverse (source :: others))
  end.

Definition FetchFilterChain_fini (fs : list F) : list F := vfp_fini <$> fs.

End fetch.

(* ------------------------------------------------------------------ *)
(** ** The delivery chain *)

Section delivery.
Context {D : Type} {delivery : DeliveryProcessor D}.

Definition DeliveryFilterChain_new : list D := [].
Definition DeliveryFilterChain_push (d : D) (ds : list D) : list D := ds ++ [d].

Fixpoint DeliveryFilterChain_init (ds : list D) : result unit Z * list D :=
  match ds with
  | [] => (Ok tt, [])
  | d :: ds =>
      match vdp_init d with
      | (Err e, d) => (Err e, d :: ds)
      | (Ok _, d) => let '(r, ds) := DeliveryFilterChain_init ds in (r, d :: ds)
      end
  end.

(** Each filter's output is the next one's input; an error stops the chain. *)
Fixpoint DeliveryFilterChain_bytes (action : VdpAction.t) (data : bytes) (ds : list D) : result bytes Z * list D :=
  match ds with
  | [] => (Ok data, [])
  | d :: ds =>
      match vdp_bytes action data d with
      | (Err e, d) => (Err e, d :: ds)
      | (Ok data, d) => let '(r, ds) := DeliveryFilterChain_bytes action data ds in (r, d :: ds)
      end
  end.

Definition DeliveryFilterChain_fini (ds : list D) : list D := vdp_fini <$> ds.

(** Two chains in a row are one chain. *)
Lemma delivery_chain_app action data ds1 ds2 data' ds1' :
  DeliveryFilterChain_bytes action data ds1 = (Ok data', ds1') →
  DeliveryFilterChain_bytes action data (ds1 ++ ds2)
  = let '(r, ds2') := DeliveryFilterChain_bytes action data' ds2 in (r, ds1' ++ ds2').
Proof.
  revert data ds1'. induction ds1 as [|d ds1 IH]; intros data ds1'; cbn [app DeliveryFilterChain_bytes].
  - intros [= -> <-]. by destruct (DeliveryFilterChain_bytes action data' ds2).
  - destruct (vdp_bytes action data d) as [[out|e] d']; [|done].
    destruct (DeliveryFilterChain_bytes action out ds1) as [r ds] eqn:E. intros [= -> <-].
    rewrite (IH out ds E). by destruct (DeliveryFilterChain_bytes action data' ds2).
Qed.
End delivery.

(** *** Filters that transform in place *)

Section transform.
Context {F : Type} {fetch : FetchProcessor F}.

(** [f] replaces what is in its buffer by [t] of it, which is not longer. *)
Definition transforms (f : F) (t : bytes → bytes) : Prop :=
  ∀ buf, length (t buf) ≤ length buf
    ∧ vfp_pull buf f = (VfpStatus.Ok, length (t buf), t buf ++ drop (length (t buf)) buf, f).

Lemma pull_through_transforms fs ts status : ∀ len buf,
  Forall2 transforms fs ts → status ≠ VfpStatus.Error → status ≠ VfpStatus.Null → len ≤ length buf →
  let data := foldl (λ d t, t d) (take len buf) ts in
  ∃ buf', pull_through fs status len buf = Some (status, length data, buf', fs)
    ∧ take (length data) buf' = data ∧ length buf' = length buf.
Proof.
  intros len buf Hfs Hs Hn. revert len buf. induction Hfs as [|f t fs ts Hf Hfs IH]; intros len buf Hlen; cbn [foldl].
  - exists buf. rewrite length_take, Nat.min_l by done. done.
  - cbn [pull_through]. rewrite decide_False by done. rewrite (proj2 (Nat.ltb_ge _ _)) by done.
    destruct (Hf (take len buf)) as [Hle ->]. set (out := t (take len buf)) in *. rewrite length_take in Hle.
    set (buf1 := (out ++ drop (length out) (take len buf)) ++ drop len buf).
    assert (length buf1 = length buf) as Hb1.
    { subst buf1. rewrite !length_app, !length_drop, length_take. lia. }
    assert (take (length out) buf1 = out) as Ht1.
    { subst buf1. rewrite <-app_assoc. by rewrite take_app_length. }
    assert (merge_status status VfpStatus.Ok = status) as -> by (destruct status; done).
    destruct (IH (length out) buf1 ltac:(lia)) as (buf' & Hp & Htake & Hl). cbv zeta in Hp. rewrite Ht1 in Hp, Htake.
    exists buf'. fold buf1. rewrite Hp. cbn [mbind option_bind]. rewrite Hb1 in Hl. done.
Qed.

Lemma foldl_apply_reverse (ts : list (bytes → bytes)) x :
  foldl (λ d t, t d) x (reverse ts) = foldr (λ t d, t d) x ts.
Proof. induction ts as [|t ts IH]; [done|]. by rewrite reverse_cons, foldl_app, IH. Qed.

(** The chain delivers the source's bytes through every transformation, the one
    nearest to the source first, with the source's status. *)
Lemma fetch_chain_pipeline fs ts source status len buf0 buf source' :
  Forall2 transforms fs ts → status ≠ VfpStatus.Error → status ≠ VfpStatus.Null →
  vfp_pull buf0 source = (status, len, buf, source') → len ≤ length buf →
  let data := foldr (λ t d, t d) (take len buf) ts in
  ∃ buf', FetchFilterChain_pull buf0 (fs ++ [source]) = Some (status, length data, buf', fs ++ [source'])
    ∧ take (length data) buf' = data.
Proof.
  intros Hfs Hs Hn Hpull Hlen. unfold FetchFilterChain_pull. rewrite reverse_snoc, Hpull.
  apply Forall2_reverse in Hfs. destruct (pull_through_transforms _ _ status len buf Hfs Hs Hn Hlen) as (buf' & Hp & Ht & _).
  cbv zeta in Hp. rewrite foldl_apply_reverse in Hp, Ht.
  exists buf'. rewrite Hp. cbn [mbind option_bind]. rewrite reverse_cons, reverse_involutive. done.
Qed.
End transform.

(* ------------------------------------------------------------------ *)
(** ** Gzip

    [gz_read input n] is the first [read] of a fresh decoder over [input] into a
    buffer of [n] bytes: at most [n] bytes, none at the end of the data, or an
    error. *)

Section gzip.
Context (gz_read : bytes → nat → result bytes unit) (gz_compress : Z → bytes → result bytes unit).

Record GzipDecompressVfp : Set := mkGzipDecompress {
  gz_buffer : bytes;
  gz_upstream_data : option bytes;
}.

Definition GzipDecompressVfp_new : GzipDecompressVfp := mkGzipDecompress [] None.
Definition GzipDecompressVfp_set_input (data : bytes) (g : GzipDecompressVfp) : GzipDecompressVfp :=
  mkGzipDecompress (gz_buffer g) (Some data).

Definition GzipDecompressVfp_pull (buf : bytes) (g : GzipDecompressVfp) : VfpStatus.t * nat * bytes * GzipDecompressVfp :=
  let g := match gz_upstream_data g with
           | Some data => mkGzipDecompress data None
           | None => g
           end in
  match gz_buffer g with
  | [] => (VfpStatus.End, 0, buf, g)
  | _ =>
      match gz_read (gz_buffer g) (length buf) with
      | Ok [] => (VfpStatus.End, 0, buf, g)
      | Ok out => (VfpStatus.Ok, length out, out ++ drop (length out) buf, g)
      | Err _ => (VfpStatus.Error, 0, buf, g)
      end
  end.

Definition GzipDecompressVfp_fini (g : GzipDecompressVfp) : GzipDecompressVfp := mkGzipDecompress [] None.

#[export] Instance gzip_fetch : FetchProcessor GzipDecompressVfp := {|
  vfp_init g := (VfpStatus.Ok, g);
  vfp_pull := GzipDecompressVfp_pull;
  vfp_fini := GzipDecompressVfp_fini;
|}.

Definition GzipCompressVdp_bytes (level : Z) (action : VdpAction.t) (data : bytes) : result bytes Z :=
  match gz_compress level data with
  | Ok out => Ok out
  | Err _ => Err (-1)%Z
  end.

(** The decompressing filter never reaches the end of a body: the decoder is
    built anew for every pull over input that is never consumed, so once a pull
    has produced bytes, every later pull into a buffer of that size produces
    the same first bytes again with the status that announces more. *)
Theorem gzip_pull_repeats g buf out n buf1 g1 :
  GzipDecompressVfp_pull buf g = (VfpStatus.Ok, n, buf1, g1) → take n buf1 = out →
  ∀ buf2, length buf2 = length buf →
  ∃ buf3, GzipDecompressVfp_pull buf2 g1 = (VfpStatus.Ok, n, buf3, g1) ∧ take n buf3 = out.
Proof.
  unfold GzipDecompressVfp_pull. set (g' := match gz_upstream_data g with Some d => _ | None => g end).
  assert (gz_upstream_data g' = None) as Hnone by (subst g'; by destruct (gz_upstream_data g) eqn:E).
  intros Hp Ht buf2 Hl. destruct (gz_buffer g') as [|c s] eqn:Eb; [done|]. rewrite <-Eb in Hp.
  destruct (gz_read (gz_buffer g') (length buf)) as [[|x o]|] eqn:Er; [done| |done].
  injection Hp as <- <- <-. rewrite Hnone, Eb, <-Eb, Hl, Er. eexists. split; [reflexivity|].
  rewrite <-Ht. cbn. by rewrite !take_app_length.
Qed.
End gzip.

Lemma gzip_pull_repeats_witness :
  let gz_read := (λ input n, Ok (take n (reverse input))) : bytes → nat → result bytes unit in
  let g := GzipDecompressVfp_set_input (str "olleh") GzipDecompressVfp_new in
  let buf := str "___" in
  let g1 := (GzipDecompressVfp_pull gz_read buf g).2 in
  ∃ buf3, GzipDecompressVfp_pull gz_read (str "...") g1 = (VfpStatus.Ok, 3, buf3, g1) ∧ take 3 buf3 = str "hel".
Proof.
  apply (gzip_pull_repeats (λ input n, Ok (take n (reverse input)))
    (GzipDecompressVfp_set_input (str "olleh") GzipDecompressVfp_new) (str "___") (str "hel") 3 (str "hel")).
  - vm_compute. reflexivity.
  - vm_compute. reflexivity.
  - vm_compute. reflexivity.
Defined.

(** *** The ESI processor as a delivery filter *)

#[export] Instance esi_delivery : DeliveryProcessor EsiProcessor := {|
  vdp_init p := (Ok tt, EsiProcessor_init p);
  vdp_bytes _ data p := (match EsiProcessor_bytes data p with Some out => Ok out | None => Err (-1)%Z end, p);
  vdp_fini := EsiProcessor_fini;
|}.
