(* ===== verification/Ban.v ===== *)
(** * Bans

    Models [rv-cache/src/ban.rs] and [rv-cache/src/error.rs].  Regular
    expressions are the [regex] crate's: a class gives the compiled type,
    [Regex::new] and [is_match]; nothing is assumed of them.  The closure that
    reads an object's headers is a function argument. *)

From S2P Require Import Prelude RustStr F64 Enums Types ObjCore Stevedore.
Local Open Scope Z_scope.

(** The regex crate: compiled expressions, compilation (or its error message),
    matching. *)
Class RegexLib := {
  Regex : Type;
  Regex_new : bytes → result Regex bytes;
  Regex_is_match : Regex → bytes → bool;
}.

Inductive CacheError : Set :=
| CacheError_LookupFailed (msg : bytes)
| CacheError_InsertFailed (msg : bytes)
| CacheError_Storage (e : StorageError)
| CacheError_FetchFailed (msg : bytes)
| CacheError_BanError (msg : bytes)
| CacheError_Expired
| CacheError_NotFound
| CacheError_RequestError (msg : bytes).

Section ban.
  Context `{RegexLib}.

Inductive BanTest : Type :=
| UrlMatch (re : Regex)
| ObjHeaderMatch (header : bytes) (pattern : Regex)
| ObjHeaderEq (header value : bytes).

Record Ban : Type := mkBan {
  ban_timestamp : VtimReal;
  ban_tests : list BanTest;
  ban_completed : bool;
}.

Definition test_matches (url : bytes) (get_header : bytes → option bytes) (test : BanTest) : bool :=
  match test with
  | UrlMatch re => Regex_is_match re url
  | ObjHeaderMatch header pattern =>
      match get_header header with Some v => Regex_is_match pattern v | None => false end
  | ObjHeaderEq header value =>
      match get_header header with Some v => bool_decide (v = value) | None => false end
  end.

Definition Ban_matches (ban : Ban) (url : bytes) (get_header : bytes → option bytes) : bool :=
  forallb (test_matches url get_header) (ban_tests ban).

(** One part of a ban expression. *)
Definition parse_ban_test (part : bytes) : result BanTest CacheError :=
  let part := trim part in
  let bad_regex (e : bytes) := CacheError_BanError (str "invalid regex: " ++ e) in
  match strip_prefix (str "req.url ~ ") part with
  | Some rest =>
      (re ←? map_err bad_regex (Regex_new (trim rest)); Ok (UrlMatch re))%rust
  | None =>
      match strip_prefix (str "obj.http.") part with
      | Some rest =>
          match split_once (str " ~ ") rest with
          | Some (header, pattern) =>
              (re ←? map_err bad_regex (Regex_new (trim pattern));
               Ok (ObjHeaderMatch (trim header) re))%rust
          | None =>
              match split_once (str " == ") rest with
              | Some (header, value) => Ok (ObjHeaderEq (trim header) (trim value))
              | None => Err (CacheError_BanError (str "invalid ban test: " ++ part))
              end
          end
      | None => Err (CacheError_BanError (str "unknown ban field: " ++ part))
      end
  end.

(** The loop over the parts: the first error is returned. *)
Fixpoint parse_ban_tests (parts : list bytes) : result (list BanTest) CacheError :=
  match parts with
  | [] => Ok []
  | part :: parts =>
      (test ←? parse_ban_test part; tests ←? parse_ban_tests parts; Ok (test :: tests))%rust
  end.

Definition parse_ban_expression (now : VtimReal) (expr : bytes) : result Ban CacheError :=
  (tests ←? parse_ban_tests (split_str (str " && ") expr);
   match tests with
   | [] => Err (CacheError_BanError (str "empty ban expression"))
   | _ => Ok (mkBan now tests false)
   end)%rust.

(* ------------------------------------------------------------------ *)
(** ** The ban list *)

Definition BanList : Type := list Ban.

Definition BanList_new : BanList := [].

Definition BanList_add_ban (now : VtimReal) (expression : bytes) (bans : BanList)
    : result unit CacheError * BanList :=
  match parse_ban_expression now expression with
  | Ok ban => (Ok tt, bans ++ [ban])
  | Err e => (Err e, bans)
  end.

Definition BanList_add (ban : Ban) (bans : BanList) : BanList := bans ++ [ban].

Definition BanList_is_banned (bans : BanList) (oc : ObjCore) (url : bytes)
    (get_header : bytes → option bytes) : bool :=
  existsb (λ ban, f64_gt (ban_timestamp ban) (t_origin oc) && Ban_matches ban url get_header) bans.

Definition BanList_lurker_work (oldest_obj_time : VtimReal) (bans : BanList) : BanList :=
  List.filter (λ ban, f64_ge (ban_timestamp ban) oldest_obj_time || negb (ban_completed ban)) bans.

Definition BanList_mark_completed (bans : BanList) : BanList :=
  map (λ ban, mkBan (ban_timestamp ban) (ban_tests ban) true) bans.

Definition BanList_len (bans : BanList) : nat := length bans.
Definition BanList_is_empty (bans : BanList) : bool := match bans with [] => true | _ => false end.
Definition BanList_list (bans : BanList) : list Ban := bans.

(* ------------------------------------------------------------------ *)
(** ** Properties *)

(** The ban lurker is safe: dropping the completed bans older than the oldest
    cached object never changes the verdict on an object that is at least that
    young, whether or not the bans were first marked completed. *)
Theorem lurker_preserves_bans bans oldest oc url get_header :
  f64_le oldest (t_origin oc) = true →
  BanList_is_banned (BanList_lurker_work oldest bans) oc url get_header
    = BanList_is_banned bans oc url get_header
  ∧ BanList_is_banned (BanList_lurker_work oldest (BanList_mark_completed bans)) oc url get_header
    = BanList_is_banned bans oc url get_header.
Proof.
  intros Hold. unfold BanList_is_banned, BanList_lurker_work, BanList_mark_completed.
  assert (Hkeep : ∀ ban, f64_gt (ban_timestamp ban) (t_origin oc) = true →
            f64_ge (ban_timestamp ban) oldest = true).
  { intros ban Hgt. unfold f64_gt, f64_ge in *. apply f64_lt_le. by eapply f64_le_lt_trans. }
  split; induction bans as [|ban bans IH]; simpl; [done| |done|].
  - destruct (f64_gt (ban_timestamp ban) (t_origin oc)) eqn:E.
    + rewrite Hkeep by done. simpl. by rewrite E, IH.
    + simpl. case_if; simpl; [by rewrite E|done].
  - destruct (f64_gt (ban_timestamp ban) (t_origin oc)) eqn:E.
    + rewrite Hkeep by done. simpl. by rewrite E, IH.
    + simpl. case_if; simpl; [by rewrite E|done].
Qed.

Lemma split_str_absent (c1 c2 : byte) sep s :
  c2 ∉ s → split_str (c1 :: c2 :: sep) s = [s].
Proof.
  intros Hc. unfold split_str. destruct s as [|x s]; [done|]. cbn [length split_str_fuel].
  destruct (split_once (c1 :: c2 :: sep) (x :: s)) as [[a b]|] eqn:E; [|done].
  apply split_once_Some in E. rewrite E in Hc. set_solver.
Qed.

(** A pattern with nothing to trim and no ampersand. *)
Definition plain_pattern (p : bytes) : Prop :=
  (x26 ∉ p) ∧ ∃ a s b, p = a :: s ∧ ascii_graphic a ∧ last p = Some b ∧ ascii_graphic b.

Lemma plain_pattern_trim q p : plain_pattern p → (∃ a s, q = a :: s ∧ ascii_graphic a) → trim (q ++ p) = q ++ p.
Proof.
  intros (_ & a & s & b & -> & _ & Hl & Hb) (a' & s' & -> & Ha'). apply trim_trimmed.
  apply (trimmed_graphic a' (s' ++ a :: s) b); [done..|].
  change (last ((a' :: s') ++ a :: s) = Some b). by rewrite last_app, Hl.
Qed.

Lemma plain_pattern_trim_self p : plain_pattern p → trim p = p.
Proof.
  intros (_ & a & s & b & -> & Ha & Hl & Hb). apply trim_trimmed. by apply (trimmed_graphic a s b).
Qed.

Lemma parse_url_ban now p re :
  plain_pattern p → Regex_new p = Ok re →
  parse_ban_expression now (str "req.url ~ " ++ p) = Ok (mkBan now [UrlMatch re] false).
Proof.
  intros Hp Hre. unfold parse_ban_expression. change (str " && ") with [x20; x26; x26; x20].
  rewrite split_str_absent.
  2: { destruct Hp as [Hp _]. rewrite elem_of_app. intros [Hin|Hin]; [|done].
       apply (bool_decide_pack (x26 ∈ str "req.url ~ ")) in Hin. done. }
  cbn [parse_ban_tests]. unfold parse_ban_test.
  rewrite plain_pattern_trim by (done || (eexists _, _; split; [reflexivity|by vm_compute])).
  rewrite strip_prefix_app, plain_pattern_trim_self by done. rewrite Hre. done.
Qed.

End ban.

(** A URL ban does what it says: adding [req.url ~ p] (with [p] compiling to
    [re]) at time [now] succeeds, and afterwards an object is banned exactly when
    it was banned before, or it is older than [now] and its URL matches [re]. *)
Theorem url_ban_effective `{RegexLib} now p re bans oc url get_header :
  plain_pattern p → Regex_new p = Ok re →
  let '(r, bans') := BanList_add_ban now (str "req.url ~ " ++ p) bans in
  r = Ok tt ∧
  BanList_is_banned bans' oc url get_header =
  BanList_is_banned bans oc url get_header || (f64_gt now (t_origin oc) && Regex_is_match re url).
Proof.
  intros Hp Hre. unfold BanList_add_ban. rewrite (parse_url_ban now p re) by done. split; [done|].
  unfold BanList_is_banned. rewrite existsb_app. simpl. unfold Ban_matches. simpl.
  by rewrite andb_true_r, orb_false_r.
Qed.

(** Substring search as a regular expression library, for evaluation. *)
Definition substring_regex : RegexLib := {|
  Regex := bytes;
  Regex_new := λ p, Ok p;
  Regex_is_match := λ re s, contains re s;
|}.

Lemma url_ban_effective_witness :
  let '(r, bans') := @BanList_add_ban substring_regex (f64_of_Z 2000)
                       (str "req.url ~ " ++ str "/images/") [] in
  r = Ok tt ∧
  @BanList_is_banned substring_regex bans' sample_oc (str "/images/logo.png") (λ _, None) = true.
Proof.
  apply (@url_ban_effective substring_regex (f64_of_Z 2000) (str "/images/") (str "/images/") []
           sample_oc (str "/images/logo.png") (λ _, None)); [|reflexivity].
  split; [apply (bool_decide_unpack _); vm_compute; exact I|].
  exists x2f, (str "images/"), x2f. repeat split.
Defined.

Lemma lurker_preserves_bans_witness :
  let bans := snd (@BanList_add_ban substring_regex (f64_of_Z 2000) (str "req.url ~ /x") []) in
  @BanList_is_banned substring_regex (BanList_lurker_work (f64_of_Z 900) bans) sample_oc (str "/x") (λ _, None)
    = @BanList_is_banned substring_regex bans sample_oc (str "/x") (λ _, None)
  ∧ @BanList_is_banned substring_regex (BanList_lurker_work (f64_of_Z 900) (BanList_mark_completed bans))
      sample_oc (str "/x") (λ _, None)
    = @BanList_is_banned substring_regex bans sample_oc (str "/x") (λ _, None).
Proof. apply (@lurker_preserves_bans substring_regex). vm_compute. reflexivity. Defined.
