(* ===== verification/Cookie.v ===== *)
(** * The cookie jar of the VMODs

    Models [rv-vmod/src/cookie.rs].  The jar is a hash map, so the order in which
    [to_header_value] meets the cookies is an argument of the model; the header it
    writes does not depend on it, and reading the header back gives the jar. *)

From stdpp Require Import sorting.
From S2P Require Import Prelude RustStr Types ObjCore Stevedore Ban.
Local Open Scope Z_scope.

Abbreviation CookieJar := (gmap bytes bytes).

Definition CookieJar_new : CookieJar := ∅.

(** One round of the loop of [parse]. *)
Definition parse_pair (jar : CookieJar) (pair : bytes) : CookieJar :=
  let pair := trim pair in
  match pair with
  | [] => jar
  | _ =>
      match split_once [x3d] pair with
      | Some (name, value) =>
          let name := trim name in
          let value := trim value in
          match name with
          | [] => jar
          | _ => <[name := value]> jar
          end
      | None => jar
      end
  end.

Definition CookieJar_parse (header_value : bytes) (jar : CookieJar) : CookieJar :=
  foldl parse_pair jar (split_char x3b header_value).

Definition CookieJar_get (name : bytes) (jar : CookieJar) : option bytes := jar !! name.

Definition CookieJar_set (name value : bytes) (jar : CookieJar) : CookieJar := <[name := value]> jar.

Definition CookieJar_delete (name : bytes) (jar : CookieJar) : bool * CookieJar :=
  (bool_decide (is_Some (jar !! name)), delete name jar).

Definition CookieJar_len (jar : CookieJar) : Z := Z.of_nat (size jar).
Definition CookieJar_is_empty (jar : CookieJar) : bool := bool_decide (jar = ∅).
Definition CookieJar_clear (jar : CookieJar) : CookieJar := ∅.

(** [format!(k=v)] *)
Definition print_cookie (kv : bytes * bytes) : bytes := kv.1 ++ x3d :: kv.2.

(** [order] is the traversal of the map. *)
Definition cookie_header_of (order : list (bytes * bytes)) : bytes :=
  join (str "; ") (merge_sort str_before (print_cookie <$> order)).

Definition CookieJar_to_header_value (jar : CookieJar) : bytes := cookie_header_of (map_to_list jar).

Section filter.
  Context {regex : RegexLib}.

Definition CookieJar_filter_re (pattern : bytes) (jar : CookieJar) : result unit bytes * CookieJar :=
  match Regex_new pattern with
  | Ok re => (Ok tt, filter (λ kv, Regex_is_match re kv.1 = true) jar)
  | Err e => (Err e, jar)
  end.

Inductive jar_op : Set :=
| JarParse (header_value : bytes)
| JarSet (name value : bytes)
| JarDelete (name : bytes)
| JarFilter (pattern : bytes)
| JarClear.

Definition jar_exec (jar : CookieJar) (o : jar_op) : CookieJar :=
  match o with
  | JarParse h => CookieJar_parse h jar
  | JarSet n v => CookieJar_set n v jar
  | JarDelete n => (CookieJar_delete n jar).2
  | JarFilter p => (CookieJar_filter_re p jar).2
  | JarClear => CookieJar_clear jar
  end.

End filter.

(* ------------------------------------------------------------------ *)
(** ** Cookies a header can carry *)

Definition cookie_ok (name value : bytes) : Prop :=
  name ≠ [] ∧ trimmed name ∧ trimmed value ∧ (x3b ∉ name) ∧ (x3b ∉ value) ∧ (x3d ∉ name).

Definition jar_ok (jar : CookieJar) : Prop := map_Forall cookie_ok jar.

Definition op_ok (o : jar_op) : Prop :=
  match o with JarSet n v => cookie_ok n v | _ => True end.

#[global] Instance cookie_ok_dec n v : Decision (cookie_ok n v).
Proof. unfold cookie_ok, trimmed. apply _. Defined.

Lemma split_char_elem c s p : p ∈ split_char c s → (c ∉ p) ∧ ∀ b, b ∈ p → b ∈ s.
Proof.
  revert p. induction s as [|x s IH]; simpl; intros p.
  - rewrite list_elem_of_singleton. intros ->. set_solver.
  - case_decide as Hx.
    + rewrite elem_of_cons. intros [->|Hp%IH]; set_solver.
    + destruct (split_char c s) as [|q l] eqn:E; [by apply split_char_nonempty in E|].
      rewrite elem_of_cons. intros [->|Hp].
      * destruct (IH q); set_solver.
      * destruct (IH p); set_solver.
Qed.

Lemma split_once_before c s a b : split_once [c] s = Some (a, b) → (c ∉ a) ∧ s = a ++ c :: b.
Proof.
  intros H. split; [|by apply split_once_Some in H].
  revert a b H. induction s as [|x s IH]; intros a b; [done|]. rewrite split_once_eq.
  destruct (strip_prefix [c] (x :: s)) as [r|] eqn:E; [intros [= <- <-]; set_solver|].
  destruct (split_once [c] s) as [[a' b']|] eqn:E'; [|done]. intros [= <- <-].
  assert (x ≠ c) by (intros ->; by rewrite strip_prefix_cons, decide_True in E).
  specialize (IH _ _ eq_refl). set_solver.
Qed.

Lemma parse_pair_ok jar pair : x3b ∉ pair → jar_ok jar → jar_ok (parse_pair jar pair).
Proof.
  intros Hp Hj. unfold parse_pair.
  destruct (trim pair) as [|x p] eqn:E; [done|]. rewrite <- E.
  destruct (split_once [x3d] (trim pair)) as [[n v]|] eqn:Es; [|done].
  apply split_once_before in Es as [Hn Es].
  destruct (trim n) as [|y n'] eqn:En; [done|]. rewrite <- En.
  assert (Hsub : ∀ b, b ∈ n ∨ b ∈ v → b ∈ pair) by (intros b Hb; apply trim_elem; rewrite Es; set_solver).
  apply map_Forall_insert_2; [|done]. unfold cookie_ok. split_and!.
  - by rewrite En.
  - apply trim_is_trimmed.
  - apply trim_is_trimmed.
  - intros Hb%trim_elem. auto.
  - intros Hb%trim_elem. auto.
  - intros Hb%trim_elem. auto.
Qed.

Lemma parse_ok h jar : jar_ok jar → jar_ok (CookieJar_parse h jar).
Proof.
  unfold CookieJar_parse.
  assert (Hall : Forall (λ p, x3b ∉ p) (split_char x3b h))
    by (apply Forall_forall; intros p Hp; by eapply split_char_elem).
  revert jar. induction Hall as [|p l Hp _ IH]; intros jar Hj; simpl; [done|].
  apply IH. by apply parse_pair_ok.
Qed.

Lemma jar_exec_ok `{RegexLib} jar o : op_ok o → jar_ok jar → jar_ok (jar_exec jar o).
Proof.
  intros Ho Hj. destruct o; simpl.
  - by apply parse_ok.
  - by apply map_Forall_insert_2.
  - by apply map_Forall_delete.
  - unfold CookieJar_filter_re. destruct (Regex_new pattern); [|done].
    intros n v [Hl _]%map_lookup_filter_Some. by apply Hj.
  - apply map_Forall_empty.
Qed.

(* ------------------------------------------------------------------ *)
(** ** Reading a written header *)

Lemma print_cookie_trimmed kv : cookie_ok kv.1 kv.2 → trimmed (print_cookie kv).
Proof.
  intros (Hn & Tn & Tv & _). unfold print_cookie.
  apply trimmed_around; [by vm_compute|exact Hn|exact Tn|exact Tv].
Qed.

Lemma parse_pair_printed jar p kv :
  cookie_ok kv.1 kv.2 → p = print_cookie kv ∨ p = x20 :: print_cookie kv →
  parse_pair jar p = <[kv.1 := kv.2]> jar.
Proof.
  intros Hok Hp. pose proof (print_cookie_trimmed kv Hok) as Ht.
  assert (trim p = print_cookie kv) as E by (destruct Hp as [-> | ->]; auto using trim_trimmed, trim_space).
  destruct kv as [n v], Hok as (Hn & Tn & Tv & _ & _ & He). simpl in *.
  unfold parse_pair. rewrite E. unfold print_cookie. simpl.
  rewrite split_once_byte_Some by done. rewrite (trim_trimmed n Tn), (trim_trimmed v Tv).
  destruct n as [|x n]; done.
Qed.

Lemma join_blank c p l : join [c; x20] (p :: l) = join [c] (p :: (cons x20 <$> l)).
Proof.
  revert p. induction l as [|q l IH]; intros p; [done|].
  change (join [c; x20] (p :: q :: l)) with (p ++ c :: x20 :: join [c; x20] (q :: l)).
  rewrite IH. rewrite fmap_cons.
  change (join [c] (p :: (x20 :: q) :: (cons x20 <$> l))) with (p ++ c :: join [c] ((x20 :: q) :: (cons x20 <$> l))).
  by destruct l.
Qed.

Lemma foldl_cookies kvs ps jar :
  Forall2 (λ kv p, p = print_cookie kv ∨ p = x20 :: print_cookie kv) kvs ps →
  Forall (λ kv, cookie_ok kv.1 kv.2) kvs → NoDup kvs.*1 →
  foldl parse_pair jar ps = list_to_map kvs ∪ jar.
Proof.
  intros H2. revert jar. induction H2 as [|kv p kvs ps Hp _ IH]; intros jar Hok Hnd; simpl.
  - by rewrite map_empty_union.
  - apply Forall_cons in Hok as [Hkv Hok]. rewrite fmap_cons in Hnd. apply NoDup_cons in Hnd as [Hni Hnd].
    rewrite (parse_pair_printed _ _ kv), IH by done. destruct kv as [k v]. simpl in *.
    rewrite <- insert_union_l, <- insert_union_r; [done|]. by apply not_elem_of_list_to_map_1.
Qed.

Lemma parse_cookies kvs jar :
  Forall (λ kv, cookie_ok kv.1 kv.2) kvs → NoDup kvs.*1 →
  CookieJar_parse (join (str "; ") (print_cookie <$> kvs)) jar = list_to_map kvs ∪ jar.
Proof.
  intros Hok Hnd. unfold CookieJar_parse. destruct kvs as [|kv kvs].
  { simpl. by rewrite map_empty_union. }
  change (str "; ") with [x3b; x20]. rewrite fmap_cons, join_blank, split_char_join_inv; [|done|].
  - apply foldl_cookies; [|done..]. constructor; [by left|].
    apply Forall2_fmap_r, Forall2_fmap_r, Forall_Forall2_diag, Forall_true. by right.
  - apply Forall_cons in Hok as [Hkv Hok].
    assert (Hno : ∀ kv, cookie_ok kv.1 kv.2 → x3b ∉ print_cookie kv).
    { intros [n v] (_ & _ & _ & H1 & H2 & _). unfold print_cookie. set_solver. }
    constructor; [by apply Hno|]. rewrite !Forall_fmap.
    eapply Forall_impl; [done|]. intros kv' Hkv'%Hno. simpl. set_solver.
Qed.

(** Cookies survive the header: take any sequence of parses of arbitrary
    headers, deletions, filters and clearings from the empty jar, with [set] used on
    names and values a header can carry.  Then, whatever the order in which the hash
    map hands out its cookies, parsing the header written from the jar into any jar
    adds exactly the cookies of the first one, with their values, over those the
    second one had; and the header does not depend on that order. *)
Theorem cookie_header_roundtrip {regex : RegexLib} (ops : list jar_op) (jar0 : CookieJar) order :
  Forall op_ok ops →
  order ≡ₚ map_to_list (foldl jar_exec CookieJar_new ops) →
  CookieJar_parse (cookie_header_of order) jar0 = foldl jar_exec CookieJar_new ops ∪ jar0
  ∧ cookie_header_of order = CookieJar_to_header_value (foldl jar_exec CookieJar_new ops).
Proof.
  intros Hops Hord. set (jar := foldl jar_exec CookieJar_new ops) in *.
  assert (Hjar : jar_ok jar).
  { subst jar. clear order Hord. assert (Hnew : jar_ok CookieJar_new) by apply map_Forall_empty.
    revert Hnew. generalize CookieJar_new as j. induction Hops as [|o ops Ho _ IH]; intros j Hj; simpl; [done|].
    apply IH. by apply jar_exec_ok. }
  clearbody jar. split.
  - unfold cookie_header_of. pose proof (merge_sort_Permutation str_before (print_cookie <$> order)) as Hp.
    apply Permutation_map_inv in Hp as (kvs & -> & Hkvs). rewrite Hord in Hkvs.
    change (map print_cookie kvs) with (print_cookie <$> kvs). rewrite parse_cookies.
    + f_equal. rewrite <- (list_to_map_to_list jar). symmetry. apply list_to_map_proper; [apply NoDup_fst_map_to_list|done].
    + rewrite <- Hkvs. apply Forall_forall. intros [n v] Hnv%elem_of_map_to_list. by apply Hjar.
    + rewrite <- Hkvs. apply NoDup_fst_map_to_list.
  - unfold CookieJar_to_header_value, cookie_header_of. f_equal.
    apply (StronglySorted_unique str_before); [apply (StronglySorted_merge_sort _)..|].
    rewrite !merge_sort_Permutation. by rewrite Hord.
Qed.

Example cookie_parse_trims :
  CookieJar_to_header_value (CookieJar_parse (str "  name = value ;; bad; =x ;  foo  =  bar=baz  ") CookieJar_new)
  = str "foo=bar=baz; name=value".
Proof. vm_compute. reflexivity. Qed.

(** [set] does not check its arguments: a value with a separator comes back as
    two cookies. *)
Example cookie_set_injects :
  CookieJar_get (str "admin")
    (CookieJar_parse (CookieJar_to_header_value (CookieJar_set (str "a") (str "1; admin=1") CookieJar_new)) CookieJar_new)
  = Some (str "1").
Proof. vm_compute. reflexivity. Qed.

Lemma cookie_header_roundtrip_witness :
  let ops := [JarParse (str "session_id=abc; theme=dark; user_id = 123"); JarSet (str "lang") (str "en");
              JarDelete (str "theme"); JarFilter (str "_id")] in
  CookieJar_parse (str "session_id=abc; user_id=123") CookieJar_new
  = foldl (@jar_exec substring_regex) CookieJar_new ops ∪ CookieJar_new.
Proof.
  intros ops.
  assert (E : str "session_id=abc; user_id=123" = cookie_header_of [(str "user_id", str "123"); (str "session_id", str "abc")])
    by (vm_compute; reflexivity).
  rewrite E. apply (@cookie_header_roundtrip substring_regex ops CookieJar_new).
  - constructor; [exact I|]. constructor; [apply (bool_decide_unpack _); vm_compute; exact I|].
    constructor; [exact I|]. constructor; [exact I|]. constructor.
  - apply (bool_decide_unpack _). vm_compute. exact I.
Defined.
