(* ===== verification/Streaming.v ===== *)
(** * Streaming bodies

    Models [rv-cache/src/streaming.rs]: the chunk buffer shared by a fetch and
    the clients that read it while it grows.  The last section models
    [wait_for_data] as the interleaving of its two atomic parts, the read and the
    registration with [tokio::sync::Notify], whose [notify_waiters] wakes the
    tasks waiting at that moment and stores nothing for later ones. *)

From S2P Require Import Prelude RustStr.
Local Open Scope Z_scope.

Record StreamingBody : Set := mkStreamingBody {
  chunks : list bytes;
  complete : bool;
  total_size : Z;
}.

Definition StreamingBody_new : StreamingBody := mkStreamingBody [] false 0.

(** [notify_waiters] is the business of the scheduler, below. *)
Definition StreamingBody_append (data : bytes) (b : StreamingBody) : StreamingBody :=
  mkStreamingBody (chunks b ++ [data]) (complete b)
    (u64_wrap (total_size b + Z.of_nat (length data))).

Definition StreamingBody_mark_complete (b : StreamingBody) : StreamingBody :=
  mkStreamingBody (chunks b) true (total_size b).

Definition StreamingBody_is_complete (b : StreamingBody) : bool := complete b.

(** The loop of [read_from]. *)
Fixpoint read_chunks (cs : list bytes) (offset current_offset : nat) (result : bytes) : bytes :=
  match cs with
  | [] => result
  | chunk :: cs =>
      let chunk_end := (current_offset + length chunk)%nat in
      if (chunk_end <=? offset)%nat then read_chunks cs offset chunk_end result
      else
        let start_in_chunk := (offset - current_offset)%nat in
        read_chunks cs offset chunk_end (result ++ drop start_in_chunk chunk)
  end.

Definition StreamingBody_read_from (offset : nat) (b : StreamingBody) : bytes * bool :=
  (read_chunks (chunks b) offset 0 [], StreamingBody_is_complete b).

Definition StreamingBody_total_size (b : StreamingBody) : Z := total_size b.

(* ------------------------------------------------------------------ *)
(** ** Reading is dropping a prefix of the stream *)

(** The bytes received so far. *)
Definition stream (b : StreamingBody) : bytes := mjoin (chunks b).

Lemma read_chunks_spec cs offset : ∀ cur result,
  read_chunks cs offset cur result = result ++ drop (offset - cur) (mjoin cs).
Proof.
  induction cs as [|c cs IH]; intros cur result; simpl.
  - by rewrite drop_nil, app_nil_r.
  - destruct (Nat.leb_spec (cur + length c) offset) as [Hle|Hlt]; rewrite IH.
    + f_equal. rewrite drop_app_ge by lia. f_equal. lia.
    + rewrite drop_app_le by lia. rewrite <-app_assoc. do 2 f_equal.
      replace (offset - (cur + length c))%nat with 0%nat by lia. done.
Qed.

Lemma read_from_spec offset b :
  StreamingBody_read_from offset b = (drop offset (stream b), complete b).
Proof. unfold StreamingBody_read_from. by rewrite read_chunks_spec, Nat.sub_0_r. Qed.

Lemma stream_append data b : stream (StreamingBody_append data b) = stream b ++ data.
Proof. unfold stream. simpl. rewrite join_app. simpl. by rewrite app_nil_r. Qed.

(* ------------------------------------------------------------------ *)
(** ** Producers and consumers *)

(** Events in the order they take effect: the fetch task appends and completes,
    consumer [c] reads from the offset of what it already has. *)
Inductive event : Set :=
| EAppend (data : bytes)
| EComplete
| ERead (c : nat).

(** What each consumer has received, and whether it saw completion. *)
Record world : Type := mkWorld {
  body : StreamingBody;
  received : gmap nat bytes;
  finished : gset nat;
}.

Definition got (c : nat) (w : world) : bytes := default [] (received w !! c).

#[global] Arguments StreamingBody_read_from : simpl never.

Definition run_event (w : world) (e : event) : world :=
  match e with
  | EAppend data => mkWorld (StreamingBody_append data (body w)) (received w) (finished w)
  | EComplete => mkWorld (StreamingBody_mark_complete (body w)) (received w) (finished w)
  | ERead c =>
      let '(data, is_complete) := StreamingBody_read_from (length (got c w)) (body w) in
      mkWorld (body w) (<[c := got c w ++ data]> (received w))
        (if is_complete then {[c]} ∪ finished w else finished w)
  end.

Definition world_init : world := mkWorld StreamingBody_new ∅ ∅.

(** The bytes the fetch task appended; nothing may follow completion. *)
Fixpoint appended (es : list event) : bytes :=
  match es with
  | [] => []
  | EAppend data :: es => data ++ appended es
  | _ :: es => appended es
  end.

Fixpoint producer_ok (es : list event) (done : bool) : Prop :=
  match es with
  | [] => True
  | EAppend _ :: es => done = false ∧ producer_ok es done
  | EComplete :: es => producer_ok es true
  | ERead _ :: es => producer_ok es done
  end.

(** Every consumer has a prefix of the stream, the whole of it once finished. *)
Definition consumers_ok (w : world) : Prop :=
  (∀ c, got c w `prefix_of` stream (body w))
  ∧ (∀ c, c ∈ finished w → got c w = stream (body w) ∧ complete (body w) = true).

Lemma run_event_ok w e :
  consumers_ok w → (match e with EAppend _ => complete (body w) = false | _ => True end) →
  consumers_ok (run_event w e).
Proof.
  intros [Hpre Hfin] He. destruct e as [data| |c]; cbn [run_event].
  - split; simpl.
    + intros c. rewrite stream_append. by apply prefix_app_r, Hpre.
    + intros c Hc. apply Hfin in Hc as [_ Hc]. congruence.
  - split; simpl; [apply Hpre|]. intros c Hc. by apply Hfin in Hc as [? _].
  - rewrite read_from_spec.
    assert (Hall : ∀ c', got c' (mkWorld (body w)
        (<[c := got c w ++ drop (length (got c w)) (stream (body w))]> (received w))
        (if complete (body w) then {[c]} ∪ finished w else finished w))
      = if decide (c' = c) then stream (body w) else got c' w).
    { intros c'. unfold got at 1. simpl. case_decide as E; subst.
      - rewrite lookup_insert_eq. simpl. destruct (Hpre c) as [k Hk]. rewrite Hk at 1.
        rewrite drop_app_length. done.
      - by rewrite lookup_insert_ne. }
    split.
    + intros c'. rewrite Hall. simpl. case_decide; [done|apply Hpre].
    + intros c'. rewrite Hall. simpl. intros Hc'. case_decide as E.
      * subst c'. split; [done|]. destruct (complete (body w)) eqn:E; [done|].
        apply Hfin in Hc'. destruct Hc'. congruence.
      * destruct (complete (body w)) eqn:Ec; [|by apply Hfin].
        apply elem_of_union in Hc' as [?%elem_of_singleton|Hc']; [done|by apply Hfin].
Qed.

Lemma run_events_ok es : ∀ w,
  consumers_ok w → producer_ok es (complete (body w)) →
  let w' := foldl run_event w es in
  consumers_ok w' ∧ stream (body w') = stream (body w) ++ appended es.
Proof.
  induction es as [|e es IH]; intros w Hok Hprod; simpl.
  - by rewrite app_nil_r.
  - assert (Hok' : consumers_ok (run_event w e)).
    { apply run_event_ok; [done|]. destruct e; [by destruct Hprod|done..]. }
    destruct (IH (run_event w e) Hok') as [H1 H2].
    { destruct e as [data| |c]; cbn [run_event producer_ok] in *; [by destruct Hprod|done|].
      by rewrite read_from_spec. }
    split; [done|]. rewrite H2. destruct e as [data| |c]; cbn [run_event appended body].
    + by rewrite stream_append, <-app_assoc.
    + done.
    + by rewrite read_from_spec.
Qed.

(** C35. Streaming delivers the body intact to every reader: in any interleaving of
    one producer that appends and then completes with any number of consumers,
    each consumer has at every moment received a prefix of what was appended,
    without gaps or repetitions, and a consumer that was told the stream is
    complete has received all of it. *)
Theorem streaming_intact es :
  producer_ok es false →
  let w := foldl run_event world_init es in
  (∀ c, got c w `prefix_of` appended es) ∧ (∀ c, c ∈ finished w → got c w = appended es).
Proof.
  intros Hprod. destruct (run_events_ok es world_init) as [[Hpre Hfin] Hstream].
  - split; [intros c; apply prefix_nil|]. intros c Hc. simpl in Hc. set_solver.
  - done.
  - cbn [world_init body] in Hstream. change (stream StreamingBody_new) with (@nil byte) in Hstream.
    rewrite app_nil_l in Hstream. rewrite <-Hstream.
    split; [done|]. intros c Hc. by apply Hfin.
Qed.

Definition streaming_sample : list event :=
  [EAppend (str "hello "); ERead 1; EAppend (str "world"); ERead 2; EComplete; ERead 1].

Lemma streaming_intact_witness :
  let w := foldl run_event world_init streaming_sample in
  (∀ c, got c w `prefix_of` appended streaming_sample)
  ∧ (∀ c, c ∈ finished w → got c w = appended streaming_sample).
Proof. apply (streaming_intact streaming_sample). simpl. repeat split. Defined.

(* ------------------------------------------------------------------ *)
(** ** Waiting for data *)

Module Wait.

(** A consumer in [wait_for_data]: about to read, about to register with
    [notified().await] after an empty read, registered, or returned. *)
Inductive phase : Set := Reading | Registering | Waiting | Returned.

(** What the fetch task still has to do, in order. *)
Inductive producer : Set := PAppend (data : bytes) | PComplete.

Record state : Type := mk {
  buf : StreamingBody;
  offset : nat;
  consumer : phase;
  todo : list producer;
}.

(** [notify_waiters]: a registered consumer loops back to the read. *)
Definition wake (p : phase) : phase := match p with Waiting => Reading | p => p end.

Definition data_or_complete (b : StreamingBody) (off : nat) : bool :=
  let '(data, is_complete) := StreamingBody_read_from off b in
  negb (bool_decide (data = [])) || is_complete.

Inductive step : state → state → Prop :=
| step_append b off p data ps :
    step (mk b off p (PAppend data :: ps)) (mk (StreamingBody_append data b) off (wake p) ps)
| step_complete b off p ps :
    step (mk b off p (PComplete :: ps)) (mk (StreamingBody_mark_complete b) off (wake p) ps)
| step_read b off ps :
    step (mk b off Reading ps)
         (mk b off (if data_or_complete b off then Returned else Registering) ps)
| step_register b off ps :
    step (mk b off Registering ps) (mk b off Waiting ps).

Definition init (ps : list producer) : state := mk StreamingBody_new 0 Reading ps.

End Wait.

(** [wait_for_data] can miss its wake-up: when the whole response arrives
    between the empty read and the registration, the consumer waits for ever
    although the data is there and the stream is complete. *)
Theorem wait_for_data_lost_wakeup data :
  ∃ s, rtc Wait.step (Wait.init [Wait.PAppend data; Wait.PComplete]) s
    ∧ Wait.consumer s = Wait.Waiting
    ∧ StreamingBody_read_from (Wait.offset s) (Wait.buf s) = (data, true)
    ∧ ∀ s', ¬ Wait.step s s'.
Proof.
  exists (Wait.mk (StreamingBody_mark_complete (StreamingBody_append data StreamingBody_new))
            0 Wait.Waiting []).
  split; [|split; [reflexivity|split]].
  - eapply rtc_l; [apply Wait.step_read|].
    eapply rtc_l; [apply Wait.step_append|]. eapply rtc_l; [apply Wait.step_complete|].
    eapply rtc_l; [apply Wait.step_register|]. apply rtc_refl.
  - rewrite read_from_spec. unfold stream. simpl. by rewrite app_nil_r, drop_0.
  - intros s' Hs. inversion Hs.
Qed.
