(* ===== verification/Coalesce.v ===== *)
(** * Request coalescing

    Models [rv-cache/src/coalesce.rs].  The in-flight [DashMap] is a finite map;
    the channels are [tokio::sync::broadcast], a class of operations with the
    documented behaviour of the crate as its laws.  [check] takes two atomic
    accesses to the map, [get_mut] and then the entry API; they are two
    definitions, so that a sequence of atomic steps can put other threads'
    steps between them. *)

From S2P Require Import Prelude RustStr Types.
Local Open Scope Z_scope.

Inductive CoalesceResult : Set :=
| CoalesceResult_Ready
| CoalesceResult_Failed (msg : bytes).

#[global] Instance CoalesceResult_eq_dec : EqDecision CoalesceResult.
Proof. solve_decision. Defined.

(* ------------------------------------------------------------------ *)
(** ** The broadcast channels *)

(** What the first [recv] on a receiver would give. *)
Inductive RecvOutcome : Set :=
| RecvEmpty
| RecvOk (r : CoalesceResult)
| RecvClosed.

#[global] Instance RecvOutcome_eq_dec : EqDecision RecvOutcome.
Proof. solve_decision. Defined.

(** [tokio::sync::broadcast] at [CoalesceResult]; [Net] holds every channel. *)
Class Broadcast := {
  Net : Type;
  Sender : Type;
  Receiver : Type;
  net_new : Net;
  channel : nat → Net → Sender * Net;
  subscribe : Sender → Net → Receiver * Net;
  send : Sender → CoalesceResult → Net → Net;
  drop_sender : Sender → Net → Net;
  recv : Receiver → Net → RecvOutcome;
}.

(** The behaviour the crate documents: a new channel has no receivers yet, a
    subscriber starts empty, a value sent reaches every subscriber, dropping the
    sender closes the channel for those that have nothing to read, and channels
    are independent. *)
Class BroadcastLaws `{Broadcast} := {
  alive : Sender → Net → Prop;
  source : Receiver → Sender;
  subscribed : Receiver → Net → Prop;
  channel_law cap net s net' : channel cap net = (s, net') →
    alive s net' ∧ ¬ alive s net
    ∧ (∀ s', alive s' net → alive s' net')
    ∧ (∀ r, subscribed r net → source r ≠ s ∧ subscribed r net' ∧ recv r net' = recv r net);
  subscribe_law s net r net' : subscribe s net = (r, net') → alive s net →
    source r = s ∧ subscribed r net' ∧ recv r net' = RecvEmpty
    ∧ (∀ s', alive s' net → alive s' net')
    ∧ (∀ r', subscribed r' net → subscribed r' net' ∧ recv r' net' = recv r' net);
  send_law s v net : alive s net →
    (∀ s', alive s' net → alive s' (send s v net))
    ∧ (∀ r, subscribed r net → subscribed r (send s v net)
        ∧ (source r = s → recv r net = RecvEmpty → recv r (send s v net) = RecvOk v)
        ∧ (source r ≠ s → recv r (send s v net) = recv r net));
  drop_law s net : alive s net →
    (∀ s', s' ≠ s → alive s' net → alive s' (drop_sender s net))
    ∧ (∀ r, subscribed r net → subscribed r (drop_sender s net)
        ∧ (source r = s → recv r net = RecvEmpty → recv r (drop_sender s net) = RecvClosed)
        ∧ (recv r net ≠ RecvEmpty → recv r (drop_sender s net) = recv r net)
        ∧ (source r ≠ s → recv r (drop_sender s net) = recv r net));
}.

Definition CHANNEL_CAPACITY : nat := 16.
Definition DEFAULT_MAX_WAITERS : nat := 1000.

(** [DEFAULT_COALESCE_TIMEOUT], in seconds. *)
Definition DEFAULT_COALESCE_TIMEOUT : Z := 5.

Section coalesce.
  Context `{Broadcast}.

Inductive CoalesceDecision : Type :=
| Fetch
| Wait (rx : Receiver).

Record CoalesceEntry : Type := mkEntry { tx : Sender; waiter_count : nat }.

Record CoalesceStats : Type := mkStats {
  coalesced : Z;
  timeouts : Z;
  inflight_now : nat;
}.

Record CoalesceManager : Type := mkManager {
  inflight : gmap Digest CoalesceEntry;
  coalesce_timeout : Z;
  max_waiters : nat;
  coalesced_count : Z;
  timeout_count : Z;
}.

Definition CoalesceManager_with_config (timeout : Z) (max : nat) : CoalesceManager :=
  mkManager ∅ timeout max 0 0.

Definition CoalesceManager_new : CoalesceManager :=
  CoalesceManager_with_config DEFAULT_COALESCE_TIMEOUT DEFAULT_MAX_WAITERS.

Definition set_inflight (m : CoalesceManager) (i : gmap Digest CoalesceEntry) : CoalesceManager :=
  mkManager i (coalesce_timeout m) (max_waiters m) (coalesced_count m) (timeout_count m).

(** The body both occupied branches share: subscribe unless there are too many
    waiters. *)
Definition join_inflight (d : Digest) (e : CoalesceEntry) (m : CoalesceManager) (net : Net) :
    CoalesceDecision * CoalesceManager * Net :=
  if (max_waiters m <=? waiter_count e)%nat then (Fetch, m, net)
  else
    let '(rx, net) := subscribe (tx e) net in
    (Wait rx,
     mkManager (<[d := mkEntry (tx e) (S (waiter_count e))]> (inflight m)) (coalesce_timeout m)
       (max_waiters m) (u64_wrap (coalesced_count m + 1)) (timeout_count m),
     net).

(** The fast path of [check]: [None] when the digest is not in flight. *)
Definition check_fast (d : Digest) (m : CoalesceManager) (net : Net) :
    option CoalesceDecision * CoalesceManager * Net :=
  match inflight m !! d with
  | Some e => let '(dec, m, net) := join_inflight d e m net in (Some dec, m, net)
  | None => (None, m, net)
  end.

(** The slow path, through the entry API. *)
Definition check_slow (d : Digest) (m : CoalesceManager) (net : Net) :
    CoalesceDecision * CoalesceManager * Net :=
  match inflight m !! d with
  | Some e => join_inflight d e m net
  | None =>
      let '(s, net) := channel CHANNEL_CAPACITY net in
      (Fetch, set_inflight m (<[d := mkEntry s 0]> (inflight m)), net)
  end.

Definition CoalesceManager_check (d : Digest) (m : CoalesceManager) (net : Net) :
    CoalesceDecision * CoalesceManager * Net :=
  match check_fast d m net with
  | (Some dec, m, net) => (dec, m, net)
  | (None, m, net) => check_slow d m net
  end.

(** [send] and then the drop of the removed entry, sender included. *)
Definition CoalesceManager_complete (d : Digest) (r : CoalesceResult) (m : CoalesceManager)
    (net : Net) : CoalesceManager * Net :=
  match inflight m !! d with
  | Some e => (set_inflight m (delete d (inflight m)), drop_sender (tx e) (send (tx e) r net))
  | None => (m, net)
  end.

Definition CoalesceManager_cancel (d : Digest) (m : CoalesceManager) (net : Net) :
    CoalesceManager * Net :=
  match inflight m !! d with
  | Some e => (set_inflight m (delete d (inflight m)), drop_sender (tx e) net)
  | None => (m, net)
  end.

Definition CoalesceManager_inflight_count (m : CoalesceManager) : nat := size (inflight m).

Definition CoalesceManager_record_timeout (m : CoalesceManager) : CoalesceManager :=
  mkManager (inflight m) (coalesce_timeout m) (max_waiters m) (coalesced_count m)
    (u64_wrap (timeout_count m + 1)).

Definition CoalesceManager_stats (m : CoalesceManager) : CoalesceStats :=
  mkStats (coalesced_count m) (timeout_count m) (size (inflight m)).

(* ------------------------------------------------------------------ *)
(** ** Interleavings *)

(** The atomic steps of the threads that share a manager. *)
Inductive action : Type :=
| AFast (d : Digest)
| ASlow (d : Digest)
| AComplete (d : Digest) (r : CoalesceResult)
| ACancel (d : Digest)
| ATimeout.

Abbreviation world := (CoalesceManager * Net)%type.

(** One step: the decision it produced, if any, and the new world. *)
Definition act (a : action) (w : world) : option CoalesceDecision * world :=
  match a with
  | AFast d => let '(o, m, net) := check_fast d w.1 w.2 in (o, (m, net))
  | ASlow d => let '(dec, m, net) := check_slow d w.1 w.2 in (Some dec, (m, net))
  | AComplete d r => (None, CoalesceManager_complete d r w.1 w.2)
  | ACancel d => (None, CoalesceManager_cancel d w.1 w.2)
  | ATimeout => (None, (CoalesceManager_record_timeout w.1, w.2))
  end.

Definition acts (w : world) (l : list action) : world := foldl (λ w a, (act a w).2) w l.

(** The decisions about digest [d], in order. *)
Definition about (d : Digest) (a : action) : bool :=
  match a with
  | AFast d' | ASlow d' | AComplete d' _ | ACancel d' => bool_decide (d' = d)
  | ATimeout => false
  end.

Fixpoint decisions (d : Digest) (w : world) (l : list action) : list CoalesceDecision :=
  match l with
  | [] => []
  | a :: l =>
      let '(o, w') := act a w in
      (if about d a then option_list o else []) ++ decisions d w' l
  end.

Definition is_wait (dec : CoalesceDecision) : bool :=
  match dec with Wait _ => true | Fetch => false end.

(** Whether a step ends the flight of [d]. *)
Definition ends (d : Digest) (a : action) : bool :=
  match a with
  | AComplete d' _ | ACancel d' => bool_decide (d' = d)
  | _ => false
  end.

(** What a waiter of [d] sees after the steps [l]: the result of the first
    [complete] or [cancel] of its digest. *)
Fixpoint outcome (d : Digest) (l : list action) : RecvOutcome :=
  match l with
  | [] => RecvEmpty
  | AComplete d' r :: l => if decide (d' = d) then RecvOk r else outcome d l
  | ACancel d' :: l => if decide (d' = d) then RecvClosed else outcome d l
  | _ :: l => outcome d l
  end.

(* ------------------------------------------------------------------ *)
(** ** One fetch per flight *)

Lemma act_max_waiters a w : max_waiters (act a w).2.1 = max_waiters w.1.
Proof.
  destruct a as [d|d|d r|d|]; simpl; unfold check_fast, check_slow, join_inflight,
    CoalesceManager_complete, CoalesceManager_cancel; repeat case_match; simplify_eq/=; done.
Qed.

Lemma act_other d a w : about d a = false → inflight (act a w).2.1 !! d = inflight w.1 !! d.
Proof.
  destruct a as [d'|d'|d' r|d'|]; simpl; intros Hd; try apply bool_decide_eq_false in Hd;
    unfold check_fast, check_slow, join_inflight, CoalesceManager_complete,
    CoalesceManager_cancel; repeat case_match; simplify_eq/=;
    rewrite ?lookup_insert_ne, ?lookup_delete_ne by done; done.
Qed.

(** A check of a digest in flight, by either path. *)
Lemma act_join d a w e :
  about d a = true → ends d a = false → inflight w.1 !! d = Some e →
  ∃ dec w', act a w = (Some dec, w')
    ∧ is_wait dec = (waiter_count e <? max_waiters w.1)%nat
    ∧ ∃ e', inflight w'.1 !! d = Some e' ∧ waiter_count e' = (waiter_count e + Nat.b2n (is_wait dec))%nat.
Proof.
  intros Ha He Hd.
  assert (Hjoin : ∃ dec m net, join_inflight d e w.1 w.2 = (dec, m, net)
    ∧ is_wait dec = (waiter_count e <? max_waiters w.1)%nat
    ∧ ∃ e', inflight m !! d = Some e' ∧ waiter_count e' = (waiter_count e + Nat.b2n (is_wait dec))%nat).
  { unfold join_inflight. destruct (Nat.leb_spec (max_waiters w.1) (waiter_count e)) as [Hle|Hlt].
    - do 3 eexists. split; [done|]. simpl. split; [symmetry; by apply Nat.ltb_ge|].
      exists e. split; [done|lia].
    - destruct (subscribe (tx e) w.2) as [rx net]. do 3 eexists. split; [done|]. simpl.
      split; [symmetry; by apply Nat.ltb_lt|]. rewrite lookup_insert_eq.
      eexists. split; [done|]. simpl. lia. }
  destruct Hjoin as (dec & m & net & E & Hw & Hcount).
  destruct a as [d'|d'|d' r|d'|]; simpl in *; try congruence;
    apply bool_decide_eq_true in Ha; subst d'; unfold check_fast, check_slow; rewrite Hd, E;
    by exists dec, (m, net).
Qed.

(** The decisions about a digest in flight: waits up to the limit, then fetches. *)
Definition join_pattern (room k : nat) : list bool :=
  replicate (k `min` room) true ++ replicate (k - room) false.

Lemma decisions_inflight d l : ∀ w e,
  forallb (λ a, negb (ends d a)) l = true → inflight w.1 !! d = Some e →
  is_wait <$> decisions d w l
    = join_pattern (max_waiters w.1 - waiter_count e) (length (decisions d w l)).
Proof.
  induction l as [|a l IH]; intros w e Hl He; [done|].
  apply andb_true_iff in Hl as [Ha%negb_true_iff Hl]. cbn [decisions].
  pose proof (act_max_waiters a w) as Hmax.
  destruct (about d a) eqn:Hab.
  - destruct (act_join d a w e) as (dec & w' & E & Hw & e' & He' & Hcount); [done..|].
    rewrite E in *. cbn [snd] in Hmax.
    change (option_list (Some dec) ++ decisions d w' l) with (dec :: decisions d w' l). cbn [length].
    rewrite fmap_cons, (IH w' e' Hl He'), Hmax, Hcount.
    unfold join_pattern. rewrite Hw. destruct (Nat.ltb_spec (waiter_count e) (max_waiters w.1)); simpl.
    + replace (max_waiters w.1 - waiter_count e)%nat
        with (S (max_waiters w.1 - (waiter_count e + 1))) by lia. done.
    + replace (max_waiters w.1 - waiter_count e)%nat with 0%nat by lia.
      replace (max_waiters w.1 - (waiter_count e + 0))%nat with 0%nat by lia.
      by rewrite !Nat.min_0_r, Nat.sub_0_r.
  - destruct (act a w) as [o w'] eqn:E. simpl. cbn [snd] in Hmax. rewrite <-Hmax.
    apply IH; [done|]. pose proof (act_other d a w Hab) as Ho. rewrite E in Ho. simpl in Ho. congruence.
Qed.

(** C28. Request collapsing: in any interleaving of the checks of a digest that is
    not in flight with the steps of other digests, while no one completes or
    cancels it, exactly the first decision is to fetch, the next ones up to
    [max_waiters] are to wait, and only those beyond the limit fetch again. *)
Theorem check_collapses d w l :
  inflight w.1 !! d = None → forallb (λ a, negb (ends d a)) l = true →
  is_wait <$> decisions d w l
    = match length (decisions d w l) with
      | O => []
      | S k => false :: join_pattern (max_waiters w.1) k
      end.
Proof.
  revert w. induction l as [|a l IH]; intros w Hd Hl; [done|].
  apply andb_true_iff in Hl as [Ha%negb_true_iff Hl]. cbn [decisions].
  pose proof (act_max_waiters a w) as Hmax.
  destruct (about d a) eqn:Hab.
  - destruct a as [d'|d'|d' r|d'|]; simpl in Hab, Ha; try congruence;
      apply bool_decide_eq_true in Hab; subst d'; simpl in *; unfold check_fast, check_slow in *;
      rewrite Hd in *; simpl; [rewrite <-surjective_pairing; by apply IH|].
    destruct (channel CHANNEL_CAPACITY w.2) as [s net]; simpl. f_equal.
    set (m := set_inflight _ _).
    pose proof (decisions_inflight d l (m, net) (mkEntry s 0) Hl (lookup_insert_eq _ _ _)) as Hdec.
    simpl in Hdec. by rewrite Nat.sub_0_r in Hdec.
  - pose proof (act_other d a w Hab) as Ho.
    destruct (act a w) as [o w'] eqn:E. simpl in *. rewrite <-Hmax. apply IH; [congruence|done].
Qed.

(* ------------------------------------------------------------------ *)
(** ** Every waiter learns how its flight ended *)

Section laws.
  Context `{!BroadcastLaws}.

(** Entries hold live senders, one channel per digest. *)
Definition world_inv (w : world) : Prop :=
  (∀ d e, inflight w.1 !! d = Some e → alive (tx e) w.2)
  ∧ (∀ d1 d2 e1 e2, inflight w.1 !! d1 = Some e1 → inflight w.1 !! d2 = Some e2 →
       tx e1 = tx e2 → d1 = d2).

(** What is known of a receiver of [d]: still tied to the entry, or settled and
    out of reach of every entry. *)
Definition track (r : Receiver) (d : Digest) (o : RecvOutcome) (w : world) : Prop :=
  subscribed r w.2 ∧ recv r w.2 = o
  ∧ match o with
    | RecvEmpty => ∃ e, inflight w.1 !! d = Some e ∧ tx e = source r
    | _ => ∀ d' e, inflight w.1 !! d' = Some e → tx e ≠ source r
    end.

(** How one step changes the entries and the channels; a step that ends a flight
    is labelled with its digest and what its waiters get. *)
Inductive change (w w' : world) : option (Digest * RecvOutcome) → Prop :=
| change_none : inflight w'.1 = inflight w.1 → w'.2 = w.2 → change w w' None
| change_join d e rx : inflight w.1 !! d = Some e →
    subscribe (tx e) w.2 = (rx, w'.2) →
    inflight w'.1 = <[d := mkEntry (tx e) (S (waiter_count e))]> (inflight w.1) →
    change w w' None
| change_open d s : inflight w.1 !! d = None →
    channel CHANNEL_CAPACITY w.2 = (s, w'.2) →
    inflight w'.1 = <[d := mkEntry s 0]> (inflight w.1) → change w w' None
| change_end d e o net : inflight w.1 !! d = Some e →
    (net = w.2 ∧ o = RecvClosed ∨ ∃ v, net = send (tx e) v w.2 ∧ o = RecvOk v) →
    w'.2 = drop_sender (tx e) net →
    inflight w'.1 = delete d (inflight w.1) → change w w' (Some (d, o)).

(** The end of flight a step stands for. *)
Definition ending (a : action) (w : world) : option (Digest * RecvOutcome) :=
  match a with
  | AComplete d r => (λ _, (d, RecvOk r)) <$> inflight w.1 !! d
  | ACancel d => (λ _, (d, RecvClosed)) <$> inflight w.1 !! d
  | _ => None
  end.

Lemma join_change d e w dec w' :
  inflight w.1 !! d = Some e → join_inflight d e w.1 w.2 = (dec, w'.1, w'.2) → change w w' None.
Proof.
  intros He. unfold join_inflight. destruct (_ <=? _)%nat; [intros [= <- Hm Hn]; by apply change_none; rewrite <-?Hm|].
  destruct (subscribe (tx e) w.2) as [rx net] eqn:E. intros [= <- Hm Hn].
  eapply change_join; [done|by rewrite E, Hn|by rewrite <-Hm].
Qed.

Lemma act_change a w : change w (act a w).2 (ending a w).
Proof.
  destruct a as [d|d|d r|d|]; simpl.
  - unfold check_fast. destruct (inflight w.1 !! d) as [e|] eqn:He; [|by apply change_none].
    destruct (join_inflight d e w.1 w.2) as [[dec m] net] eqn:E. by eapply join_change.
  - unfold check_slow. destruct (inflight w.1 !! d) as [e|] eqn:He.
    + destruct (join_inflight d e w.1 w.2) as [[dec m] net] eqn:E. by eapply join_change.
    + destruct (channel CHANNEL_CAPACITY w.2) as [s net] eqn:E. by eapply change_open.
  - unfold CoalesceManager_complete. destruct (inflight w.1 !! d) as [e|] eqn:He; simpl.
    + eapply change_end; [done|right; by eexists|done..].
    + by apply change_none.
  - unfold CoalesceManager_cancel. destruct (inflight w.1 !! d) as [e|] eqn:He; simpl.
    + eapply change_end; [done|left; done|done..].
    + by apply change_none.
  - by apply change_none.
Qed.

Lemma change_inv w w' o : change w w' o → world_inv w → world_inv w'.
Proof.
  intros Hc [Hal Hinj].
  destruct Hc as [Hm Hn|d e rx He Hs Hm|d s Hd Hs Hm|d e o net He Hnet Hn Hm]; unfold world_inv;
    rewrite Hm.
  - by rewrite Hn.
  - destruct (subscribe_law _ _ _ _ Hs (Hal _ _ He)) as (_ & _ & _ & Hal' & _). split.
    + intros d' e'. rewrite lookup_insert_Some. intros [[<- <-]|[_ ?]]; simpl; eauto.
    + intros d1 d2 e1 e2. rewrite !lookup_insert_Some.
      intros [[<- <-]|[? ?]] [[<- <-]|[? ?]]; simpl; eauto.
  - destruct (channel_law _ _ _ _ Hs) as (Hs' & Hfresh & Hal' & _). split.
    + intros d' e'. rewrite lookup_insert_Some. intros [[<- <-]|[_ ?]]; simpl; eauto.
    + intros d1 d2 e1 e2. rewrite !lookup_insert_Some.
      intros [[<- <-]|[? Hx]] [[<- <-]|[? Hy]]; simpl; eauto; intros Heq; destruct Hfresh;
        [rewrite Heq|rewrite <-Heq]; eauto.
  - assert (Hnet' : ∀ s, alive s w.2 → alive s net).
    { destruct Hnet as [[-> _]|(v & -> & _)]; [done|]. apply send_law; eauto. }
    destruct (drop_law (tx e) net) as [Hal' _]; [eauto|]. split.
    + intros d' e'. rewrite lookup_delete_Some. intros [Hne H']. rewrite Hn.
      apply Hal'; [|eauto]. intros Heq. by apply Hne, (Hinj _ _ _ _ He H').
    + intros d1 d2 e1 e2. rewrite !lookup_delete_Some. intros [_ ?] [_ ?]. eauto.
Qed.

(** What a step makes of a waiter's state. *)
Definition settle (d : Digest) (o : RecvOutcome) (ended : option (Digest * RecvOutcome)) :
    RecvOutcome :=
  match o, ended with
  | RecvEmpty, Some (d', o') => if decide (d' = d) then o' else RecvEmpty
  | _, _ => o
  end.

(** A receiver across the end of a flight, seen from the channels. *)
Lemma end_recv e o net (w : world) r :
  alive (tx e) w.2 → subscribed r w.2 →
  (net = w.2 ∧ o = RecvClosed ∨ ∃ v, net = send (tx e) v w.2 ∧ o = RecvOk v) →
  subscribed r (drop_sender (tx e) net)
  ∧ (source r = tx e → recv r w.2 = RecvEmpty → recv r (drop_sender (tx e) net) = o)
  ∧ (source r ≠ tx e → recv r (drop_sender (tx e) net) = recv r w.2).
Proof.
  intros Hal Hsub [[-> ->]|(v & -> & ->)].
  - destruct (drop_law (tx e) w.2 Hal) as [_ Hd]. destruct (Hd r Hsub) as (? & ? & _ & ?). auto.
  - destruct (send_law (tx e) v w.2 Hal) as [Hal' Hs]. destruct (Hs r Hsub) as (Hsub' & Hok & Hne).
    destruct (drop_law (tx e) _ (Hal' _ Hal)) as [_ Hd].
    destruct (Hd r Hsub') as (? & _ & Hkeep & Hne'). split_and!; [done| |].
    + intros Hsrc Hempty. rewrite Hkeep; rewrite Hok; done.
    + intros Hsrc. rewrite Hne', Hne; done.
Qed.

Lemma end_track w w' d' e o' net r d o :
  world_inv w → track r d o w → inflight w.1 !! d' = Some e →
  (net = w.2 ∧ o' = RecvClosed ∨ ∃ v, net = send (tx e) v w.2 ∧ o' = RecvOk v) →
  w'.2 = drop_sender (tx e) net → inflight w'.1 = delete d' (inflight w.1) →
  track r d (settle d o (Some (d', o'))) w'.
Proof.
  intros [Hal Hinj] (Hsub & Hrecv & Ho) He Hnet Hn Hm. unfold track. rewrite Hn, Hm.
  destruct (end_recv e o' net w r (Hal _ _ He) Hsub Hnet) as (Hsub' & Hend & Hframe).
  split; [done|].
  destruct (decide (o = RecvEmpty)) as [->|Hne].
  - destruct Ho as (e0 & He0 & Htx). simpl. case_decide as Hd.
    + subst d'. simplify_eq. split; [auto|].
      assert (o' ≠ RecvEmpty) by (destruct Hnet as [[_ ->]|(? & _ & ->)]; done).
      destruct o'; [done|..]; intros d2 e2 [Hd2 He2]%lookup_delete_Some Htx2;
        apply Hd2, (Hinj _ _ _ _ He0 He2); congruence.
    + split; [rewrite Hframe; [done|]|].
      * rewrite <-Htx. intros Heq. by apply Hd, (Hinj _ _ _ _ He He0).
      * exists e0. by rewrite lookup_delete_ne.
  - assert (Hother : ∀ d2 e2, inflight w.1 !! d2 = Some e2 → tx e2 ≠ source r)
      by (destruct o; done).
    replace (settle d o (Some (d', o'))) with o by (destruct o; done).
    split; [rewrite Hframe; [done|]; intros Heq; by apply (Hother _ _ He)|].
    destruct o; [done|..]; intros d2 e2 [_ He2]%lookup_delete_Some; eauto.
Qed.

Lemma change_track w w' ended r d o :
  change w w' ended → world_inv w → track r d o w → track r d (settle d o ended) w'.
Proof.
  intros Hc Hinv Htr. pose proof Hinv as [Hal Hinj]. pose proof Htr as (Hsub & Hrecv & Ho).
  destruct Hc as [Hm Hn|d' e rx He Hs Hm|d' s Hd Hs Hm|d' e o' net He Hnet Hn Hm];
    [| | |by eapply end_track]; unfold track; rewrite Hm.
  - rewrite Hn. destruct o; simpl; auto.
  - destruct (subscribe_law _ _ _ _ Hs (Hal _ _ He)) as (_ & _ & _ & _ & Hall).
    destruct (Hall r Hsub) as [? Heq]. rewrite Heq. destruct o; simpl; split_and!; try done.
    + destruct Ho as (e0 & He0 & Htx). destruct (decide (d' = d)) as [->|].
      * rewrite lookup_insert_eq. eexists. split; [done|]. simpl. congruence.
      * rewrite lookup_insert_ne by done. eauto.
    + intros d2 e2. rewrite lookup_insert_Some. intros [[<- <-]|[_ ?]]; simpl; eauto.
    + intros d2 e2. rewrite lookup_insert_Some. intros [[<- <-]|[_ ?]]; simpl; eauto.
  - destruct (channel_law _ _ _ _ Hs) as (_ & _ & _ & Hall).
    destruct (Hall r Hsub) as (Hne & ? & Heq). rewrite Heq. destruct o; simpl; split_and!; try done.
    + destruct Ho as (e0 & He0 & Htx). rewrite lookup_insert_ne by congruence. eauto.
    + intros d2 e2. rewrite lookup_insert_Some. intros [[<- <-]|[_ ?]]; simpl; eauto.
    + intros d2 e2. rewrite lookup_insert_Some. intros [[<- <-]|[_ ?]]; simpl; eauto.
Qed.

Lemma world_inv_acts l : ∀ w, world_inv w → world_inv (acts w l).
Proof.
  induction l as [|a l IH]; intros w Hw; simpl; [done|].
  apply IH. eapply change_inv; [apply act_change|done].
Qed.

(** Once settled, for good. *)
Lemma track_acts_settled l r d o : ∀ w,
  o ≠ RecvEmpty → world_inv w → track r d o w → track r d o (acts w l).
Proof.
  induction l as [|a l IH]; intros w Hne Hinv Htr; simpl; [done|].
  pose proof (act_change a w) as Hc. apply IH; [done|by eapply change_inv|].
  pose proof (change_track _ _ _ _ _ _ Hc Hinv Htr) as Htr'.
  by destruct o; [done|..].
Qed.

Lemma track_acts l r d : ∀ w,
  world_inv w → track r d RecvEmpty w → track r d (outcome d l) (acts w l).
Proof.
  induction l as [|a l IH]; intros w Hinv Htr; simpl; [done|].
  pose proof (act_change a w) as Hc. pose proof (change_inv _ _ _ Hc Hinv) as Hinv'.
  pose proof (change_track _ _ _ _ _ _ Hc Hinv Htr) as Htr'.
  destruct Htr as (_ & _ & e & He & _).
  destruct a as [d'|d'|d' v|d'|]; [by apply IH..| | |by apply IH];
    cbn [ending outcome] in *; destruct (decide (d' = d)) as [->|Hne].
  - rewrite He in Htr'. simpl in Htr'. rewrite decide_True in Htr' by done.
    by apply track_acts_settled.
  - apply IH; [done|]. destruct (inflight w.1 !! d'); simpl in Htr'; [|done].
    by rewrite decide_False in Htr'.
  - rewrite He in Htr'. simpl in Htr'. rewrite decide_True in Htr' by done.
    by apply track_acts_settled.
  - apply IH; [done|]. destruct (inflight w.1 !! d'); simpl in Htr'; [|done].
    by rewrite decide_False in Htr'.
Qed.

(** A receiver handed out is tied to its digest's entry. *)
Lemma act_wait_track a w rx w' :
  world_inv w → act a w = (Some (Wait rx), w') →
  ∃ d, about d a = true ∧ track rx d RecvEmpty w'.
Proof.
  intros [Hal _] Hact.
  assert (Hjoin : ∀ d e m net, inflight w.1 !! d = Some e →
    join_inflight d e w.1 w.2 = (Wait rx, m, net) → track rx d RecvEmpty (m, net)).
  { intros d e m net He. unfold join_inflight. destruct (_ <=? _)%nat; [done|].
    destruct (subscribe (tx e) w.2) as [rx' net'] eqn:E. intros [= <- <- <-].
    destruct (subscribe_law _ _ _ _ E (Hal _ _ He)) as (Hsrc & Hsub & Hempty & _).
    split_and!; [done..|]. simpl. rewrite lookup_insert_eq. by eexists. }
  destruct a as [d|d|d r|d|]; simpl in Hact; try done; exists d;
    unfold check_fast, check_slow in Hact;
    destruct (inflight w.1 !! d) as [e|] eqn:He; try done.
  - destruct (join_inflight d e w.1 w.2) as [[dec m] net] eqn:E. simplify_eq/=.
    rewrite bool_decide_true by done. eauto.
  - destruct (join_inflight d e w.1 w.2) as [[dec m] net] eqn:E. simplify_eq/=.
    rewrite bool_decide_true by done. eauto.
  - destruct (channel CHANNEL_CAPACITY w.2). simplify_eq.
Qed.

Lemma world_inv_new timeout max net : world_inv (CoalesceManager_with_config timeout max, net).
Proof. by split; intros ? ? *; simpl; rewrite lookup_empty. Qed.

(** C11. Every coalesced request learns how its flight ended: whatever the steps
    before and after, a receiver handed out by a check of [d] stays empty until
    the first [complete] or [cancel] of [d] that follows, and from then on it
    yields that call's result, or the closed error; results of later flights and
    of other digests never reach it. *)
Theorem waiters_resolved timeout max net before d a rx w' after :
  let w := acts (CoalesceManager_with_config timeout max, net) before in
  about d a = true → act a w = (Some (Wait rx), w') →
  recv rx (acts w' after).2 = outcome d after.
Proof.
  intros w Hab Hact.
  assert (Hinv : world_inv w) by apply world_inv_acts, world_inv_new.
  destruct (act_wait_track a w rx w' Hinv Hact) as (d' & Hab' & Htr).
  assert (d' = d) as ->.
  { destruct a; simpl in *; try done; apply bool_decide_eq_true in Hab, Hab'; congruence. }
  assert (Hinv' : world_inv w').
  { pose proof (change_inv _ _ _ (act_change a w) Hinv) as Hi. by rewrite Hact in Hi. }
  by destruct (track_acts after rx d w' Hinv' Htr) as (_ & ? & _).
Qed.

End laws.
End coalesce.

(* ------------------------------------------------------------------ *)
(** ** Channels that satisfy the laws *)

Module ListNet.

(** A channel: whether the sender lives, the values sent, and for each
    subscriber the number of values sent before it subscribed. *)
Record chan : Set := mkChan { open : bool; sent : list CoalesceResult; subs : list nat }.

Definition recv_on (c : chan) (i : nat) : RecvOutcome :=
  match subs c !! i with
  | Some p =>
      match sent c !! p with
      | Some v => RecvOk v
      | None => if open c then RecvEmpty else RecvClosed
      end
  | None => RecvClosed
  end.

#[global] Instance list_net : Broadcast := {
  Net := list chan;
  Sender := nat;
  Receiver := nat * nat;
  net_new := [];
  channel _ net := (length net, net ++ [mkChan true [] []]);
  subscribe s net :=
    ((s, match net !! s with Some c => length (subs c) | None => 0%nat end),
     alter (λ c, mkChan (open c) (sent c) (subs c ++ [length (sent c)])) s net);
  send s v net := alter (λ c, mkChan (open c) (sent c ++ [v]) (subs c)) s net;
  drop_sender s net := alter (λ c, mkChan false (sent c) (subs c)) s net;
  recv r net := match net !! r.1 with Some c => recv_on c r.2 | None => RecvClosed end;
}.

Definition net_alive (s : nat) (net : list chan) : Prop :=
  ∃ c, net !! s = Some c ∧ open c = true.

Definition net_subscribed (r : nat * nat) (net : list chan) : Prop :=
  ∃ c p, net !! r.1 = Some c ∧ subs c !! r.2 = Some p ∧ (p ≤ length (sent c))%nat.

(** Changing one channel leaves the others as they are. *)
Lemma recv_alter_ne r s f (net : Net) : r.1 ≠ s → recv r (alter f s net : Net) = recv r net.
Proof. intros Hne. simpl. by rewrite list_lookup_alter_ne. Qed.

Lemma alive_alter s s' f (net : list chan) :
  (∀ c, open (f c) = open c) → net_alive s' net → net_alive s' (alter f s net).
Proof.
  intros Hf (c & Hc & Ho). unfold net_alive. rewrite list_lookup_alter. case_decide.
  - subst. rewrite Hc. exists (f c). by rewrite Hf.
  - eauto.
Qed.

Lemma subscribed_alter r s f (net : list chan) :
  (∀ c, subs c `prefix_of` subs (f c)) → (∀ c, length (sent c) ≤ length (sent (f c)))%nat →
  net_subscribed r net → net_subscribed r (alter f s net).
Proof.
  intros Hs Hl (c & p & Hc & Hp & Hle). unfold net_subscribed. rewrite list_lookup_alter.
  case_decide; [|eauto]. subst. rewrite Hc. exists (f c), p. split; [done|].
  split; [by eapply prefix_lookup_Some|]. specialize (Hl c). lia.
Qed.

#[global] Instance list_net_laws : BroadcastLaws.
Proof.
  refine {| alive := net_alive; source := fst; subscribed := net_subscribed |}; simpl.
  - intros _ net s net' [= <- <-]. split_and!.
    + exists (mkChan true [] []). by rewrite lookup_app_r, Nat.sub_diag.
    + intros (c & Hc & _). apply lookup_lt_Some in Hc. lia.
    + intros s' (c & Hc & Ho). exists c. by rewrite lookup_app_l by (by eapply lookup_lt_Some).
    + intros r (c & p & Hc & Hp & Hle). pose proof (lookup_lt_Some _ _ _ Hc) as Hlt.
      split; [lia|]. split; [exists c, p|]; by rewrite lookup_app_l.
  - intros s net r net' [= <- <-] (c & Hc & Ho). simpl. split_and!; [done|..].
    + unfold net_subscribed; simpl. rewrite list_lookup_alter_eq, Hc. simpl.
      eexists _, _. split; [done|]. simpl. rewrite lookup_app_r, Nat.sub_diag by done. done.
    + rewrite list_lookup_alter_eq, Hc. unfold recv_on. simpl.
      rewrite lookup_app_r, Nat.sub_diag by done. simpl. rewrite lookup_ge_None_2 by done. by rewrite Ho.
    + intros s'. by apply alive_alter.
    + intros r' Hr'. split.
      { revert Hr'. apply subscribed_alter; intros c'; simpl; [by apply prefix_app_r|done]. }
      destruct (decide (r'.1 = s)) as [<-|]; [|by rewrite list_lookup_alter_ne].
      destruct Hr' as (c' & p & Hc' & Hp & _). simplify_eq.
      rewrite list_lookup_alter_eq, Hc. unfold recv_on. simpl.
      by rewrite lookup_app_l, Hp by (by eapply lookup_lt_Some).
  - intros s v net _. split; [intros s'; by apply alive_alter|]. intros r Hr. split_and!.
    + revert Hr. apply subscribed_alter; intros c; simpl; [done|]. rewrite length_app. lia.
    + intros <-. destruct Hr as (c & p & Hc & Hp & Hle). rewrite list_lookup_alter_eq, Hc.
      unfold recv_on. simpl. rewrite Hp. destruct (sent c !! p) eqn:E; [done|]. intros _.
      apply lookup_ge_None in E. rewrite lookup_app_r by done. by replace (p - length (sent c))%nat with 0%nat by lia.
    + intros Hne. by rewrite list_lookup_alter_ne.
  - intros s net _. split.
    { intros s' Hne (c & Hc & Ho). exists c. by rewrite list_lookup_alter_ne. }
    intros r Hr. split_and!.
    + revert Hr. by apply subscribed_alter.
    + intros <-. destruct Hr as (c & p & Hc & Hp & Hle). rewrite list_lookup_alter_eq, Hc.
      unfold recv_on. simpl. rewrite Hp. by destruct (sent c !! p).
    + destruct Hr as (c & p & Hc & Hp & Hle). destruct (decide (r.1 = s)) as [<-|];
        [|by rewrite list_lookup_alter_ne].
      rewrite list_lookup_alter_eq, Hc. unfold recv_on. simpl. rewrite Hp.
      destruct (sent c !! p); [done|]. by destruct (open c).
    + intros Hne. by rewrite list_lookup_alter_ne.
Qed.

End ListNet.

(** A flight of one digest with a second digest in between; the limit is two. *)
Definition coalesce_sample : list action :=
  let d := test_digest x01 in
  [AFast d; ASlow d; AFast d; ASlow (test_digest x02); ASlow d; AFast d].

Lemma check_collapses_witness :
  let d := test_digest x01 in
  let w := (CoalesceManager_with_config 5 2, net_new) in
  is_wait <$> decisions d w coalesce_sample
    = match length (decisions d w coalesce_sample) with
      | O => []
      | S k => false :: join_pattern (max_waiters w.1) k
      end.
Proof.
  apply (check_collapses (test_digest x01) (CoalesceManager_with_config 5 2, net_new)
           coalesce_sample); vm_compute; reflexivity.
Defined.

Lemma waiters_resolved_witness :
  let d := test_digest x01 in
  let w := acts (CoalesceManager_with_config 5 2, net_new) [ASlow d] in
  recv (0%nat, 0%nat) (acts (act (AFast d) w).2 [AComplete d CoalesceResult_Ready]).2
    = outcome d [AComplete d CoalesceResult_Ready].
Proof.
  apply (@waiters_resolved ListNet.list_net ListNet.list_net_laws 5 2 net_new [ASlow (test_digest x01)] (test_digest x01)
           (AFast (test_digest x01)) (0%nat, 0%nat)); vm_compute; reflexivity.
Defined.
