(* ===== verification/VclSyntax.v ===== *)
(** * VCL: tokens, syntax trees and errors

    Models [rv-vcl/src/token.rs], [ast.rs] and [error.rs]: the token kinds with
    their [Display], the syntax tree of a program, and the two kinds of error. *)

From S2P Require Import Prelude RustStr F64.
Local Open Scope Z_scope.

(** What the VCL crate uses of [core::fmt]: [Display] of a float and [Debug] of a
    character up to U+00FF. *)
Class CoreFmt := {
  fmt_f64 : f64 → bytes;
  char_debug : byte → bytes;
}.

(* ------------------------------------------------------------------ *)
(** ** Tokens *)

Module TokenKind.

Inductive t : Set :=
| Ident (s : bytes)
| StringLit (s : bytes)
| IntLit (v : Z)
| RealLit (v : f64)
| DurationLit (v : f64)
| BoolLit (v : bool)
| Vcl | Backend | Probe | Acl | Sub | Import | If | ElseIf | Else | Return | Set_ | Unset | Call
| New | Include | Synthetic | Ban
| Eq | Neq | Match | NotMatch | And | Or | Not | Plus | Minus | Star | Slash | Assign | PlusAssign
| MinusAssign | Gt | Lt | Gte | Lte
| LBrace | RBrace | LParen | RParen | Semicolon | Comma | Dot
| Eof.

(** Leibniz equality; the code compares with kinds that carry no float only. *)
#[global] Instance eq_dec : EqDecision t.
Proof. solve_decision. Defined.

Definition display `{CoreFmt} (k : t) : bytes :=
  match k with
  | Ident s => str "identifier `" ++ s ++ str "`"
  | StringLit s => str "string " ++ [x22] ++ s ++ [x22]
  | IntLit v => str "integer " ++ show_i64 v
  | RealLit v => str "real " ++ fmt_f64 v
  | DurationLit v => str "duration " ++ fmt_f64 v ++ str "s"
  | BoolLit v => str "bool " ++ (if v then str "true" else str "false")
  | Vcl => str "vcl" | Backend => str "backend" | Probe => str "probe" | Acl => str "acl"
  | Sub => str "sub" | Import => str "import" | If => str "if" | ElseIf => str "elseif"
  | Else => str "else" | Return => str "return" | Set_ => str "set" | Unset => str "unset"
  | Call => str "call" | New => str "new" | Include => str "include"
  | Synthetic => str "synthetic" | Ban => str "ban"
  | Eq => str "==" | Neq => str "!=" | Match => str "~" | NotMatch => str "!~"
  | And => str "&&" | Or => str "||" | Not => str "!" | Plus => str "+" | Minus => str "-"
  | Star => str "*" | Slash => str "/" | Assign => str "=" | PlusAssign => str "+="
  | MinusAssign => str "-=" | Gt => str ">" | Lt => str "<" | Gte => str ">=" | Lte => str "<="
  | LBrace => str "{" | RBrace => str "}" | LParen => str "(" | RParen => str ")"
  | Semicolon => str ";" | Comma => str "," | Dot => str "."
  | Eof => str "EOF"
  end.

End TokenKind.

Record Token : Set := mkToken {
  kind : TokenKind.t;
  tok_line : Z;
  tok_col : Z;
}.

Inductive VclError : Set :=
| LexError (message : bytes) (line col : Z)
| ParseError (message : bytes) (line col : Z).

(* ------------------------------------------------------------------ *)
(** ** Syntax trees *)

Module BinOp.

Inductive t : Set := Eq | Neq | Gt | Lt | Gte | Lte | Match | NotMatch | And | Or | Add | Sub | Mul | Div.

#[global] Instance eq_dec : EqDecision t.
Proof. solve_decision. Defined.

End BinOp.

Module UnaryOp.

Inductive t : Set := Not | Negate.

End UnaryOp.

Module SetOp.

Inductive t : Set := Assign | Add | Subtract.

#[global] Instance eq_dec : EqDecision t.
Proof. solve_decision. Defined.

End SetOp.

Module Expr.

Inductive t : Set :=
| StringLit (s : bytes)
| IntLit (v : Z)
| RealLit (v : f64)
| DurationLit (v : f64)
| BoolLit (v : bool)
| Ident (name : bytes)
| Variable_ (name : bytes)
| HeaderRef (object header : bytes)
| BinaryOp (left : t) (op : BinOp.t) (right : t)
| UnaryOp (op : UnaryOp.t) (operand : t)
| FunctionCall (name : bytes) (args : list t)
| MethodCall (object : t) (method : bytes) (args : list t)
| RegexLit (pattern : bytes)
| Concat (parts : list t).

(** Induction with a hypothesis for every argument of a call. *)
Lemma expr_ind_nested (P : t → Prop) :
  (∀ s, P (StringLit s)) → (∀ v, P (IntLit v)) → (∀ v, P (RealLit v)) → (∀ v, P (DurationLit v)) →
  (∀ v, P (BoolLit v)) → (∀ n, P (Ident n)) → (∀ n, P (Variable_ n)) → (∀ o h, P (HeaderRef o h)) →
  (∀ l op r, P l → P r → P (BinaryOp l op r)) → (∀ op e, P e → P (UnaryOp op e)) →
  (∀ n args, Forall P args → P (FunctionCall n args)) →
  (∀ o m args, P o → Forall P args → P (MethodCall o m args)) →
  (∀ p, P (RegexLit p)) → (∀ parts, Forall P parts → P (Concat parts)) →
  ∀ e, P e.
Proof.
  intros H1 H2 H3 H4 H5 H6 H7 H8 H9 H10 H11 H12 H13 H14. fix IH 1. intros e.
  assert (HF : ∀ l, Forall P l).
  { fix IHl 1. intros [|x l]; constructor; [apply IH|apply IHl]. }
  destruct e; [apply H1|apply H2|apply H3|apply H4|apply H5|apply H6|apply H7|apply H8|apply H9; apply IH
    |apply H10; apply IH|apply H11; apply HF|apply H12; [apply IH|apply HF]|apply H13|apply H14; apply HF].
Qed.

End Expr.

Module Statement.

Inductive t : Set :=
| Set_ (target : bytes) (operator : SetOp.t) (value : Expr.t)
| Unset (target : bytes)
| Call (subroutine : bytes)
| Return (action : Expr.t)
| If (condition : Expr.t) (body : list t) (else_ifs : list (Expr.t * list t))
    (else_body : option (list t))
| Synthetic (expr : Expr.t)
| New (name type_name : bytes) (args : list Expr.t)
| ExprStatement (e : Expr.t)
| Ban (expr : Expr.t).

(** Induction with hypotheses for the statements of every block. *)
Lemma stmt_ind_nested (P : t → Prop) :
  (∀ x o v, P (Set_ x o v)) → (∀ x, P (Unset x)) → (∀ s, P (Call s)) → (∀ a, P (Return a)) →
  (∀ c body elses els,
     Forall P body → Forall (λ br, Forall P br.2) elses →
     match els with Some b => Forall P b | None => True end → P (If c body elses els)) →
  (∀ e, P (Synthetic e)) → (∀ n ty args, P (New n ty args)) → (∀ e, P (ExprStatement e)) →
  (∀ e, P (Ban e)) → ∀ s, P s.
Proof.
  intros H1 H2 H3 H4 H5 H6 H7 H8 H9. fix IH 1. intros s.
  assert (HF : ∀ l, Forall P l).
  { fix IHl 1. intros [|x l]; constructor; [apply IH|apply IHl]. }
  destruct s as [| | | |c body elses els| | | |];
    [apply H1|apply H2|apply H3|apply H4|apply H5|apply H6|apply H7|apply H8|apply H9].
  - apply HF.
  - revert elses. fix IHe 1. intros [|[e b] elses]; constructor; [apply HF|apply IHe].
  - destruct els; [apply HF|exact Logic.I].
Qed.

End Statement.

Record ImportDecl : Set := mkImport { import_name : bytes }.

Record ProbeDecl : Set := mkProbe {
  probe_name : option bytes;
  probe_properties : list (bytes * Expr.t);
}.

Record BackendDecl : Set := mkBackend {
  backend_name : bytes;
  backend_properties : list (bytes * Expr.t);
  backend_probe : option ProbeDecl;
}.

Record AclEntry : Set := mkAclEntry { acl_negate : bool; acl_addr : bytes; acl_mask : option Z }.

Record AclDecl : Set := mkAcl { acl_name : bytes; acl_entries : list AclEntry }.

Record SubDecl : Set := mkSub { sub_name : bytes; sub_body : list Statement.t }.

Record VclProgram : Set := mkProgram {
  version : option bytes;
  imports : list ImportDecl;
  backends : list BackendDecl;
  probes : list ProbeDecl;
  acls : list AclDecl;
  subs : list SubDecl;
}.

(* ------------------------------------------------------------------ *)
(** ** Running out of fuel

    The lexer's and the parser's loops carry a bound; [None] is its end, which
    the theorems exclude. *)

Definition bounded (A : Type) : Type := option (result A VclError).

Definition bounded_bind {A B} (m : bounded A) (k : A → bounded B) : bounded B :=
  match m with
  | Some (Ok a) => k a
  | Some (Err e) => Some (Err e)
  | None => None
  end.

Declare Scope vcl_scope.
Delimit Scope vcl_scope with vcl.
Notation "x ←! m ; k" := (bounded_bind m (λ x, k))
  (at level 20, m at level 100, k at level 200, right associativity) : vcl_scope.
Notation "' p ←! m ; k" := (bounded_bind m (λ x, match x with p => k end))
  (at level 20, p pattern, m at level 100, k at level 200, right associativity) : vcl_scope.

Lemma bounded_bind_ok {A B} (m : bounded A) (k : A → bounded B) b :
  bounded_bind m k = Some (Ok b) ↔ ∃ a, m = Some (Ok a) ∧ k a = Some (Ok b).
Proof. destruct m as [[a|e]|]; simpl; naive_solver. Qed.
