(* ===== verification/Lexer.v ===== *)
(** * The VCL lexer

    Models [rv-vcl/src/lexer.rs].  The lexer's state is the rest of the source
    with the line and the column it starts at; [pos] is the length of what has
    been read.  The source is a [&str], so its bytes are UTF-8, but nothing
    depends on it: the lexer works byte by byte and turns each byte of a literal
    into the character of that number. *)

From S2P Require Import Prelude RustStr F64 VclSyntax.
Local Open Scope Z_scope.
Local Open Scope vcl_scope.

Record lexer : Set := mkLexer {
  lx_source : bytes;
  lx_line : Z;
  lx_col : Z;
}.

Definition Lexer_new (source : bytes) : lexer := mkLexer source 1 1.

Definition lexer_peek (l : lexer) : option byte := head (lx_source l).

Definition lexer_peek_ahead (l : lexer) (offset : nat) : option byte := lx_source l !! offset.

(** The position after a byte. *)
Definition next_line (ch : byte) (line : Z) : Z := if decide (ch = x0a) then line + 1 else line.
Definition next_col (ch : byte) (col : Z) : Z := if decide (ch = x0a) then 1 else col + 1.

Definition lexer_advance (l : lexer) : option byte * lexer :=
  match lx_source l with
  | ch :: rest => (Some ch, mkLexer rest (next_line ch (lx_line l)) (next_col ch (lx_col l)))
  | [] => (None, l)
  end.

Definition is_space (ch : byte) : bool :=
  bool_decide (ch = x20 ∨ ch = x09 ∨ ch = x0a ∨ ch = x0d).
Definition is_ascii_digit : byte → bool := byte_in 48 57.
Definition is_ascii_alphabetic (b : byte) : bool := byte_in 65 90 b || byte_in 97 122 b.
Definition is_ascii_alphanumeric (b : byte) : bool := is_ascii_alphabetic b || is_ascii_digit b.

(** [s.push(ch as char)]: the UTF-8 of the character U+00ch. *)
Definition push_char (ch : byte) : bytes :=
  if u8_val ch <? 128 then [ch]
  else [u8_of (192 + Z.shiftr (u8_val ch) 6); u8_of (128 + Z.land (u8_val ch) 63)].

(* ------------------------------------------------------------------ *)
(** ** Whitespace and comments *)

Fixpoint skip_whitespace_from (s : bytes) (line col : Z) : lexer :=
  match s with
  | ch :: rest =>
      if is_space ch then skip_whitespace_from rest (next_line ch line) (next_col ch col)
      else mkLexer s line col
  | [] => mkLexer s line col
  end.
Definition skip_whitespace (l : lexer) : lexer :=
  skip_whitespace_from (lx_source l) (lx_line l) (lx_col l).

Fixpoint skip_line_comment_from (s : bytes) (line col : Z) : lexer :=
  match s with
  | ch :: rest =>
      if decide (ch = x0a) then mkLexer rest (next_line ch line) (next_col ch col)
      else skip_line_comment_from rest (next_line ch line) (next_col ch col)
  | [] => mkLexer s line col
  end.
Definition skip_line_comment (l : lexer) : lexer :=
  skip_line_comment_from (lx_source l) (lx_line l) (lx_col l).

Fixpoint skip_block_comment_from (s : bytes) (line col : Z) : option lexer :=
  match s with
  | ch :: rest =>
      let line := next_line ch line in
      let col := next_col ch col in
      if decide (ch = x2a) then
        match rest with
        | c :: rest' =>
            if decide (c = x2f) then Some (mkLexer rest' (next_line c line) (next_col c col))
            else skip_block_comment_from rest line col
        | [] => None
        end
      else skip_block_comment_from rest line col
  | [] => None
  end.
Definition skip_block_comment (l : lexer) : result lexer VclError :=
  ok_or (skip_block_comment_from (lx_source l) (lx_line l) (lx_col l))
    (LexError (str "unterminated block comment") (lx_line l) (lx_col l)).

(** [self.advance(); self.advance();], and so on. *)
Definition drop1 (l : lexer) : lexer := (lexer_advance l).2.

Fixpoint skip_comments_and_whitespace (fuel : nat) (l : lexer) : bounded lexer :=
  match fuel with
  | O => None
  | S fuel =>
      let l := skip_whitespace l in
      if decide (lexer_peek l = Some x2f) then
        if decide (lexer_peek_ahead l 1 = Some x2f) then
          skip_comments_and_whitespace fuel (skip_line_comment (drop1 (drop1 l)))
        else if decide (lexer_peek_ahead l 1 = Some x2a) then
          l ←! Some (skip_block_comment (drop1 (drop1 l)));
          skip_comments_and_whitespace fuel l
        else Some (Ok l)
      else if decide (lexer_peek l = Some x23) then
        skip_comments_and_whitespace fuel (skip_line_comment (drop1 l))
      else Some (Ok l)
  end.

(* ------------------------------------------------------------------ *)
(** ** Strings *)

(** The character of an escape sequence. *)
Definition unescape (ch : byte) : bytes :=
  if decide (ch = x6e) then [x0a]
  else if decide (ch = x74) then [x09]
  else if decide (ch = x72) then [x0d]
  else if decide (ch = x5c) then [x5c]
  else if decide (ch = x22) then [x22]
  else x5c :: push_char ch.

(** The literal's characters after [acc] and the state behind its closing quote. *)
Fixpoint read_string_from (s : bytes) (line col : Z) (acc : bytes) : option (bytes * lexer) :=
  match s with
  | ch :: rest =>
      let line := next_line ch line in
      let col := next_col ch col in
      if decide (ch = x5c) then
        match rest with
        | c :: rest =>
            read_string_from rest (next_line c line) (next_col c col) (acc ++ unescape c)
        | [] => None
        end
      else if decide (ch = x22) then Some (acc, mkLexer rest line col)
      else read_string_from rest line col (acc ++ push_char ch)
  | [] => None
  end.
Definition read_string (l : lexer) : result (bytes * lexer) VclError :=
  ok_or (read_string_from (lx_source l) (lx_line l) (lx_col l) [])
    (LexError (str "unterminated string literal") (lx_line l) (lx_col l)).

Fixpoint read_long_string_from (s : bytes) (line col : Z) (acc : bytes) : option (bytes * lexer) :=
  match s with
  | ch :: rest =>
      let line := next_line ch line in
      let col := next_col ch col in
      if decide (ch = x22) then
        match rest with
        | c :: rest' =>
            if decide (c = x7d) then Some (acc, mkLexer rest' (next_line c line) (next_col c col))
            else read_long_string_from rest line col (acc ++ [x22])
        | [] => None
        end
      else read_long_string_from rest line col (acc ++ push_char ch)
  | [] => None
  end.
Definition read_long_string (l : lexer) : result (bytes * lexer) VclError :=
  ok_or (read_long_string_from (lx_source l) (lx_line l) (lx_col l) [])
    (LexError (str "unterminated long string literal") (lx_line l) (lx_col l)).

(* ------------------------------------------------------------------ *)
(** ** Numbers *)

(** The [while] of [read_number]: digits, with at most one dot between digits. *)
Fixpoint read_digits_from (s : bytes) (col : Z) (num : bytes) (is_real : bool) :
    bytes * bool * bytes * Z :=
  match s with
  | ch :: rest =>
      if is_ascii_digit ch then read_digits_from rest (col + 1) (num ++ [ch]) is_real
      else if bool_decide (ch = x2e) && negb is_real
              && match rest with next :: _ => is_ascii_digit next | [] => false end
      then read_digits_from rest (col + 1) (num ++ [x2e]) true
      else (num, is_real, s, col)
  | [] => (num, is_real, s, col)
  end.

Definition duration_seconds (suffix : byte) (val : f64) : f64 :=
  if decide (suffix = x73) then val
  else if decide (suffix = x6d) then f64_mul val (f64_of_Z 60)
  else if decide (suffix = x68) then f64_mul val (f64_of_Z 3600)
  else f64_mul val (f64_of_Z 86400).

Definition parse_real (what num : bytes) (l : lexer) : result f64 VclError :=
  ok_or (parse_f64 num) (LexError (what ++ num) (lx_line l) (lx_col l)).

Local Open Scope rust_scope.

(** After the digits: no duration suffix. *)
Definition plain_number (num : bytes) (is_real : bool) (l : lexer) :
    result (TokenKind.t * lexer) VclError :=
  if is_real then
    val ←? parse_real (str "invalid real number: ") num l; Ok (TokenKind.RealLit val, l)
  else
    val ←? ok_or (parse_i64 num)
             (LexError (str "invalid integer: " ++ num) (lx_line l) (lx_col l));
    Ok (TokenKind.IntLit val, l).

Definition read_number (first : byte) (l : lexer) : result (TokenKind.t * lexer) VclError :=
  let '(num, is_real, s, col) := read_digits_from (lx_source l) (lx_col l) [first] false in
  let l := mkLexer s (lx_line l) col in
  match lexer_peek l with
  | Some ch =>
      if decide (ch = x73 ∨ ch = x6d ∨ ch = x68 ∨ ch = x64) then
        let after := drop1 l in
        if bool_decide (ch = x6d) && bool_decide (lexer_peek after = Some x73) then
          let after := drop1 after in
          val ←? parse_real (str "invalid number: ") num after;
          Ok (TokenKind.DurationLit (f64_div val (f64_of_Z 1000)), after)
        else
          (** A letter, digit or underscore behind the suffix: rewind. *)
          if match lexer_peek after with
             | Some next => is_ascii_alphanumeric next || bool_decide (next = x5f)
             | None => false
             end
          then plain_number num is_real l
          else
            val ←? parse_real (str "invalid number: ") num after;
            Ok (TokenKind.DurationLit (duration_seconds ch val), after)
      else plain_number num is_real l
  | None => plain_number num is_real l
  end.

(* ------------------------------------------------------------------ *)
(** ** Identifiers *)

Definition ident_char (ch : byte) : bool :=
  is_ascii_alphanumeric ch || bool_decide (ch = x5f) || bool_decide (ch = x2d).

Fixpoint read_ident_from (s : bytes) (col : Z) (ident : bytes) : bytes * bytes * Z :=
  match s with
  | ch :: rest =>
      if ident_char ch then read_ident_from rest (col + 1) (ident ++ [ch]) else (ident, s, col)
  | [] => (ident, s, col)
  end.

Definition keywords : list (bytes * TokenKind.t) :=
  [(str "vcl", TokenKind.Vcl); (str "backend", TokenKind.Backend); (str "probe", TokenKind.Probe);
   (str "acl", TokenKind.Acl); (str "sub", TokenKind.Sub); (str "import", TokenKind.Import);
   (str "if", TokenKind.If); (str "elsif", TokenKind.ElseIf); (str "elif", TokenKind.ElseIf);
   (str "elseif", TokenKind.ElseIf); (str "else", TokenKind.Else);
   (str "return", TokenKind.Return); (str "set", TokenKind.Set_); (str "unset", TokenKind.Unset);
   (str "call", TokenKind.Call); (str "new", TokenKind.New); (str "include", TokenKind.Include);
   (str "synthetic", TokenKind.Synthetic); (str "ban", TokenKind.Ban);
   (str "true", TokenKind.BoolLit true); (str "false", TokenKind.BoolLit false)].

Definition read_ident (first : byte) (l : lexer) : TokenKind.t * lexer :=
  let '(ident, s, col) := read_ident_from (lx_source l) (lx_col l) [first] in
  (default (TokenKind.Ident ident) (match_str keywords ident), mkLexer s (lx_line l) col).

(* ------------------------------------------------------------------ *)
(** ** Tokens *)

Section lexer.
  Context `{CoreFmt}.

(** [if self.peek() == Some(c) { self.advance(); yes } else { no }] *)
Definition with_second (c : byte) (yes no : TokenKind.t) (l : lexer) : TokenKind.t * lexer :=
  if decide (lexer_peek l = Some c) then (yes, drop1 l) else (no, l).

(** The [match ch] of [next_token]; [line] and [col] are those of [ch]. *)
Definition token_of (ch : byte) (line col : Z) (l : lexer) : result (TokenKind.t * lexer) VclError :=
  if decide (ch = x7b) then
    if decide (lexer_peek l = Some x22) then
      '(s, l) ←? read_long_string (drop1 l); Ok (TokenKind.StringLit s, l)
    else Ok (TokenKind.LBrace, l)
  else if decide (ch = x7d) then Ok (TokenKind.RBrace, l)
  else if decide (ch = x28) then Ok (TokenKind.LParen, l)
  else if decide (ch = x29) then Ok (TokenKind.RParen, l)
  else if decide (ch = x3b) then Ok (TokenKind.Semicolon, l)
  else if decide (ch = x2c) then Ok (TokenKind.Comma, l)
  else if decide (ch = x2e) then Ok (TokenKind.Dot, l)
  else if decide (ch = x7e) then Ok (TokenKind.Match, l)
  else if decide (ch = x2a) then Ok (TokenKind.Star, l)
  else if decide (ch = x2b) then Ok (with_second x3d TokenKind.PlusAssign TokenKind.Plus l)
  else if decide (ch = x2d) then Ok (with_second x3d TokenKind.MinusAssign TokenKind.Minus l)
  else if decide (ch = x2f) then Ok (TokenKind.Slash, l)
  else if decide (ch = x3d) then Ok (with_second x3d TokenKind.Eq TokenKind.Assign l)
  else if decide (ch = x21) then
    if decide (lexer_peek l = Some x3d) then Ok (TokenKind.Neq, drop1 l)
    else if decide (lexer_peek l = Some x7e) then Ok (TokenKind.NotMatch, drop1 l)
    else Ok (TokenKind.Not, l)
  else if decide (ch = x26) then
    if decide (lexer_peek l = Some x26) then Ok (TokenKind.And, drop1 l)
    else Err (LexError (str "expected `&&`, found single `&`") line col)
  else if decide (ch = x7c) then
    if decide (lexer_peek l = Some x7c) then Ok (TokenKind.Or, drop1 l)
    else Err (LexError (str "expected `||`, found single `|`") line col)
  else if decide (ch = x3e) then Ok (with_second x3d TokenKind.Gte TokenKind.Gt l)
  else if decide (ch = x3c) then Ok (with_second x3d TokenKind.Lte TokenKind.Lt l)
  else if decide (ch = x22) then
    '(s, l) ←? read_string l; Ok (TokenKind.StringLit s, l)
  else if is_ascii_digit ch then read_number ch l
  else if is_ascii_alphabetic ch || bool_decide (ch = x5f) then Ok (read_ident ch l)
  else Err (LexError (str "unexpected character: " ++ char_debug ch) line col).

Definition next_token (fuel : nat) (l : lexer) : bounded (Token * lexer) :=
  (l ←! skip_comments_and_whitespace fuel l;
   match lexer_advance l with
   | (None, l) => Some (Ok (mkToken TokenKind.Eof (lx_line l) (lx_col l), l))
   | (Some ch, l') =>
       '(k, l') ←! Some (token_of ch (lx_line l) (lx_col l) l');
       Some (Ok (mkToken k (lx_line l) (lx_col l), l'))
   end)%vcl.

(** The [loop] of [tokenize]. *)
Fixpoint tokenize_loop (fuel : nat) (l : lexer) (tokens : list Token) : bounded (list Token) :=
  match fuel with
  | O => None
  | S fuel =>
      ('(tok, l) ←! next_token (S (length (lx_source l))) l;
       if decide (kind tok = TokenKind.Eof) then Some (Ok (tokens ++ [tok]))
       else tokenize_loop fuel l (tokens ++ [tok]))%vcl
  end.

Definition tokenize (source : bytes) : bounded (list Token) :=
  tokenize_loop (S (length source)) (Lexer_new source) [].


(* ------------------------------------------------------------------ *)
(** ** Progress *)

Definition src_left (l : lexer) : nat := length (lx_source l).

Lemma drop1_left l : (src_left (drop1 l) ≤ src_left l)%nat.
Proof. unfold drop1, lexer_advance, src_left. destruct (lx_source l) eqn:E; simpl; rewrite ?E; simpl; lia. Qed.

Lemma drop1_peek l c : lexer_peek l = Some c → (src_left (drop1 l) < src_left l)%nat.
Proof. unfold drop1, lexer_advance, src_left, lexer_peek. destruct (lx_source l); simpl; [done|]. lia. Qed.

Lemma skip_whitespace_left l : (src_left (skip_whitespace l) ≤ src_left l)%nat.
Proof.
  unfold skip_whitespace, src_left. generalize (lx_line l) (lx_col l).
  induction (lx_source l) as [|c s IH]; intros line col; simpl; [done|].
  destruct (is_space c); simpl; [|done]. specialize (IH (next_line c line) (next_col c col)). lia.
Qed.

Lemma skip_line_comment_left l : (src_left (skip_line_comment l) ≤ src_left l)%nat.
Proof.
  unfold skip_line_comment, src_left. generalize (lx_line l) (lx_col l).
  induction (lx_source l) as [|c s IH]; intros line col; simpl; [done|].
  case_decide; simpl; [lia|]. specialize (IH (next_line c line) (next_col c col)). lia.
Qed.

Lemma skip_block_comment_left l l' : skip_block_comment l = Ok l' → (src_left l' ≤ src_left l)%nat.
Proof.
  unfold skip_block_comment. rewrite ok_or_ok. unfold src_left. generalize (lx_line l) (lx_col l).
  induction (lx_source l) as [|c s IH]; intros line col; simpl; [done|].
  case_decide; [|intros ?%IH; lia]. destruct s as [|c' s']; [done|].
  case_decide; [intros [= <-]; simpl; lia|intros ?%IH; simpl in *; lia].
Qed.

Lemma read_string_left l s l' : read_string l = Ok (s, l') → (src_left l' ≤ src_left l)%nat.
Proof.
  unfold read_string. rewrite ok_or_ok. unfold src_left. generalize (@nil byte) (lx_line l) (lx_col l).
  induction (lx_source l) as [src IH] using (well_founded_induction (well_founded_ltof _ length)).
  intros acc line col. destruct src as [|c src]; simpl; [done|].
  case_decide; [destruct src as [|c' src]; [done|intros ?%IH; unfold ltof in *; simpl in *; lia]|].
  case_decide; [intros [= _ <-]; simpl; lia|]. intros ?%IH; unfold ltof in *; simpl in *; lia.
Qed.

Lemma read_long_string_left l s l' : read_long_string l = Ok (s, l') → (src_left l' ≤ src_left l)%nat.
Proof.
  unfold read_long_string. rewrite ok_or_ok. unfold src_left. generalize (@nil byte) (lx_line l) (lx_col l).
  induction (lx_source l) as [|c src IH]; intros acc line col; simpl; [done|].
  case_decide; [|intros ?%IH; lia]. destruct src as [|c' s']; [done|].
  case_decide; [intros [= _ <-]; simpl; lia|intros ?%IH; simpl in *; lia].
Qed.

Lemma read_digits_left s : ∀ col num real,
  let '(_, _, s', _) := read_digits_from s col num real in (length s' ≤ length s)%nat.
Proof.
  induction s as [|c s IH]; intros col num real; simpl; [done|].
  destruct (is_ascii_digit c); [|destruct (_ && _ && _); [|done]];
    match goal with |- context [read_digits_from s ?a ?b ?r] =>
      specialize (IH a b r); destruct (read_digits_from s a b r) as [[[n r'] s'] col'] end; simpl in *; lia.
Qed.

Lemma plain_number_left num real l k l' : plain_number num real l = Ok (k, l') → l' = l.
Proof.
  unfold plain_number. destruct real; rewrite result_bind_ok; intros (v & _ & [= _ <-]); done.
Qed.

Lemma read_number_left c l k l' : read_number c l = Ok (k, l') → (src_left l' ≤ src_left l)%nat.
Proof.
  unfold read_number. pose proof (read_digits_left (lx_source l) (lx_col l) [c] false) as Hd.
  destruct (read_digits_from _ _ _ _) as [[[num real] s'] col'].
  set (l1 := mkLexer s' (lx_line l) col'). change (src_left l1 ≤ src_left l)%nat in Hd.
  pose proof (drop1_left l1). pose proof (drop1_left (drop1 l1)).
  destruct (lexer_peek l1) as [ch|]; [|intros ->%plain_number_left; lia].
  case_decide; [|intros ->%plain_number_left; lia].
  destruct (_ && _).
  - rewrite result_bind_ok. intros (v & _ & [= _ <-]). lia.
  - destruct (match lexer_peek (drop1 l1) with Some _ => _ | None => _ end).
    + intros ->%plain_number_left. lia.
    + rewrite result_bind_ok. intros (v & _ & [= _ <-]). lia.
Qed.

Lemma read_ident_left c l : (src_left (read_ident c l).2 ≤ src_left l)%nat.
Proof.
  unfold read_ident, src_left. generalize (lx_col l) [c]. induction (lx_source l) as [|b s IH]; intros col i; simpl; [done|].
  destruct (ident_char b); [|done]. specialize (IH (col + 1) (i ++ [b])).
  destruct (read_ident_from s _ _) as [[i' s'] col']. simpl in *. lia.
Qed.

Lemma peek_left l c : lexer_peek l = Some c → (0 < src_left l)%nat.
Proof. unfold lexer_peek, src_left. destruct (lx_source l); simpl; [done|lia]. Qed.

(** The comment loop ends, each comment being at least one byte. *)
Lemma skip_comments_total fuel : ∀ l,
  (src_left l < fuel)%nat →
  ∃ r, skip_comments_and_whitespace fuel l = Some r
    ∧ ∀ l', r = Ok l' → (src_left l' ≤ src_left l)%nat.
Proof.
  induction fuel as [|fuel IH]; intros l Hf; [lia|]. cbn [skip_comments_and_whitespace].
  pose proof (skip_whitespace_left l) as Hw. set (l1 := skip_whitespace l) in *.
  assert (Hstop : ∃ r, Some (Ok (E := VclError) l1) = Some r ∧ ∀ l', r = Ok l' → (src_left l' ≤ src_left l)%nat).
  { eexists. split; [done|]. by intros l' [= <-]. }
  assert (Hnext : ∀ l2, (src_left l2 < src_left l1)%nat →
    ∃ r, skip_comments_and_whitespace fuel l2 = Some r ∧ ∀ l', r = Ok l' → (src_left l' ≤ src_left l)%nat).
  { intros l2 H2. destruct (IH l2 ltac:(lia)) as (r & E & Hr). exists r. split; [done|].
    intros l' ->. specialize (Hr l' eq_refl). lia. }
  case_decide as Hp.
  - pose proof (drop1_peek _ _ Hp). pose proof (drop1_left (drop1 l1)).
    pose proof (skip_line_comment_left (drop1 (drop1 l1))).
    case_decide; [apply Hnext; lia|]. case_decide; [|done].
    destruct (skip_block_comment (drop1 (drop1 l1))) as [l2|e] eqn:E; simpl.
    + apply skip_block_comment_left in E. apply Hnext. lia.
    + by eexists.
  - case_decide as Hh; [|done]. pose proof (drop1_peek _ _ Hh).
    pose proof (skip_line_comment_left (drop1 l1)). apply Hnext. lia.
Qed.

Lemma keyword_not_eof s : default (TokenKind.Ident s) (match_str keywords s) ≠ TokenKind.Eof.
Proof. unfold keywords. cbn [match_str]. repeat (case_decide; [done|]). done. Qed.

(** Every token but the last one reads at least its first byte. *)
Lemma token_of_spec ch line col l k l' :
  token_of ch line col l = Ok (k, l') → k ≠ TokenKind.Eof ∧ (src_left l' ≤ src_left l)%nat.
Proof.
  pose proof (drop1_left l) as Hd. unfold token_of, with_second.
  repeat match goal with
  | |- (if decide ?P then _ else _) = _ → _ => destruct (decide P)
  | |- Ok (if decide ?P then _ else _) = _ → _ => destruct (decide P)
  | |- Ok (_, _) = _ → _ => intros [= <- <-]; split; [done|lia]
  | |- Err _ = _ → _ => done
  end.
  - rewrite result_bind_ok. intros ([s l1] & E%read_long_string_left & [= <- <-]). split; [done|lia].
  - rewrite result_bind_ok. intros ([s l1] & E%read_string_left & [= <- <-]). split; [done|lia].
  - destruct (is_ascii_digit ch).
    + intros Hn. split; [|by eapply read_number_left]. unfold read_number, plain_number in Hn.
      destruct (read_digits_from _ _ _ _) as [[[num real] s'] col'].
      repeat first [case_match | rewrite result_bind_ok in Hn]; naive_solver.
    + destruct (_ || _); [|done]. intros E. assert (E1 : read_ident ch l = (k, l')) by congruence. clear E. rename E1 into E.
      pose proof (read_ident_left ch l) as Hl. rewrite E in Hl. split; [|done].
      unfold read_ident in E. destruct (read_ident_from _ _ _) as [[i s'] col']. injection E as <- _.
      apply keyword_not_eof.
Qed.

Lemma next_token_total l :
  ∃ r, next_token (S (src_left l)) l = Some r
    ∧ ∀ tok l', r = Ok (tok, l') → kind tok ≠ TokenKind.Eof → (src_left l' < src_left l)%nat.
Proof.
  unfold next_token. destruct (skip_comments_total (S (src_left l)) l ltac:(lia)) as (r & E & Hr).
  rewrite E. destruct r as [l1|e]; simpl; [|by eexists]. specialize (Hr l1 eq_refl).
  unfold lexer_advance. destruct (lx_source l1) as [|ch rest] eqn:Es.
  - eexists. split; [done|]. by intros tok l' [= <- <-].
  - match goal with |- context [token_of ch ?a ?b ?c] => destruct (token_of ch a b c) as [[k l2]|e] eqn:Et end;
      simpl; eexists; (split; [done|]); [|done].
    intros tok l' [= <- <-] _. apply token_of_spec in Et as [_ Ht].
    unfold src_left in *. rewrite Es in Hr. simpl in *. lia.
Qed.

Lemma tokenize_loop_total fuel : ∀ l acc,
  (src_left l < fuel)%nat → Forall (λ t, kind t ≠ TokenKind.Eof) acc →
  ∃ r, tokenize_loop fuel l acc = Some r
    ∧ ∀ ts, r = Ok ts → ∃ ts' eof, ts = ts' ++ [eof] ∧ kind eof = TokenKind.Eof
        ∧ Forall (λ t, kind t ≠ TokenKind.Eof) ts'.
Proof.
  induction fuel as [|fuel IH]; intros l acc Hf Hacc; [lia|]. cbn [tokenize_loop].
  change (length (lx_source l)) with (src_left l). destruct (next_token_total l) as (r & E & Hr). rewrite E.
  destruct r as [[tok l']|e]; simpl; [|by eexists].
  case_decide as Hk.
  - eexists. split; [done|]. intros ts [= <-]. by exists acc, tok.
  - specialize (Hr tok l' eq_refl Hk). apply IH; [lia|]. apply Forall_app. by split; [|constructor].
Qed.

(* ------------------------------------------------------------------ *)
(** ** Identifiers *)

Definition plain_ident (s : bytes) : Prop := Forall (λ c, ident_char c = true) s.

Lemma read_ident_plain c l s l' :
  ident_char c = true → read_ident c l = (TokenKind.Ident s, l') → plain_ident s.
Proof.
  intros Hc. unfold read_ident.
  assert (Hi : ∀ src col i, plain_ident i → plain_ident (read_ident_from src col i).1.1).
  { induction src as [|b src IH]; intros col i Hi; simpl; [done|].
    destruct (ident_char b) eqn:Eb; [|done]. apply IH. apply Forall_app. by split; [|constructor]. }
  specialize (Hi (lx_source l) (lx_col l) [c]). destruct (read_ident_from _ _ _) as [[i s'] col'].
  simpl in Hi. intros Heq.
  assert (Hk : default (TokenKind.Ident i) (match_str keywords i) = TokenKind.Ident s) by congruence.
  clear Heq. assert (plain_ident i) by (apply Hi; by constructor).
  destruct (match_str keywords i) as [k|] eqn:E; simpl in Hk; [|by injection Hk as <-].
  exfalso. revert E. rewrite Hk. unfold keywords. cbn [match_str]. repeat (case_decide; [done|]). done.
Qed.

Lemma token_of_ident ch line col l s l' :
  token_of ch line col l = Ok (TokenKind.Ident s, l') → plain_ident s.
Proof.
  unfold token_of, with_second.
  repeat match goal with
  | |- (if decide ?P then _ else _) = _ → _ => destruct (decide P)
  | |- Ok (if decide ?P then _ else _) = _ → _ => destruct (decide P)
  | |- Ok (_, _) = _ → _ => done
  | |- Err _ = _ → _ => done
  end.
  - rewrite result_bind_ok. by intros ([? ?] & _ & ?).
  - rewrite result_bind_ok. by intros ([? ?] & _ & ?).
  - destruct (is_ascii_digit ch) eqn:Ed.
    + intros Hn. exfalso. revert Hn. unfold read_number, plain_number.
      destruct (read_digits_from _ _ _ _) as [[[num real] s'] col'].
      repeat first [case_match | rewrite result_bind_ok]; naive_solver.
    + destruct (_ || _) eqn:Ea; [|done]. intros E.
      apply (read_ident_plain ch l s l'); [|congruence].
      unfold ident_char, is_ascii_alphanumeric. rewrite Ed, orb_false_r, Ea. done.
Qed.

Definition ident_token (I : bytes → Prop) (t : Token) : Prop :=
  match kind t with TokenKind.Ident s => I s | _ => True end.

Lemma next_token_ident fuel l tok l' :
  next_token fuel l = Some (Ok (tok, l')) → ident_token plain_ident tok.
Proof.
  unfold next_token. rewrite bounded_bind_ok. intros (l1 & _ & E). revert E.
  destruct (lexer_advance l1) as [[ch|] l2]; [|by intros [= <- _]].
  rewrite bounded_bind_ok. intros ([k l3] & E & [= <- _]). unfold ident_token. simpl.
  destruct k; try done. eapply token_of_ident. by injection E.
Qed.

Lemma tokenize_loop_idents fuel : ∀ l acc ts,
  Forall (ident_token plain_ident) acc → tokenize_loop fuel l acc = Some (Ok ts) →
  Forall (ident_token plain_ident) ts.
Proof.
  induction fuel as [|fuel IH]; intros l acc ts Hacc; [done|]. cbn [tokenize_loop].
  rewrite bounded_bind_ok. intros ([tok l'] & E%next_token_ident & H1).
  assert (Forall (ident_token plain_ident) (acc ++ [tok])) by (apply Forall_app; by split; [|constructor]).
  revert H1. case_decide; [by intros [= <-]|]. by apply IH.
Qed.

Lemma tokenize_idents source ts :
  tokenize source = Some (Ok ts) → Forall (ident_token plain_ident) ts.
Proof. unfold tokenize. apply tokenize_loop_idents. constructor. Qed.

(** Lexing ends for every source, and the tokens end in the one [Eof]. *)
Lemma tokenize_total source :
  ∃ r, tokenize source = Some r
    ∧ ∀ ts, r = Ok ts → ∃ ts' eof, ts = ts' ++ [eof] ∧ kind eof = TokenKind.Eof
        ∧ Forall (λ t, kind t ≠ TokenKind.Eof) ts'.
Proof. apply tokenize_loop_total; [unfold src_left; simpl; lia|constructor]. Qed.

End lexer.
