(* ===== verification/Parser.v ===== *)
(** * The VCL parser

    Models [rv-vcl/src/parser.rs], a recursive-descent parser.  Its state is the
    current token with those behind it ([tokens[pos..]]; [advance] stays on the
    last token).  A result is [None] when a bound on a loop or on the nesting is
    used up; the bounds are the numbers of tokens left, which is enough for a
    token list that ends in [Eof], as the lexer's does. *)

From S2P Require Import Prelude RustStr F64 VclSyntax Lexer.
Local Open Scope Z_scope.
Local Open Scope vcl_scope.

Record parser : Set := mkParser {
  cur : Token;
  ahead : list Token;
}.

Definition peek (p : parser) : TokenKind.t := kind (cur p).

(** [peek_ahead(1)]. *)
Definition peek_next (p : parser) : TokenKind.t :=
  match ahead p with [] => peek p | t :: _ => kind t end.

Definition advance (p : parser) : parser :=
  match ahead p with [] => p | t :: ts => mkParser t ts end.

Definition tokens_left (p : parser) : nat := S (length (ahead p)).

Abbreviation parses A := (parser → bounded (A * parser)).

Section parser.
  Context {corefmt : CoreFmt}.

Definition p_error {A} (message : bytes) (p : parser) : bounded A :=
  Some (Err (ParseError message (tok_line (cur p)) (tok_col (cur p)))).

Definition expect_kind (expected : TokenKind.t) (p : parser) : bounded parser :=
  if decide (peek p = expected) then Some (Ok (advance p))
  else p_error (str "expected " ++ TokenKind.display expected ++ str ", found "
                ++ TokenKind.display (peek p)) p.

Definition eat_exact (k : TokenKind.t) (p : parser) : bool * parser :=
  if decide (peek p = k) then (true, advance p) else (false, p).

Definition expect_ident : parses bytes := λ p,
  match peek p with
  | TokenKind.Ident name => Some (Ok (name, advance p))
  | k => p_error (str "expected identifier, found " ++ TokenKind.display k) p
  end.

Definition expect_semicolon : parser → bounded parser := expect_kind TokenKind.Semicolon.

(* ------------------------------------------------------------------ *)
(** ** Expressions *)

(** [while *self.peek() == Dot { .. }]: the identifiers behind the dots. *)
Fixpoint dotted_parts (fuel : nat) (p : parser) : bounded (list bytes * parser) :=
  match fuel with
  | O => None
  | S fuel =>
      if decide (peek p = TokenKind.Dot) then
        '(part, p) ←! expect_ident (advance p);
        '(parts, p) ←! dotted_parts fuel p;
        Some (Ok (part :: parts, p))
      else Some (Ok ([], p))
  end.

Definition parse_dotted_expr (first : bytes) : parses Expr.t := λ p,
  '(more, p) ←! dotted_parts (tokens_left p) p;
  Some (Ok
    (match more with
     | second :: ((_ :: _) as header) =>
         if decide (second = str "http") then Expr.HeaderRef first (join [x2e] header)
         else Expr.Variable_ (join [x2e] (first :: more))
     | _ => Expr.Variable_ (join [x2e] (first :: more))
     end, p)).

(** The name is built by pushing a dot and the next part. *)
Definition parse_dotted_name : parses bytes := λ p,
  '(first, p) ←! expect_ident p;
  '(parts, p) ←! dotted_parts (tokens_left p) p;
  Some (Ok (fold_left (λ name part, name ++ [x2e] ++ part) parts first, p)).

(** [parse_expr] is the recursive call. *)
Definition parse_primary (parse_expr : parses Expr.t) : parses Expr.t := λ p,
  match peek p with
  | TokenKind.StringLit s => Some (Ok (Expr.StringLit s, advance p))
  | TokenKind.IntLit v => Some (Ok (Expr.IntLit v, advance p))
  | TokenKind.RealLit v => Some (Ok (Expr.RealLit v, advance p))
  | TokenKind.DurationLit v => Some (Ok (Expr.DurationLit v, advance p))
  | TokenKind.BoolLit v => Some (Ok (Expr.BoolLit v, advance p))
  | TokenKind.LParen =>
      '(e, p) ←! parse_expr (advance p);
      p ←! expect_kind TokenKind.RParen p;
      Some (Ok (e, p))
  | TokenKind.Ident _ =>
      '(name, p) ←! expect_ident p;
      if decide (peek p = TokenKind.Dot) then parse_dotted_expr name p
      else Some (Ok (Expr.Ident name, p))
  | k => p_error (str "unexpected token in expression: " ++ TokenKind.display k) p
  end.

(** [while self.eat_exact(Comma) { args.push(self.parse_expr()?) }] *)
Fixpoint more_args (parse_expr : parses Expr.t) (fuel : nat) (p : parser) :
    bounded (list Expr.t * parser) :=
  match fuel with
  | O => None
  | S fuel =>
      match eat_exact TokenKind.Comma p with
      | (true, p) =>
          '(arg, p) ←! parse_expr p;
          '(args, p) ←! more_args parse_expr fuel p;
          Some (Ok (arg :: args, p))
      | (false, p) => Some (Ok ([], p))
      end
  end.

Definition parse_arg_list (parse_expr : parses Expr.t) : parses (list Expr.t) := λ p,
  if decide (peek p = TokenKind.RParen) then Some (Ok ([], p))
  else
    '(arg, p) ←! parse_expr p;
    '(args, p) ←! more_args parse_expr (tokens_left p) p;
    Some (Ok (arg :: args, p)).

(** [name.rfind('.')]: what is before and behind the last dot. *)
Definition rsplit_dot (name : bytes) : option (bytes * bytes) :=
  '(behind, before) ← split_once [x2e] (reverse name);
  Some (reverse before, reverse behind).

(** After one call the expression is neither an identifier nor a variable and the
    [loop] breaks. *)
Definition parse_postfix (parse_expr : parses Expr.t) : parses Expr.t := λ p,
  '(e, p) ←! parse_primary parse_expr p;
  if decide (peek p = TokenKind.LParen) then
    match e with
    | Expr.Ident name =>
        '(args, p) ←! parse_arg_list parse_expr (advance p);
        p ←! expect_kind TokenKind.RParen p;
        Some (Ok (Expr.FunctionCall name args, p))
    | Expr.Variable_ name =>
        '(args, p) ←! parse_arg_list parse_expr (advance p);
        p ←! expect_kind TokenKind.RParen p;
        Some (Ok
          (match rsplit_dot name with
           | Some (object_part, method_part) =>
               Expr.MethodCall (Expr.Variable_ object_part) method_part args
           | None => Expr.FunctionCall name args
           end, p))
    | _ => Some (Ok (e, p))
    end
  else Some (Ok (e, p)).

Fixpoint parse_unary (parse_expr : parses Expr.t) (fuel : nat) (p : parser) :
    bounded (Expr.t * parser) :=
  match fuel with
  | O => None
  | S fuel =>
      match peek p with
      | TokenKind.Not =>
          '(operand, p) ←! parse_unary parse_expr fuel (advance p);
          Some (Ok (Expr.UnaryOp UnaryOp.Not operand, p))
      | TokenKind.Minus =>
          '(operand, p) ←! parse_unary parse_expr fuel (advance p);
          Some (Ok (Expr.UnaryOp UnaryOp.Negate operand, p))
      | _ => parse_postfix parse_expr p
      end
  end.

(** The loop of the five binary levels. *)
Fixpoint binary_loop (op_of : TokenKind.t → option BinOp.t) (next : parses Expr.t) (fuel : nat)
    (left_ : Expr.t) (p : parser) : bounded (Expr.t * parser) :=
  match fuel with
  | O => None
  | S fuel =>
      match op_of (peek p) with
      | Some op =>
          '(right_, p) ←! next (advance p);
          binary_loop op_of next fuel (Expr.BinaryOp left_ op right_) p
      | None => Some (Ok (left_, p))
      end
  end.

Definition binary_level (op_of : TokenKind.t → option BinOp.t) (next : parses Expr.t) :
    parses Expr.t := λ p,
  '(left_, p) ←! next p; binary_loop op_of next (tokens_left p) left_ p.

Definition mul_op (k : TokenKind.t) : option BinOp.t :=
  match k with TokenKind.Star => Some BinOp.Mul | TokenKind.Slash => Some BinOp.Div | _ => None end.
Definition add_op (k : TokenKind.t) : option BinOp.t :=
  match k with TokenKind.Plus => Some BinOp.Add | TokenKind.Minus => Some BinOp.Sub | _ => None end.
Definition comparison_op (k : TokenKind.t) : option BinOp.t :=
  match k with
  | TokenKind.Eq => Some BinOp.Eq
  | TokenKind.Neq => Some BinOp.Neq
  | TokenKind.Gt => Some BinOp.Gt
  | TokenKind.Lt => Some BinOp.Lt
  | TokenKind.Gte => Some BinOp.Gte
  | TokenKind.Lte => Some BinOp.Lte
  | TokenKind.Match => Some BinOp.Match
  | TokenKind.NotMatch => Some BinOp.NotMatch
  | _ => None
  end.
Definition and_op (k : TokenKind.t) : option BinOp.t :=
  match k with TokenKind.And => Some BinOp.And | _ => None end.
Definition or_op (k : TokenKind.t) : option BinOp.t :=
  match k with TokenKind.Or => Some BinOp.Or | _ => None end.

Definition parse_multiplicative (parse_expr : parses Expr.t) : parses Expr.t :=
  binary_level mul_op (λ p, parse_unary parse_expr (tokens_left p) p).
Definition parse_additive (parse_expr : parses Expr.t) : parses Expr.t :=
  binary_level add_op (parse_multiplicative parse_expr).
Definition parse_comparison (parse_expr : parses Expr.t) : parses Expr.t :=
  binary_level comparison_op (parse_additive parse_expr).
Definition parse_and (parse_expr : parses Expr.t) : parses Expr.t :=
  binary_level and_op (parse_comparison parse_expr).
Definition parse_or (parse_expr : parses Expr.t) : parses Expr.t :=
  binary_level or_op (parse_and parse_expr).

(** The fuel bounds the nesting of parentheses and argument lists. *)
Fixpoint parse_expr_in (fuel : nat) (p : parser) : bounded (Expr.t * parser) :=
  match fuel with
  | O => None
  | S fuel => parse_or (parse_expr_in fuel) p
  end.

Definition parse_expr : parses Expr.t := λ p, parse_expr_in (tokens_left p) p.

(* ------------------------------------------------------------------ *)
(** ** Statements *)

Definition parse_set : parses Statement.t := λ p,
  p ←! expect_kind TokenKind.Set_ p;
  '(target, p) ←! parse_dotted_name p;
  '(operator, p) ←!
    match peek p with
    | TokenKind.Assign => Some (Ok (SetOp.Assign, advance p))
    | TokenKind.PlusAssign => Some (Ok (SetOp.Add, advance p))
    | TokenKind.MinusAssign => Some (Ok (SetOp.Subtract, advance p))
    | k => p_error (str "expected assignment operator, found " ++ TokenKind.display k) p
    end;
  '(value, p) ←! parse_expr p;
  p ←! expect_semicolon p;
  Some (Ok (Statement.Set_ target operator value, p)).

Definition parse_unset : parses Statement.t := λ p,
  p ←! expect_kind TokenKind.Unset p;
  '(target, p) ←! parse_dotted_name p;
  p ←! expect_semicolon p;
  Some (Ok (Statement.Unset target, p)).

Definition parse_call : parses Statement.t := λ p,
  p ←! expect_kind TokenKind.Call p;
  '(subroutine, p) ←! expect_ident p;
  p ←! expect_semicolon p;
  Some (Ok (Statement.Call subroutine, p)).

(** [( expr )] *)
Definition parse_parenthesised : parses Expr.t := λ p,
  p ←! expect_kind TokenKind.LParen p;
  '(e, p) ←! parse_expr p;
  p ←! expect_kind TokenKind.RParen p;
  Some (Ok (e, p)).

Definition parse_return : parses Statement.t := λ p,
  p ←! expect_kind TokenKind.Return p;
  '(action, p) ←! parse_parenthesised p;
  p ←! expect_semicolon p;
  Some (Ok (Statement.Return action, p)).

Definition parse_synthetic : parses Statement.t := λ p,
  p ←! expect_kind TokenKind.Synthetic p;
  '(e, p) ←! parse_parenthesised p;
  p ←! expect_semicolon p;
  Some (Ok (Statement.Synthetic e, p)).

Definition parse_ban : parses Statement.t := λ p,
  p ←! expect_kind TokenKind.Ban p;
  '(e, p) ←! parse_parenthesised p;
  p ←! expect_semicolon p;
  Some (Ok (Statement.Ban e, p)).

Definition parse_new : parses Statement.t := λ p,
  p ←! expect_kind TokenKind.New p;
  '(name, p) ←! expect_ident p;
  p ←! expect_kind TokenKind.Assign p;
  '(type_name, p) ←! expect_ident p;
  p ←! expect_kind TokenKind.LParen p;
  '(args, p) ←! parse_arg_list parse_expr p;
  p ←! expect_kind TokenKind.RParen p;
  p ←! expect_semicolon p;
  Some (Ok (Statement.New name type_name args, p)).

(** [{ statements }] and [( expr ) { statements }], given the block parser. *)
Definition parse_braced (block : parses (list Statement.t)) : parses (list Statement.t) := λ p,
  p ←! expect_kind TokenKind.LBrace p;
  '(body, p) ←! block p;
  p ←! expect_kind TokenKind.RBrace p;
  Some (Ok (body, p)).

Definition parse_guarded (block : parses (list Statement.t)) :
    parses (Expr.t * list Statement.t) := λ p,
  '(cond, p) ←! parse_parenthesised p;
  '(body, p) ←! parse_braced block p;
  Some (Ok ((cond, body), p)).

(** The [loop] of [parse_if]. *)
Fixpoint parse_else (block : parses (list Statement.t)) (fuel : nat) (p : parser) :
    bounded (list (Expr.t * list Statement.t) * option (list Statement.t) * parser) :=
  match fuel with
  | O => None
  | S fuel =>
      if decide (peek p = TokenKind.ElseIf) then
        '(branch, p) ←! parse_guarded block (advance p);
        '(branches, else_body, p) ←! parse_else block fuel p;
        Some (Ok (branch :: branches, else_body, p))
      else if decide (peek p = TokenKind.Else) then
        if decide (peek_next p = TokenKind.If) then
          '(branch, p) ←! parse_guarded block (advance (advance p));
          '(branches, else_body, p) ←! parse_else block fuel p;
          Some (Ok (branch :: branches, else_body, p))
        else
          '(body, p) ←! parse_braced block (advance p);
          Some (Ok ([], Some body, p))
      else Some (Ok ([], None, p))
  end.

Definition parse_if (block : parses (list Statement.t)) : parses Statement.t := λ p,
  p ←! expect_kind TokenKind.If p;
  '(condition, body, p) ←! parse_guarded block p;
  '(else_ifs, else_body, p) ←! parse_else block (tokens_left p) p;
  Some (Ok (Statement.If condition body else_ifs else_body, p)).

Definition parse_statement (block : parses (list Statement.t)) : parses Statement.t := λ p,
  match peek p with
  | TokenKind.Set_ => parse_set p
  | TokenKind.Unset => parse_unset p
  | TokenKind.Call => parse_call p
  | TokenKind.Return => parse_return p
  | TokenKind.If => parse_if block p
  | TokenKind.Synthetic => parse_synthetic p
  | TokenKind.New => parse_new p
  | TokenKind.Ban => parse_ban p
  | _ =>
      '(e, p) ←! parse_expr p;
      p ←! expect_semicolon p;
      Some (Ok (Statement.ExprStatement e, p))
  end.

(** The fuel bounds the statements of the block and their nesting. *)
Fixpoint block_in (fuel : nat) (p : parser) : bounded (list Statement.t * parser) :=
  match fuel with
  | O => None
  | S fuel =>
      if decide (peek p = TokenKind.RBrace ∨ peek p = TokenKind.Eof) then Some (Ok ([], p))
      else
        '(stmt, p) ←! parse_statement (block_in fuel) p;
        '(stmts, p) ←! block_in fuel p;
        Some (Ok (stmt :: stmts, p))
  end.

Definition parse_statement_block : parses (list Statement.t) := λ p, block_in (tokens_left p) p.

Definition parse_sub : parses SubDecl := λ p,
  p ←! expect_kind TokenKind.Sub p;
  '(name, p) ←! expect_ident p;
  '(body, p) ←! parse_braced parse_statement_block p;
  Some (Ok (mkSub name body, p)).

(* ------------------------------------------------------------------ *)
(** ** Declarations *)

Definition parse_vcl_version : parses bytes := λ p,
  p ←! expect_kind TokenKind.Vcl p;
  '(version, p) ←!
    match peek p with
    | TokenKind.RealLit v => Some (Ok (fmt_f64 v, advance p))
    | TokenKind.IntLit v => Some (Ok (show_i64 v ++ str ".0", advance p))
    | k => p_error (str "expected version number, found " ++ TokenKind.display k) p
    end;
  p ←! expect_semicolon p;
  Some (Ok (version, p)).

Definition parse_import : parses ImportDecl := λ p,
  p ←! expect_kind TokenKind.Import p;
  '(name, p) ←! expect_ident p;
  p ←! expect_semicolon p;
  Some (Ok (mkImport name, p)).

(** [name = value;] behind the dot of a property. *)
Definition parse_property : parses (bytes * Expr.t) := λ p,
  '(prop_name, p) ←! expect_ident p;
  p ←! expect_kind TokenKind.Assign p;
  '(value, p) ←! parse_expr p;
  p ←! expect_semicolon p;
  Some (Ok ((prop_name, value), p)).

(** The [while] of [parse_probe_body]. *)
Fixpoint probe_properties_in (fuel : nat) (p : parser) : bounded (list (bytes * Expr.t) * parser) :=
  match fuel with
  | O => None
  | S fuel =>
      if decide (peek p = TokenKind.RBrace) then Some (Ok ([], p))
      else
        p ←! expect_kind TokenKind.Dot p;
        '(prop, p) ←! parse_property p;
        '(props, p) ←! probe_properties_in fuel p;
        Some (Ok (prop :: props, p))
  end.

Definition parse_probe_body (name : option bytes) : parses ProbeDecl := λ p,
  p ←! expect_kind TokenKind.LBrace p;
  '(properties, p) ←! probe_properties_in (tokens_left p) p;
  p ←! expect_kind TokenKind.RBrace p;
  Some (Ok (mkProbe name properties, p)).

Definition parse_probe_decl : parses ProbeDecl := λ p,
  p ←! expect_kind TokenKind.Probe p;
  '(name, p) ←! expect_ident p;
  parse_probe_body (Some name) p.

(** [.probe = { .. }] or [.probe = name;], the keyword being the current token. *)
Definition parse_probe_ref : parses ProbeDecl := λ p,
  p ←! expect_kind TokenKind.Assign (advance p);
  if decide (peek p = TokenKind.LBrace) then parse_probe_body None p
  else
    '(probe_name, p) ←! expect_ident p;
    p ←! expect_semicolon p;
    Some (Ok (mkProbe (Some probe_name) [], p)).

(** The [while] of [parse_backend], with the properties and the probe so far. *)
Fixpoint backend_items (fuel : nat) (properties : list (bytes * Expr.t)) (probe : option ProbeDecl)
    (p : parser) : bounded (list (bytes * Expr.t) * option ProbeDecl * parser) :=
  match fuel with
  | O => None
  | S fuel =>
      if decide (peek p = TokenKind.RBrace) then Some (Ok (properties, probe, p))
      else
        p ←! expect_kind TokenKind.Dot p;
        if decide (peek p = TokenKind.Probe) then
          '(probe, p) ←! parse_probe_ref p;
          backend_items fuel properties (Some probe) p
        else
          '(prop, p) ←! parse_property p;
          backend_items fuel (properties ++ [prop]) probe p
  end.

Definition parse_backend : parses BackendDecl := λ p,
  p ←! expect_kind TokenKind.Backend p;
  '(name, p) ←! expect_ident p;
  p ←! expect_kind TokenKind.LBrace p;
  '(properties, probe, p) ←! backend_items (tokens_left p) [] None p;
  p ←! expect_kind TokenKind.RBrace p;
  Some (Ok (mkBackend name properties probe, p)).

(** [*v as u8] keeps the low eight bits. *)
Definition parse_acl_entry : parses AclEntry := λ p,
  let '(negate, p) := eat_exact TokenKind.Not p in
  '(addr, p) ←!
    match peek p with
    | TokenKind.StringLit s => Some (Ok (s, advance p))
    | k => p_error (str "expected string address in ACL, found " ++ TokenKind.display k) p
    end;
  '(mask, p) ←!
    (if decide (peek p = TokenKind.Slash) then
       let p := advance p in
       match peek p with
       | TokenKind.IntLit v => Some (Ok (Some (v mod 256), advance p))
       | k => p_error (str "expected mask length, found " ++ TokenKind.display k) p
       end
     else Some (Ok (None, p)));
  p ←! expect_semicolon p;
  Some (Ok (mkAclEntry negate addr mask, p)).

Fixpoint acl_entries_in (fuel : nat) (p : parser) : bounded (list AclEntry * parser) :=
  match fuel with
  | O => None
  | S fuel =>
      if decide (peek p = TokenKind.RBrace) then Some (Ok ([], p))
      else
        '(entry, p) ←! parse_acl_entry p;
        '(entries, p) ←! acl_entries_in fuel p;
        Some (Ok (entry :: entries, p))
  end.

Definition parse_acl : parses AclDecl := λ p,
  p ←! expect_kind TokenKind.Acl p;
  '(name, p) ←! expect_ident p;
  p ←! expect_kind TokenKind.LBrace p;
  '(entries, p) ←! acl_entries_in (tokens_left p) p;
  p ←! expect_kind TokenKind.RBrace p;
  Some (Ok (mkAcl name entries, p)).

(* ------------------------------------------------------------------ *)
(** ** Programs *)

Definition add_import (d : ImportDecl) (g : VclProgram) : VclProgram :=
  mkProgram (version g) (imports g ++ [d]) (backends g) (probes g) (acls g) (subs g).
Definition add_backend (d : BackendDecl) (g : VclProgram) : VclProgram :=
  mkProgram (version g) (imports g) (backends g ++ [d]) (probes g) (acls g) (subs g).
Definition add_probe (d : ProbeDecl) (g : VclProgram) : VclProgram :=
  mkProgram (version g) (imports g) (backends g) (probes g ++ [d]) (acls g) (subs g).
Definition add_acl (d : AclDecl) (g : VclProgram) : VclProgram :=
  mkProgram (version g) (imports g) (backends g) (probes g) (acls g ++ [d]) (subs g).
Definition add_sub (d : SubDecl) (g : VclProgram) : VclProgram :=
  mkProgram (version g) (imports g) (backends g) (probes g) (acls g) (subs g ++ [d]).

(** One declaration at the top level, added to the program. *)
Definition parse_decl (g : VclProgram) : parses VclProgram := λ p,
  match peek p with
  | TokenKind.Import => '(d, p) ←! parse_import p; Some (Ok (add_import d g, p))
  | TokenKind.Backend => '(d, p) ←! parse_backend p; Some (Ok (add_backend d g, p))
  | TokenKind.Probe => '(d, p) ←! parse_probe_decl p; Some (Ok (add_probe d g, p))
  | TokenKind.Acl => '(d, p) ←! parse_acl p; Some (Ok (add_acl d g, p))
  | TokenKind.Sub => '(d, p) ←! parse_sub p; Some (Ok (add_sub d g, p))
  | k => p_error (str "unexpected token at top level: " ++ TokenKind.display k) p
  end.

Fixpoint parse_decls (fuel : nat) (g : VclProgram) (p : parser) : bounded VclProgram :=
  match fuel with
  | O => None
  | S fuel =>
      if decide (peek p = TokenKind.Eof) then Some (Ok g)
      else '(g, p) ←! parse_decl g p; parse_decls fuel g p
  end.

Definition parse_program (p : parser) : bounded VclProgram :=
  '(version, p) ←!
    (if decide (peek p = TokenKind.Vcl) then
       '(v, p) ←! parse_vcl_version p; Some (Ok (Some v, p))
     else Some (Ok (None, p)));
  parse_decls (tokens_left p) (mkProgram version [] [] [] [] []) p.

(** [Parser::parse]; on an empty slice the code panics. *)
Definition Parser_parse (tokens : list Token) : bounded VclProgram :=
  match tokens with
  | [] => None
  | t :: ts => parse_program (mkParser t ts)
  end.


(* ------------------------------------------------------------------ *)
(** ** The parser always ends *)

(** What the parser makes of expressions, for identifiers in [I]: functions are
    named by one identifier, variables have a dot, a method is called on a
    variable; the tree's [RegexLit] and [Concat] are never built. *)
Inductive parsed (I : bytes → Prop) : Expr.t → Prop :=
| parsed_string s : parsed I (Expr.StringLit s)
| parsed_int v : parsed I (Expr.IntLit v)
| parsed_real v : parsed I (Expr.RealLit v)
| parsed_duration v : parsed I (Expr.DurationLit v)
| parsed_bool v : parsed I (Expr.BoolLit v)
| parsed_ident n : I n → parsed I (Expr.Ident n)
| parsed_variable a b : parsed I (Expr.Variable_ (a ++ [x2e] ++ b))
| parsed_header o h : parsed I (Expr.HeaderRef o h)
| parsed_binary l op r : parsed I l → parsed I r → parsed I (Expr.BinaryOp l op r)
| parsed_unary op e : parsed I e → parsed I (Expr.UnaryOp op e)
| parsed_function n args : I n → Forall (parsed I) args → parsed I (Expr.FunctionCall n args)
| parsed_method o m args :
    Forall (parsed I) args → parsed I (Expr.MethodCall (Expr.Variable_ o) m args).

(** A bounded computation that comes to its end, with what it promises. *)
Definition runs {A} (Q : A → Prop) (m : bounded A) : Prop :=
  ∃ r, m = Some r ∧ ∀ a, r = Ok a → Q a.

Lemma runs_ok {A} (Q : A → Prop) a : Q a → runs Q (Some (Ok a)).
Proof. intros Ha. eexists. split; [done|]. by intros ? [= <-]. Qed.

Lemma runs_err {A} (Q : A → Prop) e : runs Q (Some (Err e)).
Proof. by eexists. Qed.

Lemma runs_bind {A B} (Q : A → Prop) (R : B → Prop) m f :
  runs Q m → (∀ a, Q a → runs R (f a)) → runs R (bounded_bind m f).
Proof. intros ([a|e] & -> & Hm) Hf; simpl; [by apply Hf, Hm|apply runs_err]. Qed.

Lemma runs_weaken {A} (Q R : A → Prop) m : runs Q m → (∀ a, Q a → R a) → runs R m.
Proof. intros (r & -> & Hm) HQ. exists r. split; [done|]. intros a Ha. by apply HQ, Hm. Qed.

Section progress.
  Context (I : bytes → Prop).

(** The tokens end in [Eof] and their identifiers are in [I]. *)
Definition ok_tokens (p : parser) : Prop :=
  (∃ t, last (cur p :: ahead p) = Some t ∧ kind t = TokenKind.Eof)
  ∧ Forall (ident_token I) (cur p :: ahead p).

(** Behind a token that is not [Eof] there is another. *)
Lemma advance_ok p :
  ok_tokens p → peek p ≠ TokenKind.Eof →
  ok_tokens (advance p) ∧ (tokens_left (advance p) < tokens_left p)%nat.
Proof.
  intros ((t & Ht & Hk) & HF) Hne. unfold advance, ok_tokens, tokens_left, peek in *.
  destruct p as [c [|c' a]]; simpl in *; [congruence|].
  split_and!; [by exists t|by apply Forall_cons in HF as [_ ?]|lia].
Qed.

(** The results of a parser that reads a token or more, resp. none or more. *)
Definition below {A} (G : A → Prop) (p : parser) : A * parser → Prop :=
  λ '(a, p'), G a ∧ ok_tokens p' ∧ (tokens_left p' < tokens_left p)%nat.
Definition upto {A} (G : A → Prop) (p : parser) : A * parser → Prop :=
  λ '(a, p'), G a ∧ ok_tokens p' ∧ (tokens_left p' ≤ tokens_left p)%nat.
Definition behind (p : parser) : parser → Prop :=
  λ p', ok_tokens p' ∧ (tokens_left p' < tokens_left p)%nat.

(** [f] reads a token or more, where at most [n] are left. *)
Definition reads {A} (G : A → Prop) (n : nat) (f : parses A) : Prop :=
  ∀ p, ok_tokens p → (tokens_left p ≤ n)%nat → runs (below G p) (f p).

Lemma expect_runs k p :
  k ≠ TokenKind.Eof → ok_tokens p → runs (behind p) (expect_kind k p).
Proof.
  intros Hk Hp. unfold expect_kind. case_decide as E; [|apply runs_err].
  apply runs_ok. apply advance_ok; [done|congruence].
Qed.

Lemma ident_runs p : ok_tokens p → runs (below I p) (expect_ident p).
Proof.
  intros Hp. unfold expect_ident. destruct (peek p) eqn:E; try apply runs_err.
  apply runs_ok. split; [|apply advance_ok; [done|congruence]].
  destruct Hp as (_ & [Hi _]%Forall_cons). unfold ident_token, peek in *. by rewrite E in Hi.
Qed.

(** The next call of a sequence: [lem] says what it reads. *)
Ltac after lem :=
  eapply runs_bind; [by eapply lem; eauto; lia|];
  let Hb := fresh in
  (intros [? ?] Hb; destruct Hb as (? & ? & ?)) || (intros ? Hb; destruct Hb as [? ?]).
Ltac expected := eapply runs_bind; [by apply expect_runs|]; intros ? [? ?].
(** The end of a sequence. *)
Ltac finished := apply runs_ok; unfold below, upto, behind; split_and!; eauto; lia.

Lemma dotted_runs fuel : ∀ p,
  ok_tokens p → (tokens_left p ≤ fuel)%nat → runs (upto (λ _, True) p) (dotted_parts fuel p).
Proof.
  induction fuel as [|fuel IH]; intros p Hp Hf; [unfold tokens_left in Hf; lia|]. cbn [dotted_parts].
  case_decide as E; [|finished].
  destruct (advance_ok p Hp ltac:(congruence)). after ident_runs. after IH. finished.
Qed.

(** With a dot first, the parts are not empty. *)
Lemma dotted_runs_dot fuel p :
  ok_tokens p → (tokens_left p ≤ fuel)%nat → peek p = TokenKind.Dot →
  runs (below (λ l, l ≠ []) p) (dotted_parts fuel p).
Proof.
  intros Hp Hf E. destruct fuel as [|fuel]; [unfold tokens_left in Hf; lia|]. cbn [dotted_parts].
  rewrite decide_True by done. destruct (advance_ok p Hp ltac:(congruence)).
  after ident_runs. after dotted_runs. finished.
Qed.

Lemma join_dot first more : more ≠ [] → ∃ b, join [x2e] (first :: more) = first ++ [x2e] ++ b.
Proof. destruct more as [|m more]; [done|]. intros _. by exists (join [x2e] (m :: more)). Qed.

Lemma dotted_expr_runs first p :
  ok_tokens p → peek p = TokenKind.Dot → runs (below (parsed I) p) (parse_dotted_expr first p).
Proof.
  intros Hp E. unfold parse_dotted_expr. after dotted_runs_dot.
  assert (Hvar : parsed I (Expr.Variable_ (join [x2e] (first :: l)))).
  { destruct (join_dot first l) as [b ->]; [done|]. apply parsed_variable. }
  apply runs_ok. split; [|by split; [|lia]].
  destruct l as [|second [|third l]]; [done..|]. case_decide; [apply parsed_header|done].
Qed.

Lemma dotted_name_runs p : ok_tokens p → runs (below (λ _, True) p) (parse_dotted_name p).
Proof. intros Hp. unfold parse_dotted_name. after ident_runs. after dotted_runs. finished. Qed.

Section expressions.
  Context (n : nat) (pe : parses Expr.t) (Hpe : reads (parsed I) n pe).

Lemma expr_runs p : ok_tokens p → (tokens_left p ≤ n)%nat → runs (below (parsed I) p) (pe p).
Proof. apply Hpe. Qed.

Lemma primary_runs : reads (parsed I) (S n) (parse_primary pe).
Proof.
  intros p Hp Hn. unfold parse_primary.
  destruct (decide (peek p = TokenKind.Eof)) as [E|E]; [rewrite E; apply runs_err|].
  destruct (advance_ok p Hp E) as [Ha Hl]. destruct (peek p) eqn:Ek; try apply runs_err; try done;
    try (apply runs_ok; split; [constructor|by split]).
  - after ident_runs. case_decide.
    + eapply runs_weaken; [by apply dotted_expr_runs|]. intros [e p2] (? & ? & ?). split_and!; [done..|lia].
    + apply runs_ok. split; [by constructor|by split].
  - after expr_runs. expected. finished.
Qed.

Lemma more_args_runs fuel : ∀ p,
  ok_tokens p → (tokens_left p ≤ n)%nat → (tokens_left p ≤ fuel)%nat →
  runs (upto (Forall (parsed I)) p) (more_args pe fuel p).
Proof.
  induction fuel as [|fuel IH]; intros p Hp Hn Hf; [unfold tokens_left in Hf; lia|]. cbn [more_args].
  unfold eat_exact. case_decide as E; [|finished].
  destruct (advance_ok p Hp ltac:(congruence)). after expr_runs. after IH. finished.
Qed.

Lemma arg_list_runs p :
  ok_tokens p → (tokens_left p ≤ n)%nat → runs (upto (Forall (parsed I)) p) (parse_arg_list pe p).
Proof.
  intros Hp Hn. unfold parse_arg_list. case_decide; [finished|].
  after expr_runs. after more_args_runs. finished.
Qed.

Lemma rsplit_dot_some a b : is_Some (rsplit_dot (a ++ [x2e] ++ b)).
Proof.
  unfold rsplit_dot. rewrite !reverse_app. change (reverse [x2e]) with [x2e].
  assert (∀ l, is_Some (split_once [x2e] ((l ++ [x2e]) ++ reverse a))) as Hs.
  { intros l. induction l as [|c l [[u v] IH]]; [by eexists|].
    change (((c :: l) ++ [x2e]) ++ reverse a) with (c :: ((l ++ [x2e]) ++ reverse a)).
    revert IH. generalize ((l ++ [x2e]) ++ reverse a). intros s IH.
    assert (split_once [x2e] (c :: s)
      = match strip_prefix [x2e] (c :: s) with
        | Some rest => Some ([], rest)
        | None => (λ '(a, b), (c :: a, b)) <$> split_once [x2e] s
        end) as -> by done.
    rewrite IH. destruct (strip_prefix _ _); by eexists. }
  destruct (Hs (reverse b)) as [[u v] ->]. by eexists.
Qed.

Lemma postfix_runs : reads (parsed I) (S n) (parse_postfix pe).
Proof.
  intros p Hp Hn. unfold parse_postfix. after primary_runs.
  case_decide as E; [|finished].
  destruct (advance_ok p0 ltac:(done) ltac:(congruence)).
  destruct t; try finished; after arg_list_runs; expected; (apply runs_ok; split; [|by split; [|lia]]).
  - match goal with H : parsed I (Expr.Ident _) |- _ => inversion H; subst end. by constructor.
  - match goal with H : parsed I (Expr.Variable_ _) |- _ => inversion H as [| | | | | |u v Huv| | | | |] end.
    destruct (rsplit_dot_some u v) as [[o m] Hs]. simpl in Hs. rewrite Hs. by constructor.
Qed.

Lemma unary_runs fuel : ∀ p,
  ok_tokens p → (tokens_left p ≤ S n)%nat → (tokens_left p ≤ fuel)%nat →
  runs (below (parsed I) p) (parse_unary pe fuel p).
Proof.
  induction fuel as [|fuel IH]; intros p Hp Hn Hf; [unfold tokens_left in Hf; lia|]. cbn [parse_unary].
  destruct (peek p) eqn:Ek; try (by apply postfix_runs);
    destruct (advance_ok p Hp ltac:(congruence)); after IH;
    (apply runs_ok; split; [by constructor|by split; [|lia]]).
Qed.

Lemma binary_loop_runs op_of next fuel : ∀ e p,
  op_of TokenKind.Eof = None → reads (parsed I) (S n) next →
  parsed I e → ok_tokens p → (tokens_left p ≤ S n)%nat → (tokens_left p ≤ fuel)%nat →
  runs (upto (parsed I) p) (binary_loop op_of next fuel e p).
Proof.
  induction fuel as [|fuel IH]; intros e p Heof Hnext He Hp Hn Hf; [unfold tokens_left in Hf; lia|].
  cbn [binary_loop]. destruct (op_of (peek p)) as [op|] eqn:E; [|finished].
  destruct (advance_ok p Hp ltac:(congruence)). after Hnext.
  eapply runs_weaken; [apply IH; try done; [by constructor|lia|lia]|].
  intros [e' p'] (? & ? & ?). split_and!; [done..|lia].
Qed.

Lemma binary_level_reads op_of next :
  op_of TokenKind.Eof = None → reads (parsed I) (S n) next → reads (parsed I) (S n) (binary_level op_of next).
Proof.
  intros Heof Hnext p Hp Hn. unfold binary_level. after Hnext.
  eapply runs_weaken; [apply binary_loop_runs; try done; lia|].
  intros [e' p'] (? & ? & ?). split_and!; [done..|lia].
Qed.

Lemma or_reads : reads (parsed I) (S n) (parse_or pe).
Proof.
  do 5 (apply binary_level_reads; [done|]). intros p Hp Hn. by apply unary_runs.
Qed.

End expressions.

Lemma expr_in_reads fuel : reads (parsed I) fuel (parse_expr_in fuel).
Proof.
  induction fuel as [|fuel IH]; [intros p _ Hn; unfold tokens_left in Hn; lia|].
  by apply or_reads.
Qed.

Lemma parse_expr_runs p : ok_tokens p → runs (below (parsed I) p) (parse_expr p).
Proof. intros Hp. by apply (expr_in_reads (tokens_left p)). Qed.

Lemma parse_expr_reads n : reads (parsed I) n parse_expr.
Proof. intros p Hp _. by apply parse_expr_runs. Qed.

(** Every expression of a statement satisfies [P]. *)
Inductive stmt_exprs (P : Expr.t → Prop) : Statement.t → Prop :=
| se_set x o v : P v → stmt_exprs P (Statement.Set_ x o v)
| se_unset x : stmt_exprs P (Statement.Unset x)
| se_call s : stmt_exprs P (Statement.Call s)
| se_return a : P a → stmt_exprs P (Statement.Return a)
| se_if c body elses els :
    P c → Forall (stmt_exprs P) body →
    Forall (λ br, P br.1 ∧ Forall (stmt_exprs P) br.2) elses →
    Forall (Forall (stmt_exprs P)) (option_list els) →
    stmt_exprs P (Statement.If c body elses els)
| se_synthetic e : P e → stmt_exprs P (Statement.Synthetic e)
| se_new x ty args : Forall P args → stmt_exprs P (Statement.New x ty args)
| se_expr e : P e → stmt_exprs P (Statement.ExprStatement e)
| se_ban e : P e → stmt_exprs P (Statement.Ban e).

Abbreviation stmt_ok := (stmt_exprs (parsed I)).

Lemma parenthesised_runs p : ok_tokens p → runs (below (parsed I) p) (parse_parenthesised p).
Proof. intros Hp. unfold parse_parenthesised. expected. after parse_expr_runs. expected. finished. Qed.

Lemma set_runs p : ok_tokens p → runs (below stmt_ok p) (parse_set p).
Proof.
  intros Hp. unfold parse_set. expected. after dotted_name_runs.
  eapply (runs_bind (below (λ _, True) p0)).
  { destruct (peek p0) eqn:E; try apply runs_err;
      (apply runs_ok; split; [done|]; apply advance_ok; [done|congruence]). }
  intros [op p1] (_ & ? & ?). after parse_expr_runs. unfold expect_semicolon. expected.
  apply runs_ok. split; [by constructor|]. by split; [|lia].
Qed.

Lemma new_runs p : ok_tokens p → runs (below stmt_ok p) (parse_new p).
Proof.
  intros Hp. unfold parse_new, expect_semicolon. expected. after ident_runs. expected. after ident_runs.
  expected. after (arg_list_runs (tokens_left p) _ (parse_expr_reads _)). expected. expected.
  apply runs_ok. split; [by constructor|]. by split; [|lia].
Qed.

(** The statements of a fixed shape. *)
Ltac simple_statement :=
  unfold parse_unset, parse_call, parse_return, parse_synthetic, parse_ban, expect_semicolon; expected;
  first [after dotted_name_runs | after parenthesised_runs | after ident_runs]; expected;
  apply runs_ok; (split; [by constructor|]); by split; [|lia].

Section blocks.
  Context (n : nat) (block : parses (list Statement.t)).
  Context (Hblock : ∀ p, ok_tokens p → (tokens_left p ≤ n)%nat → runs (upto (Forall stmt_ok) p) (block p)).

Lemma braced_runs p :
  ok_tokens p → (tokens_left p ≤ S n)%nat → runs (below (Forall stmt_ok) p) (parse_braced block p).
Proof. intros Hp Hn. unfold parse_braced. expected. after Hblock. expected. finished. Qed.

Lemma guarded_runs p :
  ok_tokens p → (tokens_left p ≤ S n)%nat →
  runs (below (λ br, parsed I br.1 ∧ Forall stmt_ok br.2) p) (parse_guarded block p).
Proof. intros Hp Hn. unfold parse_guarded. after parenthesised_runs. after braced_runs. finished. Qed.

Lemma else_runs fuel : ∀ p,
  ok_tokens p → (tokens_left p ≤ S n)%nat → (tokens_left p ≤ fuel)%nat →
  runs (upto (λ r, Forall (λ br, parsed I br.1 ∧ Forall stmt_ok br.2) r.1
                   ∧ Forall (Forall stmt_ok) (option_list r.2)) p) (parse_else block fuel p).
Proof.
  induction fuel as [|fuel IH]; intros p Hp Hn Hf; [unfold tokens_left in Hf; lia|]. cbn [parse_else].
  case_decide as E1; [|case_decide as E2; [case_decide as E3|]].
  - destruct (advance_ok p Hp ltac:(congruence)). after guarded_runs.
    eapply runs_bind; [apply IH; [done|lia|lia]|]. intros [[brs els] p2] ([? ?] & ? & ?).
    apply runs_ok. split; [|by split; [|lia]]. split; [by constructor|done].
  - destruct (advance_ok p Hp ltac:(congruence)).
    destruct (advance_ok (advance p)) as [? ?]; [done| |].
    { unfold peek_next, advance, peek in *. destruct (ahead p); simpl in *; congruence. }
    after guarded_runs.
    eapply runs_bind; [apply IH; [done|lia|lia]|]. intros [[brs els] p2] ([? ?] & ? & ?).
    apply runs_ok. split; [|by split; [|lia]]. split; [by constructor|done].
  - destruct (advance_ok p Hp ltac:(congruence)). after braced_runs.
    apply runs_ok. split; [|by split; [|lia]]. split; [by constructor|by repeat constructor].
  - apply runs_ok. split; [|by split; [|lia]]. split; constructor.
Qed.

Lemma statement_runs : reads stmt_ok (S n) (parse_statement block).
Proof.
  intros p Hp Hn. unfold parse_statement.
  assert (Hexpr : runs (below stmt_ok p) ('(e, p) ←! parse_expr p; p ←! expect_semicolon p;
    Some (Ok (Statement.ExprStatement e, p)))).
  { after parse_expr_runs. unfold expect_semicolon. expected.
    apply runs_ok. split; [by constructor|]. by split; [|lia]. }
  destruct (peek p) eqn:Ek; try exact Hexpr; try by apply set_runs || apply new_runs.
  all: try simple_statement.
  unfold parse_if. expected.
  eapply runs_bind; [apply guarded_runs; [done|lia]|]. intros [[c body] p1] ([? ?] & ? & ?).
  eapply runs_bind; [apply (else_runs (tokens_left p1)); [done|lia|lia]|].
  intros [[brs els] p2] ([? ?] & ? & ?).
  apply runs_ok. split; [by constructor|]. by split; [|lia].
Qed.

End blocks.

Lemma block_in_runs fuel : ∀ p,
  ok_tokens p → (tokens_left p ≤ fuel)%nat → runs (upto (Forall stmt_ok) p) (block_in fuel p).
Proof.
  induction fuel as [|fuel IH]; intros p Hp Hf; [unfold tokens_left in Hf; lia|]. cbn [block_in].
  case_decide; [finished|]. after (statement_runs fuel _ IH). after IH. finished.
Qed.

Lemma sub_runs p :
  ok_tokens p → runs (below (λ d, Forall stmt_ok (sub_body d)) p) (parse_sub p).
Proof.
  intros Hp. unfold parse_sub. expected. after ident_runs.
  after (braced_runs (tokens_left p) parse_statement_block
    ltac:(intros q Hq _; by apply (block_in_runs (tokens_left q)))). finished.
Qed.

Lemma property_runs p :
  ok_tokens p → runs (below (λ pr, parsed I pr.2) p) (parse_property p).
Proof.
  intros Hp. unfold parse_property, expect_semicolon. after ident_runs. expected. after parse_expr_runs.
  expected. finished.
Qed.

Lemma probe_properties_runs fuel : ∀ p,
  ok_tokens p → (tokens_left p ≤ fuel)%nat →
  runs (upto (Forall (λ pr, parsed I pr.2)) p) (probe_properties_in fuel p).
Proof.
  induction fuel as [|fuel IH]; intros p Hp Hf; [unfold tokens_left in Hf; lia|].
  cbn [probe_properties_in]. case_decide; [finished|]. expected. after property_runs. after IH. finished.
Qed.

Abbreviation probe_ok := (λ d, Forall (λ pr, parsed I pr.2) (probe_properties d)).

Lemma probe_body_runs name p : ok_tokens p → runs (below probe_ok p) (parse_probe_body name p).
Proof. intros Hp. unfold parse_probe_body. expected. after probe_properties_runs. expected. finished. Qed.

Lemma probe_ref_runs p :
  ok_tokens p → peek p = TokenKind.Probe → runs (below probe_ok p) (parse_probe_ref p).
Proof.
  intros Hp E. unfold parse_probe_ref, expect_semicolon.
  destruct (advance_ok p Hp ltac:(congruence)). expected. case_decide.
  - eapply runs_weaken; [by apply probe_body_runs|]. intros [d p1] (? & ? & ?). split; [done|split; [done|lia]].
  - after ident_runs. expected. finished.
Qed.

Abbreviation items_ok := (λ r : list (bytes * Expr.t) * option ProbeDecl,
  Forall (λ pr, parsed I pr.2) r.1 ∧ Forall probe_ok (option_list r.2)).

Lemma backend_items_runs fuel : ∀ props probe p,
  ok_tokens p → (tokens_left p ≤ fuel)%nat → items_ok (props, probe) →
  runs (upto items_ok p) (backend_items fuel props probe p).
Proof.
  induction fuel as [|fuel IH]; intros props probe p Hp Hf [Hprops Hprobe]; [unfold tokens_left in Hf; lia|].
  cbn [backend_items]. case_decide; [finished|]. expected. case_decide.
  - after probe_ref_runs.
    eapply runs_weaken; [apply (IH props (Some p0)); [done|lia|split; [done|by repeat constructor]]|].
    intros [r p2] (? & ? & ?). split; [done|split; [done|lia]].
  - after property_runs.
    eapply runs_weaken; [apply (IH (props ++ [p0]) probe); [done|lia|split; [|done]]|].
    { apply Forall_app. by split; [|constructor]. }
    intros [r p2] (? & ? & ?). split; [done|split; [done|lia]].
Qed.

Lemma acl_entry_runs p : ok_tokens p → runs (below (λ _, True) p) (parse_acl_entry p).
Proof.
  intros Hp. unfold parse_acl_entry.
  assert (∃ b p1, eat_exact TokenKind.Not p = (b, p1) ∧ ok_tokens p1 ∧ (tokens_left p1 ≤ tokens_left p)%nat)
    as (b & p1 & -> & Hp1 & Hl1).
  { unfold eat_exact. case_decide as E; (eexists _, _; split; [done|]); [|by split].
    destruct (advance_ok p Hp ltac:(congruence)). split; [done|lia]. }
  eapply (runs_bind (below (λ _, True) p1)).
  { destruct (peek p1) eqn:E; try apply runs_err.
    apply runs_ok. split; [done|]. apply advance_ok; [done|congruence]. }
  intros [addr p2] (_ & ? & ?).
  eapply (runs_bind (upto (λ _, True) p2)).
  { case_decide as E; [|by apply runs_ok]. destruct (advance_ok p2 ltac:(done) ltac:(congruence)).
    destruct (peek (advance p2)) eqn:E2; try apply runs_err.
    destruct (advance_ok (advance p2) ltac:(done) ltac:(congruence)). finished. }
  intros [mask p3] (_ & ? & ?). unfold expect_semicolon. expected. finished.
Qed.

Lemma acl_entries_runs fuel : ∀ p,
  ok_tokens p → (tokens_left p ≤ fuel)%nat → runs (upto (λ _, True) p) (acl_entries_in fuel p).
Proof.
  induction fuel as [|fuel IH]; intros p Hp Hf; [unfold tokens_left in Hf; lia|]. cbn [acl_entries_in].
  case_decide; [finished|]. after acl_entry_runs. after IH. finished.
Qed.

(** Every expression of a program is one the parser builds. *)
Definition program_ok (g : VclProgram) : Prop :=
  Forall (λ d, Forall stmt_ok (sub_body d)) (subs g)
  ∧ Forall (λ d, items_ok (backend_properties d, backend_probe d)) (backends g)
  ∧ Forall probe_ok (probes g).

Lemma decl_runs g p :
  program_ok g → ok_tokens p → runs (below program_ok p) (parse_decl g p).
Proof.
  intros (Hs & Hb & Hpr) Hp. unfold parse_decl.
  destruct (peek p) eqn:E; try apply runs_err.
  - eapply (runs_bind (below (λ d, items_ok (backend_properties d, backend_probe d)) p)).
    + unfold parse_backend. expected. after ident_runs. expected.
      eapply runs_bind; [apply (backend_items_runs (tokens_left a0)); [done|lia|split; constructor]|].
      intros [[props probe] p1] ([? ?] & ? & ?). expected. finished.
    + intros [d p1] (? & ? & ?). apply runs_ok. split; [|by split].
      split_and!; [done| |done]. apply Forall_app. by split; [|constructor].
  - eapply (runs_bind (below probe_ok p)).
    + unfold parse_probe_decl. expected. after ident_runs.
      eapply runs_weaken; [by apply probe_body_runs|]. intros [d p1] (? & ? & ?). split; [done|split; [done|lia]].
    + intros [d p1] (? & ? & ?). apply runs_ok. split; [|by split].
      split_and!; [done..|]. apply Forall_app. by split; [|constructor].
  - eapply (runs_bind (below (λ _, True) p)).
    + unfold parse_acl. expected. after ident_runs. expected. after acl_entries_runs. expected. finished.
    + intros [d p1] (_ & ? & ?). by apply runs_ok.
  - after sub_runs. apply runs_ok. split; [|by split].
    split_and!; [|done..]. apply Forall_app. by split; [|constructor].
  - eapply (runs_bind (below (λ _, True) p)).
    + unfold parse_import, expect_semicolon. expected. after ident_runs. expected. finished.
    + intros [d p1] (_ & ? & ?). by apply runs_ok.
Qed.

Lemma decls_runs fuel : ∀ g p,
  program_ok g → ok_tokens p → (tokens_left p ≤ fuel)%nat → runs program_ok (parse_decls fuel g p).
Proof.
  induction fuel as [|fuel IH]; intros g p Hg Hp Hf; [unfold tokens_left in Hf; lia|]. cbn [parse_decls].
  case_decide; [by apply runs_ok|]. after decl_runs. apply IH; [done..|lia].
Qed.

Lemma program_runs p : ok_tokens p → runs program_ok (parse_program p).
Proof.
  intros Hp. unfold parse_program. eapply (runs_bind (upto (λ _, True) p)).
  - case_decide as E; [|by apply runs_ok].
    eapply (runs_bind (below (λ _, True) p)); [|intros [v p1] (_ & ? & ?); finished].
    unfold parse_vcl_version, expect_semicolon. expected.
    eapply (runs_bind (below (λ _, True) a)); [|intros [v p1] (_ & ? & ?); expected; finished].
    destruct (peek a) eqn:Ea; try apply runs_err;
      (apply runs_ok; split; [done|]; apply advance_ok; [done|congruence]).
  - intros [v p1] (_ & ? & ?). apply decls_runs; [|done|lia]. split_and!; constructor.
Qed.


End progress.

(** [load_vcl] once the file is read: the lexer's tokens, parsed. *)
Definition load_vcl (source : bytes) : bounded VclProgram :=
  tokens ←! tokenize source; Parser_parse tokens.

(** Loading ends, in an error or a program of parsed expressions. *)
Lemma load_vcl_ok source :
  ∃ r, load_vcl source = Some r ∧ ∀ program, r = Ok program → program_ok plain_ident program.
Proof.
  unfold load_vcl. destruct (tokenize_total source) as (r & E & Hr).
  rewrite E. destruct r as [ts|e]; simpl; [|by eexists].
  destruct (Hr ts eq_refl) as (ts' & eof & Hts & Heof & _).
  apply tokenize_idents in E.
  destruct ts as [|t ts]; [by destruct ts'|]. apply (program_runs plain_ident). split; [|exact E].
  exists eof. simpl. rewrite Hts. split; [|done]. apply last_snoc.
Qed.

(** C9. Loading a VCL source always ends, for every byte string: it is a program
    or an error, never an endless loop nor a panic of the parser on an empty
    token list; and every expression of the program has a form the interpreter
    meets: functions are called by one plain identifier, so by a name without a
    dot, methods on variables, and no [RegexLit] or [Concat] node is built.  The
    depth of the machine's stack, which nested expressions use up, is not modelled. *)
Theorem load_vcl_total source :
  ∃ r, load_vcl source = Some r ∧ ∀ program, r = Ok program → program_ok plain_ident program.
Proof. apply load_vcl_ok. Qed.

End parser.
