(* ===== verification/VclPrint.v ===== *)
(** * Printing VCL expressions

    A printer that puts parentheses only where the precedence of the operators
    asks for them, and the round trip through the parser of [rv-vcl/src/parser.rs]:
    the parser has the precedence and the associativity its documentation states,
    [||] lowest, then [&&], the comparisons, [+] and [-], [*] and [/], the unary
    operators; binary operators associate to the left. *)

From S2P Require Import Prelude RustStr F64 VclSyntax Lexer Parser.
Local Open Scope nat_scope.
Local Open Scope vcl_scope.

(** The documented precedence. *)
Definition op_level (op : BinOp.t) : nat :=
  match op with
  | BinOp.Or => 0
  | BinOp.And => 1
  | BinOp.Eq | BinOp.Neq | BinOp.Gt | BinOp.Lt | BinOp.Gte | BinOp.Lte | BinOp.Match
  | BinOp.NotMatch => 2
  | BinOp.Add | BinOp.Sub => 3
  | BinOp.Mul | BinOp.Div => 4
  end.

Definition op_token (op : BinOp.t) : TokenKind.t :=
  match op with
  | BinOp.Or => TokenKind.Or
  | BinOp.And => TokenKind.And
  | BinOp.Eq => TokenKind.Eq
  | BinOp.Neq => TokenKind.Neq
  | BinOp.Gt => TokenKind.Gt
  | BinOp.Lt => TokenKind.Lt
  | BinOp.Gte => TokenKind.Gte
  | BinOp.Lte => TokenKind.Lte
  | BinOp.Match => TokenKind.Match
  | BinOp.NotMatch => TokenKind.NotMatch
  | BinOp.Add => TokenKind.Plus
  | BinOp.Sub => TokenKind.Minus
  | BinOp.Mul => TokenKind.Star
  | BinOp.Div => TokenKind.Slash
  end.

Definition unary_token (op : UnaryOp.t) : TokenKind.t :=
  match op with UnaryOp.Not => TokenKind.Not | UnaryOp.Negate => TokenKind.Minus end.

(** The level of an expression's outermost operator; 6 for the primary ones. *)
Definition expr_level (e : Expr.t) : nat :=
  match e with
  | Expr.BinaryOp _ op _ => op_level op
  | Expr.UnaryOp _ _ => 5
  | _ => 6
  end.

Definition parens (b : bool) (ks : list TokenKind.t) : list TokenKind.t :=
  if b then TokenKind.LParen :: ks ++ [TokenKind.RParen] else ks.

(** [a.b.c] as tokens. *)
Fixpoint print_parts (parts : list bytes) : list TokenKind.t :=
  match parts with
  | [] => []
  | part :: parts => TokenKind.Dot :: TokenKind.Ident part :: print_parts parts
  end.
Definition print_name (name : bytes) : list TokenKind.t :=
  match split_char x2e name with
  | [] => []
  | first :: parts => TokenKind.Ident first :: print_parts parts
  end.

Fixpoint separate (kss : list (list TokenKind.t)) : list TokenKind.t :=
  match kss with
  | [] => []
  | [ks] => ks
  | ks :: kss => ks ++ TokenKind.Comma :: separate kss
  end.

Fixpoint print_expr (e : Expr.t) : list TokenKind.t :=
  let print_at k e := parens (expr_level e <? k) (print_expr e) in
  match e with
  | Expr.StringLit s => [TokenKind.StringLit s]
  | Expr.IntLit v => [TokenKind.IntLit v]
  | Expr.RealLit v => [TokenKind.RealLit v]
  | Expr.DurationLit v => [TokenKind.DurationLit v]
  | Expr.BoolLit v => [TokenKind.BoolLit v]
  | Expr.Ident n => [TokenKind.Ident n]
  | Expr.Variable_ n => print_name n
  | Expr.HeaderRef o h =>
      TokenKind.Ident o :: TokenKind.Dot :: TokenKind.Ident (str "http") :: TokenKind.Dot :: print_name h
  | Expr.BinaryOp l op r =>
      print_at (op_level op) l ++ op_token op :: print_at (S (op_level op)) r
  | Expr.UnaryOp op e => unary_token op :: print_at 5 e
  | Expr.FunctionCall n args =>
      TokenKind.Ident n :: TokenKind.LParen :: separate (map print_expr args) ++ [TokenKind.RParen]
  | Expr.MethodCall o m args =>
      match o with Expr.Variable_ n => print_name n | _ => [] end
      ++ TokenKind.Dot :: TokenKind.Ident m :: TokenKind.LParen :: separate (map print_expr args)
      ++ [TokenKind.RParen]
  | Expr.RegexLit _ | Expr.Concat _ => []
  end.

Definition print_at (k : nat) (e : Expr.t) : list TokenKind.t :=
  parens (expr_level e <? k) (print_expr e).

(** A dotted name the parser does not read as a header reference. *)
Definition variable_name (parts : list bytes) : Prop :=
  2 ≤ length parts ∧ ¬ (3 ≤ length parts ∧ parts !! 1 = Some (str "http")).

(** The expressions VCL source can denote. *)
Inductive printable : Expr.t → Prop :=
| pr_string s : printable (Expr.StringLit s)
| pr_int v : printable (Expr.IntLit v)
| pr_real v : printable (Expr.RealLit v)
| pr_duration v : printable (Expr.DurationLit v)
| pr_bool v : printable (Expr.BoolLit v)
| pr_ident n : printable (Expr.Ident n)
| pr_variable n : variable_name (split_char x2e n) → printable (Expr.Variable_ n)
| pr_header o h : printable (Expr.HeaderRef o h)
| pr_binary l op r : printable l → printable r → printable (Expr.BinaryOp l op r)
| pr_unary op e : printable e → printable (Expr.UnaryOp op e)
| pr_function n args : Forall printable args → printable (Expr.FunctionCall n args)
| pr_method o m args :
    x2e ∉ m → variable_name (split_char x2e o ++ [m]) → Forall printable args →
    printable (Expr.MethodCall (Expr.Variable_ o) m args).

Section print.
  Context {corefmt : CoreFmt}.

Definition kinds (p : parser) : list TokenKind.t := kind <$> (cur p :: ahead p).

Lemma kinds_cons p k ks : kinds p = k :: ks → peek p = k.
Proof. unfold kinds, peek. by intros [= <- _]. Qed.

Lemma kinds_advance p k ks : kinds p = k :: ks → ks ≠ [] → kinds (advance p) = ks.
Proof.
  unfold kinds, advance. destruct p as [c [|c' a]]; simpl; intros [= <- <-] Hne; [done|].
  done.
Qed.

Lemma kinds_left p : tokens_left p = length (kinds p).
Proof. unfold tokens_left, kinds. by rewrite length_fmap. Qed.

(** The parser of each level, and its operators. *)
Definition level_parse (pe : parses Expr.t) (k : nat) : parses Expr.t :=
  match k with
  | 0 => parse_or pe
  | 1 => parse_and pe
  | 2 => parse_comparison pe
  | 3 => parse_additive pe
  | 4 => parse_multiplicative pe
  | 5 => λ p, parse_unary pe (tokens_left p) p
  | _ => parse_postfix pe
  end.
Definition op_at (k : nat) : TokenKind.t → option BinOp.t :=
  match k with
  | 0 => or_op | 1 => and_op | 2 => comparison_op | 3 => add_op | 4 => mul_op | _ => λ _, None
  end.

Lemma level_parse_binary pe k : k ≤ 4 → level_parse pe k = binary_level (op_at k) (level_parse pe (S k)).
Proof. intros Hk. do 5 (destruct k as [|k]; [done|]). lia. Qed.

Lemma op_at_token op : op_at (op_level op) (op_token op) = Some op.
Proof. by destruct op. Qed.

Lemma op_at_other op j : op_level op < j → op_at j (op_token op) = None.
Proof. intros Hj. do 5 (destruct j as [|j]; [by destruct op; simpl in *; try lia|]). done. Qed.

(** What may follow an expression printed at level [k]. *)
Definition stops (k : nat) (ks : list TokenKind.t) : Prop :=
  match ks with
  | [] => False
  | t :: _ => t ≠ TokenKind.LParen ∧ t ≠ TokenKind.Dot ∧ ∀ j, k ≤ j → op_at j t = None
  end.

Lemma stops_weaken k k' ks : k ≤ k' → stops k ks → stops k' ks.
Proof. destruct ks; [done|]. intros Hk (? & ? & H). split_and!; [done..|]. intros j Hj. apply H. lia. Qed.

Lemma stops_op op ks : stops (S (op_level op)) (op_token op :: ks).
Proof. split_and!; [by destruct op..|]. intros j Hj. apply op_at_other. lia. Qed.

Lemma stops_rparen k ks : stops k (TokenKind.RParen :: ks).
Proof. split_and!; [done..|]. intros j _. by do 5 (destruct j as [|j]; [done|]). Qed.

Lemma stops_comma k ks : stops k (TokenKind.Comma :: ks).
Proof. split_and!; [done..|]. intros j _. by do 5 (destruct j as [|j]; [done|]). Qed.

Lemma stops_ne k ks : stops k ks → ks ≠ [].
Proof. by destruct ks. Qed.

(** [f] reads the tokens [ks] as [a] and stands on those behind. *)
Definition reads_as {A} (f : parses A) (a : A) (p : parser) (rest : list TokenKind.t) : Prop :=
  ∃ p', f p = Some (Ok (a, p')) ∧ kinds p' = rest.

Lemma expect_reads k p ks :
  kinds p = k :: ks → ks ≠ [] → ∃ p', expect_kind k p = Some (Ok p') ∧ kinds p' = ks.
Proof.
  intros Hp Hne. exists (advance p). unfold expect_kind. rewrite decide_True by (by eapply kinds_cons).
  split; [done|]. by eapply kinds_advance.
Qed.

(** The token behind a dotted name. *)
Definition no_dot (ks : list TokenKind.t) : Prop :=
  match ks with [] => False | t :: _ => t ≠ TokenKind.Dot end.

Lemma stops_no_dot k ks : stops k ks → no_dot ks.
Proof. destruct ks; [done|]. by intros (_ & ? & _). Qed.

Lemma dotted_reads parts : ∀ fuel p rest,
  kinds p = print_parts parts ++ rest → no_dot rest → length (kinds p) ≤ fuel →
  reads_as (dotted_parts fuel) parts p rest.
Proof.
  induction parts as [|part parts IH]; intros fuel p rest Hp Hs Hf;
    (destruct fuel as [|fuel]; [by rewrite Hp, ?length_app in Hf; destruct rest; simpl in Hf; (done || lia)|]);
    unfold reads_as; cbn [dotted_parts].
  - exists p. rewrite decide_False; [done|]. destruct rest as [|t rest]; [done|].
    rewrite (kinds_cons _ _ _ Hp). done.
  - simpl in Hp. assert (Hr : print_parts parts ++ rest ≠ []).
    { intros [_ ->]%app_nil. done. }
    rewrite decide_True by (by eapply kinds_cons).
    assert (Hp1 : kinds (advance p) = TokenKind.Ident part :: print_parts parts ++ rest)
      by by eapply kinds_advance.
    assert (Hp2 : kinds (advance (advance p)) = print_parts parts ++ rest) by by eapply kinds_advance.
    destruct (IH fuel (advance (advance p)) rest Hp2 Hs) as (p' & E & Hp').
    { rewrite Hp in Hf. rewrite Hp2. simpl in Hf. lia. }
    exists p'. unfold expect_ident. rewrite (kinds_cons _ _ _ Hp1). simpl. by rewrite E.
Qed.

Lemma print_name_cons n : ∃ first parts,
  split_char x2e n = first :: parts ∧ print_name n = TokenKind.Ident first :: print_parts parts.
Proof.
  unfold print_name. destruct (split_char x2e n) as [|first parts] eqn:E; [|by eexists _, _].
  exfalso. revert E. by destruct n as [|c n]; simpl; repeat case_match.
Qed.

(** The identifier and the dotted name behind it, as [parse_primary] reads them. *)
Lemma primary_dotted pe p first parts rest :
  parts ≠ [] → kinds p = TokenKind.Ident first :: print_parts parts ++ rest → no_dot rest →
  ∃ p', parse_primary pe p = Some (Ok
          (match parts with
           | second :: ((_ :: _) as header) =>
               if decide (second = str "http") then Expr.HeaderRef first (join [x2e] header)
               else Expr.Variable_ (join [x2e] (first :: parts))
           | _ => Expr.Variable_ (join [x2e] (first :: parts))
           end, p')) ∧ kinds p' = rest.
Proof.
  intros Hne Hp Hs. assert (Hr : print_parts parts ++ rest ≠ []) by (intros [_ ->]%app_nil; done).
  assert (Hp1 : kinds (advance p) = print_parts parts ++ rest) by by eapply kinds_advance.
  destruct (dotted_reads parts (tokens_left (advance p)) (advance p) rest Hp1 Hs) as (p' & E & Hp').
  { by rewrite kinds_left. }
  exists p'. split; [|done]. unfold parse_primary. rewrite (kinds_cons _ _ _ Hp).
  unfold expect_ident. rewrite (kinds_cons _ _ _ Hp). cbn [bounded_bind].
  destruct parts as [|part parts]; [done|]. rewrite decide_True by exact (kinds_cons _ _ _ Hp1).
  unfold parse_dotted_expr. rewrite E. done.
Qed.

(** Printing then reading a variable name. *)
Lemma primary_variable pe p n rest :
  variable_name (split_char x2e n) → kinds p = print_name n ++ rest → no_dot rest →
  reads_as (parse_primary pe) (Expr.Variable_ n) p rest.
Proof.
  intros [Hlen Hhttp] Hp Hs. destruct (print_name_cons n) as (first & parts & Esplit & Eprint).
  rewrite Eprint in Hp. rewrite Esplit in Hlen, Hhttp.
  destruct (primary_dotted pe p first parts rest) as (p' & E & Hp'); [by destruct parts; simpl in Hlen; [lia|]|done..|].
  exists p'. split; [|done]. rewrite E. rewrite <-(split_char_join x2e n), Esplit. do 3 f_equal.
  destruct parts as [|second [|third parts]]; [done..|].
  rewrite decide_False; [done|]. intros ->. apply Hhttp. simpl. split; [lia|done].
Qed.

(** The first token of an expression. *)
Lemma print_head e : printable e → ∃ t ts, print_expr e = t :: ts ∧ t ≠ TokenKind.RParen
  ∧ (5 < expr_level e → t ≠ TokenKind.Not ∧ t ≠ TokenKind.Minus).
Proof.
  induction 1 as [s|v|v|v|v|n|n Hn|o h|l op r Hl IHl Hr IHr|op e He IHe|n args|o m args]; simpl;
    try by eexists _, _.
  - destruct (print_name_cons n) as (first & parts & _ & ->). by eexists _, _.
  - destruct IHl as (t & ts & E & Ht & _). unfold parens.
    destruct (_ <? _); [|rewrite E]; eexists _, _; (split; [done|]); (split; [done|]);
      (destruct op; simpl; lia).
  - eexists _, _. split; [done|]. split; [by destruct op|]. lia.
  - destruct (print_name_cons o) as (first & parts & _ & ->). by eexists _, _.
Qed.

Section level.
  Context (f : nat) (pe : parses Expr.t).
  Context (Hpe : ∀ e p rest, printable e → kinds p = print_expr e ++ rest → stops 0 rest →
                   length (kinds p) ≤ f → reads_as pe e p rest).

Lemma more_args_reads args : ∀ fuel p rest,
  Forall printable args → rest ≠ [] → length (kinds p) ≤ f → length (kinds p) ≤ fuel →
  kinds p = concat (map (λ a, TokenKind.Comma :: print_expr a) args) ++ TokenKind.RParen :: rest →
  reads_as (more_args pe fuel) args p (TokenKind.RParen :: rest).
Proof.
  induction args as [|a args IH]; intros fuel p rest HF Hne Hf Hfu Hp;
    (destruct fuel as [|fuel]; [by rewrite Hp, length_app in Hfu; simpl in Hfu; lia|]);
    unfold reads_as; cbn [more_args]; unfold eat_exact.
  - exists p. by rewrite decide_False by by rewrite (kinds_cons _ _ _ Hp).
  - apply Forall_cons in HF as [Ha HF]. simpl in Hp. rewrite <-app_assoc in Hp.
    rewrite decide_True by by rewrite (kinds_cons _ _ _ Hp).
    set (rest1 := concat (map (λ a, TokenKind.Comma :: print_expr a) args) ++ TokenKind.RParen :: rest) in *.
    assert (Hs : stops 0 rest1) by (unfold rest1; destruct args; [apply stops_rparen|apply stops_comma]).
    assert (Hp1 : kinds (advance p) = print_expr a ++ rest1).
    { eapply kinds_advance; [exact Hp|]. intros [_ E]%app_nil. by rewrite E in Hs. }
    rewrite Hp in Hf, Hfu. simpl in Hf, Hfu. rewrite <-Hp1 in Hf, Hfu.
    destruct (Hpe a (advance p) rest1) as (p1 & E1 & Hk1); [done..|lia|]. rewrite E1. cbn [bounded_bind].
    destruct (IH fuel p1 rest) as (p2 & E2 & Hk2); [done..| | |done|].
    { rewrite Hk1. rewrite Hp1, length_app in Hf. lia. }
    { rewrite Hk1. rewrite Hp1, length_app in Hfu. lia. }
    exists p2. by rewrite E2.
Qed.

Lemma separate_cons a args :
  separate (map print_expr (a :: args))
  = print_expr a ++ concat (map (λ a, TokenKind.Comma :: print_expr a) args).
Proof.
  revert a. induction args as [|b args IH]; intros a; [by rewrite app_nil_r|].
  change (separate (map print_expr (a :: b :: args)))
    with (print_expr a ++ TokenKind.Comma :: separate (map print_expr (b :: args))).
  rewrite IH. done.
Qed.

Lemma arg_list_reads args p rest :
  Forall printable args → rest ≠ [] → length (kinds p) ≤ f →
  kinds p = separate (map print_expr args) ++ TokenKind.RParen :: rest →
  reads_as (parse_arg_list pe) args p (TokenKind.RParen :: rest).
Proof.
  intros HF Hne Hf Hp. unfold reads_as, parse_arg_list. destruct args as [|a args].
  { exists p. by rewrite decide_True by by rewrite (kinds_cons _ _ _ Hp). }
  rewrite separate_cons, <-app_assoc in Hp. apply Forall_cons in HF as [Ha HF].
  destruct (print_head a Ha) as (t & ts & Et & Ht & _).
  rewrite decide_False by by rewrite Et in Hp; rewrite (kinds_cons _ _ _ Hp).
  destruct (Hpe a p _ Ha Hp) as (p1 & E1 & Hk1); [|done|].
  { destruct args; [apply stops_rparen|apply stops_comma]. }
  rewrite E1. cbn [bounded_bind].
  destruct (more_args_reads args (tokens_left p1) p1 rest) as (p2 & E2 & Hk2); [done..| |by rewrite kinds_left|done|].
  { rewrite Hk1. rewrite Hp, length_app in Hf. lia. }
  exists p2. by rewrite E2.
Qed.

(** [( args )] behind the name of a function or a method. *)
Lemma call_reads {B} args p rest (k : list Expr.t → B) :
  Forall printable args → rest ≠ [] → length (kinds p) ≤ S f →
  kinds p = TokenKind.LParen :: separate (map print_expr args) ++ TokenKind.RParen :: rest →
  ∃ p', ('(args, p) ←! parse_arg_list pe (advance p); p ←! expect_kind TokenKind.RParen p;
         Some (Ok (k args, p))) = Some (Ok (k args, p')) ∧ kinds p' = rest.
Proof.
  intros HF Hne Hf Hp.
  assert (Hp1 : kinds (advance p) = separate (map print_expr args) ++ TokenKind.RParen :: rest).
  { eapply kinds_advance; [exact Hp|]. by intros [_ ?]%app_nil. }
  destruct (arg_list_reads args (advance p) rest) as (p1 & E1 & Hk1); [done..| |done|].
  { rewrite Hp in Hf. rewrite Hp1. simpl in Hf. lia. }
  destruct (expect_reads TokenKind.RParen p1 rest Hk1 Hne) as (p2 & E2 & Hk2).
  exists p2. rewrite E1. cbn [bounded_bind]. by rewrite E2.
Qed.

(** A primary expression that is not followed by an argument list. *)
Lemma postfix_of_primary e p rest :
  reads_as (parse_primary pe) e p rest → stops 6 rest → reads_as (parse_postfix pe) e p rest.
Proof.
  intros (p' & E & Hk) Hs. exists p'. unfold parse_postfix. rewrite E. cbn [bounded_bind].
  rewrite decide_False; [done|]. destruct rest as [|t rest]; [done|].
  rewrite (kinds_cons _ _ _ Hk). by destruct Hs.
Qed.

Lemma paren_reads e p rest :
  printable e → kinds p = TokenKind.LParen :: print_expr e ++ TokenKind.RParen :: rest →
  rest ≠ [] → length (kinds p) ≤ S f → reads_as (parse_primary pe) e p rest.
Proof.
  intros He Hp Hne Hf.
  assert (Hp1 : kinds (advance p) = print_expr e ++ TokenKind.RParen :: rest).
  { eapply kinds_advance; [exact Hp|]. by intros [_ ?]%app_nil. }
  destruct (Hpe e (advance p) (TokenKind.RParen :: rest)) as (p1 & E1 & Hk1); [done..|apply stops_rparen| |].
  { rewrite Hp in Hf. rewrite Hp1. simpl in Hf. lia. }
  destruct (expect_reads TokenKind.RParen p1 rest Hk1 Hne) as (p2 & E2 & Hk2).
  exists p2. split; [|done]. unfold parse_primary. rewrite (kinds_cons _ _ _ Hp), E1.
  cbn [bounded_bind]. by rewrite E2.
Qed.

Lemma literal_reads e t p rest :
  print_expr e = [t] → (∀ q, peek q = t → parse_primary pe q = Some (Ok (e, advance q))) →
  kinds p = print_expr e ++ rest → rest ≠ [] → reads_as (parse_primary pe) e p rest.
Proof.
  intros Ht Hprim Hp Hne. rewrite Ht in Hp. exists (advance p).
  split; [apply Hprim; exact (kinds_cons _ _ _ Hp)|]. by eapply kinds_advance.
Qed.

Lemma split_name_app o m : x2e ∉ m → split_char x2e (o ++ [x2e] ++ m) = split_char x2e o ++ [m].
Proof.
  intros Hm. induction o as [|c o IH]; simpl.
  - by rewrite (split_char_no_sep x2e m).
  - simpl in IH. rewrite IH. case_decide; [done|].
    pose proof (split_char_nonempty x2e o). by destruct (split_char x2e o).
Qed.

Lemma print_parts_app l m : print_parts (l ++ [m]) = print_parts l ++ [TokenKind.Dot; TokenKind.Ident m].
Proof. induction l as [|a l IH]; simpl; [done|]. by rewrite IH. Qed.

Lemma rsplit_dot_method o m : x2e ∉ m → rsplit_dot (o ++ [x2e] ++ m) = Some (o, m).
Proof.
  intros Hm. unfold rsplit_dot. rewrite !reverse_app, <-app_assoc. change (reverse [x2e]) with [x2e].
  change ([x2e] ++ reverse o) with (x2e :: reverse o).
  rewrite (split_once_byte_Some x2e (reverse m) (reverse o)) by by rewrite elem_of_reverse.
  simpl. by rewrite !reverse_involutive.
Qed.

Lemma method_reads o m args p rest :
  x2e ∉ m → variable_name (split_char x2e o ++ [m]) → Forall printable args → rest ≠ [] →
  length (kinds p) ≤ S f →
  kinds p = print_name o ++ TokenKind.Dot :: TokenKind.Ident m :: TokenKind.LParen
            :: separate (map print_expr args) ++ TokenKind.RParen :: rest →
  reads_as (parse_postfix pe) (Expr.MethodCall (Expr.Variable_ o) m args) p rest.
Proof.
  intros Hm Hv HF Hne Hf Hp.
  assert (Hname : print_name (o ++ [x2e] ++ m) = print_name o ++ [TokenKind.Dot; TokenKind.Ident m]).
  { unfold print_name. rewrite split_name_app by done. pose proof (split_char_nonempty x2e o).
    destruct (split_char x2e o) as [|first parts]; [done|]. simpl. by rewrite print_parts_app. }
  destruct (primary_variable pe p (o ++ [x2e] ++ m) (TokenKind.LParen
    :: separate (map print_expr args) ++ TokenKind.RParen :: rest)) as (p1 & E1 & Hk1).
  - by rewrite split_name_app.
  - rewrite Hname, Hp. by rewrite <-app_assoc.
  - done.
  - unfold reads_as, parse_postfix. rewrite E1. cbn [bounded_bind].
    rewrite decide_True by exact (kinds_cons _ _ _ Hk1). rewrite rsplit_dot_method by done.
    apply (call_reads args p1 rest (λ args, Expr.MethodCall (Expr.Variable_ o) m args)); try done.
    rewrite Hk1. rewrite Hp, length_app in Hf. simpl in *. lia.
Qed.

Lemma function_reads n args p rest :
  Forall printable args → rest ≠ [] → length (kinds p) ≤ S f →
  kinds p = TokenKind.Ident n :: TokenKind.LParen
            :: separate (map print_expr args) ++ TokenKind.RParen :: rest →
  reads_as (parse_postfix pe) (Expr.FunctionCall n args) p rest.
Proof.
  intros HF Hne Hf Hp. assert (Hp1 := kinds_advance _ _ _ Hp ltac:(done)).
  unfold reads_as, parse_postfix, parse_primary. rewrite (kinds_cons _ _ _ Hp).
  unfold expect_ident. rewrite (kinds_cons _ _ _ Hp). cbn [bounded_bind].
  rewrite (kinds_cons _ _ _ Hp1). rewrite decide_False by done. cbn [bounded_bind].
  rewrite (kinds_cons _ _ _ Hp1). rewrite decide_True by done.
  apply (call_reads args (advance p) rest (Expr.FunctionCall n)); try done.
  rewrite Hp1. rewrite Hp in Hf. simpl in *. lia.
Qed.

(** The level of postfix and primary expressions. *)
Lemma postfix_reads e p rest :
  printable e → kinds p = print_at 6 e ++ rest → stops 6 rest → length (kinds p) ≤ S f →
  reads_as (parse_postfix pe) e p rest.
Proof.
  intros He Hp Hs Hf. assert (Hne := stops_ne _ _ Hs). assert (Hnd := stops_no_dot _ _ Hs).
  unfold print_at, parens in Hp.
  destruct (Nat.ltb_spec (expr_level e) 6) as [Hl|Hl].
  { simpl in Hp. rewrite <-app_assoc in Hp. apply postfix_of_primary; [|done]. by apply paren_reads. }
  destruct He as [s|v|v|v|v|n|n Hn|o h|l op r Hll Hr|op e' He|n args HF|o m args Hm Hv HF];
    try (apply postfix_of_primary; [|done]; eapply literal_reads; [done| |done|done];
         intros q Hq; unfold parse_primary; by rewrite Hq).
  - apply postfix_of_primary; [|done]. simpl in Hp. assert (Hp1 := kinds_advance _ _ _ Hp Hne).
    exists (advance p). split; [|done]. unfold parse_primary, expect_ident.
    rewrite (kinds_cons _ _ _ Hp). cbn [bounded_bind]. rewrite decide_False; [done|].
    destruct rest; [done|]. by rewrite (kinds_cons _ _ _ Hp1).
  - apply postfix_of_primary; [|done]. by apply primary_variable.
  - apply postfix_of_primary; [|done]. destruct (print_name_cons h) as (first & parts & Eh & Ep).
    simpl in Hp. rewrite Ep in Hp.
    destruct (primary_dotted pe p o (str "http" :: first :: parts) rest) as (p' & E & Hk); [done..|].
    exists p'. split; [|done]. rewrite E. rewrite decide_True by done.
    rewrite <-(split_char_join x2e h), Eh. done.
  - destruct op; simpl in Hl; lia.
  - simpl in Hl; lia.
  - apply function_reads; try done. rewrite Hp. simpl. by rewrite <-app_assoc.
  - apply method_reads; try done. rewrite Hp. simpl. rewrite <-!app_assoc. simpl. by rewrite <-app_assoc.
Qed.
Lemma print_at_same k e : expr_level e ≠ k → print_at k e = print_at (S k) e.
Proof.
  intros Hk. unfold print_at. destruct (Nat.ltb_spec (expr_level e) k), (Nat.ltb_spec (expr_level e) (S k)); done || lia.
Qed.

Lemma print_at_exact k e : expr_level e = k → print_at k e = print_expr e.
Proof. intros <-. unfold print_at. by rewrite Nat.ltb_irrefl. Qed.

Lemma parse_unary_postfix fuel p :
  peek p ≠ TokenKind.Not → peek p ≠ TokenKind.Minus → parse_unary pe (S fuel) p = parse_postfix pe p.
Proof. intros H1 H2. cbn [parse_unary]. by destruct (peek p). Qed.

(** An expression printed at level 5 that is not a unary operation. *)
Lemma unary_other e p rest :
  expr_level e ≠ 5 → printable e → kinds p = print_at 5 e ++ rest → stops 5 rest →
  length (kinds p) ≤ S f → reads_as (level_parse pe 5) e p rest.
Proof.
  intros Hl He Hp Hs Hf. rewrite print_at_same in Hp by done.
  destruct (postfix_reads e p rest He Hp (stops_weaken 5 6 _ ltac:(lia) Hs) Hf) as (p' & E & Hk).
  exists p'. split; [|done]. unfold level_parse. unfold tokens_left. rewrite <-E.
  apply parse_unary_postfix; unfold print_at, parens in Hp;
    (destruct (Nat.ltb_spec (expr_level e) 6) as [H6|H6];
     [by rewrite (kinds_cons _ _ _ Hp)
     |destruct (print_head e He) as (t & ts & Et & _ & Ht); rewrite Et in Hp;
      rewrite (kinds_cons _ _ _ Hp); by apply Ht]).
Qed.

Lemma unary_reads e : ∀ p rest,
  printable e → kinds p = print_at 5 e ++ rest → stops 5 rest → length (kinds p) ≤ S f →
  reads_as (level_parse pe 5) e p rest.
Proof.
  induction e as [s|v|v|v|v|n|n|o h|l op r _ _|op e IH|n args|o m args _ _|r|parts] using Expr.expr_ind_nested;
    intros p rest He Hp Hs Hf; try (apply unary_other; [simpl; try destruct op; done|done..]).
  inversion He as [| | | | | | | | |op' e' He'| |]; subst.
  rewrite print_at_exact in Hp by done.
  change (print_expr (Expr.UnaryOp op e)) with (unary_token op :: print_at 5 e) in Hp.
  assert (Hp1 : kinds (advance p) = print_at 5 e ++ rest).
  { eapply kinds_advance; [exact Hp|]. intros [_ ->]%app_nil. done. }
  destruct (IH (advance p) rest He' Hp1 Hs) as (p' & E & Hk).
  { rewrite Hp1. rewrite Hp in Hf. simpl in Hf. lia. }
  assert (Hl : tokens_left p = S (tokens_left (advance p))).
  { rewrite !kinds_left, Hp, Hp1. done. }
  exists p'. split; [|done]. unfold level_parse in *. rewrite Hl. cbn [parse_unary].
  rewrite (kinds_cons _ _ _ Hp). destruct op; cbn [unary_token]; by rewrite E.
Qed.

Lemma binary_loop_mono op_of next fuel : ∀ fuel' e p x,
  binary_loop op_of next fuel e p = Some (Ok x) → fuel ≤ fuel' →
  binary_loop op_of next fuel' e p = Some (Ok x).
Proof.
  induction fuel as [|fuel IH]; intros fuel' e p x; [done|].
  destruct fuel' as [|fuel']; [lia|]. cbn [binary_loop]. destruct (op_of (peek p)) as [op|]; [|done].
  rewrite !bounded_bind_ok. intros ([r p1] & E & Hx) Hf. exists (r, p1). split; [done|].
  apply IH; [done|lia].
Qed.

(** At a binary level the parser reaches the loop with [e] read and the tokens
    behind it ahead. *)
Definition enters_loop (k : nat) (e : Expr.t) (p : parser) (rest : list TokenKind.t) : Prop :=
  ∃ p', kinds p' = rest ∧ ∀ fuel x,
    binary_loop (op_at k) (level_parse pe (S k)) fuel e p' = Some (Ok x) → fuel ≤ tokens_left p' →
    level_parse pe k p = Some (Ok x).

Lemma enters_next k e p rest :
  k ≤ 4 → reads_as (level_parse pe (S k)) e p rest → enters_loop k e p rest.
Proof.
  intros Hk (p' & E & Hp'). exists p'. split; [done|]. intros fuel x Hx Hf.
  rewrite level_parse_binary by done. unfold binary_level. rewrite E. cbn [bounded_bind].
  by eapply binary_loop_mono.
Qed.

Lemma enters_stops k e p rest :
  enters_loop k e p rest → stops k rest → reads_as (level_parse pe k) e p rest.
Proof.
  intros (p' & Hp' & Hx) Hs. exists p'. split; [|done]. apply (Hx 1).
  - cbn [binary_loop]. destruct rest as [|t rest]; [done|]. rewrite (kinds_cons _ _ _ Hp').
    destruct Hs as (_ & _ & Hop). by rewrite Hop by lia.
  - unfold tokens_left. lia.
Qed.

(** One operation of the level. *)
Lemma enters_binary l op r p rest :
  let k := op_level op in
  (∀ rest', kinds p = print_at k l ++ rest' → stops (S k) rest' → enters_loop k l p rest') →
  (∀ q, kinds q = print_at (S k) r ++ rest → length (kinds q) ≤ length (kinds p) →
        reads_as (level_parse pe (S k)) r q rest) →
  kinds p = print_expr (Expr.BinaryOp l op r) ++ rest → rest ≠ [] →
  enters_loop k (Expr.BinaryOp l op r) p rest.
Proof.
  intros k Hl Hr Hp Hne.
  assert (Hp1 : kinds p = print_at k l ++ op_token op :: print_at (S k) r ++ rest).
  { rewrite Hp. simpl. by rewrite <-app_assoc. }
  destruct (Hl _ Hp1 (stops_op op _)) as (p1 & Hk1 & Hx1).
  assert (Hp2 : kinds (advance p1) = print_at (S k) r ++ rest).
  { eapply kinds_advance; [exact Hk1|]. by intros [_ ?]%app_nil. }
  destruct (Hr _ Hp2) as (p3 & E3 & Hk3).
  { rewrite Hp2, Hp1, !length_app. simpl. rewrite length_app. lia. }
  exists p3. split; [done|]. intros fuel x Hx Hf. apply (Hx1 (S fuel)).
  - cbn [binary_loop]. rewrite (kinds_cons _ _ _ Hk1). unfold k at 1. rewrite op_at_token, E3. done.
  - rewrite kinds_left in *. rewrite Hk1, Hk3 in *. simpl. rewrite length_app. lia.
Qed.

(** An expression printed at a level is read by the parser of that level. *)
Definition level_ok (e : Expr.t) : Prop :=
  ∀ k p rest, k ≤ 5 → kinds p = print_at k e ++ rest → length (kinds p) ≤ S f →
    (stops k rest → reads_as (level_parse pe k) e p rest)
    ∧ (k ≤ 4 → stops (S k) rest → enters_loop k e p rest).

Lemma level_step e :
  printable e → (∀ l op r, e = Expr.BinaryOp l op r → level_ok l ∧ level_ok r) → level_ok e.
Proof.
  intros He Hsub k. remember (5 - k) as j eqn:Hj. revert k Hj.
  induction j as [|j IH]; intros k Hj p rest Hk Hp Hf.
  { assert (k = 5) as -> by lia. split; [|lia]. intros Hs. by apply unary_reads. }
  assert (Hent : stops (S k) rest → enters_loop k e p rest).
  { intros Hs. destruct (decide (expr_level e = k)) as [Hlvl|Hlvl].
    - destruct e; simpl in Hlvl; try lia. subst k. destruct (Hsub _ _ _ eq_refl) as [Hl Hr].
      rewrite print_at_exact in Hp by done. apply enters_binary; [| |done|by eapply stops_ne].
      + intros rest' Hp' Hs'. by apply Hl; [lia| | |lia|].
      + intros q Hq Hlen. apply Hr; [lia|done|lia|done].
    - apply enters_next; [lia|]. rewrite print_at_same in Hp by done. apply (IH (S k)); [lia..|done|done|done]. }
  split; [|done]. intros Hs. apply enters_stops; [|done]. apply Hent. eapply stops_weaken; [|exact Hs]. lia.
Qed.

Lemma levels_ok e : printable e → level_ok e.
Proof.
  induction e as [| | | | | | | |l op r IHl IHr| | | | |] using Expr.expr_ind_nested; intros He;
    apply level_step; try done.
  intros l' op' r' [= <- <- <-]. inversion He; subst. by split; [apply IHl|apply IHr].
Qed.

End level.

Lemma parse_expr_in_reads fuel : ∀ e p rest,
  printable e → kinds p = print_expr e ++ rest → stops 0 rest → length (kinds p) ≤ fuel →
  reads_as (parse_expr_in fuel) e p rest.
Proof.
  induction fuel as [|fuel IH]; intros e p rest He Hp Hs Hf; [simpl in Hf; lia|].
  apply (levels_ok fuel _ IH e He 0); [lia|by rewrite Hp|lia|done].
Qed.

(** C10. The expression parser inverts the printer: a printed expression, with
    parentheses only where the precedence asks for them, is read back as the same
    tree, whatever the tokens' positions and whatever follows that is neither an
    operator, an argument list nor a dot.  So the parser has the precedence and
    the left associativity its documentation states, on expressions of any depth. *)
Theorem expr_roundtrip e p rest :
  printable e → kinds p = print_expr e ++ rest → stops 0 rest →
  ∃ p', parse_expr p = Some (Ok (e, p')) ∧ kinds p' = rest.
Proof. intros He Hp Hs. apply parse_expr_in_reads; [done..|]. by rewrite kinds_left. Qed.

End print.

(** [!(a.b || f(1, x)) && req.http.Host == "h" - 2 - 3;] *)
Definition sample_expr : Expr.t :=
  Expr.BinaryOp
    (Expr.UnaryOp UnaryOp.Not
       (Expr.BinaryOp (Expr.Variable_ (str "a.b")) BinOp.Or
          (Expr.FunctionCall (str "f") [Expr.IntLit 1; Expr.Ident (str "x")])))
    BinOp.And
    (Expr.BinaryOp (Expr.HeaderRef (str "req") (str "Host")) BinOp.Eq
       (Expr.BinaryOp (Expr.BinaryOp (Expr.StringLit (str "h")) BinOp.Sub (Expr.IntLit 2)) BinOp.Sub
          (Expr.IntLit 3))).

#[local] Instance sample_corefmt : CoreFmt := { fmt_f64 _ := []; char_debug _ := [] }.

Definition sample_tokens : list Token :=
  (λ k, mkToken k 1 1) <$> print_expr sample_expr ++ [TokenKind.Semicolon; TokenKind.Eof].
Definition sample_parser : parser :=
  match sample_tokens with t :: ts => mkParser t ts | [] => mkParser (mkToken TokenKind.Eof 1 1) [] end.

Lemma expr_roundtrip_witness :
  length sample_tokens = 27
  ∧ ∃ p', parse_expr sample_parser = Some (Ok (sample_expr, p'))
      ∧ kinds p' = [TokenKind.Semicolon; TokenKind.Eof].
Proof.
  split; [vm_compute; reflexivity|]. apply expr_roundtrip.
  - repeat constructor; vm_compute; try lia.
  - vm_compute. reflexivity.
  - split_and!; [done..|]. intros j _. by do 5 (destruct j as [|j]; [done|]).
Defined.
