(* ===== verification/Values.v ===== *)
(** * VCL values

    Models [rv-types/src/vcl_value.rs]: the interpreter's values and their
    infallible conversions.  Addresses are a type parameter with their
    [Display]. *)

From Stdlib Require Import SpecFloat.
From S2P Require Import Prelude RustStr F64 VclSyntax.
Local Open Scope Z_scope.

(** [x as i64] of a float: towards zero, saturating, 0 for NaN. *)
Definition f64_to_i64 (x : f64) : Z :=
  match x with
  | S754_zero _ | S754_nan => 0
  | S754_infinity s => if s then - 2 ^ 63 else i64_max
  | S754_finite s m e =>
      let a := if 0 <=? e then Z.pos m * 2 ^ e else Z.pos m / 2 ^ (- e) in
      if s then Z.max (- 2 ^ 63) (- a) else Z.min i64_max a
  end.

(** [{byte:02x}] *)
Definition hex_digit (d : Z) : byte := if d <? 10 then u8_of (48 + d) else u8_of (87 + d).
Definition hex_byte (b : byte) : bytes := [hex_digit (u8_val b / 16); hex_digit (u8_val b mod 16)].

Module VclValue.

Inductive t (Ip : Type) : Type :=
| String (s : bytes)
| Int (i : Z)
| Real (r : f64)
| Duration (d : f64)
| Bool (b : bool)
| Ip_ (ip : Ip)
| Blob (data : bytes)
| Void.
#[global] Arguments String {Ip} s.
#[global] Arguments Int {Ip} i.
#[global] Arguments Real {Ip} r.
#[global] Arguments Duration {Ip} d.
#[global] Arguments Bool {Ip} b.
#[global] Arguments Ip_ {Ip} ip.
#[global] Arguments Blob {Ip} data.
#[global] Arguments Void {Ip}.

End VclValue.

Definition parse_duration_str (s : bytes) : f64 :=
  let s := trim s in
  let num n := default f64_zero (parse_f64 (trim n)) in
  match strip_suffix (str "ms") s with
  | Some n => f64_div (num n) (f64_of_Z 1000)
  | None =>
  match strip_suffix (str "min") s with
  | Some n => f64_mul (num n) (f64_of_Z 60)
  | None =>
  match strip_suffix (str "s") s with
  | Some n => num n
  | None =>
  match strip_suffix (str "m") s with
  | Some n => f64_mul (num n) (f64_of_Z 60)
  | None =>
  match strip_suffix (str "h") s with
  | Some n => f64_mul (num n) (f64_of_Z 3600)
  | None =>
  match strip_suffix (str "d") s with
  | Some n => f64_mul (num n) (f64_of_Z 86400)
  | None => default f64_zero (parse_f64 s)
  end end end end end end.

Section value.
  Context {Ip : Type} (ip_to_string : Ip → bytes) {corefmt : CoreFmt}.

Abbreviation value := (VclValue.t Ip).

Definition to_string_value (v : value) : bytes :=
  match v with
  | VclValue.String s => s
  | VclValue.Int i => show_i64 i
  | VclValue.Real r => fmt_f64 r
  | VclValue.Duration d => fmt_f64 d ++ str "s"
  | VclValue.Bool b => if b then str "true" else str "false"
  | VclValue.Ip_ ip => ip_to_string ip
  | VclValue.Blob data => concat (map hex_byte data)
  | VclValue.Void => []
  end.

Definition to_bool (v : value) : bool :=
  match v with
  | VclValue.Bool b => b
  | VclValue.Int i => negb (i =? 0)
  | VclValue.Real r => negb (f64_eqb r f64_zero)
  | VclValue.String s => match s with [] => false | _ => true end
  | VclValue.Duration d => f64_gt d f64_zero
  | VclValue.Void => false
  | VclValue.Ip_ _ => true
  | VclValue.Blob data => match data with [] => false | _ => true end
  end.

Definition to_real (v : value) : f64 :=
  match v with
  | VclValue.Real r => r
  | VclValue.Int i => f64_of_Z i
  | VclValue.Duration d => d
  | VclValue.Bool b => if b then f64_of_Z 1 else f64_zero
  | VclValue.String s => default f64_zero (parse_f64 s)
  | _ => f64_zero
  end.

Definition to_int (v : value) : Z :=
  match v with
  | VclValue.Int i => i
  | VclValue.Real r => f64_to_i64 r
  | VclValue.Duration d => f64_to_i64 d
  | VclValue.Bool b => if b then 1 else 0
  | VclValue.String s => default 0 (parse_i64 s)
  | _ => 0
  end.

Definition to_duration_secs (v : value) : f64 :=
  match v with
  | VclValue.Duration d => d
  | VclValue.Real r => r
  | VclValue.Int i => f64_of_Z i
  | VclValue.String s => parse_duration_str s
  | _ => f64_zero
  end.

End value.

Example parse_duration_ms :
  parse_duration_str (str " 500ms ") = f64_div (f64_of_Z 1) (f64_of_Z 2)
  ∧ parse_duration_str (str "2min") = f64_of_Z 120 ∧ parse_duration_str (str "1.5 h") = f64_of_Z 5400.
Proof. repeat split; vm_compute; reflexivity. Qed.
