(* ===== verification/Vmod.v ===== *)
(** * VMODs: the function registry and the built-in modules

    Models [rv-vmod/src/error.rs], [types.rs], [registry.rs], [std_vmod.rs],
    [blob.rs], [purge.rs] and [directors.rs], with the [Display] of values of
    [rv-types/src/vcl_value.rs].  The clock readings of [std.now] and [std.random],
    Unicode upper case and the base64 crate are arguments; log lines are not
    recorded. *)

From Stdlib Require Import SpecFloat.
From stdpp Require Import sorting.
From S2P Require Import Prelude RustStr F64 Types VclSyntax Values.
Local Open Scope Z_scope.
Local Open Scope rust_scope.

Module VmodError.

Inductive t : Set :=
| InvalidArgument (msg : bytes)
| TypeMismatch (msg : bytes)
| NotFound (msg : bytes)
| InternalError (msg : bytes).

Definition to_string (e : t) : bytes :=
  match e with
  | InvalidArgument m => str "invalid argument: " ++ m
  | TypeMismatch m => str "type mismatch: " ++ m
  | NotFound m => str "not found: " ++ m
  | InternalError m => str "internal error: " ++ m
  end.

End VmodError.

(** [Display] of [ParseIntError] for i64: digits are checked before the overflow
    of the same round. *)
Fixpoint int_error_digits (lo hi acc : Z) (neg : bool) (s : bytes) : bytes :=
  match s with
  | [] => []
  | b :: s =>
      match digit_val b with
      | None => str "invalid digit found in string"
      | Some d =>
          let acc' := if neg then acc * 10 - d else acc * 10 + d in
          if acc' <? lo then str "number too small to fit in target type"
          else if hi <? acc' then str "number too large to fit in target type"
          else int_error_digits lo hi acc' neg s
      end
  end.

Definition parse_i64_error (s : bytes) : bytes :=
  match s with
  | [] => str "cannot parse integer from empty string"
  | b :: r =>
      if decide (b = x2d ∨ b = x2b) then
        match r with
        | [] => str "invalid digit found in string"
        | _ => int_error_digits (- 2 ^ 63) i64_max 0 (bool_decide (b = x2d)) r
        end
      else int_error_digits (- 2 ^ 63) i64_max 0 false s
  end.

(** [Display] of [ParseFloatError]. *)
Definition parse_f64_error (s : bytes) : bytes :=
  match s with
  | [] => str "cannot parse float from empty string"
  | _ => str "invalid float literal"
  end.

(** [f64::round]: half away from zero. *)
Definition f64_round (x : f64) : f64 :=
  match x with
  | S754_finite s m e =>
      if 0 <=? e then x
      else
        let a := (Z.pos m + 2 ^ (- e - 1)) / 2 ^ (- e) in
        if a =? 0 then S754_zero s else f64_of_Z (if s then - a else a)
  | _ => x
  end.

(* ------------------------------------------------------------------ *)
(** ** Strict conversions *)

(** [num.trim().parse()] with the error of a duration. *)
Definition duration_number (num : bytes) : result f64 VmodError.t :=
  let num := trim num in
  ok_or (parse_f64 num) (VmodError.InvalidArgument (str "invalid duration: " ++ parse_f64_error num)).

Definition parse_duration_string (s : bytes) : result VtimDur VmodError.t :=
  let s := trim s in
  match s with
  | [] => Err (VmodError.InvalidArgument (str "empty duration string"))
  | _ =>
  match strip_suffix (str "ms") s with
  | Some num => val ←? duration_number num; Ok (VtimDur_from_millis val)
  | None =>
  match strip_suffix (str "min") s with
  | Some num => val ←? duration_number num; Ok (VtimDur_from_secs (f64_mul val (f64_of_Z 60)))
  | None =>
  match strip_suffix (str "s") s with
  | Some num => val ←? duration_number num; Ok (VtimDur_from_secs val)
  | None =>
  match strip_suffix (str "m") s with
  | Some num => val ←? duration_number num; Ok (VtimDur_from_secs (f64_mul val (f64_of_Z 60)))
  | None =>
  match strip_suffix (str "h") s with
  | Some num => val ←? duration_number num; Ok (VtimDur_from_secs (f64_mul val (f64_of_Z 3600)))
  | None =>
  match strip_suffix (str "d") s with
  | Some num => val ←? duration_number num; Ok (VtimDur_from_secs (f64_mul val (f64_of_Z 86400)))
  | None =>
      val ←? ok_or (parse_f64 s) (VmodError.InvalidArgument (str "invalid duration: " ++ parse_f64_error s));
      Ok (VtimDur_from_secs val)
  end end end end end end end.

Section values.
  Context {Ip : Type} (ip_to_string : Ip → bytes) {corefmt : CoreFmt}.

Abbreviation value := (VclValue.t Ip).
Abbreviation string_of := (to_string_value ip_to_string).

(** [Display for VclValue]. *)
Definition value_display (v : value) : bytes :=
  match v with
  | VclValue.String s => str "String(" ++ s ++ str ")"
  | VclValue.Int i => str "Int(" ++ show_i64 i ++ str ")"
  | VclValue.Real r => str "Real(" ++ fmt_f64 r ++ str ")"
  | VclValue.Duration d => str "Duration(" ++ fmt_f64 d ++ str "s)"
  | VclValue.Bool b => str "Bool(" ++ (if b then str "true" else str "false") ++ str ")"
  | VclValue.Ip_ ip => str "Ip(" ++ ip_to_string ip ++ str ")"
  | VclValue.Blob data => str "Blob(" ++ show_u64 (Z.of_nat (length data)) ++ str " bytes)"
  | VclValue.Void => str "Void"
  end.

Definition try_to_int (v : value) : result Z VmodError.t :=
  match v with
  | VclValue.Int i => Ok i
  | VclValue.Real r => Ok (f64_to_i64 r)
  | VclValue.Bool b => Ok (if b then 1 else 0)
  | VclValue.String s =>
      let s := trim s in
      ok_or (parse_i64 s) (VmodError.TypeMismatch (str "cannot convert string to int: " ++ parse_i64_error s))
  | VclValue.Duration d => Ok (f64_to_i64 d)
  | other => Err (VmodError.TypeMismatch (str "cannot convert " ++ value_display other ++ str " to int"))
  end.

Definition try_to_real (v : value) : result f64 VmodError.t :=
  match v with
  | VclValue.Real r => Ok r
  | VclValue.Int i => Ok (f64_of_Z i)
  | VclValue.Bool b => Ok (if b then f64_of_Z 1 else f64_zero)
  | VclValue.String s =>
      let s := trim s in
      ok_or (parse_f64 s) (VmodError.TypeMismatch (str "cannot convert string to real: " ++ parse_f64_error s))
  | VclValue.Duration d => Ok d
  | other => Err (VmodError.TypeMismatch (str "cannot convert " ++ value_display other ++ str " to real"))
  end.

Definition try_to_bool (v : value) : result bool VmodError.t :=
  match v with
  | VclValue.Bool b => Ok b
  | VclValue.Int i => Ok (negb (i =? 0))
  | VclValue.Real r => Ok (negb (f64_eqb r f64_zero))
  | VclValue.String s => Ok (match s with [] => false | _ => true end)
  | VclValue.Duration d => Ok (f64_gt d f64_zero)
  | VclValue.Void => Ok false
  | other => Err (VmodError.TypeMismatch (str "cannot convert " ++ value_display other ++ str " to bool"))
  end.

Definition try_to_duration (v : value) : result VtimDur VmodError.t :=
  match v with
  | VclValue.Duration d => Ok (VtimDur_from_secs d)
  | VclValue.Real r => Ok (VtimDur_from_secs r)
  | VclValue.Int i => Ok (VtimDur_from_secs (f64_of_Z i))
  | VclValue.String s => parse_duration_string s
  | other => Err (VmodError.TypeMismatch (str "cannot convert " ++ value_display other ++ str " to duration"))
  end.

End values.

(* ------------------------------------------------------------------ *)
(** ** The registry *)

(** A [Box<dyn VmodFunction>]: its name and its call. *)
Record VmodFunction (Ip : Type) : Type := mkVmodFunction {
  vf_name : bytes;
  vf_call : list (VclValue.t Ip) → result (VclValue.t Ip) VmodError.t;
}.
Arguments mkVmodFunction {Ip} _ _.
Arguments vf_name {Ip} _.
Arguments vf_call {Ip} _ _.

Abbreviation VmodRegistry Ip := (gmap bytes (list (VmodFunction Ip))).

Section registry.
  Context {Ip : Type}.

Definition VmodRegistry_new : VmodRegistry Ip := ∅.

Definition register_module (name : bytes) (functions : list (VmodFunction Ip)) (r : VmodRegistry Ip) :
    VmodRegistry Ip := <[name := functions]> r.

(** The first function of the list with the name. *)
Definition find_function (function : bytes) (funcs : list (VmodFunction Ip)) : option (VmodFunction Ip) :=
  snd <$> list_find (λ f, vf_name f = function) funcs.

Definition VmodRegistry_call (r : VmodRegistry Ip) (module_ function : bytes) (args : list (VclValue.t Ip)) :
    result (VclValue.t Ip) VmodError.t :=
  funcs ←? ok_or (r !! module_) (VmodError.NotFound (str "module '" ++ module_ ++ str "' not found"));
  func ←? ok_or (find_function function funcs)
            (VmodError.NotFound (str "function '" ++ function ++ str "' not found in module '" ++ module_ ++ str "'"));
  vf_call func args.

Definition has_module (r : VmodRegistry Ip) (name : bytes) : bool := bool_decide (is_Some (r !! name)).

Definition list_functions (r : VmodRegistry Ip) (module_ : bytes) : option (list bytes) :=
  match r !! module_ with
  | Some funcs => Some (vf_name <$> funcs)
  | None => None
  end.

(** In the order of the map's traversal. *)
Definition list_modules (r : VmodRegistry Ip) : list bytes := (map_to_list r).*1.

(** [impl FunctionResolver for VmodRegistry]. *)
Definition resolver_call (r : VmodRegistry Ip) (module_ function : bytes) (args : list (VclValue.t Ip)) :
    result (VclValue.t Ip) bytes :=
  map_err VmodError.to_string (VmodRegistry_call r module_ function args).

Definition resolver_has_function (r : VmodRegistry Ip) (module_ function : bytes) : bool :=
  match list_functions r module_ with
  | Some fns => bool_decide (function ∈ fns)
  | None => false
  end.

End registry.

(* ------------------------------------------------------------------ *)
(** ** Query strings *)

Definition sort_query_string (url_str : bytes) : bytes :=
  match split_once [x3f] url_str with
  | None => url_str
  | Some (base, query) =>
      match query with
      | [] => url_str
      | _ =>
          let '(query_part, fragment) :=
            match split_once [x23] query with
            | Some (q, f) => (q, Some f)
            | None => (query, None)
            end in
          let params := merge_sort str_before (split_char x26 query_part) in
          let result := base ++ x3f :: join [x26] params in
          match fragment with
          | Some frag => result ++ x23 :: frag
          | None => result
          end
      end
  end.

(* ------------------------------------------------------------------ *)
(** ** Blob encodings *)

Module BlobEncoding.

Inductive t : Set := Base64 | Hex | Url.

Definition from_str (to_uppercase : bytes → bytes) (s : bytes) : result t VmodError.t :=
  ok_or (match_str [(str "BASE64", Base64); (str "HEX", Hex); (str "URL", Url)] (to_uppercase s))
    (VmodError.InvalidArgument (str "unsupported encoding: " ++ s)).

End BlobEncoding.

(** The base64 crate's standard engine; an error is its message. *)
Class Base64Lib := {
  base64_encode : bytes → bytes;
  base64_decode : bytes → result bytes bytes;
}.

Definition upper_hex_digit (d : Z) : byte := if d <? 10 then u8_of (48 + d) else u8_of (55 + d).

(** [format!("%{byte:02X}")] *)
Definition percent_byte (b : byte) : bytes :=
  [x25; upper_hex_digit (u8_val b / 16); upper_hex_digit (u8_val b mod 16)].

Definition is_ascii_alphanumeric (b : byte) : bool :=
  byte_in 48 57 b || byte_in 65 90 b || byte_in 97 122 b.

Definition unreserved (b : byte) : bool :=
  is_ascii_alphanumeric b || bool_decide (b = x2d) || bool_decide (b = x5f)
  || bool_decide (b = x2e) || bool_decide (b = x7e).

Definition url_byte (b : byte) : bytes := if unreserved b then [b] else percent_byte b.

(** [str::chars], each character as its bytes: a lead byte with the continuation
    bytes after it. *)
Fixpoint chars (s : bytes) : list bytes :=
  match s with
  | [] => []
  | b :: s =>
      match chars s with
      | (c :: cs) :: rest => if is_cont c then (b :: c :: cs) :: rest else [b] :: (c :: cs) :: rest
      | l => [b] :: l
      end
  end.

(** [char::to_digit(16)] *)
Definition to_digit16 (c : bytes) : option Z :=
  match c with
  | [b] =>
      if byte_in 48 57 b then Some (u8_val b - 48)
      else if byte_in 65 70 b then Some (u8_val b - 55)
      else if byte_in 97 102 b then Some (u8_val b - 87)
      else None
  | _ => None
  end.

(** [(hi << 4) | lo] *)
Definition nibbles (hi lo : Z) : byte := u8_of (Z.lor (Z.shiftl hi 4) lo).

Definition hex_char (c : bytes) : result Z VmodError.t :=
  ok_or (to_digit16 c) (VmodError.InvalidArgument (str "invalid hex char: " ++ c)).

(** The loop of [decode_hex]: it stops when fewer than two characters are left. *)
Fixpoint hex_pairs (cs : list bytes) : result bytes VmodError.t :=
  match cs with
  | hi :: lo :: cs =>
      h ←? hex_char hi;
      l ←? hex_char lo;
      bs ←? hex_pairs cs;
      Ok (nibbles h l :: bs)
  | _ => Ok []
  end.

Definition decode_hex (s : bytes) : result bytes VmodError.t :=
  let s := trim s in
  if negb (Z.of_nat (length s) mod 2 =? 0) then
    Err (VmodError.InvalidArgument (str "hex string must have even length"))
  else hex_pairs (chars s).

Definition percent_digit (c : option bytes) : result Z VmodError.t :=
  c ←? ok_or c (VmodError.InvalidArgument (str "truncated percent encoding"));
  ok_or (to_digit16 c) (VmodError.InvalidArgument (str "invalid percent encoding")).

(** The loop of [decode_url]. *)
Fixpoint url_chars (cs : list bytes) : result bytes VmodError.t :=
  match cs with
  | [] => Ok []
  | c :: cs =>
      if decide (c = [x25]) then
        match cs with
        | [] => _ ←? percent_digit None; Ok []
        | hi :: cs =>
            h ←? percent_digit (Some hi);
            match cs with
            | [] => _ ←? percent_digit None; Ok []
            | lo :: cs =>
                l ←? percent_digit (Some lo);
                bs ←? url_chars cs;
                Ok (nibbles h l :: bs)
            end
        end
      else
        bs ←? url_chars cs;
        Ok (c ++ bs)
  end.

Definition decode_url (s : bytes) : result bytes VmodError.t := url_chars (chars s).

Definition encode_data `{Base64Lib} (encoding : BlobEncoding.t) (data : bytes) : bytes :=
  match encoding with
  | BlobEncoding.Base64 => base64_encode data
  | BlobEncoding.Hex => concat (hex_byte <$> data)
  | BlobEncoding.Url => concat (url_byte <$> data)
  end.

Definition decode_data `{Base64Lib} (encoding : BlobEncoding.t) (s : bytes) : result bytes VmodError.t :=
  match encoding with
  | BlobEncoding.Base64 =>
      map_err (λ e, VmodError.InvalidArgument (str "invalid base64: " ++ e)) (base64_decode s)
  | BlobEncoding.Hex => decode_hex s
  | BlobEncoding.Url => decode_url s
  end.

(* ------------------------------------------------------------------ *)
(** ** The built-in functions *)

Section functions.
  Context {Ip : Type} (ip_to_string : Ip → bytes) {corefmt : CoreFmt} {base64 : Base64Lib}.
  Context (to_uppercase : bytes → bytes) (now : VtimReal) (subsec_nanos : Z).

Abbreviation value := (VclValue.t Ip).
Abbreviation string_of := (to_string_value ip_to_string).
Abbreviation vmod_result := (result value VmodError.t).

Definition invalid {A} (msg : bytes) : result A VmodError.t := Err (VmodError.InvalidArgument msg).

Definition StdRandom_call (args : list value) : vmod_result :=
  match args with
  | [a; b] =>
      lo ←? try_to_real ip_to_string a;
      hi ←? try_to_real ip_to_string b;
      if f64_ge lo hi then
        invalid (str "random: lo (" ++ fmt_f64 lo ++ str ") must be less than hi (" ++ fmt_f64 hi ++ str ")")
      else
        let fraction := f64_div (f64_of_Z subsec_nanos) (f64_of_Z u32_max) in
        Ok (VclValue.Real (f64_add lo (f64_mul fraction (f64_sub hi lo))))
  | _ => invalid (str "random(lo, hi) requires exactly 2 arguments")
  end.

Definition StdRound_call (args : list value) : vmod_result :=
  match args with
  | [a] => r ←? try_to_real ip_to_string a; Ok (VclValue.Int (f64_to_i64 (f64_round r)))
  | _ => invalid (str "round(r) requires exactly 1 argument")
  end.

(** The shape the three parsing functions share: [f(s [, fallback])]. *)
Definition with_fallback {A} (convert : value → result A VmodError.t) (wrap : A → value) (usage : bytes)
    (args : list value) : vmod_result :=
  match args with
  | [s] => v ←? convert s; Ok (wrap v)
  | [s; fallback] =>
      match convert s with
      | Ok v => Ok (wrap v)
      | Err _ => v ←? convert fallback; Ok (wrap v)
      end
  | _ => invalid usage
  end.

Definition StdInteger_call : list value → vmod_result :=
  with_fallback (try_to_int ip_to_string) VclValue.Int (str "integer(s [, fallback]) requires 1 or 2 arguments").

Definition StdReal_call : list value → vmod_result :=
  with_fallback (try_to_real ip_to_string) VclValue.Real (str "real(s [, fallback]) requires 1 or 2 arguments").

Definition StdDuration_call : list value → vmod_result :=
  with_fallback (try_to_duration ip_to_string) (λ d, VclValue.Duration (VtimDur_as_secs d))
    (str "duration(s [, fallback]) requires 1 or 2 arguments").

Definition StdLog_call (args : list value) : vmod_result :=
  match args with
  | [_] => Ok VclValue.Void
  | _ => invalid (str "log(msg) requires exactly 1 argument")
  end.

Definition StdStrstr_call (args : list value) : vmod_result :=
  match args with
  | [s1; s2] => Ok (VclValue.Bool (contains (string_of s2) (string_of s1)))
  | _ => invalid (str "strstr(s1, s2) requires exactly 2 arguments")
  end.

Definition StdQuerysort_call (args : list value) : vmod_result :=
  match args with
  | [url] => Ok (VclValue.String (sort_query_string (string_of url)))
  | _ => invalid (str "querysort(url) requires exactly 1 argument")
  end.

Definition StdNow_call (args : list value) : vmod_result :=
  match args with
  | [] => Ok (VclValue.Real (VtimReal_as_secs now))
  | _ => invalid (str "now() takes no arguments")
  end.

Definition std_module : list (VmodFunction Ip) :=
  [mkVmodFunction (str "random") StdRandom_call;
   mkVmodFunction (str "round") StdRound_call;
   mkVmodFunction (str "integer") StdInteger_call;
   mkVmodFunction (str "real") StdReal_call;
   mkVmodFunction (str "duration") StdDuration_call;
   mkVmodFunction (str "log") StdLog_call;
   mkVmodFunction (str "strstr") StdStrstr_call;
   mkVmodFunction (str "querysort") StdQuerysort_call;
   mkVmodFunction (str "now") StdNow_call].

Definition BlobEncode_call (args : list value) : vmod_result :=
  match args with
  | [a; d] =>
      encoding ←? BlobEncoding.from_str to_uppercase (string_of a);
      data ←? match d with
              | VclValue.Blob bs => Ok bs
              | VclValue.String s => Ok s
              | other => Err (VmodError.TypeMismatch
                               (str "encode expects blob or string data, got " ++ value_display ip_to_string other))
              end;
      Ok (VclValue.String (encode_data encoding data))
  | _ => invalid (str "encode(encoding, data) requires exactly 2 arguments")
  end.

Definition BlobDecode_call (args : list value) : vmod_result :=
  match args with
  | [a; s] =>
      encoding ←? BlobEncoding.from_str to_uppercase (string_of a);
      decoded ←? decode_data encoding (string_of s);
      Ok (VclValue.Blob decoded)
  | _ => invalid (str "decode(encoding, string) requires exactly 2 arguments")
  end.

Definition blob_module : list (VmodFunction Ip) :=
  [mkVmodFunction (str "encode") BlobEncode_call; mkVmodFunction (str "decode") BlobDecode_call].

Definition PurgeHard_call (args : list value) : vmod_result :=
  match args with
  | [] => Ok (VclValue.Bool true)
  | _ => invalid (str "hard() takes no arguments")
  end.

(** The converted values only reach the log; a failing conversion is the error. *)
Definition PurgeSoft_call (args : list value) : vmod_result :=
  if (3 <? length args)%nat then invalid (str "soft([ttl [, grace [, keep]]]) takes at most 3 arguments")
  else
    _ ←? match args !! 0%nat with Some a => try_to_duration ip_to_string a | None => Ok f64_zero end;
    _ ←? match args !! 1%nat with Some a => try_to_duration ip_to_string a | None => Ok f64_zero end;
    _ ←? match args !! 2%nat with Some a => try_to_duration ip_to_string a | None => Ok f64_zero end;
    Ok (VclValue.Bool true).

Definition purge_module : list (VmodFunction Ip) :=
  [mkVmodFunction (str "hard") PurgeHard_call; mkVmodFunction (str "soft") PurgeSoft_call].

(** The functions of [directors] return a constant and take no argument. *)
Definition constant_call (name text : bytes) (args : list value) : vmod_result :=
  match args with
  | [] => Ok (VclValue.String text)
  | _ => invalid (name ++ str "() takes no arguments")
  end.

Definition DirectorsListTypes_call : list value → vmod_result :=
  constant_call (str "list_types") (str "round_robin, random, hash, fallback").
Definition DirectorsRoundRobin_call : list value → vmod_result := constant_call (str "round_robin") (str "round_robin").
Definition DirectorsRandom_call : list value → vmod_result := constant_call (str "random") (str "random").
Definition DirectorsHash_call : list value → vmod_result := constant_call (str "hash") (str "hash").
Definition DirectorsFallback_call : list value → vmod_result := constant_call (str "fallback") (str "fallback").

Definition directors_module : list (VmodFunction Ip) :=
  [mkVmodFunction (str "list_types") DirectorsListTypes_call;
   mkVmodFunction (str "round_robin") DirectorsRoundRobin_call;
   mkVmodFunction (str "random") DirectorsRandom_call;
   mkVmodFunction (str "hash") DirectorsHash_call;
   mkVmodFunction (str "fallback") DirectorsFallback_call].

Definition VmodRegistry_default : VmodRegistry Ip :=
  register_module (str "directors") directors_module
    (register_module (str "purge") purge_module
      (register_module (str "blob") blob_module
        (register_module (str "std") std_module VmodRegistry_new))).

End functions.

(* ------------------------------------------------------------------ *)
(** ** The registry finds what was registered *)

Section lookup.
  Context {Ip : Type}.
  Implicit Types r : VmodRegistry Ip.

Lemma find_function_None function (funcs : list (VmodFunction Ip)) :
  find_function function funcs = None ↔ function ∉ vf_name <$> funcs.
Proof.
  unfold find_function. rewrite fmap_None, list_find_None, Forall_forall.
  setoid_rewrite list_elem_of_fmap. naive_solver.
Qed.

(** The resolver's two methods agree: a function it says it has is found by
    [call], and [call] reports a missing one otherwise. *)
Lemma has_function_call r m f :
  if resolver_has_function r m f
  then ∃ func, vf_name func = f ∧ ∀ args, VmodRegistry_call r m f args = vf_call func args
  else ∀ args, ∃ msg, VmodRegistry_call r m f args = Err (VmodError.NotFound msg).
Proof.
  unfold resolver_has_function, VmodRegistry_call, list_functions.
  destruct (r !! m) as [funcs|]; simpl; [|by eexists].
  destruct (find_function f funcs) as [func|] eqn:E; case_bool_decide as Hf; simpl.
  - exists func. split; [|done]. unfold find_function in E.
    apply fmap_Some in E as ([i g] & (_ & Hg & _)%list_find_Some & ->). exact Hg.
  - destruct Hf. apply dec_stable. intros Hn%find_function_None. congruence.
  - by apply find_function_None in E.
  - by eexists.
Qed.

Lemma register_call r m funcs m' f args :
  VmodRegistry_call (register_module m funcs r) m' f args
  = if decide (m = m') then VmodRegistry_call {[m := funcs]} m' f args else VmodRegistry_call r m' f args.
Proof.
  unfold VmodRegistry_call, register_module. case_decide; subst.
  - by rewrite lookup_insert_eq, lookup_singleton_eq.
  - by rewrite lookup_insert_ne.
Qed.

End lookup.

(* ------------------------------------------------------------------ *)
(** ** Encodings *)

Lemma chars_ascii s : Forall (λ b, u8_val b < 128) s → chars s = (λ b, [b]) <$> s.
Proof.
  induction 1 as [|b s Hb Hs IH]; [done|]. cbn [chars]. rewrite IH.
  destruct Hs as [|c s Hc Hs]; [done|]. cbn.
  assert (is_cont c = false) as ->; [|done]. unfold is_cont, byte_in.
  apply andb_false_iff. left. apply Z.leb_gt. lia.
Qed.

(** The digits of both cases are graphic and read back. *)
Lemma hex_digits_read d :
  0 ≤ d < 16 →
  (to_digit16 [hex_digit d] = Some d ∧ ascii_graphic (hex_digit d))
  ∧ to_digit16 [upper_hex_digit d] = Some d ∧ ascii_graphic (upper_hex_digit d).
Proof.
  intros Hd. assert (Hin : d ∈ seqZ 0 16) by (apply elem_of_seqZ; lia).
  revert Hin. generalize d. rewrite <- Forall_forall. apply (bool_decide_unpack _). by vm_compute.
Qed.

Lemma nibbles_byte b : nibbles (u8_val b / 16) (u8_val b mod 16) = b.
Proof. by destruct b; vm_compute. Qed.

Lemma byte_nibbles b : 0 ≤ u8_val b / 16 < 16 ∧ 0 ≤ u8_val b mod 16 < 16.
Proof. pose proof (u8_val_range b). split; [|by apply Z.mod_pos_bound]. split; [apply Z.div_pos|apply Z.div_lt_upper_bound]; lia. Qed.

Lemma unreserved_spec b : unreserved b = true → ascii_graphic b ∧ b ≠ x25.
Proof. destruct b; vm_compute; intros; solve [discriminate | repeat split; discriminate]. Qed.

Lemma hex_byte_graphic b : Forall ascii_graphic (hex_byte b).
Proof.
  destruct (byte_nibbles b) as [Hh Hl]. destruct (hex_digits_read _ Hh) as [[_ G1] _], (hex_digits_read _ Hl) as [[_ G2] _].
  exact (Forall_cons_2 _ _ _ G1 (Forall_cons_2 _ _ _ G2 (Forall_nil_2 _))).
Qed.

Lemma url_byte_graphic b : Forall ascii_graphic (url_byte b).
Proof.
  unfold url_byte. destruct (unreserved b) eqn:E; [constructor; [by apply unreserved_spec|constructor]|].
  destruct (byte_nibbles b) as [Hh Hl]. destruct (hex_digits_read _ Hh) as (_ & _ & G1), (hex_digits_read _ Hl) as (_ & _ & G2).
  assert (G0 : ascii_graphic x25) by by vm_compute.
  exact (Forall_cons_2 _ _ _ G0 (Forall_cons_2 _ _ _ G1 (Forall_cons_2 _ _ _ G2 (Forall_nil_2 _)))).
Qed.

Lemma concat_graphic (f : byte → bytes) d :
  (∀ b, Forall ascii_graphic (f b)) → Forall ascii_graphic (concat (f <$> d)).
Proof. intros Hf. apply Forall_concat, Forall_fmap, Forall_true. exact Hf. Qed.

Lemma chars_graphic s : Forall ascii_graphic s → chars s = (λ b, [b]) <$> s.
Proof. intros Hs. apply chars_ascii. eapply Forall_impl; [done|]. intros b [_ ?]. done. Qed.

Lemma hex_pairs_encoded d : hex_pairs ((λ b, [b]) <$> concat (hex_byte <$> d)) = Ok d.
Proof.
  induction d as [|b d IH]; [done|]. rewrite fmap_cons. cbn [concat]. rewrite fmap_app.
  unfold hex_byte at 1. rewrite !fmap_cons, fmap_nil. cbn [app hex_pairs]. destruct (byte_nibbles b) as [Hh Hl].
  unfold hex_char. rewrite (proj1 (proj1 (hex_digits_read _ Hh))), (proj1 (proj1 (hex_digits_read _ Hl))).
  cbn [ok_or result_bind]. rewrite IH. cbn. by rewrite nibbles_byte.
Qed.

Lemma url_chars_encoded d : url_chars ((λ b, [b]) <$> concat (url_byte <$> d)) = Ok d.
Proof.
  induction d as [|b d IH]; [done|]. rewrite fmap_cons. cbn [concat]. rewrite fmap_app.
  unfold url_byte at 1. destruct (unreserved b) eqn:E.
  - rewrite fmap_cons, fmap_nil. cbn [app url_chars]. rewrite decide_False by (intros [= ->]; by apply unreserved_spec in E as []).
    by rewrite IH.
  - unfold percent_byte. rewrite !fmap_cons, fmap_nil. cbn [app url_chars]. rewrite decide_True by done.
    destruct (byte_nibbles b) as [Hh Hl]. unfold percent_digit. cbn [ok_or result_bind].
    rewrite (proj1 (proj2 (hex_digits_read _ Hh))). cbn [ok_or result_bind].
    rewrite (proj1 (proj2 (hex_digits_read _ Hl))). cbn [ok_or result_bind].
    rewrite IH. cbn. by rewrite nibbles_byte.
Qed.

Lemma decode_encode `{Base64Lib} encoding d :
  encoding ≠ BlobEncoding.Base64 →
  decode_data encoding (encode_data encoding d) = Ok d ∧ Forall ascii_graphic (encode_data encoding d).
Proof.
  intros He. destruct encoding; [done|..]; cbn [encode_data decode_data].
  - pose proof (concat_graphic _ d hex_byte_graphic) as Hg. split; [|done].
    unfold decode_hex. rewrite trim_graphic, chars_graphic by done.
    assert (length (concat (hex_byte <$> d)) = 2 * length d)%nat as -> 
      by (clear; induction d as [|b d IH]; [done|]; rewrite fmap_cons; cbn [concat]; rewrite length_app, IH; simpl; lia).
    replace (Z.of_nat (2 * length d)) with (Z.of_nat (length d) * 2) by lia. rewrite Z.mod_mul by done.
    apply hex_pairs_encoded.
  - pose proof (concat_graphic _ d url_byte_graphic) as Hg. split; [|done].
    unfold decode_url. rewrite chars_graphic by done. apply url_chars_encoded.
Qed.

(* ------------------------------------------------------------------ *)
(** ** Queries *)

(** A URL with the parameters [ps] and possibly a fragment. *)
Definition query_url (base : bytes) (ps : list bytes) (frag : option bytes) : bytes :=
  base ++ x3f :: join [x26] ps ++ match frag with Some f => x23 :: f | None => [] end.

Lemma sort_query_url base ps frag :
  x3f ∉ base → ps ≠ [] → Forall (λ p, (x26 ∉ p) ∧ (x23 ∉ p)) ps →
  sort_query_string (query_url base ps frag) = query_url base (merge_sort str_before ps) frag.
Proof.
  intros Hb Hne Hps. unfold sort_query_string, query_url. rewrite split_once_byte_Some by done.
  assert (Hsplit : split_char x26 (join [x26] ps) = ps)
    by (apply split_char_join_inv; [done|]; eapply Forall_impl; [done|]; naive_solver).
  assert (Hno : x23 ∉ join [x26] ps).
  { apply not_elem_of_join; [set_solver|]. eapply Forall_impl; [done|]. naive_solver. }
  destruct (join [x26] ps ++ _) as [|x q] eqn:E.
  - apply app_eq_nil in E as [E ->]. f_equal. f_equal. rewrite app_nil_r.
    rewrite E in Hsplit. cbn in Hsplit. by rewrite <- Hsplit.
  - rewrite <- E. destruct frag as [f|].
    + rewrite split_once_byte_Some by done. rewrite Hsplit. rewrite <- app_assoc. done.
    + rewrite app_nil_r, split_once_byte_None by done. by rewrite Hsplit, app_nil_r.
Qed.

(* ------------------------------------------------------------------ *)
(** ** The built-in registry *)

Section builtin.
  Context {Ip : Type} (ip_to_string : Ip → bytes) {corefmt : CoreFmt} {base64 : Base64Lib}.
  Context (to_uppercase : bytes → bytes) (now : VtimReal) (subsec_nanos : Z).

Abbreviation builtin := (VmodRegistry_default ip_to_string to_uppercase now subsec_nanos).
Abbreviation called := (VmodRegistry_call builtin).

Lemma blob_calls args :
  called (str "blob") (str "encode") args = BlobEncode_call ip_to_string to_uppercase args
  ∧ called (str "blob") (str "decode") args = BlobDecode_call ip_to_string to_uppercase args.
Proof. split; reflexivity. Qed.

(** Blobs survive their text form: under any name that selects the hexadecimal
    or the URL encoding, [blob.encode] of a blob, or of a string's bytes, gives a
    string of graphic ASCII characters, and [blob.decode] of that string under the
    same name gives the bytes back, whatever they are. *)
Theorem blob_roundtrip name encoding d data :
  BlobEncoding.from_str to_uppercase name = Ok encoding → encoding ≠ BlobEncoding.Base64 →
  data = VclValue.Blob d ∨ data = VclValue.String d →
  ∃ text, called (str "blob") (str "encode") [VclValue.String name; data] = Ok (VclValue.String text)
    ∧ Forall ascii_graphic text
    ∧ called (str "blob") (str "decode") [VclValue.String name; VclValue.String text] = Ok (VclValue.Blob d).
Proof.
  intros Hname Henc Hdata. destruct (decode_encode encoding d Henc) as [Hdec Hg].
  exists (encode_data encoding d). rewrite (proj1 (blob_calls _)), (proj2 (blob_calls _)).
  unfold BlobEncode_call, BlobDecode_call. cbn [to_string_value]. rewrite Hname. cbn [result_bind].
  rewrite Hdec. destruct Hdata as [-> | ->]; by split.
Qed.

(** [std.querysort] picks one URL for all orders of the same parameters: there is
    a sorted arrangement of the parameters, and the URL with the parameters in any
    other order becomes the URL with that one, so the result is also a fixed point;
    the path and the fragment are kept. *)
Theorem querysort_canonical base ps frag :
  x3f ∉ base → ps ≠ [] → Forall (λ p, (x26 ∉ p) ∧ (x23 ∉ p)) ps →
  ∃ sorted, sorted ≡ₚ ps ∧ Sorted str_before sorted
    ∧ ∀ qs, qs ≡ₚ ps →
        called (str "std") (str "querysort") [VclValue.String (query_url base qs frag)]
        = Ok (VclValue.String (query_url base sorted frag)).
Proof.
  intros Hb Hne Hps. exists (merge_sort str_before ps).
  split; [apply merge_sort_Permutation|]. split; [apply (Sorted_merge_sort _)|].
  intros qs Hqs. transitivity (StdQuerysort_call ip_to_string [VclValue.String (query_url base qs frag)]); [reflexivity|].
  unfold StdQuerysort_call. cbn [to_string_value]. rewrite sort_query_url; [|done| |by rewrite Hqs].
  - do 3 f_equal. apply (StronglySorted_unique str_before); [apply (StronglySorted_merge_sort _)..|].
    by rewrite !merge_sort_Permutation.
  - intros ->. by apply Permutation_nil_l in Hqs.
Qed.

End builtin.

(* ------------------------------------------------------------------ *)
(** ** What the code does not do *)

(** An odd number of characters passes the test on the number of bytes, and the
    last character is dropped without an error: here the two bytes of one letter. *)
Example decode_hex_drops_char : decode_hex [xc3; xa9] = Ok [].
Proof. vm_compute. reflexivity. Qed.

(** A question mark after the number sign starts no query, but what follows it is
    sorted. *)
Example querysort_fragment : sort_query_string (str "/a#f?b&a") = str "/a#f?a&b".
Proof. vm_compute. reflexivity. Qed.

Example decode_url_plus : decode_url (str "a%2Fb+%C3%A9") = Ok (str "a/b+" ++ [xc3; xa9]).
Proof. vm_compute. reflexivity. Qed.

Example round_half : f64_to_i64 (f64_round (f64_div (f64_of_Z (-5)) (f64_of_Z 2))) = -3
  ∧ f64_to_i64 (f64_round (f64_div (f64_of_Z 49) (f64_of_Z 100))) = 0.
Proof. split; vm_compute; reflexivity. Qed.

(* ------------------------------------------------------------------ *)
(** ** Witnesses *)

Definition plain_fmt : CoreFmt := {| fmt_f64 := λ _, []; char_debug := λ b, [b] |}.
Definition identity_base64 : Base64Lib := {| base64_encode := λ s, s; base64_decode := Ok |}.

Abbreviation sample_call :=
  (VmodRegistry_call (@VmodRegistry_default unit (λ _, []) plain_fmt identity_base64 (λ s, s) f64_zero 999999999)).

(** The largest reading of the clock gives a quarter of the range at most. *)
Example random_quarter :
  match sample_call (str "std") (str "random") [VclValue.Int 0; VclValue.Int 1] with
  | Ok (VclValue.Real r) => f64_lt r (f64_div (f64_of_Z 1) (f64_of_Z 4)) = true
  | _ => False
  end.
Proof. vm_compute. reflexivity. Qed.

Lemma blob_roundtrip_witness :
  ∃ text, sample_call (str "blob") (str "encode") [VclValue.String (str "URL"); VclValue.Blob [x00; xff; x41]]
            = Ok (VclValue.String text)
    ∧ Forall ascii_graphic text
    ∧ sample_call (str "blob") (str "decode") [VclValue.String (str "URL"); VclValue.String text]
      = Ok (VclValue.Blob [x00; xff; x41]).
Proof.
  apply (@blob_roundtrip unit (λ _, []) plain_fmt identity_base64 (λ s, s) f64_zero 999999999
           (str "URL") BlobEncoding.Url [x00; xff; x41] (VclValue.Blob [x00; xff; x41])).
  - vm_compute. reflexivity.
  - discriminate.
  - left. reflexivity.
Defined.

Lemma querysort_canonical_witness :
  ∃ sorted, sorted ≡ₚ [str "b=2"; str "a=1"] ∧ Sorted str_before sorted
    ∧ ∀ qs, qs ≡ₚ [str "b=2"; str "a=1"] →
        sample_call (str "std") (str "querysort") [VclValue.String (query_url (str "/p") qs (Some (str "top")))]
        = Ok (VclValue.String (query_url (str "/p") sorted (Some (str "top")))).
Proof.
  apply (@querysort_canonical unit (λ _, []) plain_fmt identity_base64 (λ s, s) f64_zero 999999999).
  - apply (bool_decide_unpack _). vm_compute. exact I.
  - discriminate.
  - apply (bool_decide_unpack _). vm_compute. exact I.
Defined.
