(* ===== verification/VclInterp.v ===== *)
(** * The VCL interpreter

    Models [rv-vcl/src/interpreter.rs] and the trait of [resolver.rs]: expression
    evaluation, variables, statements and subroutine calls.  Evaluation reads the
    context and never changes it; a subroutine returns the changed context.  The
    regex crate, the function resolver, the address type and the clock reading of
    [now] are parameters.  The interpreter's regex cache only saves compilations
    ([get_or_compile_regex_spec]).  A [call] costs one unit of fuel: [None] is the
    end of the stack. *)

From S2P Require Import Prelude RustStr F64 Types HttpTypes Header Ban VclSyntax Lexer Parser Values.
Local Open Scope Z_scope.

(* ------------------------------------------------------------------ *)
(** ** Actions, results and contexts *)

Module InterpreterAction.

Inductive t : Set :=
| Deliver | Pass | Pipe | Hash | Lookup | Fetch | Synth | Purge | Restart | Retry | Abandon | Fail
| Error | Ok.

#[global] Instance eq_dec : EqDecision t.
Proof. solve_decision. Defined.

(** [VclAction::from_name]. *)
Definition from_name : bytes → option t :=
  match_str
    [(str "deliver", Deliver); (str "pass", Pass); (str "pipe", Pipe); (str "hash", Hash);
     (str "lookup", Lookup); (str "fetch", Fetch); (str "synth", Synth); (str "purge", Purge);
     (str "restart", Restart); (str "retry", Retry); (str "abandon", Abandon); (str "fail", Fail);
     (str "error", Error); (str "ok", Ok)].

End InterpreterAction.

Inductive VclExecResult : Set :=
| ExecAction (action : InterpreterAction.t)
| ExecFallthrough
| ExecError (msg : bytes).

(** [VclContext]; the four messages are mutable borrows, read back after the
    call. *)
Record VclContext (Ip V : Type) : Type := mkVclContext {
  v_req : HttpMessage;
  v_resp : HttpMessage;
  v_bereq : HttpMessage;
  v_beresp : HttpMessage;
  v_client_ip : Ip;
  v_server_ip : Ip;
  v_is_ssl : bool;
  v_restarts : Z;
  v_obj_hits : Z;
  v_obj_ttl : f64;
  v_obj_grace : f64;
  v_obj_keep : f64;
  v_synth_body : option bytes;
  v_synth_status : option Z;
  v_local_vars : gmap bytes V;
  v_do_gzip : bool;
  v_do_gunzip : bool;
  v_uncacheable : bool;
  v_req_body : option bytes;
  v_resp_body : option bytes;
}.
#[global] Arguments mkVclContext {Ip V} _ _ _ _ _ _ _ _ _ _ _ _ _ _ _ _ _ _ _ _.
#[global] Arguments v_req {Ip V} _.
#[global] Arguments v_resp {Ip V} _.
#[global] Arguments v_bereq {Ip V} _.
#[global] Arguments v_beresp {Ip V} _.
#[global] Arguments v_synth_body {Ip V} _.
#[global] Arguments v_synth_status {Ip V} _.
#[global] Arguments v_local_vars {Ip V} _.
#[global] Arguments v_do_gzip {Ip V} _.
#[global] Arguments v_do_gunzip {Ip V} _.
#[global] Arguments v_uncacheable {Ip V} _.
#[global] Arguments v_resp_body {Ip V} _.
#[global] Arguments v_client_ip {Ip V} _.
#[global] Arguments v_server_ip {Ip V} _.
#[global] Arguments v_is_ssl {Ip V} _.
#[global] Arguments v_restarts {Ip V} _.
#[global] Arguments v_obj_hits {Ip V} _.
#[global] Arguments v_obj_ttl {Ip V} _.
#[global] Arguments v_obj_grace {Ip V} _.
#[global] Arguments v_obj_keep {Ip V} _.
#[global] Arguments v_req_body {Ip V} _.

(** Assignments to the fields of a context. *)
Definition set_req {Ip V : Type} (x : HttpMessage) (v : VclContext Ip V) : VclContext Ip V :=
  let '(mkVclContext _ a2 a3 a4 a5 a6 a7 a8 a9 a10 a11 a12 a13 a14 a15 a16 a17 a18 a19 a20) := v in
  mkVclContext x a2 a3 a4 a5 a6 a7 a8 a9 a10 a11 a12 a13 a14 a15 a16 a17 a18 a19 a20.
Definition set_resp {Ip V : Type} (x : HttpMessage) (v : VclContext Ip V) : VclContext Ip V :=
  let '(mkVclContext a1 _ a3 a4 a5 a6 a7 a8 a9 a10 a11 a12 a13 a14 a15 a16 a17 a18 a19 a20) := v in
  mkVclContext a1 x a3 a4 a5 a6 a7 a8 a9 a10 a11 a12 a13 a14 a15 a16 a17 a18 a19 a20.
Definition set_bereq {Ip V : Type} (x : HttpMessage) (v : VclContext Ip V) : VclContext Ip V :=
  let '(mkVclContext a1 a2 _ a4 a5 a6 a7 a8 a9 a10 a11 a12 a13 a14 a15 a16 a17 a18 a19 a20) := v in
  mkVclContext a1 a2 x a4 a5 a6 a7 a8 a9 a10 a11 a12 a13 a14 a15 a16 a17 a18 a19 a20.
Definition set_beresp {Ip V : Type} (x : HttpMessage) (v : VclContext Ip V) : VclContext Ip V :=
  let '(mkVclContext a1 a2 a3 _ a5 a6 a7 a8 a9 a10 a11 a12 a13 a14 a15 a16 a17 a18 a19 a20) := v in
  mkVclContext a1 a2 a3 x a5 a6 a7 a8 a9 a10 a11 a12 a13 a14 a15 a16 a17 a18 a19 a20.
Definition set_synth_body {Ip V : Type} (x : option bytes) (v : VclContext Ip V) : VclContext Ip V :=
  let '(mkVclContext a1 a2 a3 a4 a5 a6 a7 a8 a9 a10 a11 a12 _ a14 a15 a16 a17 a18 a19 a20) := v in
  mkVclContext a1 a2 a3 a4 a5 a6 a7 a8 a9 a10 a11 a12 x a14 a15 a16 a17 a18 a19 a20.
Definition set_synth_status {Ip V : Type} (x : option Z) (v : VclContext Ip V) : VclContext Ip V :=
  let '(mkVclContext a1 a2 a3 a4 a5 a6 a7 a8 a9 a10 a11 a12 a13 _ a15 a16 a17 a18 a19 a20) := v in
  mkVclContext a1 a2 a3 a4 a5 a6 a7 a8 a9 a10 a11 a12 a13 x a15 a16 a17 a18 a19 a20.
Definition set_local_vars {Ip V : Type} (x : gmap bytes V) (v : VclContext Ip V) : VclContext Ip V :=
  let '(mkVclContext a1 a2 a3 a4 a5 a6 a7 a8 a9 a10 a11 a12 a13 a14 _ a16 a17 a18 a19 a20) := v in
  mkVclContext a1 a2 a3 a4 a5 a6 a7 a8 a9 a10 a11 a12 a13 a14 x a16 a17 a18 a19 a20.
Definition set_do_gzip {Ip V : Type} (x : bool) (v : VclContext Ip V) : VclContext Ip V :=
  let '(mkVclContext a1 a2 a3 a4 a5 a6 a7 a8 a9 a10 a11 a12 a13 a14 a15 _ a17 a18 a19 a20) := v in
  mkVclContext a1 a2 a3 a4 a5 a6 a7 a8 a9 a10 a11 a12 a13 a14 a15 x a17 a18 a19 a20.
Definition set_do_gunzip {Ip V : Type} (x : bool) (v : VclContext Ip V) : VclContext Ip V :=
  let '(mkVclContext a1 a2 a3 a4 a5 a6 a7 a8 a9 a10 a11 a12 a13 a14 a15 a16 _ a18 a19 a20) := v in
  mkVclContext a1 a2 a3 a4 a5 a6 a7 a8 a9 a10 a11 a12 a13 a14 a15 a16 x a18 a19 a20.
Definition set_uncacheable {Ip V : Type} (x : bool) (v : VclContext Ip V) : VclContext Ip V :=
  let '(mkVclContext a1 a2 a3 a4 a5 a6 a7 a8 a9 a10 a11 a12 a13 a14 a15 a16 a17 _ a19 a20) := v in
  mkVclContext a1 a2 a3 a4 a5 a6 a7 a8 a9 a10 a11 a12 a13 a14 a15 a16 a17 x a19 a20.

Definition set_status_code (code : Z) (m : HttpMessage) : HttpMessage :=
  mkHttpMessage (msg_headers m) (HttpStatus_new code) (msg_protocol m) (msg_method m) (msg_url m)
    (msg_reason m) (msg_body_status m).
Definition set_reason (r : bytes) (m : HttpMessage) : HttpMessage :=
  mkHttpMessage (msg_headers m) (msg_status m) (msg_protocol m) (msg_method m) (msg_url m) r
    (msg_body_status m).
Definition set_url (u : bytes) (m : HttpMessage) : HttpMessage :=
  mkHttpMessage (msg_headers m) (msg_status m) (msg_protocol m) (msg_method m) u (msg_reason m)
    (msg_body_status m).
Definition set_method (x : HttpMethod) (m : HttpMessage) : HttpMessage :=
  mkHttpMessage (msg_headers m) (msg_status m) (msg_protocol m) x (msg_url m) (msg_reason m)
    (msg_body_status m).

(** Internal control flow. *)
Inductive ControlFlow : Set :=
| Continue
| Return_ (action : InterpreterAction.t)
| Error_ (msg : bytes).

(** [Regex::replace] and [replace_all]. *)
Class RegexReplace `{RegexLib} := {
  Regex_replace : Regex → bytes → bytes → bytes;
  Regex_replace_all : Regex → bytes → bytes → bytes;
}.

Section interp.
  Context {Ip : Type} (ip_to_string : Ip → bytes) {corefmt : CoreFmt}.
  Context {regex : RegexLib} {replace : RegexReplace}.

Abbreviation value := (VclValue.t Ip).
Abbreviation context := (VclContext Ip (VclValue.t Ip)).
Abbreviation string_of := (to_string_value ip_to_string).

Local Open Scope rust_scope.

(* ------------------------------------------------------------------ *)
(** ** Regular expressions *)

Definition compile_regex (pattern : bytes) : result Regex bytes :=
  map_err (λ e, str "regex error: " ++ e) (Regex_new pattern).

(** With the cache. *)
Definition get_or_compile_regex (pattern : bytes) (cache : gmap bytes Regex) :
    result Regex bytes * gmap bytes Regex :=
  match cache !! pattern with
  | Some re => (Ok re, cache)
  | None =>
      match compile_regex pattern with
      | Ok re => (Ok re, <[pattern := re]> cache)
      | Err e => (Err e, cache)
      end
  end.

(** Every entry of the cache is what compilation gives. *)
Definition regex_cache_ok (cache : gmap bytes Regex) : Prop :=
  map_Forall (λ pattern re, compile_regex pattern = Ok re) cache.

Lemma get_or_compile_regex_spec pattern cache :
  regex_cache_ok cache →
  (get_or_compile_regex pattern cache).1 = compile_regex pattern
  ∧ regex_cache_ok (get_or_compile_regex pattern cache).2.
Proof.
  intros Hc. unfold get_or_compile_regex. destruct (cache !! pattern) as [re|] eqn:E.
  - split; [|done]. symmetry. by apply (Hc pattern).
  - destruct (compile_regex pattern) as [re|e] eqn:Ec; [|done]. split; [done|].
    by apply map_Forall_insert_2.
Qed.

(* ------------------------------------------------------------------ *)
(** ** Variables *)

(** [now]: the reading of the clock. *)
Context (now : VtimReal).

Definition header_of (m : HttpMessage) (name : bytes) : value :=
  VclValue.String (default [] (HttpMessage_get_header m name)).

Definition fixed_variables (ctx : context) : list (bytes * value) :=
  [(str "req.url", VclValue.String (msg_url (v_req ctx)));
   (str "req.method", VclValue.String (HttpMethod_name (msg_method (v_req ctx))));
   (str "req.proto", VclValue.String (HttpVersion_as_str (msg_protocol (v_req ctx))));
   (str "req.restarts", VclValue.Int (v_restarts ctx));
   (str "req.is_ssl", VclValue.Bool (v_is_ssl ctx));
   (str "req.is_tls", VclValue.Bool (v_is_ssl ctx));
   (str "bereq.url", VclValue.String (msg_url (v_bereq ctx)));
   (str "bereq.method", VclValue.String (HttpMethod_name (msg_method (v_bereq ctx))));
   (str "bereq.proto", VclValue.String (HttpVersion_as_str (msg_protocol (v_bereq ctx))));
   (str "beresp.status", VclValue.Int (HttpStatus_code (msg_status (v_beresp ctx))));
   (str "beresp.reason", VclValue.String (msg_reason (v_beresp ctx)));
   (str "beresp.ttl", VclValue.Duration (f64_of_Z 120));
   (str "beresp.grace", VclValue.Duration (f64_of_Z 10));
   (str "beresp.keep", VclValue.Duration f64_zero);
   (str "beresp.uncacheable", VclValue.Bool (v_uncacheable ctx));
   (str "beresp.do_gzip", VclValue.Bool (v_do_gzip ctx));
   (str "beresp.do_gunzip", VclValue.Bool (v_do_gunzip ctx));
   (str "resp.status", VclValue.Int (HttpStatus_code (msg_status (v_resp ctx))));
   (str "resp.reason", VclValue.String (msg_reason (v_resp ctx)));
   (str "resp.proto", VclValue.String (HttpVersion_as_str (msg_protocol (v_resp ctx))));
   (str "obj.hits", VclValue.Int (v_obj_hits ctx));
   (str "obj.ttl", VclValue.Duration (v_obj_ttl ctx));
   (str "obj.grace", VclValue.Duration (v_obj_grace ctx));
   (str "obj.keep", VclValue.Duration (v_obj_keep ctx));
   (str "client.ip", VclValue.Ip_ (v_client_ip ctx));
   (str "server.ip", VclValue.Ip_ (v_server_ip ctx));
   (str "now", VclValue.Real now)].

Definition resolve_variable (name : bytes) (ctx : context) : value :=
  match match_str (fixed_variables ctx) name with
  | Some v => v
  | None =>
      match v_local_vars ctx !! name with
      | Some v => v
      | None =>
          match strip_prefix (str "req.http.") name with
          | Some header => header_of (v_req ctx) header
          | None =>
          match strip_prefix (str "resp.http.") name with
          | Some header => header_of (v_resp ctx) header
          | None =>
          match strip_prefix (str "bereq.http.") name with
          | Some header => header_of (v_bereq ctx) header
          | None =>
          match strip_prefix (str "beresp.http.") name with
          | Some header => header_of (v_beresp ctx) header
          | None => VclValue.Void
          end end end end
      end
  end.

Definition apply_header_op (m : HttpMessage) (name : bytes) (val : value) (op : SetOp.t) :
    HttpMessage :=
  match op with
  | SetOp.Assign => HttpMessage_set_header m name (string_of val)
  | SetOp.Add =>
      HttpMessage_set_header m name (default [] (HttpMessage_get_header m name) ++ string_of val)
  | SetOp.Subtract => m
  end.

Definition apply_duration_op (current new_val : f64) (op : SetOp.t) : f64 :=
  match op with
  | SetOp.Assign => new_val
  | SetOp.Add => f64_add current new_val
  | SetOp.Subtract => f64_sub current new_val
  end.

(** [url] of a message: assigned, extended or left alone. *)
Definition apply_url_op (m : HttpMessage) (val : value) (op : SetOp.t) : HttpMessage :=
  match op with
  | SetOp.Assign => set_url (string_of val) m
  | SetOp.Add => set_url (msg_url m ++ string_of val) m
  | SetOp.Subtract => m
  end.

(** The variables [beresp.ttl], [beresp.grace] and [beresp.keep] live in the local
    variables. *)
Definition set_lifetime (name : bytes) (initial : f64) (val : value) (op : SetOp.t) (ctx : context) :
    context :=
  let current := match v_local_vars ctx !! name with
                 | Some v => to_duration_secs v
                 | None => initial
                 end in
  set_local_vars
    (<[name := VclValue.Duration (apply_duration_op current (to_duration_secs val) op)]>
       (v_local_vars ctx)) ctx.

(** [if op == SetOp::Assign { .. }] *)
Definition on_assign (op : SetOp.t) (f : context → context) (ctx : context) : context :=
  if decide (op = SetOp.Assign) then f ctx else ctx.

Definition fixed_setters (val : value) (op : SetOp.t) : list (bytes * (context → context)) :=
  [(str "req.url", λ ctx, set_req (apply_url_op (v_req ctx) val op) ctx);
   (str "req.method", on_assign op (λ ctx,
      set_req (set_method (HttpMethod_parse_method (string_of val)) (v_req ctx)) ctx));
   (str "bereq.url", λ ctx, set_bereq (apply_url_op (v_bereq ctx) val op) ctx);
   (str "bereq.method", on_assign op (λ ctx,
      set_bereq (set_method (HttpMethod_parse_method (string_of val)) (v_bereq ctx)) ctx));
   (str "beresp.status", on_assign op (λ ctx,
      set_beresp (set_status_code (u16_wrap (to_int val)) (v_beresp ctx)) ctx));
   (str "beresp.reason", on_assign op (λ ctx,
      set_beresp (set_reason (string_of val) (v_beresp ctx)) ctx));
   (str "beresp.ttl", set_lifetime (str "beresp.ttl") (f64_of_Z 120) val op);
   (str "beresp.grace", set_lifetime (str "beresp.grace") (f64_of_Z 10) val op);
   (str "beresp.keep", set_lifetime (str "beresp.keep") f64_zero val op);
   (str "beresp.uncacheable", on_assign op (λ ctx, set_uncacheable (to_bool val) ctx));
   (str "beresp.do_gzip", on_assign op (λ ctx, set_do_gzip (to_bool val) ctx));
   (str "beresp.do_gunzip", on_assign op (λ ctx, set_do_gunzip (to_bool val) ctx));
   (str "resp.status", on_assign op (λ ctx,
      set_resp (set_status_code (u16_wrap (to_int val)) (v_resp ctx)) ctx));
   (str "resp.reason", on_assign op (λ ctx,
      set_resp (set_reason (string_of val) (v_resp ctx)) ctx))].

Definition set_variable (name : bytes) (val : value) (op : SetOp.t) (ctx : context) : context :=
  match match_str (fixed_setters val op) name with
  | Some f => f ctx
  | None =>
      match strip_prefix (str "req.http.") name with
      | Some header => set_req (apply_header_op (v_req ctx) header val op) ctx
      | None =>
      match strip_prefix (str "resp.http.") name with
      | Some header => set_resp (apply_header_op (v_resp ctx) header val op) ctx
      | None =>
      match strip_prefix (str "bereq.http.") name with
      | Some header => set_bereq (apply_header_op (v_bereq ctx) header val op) ctx
      | None =>
      match strip_prefix (str "beresp.http.") name with
      | Some header => set_beresp (apply_header_op (v_beresp ctx) header val op) ctx
      | None => set_local_vars (<[name := val]> (v_local_vars ctx)) ctx
      end end end end
  end.

Definition unset_variable (name : bytes) (ctx : context) : context :=
  match strip_prefix (str "req.http.") name with
  | Some header => set_req (HttpMessage_unset_header (v_req ctx) header) ctx
  | None =>
  match strip_prefix (str "resp.http.") name with
  | Some header => set_resp (HttpMessage_unset_header (v_resp ctx) header) ctx
  | None =>
  match strip_prefix (str "bereq.http.") name with
  | Some header => set_bereq (HttpMessage_unset_header (v_bereq ctx) header) ctx
  | None =>
  match strip_prefix (str "beresp.http.") name with
  | Some header => set_beresp (HttpMessage_unset_header (v_beresp ctx) header) ctx
  | None => set_local_vars (delete name (v_local_vars ctx)) ctx
  end end end end.

(* ------------------------------------------------------------------ *)
(** ** Expressions *)

(** The function resolver, if there is one: [call(module, function, args)]. *)
Abbreviation resolver_t := (option (bytes → bytes → list value → result value bytes)).

Definition eval_binary_op (lval : value) (op : BinOp.t) (rval : value) : result value bytes :=
  match op with
  | BinOp.Eq => Ok (VclValue.Bool (bool_decide (string_of lval = string_of rval)))
  | BinOp.Neq => Ok (VclValue.Bool (bool_decide (string_of lval ≠ string_of rval)))
  | BinOp.Gt => Ok (VclValue.Bool (f64_gt (to_real lval) (to_real rval)))
  | BinOp.Lt => Ok (VclValue.Bool (f64_lt (to_real lval) (to_real rval)))
  | BinOp.Gte => Ok (VclValue.Bool (f64_ge (to_real lval) (to_real rval)))
  | BinOp.Lte => Ok (VclValue.Bool (f64_le (to_real lval) (to_real rval)))
  | BinOp.And => Ok (VclValue.Bool (to_bool lval && to_bool rval))
  | BinOp.Or => Ok (VclValue.Bool (to_bool lval || to_bool rval))
  | BinOp.Add =>
      match lval, rval with
      | VclValue.Int a, VclValue.Int b => Ok (VclValue.Int (i64_wrap (a + b)))
      | VclValue.Duration a, VclValue.Duration b => Ok (VclValue.Duration (f64_add a b))
      | VclValue.String a, _ => Ok (VclValue.String (a ++ string_of rval))
      | _, _ => Ok (VclValue.Real (f64_add (to_real lval) (to_real rval)))
      end
  | BinOp.Sub =>
      match lval, rval with
      | VclValue.Int a, VclValue.Int b => Ok (VclValue.Int (i64_wrap (a - b)))
      | VclValue.Duration a, VclValue.Duration b => Ok (VclValue.Duration (f64_sub a b))
      | _, _ => Ok (VclValue.Real (f64_sub (to_real lval) (to_real rval)))
      end
  | BinOp.Mul => Ok (VclValue.Real (f64_mul (to_real lval) (to_real rval)))
  | BinOp.Div =>
      let divisor := to_real rval in
      if f64_eqb divisor f64_zero then Err (str "division by zero")
      else Ok (VclValue.Real (f64_div (to_real lval) divisor))
  | BinOp.Match =>
      re ←? compile_regex (string_of rval);
      Ok (VclValue.Bool (Regex_is_match re (string_of lval)))
  | BinOp.NotMatch =>
      re ←? compile_regex (string_of rval);
      Ok (VclValue.Bool (negb (Regex_is_match re (string_of lval))))
  end.

(** [regsub] and [regsuball]. *)
Definition call_regsub (name : bytes) (apply : Regex → bytes → bytes → bytes) (args : list value) :
    result value bytes :=
  match args with
  | text :: pattern :: replacement :: _ =>
      re ←? compile_regex (string_of pattern);
      Ok (VclValue.String (apply re (string_of text) (string_of replacement)))
  | _ => Err (name ++ str " requires 3 arguments")
  end.

Definition call_builtin (resolver : resolver_t) (name : bytes) (args : list value) :
    result value bytes :=
  if decide (name = str "regsub") then call_regsub (str "regsub") Regex_replace args
  else if decide (name = str "regsuball") then call_regsub (str "regsuball") Regex_replace_all args
  else if decide (name = str "hash_data" ∨ name = str "ban" ∨ name = str "return") then
    Ok VclValue.Void
  else
    match split_once [x2e] name, resolver with
    | Some (module_, function), Some call => call module_ function args
    | _, _ => Ok VclValue.Void
    end.

Definition message_of (object : bytes) (ctx : context) : result HttpMessage bytes :=
  ok_or (match_str [(str "req", v_req ctx); (str "resp", v_resp ctx); (str "bereq", v_bereq ctx);
                    (str "beresp", v_beresp ctx)] object)
    (str "unknown object: " ++ object).

(** Arguments, from left to right, given the evaluation of an expression. *)
Definition eval_list (eval : Expr.t → result value bytes) :
    list Expr.t → result (list value) bytes :=
  fix eval_list args :=
    match args with
    | [] => Ok []
    | arg :: args => v ←? eval arg; vs ←? eval_list args; Ok (v :: vs)
    end.

Fixpoint eval_expr (resolver : resolver_t) (ctx : context) (e : Expr.t) {struct e} :
    result value bytes :=
  let eval_args := eval_list (eval_expr resolver ctx) in
  match e with
  | Expr.StringLit s => Ok (VclValue.String s)
  | Expr.IntLit i => Ok (VclValue.Int i)
  | Expr.RealLit r => Ok (VclValue.Real r)
  | Expr.DurationLit d => Ok (VclValue.Duration d)
  | Expr.BoolLit b => Ok (VclValue.Bool b)
  | Expr.Ident name => Ok (default (VclValue.String name) (v_local_vars ctx !! name))
  | Expr.Variable_ name => Ok (resolve_variable name ctx)
  | Expr.HeaderRef obj header => msg ←? message_of obj ctx; Ok (header_of msg header)
  | Expr.BinaryOp l op r =>
      lval ←? eval_expr resolver ctx l;
      rval ←? eval_expr resolver ctx r;
      eval_binary_op lval op rval
  | Expr.UnaryOp op operand =>
      val ←? eval_expr resolver ctx operand;
      Ok (match op with
          | UnaryOp.Not => VclValue.Bool (negb (to_bool val))
          | UnaryOp.Negate => VclValue.Int (i64_wrap (- to_int val))
          end)
  | Expr.FunctionCall name args =>
      vs ←? eval_args args;
      call_builtin resolver name vs
  | Expr.MethodCall object method args =>
      obj_val ←? eval_expr resolver ctx object;
      vs ←? eval_args args;
      Ok VclValue.Void
  | Expr.RegexLit pattern => Ok (VclValue.String pattern)
  | Expr.Concat parts =>
      vs ←? eval_args parts;
      Ok (VclValue.String (concat (map string_of vs)))
  end.

(* ------------------------------------------------------------------ *)
(** ** Statements *)

Definition return_named (name : bytes) : ControlFlow :=
  match InterpreterAction.from_name name with
  | Some a => Return_ a
  | None => Error_ (str "unknown return action: " ++ name)
  end.

Definition handle_return (resolver : resolver_t) (action : Expr.t) (ctx : context) :
    ControlFlow * context :=
  match action with
  | Expr.Ident name | Expr.Variable_ name => (return_named name, ctx)
  | Expr.FunctionCall name args =>
      if decide (name = str "synth") then
        let ctx := match args !! 0%nat with
                   | Some status_expr =>
                       match eval_expr resolver ctx status_expr with
                       | Ok val => set_synth_status (Some (u16_wrap (to_int val))) ctx
                       | Err _ => ctx
                       end
                   | None => ctx
                   end in
        let ctx := match args !! 1%nat with
                   | Some reason_expr =>
                       match eval_expr resolver ctx reason_expr with
                       | Ok val => set_synth_body (Some (string_of val)) ctx
                       | Err _ => ctx
                       end
                   | None => ctx
                   end in
        (Return_ InterpreterAction.Synth, ctx)
      else (return_named name, ctx)
  | _ => (Error_ (str "invalid return expression"), ctx)
  end.

(** The result of a statement that evaluates an expression. *)
Definition with_value (r : result value bytes) (ctx : context) (k : value → context) :
    ControlFlow * context :=
  match r with
  | Ok val => (Continue, k val)
  | Err e => (Error_ e, ctx)
  end.

(** Blocks are given by the execution of a statement. *)
Section block.
  Context (exec : Statement.t → context → option (ControlFlow * context)).

Fixpoint exec_list (stmts : list Statement.t) (ctx : context) : option (ControlFlow * context) :=
  match stmts with
  | [] => Some (Continue, ctx)
  | stmt :: stmts =>
      '(flow, ctx) ← exec stmt ctx;
      match flow with
      | Continue => exec_list stmts ctx
      | other => Some (other, ctx)
      end
  end.

(** The [else if] branches, then [otherwise]. *)
Fixpoint exec_branches (resolver : resolver_t) (otherwise : option (ControlFlow * context))
    (branches : list (Expr.t * list Statement.t)) (ctx : context) : option (ControlFlow * context) :=
  match branches with
  | [] => otherwise
  | (cond, body) :: branches =>
      match eval_expr resolver ctx cond with
      | Err e => Some (Error_ e, ctx)
      | Ok v => if to_bool v then exec_list body ctx
                else exec_branches resolver otherwise branches ctx
      end
  end.

End block.

(** [call] runs a subroutine. *)
Fixpoint exec_statement (resolver : resolver_t)
    (call : bytes → context → option (ControlFlow * context)) (stmt : Statement.t) (ctx : context)
    {struct stmt} : option (ControlFlow * context) :=
  let exec := exec_statement resolver call in
  match stmt with
  | Statement.Set_ target operator value =>
      Some (with_value (eval_expr resolver ctx value) ctx (λ val, set_variable target val operator ctx))
  | Statement.Unset target => Some (Continue, unset_variable target ctx)
  | Statement.Call subroutine => call subroutine ctx
  | Statement.Return action => Some (handle_return resolver action ctx)
  | Statement.If condition body else_ifs else_body =>
      match eval_expr resolver ctx condition with
      | Err e => Some (Error_ e, ctx)
      | Ok v => if to_bool v then exec_list exec body ctx
                else
                  exec_branches exec resolver
                    (match else_body with
                     | Some body => exec_list exec body ctx
                     | None => Some (Continue, ctx)
                     end) else_ifs ctx
      end
  | Statement.Synthetic e =>
      Some (with_value (eval_expr resolver ctx e) ctx (λ val,
        set_synth_body (Some (string_of val)) ctx))
  | Statement.Ban e => Some (with_value (eval_expr resolver ctx e) ctx (λ _, ctx))
  | Statement.New _ _ _ => Some (Continue, ctx)
  | Statement.ExprStatement e => Some (with_value (eval_expr resolver ctx e) ctx (λ _, ctx))
  end.

Definition exec_block (resolver : resolver_t)
    (call : bytes → context → option (ControlFlow * context)) :
    list Statement.t → context → option (ControlFlow * context) :=
  exec_list (exec_statement resolver call).

(* ------------------------------------------------------------------ *)
(** ** Subroutines *)

Record interpreter : Type := mkInterpreter {
  vi_program : VclProgram;
  sub_index : gmap bytes nat;
  vi_resolver : resolver_t;
}.

(** A later subroutine replaces an earlier one of the same name. *)
Definition VclInterpreter_new (program : VclProgram) : interpreter :=
  mkInterpreter program
    (fold_left (λ index '(i, sub), <[sub_name sub := i]> index) (imap pair (subs program)) ∅) None.

Definition VclInterpreter_with_resolver (program : VclProgram) (resolver : bytes → bytes → list value →
    result value bytes) : interpreter :=
  let inst := VclInterpreter_new program in
  mkInterpreter (vi_program inst) (sub_index inst) (Some resolver).

Definition has_subroutine (vi : interpreter) (name : bytes) : bool :=
  bool_decide (is_Some (sub_index vi !! name)).

(** The body of [Statement::Call]; indexing out of range is [None] as well. *)
Fixpoint exec_call (fuel : nat) (vi : interpreter) (name : bytes) (ctx : context) :
    option (ControlFlow * context) :=
  match fuel with
  | O => None
  | S fuel =>
      match sub_index vi !! name with
      | None => Some (Error_ (str "subroutine not found: " ++ name), ctx)
      | Some idx =>
          sub ← subs (vi_program vi) !! idx;
          exec_block (vi_resolver vi) (exec_call fuel vi) (sub_body sub) ctx
      end
  end.

Definition VclInterpreter_exec_subroutine (fuel : nat) (vi : interpreter) (name : bytes)
    (ctx : context) : option (VclExecResult * context) :=
  match sub_index vi !! name with
  | None => Some (ExecFallthrough, ctx)
  | Some idx =>
      sub ← subs (vi_program vi) !! idx;
      '(flow, ctx) ← exec_block (vi_resolver vi) (exec_call fuel vi) (sub_body sub) ctx;
      Some (match flow with
            | Continue => ExecFallthrough
            | Return_ action => ExecAction action
            | Error_ e => ExecError e
            end, ctx)
  end.

(* ------------------------------------------------------------------ *)
(** ** The resolver *)

Lemma plain_ident_no_dot n : plain_ident n → split_once [x2e] n = None.
Proof.
  intros Hn. apply split_once_byte_None. intros Hin. unfold plain_ident in Hn.
  rewrite Forall_forall in Hn. by apply Hn in Hin.
Qed.

Section resolver.
  Context (r1 r2 : resolver_t).

Lemma eval_list_resolver f g args (P : Expr.t → Prop) :
  Forall (λ e, P e → f e = g e) args → Forall P args → eval_list f args = eval_list g args.
Proof.
  induction 1 as [|e args He _ IH]; [done|]. intros [Hp HF]%Forall_cons. simpl. rewrite He by done.
  by rewrite IH.
Qed.

Lemma eval_resolver ctx e :
  parsed plain_ident e → eval_expr r1 ctx e = eval_expr r2 ctx e.
Proof.
  induction e as [s|v|v|v|v|n|n|o h|l op r IHl IHr|op e IH|n args IH|o m args _ IH|r|parts IH]
    using Expr.expr_ind_nested; inversion 1; subst; try done; cbn [eval_expr].
  - rewrite IHl, IHr by done. done.
  - rewrite IH by done. done.
  - erewrite (eval_list_resolver (eval_expr r1 ctx)) by done. unfold call_builtin.
    by rewrite plain_ident_no_dot.
  - by erewrite (eval_list_resolver (eval_expr r1 ctx)) by done.
Qed.

Lemma return_resolver action ctx :
  parsed plain_ident action → handle_return r1 action ctx = handle_return r2 action ctx.
Proof.
  destruct 1 as [s|v|v|v|v|n Hn|a b|o h|l op r|op e|n args Hn HF|o m args HF]; try done. cbn [handle_return].
  case_decide; [|done]. rewrite Forall_lookup in HF.
  destruct (args !! 0%nat) as [a0|] eqn:E0; [rewrite eval_resolver by by eapply HF|];
    (destruct (args !! 1%nat) as [a1|] eqn:E1; [rewrite eval_resolver by by eapply HF|]); done.
Qed.

Lemma exec_list_resolver call1 call2 stmts :
  Forall (λ s, stmt_exprs (parsed plain_ident) s →
            ∀ ctx, exec_statement r1 call1 s ctx = exec_statement r2 call2 s ctx) stmts →
  Forall (stmt_exprs (parsed plain_ident)) stmts →
  ∀ ctx, exec_block r1 call1 stmts ctx = exec_block r2 call2 stmts ctx.
Proof.
  induction 1 as [|s stmts Hs _ IH]; [done|]. intros [Hp HF]%Forall_cons ctx.
  unfold exec_block. cbn [exec_list]. rewrite Hs by done.
  destruct (exec_statement r2 call2 s ctx) as [[[] ctx']|]; try done. by apply IH.
Qed.

Lemma exec_branches_resolver call1 call2 other brs :
  Forall (λ br, Forall (λ s, stmt_exprs (parsed plain_ident) s →
            ∀ ctx, exec_statement r1 call1 s ctx = exec_statement r2 call2 s ctx) br.2) brs →
  Forall (λ br, parsed plain_ident br.1 ∧ Forall (stmt_exprs (parsed plain_ident)) br.2) brs →
  ∀ ctx, exec_branches (exec_statement r1 call1) r1 other brs ctx
       = exec_branches (exec_statement r2 call2) r2 other brs ctx.
Proof.
  induction 1 as [|[c body] brs Hs _ IH]; [done|]. intros [[Hc Hb] HF]%Forall_cons ctx.
  cbn [exec_branches fst snd] in *. rewrite eval_resolver by done.
  destruct (eval_expr r2 ctx c) as [v|e]; [|done]. destruct (to_bool v); [|by apply IH].
  by apply exec_list_resolver.
Qed.

(** Statements of parsed expressions, when the calls agree. *)
Lemma exec_resolver call1 call2 s :
  (∀ n ctx, call1 n ctx = call2 n ctx) → stmt_exprs (parsed plain_ident) s →
  ∀ ctx, exec_statement r1 call1 s ctx = exec_statement r2 call2 s ctx.
Proof.
  intros Hcall. induction s as [x o v|x|n|a|c body elses els IHb IHe IHo|e|n ty args|e|e] using Statement.stmt_ind_nested;
    inversion 1; subst; intros ctx; cbn [exec_statement]; try (by rewrite eval_resolver); try done.
  - by rewrite return_resolver.
  - rewrite eval_resolver by done. destruct (eval_expr r2 ctx c) as [v|e]; [|done].
    destruct (to_bool v); [by apply exec_list_resolver|].
    erewrite exec_branches_resolver by done. f_equal. destruct els as [b|]; [|done].
    apply exec_list_resolver; [done|]. by match goal with H : Forall _ (option_list _) |- _ => inversion H end.
Qed.

Definition with_resolver (r : resolver_t) (vi : interpreter) : interpreter :=
  mkInterpreter (vi_program vi) (sub_index vi) r.

Lemma exec_body_resolver fuel vi body ctx :
  Forall (λ d, Forall (stmt_exprs (parsed plain_ident)) (sub_body d)) (subs (vi_program vi)) →
  Forall (stmt_exprs (parsed plain_ident)) body →
  exec_block r1 (exec_call fuel (with_resolver r1 vi)) body ctx
  = exec_block r2 (exec_call fuel (with_resolver r2 vi)) body ctx.
Proof.
  intros Hsubs. revert body ctx. induction fuel as [|fuel IH]; intros body ctx Hbody.
  all: apply exec_list_resolver; [|done]; apply Forall_forall; intros s _; apply exec_resolver.
  - done.
  - intros n ctx'. cbn [exec_call with_resolver sub_index vi_program vi_resolver].
    destruct (sub_index vi !! n) as [idx|]; [|done].
    destruct (subs (vi_program vi) !! idx) as [sub|] eqn:Es; [|done]. cbn [mbind option_bind].
    apply IH. rewrite Forall_lookup in Hsubs. by eapply Hsubs.
Qed.
End resolver.

(** C23. The function resolver is dead code: whatever source a VCL program was loaded
    from, running any of its subroutines gives the same result with every resolver
    and with none.  A call such as [std.log(..)] is parsed as a method call on the
    variable [std] and evaluates to [Void]; the name of a parsed function call has
    no dot, and only names with one are dispatched to the VMODs. *)
Theorem resolver_never_called source program resolver fuel name ctx :
  load_vcl source = Some (Ok program) →
  VclInterpreter_exec_subroutine fuel (VclInterpreter_with_resolver program resolver) name ctx
  = VclInterpreter_exec_subroutine fuel (VclInterpreter_new program) name ctx.
Proof.
  intros Hload. destruct (load_vcl_ok source) as (r & E & Hr). rewrite Hload in E.
  destruct (Hr program) as (Hsubs & _); [congruence|]. clear Hload E Hr.
  set (vi := VclInterpreter_new program).
  change (VclInterpreter_with_resolver program resolver) with (with_resolver (Some resolver) vi).
  unfold VclInterpreter_exec_subroutine. cbn [with_resolver sub_index vi_program vi_resolver].
  destruct (sub_index vi !! name) as [idx|]; [|done].
  destruct (subs (vi_program vi) !! idx) as [sub|] eqn:Es; [|done]. cbn [mbind option_bind].
  pose proof (exec_body_resolver (Some resolver) None fuel vi (sub_body sub) ctx Hsubs) as H.
  rewrite H; [done|]. rewrite Forall_lookup in Hsubs. by eapply Hsubs.
Qed.
(* ------------------------------------------------------------------ *)
(** ** Calls *)

(** The subroutines a statement calls. *)
Fixpoint calls_of (s : Statement.t) : list bytes :=
  match s with
  | Statement.Call n => [n]
  | Statement.If _ body elses els =>
      flat_map calls_of body ++ flat_map (λ br, flat_map calls_of br.2) elses
      ++ match els with Some b => flat_map calls_of b | None => [] end
  | _ => []
  end.

Section total.
  Context (r : resolver_t) (call : bytes → context → option (ControlFlow * context)).
  Context (good : bytes → Prop) (Hcall : ∀ n ctx, good n → is_Some (call n ctx)).

Abbreviation total s := (∀ ctx, is_Some (exec_statement r call s ctx)).

Lemma exec_list_total stmts : Forall (λ s, total s) stmts → ∀ ctx, is_Some (exec_block r call stmts ctx).
Proof.
  unfold exec_block. induction 1 as [|s stmts Hs _ IH]; intros ctx; simpl; [by eexists|].
  destruct (Hs ctx) as [[flow ctx'] ->]. simpl. destruct flow; [apply IH|by eexists..].
Qed.

Lemma exec_total s : Forall good (calls_of s) → total s.
Proof.
  assert (Hlist : ∀ l, Forall (λ s, Forall good (calls_of s) → total s) l →
            Forall good (flat_map calls_of l) → Forall (λ s, total s) l).
  { induction 1 as [|x l Hx _ IH]; [done|]. simpl. rewrite Forall_app. intros [? ?].
    constructor; [by apply Hx|by apply IH]. }
  induction s as [x o v|x|n|a|c body elses els IHb IHe IHo|e|n ty args|e|e] using Statement.stmt_ind_nested;
    intros Hg ctx; cbn [exec_statement]; try by eexists.
  - apply Hcall. by apply Forall_cons in Hg as [? _].
  - cbn [calls_of] in Hg. rewrite !Forall_app in Hg. destruct Hg as (Hb & He & Ho).
    destruct (eval_expr r ctx c) as [v|e]; [|by eexists]. destruct (to_bool v).
    { by apply exec_list_total, Hlist. }
    set (other := match els with Some b => _ | None => _ end).
    assert (Hother : is_Some other).
    { unfold other. destruct els; [by apply exec_list_total, Hlist|by eexists]. }
    clearbody other. induction IHe as [|[c' b'] elses Hb' _ IH]; [done|]. simpl in He.
    rewrite Forall_app in He. destruct He as [He1 He2]. cbn [exec_branches].
    destruct (eval_expr r ctx c') as [v'|e']; [|by eexists]. destruct (to_bool v').
    + by apply exec_list_total, Hlist.
    + by apply IH.
Qed.
End total.

(** The index maps names to subroutines of the program. *)
Lemma sub_index_lookup program name idx :
  sub_index (VclInterpreter_new program) !! name = Some idx →
  ∃ sub, subs program !! idx = Some sub ∧ sub_name sub = name.
Proof.
  unfold VclInterpreter_new. cbn [sub_index].
  assert (Hgen : ∀ (l : list (nat * SubDecl)) (m : gmap bytes nat),
    (∀ n i, m !! n = Some i → ∃ sub, subs program !! i = Some sub ∧ sub_name sub = n) →
    Forall (λ p, subs program !! p.1 = Some p.2) l →
    ∀ n i, fold_left (λ index '(i, sub), <[sub_name sub := i]> index) l m !! n = Some i →
      ∃ sub, subs program !! i = Some sub ∧ sub_name sub = n).
  { induction l as [|[j sub] l IH]; intros m Hm HF n i; simpl; [apply Hm|].
    apply Forall_cons in HF as [Hj HF]. apply IH; [|done]. intros n' i'. rewrite lookup_insert_Some.
    intros [[<- <-]|[_ H]]; [by exists sub|by apply Hm]. }
  apply Hgen; [by intros n i; rewrite lookup_empty|].
  rewrite Forall_lookup. intros k [i sub]. rewrite list_lookup_imap.
  intros (s & Hs & [= <- <-])%fmap_Some. done.
Qed.

(** A rank of subroutines that goes down with every call: no recursion. *)
Definition ranked (rank : bytes → nat) (program : VclProgram) : Prop :=
  Forall (λ sub, Forall (λ n, (rank n < rank (sub_name sub))%nat) (flat_map calls_of (sub_body sub)))
    (subs program).

Lemma exec_body_total rank vi program sub fuel ctx :
  ranked rank program → sub_index vi = sub_index (VclInterpreter_new program) → vi_program vi = program →
  sub ∈ subs program → (rank (sub_name sub) ≤ fuel)%nat →
  is_Some (exec_block (vi_resolver vi) (exec_call fuel vi) (sub_body sub) ctx).
Proof.
  intros Hrank Hidx Hprog. revert sub ctx. induction fuel as [|fuel IH]; intros sub ctx Hin Hle.
  all: unfold ranked in Hrank; rewrite Forall_forall in Hrank; pose proof (Hrank sub Hin) as Hsub.
  all: apply exec_list_total, Forall_forall; intros s Hs.
  all: apply (exec_total _ _ (λ n, (rank n < rank (sub_name sub))%nat)).
  2,4: rewrite Forall_forall in Hsub |- *; intros n Hn; apply Hsub, list_elem_of_In, in_flat_map; exists s;
       by rewrite <-!list_elem_of_In.
  - lia.
  - intros n ctx' Hn. cbn [exec_call]. rewrite Hidx, Hprog.
    destruct (sub_index (VclInterpreter_new program) !! n) as [idx|] eqn:En; [|by eexists].
    apply sub_index_lookup in En as (sub' & Es & <-). rewrite Es. cbn [mbind option_bind].
    apply IH; [by eapply list_elem_of_lookup_2|lia].
Qed.

Lemma subroutine_returns rank program name ctx fuel :
  ranked rank program → (rank name ≤ fuel)%nat →
  ∃ res ctx', VclInterpreter_exec_subroutine fuel (VclInterpreter_new program) name ctx = Some (res, ctx').
Proof.
  intros Hrank Hle. unfold VclInterpreter_exec_subroutine.
  destruct (sub_index (VclInterpreter_new program) !! name) as [idx|] eqn:En; [|by eexists _, _].
  apply sub_index_lookup in En as (sub & Es & <-). cbn [vi_program VclInterpreter_new]. rewrite Es.
  cbn [mbind option_bind].
  destruct (exec_body_total rank (VclInterpreter_new program) program sub fuel ctx) as [[flow ctx'] E];
    [done..|by eapply list_elem_of_lookup_2|done|].
  rewrite E. by eexists _, _.
Qed.

(** C25. Subroutines end: in a program without recursion (a rank goes down with
    every call) each subroutine returns, whatever its statements, the context and
    the resolver do, with a stack no deeper than its rank. *)
Theorem subroutine_terminates rank program name ctx fuel :
  ranked rank program → (rank name ≤ fuel)%nat →
  ∃ res ctx', VclInterpreter_exec_subroutine fuel (VclInterpreter_new program) name ctx = Some (res, ctx').
Proof. apply subroutine_returns. Qed.

(** A subroutine that begins by calling itself. *)
Lemma recursion_diverges fuel vi name idx sub rest ctx :
  sub_index vi !! name = Some idx → subs (vi_program vi) !! idx = Some sub →
  sub_body sub = Statement.Call name :: rest →
  VclInterpreter_exec_subroutine fuel vi name ctx = None.
Proof.
  intros Hidx Hsub Hbody. unfold VclInterpreter_exec_subroutine.
  assert (Hcall : exec_call fuel vi name ctx = None).
  { induction fuel as [|fuel IH]; [done|]. cbn [exec_call].
    rewrite Hidx, Hsub. cbn [mbind option_bind]. rewrite Hbody. unfold exec_block.
    cbn [exec_list exec_statement]. by rewrite IH. }
  rewrite Hidx, Hsub. cbn [mbind option_bind]. rewrite Hbody. unfold exec_block.
  cbn [exec_list exec_statement]. by rewrite Hcall.
Qed.

(** Recursion is neither refused nor bounded: the program
    [sub vcl_recv { call vcl_recv; }] loads, and its [vcl_recv] uses up every
    stack. *)
Theorem recursion_accepted fuel ctx :
  ∃ program, load_vcl (str "sub vcl_recv { call vcl_recv; }") = Some (Ok program)
    ∧ VclInterpreter_exec_subroutine fuel (VclInterpreter_new program) (str "vcl_recv") ctx = None.
Proof.
  exists (mkProgram None [] [] [] [] [mkSub (str "vcl_recv") [Statement.Call (str "vcl_recv")]]).
  split; [vm_compute; reflexivity|].
  by eapply (recursion_diverges fuel _ (str "vcl_recv") 0).
Qed.

(* ------------------------------------------------------------------ *)
(** ** Assignments *)

(** The four messages, by the name VCL gives them. *)
Definition objects : list (bytes * ((context → HttpMessage) * (HttpMessage → context → context))) :=
  [(str "req", (v_req, set_req)); (str "resp", (v_resp, set_resp)); (str "bereq", (v_bereq, set_bereq));
   (str "beresp", (v_beresp, set_beresp))].

Lemma set_header_variable obj get put header val op ctx :
  (obj, (get, put)) ∈ objects →
  set_variable (obj ++ str ".http." ++ header) val op ctx
  = put (apply_header_op (get ctx) header val op) ctx.
Proof.
  unfold objects. rewrite !elem_of_cons, elem_of_nil.
  intros [[= -> -> ->]|[[= -> -> ->]|[[= -> -> ->]|[[= -> -> ->]|[]]]]].
  all: unfold set_variable, fixed_setters; cbn [match_str];
    repeat (rewrite decide_False by (intros E; vm_compute in E; discriminate E)); done.
Qed.

(** Reading back what was put. *)
Lemma objects_get_put obj get put m ctx :
  (obj, (get, put)) ∈ objects →
  message_of obj (put m ctx) = Ok m
  ∧ ∀ obj' get' put', (obj', (get', put')) ∈ objects → obj' ≠ obj → get' (put m ctx) = get' ctx.
Proof.
  unfold objects. rewrite !elem_of_cons, elem_of_nil.
  intros [[= -> -> ->]|[[= -> -> ->]|[[= -> -> ->]|[[= -> -> ->]|[]]]]]; destruct ctx;
    (split; [done|]); intros obj' get' put'; rewrite !elem_of_cons, elem_of_nil;
    intros [[= -> -> ->]|[[= -> -> ->]|[[= -> -> ->]|[[= -> -> ->]|[]]]]]; done.
Qed.

(** Header assignments in VCL: after [set obj.http.name = e;] the header reads
    as the printed value of [e] under every spelling of its name, each other header
    of the message and the other three messages are unchanged; after [+=] it reads
    as the old value followed by the new; [-=] changes nothing. *)
Theorem header_assignment obj get put name val op ctx name' r :
  (obj, (get, put)) ∈ objects →
  let ctx' := set_variable (obj ++ str ".http." ++ name) val op ctx in
  let old := default [] (HttpMessage_get_header (get ctx) name) in
  eval_expr r ctx' (Expr.HeaderRef obj name')
    = Ok (VclValue.String
        (if eq_ignore_ascii_case name name' then
           match op with
           | SetOp.Assign => string_of val
           | SetOp.Add => old ++ string_of val
           | SetOp.Subtract => default [] (HttpMessage_get_header (get ctx) name')
           end
         else default [] (HttpMessage_get_header (get ctx) name')))
  ∧ ∀ obj' get' put', (obj', (get', put')) ∈ objects → obj' ≠ obj → get' ctx' = get' ctx.
Proof.
  intros Hobj ctx' old. unfold ctx'. rewrite (set_header_variable obj get put) by done.
  destruct (objects_get_put obj get put (apply_header_op (get ctx) name val op) ctx Hobj) as [Hm Hother].
  split; [|done]. cbn [eval_expr]. rewrite Hm. cbn [result_bind]. unfold header_of, old. do 2 f_equal.
  unfold HttpMessage_get_header. destruct op; cbn [apply_header_op].
  - unfold HttpMessage_set_header, msg_with_headers. cbn [msg_headers]. rewrite HeaderMap_get_set. by case_if.
  - unfold HttpMessage_set_header, msg_with_headers. cbn [msg_headers]. rewrite HeaderMap_get_set. by case_if.
  - by case_if.
Qed.

(** The lifetimes a VCL sets cannot be read back: whatever [vcl_backend_response]
    assigns to [beresp.ttl], the variable still reads as 120 seconds, while the
    server is handed the assigned value. *)
Theorem beresp_ttl_reads_default val ctx r :
  let ctx' := set_variable (str "beresp.ttl") val SetOp.Assign ctx in
  eval_expr r ctx' (Expr.Variable_ (str "beresp.ttl")) = Ok (VclValue.Duration (f64_of_Z 120))
  ∧ v_local_vars ctx' !! str "beresp.ttl" = Some (VclValue.Duration (to_duration_secs val)).
Proof.
  intros ctx'. split; [done|]. unfold ctx'.
  assert (E : set_variable (str "beresp.ttl") val SetOp.Assign ctx
    = set_lifetime (str "beresp.ttl") (f64_of_Z 120) val SetOp.Assign ctx) by done.
  rewrite E. unfold set_lifetime, set_local_vars. destruct ctx. simpl v_local_vars. by rewrite lookup_insert_eq.
Qed.

End interp.

(* ------------------------------------------------------------------ *)
(** ** A concrete program *)

#[local] Instance interp_corefmt : CoreFmt := { fmt_f64 _ := []; char_debug _ := [] }.
#[local] Instance substring_replace : @RegexReplace substring_regex :=
  {| Regex_replace _ text _ := text; Regex_replace_all _ text _ := text |}.

Definition sample_source : bytes :=
  str "vcl 4; import std; # comment
sub vcl_recv { if (!req.is_ssl && req.restarts < 3) { std.log(1); call tag; } return(pass); }
sub tag { set req.http.X-Tag = 40 + 2; }".

Definition sample_program : VclProgram :=
  match load_vcl sample_source with
  | Some (Ok p) => p
  | _ => mkProgram None [] [] [] [] []
  end.

Definition sample_context : VclContext unit (VclValue.t unit) :=
  mkVclContext (HttpMessage_new_request HttpMethod_Get (str "/a") Http11) HttpMessage_default
    HttpMessage_default HttpMessage_default tt tt false 0 0 f64_zero f64_zero f64_zero None None ∅ false
    false false None None.

(** The request is passed, with the header set by the subroutine called. *)
Example sample_run :
  (λ '(res, ctx), (res, HttpMessage_get_header (v_req ctx) (str "x-tag")))
    <$> VclInterpreter_exec_subroutine (regex := substring_regex) (λ _, []) f64_zero 1
          (VclInterpreter_new sample_program) (str "vcl_recv") sample_context
  = Some (ExecAction InterpreterAction.Pass, Some (str "42")).
Proof. vm_compute. reflexivity. Qed.

Lemma resolver_never_called_witness :
  VclInterpreter_exec_subroutine (regex := substring_regex) (λ _, []) f64_zero 1
    (VclInterpreter_with_resolver sample_program (λ _ _ _, Err (str "called"))) (str "vcl_recv")
    sample_context
  = VclInterpreter_exec_subroutine (regex := substring_regex) (λ _, []) f64_zero 1
    (VclInterpreter_new sample_program) (str "vcl_recv") sample_context.
Proof.
  apply (resolver_never_called (regex := substring_regex) (λ _, []) f64_zero sample_source).
  vm_compute. reflexivity.
Defined.

Lemma subroutine_terminates_witness :
  ∃ res ctx', VclInterpreter_exec_subroutine (regex := substring_regex) (λ _, []) f64_zero 1
    (VclInterpreter_new sample_program) (str "vcl_recv") sample_context = Some (res, ctx').
Proof.
  apply (subroutine_terminates (regex := substring_regex) (λ _, []) f64_zero
           (λ n, if decide (n = str "vcl_recv") then 1%nat else 0%nat)).
  - repeat constructor.
  - vm_compute. lia.
Defined.

Lemma header_assignment_witness :
  let ctx' := set_variable (λ _ : unit, []) (str "req" ++ str ".http." ++ str "Accept")
                (VclValue.Int 7) SetOp.Assign sample_context in
  eval_expr (regex := substring_regex) (λ _, []) f64_zero None ctx' (Expr.HeaderRef (str "req") (str "ACCEPT"))
    = Ok (VclValue.String (str "7"))
  ∧ ∀ obj' get' put', (obj', (get', put')) ∈ objects → obj' ≠ str "req" → get' ctx' = get' sample_context.
Proof.
  apply (header_assignment (regex := substring_regex) (λ _, []) f64_zero (str "req") v_req set_req
           (str "Accept") (VclValue.Int 7) SetOp.Assign sample_context (str "ACCEPT") None).
  left.
Defined.
