(* ===== verification/VclTables.v ===== *)
(** * The tables of VCL subroutines and actions

    Models [rv-types/src/vcl.rs], the names of the subroutines, actions and events with
    the actions each subroutine may return, and [action_name] of
    [rv-server/src/runtime.rs].  The interpreter reads the same names, but not the
    table of valid actions. *)

From S2P Require Import Prelude RustStr F64 VclSyntax Lexer Parser Ban Values VclInterp.
Local Open Scope Z_scope.

Module VclSubroutine.

Inductive t : Set :=
| VclRecv | VclHash | VclHit | VclMiss | VclPass | VclDeliver | VclSynth | VclPurge | VclPipe
| VclBackendFetch | VclBackendResponse | VclBackendError | VclInit | VclFini.

#[global] Instance t_eq_dec : EqDecision t.
Proof. solve_decision. Defined.

Definition all : list t :=
  [VclRecv; VclHash; VclHit; VclMiss; VclPass; VclDeliver; VclSynth; VclPurge; VclPipe;
   VclBackendFetch; VclBackendResponse; VclBackendError; VclInit; VclFini].

Definition name (s : t) : bytes :=
  match s with
  | VclRecv => str "vcl_recv"
  | VclHash => str "vcl_hash"
  | VclHit => str "vcl_hit"
  | VclMiss => str "vcl_miss"
  | VclPass => str "vcl_pass"
  | VclDeliver => str "vcl_deliver"
  | VclSynth => str "vcl_synth"
  | VclPurge => str "vcl_purge"
  | VclPipe => str "vcl_pipe"
  | VclBackendFetch => str "vcl_backend_fetch"
  | VclBackendResponse => str "vcl_backend_response"
  | VclBackendError => str "vcl_backend_error"
  | VclInit => str "vcl_init"
  | VclFini => str "vcl_fini"
  end.

End VclSubroutine.

Module TypesAction.

Inductive t : Set :=
| Deliver | Pass | Pipe | Hash | Lookup | Fetch | Synth | Purge | Restart | Retry | Abandon | Fail | Error | Ok.

#[global] Instance t_eq_dec : EqDecision t.
Proof. solve_decision. Defined.

Definition all : list t :=
  [Deliver; Pass; Pipe; Hash; Lookup; Fetch; Synth; Purge; Restart; Retry; Abandon; Fail; Error; Ok].

Definition name (a : t) : bytes :=
  match a with
  | Deliver => str "deliver"
  | Pass => str "pass"
  | Pipe => str "pipe"
  | Hash => str "hash"
  | Lookup => str "lookup"
  | Fetch => str "fetch"
  | Synth => str "synth"
  | Purge => str "purge"
  | Restart => str "restart"
  | Retry => str "retry"
  | Abandon => str "abandon"
  | Fail => str "fail"
  | Error => str "error"
  | Ok => str "ok"
  end.

End TypesAction.

Module VclEvent.

Inductive t : Set := Load | Warm | Cold | Discard | Use.

Definition name (e : t) : bytes :=
  match e with
  | Load => str "load"
  | Warm => str "warm"
  | Cold => str "cold"
  | Discard => str "discard"
  | Use => str "use"
  end.

End VclEvent.

Definition valid_returns (s : VclSubroutine.t) : list TypesAction.t :=
  match s with
  | VclSubroutine.VclRecv => [TypesAction.Pass; TypesAction.Pipe; TypesAction.Hash; TypesAction.Synth; TypesAction.Purge; TypesAction.Fail]
  | VclSubroutine.VclHash => [TypesAction.Lookup]
  | VclSubroutine.VclHit => [TypesAction.Deliver; TypesAction.Pass; TypesAction.Restart; TypesAction.Synth; TypesAction.Fail]
  | VclSubroutine.VclMiss => [TypesAction.Fetch; TypesAction.Pass; TypesAction.Restart; TypesAction.Synth; TypesAction.Fail]
  | VclSubroutine.VclPass => [TypesAction.Fetch; TypesAction.Restart; TypesAction.Synth; TypesAction.Fail]
  | VclSubroutine.VclDeliver => [TypesAction.Deliver; TypesAction.Restart; TypesAction.Synth]
  | VclSubroutine.VclSynth => [TypesAction.Deliver; TypesAction.Restart]
  | VclSubroutine.VclPurge => [TypesAction.Synth; TypesAction.Restart]
  | VclSubroutine.VclPipe => [TypesAction.Pipe]
  | VclSubroutine.VclBackendFetch => [TypesAction.Fetch; TypesAction.Abandon; TypesAction.Fail; TypesAction.Error]
  | VclSubroutine.VclBackendResponse =>
      [TypesAction.Deliver; TypesAction.Retry; TypesAction.Abandon; TypesAction.Fail; TypesAction.Error; TypesAction.Pass]
  | VclSubroutine.VclBackendError => [TypesAction.Deliver; TypesAction.Retry; TypesAction.Abandon; TypesAction.Fail]
  | VclSubroutine.VclInit => [TypesAction.Ok; TypesAction.Fail]
  | VclSubroutine.VclFini => [TypesAction.Ok]
  end.

Definition action_name (a : InterpreterAction.t) : bytes :=
  match a with
  | InterpreterAction.Deliver => str "deliver"
  | InterpreterAction.Pass => str "pass"
  | InterpreterAction.Pipe => str "pipe"
  | InterpreterAction.Hash => str "hash"
  | InterpreterAction.Lookup => str "lookup"
  | InterpreterAction.Fetch => str "fetch"
  | InterpreterAction.Synth => str "synth"
  | InterpreterAction.Purge => str "purge"
  | InterpreterAction.Restart => str "restart"
  | InterpreterAction.Retry => str "retry"
  | InterpreterAction.Fail => str "fail"
  | InterpreterAction.Abandon => str "abandon"
  | InterpreterAction.Error => str "error"
  | InterpreterAction.Ok => str "ok"
  end.

(* ------------------------------------------------------------------ *)
(** ** One naming *)

(** The interpreter's action for one of the table. *)
Definition interpreted (a : TypesAction.t) : InterpreterAction.t :=
  match a with
  | TypesAction.Deliver => InterpreterAction.Deliver
  | TypesAction.Pass => InterpreterAction.Pass
  | TypesAction.Pipe => InterpreterAction.Pipe
  | TypesAction.Hash => InterpreterAction.Hash
  | TypesAction.Lookup => InterpreterAction.Lookup
  | TypesAction.Fetch => InterpreterAction.Fetch
  | TypesAction.Synth => InterpreterAction.Synth
  | TypesAction.Purge => InterpreterAction.Purge
  | TypesAction.Restart => InterpreterAction.Restart
  | TypesAction.Retry => InterpreterAction.Retry
  | TypesAction.Abandon => InterpreterAction.Abandon
  | TypesAction.Fail => InterpreterAction.Fail
  | TypesAction.Error => InterpreterAction.Error
  | TypesAction.Ok => InterpreterAction.Ok
  end.

(** The three tables of action names agree: what the log prints and what the table
    says is what the interpreter reads, and nothing else is read. *)
Lemma action_names_agree s i :
  InterpreterAction.from_name s = Some i ↔ s = action_name i.
Proof.
  unfold InterpreterAction.from_name. rewrite match_str_Some by (apply (bool_decide_unpack _); vm_compute; exact I).
  split.
  - intros H. repeat (apply elem_of_cons in H as [[= -> ->]|H]; [done|]). by apply elem_of_nil in H.
  - intros ->. destruct i; apply (bool_decide_unpack _); vm_compute; exact I.
Qed.

Lemma table_names_agree a : InterpreterAction.from_name (TypesAction.name a) = Some (interpreted a).
Proof. by destruct a. Qed.

Lemma names_distinct : NoDup (VclSubroutine.name <$> VclSubroutine.all) ∧ NoDup (TypesAction.name <$> TypesAction.all).
Proof. split; apply (bool_decide_unpack _); vm_compute; exact I. Qed.

Section unchecked.
  Context {Ip : Type} {corefmt : CoreFmt} {regex : RegexLib} {replace : RegexReplace} (fmt_ip : Ip → bytes) (now : f64).

(** A program whose only subroutine returns an action at once. *)
Definition returning (s : VclSubroutine.t) (a : TypesAction.t) : VclProgram :=
  mkProgram None [] [] [] []
    [mkSub (VclSubroutine.name s) [Statement.Return (Expr.Ident (TypesAction.name a))]].

(** The table of valid actions is not enforced: whatever a subroutine returns, listed
    for it or not, is handed to the server. *)
Theorem returns_unchecked s a fuel ctx :
  VclInterpreter_exec_subroutine fmt_ip now fuel (VclInterpreter_new (returning s a)) (VclSubroutine.name s) ctx
  = Some (ExecAction (interpreted a), ctx).
Proof.
  unfold VclInterpreter_exec_subroutine, VclInterpreter_new, returning.
  cbn [sub_index vi_program subs imap fold_left sub_name vi_resolver]. cbn. rewrite lookup_insert_eq. cbn.
  unfold return_named. by rewrite table_names_agree.
Qed.
End unchecked.
