(* ===== verification/VclManager.v ===== *)
(** * The VCL manager

    Models [rv-admin/src/vcl_manager.rs]: the loaded VCL programs, the active one,
    and the operations of the administration interface on them.  An operation that
    holds its locks from start to end is one state transformation; the locks
    themselves, two mutexes taken in an order that differs between operations, are
    modelled as a step relation at the end.  [Instant::now()] is an argument. *)

From stdpp Require Import sorting.
From S2P Require Import Prelude RustStr F64 VclSyntax Lexer Parser VclInterp Values.
Local Open Scope Z_scope.

Module VclProgramState.

Inductive t : Set := Available | Active | Discarded.

#[global] Instance eq_dec : EqDecision t.
Proof. solve_decision. Defined.

Definition display (s : t) : bytes :=
  match s with
  | Available => str "available"
  | Active => str "active"
  | Discarded => str "discarded"
  end.

End VclProgramState.

(** [Display for VclError]. *)
Definition VclError_display (e : VclError) : bytes :=
  match e with
  | LexError message line col =>
      str "lex error at " ++ show_u64 line ++ str ":" ++ show_u64 col ++ str ": " ++ message
  | ParseError message line col =>
      str "parse error at " ++ show_u64 line ++ str ":" ++ show_u64 col ++ str ": " ++ message
  end.

Section manager.
  Context {Ip : Type} {corefmt : CoreFmt}.

Record VclProgramEntry : Type := mkEntry {
  pe_name : bytes;
  pe_program : VclProgram;
  pe_interpreter : interpreter (Ip := Ip);
  pe_state : VclProgramState.t;
  pe_loaded_at : Z;
}.

Definition set_state (s : VclProgramState.t) (e : VclProgramEntry) : VclProgramEntry :=
  mkEntry (pe_name e) (pe_program e) (pe_interpreter e) s (pe_loaded_at e).

Record VclManager : Type := mkManager {
  programs : gmap bytes VclProgramEntry;
  active_name : option bytes;
}.

Definition VclManager_new : VclManager := mkManager ∅ None.

(** The lexer's and the parser's error, prefixed; [None] cannot happen
    ([load_vcl_ok]). *)
Definition compile (source : bytes) : option (result VclProgram bytes) :=
  match tokenize source with
  | None => None
  | Some (Err e) => Some (Err (str "VCL lexer error: " ++ VclError_display e))
  | Some (Ok tokens) =>
      match Parser_parse tokens with
      | None => None
      | Some (Err e) => Some (Err (str "VCL parse error: " ++ VclError_display e))
      | Some (Ok program) => Some (Ok program)
      end
  end.

Definition VclManager_load (name source : bytes) (now : Z) (m : VclManager) :
    option (result unit bytes * VclManager) :=
  compiled ← compile source;
  match compiled with
  | Err e => Some (Err e, m)
  | Ok program =>
      let entry := mkEntry name program (VclInterpreter_new program) VclProgramState.Available now in
      Some
        (if match programs m !! name with
            | Some existing => bool_decide (pe_state existing = VclProgramState.Active)
            | None => false
            end
         then (Err (str "VCL program '" ++ name
                    ++ str "' is currently active; discard or use a different name"), m)
         else (Ok tt, mkManager (<[name := entry]> (programs m)) (active_name m)))
  end.

(** The previously active program becomes available. *)
Definition deactivate (prev : option bytes) (ps : gmap bytes VclProgramEntry) :
    gmap bytes VclProgramEntry :=
  match prev with
  | Some prev_name =>
      match ps !! prev_name with
      | Some e =>
          if decide (pe_state e = VclProgramState.Active) then
            <[prev_name := set_state VclProgramState.Available e]> ps
          else ps
      | None => ps
      end
  | None => ps
  end.

Definition VclManager_use_program (name : bytes) (m : VclManager) :
    result interpreter bytes * VclManager :=
  match programs m !! name with
  | None => (Err (str "VCL program '" ++ name ++ str "' not found"), m)
  | Some target =>
      if decide (pe_state target = VclProgramState.Discarded) then
        (Err (str "VCL program '" ++ name ++ str "' has been discarded"), m)
      else
        let ps := deactivate (active_name m) (programs m) in
        (Ok (pe_interpreter target),
         mkManager (alter (set_state VclProgramState.Active) name ps) (Some name))
  end.

(** In the order of loading; programs loaded at the same instant in that of the
    map's traversal. *)
Definition loaded_before (a b : bytes * VclProgramState.t * Z) : Prop := a.2 ≤ b.2.
#[local] Instance loaded_before_dec : RelDecision loaded_before.
Proof. unfold RelDecision, loaded_before. apply _. Defined.

Definition VclManager_list (m : VclManager) : list (bytes * VclProgramState.t * Z) :=
  merge_sort loaded_before
    ((λ p, (pe_name p.2, pe_state p.2, pe_loaded_at p.2)) <$> map_to_list (programs m)).

Definition VclManager_discard (name : bytes) (m : VclManager) : result unit bytes * VclManager :=
  match programs m !! name with
  | None => (Err (str "VCL program '" ++ name ++ str "' not found"), m)
  | Some entry =>
      if decide (pe_state entry = VclProgramState.Active) then
        (Err (str "VCL program '" ++ name ++ str "' is active and cannot be discarded"), m)
      else (Ok tt, mkManager (delete name (programs m)) (active_name m))
  end.

Definition VclManager_active_interpreter (m : VclManager) : option interpreter :=
  name ← active_name m; entry ← programs m !! name; Some (pe_interpreter entry).

(* ------------------------------------------------------------------ *)
(** ** The manager's invariant *)

(** The entry under the active name is active and no other is; none is marked
    discarded, and each is filed under its name with its program's interpreter. *)
Definition manager_ok (m : VclManager) : Prop :=
  (∀ n e, programs m !! n = Some e →
     pe_name e = n ∧ pe_interpreter e = VclInterpreter_new (pe_program e)
     ∧ pe_state e = if decide (active_name m = Some n) then VclProgramState.Active
                    else VclProgramState.Available)
  ∧ (∀ n, active_name m = Some n → is_Some (programs m !! n)).

Inductive manager_op : Type :=
| MLoad (name source : bytes) (now : Z)
| MUse (name : bytes)
| MDiscard (name : bytes).

Definition manager_exec (o : manager_op) (m : VclManager) : option VclManager :=
  match o with
  | MLoad name source now => snd <$> VclManager_load name source now m
  | MUse name => Some (snd (VclManager_use_program name m))
  | MDiscard name => Some (snd (VclManager_discard name m))
  end.

Fixpoint manager_run (ops : list manager_op) (m : VclManager) : option VclManager :=
  match ops with
  | [] => Some m
  | o :: ops => m ← manager_exec o m; manager_run ops m
  end.

Lemma compile_total source : is_Some (compile source).
Proof.
  unfold compile. destruct (load_vcl_ok source) as (r & E & _). unfold load_vcl in E.
  destruct (tokenize source) as [[ts|e]|]; [|by eexists|done]. simpl in E. rewrite E. by destruct r; eexists.
Qed.

Lemma load_ok name source now m :
  manager_ok m → ∃ r m', VclManager_load name source now m = Some (r, m') ∧ manager_ok m'
    ∧ active_name m' = active_name m.
Proof.
  intros [Hp Ha]. unfold VclManager_load. destruct (compile_total source) as [[program|e] E]; rewrite E; simpl.
  2: { by eexists _, _. }
  destruct (programs m !! name) as [old|] eqn:En; [case_bool_decide as Hact; [by eexists _, _|]|];
    (eexists _, _; split; [done|]; split; [|done]).
  - destruct (Hp name old En) as (_ & _ & Hst). split; simpl.
    + intros n e [[<- <-]|[Hne He]]%lookup_insert_Some; [|by apply Hp]. split_and!; [done..|]. simpl.
      rewrite decide_False; [done|]. intros Hn. rewrite decide_True in Hst by done. done.
    + intros n Hn. destruct (decide (n = name)) as [->|]; [by rewrite lookup_insert_eq; eexists|].
      rewrite lookup_insert_ne by done. by apply Ha.
  - split; simpl.
    + intros n e [[<- <-]|[Hne He]]%lookup_insert_Some; [|by apply Hp]. split_and!; [done..|]. simpl.
      rewrite decide_False; [done|]. intros Hn. destruct (Ha _ Hn) as [? ?]. congruence.
    + intros n Hn. destruct (decide (n = name)) as [->|]; [by rewrite lookup_insert_eq; eexists|].
      rewrite lookup_insert_ne by done. by apply Ha.
Qed.

Lemma deactivate_ok m n e :
  manager_ok m → deactivate (active_name m) (programs m) !! n = Some e →
  ∃ e', programs m !! n = Some e' ∧ e = set_state VclProgramState.Available e'.
Proof.
  intros [Hp Ha]. unfold deactivate. destruct (active_name m) as [prev|] eqn:Eact.
  2: { intros He. exists e. split; [done|]. destruct (Hp n e He) as (_ & _ & Hst). rewrite decide_False in Hst by done.
       destruct e. simpl in *. by subst. }
  destruct (Ha prev eq_refl) as [pe Hpe]. rewrite Hpe. destruct (Hp prev pe Hpe) as (_ & _ & Hst).
  rewrite decide_True in Hst by done. rewrite decide_True by done.
  intros [[<- <-]|[Hne He]]%lookup_insert_Some; [by exists pe|].
  exists e. split; [done|]. destruct (Hp n e He) as (_ & _ & Hst'). rewrite decide_False in Hst' by congruence.
  destruct e. simpl in *. by subst.
Qed.

Lemma deactivate_dom m n :
  is_Some (programs m !! n) → is_Some (deactivate (active_name m) (programs m) !! n).
Proof.
  intros [e He]. unfold deactivate. destruct (active_name m) as [prev|]; [|by eexists].
  destruct (programs m !! prev) as [pe|]; [|by eexists]. case_decide; [|by eexists].
  destruct (decide (n = prev)) as [->|]; [by rewrite lookup_insert_eq; eexists|].
  rewrite lookup_insert_ne by done. by eexists.
Qed.

Lemma use_ok name m : manager_ok m → manager_ok (snd (VclManager_use_program name m)).
Proof.
  intros Hok. unfold VclManager_use_program. destruct (programs m !! name) as [target|] eqn:Et; [|done].
  case_decide; [done|]. split; simpl.
  - intros n e He. destruct (decide (n = name)) as [->|Hne].
    + rewrite lookup_alter_eq in He. apply fmap_Some in He as (e1 & He1 & ->).
      destruct (deactivate_ok m name e1 Hok He1) as (e' & He' & ->).
      destruct (proj1 Hok name e' He') as (? & ? & _). split_and!; [done..|]. by rewrite decide_True.
    + rewrite lookup_alter_ne in He by done. destruct (deactivate_ok m n e Hok He) as (e' & He' & ->).
      destruct (proj1 Hok n e' He') as (? & ? & _). split_and!; [done..|]. rewrite decide_False by congruence. done.
  - intros n [= <-]. rewrite lookup_alter_eq, fmap_is_Some. apply deactivate_dom. by eexists.
Qed.

Lemma discard_ok name m : manager_ok m → manager_ok (snd (VclManager_discard name m)).
Proof.
  intros [Hp Ha]. unfold VclManager_discard. destruct (programs m !! name) as [entry|] eqn:Ee; [|done].
  case_decide as Hact; [done|]. destruct (Hp name entry Ee) as (_ & _ & Hst).
  split; simpl.
  - intros n e [_ He]%lookup_delete_Some. by apply Hp.
  - intros n Hn. rewrite lookup_delete_ne; [by apply Ha|]. intros <-. rewrite decide_True in Hst by done. done.
Qed.

Lemma manager_exec_ok o m :
  manager_ok m → ∃ m', manager_exec o m = Some m' ∧ manager_ok m'.
Proof.
  intros Hok. destruct o as [name source now|name|name]; simpl.
  - destruct (load_ok name source now m Hok) as (r & m' & -> & ? & _). by eexists.
  - eexists. split; [done|]. by apply use_ok.
  - eexists. split; [done|]. by apply discard_ok.
Qed.

Lemma manager_run_ok ops : ∀ m, manager_ok m → ∃ m', manager_run ops m = Some m' ∧ manager_ok m'.
Proof.
  induction ops as [|o ops IH]; intros m Hok; [by eexists|].
  destruct (manager_exec_ok o m Hok) as (m1 & E & Hok1). simpl. rewrite E. simpl. by apply IH.
Qed.

Lemma manager_new_ok : manager_ok VclManager_new.
Proof. split; [intros n e|intros n]; done. Qed.

Definition is_use (o : manager_op) : bool := match o with MUse _ => true | _ => false end.

(** Loading and discarding leave the active entry alone. *)
Lemma exec_keeps_active o m m' name :
  manager_ok m → is_use o = false → active_name m = Some name → manager_exec o m = Some m' →
  active_name m' = Some name ∧ programs m' !! name = programs m !! name.
Proof.
  intros Hok Ho Hact. destruct (proj2 Hok name Hact) as [e He].
  destruct (proj1 Hok name e He) as (_ & _ & Hst). rewrite decide_True in Hst by done.
  destruct o as [n source now|n|n]; simpl; [|done|].
  - unfold VclManager_load. destruct (compile_total source) as [[program|err] ->]; simpl; [|by intros [= <-]].
    destruct (decide (n = name)) as [->|Hne].
    + rewrite He, bool_decide_true by done. by intros [= <-].
    + destruct (match programs m !! n with Some _ => _ | None => _ end); intros [= <-]; [done|].
      simpl. by rewrite lookup_insert_ne by congruence.
  - unfold VclManager_discard. destruct (decide (n = name)) as [->|Hne].
    + rewrite He, decide_True by done. by intros [= <-].
    + destruct (programs m !! n) as [e'|]; [|by intros [= <-]]. case_decide; intros [= <-]; [done|].
      simpl. by rewrite lookup_delete_ne by congruence.
Qed.

(** The program taken into use is the one that serves requests. *)
Lemma use_active name m vi m' :
  manager_ok m → VclManager_use_program name m = (Ok vi, m') →
  active_name m' = Some name ∧ ∃ e, programs m' !! name = Some e ∧ pe_interpreter e = vi.
Proof.
  intros Hok Huse. unfold VclManager_use_program in Huse. destruct (programs m !! name) as [target|] eqn:Et; [|done].
  case_decide; [done|]. injection Huse as <- <-. split; [done|]. simpl. rewrite lookup_alter_eq.
  destruct (deactivate_dom m name) as [e1 He1]; [by eexists|]. rewrite He1. eexists. split; [done|].
  destruct (deactivate_ok m name e1 Hok He1) as (e' & He' & ->). simpl. congruence.
Qed.

(** Loading and discarding do not change the interpreter that serves requests. *)
Lemma exec_active_interpreter o m m' :
  manager_ok m → is_use o = false → manager_exec o m = Some m' →
  VclManager_active_interpreter m' = VclManager_active_interpreter m.
Proof.
  intros Hok Ho He. unfold VclManager_active_interpreter. destruct (active_name m) as [name|] eqn:Ea.
  - destruct (exec_keeps_active o m m' name Hok Ho Ea He) as [-> E]. simpl. by rewrite E.
  - assert (active_name m' = None) as ->; [|done]. destruct o as [n source now|n|n]; simpl in He; [|done|].
    + destruct (load_ok n source now m Hok) as (r & m1 & E & _ & Ha). rewrite E in He. injection He as <-. simpl. congruence.
    + injection He as <-. unfold VclManager_discard. destruct (programs m !! n); [|done]. by case_decide.
Qed.

(** C24. The VCL manager keeps its promises: after any sequence of loads, uses and
    discards at most the program under the active name is active and it is
    present; a program taken into use stays the one that serves requests, the
    very interpreter that [use_program] returned, through every later load
    (its own name included) and discard, until the next [use_program]. *)
Theorem manager_active_stable ops name vi m1 later :
  (∃ m, manager_run ops VclManager_new = Some m ∧ VclManager_use_program name m = (Ok vi, m1)) →
  forallb (λ o, negb (is_use o)) later = true →
  ∃ m2, manager_run later m1 = Some m2 ∧ manager_ok m2
    ∧ active_name m2 = Some name ∧ VclManager_active_interpreter m2 = Some vi.
Proof.
  intros (m & Hrun & Huse) Hlater.
  destruct (manager_run_ok ops _ manager_new_ok) as (m0 & E & Hok). rewrite Hrun in E. injection E as <-.
  assert (Hok1 : manager_ok m1) by (pose proof (use_ok name m Hok) as H; by rewrite Huse in H).
  pose proof (use_active name m vi m1 Hok Huse) as Hact.
  clear Hrun Huse Hok. revert m1 Hok1 Hact. induction later as [|o later IH]; intros m1 Hok1 [Hact (e & He & Hvi)].
  - exists m1. split_and!; [done..|]. unfold VclManager_active_interpreter. rewrite Hact. simpl. rewrite He. simpl. by subst.
  - simpl in Hlater. apply andb_true_iff in Hlater as [Ho Hlater]. apply negb_true_iff in Ho.
    destruct (manager_exec_ok o m1 Hok1) as (m2 & E & Hok2).
    destruct (exec_keeps_active o m1 m2 name Hok1 Ho Hact E) as [Hact2 He2].
    simpl. rewrite E. simpl. apply IH; [done..|]. split; [done|]. exists e. by rewrite He2.
Qed.

End manager.

(* ------------------------------------------------------------------ *)
(** ** The locks *)

Inductive lock : Set := LPrograms | LActive.

#[global] Instance lock_eq_dec : EqDecision lock.
Proof. solve_decision. Defined.

Inductive lock_action : Set := Lock (l : lock) | Unlock (l : lock).

(** What each operation does to the two mutexes; guards are dropped in the reverse
    order of their declaration. *)
Definition use_program_locks : list lock_action :=
  [Lock LPrograms; Lock LActive; Unlock LActive; Unlock LPrograms].
Definition active_interpreter_locks : list lock_action :=
  [Lock LActive; Lock LPrograms; Unlock LPrograms; Unlock LActive].
Definition programs_only_locks : list lock_action := [Lock LPrograms; Unlock LPrograms].
Definition active_name_locks : list lock_action := [Lock LActive; Unlock LActive].

(** The mutexes held, and what each task has left to do. *)
Record lock_state : Set := mkLocks { held : list lock; tasks : list (list lock_action) }.

Inductive lock_step : lock_state → lock_state → Prop :=
| step_lock h ts i l rest :
    ts !! i = Some (Lock l :: rest) → l ∉ h →
    lock_step (mkLocks h ts) (mkLocks (l :: h) (<[i := rest]> ts))
| step_unlock h ts i l rest :
    ts !! i = Some (Unlock l :: rest) →
    lock_step (mkLocks h ts) (mkLocks (List.filter (λ l', negb (bool_decide (l' = l))) h) (<[i := rest]> ts)).

(** No task can go on, and not all are done. *)
Definition deadlocked (s : lock_state) : Prop :=
  (∀ s', ¬ lock_step s s') ∧ ∃ i, is_Some (tasks s !! i ≫= head).

(** The manager can deadlock: [use_program] takes the program map's mutex and
    then the active name's, [active_interpreter] takes them the other way round;
    run at the same time, there is an interleaving after which both wait for
    ever. *)
Theorem manager_deadlock :
  ∃ s, rtc lock_step (mkLocks [] [use_program_locks; active_interpreter_locks]) s ∧ deadlocked s.
Proof.
  exists (mkLocks [LActive; LPrograms] [[Lock LActive; Unlock LActive; Unlock LPrograms];
                                        [Lock LPrograms; Unlock LPrograms; Unlock LActive]]).
  split.
  - eapply rtc_l; [apply (step_lock [] _ 0 LPrograms); [done|by intros ?%not_elem_of_nil]|]. simpl.
    eapply rtc_l; [apply (step_lock [LPrograms] _ 1 LActive); [done|by intros ?%list_elem_of_singleton]|].
    apply rtc_refl.
  - split; [|by exists 0%nat; eexists]. intros s' Hs.
    inversion Hs as [h ts i l rest Hi Hl|h ts i l rest Hi]; subst;
      destruct i as [|[|i]]; simpl in Hi; simplify_eq; apply Hl; by repeat constructor.
Qed.

#[local] Instance vm_corefmt : CoreFmt := { fmt_f64 _ := []; char_debug _ := [] }.

Definition boot_ops : list manager_op :=
  [MLoad (str "boot") (str "sub vcl_recv { return(pass); }") 1;
   MLoad (str "other") (str "sub vcl_recv { return(hash); }") 2; MUse (str "other")].
Definition booted : VclManager (Ip := unit) :=
  default VclManager_new (manager_run boot_ops VclManager_new).
Definition in_use : result (interpreter (Ip := unit)) bytes * VclManager :=
  VclManager_use_program (str "boot") booted.
Definition boot_vi : interpreter (Ip := unit) :=
  match in_use.1 with Ok vi => vi | Err _ => VclInterpreter_new (mkProgram None [] [] [] [] []) end.

Lemma manager_active_stable_witness :
  let later := [MLoad (str "boot") (str "sub vcl_recv { }") 3; MDiscard (str "boot");
                MDiscard (str "other"); MLoad (str "x") (str "!") 4] in
  length (subs (vi_program boot_vi)) = 1%nat
  ∧ ∃ m2, manager_run later in_use.2 = Some m2 ∧ manager_ok m2
    ∧ active_name m2 = Some (str "boot") ∧ VclManager_active_interpreter m2 = Some boot_vi.
Proof.
  split; [vm_compute; reflexivity|].
  apply (manager_active_stable boot_ops (str "boot") boot_vi in_use.2).
  - exists booted. split; vm_compute; reflexivity.
  - reflexivity.
Defined.
