(* ===== verification/Request.v ===== *)
(** * The request state machine

    Models [rv-cache/src/request.rs]: the request context, its nine states and
    [RequestFsm::step].  Between two steps the caller runs the VCL subroutine of
    the state and stores the action it returned in the context. *)

From S2P Require Import Prelude RustStr F64 Enums Types HttpTypes Header ObjCore.
Local Open Scope Z_scope.

Module RequestState.

Inductive t : Set := Recv | Lookup | Pass | Pipe | Miss | Fetch | Deliver | Synth | Done.

#[global] Instance eq_dec : EqDecision t.
Proof. solve_decision. Defined.

End RequestState.

Module VclAction.

Inductive t : Set :=
| Lookup | Pass | Pipe | Hash | Purge | Synth | Restart | Deliver | Fetch | Retry | Fail.

#[global] Instance eq_dec : EqDecision t.
Proof. solve_decision. Defined.

End VclAction.

Record RequestContext : Set := mkRequestContext {
  r_state : RequestState.t;
  r_vxid : Vxid;
  r_request : HttpMessage;
  r_response : option HttpMessage;
  vcl_action : option VclAction.t;
  restarts : Z;
  max_restarts : Z;
  t_req : VtimReal;
  synth_status : option HttpStatus;
  synth_body : option bytes;
  r_bereq : option HttpMessage;
  r_beresp : option HttpMessage;
  r_obj : option ObjCore;
  r_digest : option Digest;
  r_is_pass : bool;
  r_body : option bytes;
  resp_body : option bytes;
  do_gzip : bool;
  do_gunzip : bool;
  uncacheable : bool;
  beresp_ttl : option f64;
  beresp_grace : option f64;
  beresp_keep : option f64;
}.

Definition RequestContext_new (request : HttpMessage) (vxid : Vxid) (now : VtimReal) :
    RequestContext :=
  mkRequestContext RequestState.Recv vxid request None None 0 4 now None None None None None None
    false None None false false false None None None.

Definition with_state (s : RequestState.t) (c : RequestContext) : RequestContext :=
  mkRequestContext s (r_vxid c) (r_request c) (r_response c) (vcl_action c) (restarts c)
    (max_restarts c) (t_req c) (synth_status c) (synth_body c) (r_bereq c) (r_beresp c) (r_obj c)
    (r_digest c) (r_is_pass c) (r_body c) (resp_body c) (do_gzip c) (do_gunzip c) (uncacheable c)
    (beresp_ttl c) (beresp_grace c) (beresp_keep c).

Definition with_action (a : option VclAction.t) (c : RequestContext) : RequestContext :=
  mkRequestContext (r_state c) (r_vxid c) (r_request c) (r_response c) a (restarts c)
    (max_restarts c) (t_req c) (synth_status c) (synth_body c) (r_bereq c) (r_beresp c) (r_obj c)
    (r_digest c) (r_is_pass c) (r_body c) (resp_body c) (do_gzip c) (do_gunzip c) (uncacheable c)
    (beresp_ttl c) (beresp_grace c) (beresp_keep c).

(** Assignments to the fields of a context. *)
Definition with_request (x : HttpMessage) (c : RequestContext) : RequestContext :=
  mkRequestContext (r_state c) (r_vxid c) x (r_response c) (vcl_action c) (restarts c)
    (max_restarts c) (t_req c) (synth_status c) (synth_body c) (r_bereq c) (r_beresp c) (r_obj c)
    (r_digest c) (r_is_pass c) (r_body c) (resp_body c) (do_gzip c) (do_gunzip c) (uncacheable c)
    (beresp_ttl c) (beresp_grace c) (beresp_keep c).
Definition with_response (x : option HttpMessage) (c : RequestContext) : RequestContext :=
  mkRequestContext (r_state c) (r_vxid c) (r_request c) x (vcl_action c) (restarts c)
    (max_restarts c) (t_req c) (synth_status c) (synth_body c) (r_bereq c) (r_beresp c) (r_obj c)
    (r_digest c) (r_is_pass c) (r_body c) (resp_body c) (do_gzip c) (do_gunzip c) (uncacheable c)
    (beresp_ttl c) (beresp_grace c) (beresp_keep c).
Definition with_restarts (x : Z) (c : RequestContext) : RequestContext :=
  mkRequestContext (r_state c) (r_vxid c) (r_request c) (r_response c) (vcl_action c) x
    (max_restarts c) (t_req c) (synth_status c) (synth_body c) (r_bereq c) (r_beresp c) (r_obj c)
    (r_digest c) (r_is_pass c) (r_body c) (resp_body c) (do_gzip c) (do_gunzip c) (uncacheable c)
    (beresp_ttl c) (beresp_grace c) (beresp_keep c).
Definition with_synth_status (x : option HttpStatus) (c : RequestContext) : RequestContext :=
  mkRequestContext (r_state c) (r_vxid c) (r_request c) (r_response c) (vcl_action c) (restarts c)
    (max_restarts c) (t_req c) x (synth_body c) (r_bereq c) (r_beresp c) (r_obj c) (r_digest c)
    (r_is_pass c) (r_body c) (resp_body c) (do_gzip c) (do_gunzip c) (uncacheable c)
    (beresp_ttl c) (beresp_grace c) (beresp_keep c).
Definition with_synth_body (x : option bytes) (c : RequestContext) : RequestContext :=
  mkRequestContext (r_state c) (r_vxid c) (r_request c) (r_response c) (vcl_action c) (restarts c)
    (max_restarts c) (t_req c) (synth_status c) x (r_bereq c) (r_beresp c) (r_obj c) (r_digest c)
    (r_is_pass c) (r_body c) (resp_body c) (do_gzip c) (do_gunzip c) (uncacheable c)
    (beresp_ttl c) (beresp_grace c) (beresp_keep c).
Definition with_bereq (x : option HttpMessage) (c : RequestContext) : RequestContext :=
  mkRequestContext (r_state c) (r_vxid c) (r_request c) (r_response c) (vcl_action c) (restarts c)
    (max_restarts c) (t_req c) (synth_status c) (synth_body c) x (r_beresp c) (r_obj c)
    (r_digest c) (r_is_pass c) (r_body c) (resp_body c) (do_gzip c) (do_gunzip c) (uncacheable c)
    (beresp_ttl c) (beresp_grace c) (beresp_keep c).
Definition with_beresp (x : option HttpMessage) (c : RequestContext) : RequestContext :=
  mkRequestContext (r_state c) (r_vxid c) (r_request c) (r_response c) (vcl_action c) (restarts c)
    (max_restarts c) (t_req c) (synth_status c) (synth_body c) (r_bereq c) x (r_obj c)
    (r_digest c) (r_is_pass c) (r_body c) (resp_body c) (do_gzip c) (do_gunzip c) (uncacheable c)
    (beresp_ttl c) (beresp_grace c) (beresp_keep c).
Definition with_obj (x : option ObjCore) (c : RequestContext) : RequestContext :=
  mkRequestContext (r_state c) (r_vxid c) (r_request c) (r_response c) (vcl_action c) (restarts c)
    (max_restarts c) (t_req c) (synth_status c) (synth_body c) (r_bereq c) (r_beresp c) x
    (r_digest c) (r_is_pass c) (r_body c) (resp_body c) (do_gzip c) (do_gunzip c) (uncacheable c)
    (beresp_ttl c) (beresp_grace c) (beresp_keep c).
Definition with_digest (x : option Digest) (c : RequestContext) : RequestContext :=
  mkRequestContext (r_state c) (r_vxid c) (r_request c) (r_response c) (vcl_action c) (restarts c)
    (max_restarts c) (t_req c) (synth_status c) (synth_body c) (r_bereq c) (r_beresp c) (r_obj c)
    x (r_is_pass c) (r_body c) (resp_body c) (do_gzip c) (do_gunzip c) (uncacheable c)
    (beresp_ttl c) (beresp_grace c) (beresp_keep c).
Definition with_is_pass (x : bool) (c : RequestContext) : RequestContext :=
  mkRequestContext (r_state c) (r_vxid c) (r_request c) (r_response c) (vcl_action c) (restarts c)
    (max_restarts c) (t_req c) (synth_status c) (synth_body c) (r_bereq c) (r_beresp c) (r_obj c)
    (r_digest c) x (r_body c) (resp_body c) (do_gzip c) (do_gunzip c) (uncacheable c)
    (beresp_ttl c) (beresp_grace c) (beresp_keep c).
Definition with_body (x : option bytes) (c : RequestContext) : RequestContext :=
  mkRequestContext (r_state c) (r_vxid c) (r_request c) (r_response c) (vcl_action c) (restarts c)
    (max_restarts c) (t_req c) (synth_status c) (synth_body c) (r_bereq c) (r_beresp c) (r_obj c)
    (r_digest c) (r_is_pass c) x (resp_body c) (do_gzip c) (do_gunzip c) (uncacheable c)
    (beresp_ttl c) (beresp_grace c) (beresp_keep c).
Definition with_resp_body (x : option bytes) (c : RequestContext) : RequestContext :=
  mkRequestContext (r_state c) (r_vxid c) (r_request c) (r_response c) (vcl_action c) (restarts c)
    (max_restarts c) (t_req c) (synth_status c) (synth_body c) (r_bereq c) (r_beresp c) (r_obj c)
    (r_digest c) (r_is_pass c) (r_body c) x (do_gzip c) (do_gunzip c) (uncacheable c)
    (beresp_ttl c) (beresp_grace c) (beresp_keep c).
Definition with_beresp_info (gz gu unc : bool) (ttl gr kp : option f64) (c : RequestContext)
    : RequestContext :=
  mkRequestContext (r_state c) (r_vxid c) (r_request c) (r_response c) (vcl_action c) (restarts c)
    (max_restarts c) (t_req c) (synth_status c) (synth_body c) (r_bereq c) (r_beresp c) (r_obj c)
    (r_digest c) (r_is_pass c) (r_body c) (resp_body c) gz gu unc ttl gr kp.

Module RequestFsm.

Definition handle_recv (ctx : RequestContext) : RequestState.t :=
  match vcl_action ctx with
  | Some VclAction.Lookup | Some VclAction.Hash => RequestState.Lookup
  | Some VclAction.Pass => RequestState.Pass
  | Some VclAction.Pipe => RequestState.Pipe
  | Some VclAction.Synth => RequestState.Synth
  | Some VclAction.Purge => RequestState.Lookup
  | _ => RequestState.Lookup
  end.

Definition handle_lookup (ctx : RequestContext) : RequestState.t :=
  match vcl_action ctx with
  | Some VclAction.Deliver => RequestState.Deliver
  | Some VclAction.Pass => RequestState.Pass
  | Some VclAction.Fetch => RequestState.Miss
  | Some VclAction.Synth => RequestState.Synth
  | Some VclAction.Restart => RequestState.Recv
  | _ => RequestState.Miss
  end.

Definition step (ctx : RequestContext) : RequestState.t * RequestContext :=
  let next :=
    match r_state ctx with
    | RequestState.Recv => handle_recv ctx
    | RequestState.Lookup => handle_lookup ctx
    | RequestState.Pass => RequestState.Fetch
    | RequestState.Pipe => RequestState.Done
    | RequestState.Miss => RequestState.Fetch
    | RequestState.Fetch => RequestState.Deliver
    | RequestState.Deliver => RequestState.Done
    | RequestState.Synth => RequestState.Deliver
    | RequestState.Done => RequestState.Done
    end in
  (next, with_state next ctx).

End RequestFsm.

(* ------------------------------------------------------------------ *)
(** ** Runs *)

(** The machine driven by a list of VCL actions, one stored before each step. *)
Definition fsm_run (ctx : RequestContext) (acts : list (option VclAction.t)) : RequestContext :=
  foldl (λ c a, (RequestFsm.step (with_action a c)).2) ctx acts.

(** Steps to [Done] when the VCL does not restart. *)
Definition rank (s : RequestState.t) : nat :=
  match s with
  | RequestState.Recv => 5
  | RequestState.Lookup => 4
  | RequestState.Pass | RequestState.Miss => 3
  | RequestState.Fetch | RequestState.Synth => 2
  | RequestState.Pipe | RequestState.Deliver => 1
  | RequestState.Done => 0
  end.

Definition is_restart (a : option VclAction.t) : bool := bool_decide (a = Some VclAction.Restart).

Fixpoint restarts_in (acts : list (option VclAction.t)) : nat :=
  match acts with [] => 0 | a :: acts => Nat.b2n (is_restart a) + restarts_in acts end.

Lemma step_rank c a :
  (rank (r_state (RequestFsm.step (with_action a c)).2)
     ≤ pred (rank (r_state c)) + 2 * Nat.b2n (is_restart a))%nat.
Proof. simpl. destruct (r_state c); simpl; destruct a as [[]|]; simpl; lia. Qed.

Lemma fsm_run_done ctx acts :
  r_state ctx = RequestState.Done → r_state (fsm_run ctx acts) = RequestState.Done.
Proof.
  revert ctx. induction acts as [|a acts IH]; intros ctx Hd; simpl; [done|].
  apply IH. simpl. by rewrite Hd.
Qed.

(** The request machine terminates: whatever the VCL returns, a request that
    is restarted [k] times is in [Done] after at most [5 + 2 k] steps, from any
    state, and stays there; so only a VCL that keeps returning [restart] can keep
    it running. *)
Theorem fsm_terminates ctx acts :
  (5 + 2 * restarts_in acts ≤ length acts)%nat →
  r_state (fsm_run ctx acts) = RequestState.Done.
Proof.
  intros Hlen.
  assert (Hrank : (rank (r_state ctx) + 2 * restarts_in acts ≤ length acts)%nat).
  { destruct (r_state ctx); simpl; lia. }
  clear Hlen. revert ctx Hrank. induction acts as [|a acts IH]; intros ctx Hrank; cbn [restarts_in length] in Hrank.
  - change (fsm_run ctx []) with ctx. destruct (r_state ctx); simpl in Hrank; first [done|lia].
  - destruct (decide (r_state ctx = RequestState.Done)) as [Hd|Hd].
    { by apply (fsm_run_done ctx (a :: acts)). }
    assert (0 < rank (r_state ctx))%nat by (destruct (r_state ctx); simpl; done || lia).
    apply (IH (RequestFsm.step (with_action a ctx)).2). pose proof (step_rank ctx a). lia.
Qed.

Definition sample_request : RequestContext :=
  RequestContext_new (HttpMessage_new_request HttpMethod_Get (str "/") Http11) (mkVxid 1) f64_zero.

Lemma fsm_terminates_witness :
  let acts := [Some VclAction.Hash; Some VclAction.Restart; Some VclAction.Hash; None; None; None;
               Some VclAction.Deliver] in
  (5 + 2 * restarts_in acts ≤ length acts)%nat
  ∧ r_state (fsm_run sample_request acts) = RequestState.Done.
Proof.
  split; [vm_compute; lia|]. apply fsm_terminates. vm_compute. lia.
Defined.
