(* ===== verification/Fetch.v ===== *)
(** * Backend fetches

    Models [rv-cache/src/fetch.rs]: the fetch context, the TTL of the response
    applied to an object, the object's state marks, and [is_cacheable].
    [str::to_lowercase] is Unicode-aware; it is an argument, of which only its
    documented behaviour on ASCII is used. *)

From S2P Require Import Prelude RustStr F64 Enums Types HttpTypes Header Rfc2616 ObjCore.
Local Open Scope Z_scope.

Record FetchContext : Set := mkFetchContext {
  f_vxid : Vxid;
  f_bereq : HttpMessage;
  f_beresp : option HttpMessage;
  f_objcore : option ObjCore;
  f_is_pass : bool;
  f_do_stream : bool;
  t_fetch : VtimReal;
}.

Definition FetchContext_new (bereq : HttpMessage) (vxid : Vxid) (now : VtimReal) : FetchContext :=
  mkFetchContext vxid bereq None None false false now.

(** [oc] is a [&mut ObjCore], not yet shared.  The [t_origin] of the
    calculation is not used. *)
Definition FetchContext_apply_ttl (oc : ObjCore) (beresp : HttpMessage)
    (default_ttl default_grace default_keep : VtimDur) (now : VtimReal) : ObjCore :=
  let ttl_calc :=
    TtlCalculation_from_response beresp now default_ttl default_grace default_keep in
  set_times now (ttl_ttl ttl_calc) (ttl_grace ttl_calc) (ttl_keep ttl_calc) oc.

Definition FetchContext_mark_hit_for_pass (oc : ObjCore) (st : oc_store) : oc_store :=
  set_oc_flag oc ObjCoreFlags_HFP st.

Definition FetchContext_finish_fetch (oc : ObjCore) (st : oc_store) : oc_store :=
  clear_oc_flag oc ObjCoreFlags_BUSY st.

Definition FetchContext_fail_fetch (oc : ObjCore) (st : oc_store) : oc_store :=
  clear_oc_flag oc ObjCoreFlags_BUSY (set_oc_flag oc ObjCoreFlags_FAILED st).

(** The status codes of the [matches!]. *)
Definition cacheable_codes : list Z := [200; 203; 204; 300; 301; 302; 304; 307; 308; 404; 410; 414].

Definition is_cacheable (to_lowercase : bytes → bytes) (beresp : HttpMessage) (is_pass : bool) :
    bool :=
  if is_pass then false
  else if negb (existsb (Z.eqb (HttpStatus_code (msg_status beresp))) cacheable_codes) then false
  else
    match HeaderMap_get (msg_headers beresp) (str "Cache-Control") with
    | Some cc =>
        let cc_lower := to_lowercase cc in
        negb (contains (str "no-store") cc_lower || contains (str "private") cc_lower)
    | None => true
    end.

(* ------------------------------------------------------------------ *)
(** ** Substrings *)

Definition substring (a s : bytes) : Prop := ∃ x y, s = x ++ a ++ y.

#[global] Instance substring_preorder : PreOrder substring.
Proof.
  split.
  - intros s. exists [], []. by rewrite app_nil_r.
  - intros a b c (x & y & ->) (x' & y' & ->). exists (x' ++ x), (y ++ y').
    by rewrite <-!app_assoc.
Qed.

Lemma contains_substring a s : contains a s = true ↔ substring a s.
Proof.
  unfold contains. rewrite bool_decide_eq_true. split.
  - intros [[x y] E]. exists x, y. by apply split_once_Some.
  - intros (x & y & ->). induction x as [|c x IH].
    + simpl. rewrite split_once_eq, strip_prefix_app. by eexists.
    + simpl. rewrite split_once_eq. destruct (strip_prefix a (c :: x ++ a ++ y)); [by eexists|].
      destruct IH as [[u v] IH]. rewrite IH. by eexists.
Qed.

Lemma substring_strip_while seqs fuel s : ∃ x, s = x ++ strip_while fuel seqs s.
Proof.
  revert s. induction fuel as [|fuel IH]; intros s; simpl; [by exists []|].
  destruct (strip_any seqs s) as [r|] eqn:E; [|by exists []].
  assert (Hr : ∃ p, s = p ++ r).
  { clear IH. induction seqs as [|p seqs IH]; simpl in E; [done|].
    destruct (strip_prefix p s) eqn:Ep; [|eauto]. simplify_eq.
    exists p. by apply strip_prefix_Some. }
  destruct Hr as [p ->], (IH r) as [x Hx]. exists (p ++ x). by rewrite <-app_assoc, <-Hx.
Qed.

Lemma substring_trim s : substring (trim s) s.
Proof.
  transitivity (trim_start s).
  - destruct (substring_strip_while (reverse <$> ws_seqs) (length (trim_start s))
                (reverse (trim_start s))) as [x Hx].
    exists [], (reverse x). unfold trim, trim_end.
    by rewrite app_nil_l, <-reverse_app, <-Hx, reverse_involutive.
  - destruct (substring_strip_while ws_seqs (length s) s) as [x Hx].
    exists x, []. by rewrite app_nil_r.
Qed.

Lemma substring_join sep (l : list bytes) x : x ∈ l → substring x (join sep l).
Proof.
  induction l as [|y l IH]; [by intros ?%elem_of_nil|]. rewrite elem_of_cons.
  intros [->|Hx].
  - destruct l as [|z l]; [done|]. by exists [], (sep ++ join sep (z :: l)).
  - transitivity (join sep l); [auto|]. destruct l; [by apply elem_of_nil in Hx|].
    exists (y ++ sep), []. by rewrite app_nil_r, <-app_assoc.
Qed.

(** The key of a directive occurs in the header, up to ASCII case. *)
Lemma directive_key_substring hv k v :
  (k, v) ∈ directives hv → ∃ w, substring w hv ∧ to_ascii_lowercase w = k.
Proof.
  unfold directives. rewrite list_elem_of_fmap. intros (d & Hkv & Hd).
  assert (Hsub : substring (trim d) hv).
  { transitivity d; [apply substring_trim|]. rewrite <-(split_char_join x2c hv).
    by apply substring_join. }
  unfold split_directive in Hkv.
  destruct (split_once (str "=") (trim d)) as [[a b]|] eqn:E; simplify_eq.
  - exists (trim a). split; [|done]. transitivity a; [apply substring_trim|].
    apply split_once_Some in E. rewrite E in Hsub.
    transitivity (a ++ str "=" ++ b); [by exists [], (str "=" ++ b)|done].
  - by exists (trim d).
Qed.

(* ------------------------------------------------------------------ *)
(** ** The two cacheability tests agree *)

Definition is_ascii (b : byte) : Prop := u8_val b < 128.

Lemma is_ascii_lower b : is_ascii (ascii_lower b) → is_ascii b.
Proof. unfold is_ascii. by destruct b. Qed.

(** What the standard library documents of [to_lowercase]: an ASCII part of the
    string becomes its ASCII lower case, wherever it stands. *)
Class LowercaseAscii (to_lowercase : bytes → bytes) : Prop :=
  lowercase_ascii a w b : Forall is_ascii w →
    substring (to_ascii_lowercase w) (to_lowercase (a ++ w ++ b)).

#[global] Instance to_ascii_lowercase_ascii : LowercaseAscii to_ascii_lowercase.
Proof.
  intros a w b _. exists (to_ascii_lowercase a), (to_ascii_lowercase b).
  unfold to_ascii_lowercase. by rewrite !map_app.
Qed.

Lemma has_directive_contains `{LowercaseAscii to_lowercase} k hv :
  Forall is_ascii k → has_directive k (directives hv) = true →
  contains k (to_lowercase hv) = true.
Proof.
  intros Hk Hd. apply bool_decide_eq_true in Hd.
  apply list_elem_of_fmap in Hd as ([k' v] & -> & Hd). simpl in *.
  apply directive_key_substring in Hd as (w & (a & b & ->) & <-).
  apply contains_substring, lowercase_ascii.
  revert Hk. unfold to_ascii_lowercase. rewrite Forall_map.
  intros Hw. eapply Forall_impl; [exact Hw|]. intros c. apply is_ascii_lower.
Qed.

Section cacheable.
  Context (to_lowercase : bytes → bytes) `{!LowercaseAscii to_lowercase}.

(** The cacheability test of the fetch agrees with the TTL calculation: a
    response that [is_cacheable] lets through is not a pass, has one of the
    listed status codes, and its Cache-Control header never makes
    [TtlCalculation::from_response] declare it uncacheable; so an object stored
    from it never gets the TTL of minus one second of an uncacheable response. *)
Theorem is_cacheable_sound beresp is_pass now dttl dgrace dkeep :
  is_cacheable to_lowercase beresp is_pass = true →
  is_pass = false ∧ HttpStatus_code (msg_status beresp) ∈ cacheable_codes
  ∧ ttl_uncacheable (TtlCalculation_from_response beresp now dttl dgrace dkeep) = false.
Proof.
  unfold is_cacheable. destruct is_pass; [done|].
  destruct (existsb _ cacheable_codes) eqn:Hcode; simpl; [|done].
  intros Hcc. split; [done|]. split.
  { apply existsb_exists in Hcode as (c & Hin & ->%Z.eqb_eq). by apply list_elem_of_In. }
  unfold TtlCalculation_from_response, HttpMessage_get_header.
  destruct (HeaderMap_get (msg_headers beresp) (str "Cache-Control")) as [cc|].
  - change (CacheControl_parse cc) with
      (fold_left apply_directive (split_char x2c cc) CacheControl_default).
    rewrite fold_directives_reference. fold (directives cc). apply negb_true_iff, orb_false_iff in Hcc as [Hns Hpr].
    assert (Hu : CacheControl_is_uncacheable (reference_cc (directives cc)) = false).
    { apply orb_false_iff. split; simpl.
      - apply not_true_is_false. intros Hd. apply has_directive_contains in Hd; [congruence|].
        repeat constructor.
      - apply not_true_is_false. intros Hd. apply has_directive_contains in Hd; [congruence|].
        repeat constructor. }
    rewrite Hu. by repeat case_match.
  - simpl. by repeat case_match.
Qed.

End cacheable.

(* ------------------------------------------------------------------ *)
(** ** Expires and Date *)

Definition plain_response : HttpMessage :=
  HttpMessage_set_header (HttpMessage_new_response HttpStatus_OK Http11)
    (str "Cache-Control") (str "Max-Age=60, Public").

Lemma is_cacheable_sound_witness :
  is_cacheable to_ascii_lowercase plain_response false = true
  ∧ (false = false ∧ HttpStatus_code (msg_status plain_response) ∈ cacheable_codes
     ∧ ttl_uncacheable (TtlCalculation_from_response plain_response f64_zero f64_zero f64_zero
                          f64_zero) = false).
Proof.
  split; [vm_compute; reflexivity|].
  apply (is_cacheable_sound to_ascii_lowercase plain_response false f64_zero f64_zero f64_zero
           f64_zero). vm_compute. reflexivity.
Defined.

(** A response generated at 08:49:37 that expires an hour later. *)
Definition dated_response : HttpMessage :=
  HttpMessage_set_header
    (HttpMessage_set_header (HttpMessage_new_response HttpStatus_OK Http11)
       (str "Date") (str "Sun, 06 Nov 1994 08:49:37 GMT"))
    (str "Expires") (str "Sun, 06 Nov 1994 09:49:37 GMT").

(** [apply_ttl] counts the lifetime from the moment of the fetch and drops the
    origin time the calculation found in the Date header: a response that is
    already past its Expires date when it arrives (two hours after it was
    generated, say) is stored as fresh and served as a hit. *)
Theorem apply_ttl_ignores_date digest dttl dgrace dkeep :
  let now := components_to_timestamp 1994 11 6 10 49 37 in
  let oc := FetchContext_apply_ttl (ObjCore_new 0 digest) dated_response dttl dgrace dkeep now in
  evaluate_object oc now ∅ = Hit oc
  ∧ ∃ expires, (HttpMessage_get_header dated_response (str "Expires") ≫= parse_http_date)
      = Some expires ∧ f64_gt now expires = true.
Proof.
  intros now oc. split.
  - assert (Hexp : is_expired oc now = false) by (vm_compute; reflexivity).
    unfold evaluate_object. rewrite Hexp. reflexivity.
  - exists (components_to_timestamp 1994 11 6 9 49 37). split; vm_compute; reflexivity.
Qed.
