(* ===== verification/Engine.v ===== *)
(** * The cache engine

    Models [rv-cache/src/engine.rs] and [rv-cache/src/stats.rs]: the component
    that ties the hash slinger, the stevedore, the ban list, the expiry queue,
    the log and the LRU tracker together.  The hash slinger and the stevedore are
    the trait classes, the regex crate of the bans is its class.  An operation
    runs from start to end (the engine's own steps are not interleaved); its
    result is [None] only where the Rust code would be undefined or panic.
    [eng_next] is the next unused address of the allocator, and [eng_cells] the
    shared state of the object cores. *)

From S2P Require Import Prelude RustStr F64 Enums Types HttpTypes Header Vary HashSlinger ListHash.
From S2P Require Import Lru RingLog ObjCore Expire Stevedore Ban.
Local Open Scope Z_scope.

(* ------------------------------------------------------------------ *)
(** ** Statistics (stats.rs) *)

Record CacheStats : Set := mkCacheStats {
  cache_hit : Z;
  cache_miss : Z;
  cache_pass : Z;
  cache_hit_for_pass : Z;
  cache_hit_grace : Z;
  backend_fetches : Z;
  evictions : Z;
  bans_added : Z;
  bans_checked : Z;
  n_objects : Z;
  n_expired : Z;
  n_purged : Z;
  bytes_stored : Z;
}.

Definition CacheStats_new : CacheStats := mkCacheStats 0 0 0 0 0 0 0 0 0 0 0 0 0.

(** The counters the engine updates, each with [fetch_add], which wraps. *)
Inductive counter : Set :=
| CHit | CMiss | CHitForPass | CHitGrace | CEvictions | CBansAdded | CObjects | CExpired | CPurged
| CBytes.

Definition fetch_add (c : counter) (n : Z) (s : CacheStats) : CacheStats :=
  let '(mkCacheStats h m p hfp g bf ev ba bc no ne np bs) := s in
  match c with
  | CHit => mkCacheStats (u64_wrap (h + n)) m p hfp g bf ev ba bc no ne np bs
  | CMiss => mkCacheStats h (u64_wrap (m + n)) p hfp g bf ev ba bc no ne np bs
  | CHitForPass => mkCacheStats h m p (u64_wrap (hfp + n)) g bf ev ba bc no ne np bs
  | CHitGrace => mkCacheStats h m p hfp (u64_wrap (g + n)) bf ev ba bc no ne np bs
  | CEvictions => mkCacheStats h m p hfp g bf (u64_wrap (ev + n)) ba bc no ne np bs
  | CBansAdded => mkCacheStats h m p hfp g bf ev (u64_wrap (ba + n)) bc no ne np bs
  | CObjects => mkCacheStats h m p hfp g bf ev ba bc (u64_wrap (no + n)) ne np bs
  | CExpired => mkCacheStats h m p hfp g bf ev ba bc no (u64_wrap (ne + n)) np bs
  | CPurged => mkCacheStats h m p hfp g bf ev ba bc no ne (u64_wrap (np + n)) bs
  | CBytes => mkCacheStats h m p hfp g bf ev ba bc no ne np (u64_wrap (bs + n))
  end.

(** [snapshot] loads every counter into a [CacheStatsSnapshot]. *)
Definition CacheStats_snapshot (s : CacheStats) : CacheStats := s.

(* ------------------------------------------------------------------ *)
(** ** The engine *)

Definition DEFAULT_MAX_OBJECTS : Z := 100000.

Record TtlInfo : Set := mkTtlInfo {
  info_ttl : VtimDur;
  info_grace : VtimDur;
  info_keep : VtimDur;
}.

Definition TtlInfo_default : TtlInfo := mkTtlInfo (f64_of_Z 120) (f64_of_Z 10) VtimDur_ZERO.

Section engine.
  (** The hash slinger's and the stevedore's states, the configuration (stored,
      not consulted) and [core::fmt]'s fixed-point printing of floats. *)
  Context {SH SS CacheConfig : Type} `{!HashSlinger SH} `{!Stevedore SS} {regex : RegexLib}.
  Context (fmt_fixed : nat → f64 → bytes).

(** [Display for VtimDur] (time.rs). *)
Definition VtimDur_display (d : VtimDur) : bytes :=
  if f64_ge d (f64_of_Z 86400) then fmt_fixed 1 (f64_div d (f64_of_Z 86400)) ++ str "d"
  else if f64_ge d (f64_of_Z 3600) then fmt_fixed 1 (f64_div d (f64_of_Z 3600)) ++ str "h"
  else if f64_ge d (f64_of_Z 60) then fmt_fixed 1 (f64_div d (f64_of_Z 60)) ++ str "m"
  else if f64_ge d (f64_of_Z 1) then fmt_fixed 3 d ++ str "s"
  else fmt_fixed 3 (f64_mul d (f64_of_Z 1000)) ++ str "ms".

Record CacheEngine : Type := mkEngine {
  eng_hash : SH * refcnts;
  eng_storage : SS;
  eng_ban_list : BanList;
  eng_expiry : ExpiryManager;
  eng_stats : CacheStats;
  eng_log : RingBuffer;
  eng_config : CacheConfig;
  eng_objects : gmap Digest (list ObjCore);
  eng_lru : ShardedLru;
  eng_max_objects : Z;
  eng_cells : oc_store;
  eng_next : nat;
}.

(** [hash.start()] does nothing in any of the three slingers. *)
Definition CacheEngine_with_max_objects (config : CacheConfig) (hash : SH * refcnts) (storage : SS)
    (log : RingBuffer) (max_objects : Z) : CacheEngine :=
  mkEngine hash storage BanList_new ExpiryManager_new CacheStats_new log config ∅
    (ShardedLru_new max_objects) max_objects ∅ 0.

Definition CacheEngine_new (config : CacheConfig) (hash : SH * refcnts) (storage : SS)
    (log : RingBuffer) : CacheEngine :=
  CacheEngine_with_max_objects config hash storage log DEFAULT_MAX_OBJECTS.

Definition eng_with_stats (f : CacheStats → CacheStats) (e : CacheEngine) : CacheEngine :=
  mkEngine (eng_hash e) (eng_storage e) (eng_ban_list e) (eng_expiry e) (f (eng_stats e))
    (eng_log e) (eng_config e) (eng_objects e) (eng_lru e) (eng_max_objects e) (eng_cells e)
    (eng_next e).
Definition eng_with_storage (s : SS) (e : CacheEngine) : CacheEngine :=
  mkEngine (eng_hash e) s (eng_ban_list e) (eng_expiry e) (eng_stats e) (eng_log e) (eng_config e)
    (eng_objects e) (eng_lru e) (eng_max_objects e) (eng_cells e) (eng_next e).
Definition eng_with_objects (o : gmap Digest (list ObjCore)) (e : CacheEngine) : CacheEngine :=
  mkEngine (eng_hash e) (eng_storage e) (eng_ban_list e) (eng_expiry e) (eng_stats e) (eng_log e)
    (eng_config e) o (eng_lru e) (eng_max_objects e) (eng_cells e) (eng_next e).
Definition eng_with_lru (l : ShardedLru) (e : CacheEngine) : CacheEngine :=
  mkEngine (eng_hash e) (eng_storage e) (eng_ban_list e) (eng_expiry e) (eng_stats e) (eng_log e)
    (eng_config e) (eng_objects e) l (eng_max_objects e) (eng_cells e) (eng_next e).
Definition eng_with_hash (h : SH * refcnts) (e : CacheEngine) : CacheEngine :=
  mkEngine h (eng_storage e) (eng_ban_list e) (eng_expiry e) (eng_stats e) (eng_log e)
    (eng_config e) (eng_objects e) (eng_lru e) (eng_max_objects e) (eng_cells e) (eng_next e).
Definition eng_with_bans (b : BanList) (e : CacheEngine) : CacheEngine :=
  mkEngine (eng_hash e) (eng_storage e) b (eng_expiry e) (eng_stats e) (eng_log e)
    (eng_config e) (eng_objects e) (eng_lru e) (eng_max_objects e) (eng_cells e) (eng_next e).
Definition eng_with_expiry (x : ExpiryManager) (e : CacheEngine) : CacheEngine :=
  mkEngine (eng_hash e) (eng_storage e) (eng_ban_list e) x (eng_stats e) (eng_log e)
    (eng_config e) (eng_objects e) (eng_lru e) (eng_max_objects e) (eng_cells e) (eng_next e).
Definition eng_with_log (l : RingBuffer) (e : CacheEngine) : CacheEngine :=
  mkEngine (eng_hash e) (eng_storage e) (eng_ban_list e) (eng_expiry e) (eng_stats e) l
    (eng_config e) (eng_objects e) (eng_lru e) (eng_max_objects e) (eng_cells e) (eng_next e).

(** A new address. *)
Definition eng_fresh (e : CacheEngine) : nat * CacheEngine :=
  (eng_next e,
   mkEngine (eng_hash e) (eng_storage e) (eng_ban_list e) (eng_expiry e) (eng_stats e) (eng_log e)
     (eng_config e) (eng_objects e) (eng_lru e) (eng_max_objects e) (eng_cells e)
     (S (eng_next e))).

(** A new address with the cell of the object core put there. *)
Definition eng_alloc (e : CacheEngine) : nat * CacheEngine :=
  (eng_next e,
   mkEngine (eng_hash e) (eng_storage e) (eng_ban_list e) (eng_expiry e) (eng_stats e) (eng_log e)
     (eng_config e) (eng_objects e) (eng_lru e) (eng_max_objects e)
     (<[eng_next e := OcCell_new]> (eng_cells e)) (S (eng_next e))).
Definition eng_with_cells (c : oc_store) (e : CacheEngine) : CacheEngine :=
  mkEngine (eng_hash e) (eng_storage e) (eng_ban_list e) (eng_expiry e) (eng_stats e) (eng_log e)
    (eng_config e) (eng_objects e) (eng_lru e) (eng_max_objects e) c (eng_next e).

(* ------------------------------------------------------------------ *)
(** ** Lookup *)

(** The test at the head of the loop: does the variant apply to the request? *)
Definition variant_applies (request_headers : option HeaderMap) (oc : ObjCore) : option bool :=
  match request_headers, vary_data oc with
  | Some req_hdrs, Some data => VaryMatcher_matches data req_hdrs
  | _, _ => Some true
  end.

(** The loop: the fresh variant it returns at, and the grace candidate. *)
Fixpoint scan_variants (request_headers : option HeaderMap) (now : VtimReal) (cells : oc_store)
    (variants : list ObjCore) (grace_candidate : option ObjCore) :
    option (option ObjCore * option ObjCore) :=
  match variants with
  | [] => Some (None, grace_candidate)
  | oc :: variants =>
      applies ← variant_applies request_headers oc;
      if (applies : bool) then
        match evaluate_object oc now cells with
        | Hit oc => Some (Some oc, grace_candidate)
        | Grace _ =>
            scan_variants request_headers now cells variants
              (match grace_candidate with None => Some oc | Some c => Some c end)
        | _ => scan_variants request_headers now cells variants grace_candidate
        end
      else scan_variants request_headers now cells variants grace_candidate
  end.

Definition CacheEngine_lookup (digest : Digest) (request_headers : option HeaderMap)
    (now : VtimReal) (e : CacheEngine) : option (CacheLookupResult * CacheEngine) :=
  match eng_objects e !! digest with
  | Some variants =>
      '(hit, grace_candidate) ← scan_variants request_headers now (eng_cells e) variants None;
      match hit, grace_candidate with
      | Some oc, _ =>
          lru ← ShardedLru_touch digest (eng_lru e);
          Some (Hit oc, eng_with_lru lru (eng_with_stats (fetch_add CHit 1) e))
      | None, Some oc =>
          lru ← ShardedLru_touch digest (eng_lru e);
          Some (Grace oc, eng_with_lru lru (eng_with_stats (fetch_add CHitGrace 1) e))
      | None, None =>
          lru ← ShardedLru_remove digest (eng_lru e);
          Some (Miss, eng_with_stats (fetch_add CMiss 1)
                        (eng_with_lru lru (eng_with_objects (delete digest (eng_objects e)) e)))
      end
  | None => Some (Miss, eng_with_stats (fetch_add CMiss 1) e)
  end.

Definition CacheEngine_evaluate (oc : ObjCore) (now : VtimReal) (e : CacheEngine) :
    CacheLookupResult * CacheEngine :=
  let result := evaluate_object oc now (eng_cells e) in
  (result,
   match result with
   | Hit _ => eng_with_stats (fetch_add CHit 1) e
   | Grace _ => eng_with_stats (fetch_add CHitGrace 1) e
   | HitForPass => eng_with_stats (fetch_add CHitForPass 1) e
   | Miss => eng_with_stats (fetch_add CMiss 1) e
   | Busy => e
   end).

(* ------------------------------------------------------------------ *)
(** ** Removal and capacity *)

(** [for _oc in &variants { storage.free_obj(&mut ObjCore::new(digest)) }] *)
Fixpoint free_variants (digest : Digest) (variants : list ObjCore) (s : SS) : SS :=
  match variants with
  | [] => s
  | _ :: variants => free_variants digest variants (sv_free_obj digest s)
  end.

Definition CacheEngine_remove (digest : Digest) (e : CacheEngine) : option (Z * CacheEngine) :=
  let removed := eng_objects e !! digest in
  let e := eng_with_objects (delete digest (eng_objects e)) e in
  lru ← ShardedLru_remove digest (eng_lru e);
  let e := eng_with_lru lru e in
  let count := match removed with Some variants => Z.of_nat (length variants) | None => 0 end in
  if 0 <? count then
    let e := match removed with
             | Some variants =>
                 eng_with_storage (free_variants digest variants (eng_storage e)) e
             | None => e
             end in
    Some (count, eng_with_stats (fetch_add CEvictions count) e)
  else Some (count, e).

(** The [while] of [enforce_capacity]; running out of fuel is [None]. *)
Fixpoint enforce_loop (fuel : nat) (e : CacheEngine) : option CacheEngine :=
  match fuel with
  | O => None
  | S fuel =>
      if eng_max_objects e <=? ShardedLru_len (eng_lru e) then
        '(oldest, lru) ← ShardedLru_evict_oldest (eng_lru e);
        let e := eng_with_lru lru e in
        match oldest with
        | Some victim =>
            match eng_objects e !! victim with
            | Some variants =>
                let e := eng_with_objects (delete victim (eng_objects e)) e in
                let e := eng_with_storage (free_variants victim variants (eng_storage e)) e in
                enforce_loop fuel
                  (eng_with_stats (fetch_add CEvictions (Z.of_nat (length variants))) e)
            | None => enforce_loop fuel e
            end
        | None => Some e
        end
      else Some e
  end.

(** Every round but the last evicts an entry. *)
Definition CacheEngine_enforce_capacity (e : CacheEngine) : option CacheEngine :=
  enforce_loop (S (S (Z.to_nat (ShardedLru_len (eng_lru e))))) e.

(* ------------------------------------------------------------------ *)
(** ** Insertion *)

Definition CacheEngine_insert (digest : Digest) (body : bytes) (ttl_info : TtlInfo)
    (vary : option bytes) (now : VtimReal) (e : CacheEngine) :
    option (result ObjCore CacheError * CacheEngine) :=
  e ← CacheEngine_enforce_capacity e;
  let '(addr, e) := eng_alloc e in
  let oc := ObjCore_new addr digest in
  match sv_alloc_obj digest (Z.of_nat (length body)) (eng_storage e) with
  | (Err err, s) => Some (Err (CacheError_Storage err), eng_with_storage s e)
  | (Ok _, s) =>
      let e := eng_with_storage s e in
      let oc := set_times now (info_ttl ttl_info) (info_grace ttl_info) (info_keep ttl_info) oc in
      match sv_extend digest body (eng_storage e) with
      | (Err err, s) => Some (Err (CacheError_Storage err), eng_with_storage s e)
      | (Ok _, s) =>
          let e := eng_with_storage s e in
          let e := eng_with_cells (store_body oc body (eng_cells e)) e in
          let oc := match vary with Some data => set_vary data oc | None => oc end in
          let variants := default [] (eng_objects e !! digest) ++ [oc] in
          let e := eng_with_objects (<[digest := variants]> (eng_objects e)) e in
          lru ← ShardedLru_insert digest (eng_lru e);
          let e := eng_with_lru lru e in
          let e := eng_with_expiry (ExpiryManager_insert oc (eng_expiry e)) e in
          let e := eng_with_stats (fetch_add CObjects 1) e in
          let e := eng_with_stats (fetch_add CBytes (Z.of_nat (length body))) e in
          log ← LogWriter_log now LogTag_ObjHeader (mkVxid 0)
                  (str "inserted object, ttl=" ++ VtimDur_display (info_ttl ttl_info)) (eng_log e);
          Some (Ok oc, eng_with_log log e)
      end
  end.

(* ------------------------------------------------------------------ *)
(** ** Purge, ban, expiry *)

Definition CacheEngine_purge (digest : Digest) (e : CacheEngine) : option CacheEngine :=
  let '(addr, e) := eng_fresh e in
  let new_oh := mkObjHead addr digest in
  let '((oh, _), h) := hs_lookup digest new_oh (eng_hash e) in
  let '(_, h) := hs_deref oh h in
  let e := eng_with_hash h e in
  let e := eng_with_objects (delete digest (eng_objects e)) e in
  lru ← ShardedLru_remove digest (eng_lru e);
  Some (eng_with_stats (fetch_add CPurged 1) (eng_with_lru lru e)).

Definition CacheEngine_ban (expression : bytes) (now : VtimReal) (e : CacheEngine) :
    result unit CacheError * CacheEngine :=
  match BanList_add_ban now expression (eng_ban_list e) with
  | (Err err, bans) => (Err err, eng_with_bans bans e)
  | (Ok _, bans) => (Ok tt, eng_with_stats (fetch_add CBansAdded 1) (eng_with_bans bans e))
  end.

(** The loop over the expired objects. *)
Fixpoint expire_each (expired : list ObjCore) (e : CacheEngine) : option CacheEngine :=
  match expired with
  | [] => Some e
  | oc :: expired =>
      lru ← ShardedLru_remove (oc_digest oc) (eng_lru e);
      let e := eng_with_lru lru e in
      let e := eng_with_objects (delete (oc_digest oc) (eng_objects e)) e in
      expire_each expired (eng_with_storage (sv_free_obj (oc_digest oc) (eng_storage e)) e)
  end.

Definition CacheEngine_expire_objects (now : VtimReal) (e : CacheEngine) :
    option (Z * CacheEngine) :=
  let '(expired, expiry) := ExpiryManager_expire now (eng_expiry e) in
  let e := eng_with_expiry expiry e in
  let count := Z.of_nat (length expired) in
  e ← expire_each expired e;
  if 0 <? count then
    Some (count, eng_with_stats (fetch_add CEvictions count)
                   (eng_with_stats (fetch_add CExpired count) e))
  else Some (count, e).

(* ------------------------------------------------------------------ *)
(** ** The LRU tracker and the object map agree *)

Abbreviation objmap := (gmap Digest (list ObjCore)).

(** The tracker holds exactly the digests of the map; [n] bounds its clock. *)
Definition lru_ok (n : Z) (lru : ShardedLru) (objs : objmap) : Prop :=
  ∃ L, lru_repr lru L ∧ clock lru ≤ n ∧ ∀ d, d ∈ L.*1 ↔ is_Some (objs !! d).

Lemma drop_key_in d d' (L : recency) : d' ∈ (drop_key d L).*1 ↔ d' ∈ L.*1 ∧ d' ≠ d.
Proof. rewrite drop_key_keys, list_elem_of_filter. tauto. Qed.

Lemma lru_ok_touch n lru objs d :
  lru_ok n lru objs → n < u64_max → is_Some (objs !! d) →
  ∃ lru', ShardedLru_touch d lru = Some lru' ∧ lru_ok (n + 1) lru' objs.
Proof.
  intros (L & Hr & Hc & Hag) Hn Hd.
  destruct (lru_touch_refines lru L d Hr ltac:(lia)) as (lru' & E & Hc' & Hr').
  rewrite bool_decide_true in Hr' by by apply Hag.
  exists lru'. split; [done|]. eexists. split; [exact Hr'|]. split; [lia|].
  intros d'. rewrite fmap_app, elem_of_app, drop_key_in, Hag. simpl. rewrite list_elem_of_singleton.
  split; [intros [[? _]| ->]; done|]. intros ?. destruct (decide (d' = d)); tauto.
Qed.

Lemma lru_ok_insert n lru objs d v :
  lru_ok n lru objs → n < u64_max →
  ∃ lru', ShardedLru_insert d lru = Some lru' ∧ lru_ok (n + 1) lru' (<[d := v]> objs).
Proof.
  intros (L & Hr & Hc & Hag) Hn.
  destruct (lru_insert_refines lru L d Hr ltac:(lia)) as (lru' & E & Hc' & Hr').
  exists lru'. split; [done|]. eexists. split; [exact Hr'|]. split; [lia|].
  intros d'. rewrite fmap_app, elem_of_app, drop_key_in, Hag. simpl. rewrite list_elem_of_singleton.
  destruct (decide (d' = d)) as [->|].
  - rewrite lookup_insert_eq. split; [by eexists|tauto].
  - rewrite lookup_insert_ne by done. tauto.
Qed.

Lemma agree_drop L (objs : objmap) d :
  (∀ d', d' ∈ L.*1 ↔ is_Some (objs !! d')) →
  ∀ d', d' ∈ (drop_key d L).*1 ↔ is_Some (delete d objs !! d').
Proof.
  intros Hag d'. rewrite drop_key_in, Hag. destruct (decide (d' = d)) as [->|].
  - rewrite lookup_delete_eq. split; [tauto|by intros []].
  - rewrite lookup_delete_ne by done. tauto.
Qed.

Lemma lru_ok_remove n lru objs d :
  lru_ok n lru objs →
  ∃ lru', ShardedLru_remove d lru = Some lru' ∧ lru_ok n lru' (delete d objs).
Proof.
  intros (L & Hr & Hc & Hag).
  destruct (lru_remove_refines lru L d Hr) as (lru' & E & Hc' & Hr').
  exists lru'. split; [done|]. eexists. split; [exact Hr'|]. split; [lia|]. by apply agree_drop.
Qed.

Lemma lru_ok_evict n lru objs :
  lru_ok n lru objs → n ≤ u64_max →
  ∃ o lru', ShardedLru_evict_oldest lru = Some (o, lru')
    ∧ match o with
      | None => objs = ∅ ∧ lru_ok n lru' objs
      | Some d => is_Some (objs !! d) ∧ lru_ok n lru' (delete d objs)
      end.
Proof.
  intros (L & Hr & Hc & Hag) Hn.
  destruct (lru_evict_refines lru L Hr ltac:(lia)) as (lru' & E & Hc' & Hr').
  eexists _, lru'. split; [exact E|]. destruct L as [|[d t] L]; simpl in *.
  - split; [|exists []; by split_and!; [|lia|]]. apply map_eq. intros d. rewrite lookup_empty.
    apply eq_None_not_Some. rewrite <-Hag. by intros ?%elem_of_nil.
  - split; [apply Hag; left|]. exists L. split; [done|]. split; [lia|].
    assert (Hnd : d ∉ L.*1) by (destruct Hr as (_ & _ & _ & Hnd & _); by apply NoDup_cons in Hnd as [? _]).
    rewrite <-(drop_key_notin d L) by done.
    replace (drop_key d L) with (drop_key d ((d, t) :: L))
      by (unfold drop_key; by rewrite filter_cons_False by (simpl; congruence)).
    by apply agree_drop.
Qed.

Lemma lru_ok_len n lru objs : lru_ok n lru objs → ShardedLru_len lru = Z.of_nat (size objs).
Proof.
  intros (L & Hr & _ & Hag). rewrite (lru_len_refines lru L Hr). f_equal.
  rewrite <-(length_fmap fst). destruct Hr as (_ & _ & _ & Hnd & _).
  rewrite <-(size_list_to_set (C := gset Digest)) by done. rewrite <-size_dom. f_equal.
  apply set_eq. intros d. by rewrite elem_of_list_to_set, elem_of_dom, Hag.
Qed.

(* ------------------------------------------------------------------ *)
(** ** The engine's invariant *)

(** Variants are filed under their digest, at allocated addresses; no digest has
    an empty list. *)
Definition variants_ok (next : nat) (objs : objmap) : Prop :=
  map_Forall (λ d vs, vs ≠ [] ∧ Forall (λ oc, oc_digest oc = d ∧ (oc_addr oc < next)%nat) vs) objs.

Definition log_ok (n : Z) (log : RingBuffer) : Prop :=
  ∃ cap hist, ring_repr log cap hist ∧ Z.of_nat (length hist) ≤ n.

Definition capacity_ok (max : Z) (objs : objmap) : Prop := Z.of_nat (size objs) ≤ Z.max 1 max.

(** After at most [n] operations. *)
Definition eng_ok (n : Z) (e : CacheEngine) : Prop :=
  lru_ok n (eng_lru e) (eng_objects e)
  ∧ variants_ok (eng_next e) (eng_objects e)
  ∧ log_ok n (eng_log e)
  ∧ capacity_ok (eng_max_objects e) (eng_objects e).

Lemma variants_ok_mono next next' objs :
  (next ≤ next')%nat → variants_ok next objs → variants_ok next' objs.
Proof.
  intros Hle Hv d vs Hd. destruct (Hv d vs Hd) as [? HF]. split; [done|].
  eapply Forall_impl; [exact HF|]. intros oc [? ?]. split; [done|lia].
Qed.

Lemma variants_ok_delete next objs d : variants_ok next objs → variants_ok next (delete d objs).
Proof. apply map_Forall_delete. Qed.

Lemma capacity_ok_delete max objs d : capacity_ok max objs → capacity_ok max (delete d objs).
Proof.
  unfold capacity_ok. intros H. destruct (objs !! d) as [v|] eqn:E.
  - rewrite map_size_delete, E. lia.
  - by rewrite delete_id.
Qed.

Lemma lru_ok_weaken n n' lru objs : n ≤ n' → lru_ok n lru objs → lru_ok n' lru objs.
Proof. intros Hle (L & ? & ? & ?). exists L. split_and!; [done|lia|done]. Qed.

Lemma log_ok_weaken n n' log : n ≤ n' → log_ok n log → log_ok n' log.
Proof. intros Hle (cap & hist & ? & ?). exists cap, hist. split; [done|lia]. Qed.

Lemma eng_ok_weaken n n' e : n ≤ n' → eng_ok n e → eng_ok n' e.
Proof.
  intros Hle (? & ? & ? & ?). split_and!; [by eapply lru_ok_weaken|done|by eapply log_ok_weaken|done].
Qed.

(** The fields the invariant reads. *)
Lemma eng_ok_ext n e e' :
  eng_lru e' = eng_lru e → eng_objects e' = eng_objects e → eng_next e' = eng_next e →
  eng_log e' = eng_log e → eng_max_objects e' = eng_max_objects e → eng_ok n e → eng_ok n e'.
Proof. unfold eng_ok. by intros -> -> -> -> ->. Qed.

(** Dropping a digest from the tracker and from the map. *)
Lemma eng_ok_drop n e d :
  eng_ok n e →
  ∃ lru, ShardedLru_remove d (eng_lru e) = Some lru
    ∧ eng_ok n (eng_with_lru lru (eng_with_objects (delete d (eng_objects e)) e)).
Proof.
  intros (Hl & Hv & Hg & Hc). destruct (lru_ok_remove _ _ _ d Hl) as (lru & E & Hl').
  exists lru. split; [done|]. split_and!; simpl; [done|by apply variants_ok_delete|done|].
  by apply capacity_ok_delete.
Qed.

(* ------------------------------------------------------------------ *)
(** ** Lookup *)

(** Does the variant apply to the request, as a property. *)
Definition applies (req : option HeaderMap) (oc : ObjCore) : bool :=
  match variant_applies req oc with Some b => b | None => false end.

Lemma variant_applies_total req oc : variant_applies req oc = Some (applies req oc).
Proof.
  unfold applies, variant_applies. destruct req as [req|]; [|done].
  destruct (vary_data oc) as [data|]; [|done].
  destruct (vary_matches_total data req) as [b Hb]. by rewrite Hb.
Qed.

Definition is_fresh (now : VtimReal) (cells : oc_store) (oc : ObjCore) : bool :=
  match evaluate_object oc now cells with Hit _ => true | _ => false end.
Definition is_graced (now : VtimReal) (cells : oc_store) (oc : ObjCore) : bool :=
  match evaluate_object oc now cells with Grace _ => true | _ => false end.

(** The reference: two searches through the variants that apply. *)
Definition select_variant (req : option HeaderMap) (now : VtimReal) (cells : oc_store)
    (variants : list ObjCore) : CacheLookupResult :=
  let candidates := List.filter (applies req) variants in
  match List.find (is_fresh now cells) candidates with
  | Some oc => Hit oc
  | None =>
      match List.find (is_graced now cells) candidates with
      | Some oc => Grace oc
      | None => Miss
      end
  end.

Lemma scan_variants_spec req now cells vs : ∀ g,
  scan_variants req now cells vs g
    = let candidates := List.filter (applies req) vs in
      Some (match List.find (is_fresh now cells) candidates with
            | Some oc => (Some oc, (scan_variants req now cells vs g ≫= λ p, p.2))
            | None => (None, match g with
                             | Some c => Some c
                             | None => List.find (is_graced now cells) candidates
                             end)
            end).
Proof.
  induction vs as [|oc vs IH]; intros g; simpl; [by destruct g|].
  rewrite variant_applies_total. simpl. destruct (applies req oc); [|by apply IH].
  simpl. unfold is_fresh at 1, is_graced at 1.
  destruct (evaluate_object oc now cells) as [oc'| |oc'| |] eqn:E.
  - by apply evaluate_hit in E as [-> _].
  - apply IH.
  - destruct g as [c|]; [apply (IH (Some c))|apply (IH (Some oc))].
  - apply IH.
  - apply IH.
Qed.

(** The scan agrees with the reference. *)
Lemma scan_select req now cells vs :
  ∃ hit grace, scan_variants req now cells vs None = Some (hit, grace)
    ∧ select_variant req now cells vs
      = match hit, grace with Some oc, _ => Hit oc | None, Some oc => Grace oc | None, None => Miss end.
Proof.
  pose proof (scan_variants_spec req now cells vs None) as H. simpl in H. unfold select_variant.
  revert H. destruct (List.find (is_fresh now cells) _) as [oc|]; intros H; (eexists _, _; split; [exact H|]); [done|].
  by destruct (List.find (is_graced now cells) _).
Qed.

Lemma lookup_ok n e d req now :
  eng_ok n e → n < u64_max →
  ∃ e', CacheEngine_lookup d req now e
          = Some (match eng_objects e !! d with
                  | Some vs => select_variant req now (eng_cells e) vs
                  | None => Miss
                  end, e')
    ∧ eng_ok (n + 1) e'
    ∧ eng_cells e' = eng_cells e ∧ eng_max_objects e' = eng_max_objects e
    ∧ eng_objects e' = match eng_objects e !! d with
                       | Some vs => if decide (select_variant req now (eng_cells e) vs = Miss)
                                    then delete d (eng_objects e) else eng_objects e
                       | None => eng_objects e
                       end.
Proof.
  intros Hok Hn. unfold CacheEngine_lookup. destruct (eng_objects e !! d) as [vs|] eqn:Hd.
  2: { eexists. split_and!; [done| |done..]. eapply eng_ok_ext; last by eapply (eng_ok_weaken n); [lia|]. all: done. }
  destruct (scan_select req now (eng_cells e) vs) as (hit & grace & Hscan & Hsel). rewrite Hscan, Hsel.
  simpl. pose proof Hok as (Hl & Hv & Hg & Hc).
  destruct (lru_ok_touch n _ _ d Hl Hn (ex_intro _ _ Hd)) as (lru & Etouch & Hl').
  assert (Htouched : ∀ f, eng_ok (n + 1) (eng_with_lru lru (eng_with_stats f e))).
  { intros f. split_and!; [done..| |done]. by apply (log_ok_weaken n); [lia|]. }
  destruct hit as [oc|]; [|destruct grace as [oc|]].
  - rewrite Etouch. eexists. split_and!; [done|apply Htouched|done..].
  - rewrite Etouch. eexists. split_and!; [done|apply Htouched|done..].
  - destruct (eng_ok_drop n e d Hok) as (lru' & E & Hdrop). simpl in E. rewrite E. simpl.
    eexists. split_and!; [done| |done..].
    eapply eng_ok_ext; last by eapply (eng_ok_weaken n); [lia|]. all: done.
Qed.

(* ------------------------------------------------------------------ *)
(** ** The other operations *)

Lemma remove_ok n e d :
  eng_ok n e →
  ∃ count e', CacheEngine_remove d e = Some (count, e') ∧ eng_ok n e'
    ∧ eng_max_objects e' = eng_max_objects e
    ∧ eng_objects e' = delete d (eng_objects e).
Proof.
  intros Hok. destruct (eng_ok_drop n e d Hok) as (lru & E & Hok').
  unfold CacheEngine_remove. simpl. rewrite E. simpl.
  destruct (0 <? _); (eexists _, _; split; [done|]); [|done].
  destruct (eng_objects e !! d); (split; [|done]); (eapply eng_ok_ext; [..|exact Hok']; done).
Qed.

(** What eviction may change: objects only leave the map. *)
Definition shrunk (e e' : CacheEngine) : Prop :=
  eng_objects e' ⊆ eng_objects e ∧ eng_cells e' = eng_cells e ∧ eng_next e' = eng_next e
  ∧ eng_max_objects e' = eng_max_objects e ∧ eng_log e' = eng_log e
  ∧ eng_expiry e' = eng_expiry e.

Lemma enforce_loop_ok n fuel : ∀ e,
  eng_ok n e → n ≤ u64_max → (size (eng_objects e) + 1 < fuel)%nat →
  ∃ e', enforce_loop fuel e = Some e' ∧ eng_ok n e' ∧ shrunk e e'
    ∧ (eng_objects e' = ∅ ∨ Z.of_nat (size (eng_objects e')) < eng_max_objects e).
Proof.
  induction fuel as [|fuel IH]; intros e Hok Hn Hfuel; [lia|].
  pose proof Hok as (Hl & Hv & Hg & Hc). cbn [enforce_loop].
  rewrite (lru_ok_len n _ _ Hl).
  destruct (Z.leb_spec (eng_max_objects e) (Z.of_nat (size (eng_objects e)))) as [Hfull|Hroom].
  2: { exists e. split_and!; [done..| |by right]. by unfold shrunk. }
  destruct (lru_ok_evict n _ _ Hl Hn) as (o & lru & E & Ho). rewrite E. simpl.
  destruct o as [victim|].
  2: { destruct Ho as [Hempty Hl']. eexists. split_and!; [done| | |by left].
       - by split_and!.
       - by unfold shrunk. }
  destruct Ho as [[vs Hvs] Hl']. rewrite Hvs.
  match goal with |- context [enforce_loop fuel ?x] => set (e1 := x) end.
  assert (Hok1 : eng_ok n e1).
  { split_and!; simpl; [done|by apply variants_ok_delete|done|by apply capacity_ok_delete]. }
  destruct (IH e1 Hok1 Hn) as (e' & E' & Hok' & Hsh & Hroom).
  { assert (size (eng_objects e) ≠ 0%nat) by (apply map_size_ne_0_lookup; eauto).
    simpl. rewrite map_size_delete, Hvs. lia. }
  exists e'. split_and!; [done..| |done].
  destruct Hsh as (Hsub & ? & ? & ? & ? & ?). split_and!; try done.
  etransitivity; [exact Hsub|]. apply delete_subseteq.
Qed.

Lemma enforce_capacity_ok n e :
  eng_ok n e → n ≤ u64_max →
  ∃ e', CacheEngine_enforce_capacity e = Some e' ∧ eng_ok n e' ∧ shrunk e e'
    ∧ (eng_objects e' = ∅ ∨ Z.of_nat (size (eng_objects e')) < eng_max_objects e).
Proof.
  intros Hok Hn. apply (enforce_loop_ok n); [done..|].
  destruct Hok as (Hl & _). rewrite (lru_ok_len n _ _ Hl). lia.
Qed.

Lemma variants_ok_insert next objs d oc :
  variants_ok next objs → oc_digest oc = d → (oc_addr oc < next)%nat →
  variants_ok next (<[d := default [] (objs !! d) ++ [oc]]> objs).
Proof.
  intros Hv Hd Ha d' vs. rewrite lookup_insert_Some. intros [[<- <-]|[_ Hvs]]; [|by apply Hv].
  split; [by destruct (default [] (objs !! d))|]. apply Forall_app. split; [|by repeat constructor].
  destruct (objs !! d) as [vs|] eqn:E; simpl; [|constructor]. by destruct (Hv _ _ E).
Qed.

(** The object an insertion builds at address [a]. *)
Definition built_object (a : nat) (digest : Digest) (ttl_info : TtlInfo) (vary : option bytes)
    (now : VtimReal) : ObjCore :=
  let oc := set_times now (info_ttl ttl_info) (info_grace ttl_info) (info_keep ttl_info)
              (ObjCore_new a digest) in
  match vary with Some data => set_vary data oc | None => oc end.

Lemma built_object_fields a d info vary now :
  oc_digest (built_object a d info vary now) = d ∧ oc_addr (built_object a d info vary now) = a.
Proof. by destruct vary. Qed.

Lemma insert_ok n e d body info vary now :
  eng_ok n e → n < u64_max →
  ∃ r e', CacheEngine_insert d body info vary now e = Some (r, e') ∧ eng_ok (n + 1) e'
    ∧ eng_max_objects e' = eng_max_objects e
    ∧ ∀ oc, r = Ok oc →
        oc = built_object (eng_next e) d info vary now
        ∧ (∃ objs, objs ⊆ eng_objects e
             ∧ eng_objects e' = <[d := default [] (objs !! d) ++ [oc]]> objs)
        ∧ eng_cells e' = store_body oc body (<[eng_next e := OcCell_new]> (eng_cells e)).
Proof.
  intros Hok Hn. unfold CacheEngine_insert.
  destruct (enforce_capacity_ok n e Hok ltac:(lia)) as (e1 & E & (Hl & Hv & Hg & Hc) & Hsh & Hroom).
  destruct Hsh as (Hsub & Hcells & Hnext & Hmax & Hlog & _). rewrite E. simpl.
  assert (Hfail : ∀ s, eng_ok (n + 1) (eng_with_storage s (eng_alloc e1).2)).
  { intros s. split_and!; simpl; [by apply (lru_ok_weaken n); [lia|]| |by apply (log_ok_weaken n); [lia|]|done].
    by apply (variants_ok_mono (eng_next e1)); [lia|]. }
  destruct (sv_alloc_obj d _ _) as [[u|err] s1]; [|eexists _, _; split_and!; [done|apply Hfail|done..]].
  destruct (sv_extend d body s1) as [[u'|err] s2];
    [|eexists _, _; split_and!; [done|apply (Hfail s2)|done..]].
  set (oc := match vary with Some data => _ | None => _ end).
  assert (Hoc : oc = built_object (eng_next e) d info vary now) by (rewrite <-Hnext; done).
  destruct (built_object_fields (eng_next e) d info vary now) as [Hd Ha]. rewrite <-Hoc in Hd, Ha.
  destruct (lru_ok_insert n _ _ d (default [] (eng_objects e1 !! d) ++ [oc]) Hl Hn) as (lru & E2 & Hl2).
  rewrite E2. simpl. destruct Hg as (cap & hist & Hring & Hhist). unfold LogWriter_log.
  match goal with |- context [RingBuffer_write ?r _] =>
    destruct (ring_repr_write _ _ _ r Hring ltac:(lia)) as (log & E3 & Hring3) end.
  rewrite E3. simpl.
  eexists _, _. split; [done|]. split; [|split; [done|]].
  - split_and!; simpl; [done| | |].
    + apply variants_ok_insert; [|done|lia]. by apply (variants_ok_mono (eng_next e1)); [lia|].
    + eexists _, _. split; [exact Hring3|]. rewrite length_app. simpl. lia.
    + unfold capacity_ok. rewrite map_size_insert. rewrite Hmax.
      destruct Hroom as [Hempty|Hroom]; [rewrite Hempty, lookup_empty, map_size_empty; simpl; lia|].
      destruct (eng_objects e1 !! d); simpl; lia.
  - intros oc' [= <-]. split; [done|]. split; [by exists (eng_objects e1)|]. simpl.
    unfold oc. rewrite Hcells, Hnext. by destruct vary.
Qed.

Lemma purge_ok n e d :
  eng_ok n e →
  ∃ e', CacheEngine_purge d e = Some e' ∧ eng_ok n e'
    ∧ eng_max_objects e' = eng_max_objects e ∧ eng_objects e' = delete d (eng_objects e).
Proof.
  intros Hok. unfold CacheEngine_purge. simpl.
  destruct (hs_lookup _ _ _) as [[oh u] h]. destruct (hs_deref oh h) as [b h']. simpl.
  destruct (eng_ok_drop n e d Hok) as (lru & E & Hl & Hv & Hg & Hc). simpl in E. rewrite E. simpl.
  eexists. split; [done|]. split; [|done]. split_and!; simpl; [done| |done..].
  by apply (variants_ok_mono (eng_next e)); [lia|].
Qed.

(** The digests of the expired objects leave the map, with all their variants. *)
Lemma expire_each_ok n expired : ∀ e,
  eng_ok n e →
  ∃ e', expire_each expired e = Some e' ∧ eng_ok n e'
    ∧ eng_max_objects e' = eng_max_objects e
    ∧ ∀ d, eng_objects e' !! d
        = if bool_decide (d ∈ oc_digest <$> expired) then None else eng_objects e !! d.
Proof.
  induction expired as [|oc expired IH]; intros e Hok.
  - exists e. split_and!; done.
  - cbn [expire_each]. destruct (eng_ok_drop n e (oc_digest oc) Hok) as (lru & E & Hok1). rewrite E. simpl.
    match goal with |- context [expire_each expired ?x] => set (e1 := x) end.
    destruct (IH e1) as (e' & E' & Hok' & Hmax & Hobj).
    { eapply eng_ok_ext; [..|exact Hok1]; done. }
    exists e'. split_and!; [done..|]. intros d. rewrite Hobj.
    change (eng_objects e1) with (delete (oc_digest oc) (eng_objects e)).
    change (oc_digest <$> oc :: expired) with (oc_digest oc :: (oc_digest <$> expired)).
    destruct (decide (d = oc_digest oc)) as [->|Hne].
    + rewrite lookup_delete_eq. rewrite (bool_decide_true (_ ∈ _ :: _)) by left. by case_bool_decide.
    + rewrite lookup_delete_ne by done.
      do 2 case_bool_decide; rewrite ?elem_of_cons in *; tauto.
Qed.

Lemma expire_objects_ok n e now :
  eng_ok n e →
  ∃ count e', CacheEngine_expire_objects now e = Some (count, e') ∧ eng_ok n e'
    ∧ eng_max_objects e' = eng_max_objects e.
Proof.
  intros Hok. unfold CacheEngine_expire_objects.
  destruct (ExpiryManager_expire now (eng_expiry e)) as [expired expiry].
  destruct (expire_each_ok n expired (eng_with_expiry expiry e)) as (e' & E & Hok' & Hmax & _).
  { eapply eng_ok_ext; [..|exact Hok]; done. }
  rewrite E. simpl. destruct (0 <? _); (eexists _, _; split_and!; [done| |done]); [|done].
  eapply eng_ok_ext; [..|exact Hok']; done.
Qed.

(* ------------------------------------------------------------------ *)
(** ** Sequences of operations *)

Inductive engine_op : Type :=
| ELookup (d : Digest) (req : option HeaderMap) (now : VtimReal)
| EEvaluate (oc : ObjCore) (now : VtimReal)
| EInsert (d : Digest) (body : bytes) (info : TtlInfo) (vary : option bytes) (now : VtimReal)
| ERemove (d : Digest)
| EPurge (d : Digest)
| EBan (expression : bytes) (now : VtimReal)
| EExpire (now : VtimReal).

Definition engine_exec (o : engine_op) (e : CacheEngine) : option CacheEngine :=
  match o with
  | ELookup d req now => snd <$> CacheEngine_lookup d req now e
  | EEvaluate oc now => Some (snd (CacheEngine_evaluate oc now e))
  | EInsert d body info vary now => snd <$> CacheEngine_insert d body info vary now e
  | ERemove d => snd <$> CacheEngine_remove d e
  | EPurge d => CacheEngine_purge d e
  | EBan expression now => Some (snd (CacheEngine_ban expression now e))
  | EExpire now => snd <$> CacheEngine_expire_objects now e
  end.

Fixpoint engine_run (ops : list engine_op) (e : CacheEngine) : option CacheEngine :=
  match ops with
  | [] => Some e
  | o :: ops => e ← engine_exec o e; engine_run ops e
  end.

Lemma engine_exec_ok n o e :
  eng_ok n e → n < u64_max →
  ∃ e', engine_exec o e = Some e' ∧ eng_ok (n + 1) e' ∧ eng_max_objects e' = eng_max_objects e.
Proof.
  intros Hok Hn. pose proof (λ e', eng_ok_weaken n (n + 1) e' ltac:(lia)) as Hw.
  destruct o as [d req now|oc now|d body info vary now|d|d|expr now|now]; simpl.
  - destruct (lookup_ok n e d req now Hok Hn) as (e' & -> & ? & _ & ? & _). eauto.
  - eexists. split; [done|]. unfold CacheEngine_evaluate. simpl. split; [|by case_match].
    apply Hw. eapply eng_ok_ext; [..|exact Hok]; by case_match.
  - destruct (insert_ok n e d body info vary now Hok Hn) as (r & e' & -> & ? & ? & _). eauto.
  - destruct (remove_ok n e d Hok) as (c & e' & -> & ? & ? & _). eauto.
  - destruct (purge_ok n e d Hok) as (e' & -> & ? & ? & _). eauto.
  - eexists. split; [done|]. unfold CacheEngine_ban. destruct (BanList_add_ban _ _ _) as [[u|err] b];
      (split; [|done]); apply Hw; (eapply eng_ok_ext; [..|exact Hok]; done).
  - destruct (expire_objects_ok n e now Hok) as (c & e' & -> & ? & ?). eauto.
Qed.

Lemma engine_run_ok ops : ∀ n e,
  eng_ok n e → n + Z.of_nat (length ops) ≤ u64_max →
  ∃ e', engine_run ops e = Some e' ∧ eng_ok (n + Z.of_nat (length ops)) e'
    ∧ eng_max_objects e' = eng_max_objects e.
Proof.
  induction ops as [|o ops IH]; intros n e Hok Hlen; cbn [length] in Hlen.
  - exists e. split_and!; [done| |done]. simpl. by rewrite Z.add_0_r.
  - destruct (engine_exec_ok n o e Hok ltac:(lia)) as (e1 & E1 & Hok1 & Hm1). simpl. rewrite E1. simpl.
    destruct (IH (n + 1) e1 Hok1 ltac:(lia)) as (e2 & E2 & Hok2 & Hm2).
    exists e2. split_and!; [done| |congruence].
    eapply eng_ok_weaken; [|exact Hok2]. lia.
Qed.

Lemma eng_ok_new config hash storage log max cap :
  0 < cap → RingBuffer_new cap = Some log →
  eng_ok 0 (CacheEngine_with_max_objects config hash storage log max).
Proof.
  intros Hcap Hlog. split_and!; simpl.
  - exists []. split_and!; [apply lru_repr_new|simpl; lia|]. intros d. rewrite lookup_empty. simpl.
    split; [by intros ?%elem_of_nil|by intros []].
  - apply map_Forall_empty.
  - destruct (ring_repr_new cap Hcap) as (b & Hb & Hr). rewrite Hlog in Hb. simplify_eq.
    exists cap, []. done.
  - unfold capacity_ok. rewrite map_size_empty. lia.
Qed.

(* ------------------------------------------------------------------ *)
(** ** Theorems *)

(** C1. The engine is safe and bounded: every sequence of operations from a new
    engine runs to its end (no undefined behaviour in the tracker, no panic, the
    eviction loop terminates), never holds more digests than [max_objects] (or
    one), and keeps the tracker and the object map in step, with every variant
    filed under its own digest and no empty variant list. *)
Theorem engine_invariant config hash storage cap log max ops :
  0 < cap → RingBuffer_new cap = Some log → Z.of_nat (length ops) ≤ u64_max →
  ∃ e, engine_run ops (CacheEngine_with_max_objects config hash storage log max) = Some e
    ∧ Z.of_nat (size (eng_objects e)) ≤ Z.max 1 max
    ∧ ShardedLru_len (eng_lru e) = Z.of_nat (size (eng_objects e))
    ∧ map_Forall (λ d vs, vs ≠ [] ∧ Forall (λ oc, oc_digest oc = d) vs) (eng_objects e).
Proof.
  intros Hcap Hlog Hlen.
  destruct (engine_run_ok ops 0 _ (eng_ok_new config hash storage log max cap Hcap Hlog) Hlen)
    as (e & E & (Hl & Hv & _ & Hc) & Hm).
  exists e. unfold capacity_ok in Hc. rewrite Hm in Hc. split_and!; [done..|by eapply lru_ok_len|].
  intros d vs Hd. destruct (Hv d vs Hd) as [? HF]. split; [done|].
  eapply Forall_impl; [exact HF|]. by intros oc [? _].
Qed.

(** An engine reached from a new one, with room for another operation. *)
Definition reachable (e : CacheEngine) : Prop :=
  ∃ config hash storage cap log max ops,
    0 < cap ∧ RingBuffer_new cap = Some log ∧ Z.of_nat (length ops) < u64_max - 1
    ∧ engine_run ops (CacheEngine_with_max_objects config hash storage log max) = Some e.

Lemma reachable_ok e : reachable e → ∃ n, eng_ok n e ∧ n < u64_max - 1.
Proof.
  intros (config & hash & storage & cap & log & max & ops & Hcap & Hlog & Hlen & E).
  destruct (engine_run_ok ops 0 _ (eng_ok_new config hash storage log max cap Hcap Hlog) ltac:(lia))
    as (e' & E' & Hok & _). rewrite E in E'. simplify_eq. exists (0 + Z.of_nat (length ops)).
  split; [done|lia].
Qed.

(** What a lookup result promises about the object it carries. *)
Definition result_sound (req : option HeaderMap) (now : VtimReal) (cells : oc_store)
    (variants : list ObjCore) (r : CacheLookupResult) : Prop :=
  match r with
  | Hit oc => oc ∈ variants ∧ applies req oc = true ∧ servable oc cells ∧ is_expired oc now = false
  | Grace oc =>
      oc ∈ variants ∧ applies req oc = true ∧ servable oc cells ∧ is_expired oc now = true
      ∧ VtimDur_is_positive (remaining_grace oc now) = true
      ∧ ∀ oc', oc' ∈ variants → applies req oc' = true → evaluate_object oc' now cells ≠ Hit oc'
  | Miss => ∀ oc, oc ∈ variants → applies req oc = true →
      evaluate_object oc now cells ≠ Hit oc ∧ evaluate_object oc now cells ≠ Grace oc
  | HitForPass | Busy => False
  end.

Lemma select_variant_sound req now cells vs :
  result_sound req now cells vs (select_variant req now cells vs).
Proof.
  unfold select_variant, result_sound.
  assert (Hin : ∀ oc, oc ∈ List.filter (applies req) vs ↔ oc ∈ vs ∧ applies req oc = true).
  { intros oc. rewrite !list_elem_of_In. apply filter_In. }
  destruct (List.find (is_fresh now cells) _) as [oc|] eqn:Ef.
  - apply find_some in Ef as [Hoc Hf]. apply list_elem_of_In, Hin in Hoc as [? ?].
    unfold is_fresh in Hf. destruct (evaluate_object oc now cells) eqn:E; try done.
    by apply evaluate_hit in E as (_ & ? & ?).
  - assert (Hnf : ∀ oc, oc ∈ vs → applies req oc = true → evaluate_object oc now cells ≠ Hit oc).
    { intros oc Hoc Ha E. assert (Hc : In oc (List.filter (applies req) vs))
        by by apply list_elem_of_In, Hin.
      pose proof (find_none _ _ Ef oc Hc) as Hn. unfold is_fresh in Hn. by rewrite E in Hn. }
    destruct (List.find (is_graced now cells) _) as [oc|] eqn:Eg.
    + apply find_some in Eg as [Hoc Hg]. apply list_elem_of_In, Hin in Hoc as [? ?].
      unfold is_graced in Hg. destruct (evaluate_object oc now cells) eqn:E; try done.
      apply evaluate_grace in E as (_ & ? & ? & ?). by split_and!.
    + intros oc Hoc Ha. split; [by apply Hnf|]. intros E.
      assert (Hc : In oc (List.filter (applies req) vs)) by by apply list_elem_of_In, Hin.
      pose proof (find_none _ _ Eg oc Hc) as Hn. unfold is_graced in Hn. by rewrite E in Hn.
Qed.

(** C6. Lookup is exact: the one-pass scan returns the first fresh variant that
    applies to the request, else the first one in its grace period, else a miss;
    a hit is always servable, unexpired and of a matching Vary, a grace result is
    given only when nothing fresh applies.  The map is changed only by a miss,
    and then the digest is dropped with all its variants, those of other
    requests included. *)
Theorem lookup_reference e d req now :
  reachable e →
  let variants := default [] (eng_objects e !! d) in
  let r := select_variant req now (eng_cells e) variants in
  ∃ e', CacheEngine_lookup d req now e = Some (r, e')
    ∧ result_sound req now (eng_cells e) variants r
    ∧ eng_objects e' = if decide (r = Miss) then delete d (eng_objects e) else eng_objects e.
Proof.
  intros (n & Hok & Hn)%reachable_ok variants r.
  destruct (lookup_ok n e d req now Hok ltac:(lia)) as (e' & E & _ & _ & _ & Hobj).
  exists e'. split; [|split; [apply select_variant_sound|]].
  - rewrite E. unfold r, variants. by destruct (eng_objects e !! d).
  - rewrite Hobj. unfold r, variants. destruct (eng_objects e !! d) eqn:Hd; [done|].
    simpl. by rewrite delete_id.
Qed.

Lemma flags_after_store oc body cells :
  oc_flags (cell oc (store_body oc body cells)) = oc_flags (cell oc cells).
Proof. unfold store_body, set_cell, cell at 1. by rewrite lookup_insert_eq. Qed.

(** The digest has this one object, which can be served, with this body. *)
Definition held (d : Digest) (oc : ObjCore) (body : bytes) (e : CacheEngine) : Prop :=
  eng_objects e !! d = Some [oc] ∧ servable oc (eng_cells e)
  ∧ get_body oc (eng_cells e) = (if decide (body = []) then None else Some body).

(** An object stored under a new digest is held. *)
Lemma insert_held n e d body info vary now oc e1 :
  eng_ok n e → n < u64_max → eng_objects e !! d = None →
  CacheEngine_insert d body info vary now e = Some (Ok oc, e1) →
  eng_ok (n + 1) e1 ∧ held d oc body e1.
Proof.
  intros Hok Hn Hd Hins.
  destruct (insert_ok n e d body info vary now Hok ltac:(lia)) as (r & e' & E & Hok1 & _ & Hr).
  rewrite E in Hins. simplify_eq.
  destruct (Hr oc eq_refl) as (Hoc & (objs & Hsub & Hobj) & Hcells).
  assert (Hod : objs !! d = None).
  { destruct (objs !! d) as [vs|] eqn:E1; [|done].
    by rewrite (lookup_weaken _ _ _ _ E1 Hsub) in Hd. }
  rewrite Hod in Hobj. simpl in Hobj.
  assert (Haddr : oc_addr oc = eng_next e) by (rewrite Hoc; apply built_object_fields).
  assert (Hcell : cell oc (<[eng_next e := OcCell_new]> (eng_cells e)) = OcCell_new).
  { unfold cell. by rewrite Haddr, lookup_insert_eq. }
  split; [done|]. split_and!; [by rewrite Hobj, lookup_insert_eq|unfold servable; by rewrite Hcells, flags_after_store, Hcell|].
  rewrite Hcells. unfold get_body, store_body, set_cell, cell. rewrite lookup_insert_eq. simpl.
  by destruct body.
Qed.

(** A lookup before it expires hits and changes neither the map nor the bodies. *)
Lemma lookup_held n e d oc body req now :
  eng_ok n e → n < u64_max → held d oc body e → applies req oc = true → is_expired oc now = false →
  ∃ e2, CacheEngine_lookup d req now e = Some (Hit oc, e2) ∧ eng_ok (n + 1) e2 ∧ held d oc body e2
    ∧ eng_objects e2 = eng_objects e.
Proof.
  intros Hok Hn (Hobj & Hserv & Hbody) Happ Hexp.
  assert (Hsel : select_variant req now (eng_cells e) [oc] = Hit oc).
  { unfold select_variant. simpl. rewrite Happ. simpl. unfold is_fresh.
    assert (evaluate_object oc now (eng_cells e) = Hit oc) as ->; [|done].
    apply evaluate_hit. by split_and!. }
  destruct (lookup_ok n e d req now Hok Hn) as (e2 & E2 & Hok2 & Hc2 & _ & Hobj2).
  rewrite Hobj, Hsel in E2, Hobj2. rewrite decide_False in Hobj2 by done.
  exists e2. unfold held. rewrite Hc2, Hobj2. by split_and!.
Qed.

(** C12. Insert, then lookup: an object stored under a digest the cache does not
    hold is what the next lookup returns, for any request its Vary data applies
    to, at any time before it expires; and its body reads back as it was
    stored. *)
Theorem insert_then_lookup e d body info vary req now now' oc e1 :
  reachable e → eng_objects e !! d = None →
  CacheEngine_insert d body info vary now e = Some (Ok oc, e1) →
  applies req oc = true → is_expired oc now' = false →
  ∃ e2, CacheEngine_lookup d req now' e1 = Some (Hit oc, e2)
    ∧ eng_objects e2 !! d = Some [oc]
    ∧ get_body oc (eng_cells e2) = (if decide (body = []) then None else Some body).
Proof.
  intros (n & Hok & Hn)%reachable_ok Hd Hins Happ Hexp.
  destruct (insert_held n e d body info vary now oc e1 Hok ltac:(lia) Hd Hins) as [Hok1 Hh].
  destruct (lookup_held (n + 1) e1 d oc body req now' Hok1 ltac:(lia) Hh Happ Hexp) as (e2 & E & _ & (Ho & _ & Hb) & _).
  by exists e2.
Qed.

(* ------------------------------------------------------------------ *)
(** ** Expiry by deadlines *)

(** The objects in the expiry queue. *)
Definition queued (e : CacheEngine) : list ObjCore := objcore <$> entries (eng_expiry e).

(** Objects are queued for their deadlines, and every object in the map is queued. *)
Definition queue_ok (e : CacheEngine) : Prop :=
  length (eng_expiry e) = N_EXPIRY_SHARDS
  ∧ Forall (λ en, when en = deadline (objcore en)) (entries (eng_expiry e))
  ∧ ∀ d vs oc, eng_objects e !! d = Some vs → oc ∈ vs → oc ∈ queued e.

Lemma queue_ok_shrink e e' :
  eng_expiry e' = eng_expiry e → eng_objects e' ⊆ eng_objects e → queue_ok e → queue_ok e'.
Proof.
  intros Hx Ho (Hl & Hw & Hq). unfold queue_ok, queued. rewrite Hx. split_and!; [done..|].
  intros d vs oc Hd Hin. eapply Hq; [by eapply lookup_weaken|done].
Qed.

Lemma lookup_queue d req now e r e' :
  CacheEngine_lookup d req now e = Some (r, e') → queue_ok e → queue_ok e'.
Proof.
  unfold CacheEngine_lookup. destruct (eng_objects e !! d) as [vs|]; [|intros [= _ <-]; by apply queue_ok_shrink].
  destruct (scan_variants _ _ _ _ _) as [[[oc|] g]|]; simpl; [| |done].
  - destruct (ShardedLru_touch _ _); simpl; [|done]. intros [= _ <-]. by apply queue_ok_shrink.
  - destruct g as [oc|]; [destruct (ShardedLru_touch _ _)|destruct (ShardedLru_remove _ _)]; simpl; try done; intros [= _ <-];
      apply queue_ok_shrink; try done. simpl. apply delete_subseteq.
Qed.

Lemma enforce_queue fuel : ∀ e e', enforce_loop fuel e = Some e' → eng_expiry e' = eng_expiry e ∧ eng_objects e' ⊆ eng_objects e.
Proof.
  induction fuel as [|fuel IH]; intros e e'; [done|]. cbn [enforce_loop]. destruct (_ <=? _); [|by intros [= <-]].
  destruct (ShardedLru_evict_oldest _) as [[[victim|] lru]|]; simpl; [|by intros [= <-]|done].
  destruct (eng_objects e !! victim); intros [Hx Ho]%IH; simpl in *; (split; [done|]); [|done].
  etrans; [exact Ho|]. apply delete_subseteq.
Qed.

Lemma insert_queue d body info vary now e r e' :
  CacheEngine_insert d body info vary now e = Some (r, e') → queue_ok e → queue_ok e'.
Proof.
  unfold CacheEngine_insert, CacheEngine_enforce_capacity. destruct (enforce_loop _ e) as [e1|] eqn:E; [|done].
  intros H Hq. apply enforce_queue in E as [Hx Ho]. apply (queue_ok_shrink e e1 Hx Ho) in Hq. clear Hx Ho.
  revert H. simpl. destruct (sv_alloc_obj d _ _) as [[u|err] s1]; [|intros [= <- <-]; by apply (queue_ok_shrink e1)].
  destruct (sv_extend d body s1) as [[u'|err] s2]; [|intros [= <- <-]; by apply (queue_ok_shrink e1)].
  destruct (ShardedLru_insert d _) as [lru|]; simpl; [|done]. destruct (LogWriter_log _ _ _ _ _) as [log|]; simpl; [|done].
  set (oc := match vary with Some data => _ | None => _ end). intros [= <- <-]. destruct Hq as (Hl & Hw & Hq).
  assert (Hp : entries (ExpiryManager_insert oc (eng_expiry e1)) ≡ₚ mkExpiryEntry (deadline oc) oc :: entries (eng_expiry e1))
    by (by apply entries_insert_at).
  split_and!; simpl.
  - exact (eq_trans (length_alter _ _ _) Hl).
  - rewrite Hp. by constructor.
  - intros d' vs oc' Hd Hin. unfold queued. simpl. rewrite Hp. simpl. apply elem_of_cons.
    destruct (decide (d' = d)) as [->|Hne]; [|rewrite lookup_insert_ne in Hd by done; right; by eapply Hq].
    rewrite lookup_insert_eq in Hd. injection Hd as <-. apply elem_of_app in Hin as [Hin|Hin].
    + right. destruct (eng_objects e1 !! d) as [vs|] eqn:Ed; [by eapply Hq|by apply not_elem_of_nil in Hin].
    + left. by apply list_elem_of_singleton in Hin.
Qed.

Lemma expire_each_queue expired : ∀ e e', expire_each expired e = Some e' → eng_expiry e' = eng_expiry e.
Proof.
  induction expired as [|oc expired IH]; intros e e'; cbn [expire_each]; [by intros [= <-]|].
  destruct (ShardedLru_remove _ _) as [lru|]; simpl; [|done]. by intros ->%IH.
Qed.

(** A cycle takes the digests of what left the queue out of the map. *)
Lemma expire_queue n now e count e' :
  eng_ok n e → CacheEngine_expire_objects now e = Some (count, e') → queue_ok e → queue_ok e'.
Proof.
  intros Hok H (Hl & Hw & Hq). unfold CacheEngine_expire_objects in H.
  pose proof (expire_loop_perm now (eng_expiry e) []) as Hp. unfold ExpiryManager_expire in H.
  destruct (expire_loop now (eng_expiry e) []) as [expired expiry]. destruct Hp as (Hlen & gone & -> & Hp). cbn [app] in H.
  destruct (expire_each_ok n (objcore <$> gone) (eng_with_expiry expiry e)) as (e1 & E & _ & _ & Hobj).
  { eapply eng_ok_ext; [..|exact Hok]; done. }
  rewrite E in H. apply expire_each_queue in E. simpl in E, Hobj.
  assert (queue_ok e1) as Hq1; [|revert H; simpl; destruct (0 <? _); intros [= _ <-]; [|done]; by apply (queue_ok_shrink e1)].
  unfold queue_ok, queued. rewrite E. split_and!; [by rewrite Hlen|rewrite <-Hp, Forall_app in Hw; tauto|].
  intros d vs oc Hd Hin. rewrite Hobj in Hd. case_bool_decide as Hg; [done|].
  pose proof (Hq d vs oc Hd Hin) as Hqoc. unfold queued in Hqoc. rewrite <-Hp, fmap_app in Hqoc.
  apply elem_of_app in Hqoc as [Hqoc|]; [|done]. destruct Hg.
  destruct Hok as (_ & Hv & _). destruct (Hv d vs Hd) as [_ HF]. rewrite Forall_forall in HF.
  destruct (HF oc Hin) as [<- _]. by apply list_elem_of_fmap_2.
Qed.

Lemma exec_queue n o e e' : eng_ok n e → engine_exec o e = Some e' → queue_ok e → queue_ok e'.
Proof.
  intros Hok. destruct o as [d req now|oc now|d body info vary now|d|d|ex now|now]; cbn [engine_exec].
  - destruct (CacheEngine_lookup _ _ _ _) as [[r c]|] eqn:E; simpl; [|done]. intros [= <-]. by eapply lookup_queue.
  - intros [= <-]. apply queue_ok_shrink; unfold CacheEngine_evaluate; by repeat case_match.
  - destruct (CacheEngine_insert _ _ _ _ _ _) as [[r c]|] eqn:E; simpl; [|done]. intros [= <-]. by eapply insert_queue.
  - destruct (CacheEngine_remove d e) as [[r c]|] eqn:E; simpl; [|done]. intros [= <-]. revert E.
    unfold CacheEngine_remove. simpl. destruct (ShardedLru_remove _ _); simpl; [|done]. destruct (0 <? _);
      intros [= _ <-]; apply queue_ok_shrink; simpl; repeat case_match; try done; apply delete_subseteq.
  - unfold CacheEngine_purge. simpl. destruct (hs_lookup _ _ _) as [[oh u] h]. destruct (hs_deref oh h) as [b h']. simpl.
    destruct (ShardedLru_remove _ _); simpl; [|done]. intros [= <-]. apply queue_ok_shrink; [done|]. simpl. apply delete_subseteq.
  - intros [= <-]. apply queue_ok_shrink; unfold CacheEngine_ban; by repeat case_match.
  - destruct (CacheEngine_expire_objects now e) as [[c e1]|] eqn:E; simpl; [|done]. intros [= <-]. by eapply expire_queue.
Qed.

Lemma run_queue ops : ∀ n e e',
  eng_ok n e → n + Z.of_nat (length ops) ≤ u64_max → engine_run ops e = Some e' → queue_ok e → queue_ok e'.
Proof.
  induction ops as [|o ops IH]; intros n e e' Hok Hn; cbn [engine_run]; [by intros [= <-]|]. cbn [length] in Hn.
  destruct (engine_exec_ok n o e Hok ltac:(lia)) as (e1 & E & Hok1 & _). rewrite E. simpl. intros H Hq.
  exact (IH (n + 1) e1 e' Hok1 ltac:(lia) H (exec_queue n o e e1 Hok E Hq)).
Qed.

Lemma reachable_queue e : reachable e → queue_ok e.
Proof.
  intros (config & hash & storage & cap & log & max & ops & Hc & Hl & Hn & E).
  eapply (run_queue ops 0); [by eapply eng_ok_new|lia|exact E|]. split_and!; [done|constructor|]. intros d vs oc. simpl.
  by rewrite lookup_empty.
Qed.

(** In the queue, being due is having passed the deadline. *)
Lemma due_past now (l : list ExpiryEntry) (keep : bool → bool) :
  ¬ is_nan now → Forall (λ en, when en = deadline (objcore en)) l → no_nan l →
  objcore <$> List.filter (λ en, keep (due now en)) l = List.filter (λ oc, keep (f64_le (deadline oc) now)) (objcore <$> l).
Proof.
  intros Hnow HF Hn. induction l as [|en l IH]; [done|]. apply Forall_cons in HF as [Hw HF]. apply Forall_cons in Hn as [Hne Hn].
  cbn. assert (due now en = f64_le (deadline (objcore en)) now) as -> by (rewrite <-Hw, f64_le_not_lt by done; done).
  destruct (keep _); cbn; by rewrite <-IH.
Qed.

(** C29. An expiry cycle goes by the deadlines.  The deadline of an object is its origin
    plus its time to live, grace and keep.  In every cache the engine's operations
    reach, when no deadline and not the clock is NaN, a cycle reports the number of
    queued objects whose deadline is not after [now], takes exactly them out of the
    queue, and drops exactly their digests from the map: such a digest with all its
    variants, the unexpired ones and later replacements included, every other one not
    at all.  Afterwards no object in the map is past its deadline. *)
Theorem expire_objects_exact e now :
  reachable e → Forall (λ oc, ¬ is_nan (deadline oc)) (queued e) → ¬ is_nan now →
  let past oc := f64_le (deadline oc) now in
  ∃ e', CacheEngine_expire_objects now e = Some (Z.of_nat (length (List.filter past (queued e))), e')
    ∧ queued e' ≡ₚ List.filter (λ oc, negb (past oc)) (queued e)
    ∧ (∀ d, eng_objects e' !! d
        = if bool_decide (d ∈ oc_digest <$> List.filter past (queued e)) then None else eng_objects e !! d)
    ∧ ∀ d vs oc, eng_objects e' !! d = Some vs → oc ∈ vs → past oc = false.
Proof.
  intros Hr Hnan Hnow past. destruct (reachable_queue e Hr) as (_ & Hw & Hq0). destruct (reachable_ok e Hr) as (n & Hok & _).
  assert (Hn : no_nan (entries (eng_expiry e))).
  { unfold queued in Hnan. rewrite Forall_fmap in Hnan. unfold no_nan. rewrite Forall_forall in *. intros en Hen.
    rewrite (Hw en Hen). by apply Hnan. }
  pose proof (expire_exact now (eng_expiry e) Hn) as Hx.
  assert (Hq : ∀ count e', CacheEngine_expire_objects now e = Some (count, e') → queue_ok e')
    by (intros ? ? E; eapply expire_queue; [done..|by apply reachable_queue]).
  unfold CacheEngine_expire_objects in *. destruct (ExpiryManager_expire now (eng_expiry e)) as [out expiry]. destruct Hx as [Hout Hrest].
  rewrite (due_past now _ id Hnow Hw Hn : objcore <$> List.filter (due now) (entries (eng_expiry e)) = List.filter past (queued e)) in Hout.
  destruct (expire_each_ok n out (eng_with_expiry expiry e)) as (e1 & E & _ & _ & Hobj); [eapply eng_ok_ext; [..|exact Hok]; done|].
  rewrite E in *. cbn [mbind option_bind] in *. apply expire_each_queue in E. simpl in E, Hobj. rewrite (Permutation_length Hout) in *.
  assert (Hq' : queued e1 ≡ₚ List.filter (λ oc, negb (past oc)) (queued e)).
  { unfold queued at 1. rewrite E, Hrest. by rewrite (due_past now _ negb Hnow Hw Hn). }
  assert (Hd : ∀ d, eng_objects e1 !! d = if bool_decide (d ∈ oc_digest <$> List.filter past (queued e)) then None else eng_objects e !! d).
  { intros d. rewrite Hobj. do 2 case_bool_decide; try done; by rewrite Hout in *. }
  assert (Hp : ∀ d vs oc, eng_objects e1 !! d = Some vs → oc ∈ vs → past oc = false).
  { intros d vs oc Hl Hin. assert (oc ∈ queued e1) as H.
    { revert Hq. case_if; intros Hq; [|by eapply (proj2 (proj2 (Hq _ _ eq_refl)))].
      by eapply (proj2 (proj2 (Hq _ _ eq_refl)) d vs oc). }
    rewrite Hq' in H. apply list_elem_of_In, List.filter_In in H as [_ H]. by apply negb_true_iff. }
  case_if; eexists; (split; [done|]); by split_and!.
Qed.

(* ------------------------------------------------------------------ *)
(** ** Bans and lookups *)

(** Forget the ban list and the count of bans. *)
Definition forget_stats (s : CacheStats) : CacheStats :=
  let '(mkCacheStats h m p hfp g bf ev ba bc no ne np bs) := s in
  mkCacheStats h m p hfp g bf ev 0 bc no ne np bs.

Definition forget_bans (e : CacheEngine) : CacheEngine :=
  eng_with_stats forget_stats (eng_with_bans [] e).

Lemma forget_fetch_add c n s :
  c ≠ CBansAdded → forget_stats (fetch_add c n s) = fetch_add c n (forget_stats s).
Proof. by destruct s, c. Qed.

Lemma forget_enforce fuel : ∀ e,
  enforce_loop fuel (forget_bans e) = forget_bans <$> enforce_loop fuel e.
Proof.
  induction fuel as [|fuel IH]; intros e; [done|]. cbn [enforce_loop].
  cbn [forget_bans eng_with_stats eng_with_bans eng_max_objects eng_lru eng_objects eng_storage].
  destruct (_ <=? _); [|done]. destruct (ShardedLru_evict_oldest _) as [[[victim|] lru]|]; [|done..].
  simpl. destruct (eng_objects e !! victim) as [vs|]; rewrite <-IH; [|done].
  f_equal. unfold forget_bans, eng_with_stats, eng_with_bans. simpl. f_equal.
  by rewrite forget_fetch_add.
Qed.

Lemma forget_expire_each l : ∀ e,
  expire_each l (forget_bans e) = forget_bans <$> expire_each l e.
Proof.
  induction l as [|oc l IH]; intros e; [done|]. cbn [expire_each].
  cbn [forget_bans eng_with_stats eng_with_bans eng_lru].
  destruct (ShardedLru_remove _ _) as [lru|]; [|done]. simpl. by rewrite <-IH.
Qed.

(** Engines that differ in their bans only are equal once these are forgotten. *)
Ltac forget_eq :=
  unfold forget_bans, eng_with_stats, eng_with_bans; simpl; rewrite ?forget_fetch_add by done;
  reflexivity.

Lemma forget_lookup e d req now :
  CacheEngine_lookup d req now (forget_bans e)
    = (λ '(r, e), (r, forget_bans e)) <$> CacheEngine_lookup d req now e.
Proof.
  unfold CacheEngine_lookup. cbn [forget_bans eng_with_stats eng_with_bans eng_objects eng_cells eng_lru].
  destruct (eng_objects e !! d) as [vs|]; [|simpl; do 2 f_equal; forget_eq].
  destruct (scan_variants _ _ _ _ _) as [[[hit|] [g|]]|]; simpl; try done;
    (destruct (ShardedLru_touch _ _) || destruct (ShardedLru_remove _ _)); simpl; try done;
    do 2 f_equal; forget_eq.
Qed.

Lemma forget_insert e d body info vary now :
  snd <$> CacheEngine_insert d body info vary now (forget_bans e)
    = forget_bans <$> (snd <$> CacheEngine_insert d body info vary now e).
Proof.
  unfold CacheEngine_insert, CacheEngine_enforce_capacity. rewrite forget_enforce.
  change (eng_lru (forget_bans e)) with (eng_lru e).
  destruct (enforce_loop _ e) as [e1|]; [|done]. simpl.
  destruct (sv_alloc_obj _ _ _) as [[u|err] s1]; [|done].
  destruct (sv_extend _ _ _) as [[u'|err] s2]; [|done].
  destruct (ShardedLru_insert _ _) as [lru|]; [|done]. simpl.
  destruct (LogWriter_log _ _ _ _ _) as [log|]; [|done]. simpl. f_equal. forget_eq.
Qed.

Lemma forget_exec o e :
  match o with EBan _ _ => False | _ => True end →
  engine_exec o (forget_bans e) = forget_bans <$> engine_exec o e.
Proof.
  intros Hb. destruct o as [d req now|oc now|d body info vary now|d|d|expr now|now]; simpl; try done.
  - rewrite forget_lookup. by destruct (CacheEngine_lookup _ _ _ _) as [[]|].
  - f_equal. unfold CacheEngine_evaluate. simpl. destruct (evaluate_object _ _ _); try done; forget_eq.
  - apply forget_insert.
  - unfold CacheEngine_remove. simpl. destruct (ShardedLru_remove _ _) as [lru|]; [|done]. simpl.
    destruct (0 <? _); [|done]. simpl. f_equal. destruct (eng_objects e !! d); forget_eq.
  - unfold CacheEngine_purge. simpl. destruct (hs_lookup _ _ _) as [[oh u] h].
    destruct (hs_deref oh h) as [b h']. simpl. destruct (ShardedLru_remove _ _) as [lru|]; [|done].
    simpl. f_equal. forget_eq.
  - unfold CacheEngine_expire_objects. change (eng_expiry (forget_bans e)) with (eng_expiry e).
    destruct (ExpiryManager_expire now (eng_expiry e)) as [l x].
    change (eng_with_expiry x (forget_bans e)) with (forget_bans (eng_with_expiry x e)).
    rewrite forget_expire_each. destruct (expire_each l (eng_with_expiry x e)) as [e'|]; [|done]. simpl.
    destruct (0 <? _); [|done]. simpl. f_equal. forget_eq.
Qed.

Lemma forget_ban expr now e : forget_bans (snd (CacheEngine_ban expr now e)) = forget_bans e.
Proof.
  unfold CacheEngine_ban. destruct (BanList_add_ban _ _ _) as [[u|err] b]; [|done].
  unfold forget_bans, eng_with_stats, eng_with_bans. simpl. f_equal. by destruct (eng_stats e).
Qed.

Definition is_ban (o : engine_op) : bool := match o with EBan _ _ => true | _ => false end.

Lemma forget_run ops : ∀ e e',
  forget_bans e = forget_bans e' →
  forget_bans <$> engine_run ops e
    = forget_bans <$> engine_run (List.filter (λ o, negb (is_ban o)) ops) e'.
Proof.
  induction ops as [|o ops IH]; intros e e' He; simpl; [by rewrite He|].
  destruct (is_ban o) eqn:Hb; simpl.
  - destruct o as [ | | | | |expr now| ]; try done. simpl. apply IH. by rewrite forget_ban.
  - assert (Ho : match o with EBan _ _ => False | _ => True end) by by destruct o.
    pose proof (forget_exec o e Ho) as H1. rewrite He, (forget_exec o e' Ho) in H1.
    destruct (engine_exec o e) as [e1|], (engine_exec o e') as [e1'|]; simpl in H1 |- *;
      [|discriminate H1..|done].
    apply (inj Some) in H1. by apply IH.
Qed.

(** Bans have no effect on what the cache serves: whatever bans are added
    along the way, every lookup gives the result it would give had no ban ever
    been added; nothing consults the list. *)
Theorem bans_never_consulted ops e d req now :
  fst <$> (engine_run ops e ≫= CacheEngine_lookup d req now)
    = fst <$> (engine_run (List.filter (λ o, negb (is_ban o)) ops) e ≫= CacheEngine_lookup d req now).
Proof.
  pose proof (forget_run ops e e eq_refl) as Hf.
  assert (Hl : ∀ e1 e2, forget_bans e1 = forget_bans e2 →
    fst <$> CacheEngine_lookup d req now e1 = fst <$> CacheEngine_lookup d req now e2).
  { intros e1 e2 He. pose proof (forget_lookup e1 d req now) as H1. rewrite He, forget_lookup in H1.
    destruct (CacheEngine_lookup d req now e1) as [[r1 ?]|],
      (CacheEngine_lookup d req now e2) as [[r2 ?]|]; simpl in *; by simplify_eq. }
  destruct (engine_run ops e) as [e1|], (engine_run _ e) as [e2|]; simpl in Hf |- *;
    [|discriminate Hf..|done].
  apply (inj Some) in Hf. by apply Hl.
Qed.

End engine.

(* ------------------------------------------------------------------ *)
(** ** A concrete engine *)

(** The simple hash slinger, the malloc stevedore with 56 bytes of overhead per
    object, substring search for regular expressions. *)
Abbreviation sample_t := (@CacheEngine SimpleListHash.entries Malloc.t unit substring_regex).
Definition sample_fmt (_ : nat) (_ : f64) : bytes := [].
Definition sample_log : RingBuffer := mkRingBuffer (replicate 8 None) 0 0 8.
#[local] Instance sample_stevedore : Stevedore Malloc.t := Malloc.stevedore 56.

Definition engine0 : sample_t :=
  CacheEngine_with_max_objects tt (hs_new, ∅) (Malloc.new (str "s0") 10000) sample_log 2.

Definition sample_info (ttl : Z) : TtlInfo := mkTtlInfo (f64_of_Z ttl) (f64_of_Z 10) VtimDur_ZERO.

Abbreviation sample_run := (engine_run (regex := substring_regex) sample_fmt).

(** Two variants of one object (the first short-lived), a second and a third
    object in a cache for two, a ban and a purge. *)
Definition engine_sample : list engine_op :=
  [EInsert (test_digest x01) (str "old") (sample_info 1) None (f64_of_Z 100);
   EInsert (test_digest x01) (str "new") (sample_info 1000) None (f64_of_Z 101);
   EInsert (test_digest x02) (str "b") (sample_info 60) None (f64_of_Z 102);
   ELookup (test_digest x01) None (f64_of_Z 103);
   EBan (str "req.url ~ /") (f64_of_Z 103);
   EInsert (test_digest x03) (str "c") (sample_info 60) None (f64_of_Z 104);
   EPurge (test_digest x03)].

Definition engine1 : sample_t := default engine0 (sample_run engine_sample engine0).

Lemma default_is_Some {A} (x : A) (o : option A) : bool_decide (is_Some o) = true → o = Some (default x o).
Proof. intros [a ->]%bool_decide_eq_true. done. Qed.

Lemma engine1_reachable : reachable sample_fmt engine1.
Proof.
  exists tt, (hs_new, ∅), (Malloc.new (str "s0") 10000), 8, sample_log, 2, engine_sample.
  split_and!; [lia|reflexivity|vm_compute; reflexivity|].
  apply default_is_Some. vm_compute. reflexivity.
Qed.

Lemma engine_invariant_witness :
  ∃ e, sample_run engine_sample engine0 = Some e
    ∧ Z.of_nat (size (eng_objects e)) ≤ Z.max 1 2
    ∧ ShardedLru_len (eng_lru e) = Z.of_nat (size (eng_objects e))
    ∧ map_Forall (λ d vs, vs ≠ [] ∧ Forall (λ oc, oc_digest oc = d) vs) (eng_objects e).
Proof.
  apply (engine_invariant (regex := substring_regex) sample_fmt tt (hs_new, ∅)
           (Malloc.new (str "s0") 10000) 8 sample_log 2 engine_sample);
    [lia|reflexivity|vm_compute; discriminate].
Defined.

Lemma lookup_reference_witness :
  let r := select_variant None (f64_of_Z 200) (eng_cells engine1)
             (default [] (eng_objects engine1 !! test_digest x01)) in
  (match r with Hit oc => get_body oc (eng_cells engine1) | _ => None end) = Some (str "new")
  ∧ ∃ e', CacheEngine_lookup (test_digest x01) None (f64_of_Z 200) engine1 = Some (r, e')
    ∧ result_sound None (f64_of_Z 200) (eng_cells engine1)
        (default [] (eng_objects engine1 !! test_digest x01)) r
    ∧ eng_objects e' = if decide (r = Miss) then delete (test_digest x01) (eng_objects engine1)
                       else eng_objects engine1.
Proof.
  split; [vm_compute; reflexivity|].
  apply (lookup_reference sample_fmt engine1 (test_digest x01) None (f64_of_Z 200)).
  apply engine1_reachable.
Defined.

Definition inserted : option (result ObjCore CacheError * sample_t) :=
  CacheEngine_insert sample_fmt (test_digest x05) (str "hello") (sample_info 60) None (f64_of_Z 110)
    engine1.
Definition inserted_oc : ObjCore :=
  built_object (eng_next engine1) (test_digest x05) (sample_info 60) None (f64_of_Z 110).
Definition engine2 : sample_t := match inserted with Some (_, e) => e | None => engine0 end.

Lemma insert_then_lookup_witness :
  ∃ e2, CacheEngine_lookup (test_digest x05) None (f64_of_Z 120) engine2 = Some (Hit inserted_oc, e2)
    ∧ eng_objects e2 !! test_digest x05 = Some [inserted_oc]
    ∧ get_body inserted_oc (eng_cells e2)
      = if decide (str "hello" = []) then None else Some (str "hello").
Proof.
  apply (insert_then_lookup sample_fmt engine1 (test_digest x05) (str "hello") (sample_info 60) None
           None (f64_of_Z 110) (f64_of_Z 120) inserted_oc engine2).
  - apply engine1_reachable.
  - vm_compute. reflexivity.
  - vm_compute. reflexivity.
  - reflexivity.
  - vm_compute. reflexivity.
Defined.

(** The digest of the expired "old" goes, and the unexpired "new" with it. *)
Lemma expire_objects_exact_witness :
  let past oc := f64_le (deadline oc) (f64_of_Z 150) in
  bool_decide (test_digest x01 ∈ oc_digest <$> List.filter past (queued engine1)) = true
  ∧ ∃ e', CacheEngine_expire_objects (f64_of_Z 150) engine1 = Some (Z.of_nat (length (List.filter past (queued engine1))), e')
    ∧ queued e' ≡ₚ List.filter (λ oc, negb (past oc)) (queued engine1)
    ∧ (∀ d, eng_objects e' !! d
        = if bool_decide (d ∈ oc_digest <$> List.filter past (queued engine1)) then None else eng_objects engine1 !! d)
    ∧ ∀ d vs oc, eng_objects e' !! d = Some vs → oc ∈ vs → past oc = false.
Proof.
  split; [vm_compute; reflexivity|].
  apply (expire_objects_exact sample_fmt engine1 (f64_of_Z 150)); [apply engine1_reachable| |by vm_compute].
  apply (bool_decide_unpack _). vm_compute. exact I.
Defined.
