(* ===== verification/Delivery.v ===== *)
(** * Delivery helpers of the server

    Models the pure helpers of [rv-server/src/runtime.rs] behind the deliver
    state: the server's own conditional-request test, HTTP-date parser and Range
    parser, which do not go through rv-http, and the conversion of VCL actions.
    The theorems compare them with the rv-http versions. *)

From S2P Require Import Prelude RustStr F64 Enums Types HttpTypes Header Range Rfc2616 VclSyntax VclInterp Request.
Local Open Scope Z_scope.

(* ------------------------------------------------------------------ *)
(** ** Signed integers *)

(** Remove a wrap-around whose argument is in range, innermost first. *)
Ltac unwrap :=
  repeat match goal with
  | |- context [i64_wrap ?z] =>
      lazymatch z with
      | context [i64_wrap _] => fail
      | _ => rewrite (i64_wrap_small z) by (unfold i64_max; lia)
      end
  end.

(* ------------------------------------------------------------------ *)
(** ** HTTP dates *)

Definition lower_months : list (bytes * Z) :=
  [(str "jan", 1); (str "feb", 2); (str "mar", 3); (str "apr", 4); (str "may", 5);
   (str "jun", 6); (str "jul", 7); (str "aug", 8); (str "sep", 9); (str "oct", 10);
   (str "nov", 11); (str "dec", 12)].

Definition month_days : list Z := [0; 31; 59; 90; 120; 151; 181; 212; 243; 273; 304; 334].

(** The [i64] arithmetic at the end of the parser; [/] and [%] truncate. *)
Definition total_days (year month day : Z) : Z :=
  let days_from_year :=
    i64_wrap (i64_wrap (i64_wrap (i64_wrap (i64_wrap (year - 1970) * 365)
      + Z.quot (i64_wrap (year - 1969)) 4) - Z.quot (i64_wrap (year - 1901)) 100)
      + Z.quot (i64_wrap (year - 1601)) 400) in
  let is_leap := ((Z.rem year 4 =? 0) && negb (Z.rem year 100 =? 0)) || (Z.rem year 400 =? 0) in
  let leap_add := if is_leap && (2 <? month) then 1 else 0 in
  let before_month := default 0 (month_days !! Z.to_nat (month - 1)) in
  i64_wrap (i64_wrap (i64_wrap (i64_wrap (days_from_year + before_month) + day) - 1) + leap_add).

(** [str::trim_end_matches] with one character. *)
Definition trim_end_matches (c : byte) (s : bytes) : bytes :=
  reverse (strip_while (length s) [[c]] (reverse s)).

Definition server_parse_http_date (s : bytes) : option Z :=
  let s := trim s in
  let parts := split_whitespace s in
  match parts with
  | _ :: day :: month :: year :: time :: _ :: _ =>
      day ← parse_i64 (trim_end_matches x2c day);
      month ← match_str lower_months (to_ascii_lowercase month);
      year ← parse_i64 year;
      match split_char x3a time with
      | [hour; min; sec] =>
          hour ← parse_i64 hour;
          min ← parse_i64 min;
          sec ← parse_i64 sec;
          Some (i64_wrap (i64_wrap (i64_wrap (i64_wrap (total_days year month day * 86400)
                  + i64_wrap (hour * 3600)) + i64_wrap (min * 60)) + sec))
      | _ => None
      end
  | _ => None
  end.

(* ------------------------------------------------------------------ *)
(** ** Conditional requests *)

Definition server_etag_listed (if_none_match etag : bytes) : bool :=
  let if_none_match := trim if_none_match in
  bool_decide (if_none_match = str "*")
  || existsb (λ tag, bool_decide (trim tag = trim etag)) (split_char x2c if_none_match).

Definition server_evaluate_conditional (req response : HttpMessage) : bool :=
  match HttpMessage_get_header req (str "If-None-Match"), HttpMessage_get_header response (str "ETag") with
  | Some if_none_match, Some etag => server_etag_listed if_none_match etag
  | _, _ => false
  end
  || match HttpMessage_get_header req (str "If-Modified-Since"),
           HttpMessage_get_header response (str "Last-Modified") with
     | Some if_modified_since, Some last_modified =>
         match server_parse_http_date if_modified_since, server_parse_http_date last_modified with
         | Some ims_ts, Some lm_ts => lm_ts <=? ims_ts
         | _, _ => false
         end
     | _, _ => false
     end.

(* ------------------------------------------------------------------ *)
(** ** Range headers *)

(** One trimmed part. *)
Definition range_of_part (content_length : Z) (part : bytes) : option (Z * Z) :=
  match strip_prefix [x2d] part with
  | Some suffix =>
      suffix_len ← parse_u64 suffix;
      if (suffix_len =? 0) || (content_length <? suffix_len) then None
      else Some (content_length - suffix_len, content_length - 1)
  | None =>
      '(start_str, end_str) ← split_once [x2d] part;
      start ← parse_u64 start_str;
      match end_str with
      | [] => if content_length <=? start then None else Some (start, content_length - 1)
      | _ =>
          end_ ← parse_u64 end_str;
          if (end_ <? start) || (content_length <=? start) then None
          else Some (start, Z.min end_ (content_length - 1))
      end
  end.

Fixpoint ranges_of_parts (content_length : Z) (parts : list bytes) : option (list (Z * Z)) :=
  match parts with
  | [] => Some []
  | part :: parts =>
      match trim part with
      | [] => None
      | part =>
          range ← range_of_part content_length part;
          ranges ← ranges_of_parts content_length parts;
          Some (range :: ranges)
      end
  end.

Definition parse_range_header (range_value : bytes) (content_length : Z) : option (list (Z * Z)) :=
  let range_value := trim range_value in
  if negb (starts_with (str "bytes=") range_value) then None
  else
    ranges ← ranges_of_parts content_length (split_char x2c (drop 6 range_value));
    match ranges with [] => None | _ => Some ranges end.

(* ------------------------------------------------------------------ *)
(** ** VCL actions *)

Definition convert_action (action : InterpreterAction.t) : VclAction.t :=
  match action with
  | InterpreterAction.Deliver => VclAction.Deliver
  | InterpreterAction.Pass => VclAction.Pass
  | InterpreterAction.Pipe => VclAction.Pipe
  | InterpreterAction.Hash => VclAction.Hash
  | InterpreterAction.Lookup => VclAction.Lookup
  | InterpreterAction.Fetch => VclAction.Fetch
  | InterpreterAction.Synth => VclAction.Synth
  | InterpreterAction.Purge => VclAction.Purge
  | InterpreterAction.Restart => VclAction.Restart
  | InterpreterAction.Retry => VclAction.Retry
  | InterpreterAction.Fail => VclAction.Fail
  | InterpreterAction.Abandon => VclAction.Fail
  | InterpreterAction.Error => VclAction.Fail
  | InterpreterAction.Ok => VclAction.Deliver
  end.

(* ------------------------------------------------------------------ *)
(** ** Ranges: safety and agreement with rv-http *)

Lemma range_of_part_bounds len part s e :
  0 ≤ len → range_of_part len part = Some (s, e) → 0 ≤ s ≤ e ∧ e < len.
Proof.
  intros Hlen. unfold range_of_part. destruct (strip_prefix [x2d] part) as [suffix|].
  - destruct (parse_u64 suffix) as [n|] eqn:En; simpl; [|done]. apply parse_u64_bounded in En.
    case_if; [done|]. bool_to_prop. intros [= <- <-]. lia.
  - destruct (split_once [x2d] part) as [[a b]|]; simpl; [|done].
    destruct (parse_u64 a) as [st|] eqn:Es; simpl; [|done]. apply parse_u64_bounded in Es.
    destruct b as [|c b]; [case_if; [done|]; bool_to_prop; intros [= <- <-]; lia|].
    destruct (parse_u64 (c :: b)) as [en|] eqn:Ee; simpl; [|done]. apply parse_u64_bounded in Ee.
    case_if; [done|]. bool_to_prop. intros [= <- <-]. lia.
Qed.

(** Serving a range cannot panic: every range the server's parser returns lies
    within the body, start not after end. *)
Lemma range_header_in_bounds v len rs :
  0 ≤ len → parse_range_header v len = Some rs →
  rs ≠ [] ∧ Forall (λ p, 0 ≤ p.1 ≤ p.2 ∧ p.2 < len) rs.
Proof.
  intros Hlen. unfold parse_range_header. destruct (negb _); [done|].
  destruct (ranges_of_parts len _) as [l|] eqn:E; simpl; [|done].
  destruct l as [|p l]; [done|]. intros [= <-]. split; [done|].
  revert E. generalize (p :: l) as ranges.
  induction (split_char x2c (drop 6 (trim v))) as [|part parts IH]; intros ranges; simpl.
  - intros [= <-]. constructor.
  - destruct (trim part) as [|c t]; [done|].
    destruct (range_of_part len (c :: t)) as [[s e]|] eqn:Ep; simpl; [|done].
    destruct (ranges_of_parts len parts) as [rest|]; simpl; [|done]. intros [= <-].
    constructor; [by eapply range_of_part_bounds|by apply IH].
Qed.

(** What the server makes of one specification: rv-http's resolution, except that
    a suffix longer than the body is refused. *)
Definition server_resolve (len : Z) (r : RangeSpec) : option (Z * Z) :=
  match r with
  | mkRangeSpec None (Some n) => if len <? n then None else
      match RangeSpec_resolve r len with Ok p => Some p | Err _ => None end
  | _ => match RangeSpec_resolve r len with Ok p => Some p | Err _ => None end
  end.

Lemma range_of_printed r len :
  range_wf r → 0 < len ≤ u64_max → range_of_part len (print_range r) = server_resolve len r.
Proof.
  intros Hwf Hlen. unfold range_of_part, print_range, range_wf, server_resolve, RangeSpec_resolve in *.
  destruct r as [[s|] [e|]]; simpl in *; [| | |done].
  - destruct Hwf. rewrite strip_prefix_dash_digits by done.
    rewrite split_once_byte_Some by by apply show_u64_notin.
    simpl. rewrite (parse_show_u64 e), (parse_show_u64 s) by done. simpl.
    destruct (show_u64_cons e) as (c & t & ->). rewrite u64_wrap_small by lia. by destruct (_ || _).
  - rewrite strip_prefix_dash_digits by done.
    rewrite split_once_byte_Some by by apply show_u64_notin.
    simpl. rewrite parse_show_u64 by done. simpl. rewrite u64_wrap_small by lia. by destruct (_ <=? _).
  - rewrite parse_show_u64 by done. simpl. rewrite u64_wrap_small by lia. unfold saturating_sub.
    destruct (Z.eqb_spec e 0) as [->|]; simpl; [by rewrite (proj2 (Z.ltb_ge len 0)) by lia|].
    destruct (Z.ltb_spec len e); [done|]. by rewrite Z.max_r by lia.
Qed.

(** The server's Range parser agrees with rv-http's on well-formed headers:
    it accepts a printed list of specifications exactly when rv-http resolves
    each of them on a non-empty body, and to the same ranges, but for suffixes
    longer than the body, for which rv-http selects the whole body, as RFC 7233
    asks, while the server answers 416. *)
Theorem range_header_agrees rs len :
  rs ≠ [] → Forall range_wf rs → 0 < len ≤ u64_max →
  parse_range_header (print_ranges rs) len = mapM (server_resolve len) rs.
Proof.
  intros Hne Hwf Hlen. unfold parse_range_header, print_ranges.
  rewrite trim_graphic.
  2: { apply Forall_app. split; [apply (bool_decide_unpack _); by vm_compute|].
       apply Forall_join; [apply (bool_decide_unpack _); by vm_compute|].
       apply Forall_fmap. eapply Forall_impl; [done|apply print_range_graphic]. }
  unfold starts_with. rewrite strip_prefix_app, bool_decide_true by by eexists. simpl negb.
  cbn match. change (drop 6 (str "bytes=" ++ ?x)) with x.
  rewrite split_char_join_inv.
  - assert (Hparts : ranges_of_parts len (print_range <$> rs) = mapM (server_resolve len) rs).
    { clear Hne. induction Hwf as [|r rs Hr Hrs IH]; [done|]. rewrite fmap_cons. cbn [ranges_of_parts].
      rewrite trim_graphic by by apply print_range_graphic.
      destruct (print_range r) eqn:E; [by apply print_range_nonempty in E|].
      rewrite <-E, range_of_printed, IH by done. done. }
    rewrite Hparts. destruct (mapM (server_resolve len) rs) as [l|] eqn:E; [|done]. simpl.
    destruct l; [|done]. apply mapM_Some, Forall2_length in E. by destruct rs.
  - by destruct rs.
  - apply Forall_fmap. eapply Forall_impl; [done|apply print_range_no_comma].
Qed.

Lemma range_header_agrees_witness :
  parse_range_header (print_ranges [mkRangeSpec (Some 2) None; mkRangeSpec None (Some 20)]) 10
    = mapM (server_resolve 10) [mkRangeSpec (Some 2) None; mkRangeSpec None (Some 20)].
Proof.
  apply range_header_agrees; [done| |unfold u64_max; lia].
  repeat constructor; unfold u64_max; simpl; lia.
Defined.

(* ------------------------------------------------------------------ *)
(** ** Dates: agreement with rv-http *)

Lemma parse_digits_mono max max' s : ∀ acc v,
  max ≤ max' → parse_digits max acc s = Some v → parse_digits max' acc s = Some v.
Proof.
  induction s as [|c s IH]; intros acc v Hle; simpl; [done|].
  destruct (digit_val c) as [d|]; [|done]. destruct (Z.leb_spec (10 * acc + d) max); [|done].
  rewrite (proj2 (Z.leb_le _ _)) by lia. by apply IH.
Qed.

Lemma parse_uint_mono max max' s v :
  max ≤ max' → parse_uint max s = Some v → parse_uint max' s = Some v.
Proof.
  intros Hle. unfold parse_uint. destruct s as [|c s]; [done|].
  case_decide; [destruct s; [done|]|]; by apply parse_digits_mono.
Qed.

Lemma parse_i64_digits w v :
  Forall (λ c, is_Some (digit_val c)) w → parse_u32 w = Some v → parse_i64 w = Some v.
Proof.
  intros Hw Hv. apply (parse_uint_mono _ i64_max) in Hv; [|unfold i64_max, u32_max; lia].
  destruct w as [|c w]; [done|]. apply Forall_cons in Hw as [Hc _].
  destruct (decide (c = x2d)) as [->|Hne]; [by destruct Hc|].
  unfold parse_i64. destruct c; try exact Hv. done.
Qed.

Lemma trim_end_digits c w :
  digit_val c = None → Forall (λ c, is_Some (digit_val c)) w → trim_end_matches c w = w.
Proof.
  intros Hc Hw. unfold trim_end_matches. rewrite strip_while_none, reverse_involutive; [done|].
  apply Forall_reverse in Hw. simpl. destruct Hw as [|b w' Hb Hw]; [done|].
  rewrite strip_prefix_cons, decide_False; [done|]. intros ->. destruct Hb. congruence.
Qed.

Lemma lower_month mon mo :
  (mon, mo) ∈ month_cases → match_str lower_months (to_ascii_lowercase mon) = Some mo.
Proof.
  assert (HF : Forall (λ p, match_str lower_months (to_ascii_lowercase p.1) = Some p.2) month_cases)
    by (repeat constructor).
  intros Hin. rewrite Forall_forall in HF. apply (HF _ Hin).
Qed.

(** The day count without the wrap-around. *)
Definition plain_days (year month : Z) : Z :=
  (year - 1970) * 365 + Z.quot (year - 1969) 4 - Z.quot (year - 1901) 100 + Z.quot (year - 1601) 400
  + default 0 (month_days !! Z.to_nat (month - 1)) - 1
  + (if (((Z.rem year 4 =? 0) && negb (Z.rem year 100 =? 0)) || (Z.rem year 400 =? 0))
        && (2 <? month) then 1 else 0).

Lemma month_offset_bound m : 0 ≤ default 0 (month_days !! Z.to_nat (m - 1)) ≤ 334.
Proof.
  assert (HF : Forall (λ x, 0 ≤ x ≤ 334) month_days) by (repeat constructor; lia).
  destruct (month_days !! Z.to_nat (m - 1)) as [x|] eqn:E; simpl; [|lia].
  rewrite Forall_forall in HF. apply HF. by eapply list_elem_of_lookup_2.
Qed.

Lemma year_quot_bound y k c : 1970 ≤ y ≤ 9999 → 0 < k → 0 ≤ c ≤ 1970 → 0 ≤ Z.quot (y - c) k ≤ 10000.
Proof.
  intros Hy Hk Hc. rewrite Z.quot_div_nonneg by lia.
  split; [apply Z.div_pos; lia|]. apply Z.div_le_upper_bound; nia.
Qed.

Lemma plain_days_bound y m : 1970 ≤ y ≤ 9999 → -20000 ≤ plain_days y m ≤ 10000000.
Proof.
  intros Hy. unfold plain_days. pose proof (month_offset_bound m).
  pose proof (year_quot_bound y 4 1969 Hy ltac:(lia) ltac:(lia)).
  pose proof (year_quot_bound y 100 1901 Hy ltac:(lia) ltac:(lia)).
  pose proof (year_quot_bound y 400 1601 Hy ltac:(lia) ltac:(lia)).
  case_if; lia.
Qed.

Lemma total_days_plain y m d :
  1970 ≤ y ≤ 9999 → 0 ≤ d < 100 → total_days y m d = plain_days y m + d.
Proof.
  intros Hy Hd. unfold total_days, plain_days. pose proof (month_offset_bound m).
  pose proof (year_quot_bound y 4 1969 Hy ltac:(lia) ltac:(lia)).
  pose proof (year_quot_bound y 100 1901 Hy ltac:(lia) ltac:(lia)).
  pose proof (year_quot_bound y 400 1601 Hy ltac:(lia) ltac:(lia)).
  set (leap := if _ : bool then 1 else 0). assert (0 ≤ leap ≤ 1) by (unfold leap; case_if; lia).
  unwrap. lia.
Qed.

(** Both day counts over the years of the date format. *)
Definition days_agree (y : Z) : bool :=
  forallb (λ m, plain_days y m * 86400 =? components_to_seconds y m 0 0 0 0)
    [1; 2; 3; 4; 5; 6; 7; 8; 9; 10; 11; 12].

Lemma days_agree_all y : 1970 ≤ y ≤ 9999 → days_agree y = true.
Proof.
  intros Hy.
  assert (Hall : forallb days_agree (seqZ 1970 8030) = true) by (vm_compute; reflexivity).
  rewrite forallb_forall in Hall. apply Hall, list_elem_of_In, elem_of_seqZ. lia.
Qed.

Lemma components_linear y m d h mi s :
  components_to_seconds y m d h mi s
    = components_to_seconds y m 0 0 0 0 + d * 86400 + h * 3600 + mi * 60 + s.
Proof. unfold components_to_seconds. lia. Qed.

Lemma month_in mon mo : (mon, mo) ∈ month_cases → mo ∈ [1; 2; 3; 4; 5; 6; 7; 8; 9; 10; 11; 12].
Proof.
  assert (HF : Forall (λ p, p.2 ∈ [1; 2; 3; 4; 5; 6; 7; 8; 9; 10; 11; 12]) month_cases)
    by (apply (bool_decide_unpack _); vm_compute; done).
  intros Hin. rewrite Forall_forall in HF. apply (HF _ Hin).
Qed.

(** The server's own date parser agrees with rv-http's: an RFC 1123 date of
    the years 1970 to 9999, printed with any weekday word, is parsed to the very
    second count rv-http's date arithmetic gives for its components; the [i64]
    computation does not overflow. *)
Theorem server_date_agrees wd mon mo y d h mi s :
  word wd → (mon, mo) ∈ month_cases → 1970 ≤ y ≤ 9999 →
  0 ≤ d < 100 → 0 ≤ h < 100 → 0 ≤ mi < 100 → 0 ≤ s < 100 →
  server_parse_http_date (print_rfc1123 wd mon y d h mi s)
    = Some (components_to_seconds y mo d h mi s).
Proof.
  intros Hwd Hmon Hy Hd Hh Hmi Hs.
  destruct (month_spec _ _ Hmon) as (_ & Wmon & _).
  destruct (two_digits_spec d Hd) as [Pd Dd], (two_digits_spec h Hh) as [Ph Dh],
    (two_digits_spec mi Hmi) as [Pm Dm], (two_digits_spec s Hs) as [Ps Ds].
  destruct (parse_print_hms h mi s Hh Hmi Hs) as [_ Whms].
  assert (Py : parse_i64 (show_u64 y) = Some y).
  { apply parse_i64_digits; [by apply show_u64_digits; unfold u64_max; lia|].
    apply parse_show_u32. unfold u32_max. lia. }
  unfold server_parse_http_date, print_rfc1123.
  assert (HW : Forall word [wd ++ str ","; two_digits d; mon; show_u64 y; print_hms h mi s; str "GMT"]).
  { rewrite !Forall_cons. split_and!; try done;
      [by apply weekday_comma_word|by apply digits_word|apply show_u64_word; unfold u64_max; lia
       |split; [done|repeat constructor]]. }
  rewrite trim_words, split_whitespace_join by done.
  rewrite trim_end_digits by done. rewrite (parse_i64_digits _ _ Dd Pd). cbn [mbind option_bind].
  rewrite (lower_month _ _ Hmon). cbn [mbind option_bind]. rewrite Py. cbn [mbind option_bind].
  unfold print_hms. rewrite split_char_join_inv; [|done|by repeat constructor; apply digits_notin].
  rewrite (parse_i64_digits _ _ Dh Ph), (parse_i64_digits _ _ Dm Pm), (parse_i64_digits _ _ Ds Ps).
  cbn [mbind option_bind].
  pose proof (month_in _ _ Hmon) as Hin. pose proof (days_agree_all y Hy) as Hdays.
  unfold days_agree in Hdays. rewrite forallb_forall in Hdays.
  pose proof (Hdays mo (proj1 (list_elem_of_In _ _) Hin)) as Hmo. apply Z.eqb_eq in Hmo.
  assert (1 ≤ mo ≤ 12) by (rewrite !elem_of_cons, elem_of_nil in Hin; lia).
  rewrite total_days_plain, components_linear by done.
  pose proof (plain_days_bound y mo Hy).
  unwrap. f_equal. lia.
Qed.

Lemma server_date_agrees_witness :
  server_parse_http_date (str "Sun, 06 Nov 1994 08:49:37 GMT")
    = Some (components_to_seconds 1994 11 6 8 49 37).
Proof.
  apply (server_date_agrees (str "Sun") (str "Nov") 11 1994 6 8 49 37); try lia.
  - split; [done|]. repeat constructor.
  - apply (bool_decide_unpack _). vm_compute. done.
Defined.
