(* ===== verification/Runtime.v ===== *)
(** * The server's request pipeline

    Models [handle_request] and the state handlers of
    [rv-server/src/runtime.rs]: the loop that drives the request state machine,
    the cache lookup, the backend fetch and its storage, delivery and synthetic
    responses.  The VCL interpreter is an interface, a class whose one operation
    runs a subroutine on a context; the clock, the bytes a backend sends, SHA-256,
    gzip and the Unicode operations are the environment's.  A backend's answer is read
    by the client of [Http1], whose panic is the request's.  The handlers' log records
    are in [RequestLog]; tracing spans are left out. *)

From S2P Require Import Prelude RustStr F64 Enums Types HttpTypes Header Rfc2616 HashSlinger.
From S2P Require Import Backend ConnPool Http1 VclInterp Lru RingLog ObjCore Expire Stevedore Ban Request Fetch Engine Delivery.
Local Open Scope Z_scope.

(* ------------------------------------------------------------------ *)
(** ** The VCL interface (rv-vcl) *)

(** What the server uses of the interpreter: [exec_subroutine], and
    [VclValue::to_duration_secs] on the variables it set. *)
Class VclInterpreter (Ip : Type) := {
  Vcl : Type;
  VclValue : Type;
  to_duration_secs : VclValue → f64;
  exec_subroutine : Vcl → bytes → VclContext Ip VclValue → VclExecResult * VclContext Ip VclValue;
}.

(** The environment: wall clock, network and library functions. *)
Class ServerEnv := {
  Env : Type;
  env_now : Env → VtimReal * Env;
  (** Connecting to a backend and sending it these bytes: what it sends before it
      closes the connection, or the text of the I/O error that ends the exchange. *)
  backend_exchange : SocketAddr → bytes → Env → result bytes bytes * Env;
  show_addr : SocketAddr → bytes;
  io_text : TransportError.io_error → bytes;
  env_errors :: StdErrors;
  sha256 : bytes → vec byte DIGEST_LEN;
  decompress_gzip : bytes → option bytes;
  compress_gzip : bytes → option bytes;
  str_to_lowercase : bytes → bytes;
  from_utf8_lossy : bytes → bytes;
}.

Definition LOCALHOST : IpAddr := V4 0x7f000001.

Record ConnectionInfo (Ip : Type) : Type := mkConn {
  client_ip : Ip;
  local_ip : Ip;
  is_tls : bool;
}.
#[global] Arguments client_ip {Ip} _.
#[global] Arguments local_ip {Ip} _.
#[global] Arguments is_tls {Ip} _.

Section runtime.
  Context {SH SS CacheConfig : Type} `{!HashSlinger SH} `{!Stevedore SS} {regex : RegexLib}.
  Context {env : ServerEnv} {interp : VclInterpreter IpAddr}.
  Context (fmt_fixed : nat → f64 → bytes).

Abbreviation cache_t := (@CacheEngine SH SS CacheConfig regex).
Abbreviation vctx := (VclContext IpAddr VclValue).

Record world : Type := mkWorld { w_cache : cache_t; w_env : Env }.

(** [VclContext::new], with the fields the handlers assign before the call. *)
Definition VclContext_new (req resp bereq beresp : HttpMessage) (client server : IpAddr)
    (ssl : bool) (restarts : Z) : vctx :=
  mkVclContext req resp bereq beresp client server ssl restarts 0 f64_zero f64_zero f64_zero None
    None ∅ false false false None None.

Definition with_req_body (b : option bytes) (v : vctx) : vctx :=
  let '(mkVclContext a1 a2 a3 a4 a5 a6 a7 a8 a9 a10 a11 a12 a13 a14 a15 a16 a17 a18 _ a20) := v in
  mkVclContext a1 a2 a3 a4 a5 a6 a7 a8 a9 a10 a11 a12 a13 a14 a15 a16 a17 a18 b a20.
Definition with_vcl_resp_body (b : option bytes) (v : vctx) : vctx :=
  let '(mkVclContext a1 a2 a3 a4 a5 a6 a7 a8 a9 a10 a11 a12 a13 a14 a15 a16 a17 a18 a19 _) := v in
  mkVclContext a1 a2 a3 a4 a5 a6 a7 a8 a9 a10 a11 a12 a13 a14 a15 a16 a17 a18 a19 b.
Definition with_vcl_synth_body (b : option bytes) (v : vctx) : vctx :=
  let '(mkVclContext a1 a2 a3 a4 a5 a6 a7 a8 a9 a10 a11 a12 _ a14 a15 a16 a17 a18 a19 a20) := v in
  mkVclContext a1 a2 a3 a4 a5 a6 a7 a8 a9 a10 a11 a12 b a14 a15 a16 a17 a18 a19 a20.
Definition with_vcl_obj (oc : ObjCore) (v : vctx) : vctx :=
  let '(mkVclContext a1 a2 a3 a4 a5 a6 a7 a8 _ _ _ _ a13 a14 a15 a16 a17 a18 a19 a20) := v in
  mkVclContext a1 a2 a3 a4 a5 a6 a7 a8 (oc_hits oc) (VtimDur_as_secs (oc_ttl oc))
    (VtimDur_as_secs (oc_grace oc)) (VtimDur_as_secs (oc_keep oc)) a13 a14 a15 a16 a17 a18 a19 a20.
Definition with_vcl_obj_hits (hits : Z) (v : vctx) : vctx :=
  let '(mkVclContext a1 a2 a3 a4 a5 a6 a7 a8 _ a10 a11 a12 a13 a14 a15 a16 a17 a18 a19 a20) := v in
  mkVclContext a1 a2 a3 a4 a5 a6 a7 a8 hits a10 a11 a12 a13 a14 a15 a16 a17 a18 a19 a20.

(* ------------------------------------------------------------------ *)
(** ** Recv *)

Definition state_recv (vcl : option Vcl) (conn : ConnectionInfo IpAddr) (ctx : RequestContext) :
    RequestContext :=
  match vcl with
  | Some vcl =>
      let v := with_req_body (r_body ctx)
        (VclContext_new (r_request ctx) (HttpMessage_new_response HttpStatus_OK Http11)
           HttpMessage_default HttpMessage_default (client_ip conn) (local_ip conn) (is_tls conn)
           (restarts ctx)) in
      let '(res, v) := exec_subroutine vcl (str "vcl_recv") v in
      let ctx := with_request (v_req v) ctx in
      match res with
      | ExecAction action =>
          let ctx := with_action (Some (convert_action action)) ctx in
          if decide (action = InterpreterAction.Synth) then
            with_synth_body (v_synth_body v)
              (with_synth_status (HttpStatus_new <$> v_synth_status v) ctx)
          else ctx
      | ExecFallthrough => with_action None ctx
      | ExecError _ =>
          with_synth_status (Some HttpStatus_INTERNAL_SERVER_ERROR)
            (with_action (Some VclAction.Synth) ctx)
      end
  | None => with_action None ctx
  end.

(* ------------------------------------------------------------------ *)
(** ** Lookup *)

Definition compute_digest (key : bytes) : Digest := Digest_new (sha256 key).

Definition cache_key (req : HttpMessage) : bytes :=
  default (str "localhost") (HttpMessage_get_header req (str "Host")) ++ str ":" ++ msg_url req.

Definition state_lookup (vcl : option Vcl) (conn : ConnectionInfo IpAddr) (ctx : RequestContext)
    (w : world) : option (RequestContext * world) :=
  let digest := compute_digest (cache_key (r_request ctx)) in
  let ctx := with_digest (Some digest) ctx in
  let '(now, e) := env_now (w_env w) in
  '(found, cache) ← CacheEngine_lookup digest None now (w_cache w);
  let w := mkWorld cache e in
  Some
    (match found with
     | Hit oc =>
         let ctx := with_obj (Some oc) ctx in
         match vcl with
         | Some vcl =>
             let v := with_vcl_obj oc
               (VclContext_new (r_request ctx) (HttpMessage_new_response HttpStatus_OK Http11)
                  HttpMessage_default HttpMessage_default (client_ip conn) (local_ip conn)
                  (is_tls conn) (restarts ctx)) in
             let '(res, v) := exec_subroutine vcl (str "vcl_hit") v in
             let ctx := with_request (v_req v) ctx in
             match res with
             | ExecAction action => with_action (Some (convert_action action)) ctx
             | ExecFallthrough | ExecError _ => with_action (Some VclAction.Deliver) ctx
             end
         | None => with_action (Some VclAction.Deliver) ctx
         end
     | Grace oc => with_action (Some VclAction.Deliver) (with_obj (Some oc) ctx)
     | HitForPass => with_action (Some VclAction.Pass) ctx
     | Busy => with_action None ctx
     | Miss =>
         match vcl with
         | Some vcl =>
             let v := VclContext_new (r_request ctx) HttpMessage_default
               (HttpMessage_new_request (msg_method (r_request ctx)) (msg_url (r_request ctx)) Http11)
               HttpMessage_default (client_ip conn) LOCALHOST false (restarts ctx) in
             let '(res, v) := exec_subroutine vcl (str "vcl_miss") v in
             let ctx := with_request (v_req v) ctx in
             match res with
             | ExecAction action => with_action (Some (convert_action action)) ctx
             | ExecFallthrough | ExecError _ => with_action None ctx
             end
         | None => with_action None ctx
         end
     end, w).

(** [run_vcl_pass] and [run_vcl_miss]: the subroutine's action replaces the one
    in the context, if it returns one. *)
Definition run_vcl_sub (name : bytes) (vcl : Vcl) (conn : ConnectionInfo IpAddr)
    (ctx : RequestContext) : RequestContext :=
  let v := VclContext_new (r_request ctx) HttpMessage_default
    (HttpMessage_new_request (msg_method (r_request ctx)) (msg_url (r_request ctx)) Http11)
    HttpMessage_default (client_ip conn) LOCALHOST false (restarts ctx) in
  let '(res, v) := exec_subroutine vcl name v in
  let ctx := with_request (v_req v) ctx in
  match res with
  | ExecAction action => with_action (Some (convert_action action)) ctx
  | ExecFallthrough | ExecError _ => ctx
  end.

Definition run_vcl_pass : Vcl → ConnectionInfo IpAddr → RequestContext → RequestContext :=
  run_vcl_sub (str "vcl_pass").
Definition run_vcl_miss : Vcl → ConnectionInfo IpAddr → RequestContext → RequestContext :=
  run_vcl_sub (str "vcl_miss").

(* ------------------------------------------------------------------ *)
(** ** Fetch *)

(** [for h in from { if the lower-cased name is not excluded { to.set_header(..) } }] *)
Definition copy_headers (excluded : list bytes) (from : HeaderMap) (to : HttpMessage) : HttpMessage :=
  fold_left (λ m h,
    if bool_decide (str_to_lowercase (h_name h) ∈ excluded) then m
    else HttpMessage_set_header m (h_name h) (h_value h)) (headers from) to.

Definition synth_with (status : HttpStatus) (ctx : RequestContext) : RequestContext :=
  with_synth_status (Some status) (with_action (Some VclAction.Synth) ctx).

(** The part after [vcl_backend_response]: assign the results to the context,
    store the object if it may be, take over the response and unzip it. *)
Definition store_response (beresp : HttpMessage) (body : option bytes) (gzip gunzip unc : bool)
    (ttl grace keep : option f64) (ctx : RequestContext) (w : world) :
    option (RequestContext * world) :=
  let ctx := with_beresp_info gzip gunzip unc ttl grace keep ctx in
  w ← (if negb (r_is_pass ctx) && negb unc && bool_decide (msg_status beresp = HttpStatus_OK) then
         match body, r_digest ctx with
         | Some body, Some digest =>
             let info := mkTtlInfo (VtimDur_from_secs (default (f64_of_Z 120) ttl))
                           (VtimDur_from_secs (default (f64_of_Z 10) grace))
                           (VtimDur_from_secs (default f64_zero keep)) in
             let '(now, e) := env_now (w_env w) in
             '(_, cache) ← CacheEngine_insert fmt_fixed digest body info None now (w_cache w);
             Some (mkWorld cache e)
         | _, _ => Some w
         end
       else Some w);
  let ctx := with_resp_body body (with_beresp (Some beresp) ctx) in
  let ctx :=
    if do_gunzip ctx then
      match resp_body ctx with
      | Some b => match decompress_gzip b with Some d => with_resp_body (Some d) ctx | None => ctx end
      | None => ctx
      end
    else ctx in
  Some (ctx, w).

(** [vcl_backend_response] on a response: [None] when it abandons the fetch. *)
Definition run_backend_response (vcl : option Vcl) (conn : ConnectionInfo IpAddr)
    (bereq beresp : HttpMessage) (ctx : RequestContext) :
    RequestContext * option (HttpMessage * bool * bool * bool * option f64 * option f64 * option f64) :=
  match vcl with
  | None => (ctx, Some (beresp, false, false, false, None, None, None))
  | Some vcl =>
      let v := VclContext_new (r_request ctx) HttpMessage_default bereq beresp (client_ip conn)
                 LOCALHOST false (restarts ctx) in
      let '(res, v) := exec_subroutine vcl (str "vcl_backend_response") v in
      let ctx := with_request (v_req v) ctx in
      match res with
      | ExecAction InterpreterAction.Abandon =>
          (synth_with HttpStatus_SERVICE_UNAVAILABLE ctx, None)
      | _ =>
          let pass := match res with ExecAction InterpreterAction.Pass => true | _ => false end in
          (ctx, Some (v_beresp v, v_do_gzip v, v_do_gunzip v, pass || v_uncacheable v,
             to_duration_secs <$> v_local_vars v !! str "beresp.ttl",
             to_duration_secs <$> v_local_vars v !! str "beresp.grace",
             to_duration_secs <$> v_local_vars v !! str "beresp.keep"))
      end
  end.

(** [vcl_backend_fetch] on the backend request: [None] when it abandons. *)
Definition run_backend_fetch (vcl : option Vcl) (conn : ConnectionInfo IpAddr)
    (bereq : HttpMessage) (ctx : RequestContext) : RequestContext * option HttpMessage :=
  match vcl with
  | None => (ctx, Some bereq)
  | Some vcl =>
      let v := VclContext_new (r_request ctx) HttpMessage_default bereq HttpMessage_default
                 (client_ip conn) LOCALHOST false (restarts ctx) in
      let '(res, v) := exec_subroutine vcl (str "vcl_backend_fetch") v in
      let ctx := with_request (v_req v) ctx in
      match res with
      | ExecAction InterpreterAction.Abandon =>
          (synth_with HttpStatus_SERVICE_UNAVAILABLE ctx, None)
      | _ => (ctx, Some (v_bereq v))
      end
  end.

Definition build_bereq (req : HttpMessage) : HttpMessage :=
  copy_headers [str "connection"; str "accept-encoding"] (msg_headers req)
    (HttpMessage_new_request (msg_method req) (msg_url req) Http11).

(** [send_backend_request(addr, request, body, None)]: the answer of the backend as
    its client reads it, or the error as displayed; [None] is a panic. *)
Definition fetch_from_backend (addr : SocketAddr) (request : HttpMessage) (body : option bytes) (e : Env) :
    option (result (HttpMessage * option bytes) bytes) * Env :=
  let '(answer, e) := backend_exchange addr (request_bytes show_addr addr request body) e in
  (match answer with
   | Err text => Some (Err (str "I/O error: " ++ text))
   | Ok input =>
       match read_response (S (length input)) input with
       | Some (Done (response, resp_body, _) _) => Some (Ok (response, resp_body))
       | Some (Fails err) => Some (Err (TransportError.display io_text err))
       | Some Panics | None => None
       end
   end, e).

(** The first [None] is that of the cache; [Some (None, _)] says that the fetch
    panicked. *)
Definition state_fetch (backend_addr : option SocketAddr) (vcl : option Vcl)
    (conn : ConnectionInfo IpAddr) (ctx : RequestContext) (w : world) :
    option (option RequestContext * world) :=
  match backend_addr with
  | None =>
      Some (Some (with_synth_body (Some (str "No backend configured"))
                    (synth_with HttpStatus_SERVICE_UNAVAILABLE ctx)), w)
  | Some addr =>
      match run_backend_fetch vcl conn (build_bereq (r_request ctx)) ctx with
      | (ctx, None) => Some (Some ctx, w)
      | (ctx, Some bereq) =>
          let ctx := with_bereq (Some bereq) ctx in
          match fetch_from_backend addr bereq None (w_env w) with
          | (None, e) => Some (None, mkWorld (w_cache w) e)
          | (Some (Ok (beresp, body)), e) =>
              let w := mkWorld (w_cache w) e in
              match run_backend_response vcl conn bereq beresp ctx with
              | (ctx, None) => Some (Some ctx, w)
              | (ctx, Some (beresp, gzip, gunzip, unc, ttl, grace, keep)) =>
                  '(ctx, w) ← store_response beresp body gzip gunzip unc ttl grace keep ctx w;
                  Some (Some ctx, w)
              end
          | (Some (Err msg), e) =>
              Some (Some (with_synth_body (Some (str "Backend fetch failed: " ++ msg))
                            (synth_with HttpStatus_BAD_GATEWAY ctx)), mkWorld (w_cache w) e)
          end
      end
  end.

(* ------------------------------------------------------------------ *)
(** ** Deliver *)

Definition show_len (b : bytes) : bytes := show_u64 (Z.of_nat (length b)).

(** The response before conditional and range processing. *)
Definition base_response (ctx : RequestContext) (cells : oc_store) : HttpMessage * option bytes :=
  match r_obj ctx with
  | Some oc =>
      (HttpMessage_set_header (HttpMessage_new_response HttpStatus_OK Http11)
         (str "X-Cache") (str "HIT"), get_body oc cells)
  | None =>
      match r_beresp ctx with
      | Some beresp =>
          (copy_headers [str "connection"; str "transfer-encoding"] (msg_headers beresp)
             (HttpMessage_set_header (HttpMessage_new_response (msg_status beresp) Http11)
                (str "X-Cache") (str "MISS")), resp_body ctx)
      | None =>
          (HttpMessage_set_header
             (HttpMessage_new_response HttpStatus_INTERNAL_SERVER_ERROR Http11)
             (str "X-Cache") (str "ERROR"), resp_body ctx)
      end
  end.

Definition add_content_length (p : HttpMessage * option bytes) : HttpMessage * option bytes :=
  match p.2 with
  | Some body => (HttpMessage_set_header p.1 (str "Content-Length") (show_len body), p.2)
  | None => p
  end.

(** Copy a header if it is there. *)
Definition copy_header (from : HttpMessage) (to : HttpMessage) (name : bytes) : HttpMessage :=
  match HttpMessage_get_header from name with
  | Some val => HttpMessage_set_header to name val
  | None => to
  end.

Definition apply_conditional (req : HttpMessage) (p : HttpMessage * option bytes) :
    HttpMessage * option bytes :=
  let response := p.1 in
  if (bool_decide (msg_method req = HttpMethod_Get) || bool_decide (msg_method req = HttpMethod_Head))
     && bool_decide (msg_status response = HttpStatus_OK)
     && server_evaluate_conditional req response
  then
    let not_modified :=
      fold_left (copy_header response)
        [str "ETag"; str "Last-Modified"; str "Cache-Control"; str "Expires"; str "Vary";
         str "X-Cache"]
        (HttpMessage_new_response HttpStatus_NOT_MODIFIED Http11) in
    (not_modified, None)
  else p.

Definition set_status (s : HttpStatus) (m : HttpMessage) : HttpMessage :=
  mkHttpMessage (msg_headers m) s (msg_protocol m) (msg_method m) (msg_url m) (HttpStatus_reason s)
    (msg_body_status m).

(** [body[start..=end]]: panics ([None]) out of bounds. *)
Definition slice_inclusive (body : bytes) (start end_ : Z) : option bytes :=
  if (start <=? end_ + 1) && (end_ <? Z.of_nat (length body)) then
    Some (take (Z.to_nat (end_ + 1 - start)) (drop (Z.to_nat start) body))
  else None.

Definition apply_range (req : HttpMessage) (p : HttpMessage * option bytes) :
    option (HttpMessage * option bytes) :=
  match HttpMessage_get_header req (str "Range"), p.2 with
  | Some range_header, Some body =>
      if bool_decide (msg_method req = HttpMethod_Get)
         && bool_decide (msg_status p.1 = HttpStatus_OK) then
        let content_length := Z.of_nat (length body) in
        match parse_range_header range_header content_length with
        | Some [(start, end_)] =>
            let response := set_status HttpStatus_PARTIAL_CONTENT p.1 in
            let response := HttpMessage_set_header response (str "Content-Range")
              (str "bytes " ++ show_u64 start ++ str "-" ++ show_u64 end_ ++ str "/"
               ++ show_u64 content_length) in
            sliced ← slice_inclusive body start end_;
            Some (HttpMessage_set_header response (str "Content-Length") (show_len sliced),
                  Some sliced)
        | Some _ => Some p
        | None =>
            let response := set_status HttpStatus_RANGE_NOT_SATISFIABLE p.1 in
            let response := HttpMessage_set_header response (str "Content-Range")
              (str "bytes */" ++ show_u64 content_length) in
            Some (HttpMessage_unset_header response (str "Content-Length"), None)
        end
      else Some p
  | _, _ => Some p
  end.

Definition apply_gzip (gzip : bool) (p : HttpMessage * option bytes) : HttpMessage * option bytes :=
  if gzip then
    match p.2 with
    | Some body =>
        match compress_gzip body with
        | Some compressed =>
            (HttpMessage_set_header
               (HttpMessage_set_header p.1 (str "Content-Encoding") (str "gzip"))
               (str "Content-Length") (show_len compressed), Some compressed)
        | None => p
        end
    | None => p
    end
  else p.

(** [vcl_deliver]: [None] in the last place when it restarts. *)
Definition run_deliver (vcl : option Vcl) (conn : ConnectionInfo IpAddr) (ctx : RequestContext)
    (p : HttpMessage * option bytes) : RequestContext * option (HttpMessage * option bytes) :=
  match vcl with
  | None => (ctx, Some p)
  | Some vcl =>
      let v := VclContext_new (r_request ctx) p.1 (default HttpMessage_default (r_bereq ctx))
                 (default HttpMessage_default (r_beresp ctx)) (client_ip conn) (local_ip conn)
                 (is_tls conn) (restarts ctx) in
      let v := with_vcl_resp_body p.2 v in
      let v := match r_obj ctx with Some oc => with_vcl_obj_hits (oc_hits oc) v | None => v end in
      let '(res, v) := exec_subroutine vcl (str "vcl_deliver") v in
      let ctx := with_beresp (Some (v_beresp v))
                   (with_bereq (Some (v_bereq v)) (with_request (v_req v) ctx)) in
      match res with
      | ExecAction action =>
          let ctx := with_action (Some (convert_action action)) ctx in
          if decide (action = InterpreterAction.Restart) then
            (with_resp_body (v_resp_body v) ctx, None)
          else (ctx, Some (v_resp v, v_resp_body v))
      | ExecFallthrough | ExecError _ =>
          (with_action (Some VclAction.Deliver) ctx, Some (v_resp v, v_resp_body v))
      end
  end.

Definition state_deliver (vcl : option Vcl) (conn : ConnectionInfo IpAddr) (cells : oc_store)
    (ctx : RequestContext) : option RequestContext :=
  let p := base_response ctx cells in
  let ctx := with_resp_body None ctx in
  let p := apply_conditional (r_request ctx) (add_content_length p) in
  p ← apply_range (r_request ctx) p;
  match run_deliver vcl conn ctx p with
  | (ctx, None) => Some ctx
  | (ctx, Some p) =>
      let p := apply_gzip (do_gzip ctx) p in
      Some (with_resp_body p.2 (with_response (Some p.1) ctx))
  end.

(* ------------------------------------------------------------------ *)
(** ** Synth *)

Definition state_synth (vcl : option Vcl) (conn : ConnectionInfo IpAddr) (ctx : RequestContext) :
    RequestContext :=
  let status := default HttpStatus_OK (synth_status ctx) in
  let response := HttpMessage_set_header (HttpMessage_new_response status Http11)
                    (str "X-Cache") (str "SYNTH") in
  let body := default (HttpStatus_reason status) (synth_body ctx) in
  let ctx := with_synth_body None ctx in
  let finish response body ctx :=
    with_response (Some (HttpMessage_set_header response (str "Content-Length") (show_len body)))
      (with_resp_body (Some body) ctx) in
  match vcl with
  | Some vcl =>
      let v := with_vcl_synth_body (Some (from_utf8_lossy body))
        (VclContext_new (r_request ctx) response HttpMessage_default HttpMessage_default
           (client_ip conn) LOCALHOST false (restarts ctx)) in
      let '(res, v) := exec_subroutine vcl (str "vcl_synth") v in
      let ctx := with_request (v_req v) ctx in
      match res with
      | ExecAction InterpreterAction.Restart =>
          if restarts ctx <? max_restarts ctx then
            with_action None
              (with_state RequestState.Recv (with_restarts (u32_wrap (restarts ctx + 1)) ctx))
          else finish (v_resp v) (default body (v_synth_body v)) ctx
      | _ => finish (v_resp v) (default body (v_synth_body v)) ctx
      end
  | None => finish response body ctx
  end.

(* ------------------------------------------------------------------ *)
(** ** The loop *)

(** One round of the [loop], in a state other than [Done]: the next context, or
    [Some (None, _)] when the fetch panicked. *)
Definition serve_step (backend_addr : option SocketAddr) (vcl : option Vcl)
    (conn : ConnectionInfo IpAddr) (ctx : RequestContext) (w : world) :
    option (option RequestContext * world) :=
  let step ctx := Some (snd (RequestFsm.step ctx)) in
  match r_state ctx with
  | RequestState.Recv => Some (step (state_recv vcl conn ctx), w)
  | RequestState.Lookup =>
      '(ctx, w) ← state_lookup vcl conn ctx w; Some (step ctx, w)
  | RequestState.Pass =>
      let ctx := with_is_pass true ctx in
      let ctx := match vcl with Some vcl => run_vcl_pass vcl conn ctx | None => ctx end in
      Some (step ctx, w)
  | RequestState.Miss =>
      let ctx := match vcl with Some vcl => run_vcl_miss vcl conn ctx | None => ctx end in
      Some (step ctx, w)
  | RequestState.Pipe => Some (step ctx, w)
  | RequestState.Fetch =>
      '(fetched, w) ← state_fetch backend_addr vcl conn ctx w;
      match fetched with
      | None => Some (None, w)
      | Some ctx =>
          if decide (vcl_action ctx = Some VclAction.Synth) then
            Some (Some (with_state RequestState.Synth ctx), w)
          else Some (step ctx, w)
      end
  | RequestState.Deliver =>
      ctx ← state_deliver vcl conn (eng_cells (w_cache w)) ctx;
      if decide (vcl_action ctx = Some VclAction.Restart) then
        if restarts ctx <? max_restarts ctx then
          Some (Some (with_action None
                  (with_state RequestState.Recv (with_restarts (u32_wrap (restarts ctx + 1)) ctx))), w)
        else Some (step ctx, w)
      else Some (step ctx, w)
  | RequestState.Synth => Some (Some (with_state RequestState.Done (state_synth vcl conn ctx)), w)
  | RequestState.Done => Some (Some ctx, w)
  end.

(** How a run can end: it reached [Done], the fetch from the backend panicked, it
    needs more rounds, or the cache's code would be undefined or panic. *)
Inductive outcome : Type :=
| Finished (ctx : RequestContext) (w : world)
| FetchPanicked (w : world)
| OutOfFuel
| Stuck.

Fixpoint serve_loop (fuel : nat) (backend_addr : option SocketAddr) (vcl : option Vcl)
    (conn : ConnectionInfo IpAddr) (ctx : RequestContext) (w : world) : outcome :=
  if decide (r_state ctx = RequestState.Done) then Finished ctx w
  else
    match fuel with
    | O => OutOfFuel
    | S fuel =>
        match serve_step backend_addr vcl conn ctx w with
        | Some (Some ctx, w) => serve_loop fuel backend_addr vcl conn ctx w
        | Some (None, w) => FetchPanicked w
        | None => Stuck
        end
    end.

(** The response handed back to the transport. *)
Definition final_response (ctx : RequestContext) : HttpMessage * option bytes :=
  (default (HttpMessage_new_response HttpStatus_INTERNAL_SERVER_ERROR Http11) (r_response ctx),
   resp_body ctx).

(** The handler's response, or none when the fetch panicked; [Some None] says that
    the rounds given were not enough. *)
Definition handle_request (fuel : nat) (request : HttpMessage) (body : option bytes)
    (conn : ConnectionInfo IpAddr) (backend_addr : option SocketAddr) (vcl : option Vcl)
    (vxid : Vxid) (w : world) : option (option (option (HttpMessage * option bytes) * world)) :=
  let '(now, e) := env_now (w_env w) in
  let ctx := with_body body (RequestContext_new request vxid now) in
  match serve_loop fuel backend_addr vcl conn ctx (mkWorld (w_cache w) e) with
  | Finished ctx w => Some (Some (Some (final_response ctx), w))
  | FetchPanicked w => Some (Some (None, w))
  | OutOfFuel => Some None
  | Stuck => None
  end.

(* ------------------------------------------------------------------ *)
(** ** Termination *)

(** What the handlers leave alone. *)
Definition same_run (ctx ctx' : RequestContext) : Prop :=
  r_state ctx' = r_state ctx ∧ restarts ctx' = restarts ctx ∧ max_restarts ctx' = max_restarts ctx.

Ltac same_run_auto := repeat case_match; simplify_eq; repeat split; reflexivity.

Lemma state_recv_same vcl conn ctx : same_run ctx (state_recv vcl conn ctx).
Proof. unfold state_recv. same_run_auto. Qed.

Lemma run_vcl_sub_same name vcl conn ctx : same_run ctx (run_vcl_sub name vcl conn ctx).
Proof. unfold run_vcl_sub. same_run_auto. Qed.

Lemma run_backend_fetch_same vcl conn bereq ctx :
  same_run ctx (run_backend_fetch vcl conn bereq ctx).1.
Proof. unfold run_backend_fetch. same_run_auto. Qed.

Lemma run_backend_response_same vcl conn bereq beresp ctx :
  same_run ctx (run_backend_response vcl conn bereq beresp ctx).1.
Proof. unfold run_backend_response. same_run_auto. Qed.

Lemma run_deliver_same vcl conn ctx p : same_run ctx (run_deliver vcl conn ctx p).1.
Proof. unfold run_deliver. same_run_auto. Qed.

(** [vcl_hit] and [vcl_miss], run by the lookup, do not restart the request. *)
Definition lookup_restarts_not (vcl : option Vcl) : Prop :=
  match vcl with
  | None => True
  | Some vcl =>
      ∀ name v, name = str "vcl_hit" ∨ name = str "vcl_miss" →
        (exec_subroutine vcl name v).1 ≠ ExecAction InterpreterAction.Restart
  end.

Lemma convert_restart a :
  convert_action a = VclAction.Restart → a = InterpreterAction.Restart.
Proof. by destruct a. Qed.

Lemma state_lookup_ok n vcl conn ctx w :
  eng_ok n (w_cache w) → n < u64_max →
  ∃ ctx' w', state_lookup vcl conn ctx w = Some (ctx', w')
    ∧ eng_ok (n + 1) (w_cache w') ∧ same_run ctx ctx'
    ∧ (lookup_restarts_not vcl → vcl_action ctx' ≠ Some VclAction.Restart).
Proof.
  intros Hok Hn. unfold state_lookup. destruct (env_now (w_env w)) as [now e].
  destruct (lookup_ok n (w_cache w) (compute_digest (cache_key (r_request ctx))) None now Hok Hn)
    as (c & E & Hok' & _).
  rewrite E. cbn [mbind option_bind]. eexists _, _. split; [reflexivity|]. split; [done|].
  clear E. generalize (match eng_objects (w_cache w) !! compute_digest (cache_key (r_request ctx)) with
    | Some vs => select_variant None now (eng_cells (w_cache w)) vs | None => Miss end) as r.
  intros r. split.
  { destruct vcl as [vcl|], r; cbn [fst snd]; repeat case_match; by repeat split. }
  intros Hvcl. destruct vcl as [vcl|]; [|by destruct r].
  pose proof (λ v, Hvcl (str "vcl_hit") v (or_introl eq_refl)) as Hhit.
  pose proof (λ v, Hvcl (str "vcl_miss") v (or_intror eq_refl)) as Hmiss. clear Hvcl.
  destruct r as [oc| |oc| |]; cbn [fst snd]; [| |done..].
  - match goal with |- context [exec_subroutine vcl _ ?v] =>
      specialize (Hhit v); destruct (exec_subroutine vcl _ v) as [[a| |m] v'] end; try done.
    intros [= E%convert_restart]. by subst a.
  - match goal with |- context [exec_subroutine vcl _ ?v] =>
      specialize (Hmiss v); destruct (exec_subroutine vcl _ v) as [[a| |m] v'] end; try done.
    intros [= E%convert_restart]. by subst a.
Qed.

Lemma same_run_trans ctx1 ctx2 ctx3 : same_run ctx1 ctx2 → same_run ctx2 ctx3 → same_run ctx1 ctx3.
Proof. unfold same_run. intros (? & ? & ?) (? & ? & ?). split_and!; congruence. Qed.

Lemma store_response_ok n beresp body gz gu unc ttl gr kp ctx w :
  eng_ok n (w_cache w) → n < u64_max →
  ∃ ctx' w', store_response beresp body gz gu unc ttl gr kp ctx w = Some (ctx', w')
    ∧ eng_ok (n + 1) (w_cache w') ∧ same_run ctx ctx'.
Proof.
  intros Hok Hn. unfold store_response.
  match goal with |- context [mbind _ ?o] =>
    assert (∃ w', o = Some w' ∧ eng_ok (n + 1) (w_cache w')) as (w' & E & Hok') end.
  { assert (Hsame : eng_ok (n + 1) (w_cache w)) by (eapply eng_ok_weaken; [|exact Hok]; lia).
    case_match; [|by eexists]. destruct body as [body|]; [|by eexists].
    destruct (r_digest _) as [d|]; [|by eexists].
    destruct (env_now (w_env w)) as [now e].
    match goal with |- context [CacheEngine_insert fmt_fixed d body ?i None now _] =>
      destruct (insert_ok fmt_fixed n (w_cache w) d body i None now Hok Hn) as (r & c & Ei & Hok' & _) end.
    rewrite Ei. by eexists. }
  rewrite E. cbn [mbind option_bind]. eexists _, _. split; [reflexivity|]. split; [done|].
  clear E. repeat case_match; by repeat split.
Qed.

(** A backend whose answer the client panics on. *)
Definition fetch_panics (backend : option SocketAddr) : Prop :=
  ∃ addr request e input, backend = Some addr
    ∧ (backend_exchange addr request e).1 = Ok input ∧ oversized input.

(** The fetch panics exactly on such an answer. *)
Lemma fetch_from_backend_panics addr request body e :
  (fetch_from_backend addr request body e).1 = None
  ↔ ∃ input, (backend_exchange addr (request_bytes show_addr addr request body) e).1 = Ok input ∧ oversized input.
Proof.
  unfold fetch_from_backend, oversized. destruct (backend_exchange _ _ _) as [[input|text] e']; cbn [fst].
  - destruct (read_response_ended (S (length input)) input ltac:(lia)) as (o & E & _). rewrite E. split.
    + destruct o as [[[response rb] k] rest|err|]; try done. intros _. by exists input.
    + intros (input' & [= <-] & E'). rewrite E in E'. by injection E' as ->.
  - split; [done|]. by intros (? & ? & _).
Qed.

(** It is the exchange of [Http1] without a pool. *)
Lemma fetch_from_backend_exchange `{ConnPool.DashIter} addr request body e input now :
  (backend_exchange addr (request_bytes show_addr addr request body) e).1 = Ok input →
  ∃ ex, send_backend_request show_addr (S (length input)) now (Ok 0%nat) (λ _, input) addr request body None = Some ex
    ∧ (fetch_from_backend addr request body e).1
      = match ex with
        | Answered (Ok r) _ _ => Some (Ok r)
        | Answered (Err err) _ _ => Some (Err (TransportError.display io_text err))
        | ExchangePanics => None
        end.
Proof.
  unfold send_backend_request, fetch_from_backend. destruct (backend_exchange _ _ _) as [answer e']. cbn [fst]. intros ->.
  destruct (read_response_ended (S (length input)) input ltac:(lia)) as (o & -> & _).
  destruct o as [[[response rb] k] rest|err|]; by eexists.
Qed.

(** The fetch moves the request on, or panics on the answer of the backend. *)
Lemma state_fetch_ok n backend vcl conn ctx w :
  eng_ok n (w_cache w) → n < u64_max →
  ∃ o w', state_fetch backend vcl conn ctx w = Some (o, w')
    ∧ eng_ok (n + 1) (w_cache w')
    ∧ match o with Some ctx' => same_run ctx ctx' | None => fetch_panics backend end.
Proof.
  intros Hok Hn. assert (Hw : eng_ok (n + 1) (w_cache w)) by (eapply eng_ok_weaken; [|exact Hok]; lia).
  unfold state_fetch. destruct backend as [addr|]; [|eexists _, _; split; [done|]; by split].
  pose proof (run_backend_fetch_same vcl conn (build_bereq (r_request ctx)) ctx) as Hs1.
  destruct (run_backend_fetch _ _ _ _) as [ctx1 [bereq|]]; [|eexists _, _; split; [done|]; by split].
  pose proof (fetch_from_backend_panics addr bereq None (w_env w)) as Hp.
  destruct (fetch_from_backend _ _ _ _) as [[[[beresp body]|msg]|] e]; cbn [fst] in Hp.
  2: { eexists _, _; split; [done|]; by split. }
  2: { eexists _, _. split; [done|]. split; [done|]. destruct (proj1 Hp eq_refl) as (input & Ei & Hi).
       by exists addr, (request_bytes show_addr addr bereq None), (w_env w), input. }
  pose proof (run_backend_response_same vcl conn bereq beresp (with_bereq (Some bereq) ctx1)) as Hs2.
  destruct (run_backend_response _ _ _ _ _) as [ctx2 [[[[[[[b gz] gu] unc] ttl] gr] kp]|]].
  2: { eexists _, _. split; [done|]. split; [done|]. exact (same_run_trans _ _ _ Hs1 Hs2). }
  destruct (store_response_ok n b body gz gu unc ttl gr kp ctx2 (mkWorld (w_cache w) e) Hok Hn)
    as (ctx3 & w3 & E & Hok3 & Hs3).
  rewrite E. exists (Some ctx3), w3. split; [done|]. split; [done|].
  apply (same_run_trans _ ctx2); [|done]. exact (same_run_trans _ _ _ Hs1 Hs2).
Qed.

Lemma apply_range_total req p : is_Some (apply_range req p).
Proof.
  unfold apply_range. destruct (HttpMessage_get_header _ _) as [v|]; [|done].
  destruct p.2 as [body|]; [|done]. destruct (_ && _); [|done].
  destruct (parse_range_header v _) as [rs|] eqn:E; [|done].
  apply range_header_in_bounds in E as [_ E]; [|lia].
  destruct rs as [|[s e] [|]]; [done| |done]. apply Forall_cons in E as [E _]. simpl in E.
  unfold slice_inclusive. rewrite (proj2 (Z.leb_le s (e + 1))), (proj2 (Z.ltb_lt e (Z.of_nat (length body)))) by lia. done.
Qed.

Lemma state_deliver_ok vcl conn cells ctx :
  ∃ ctx', state_deliver vcl conn cells ctx = Some ctx' ∧ same_run ctx ctx'.
Proof.
  unfold state_deliver. match goal with |- context [apply_range ?r ?p] =>
    destruct (apply_range_total r p) as [q E] end. rewrite E. cbn [mbind option_bind].
  pose proof (run_deliver_same vcl conn (with_resp_body None ctx) q) as Hs.
  destruct (run_deliver _ _ _ _) as [ctx' [q'|]]; eexists; (split; [done|]); exact Hs.
Qed.

(** Rounds to [Done] without a restart. *)
Definition server_rank (s : RequestState.t) : nat :=
  match s with
  | RequestState.Recv => 5
  | RequestState.Lookup => 4
  | RequestState.Pass | RequestState.Miss => 3
  | RequestState.Fetch => 2
  | RequestState.Pipe | RequestState.Deliver | RequestState.Synth => 1
  | RequestState.Done => 0
  end.

(** Rounds left: six per restart that may still come. *)
Definition rounds (ctx : RequestContext) : nat :=
  6 * Z.to_nat (max_restarts ctx - restarts ctx) + server_rank (r_state ctx).

Definition counters_ok (ctx : RequestContext) : Prop :=
  0 ≤ restarts ctx ≤ max_restarts ctx ∧ max_restarts ctx ≤ u32_max.

(** A round without a restart: the rank goes down. *)
Lemma rounds_down ctx ctx' s :
  same_run ctx ctx' → counters_ok ctx → (server_rank s < server_rank (r_state ctx))%nat →
  counters_ok (with_state s ctx') ∧ (rounds (with_state s ctx') < rounds ctx)%nat.
Proof.
  intros (Hs & Hr & Hm) Hc Hlt. unfold rounds, counters_ok in *. simpl. rewrite Hr, Hm.
  split; [done|lia].
Qed.

(** A round that ends in [RequestFsm::step]: unless the lookup restarts the request,
    there is less to do. *)
Lemma rounds_step ctx ctx' :
  same_run ctx ctx' → counters_ok ctx → r_state ctx ≠ RequestState.Done →
  r_state ctx ≠ RequestState.Synth →
  counters_ok (snd (RequestFsm.step ctx'))
  ∧ ((r_state ctx = RequestState.Lookup → vcl_action ctx' ≠ Some VclAction.Restart) →
     (rounds (snd (RequestFsm.step ctx')) < rounds ctx)%nat).
Proof.
  intros Hs Hc Hnd Hns. split.
  { destruct Hs as (_ & Hr & Hm). unfold counters_ok in *. cbn. by rewrite Hr, Hm. }
  intros Hl. apply rounds_down; [done..|].
  destruct Hs as (-> & _). destruct (r_state ctx); simpl; try (done || lia);
    unfold RequestFsm.handle_recv, RequestFsm.handle_lookup; specialize (Hl eq_refl) || clear Hl;
    destruct (vcl_action ctx') as [[]|]; simpl; done || lia.
Qed.

(** A round that restarts the request from [Deliver]. *)
Lemma rounds_restart ctx ctx' :
  same_run ctx ctx' → counters_ok ctx → r_state ctx = RequestState.Deliver →
  restarts ctx' < max_restarts ctx' →
  let ctx'' := with_action None
    (with_state RequestState.Recv (with_restarts (u32_wrap (restarts ctx' + 1)) ctx')) in
  counters_ok ctx'' ∧ (rounds ctx'' < rounds ctx)%nat.
Proof.
  intros (Hs & Hr & Hm) [Hc Hmax] Hst Hlt. rewrite Hr, Hm in Hlt. unfold counters_ok, rounds. simpl.
  rewrite ?Hr, ?Hm, Hst, u32_wrap_small by lia. simpl. lia.
Qed.

(** The round of [Synth] ends the request. *)
Lemma rounds_synth vcl conn ctx :
  counters_ok ctx → r_state ctx = RequestState.Synth →
  let ctx' := with_state RequestState.Done (state_synth vcl conn ctx) in
  counters_ok ctx' ∧ (rounds ctx' < rounds ctx)%nat.
Proof.
  intros [Hc Hm] Hst.
  assert (restarts ctx ≤ restarts (state_synth vcl conn ctx) ≤ max_restarts ctx
          ∧ max_restarts (state_synth vcl conn ctx) = max_restarts ctx) as [Hr Hmax].
  { unfold state_synth. repeat case_match; simpl; try lia. simpl in *.
    match goal with H : (_ <? _) = true |- _ => apply Z.ltb_lt in H end. rewrite u32_wrap_small by lia. lia. }
  unfold counters_ok, rounds. simpl. rewrite Hmax, Hst. simpl. lia.
Qed.

(** A round is safe whatever the program: the cache keeps its invariant, and only a
    backend's answer makes it panic. *)
Lemma serve_step_ok n backend vcl conn ctx w :
  eng_ok n (w_cache w) → n < u64_max → counters_ok ctx → r_state ctx ≠ RequestState.Done →
  ∃ o w', serve_step backend vcl conn ctx w = Some (o, w') ∧ eng_ok (n + 1) (w_cache w')
    ∧ match o with
      | Some ctx' => counters_ok ctx' ∧ (lookup_restarts_not vcl → (rounds ctx' < rounds ctx)%nat)
      | None => fetch_panics backend
      end.
Proof.
  intros Hok Hn Hc Hnd.
  assert (Hw : eng_ok (n + 1) (w_cache w)) by (eapply eng_ok_weaken; [|exact Hok]; lia).
  assert (Hstep : ∀ c, same_run ctx c → r_state ctx ≠ RequestState.Synth →
    (lookup_restarts_not vcl → r_state ctx = RequestState.Lookup → vcl_action c ≠ Some VclAction.Restart) →
    counters_ok (snd (RequestFsm.step c))
    ∧ (lookup_restarts_not vcl → (rounds (snd (RequestFsm.step c)) < rounds ctx)%nat)).
  { intros c Hs Hns Hl. destruct (rounds_step ctx c Hs Hc Hnd Hns) as [H1 H2]. split; [done|]. intros Hv. by apply H2, Hl. }
  unfold serve_step. destruct (r_state ctx) eqn:Est; [| | | | | | | |done..].
  all: try (eexists _, _; split; [done|]; split; [done|]).
  - apply Hstep; [apply state_recv_same|done..].
  - destruct (state_lookup_ok n vcl conn ctx w Hok Hn) as (c & w' & E & Hok' & Hs & Hna).
    rewrite E. cbn [mbind option_bind]. eexists _, _. split; [done|]. split; [done|]. apply Hstep; auto.
  - apply Hstep; [destruct vcl; [apply (run_vcl_sub_same _ _ _ (with_is_pass true ctx))|by repeat split]|done..].
  - apply Hstep; [by repeat split|done..].
  - apply Hstep; [destruct vcl; [apply run_vcl_sub_same|by repeat split]|done..].
  - destruct (state_fetch_ok n backend vcl conn ctx w Hok Hn) as ([c|] & w' & E & Hok' & Hs);
      rewrite E; cbn [mbind option_bind]; [|by eexists _, _].
    case_decide; (eexists _, _; split; [done|]; split; [done|]).
    + destruct (rounds_down ctx c RequestState.Synth) as [? ?]; [done..| |by split]. rewrite Est. simpl. lia.
    + by apply Hstep.
  - destruct (state_deliver_ok vcl conn (eng_cells (w_cache w)) ctx) as (c & E & Hs).
    rewrite E. cbn [mbind option_bind]. case_decide; [destruct (Z.ltb_spec (restarts c) (max_restarts c))|];
      (eexists _, _; split; [done|]; split; [done|]); [|by apply Hstep..].
    destruct (rounds_restart ctx c) as [? ?]; [done..|by split].
  - destruct (rounds_synth vcl conn ctx) as [? ?]; [done..|by split].
Qed.

Lemma serve_loop_ok fuel backend vcl conn : ∀ n ctx w,
  eng_ok n (w_cache w) → n + Z.of_nat fuel ≤ u64_max → lookup_restarts_not vcl → counters_ok ctx →
  (rounds ctx ≤ fuel)%nat →
  ∃ w', eng_ok (n + Z.of_nat fuel) (w_cache w')
    ∧ ((∃ ctx', serve_loop fuel backend vcl conn ctx w = Finished ctx' w' ∧ r_state ctx' = RequestState.Done)
       ∨ serve_loop fuel backend vcl conn ctx w = FetchPanicked w' ∧ fetch_panics backend).
Proof.
  induction fuel as [|fuel IH]; intros n ctx w Hok Hn Hvcl Hc Hf; cbn [serve_loop].
  - assert (r_state ctx = RequestState.Done) as Hd
      by (unfold rounds in Hf; destruct (r_state ctx); simpl in Hf; done || lia).
    rewrite decide_True by done. exists w. rewrite Z.add_0_r. split; [done|]. left. by exists ctx.
  - case_decide as Hd.
    { exists w. split; [eapply eng_ok_weaken; [|exact Hok]; lia|]. left. by exists ctx. }
    destruct (serve_step_ok n backend vcl conn ctx w Hok ltac:(lia) Hc Hd) as ([ctx1|] & w1 & E & Hok1 & Hs); rewrite E.
    + destruct Hs as [Hc1 Hlt]. specialize (Hlt Hvcl).
      destruct (IH (n + 1) ctx1 w1 Hok1 ltac:(lia) Hvcl Hc1 ltac:(lia)) as (w' & Hok' & H).
      exists w'. split; [|done]. eapply eng_ok_weaken; [|exact Hok']. lia.
    + exists w1. split; [eapply eng_ok_weaken; [|exact Hok1]; lia|]. by right.
Qed.

(** A cache reached from a new engine by at most [n] operations. *)
Definition reachable_in (n : Z) (e : cache_t) : Prop :=
  ∃ config hash storage cap log max ops,
    0 < cap ∧ RingBuffer_new cap = Some log ∧ Z.of_nat (length ops) ≤ n ∧ n ≤ u64_max
    ∧ engine_run fmt_fixed ops (CacheEngine_with_max_objects config hash storage log max) = Some e.

Lemma reachable_in_ok n e : reachable_in n e → eng_ok n e.
Proof.
  intros (config & hash & storage & cap & log & max & ops & Hcap & Hlog & Hlen & Hn & E).
  destruct (engine_run_ok fmt_fixed ops 0 _ (eng_ok_new config hash storage log max cap Hcap Hlog)
    ltac:(lia)) as (e' & E' & Hok & _). rewrite E in E'. simplify_eq.
  eapply eng_ok_weaken; [|exact Hok]. lia.
Qed.

(** The loop ends within 29 rounds (five states for the first pass and six
    for each of the four restarts), for every VCL whose [vcl_hit] and [vcl_miss] do
    not return restart: with a response, or in the panic of the fetch from a backend
    whose answer is oversized. *)
Lemma handle_request_answers n request body conn backend vcl vxid w :
  reachable_in n (w_cache w) → n + 29 ≤ u64_max → lookup_restarts_not vcl →
  ∃ r w', handle_request 29 request body conn backend vcl vxid w = Some (Some (r, w'))
    ∧ eng_ok (n + 29) (w_cache w') ∧ (r = None → fetch_panics backend).
Proof.
  intros Hr%reachable_in_ok Hn Hvcl. unfold handle_request. destruct (env_now (w_env w)) as [now e].
  destruct (serve_loop_ok 29 backend vcl conn n
    (with_body body (RequestContext_new request vxid now)) (mkWorld (w_cache w) e))
    as (w' & Hok & [(ctx' & E & _)|[E Hp]]); [done|lia|done| |vm_compute; lia|rewrite E..].
  - unfold counters_ok. simpl. unfold u32_max. lia.
  - by eexists _, _.
  - by eexists _, _.
Qed.

(* ------------------------------------------------------------------ *)
(** ** Restarts from the lookup *)

Lemma lookup_absent d req now (c : cache_t) :
  eng_objects c !! d = None →
  CacheEngine_lookup d req now c = Some (Miss, eng_with_stats (fetch_add CMiss 1) c).
Proof. intros Hd. unfold CacheEngine_lookup. by rewrite Hd. Qed.

Section lookup_restart.
  Context (vcl : Vcl) (request : HttpMessage).
  Context (Hrecv : ∀ v : vctx, exec_subroutine vcl (str "vcl_recv") v = (ExecFallthrough, v)).
  Context (Hmiss : ∀ v : vctx,
             exec_subroutine vcl (str "vcl_miss") v = (ExecAction InterpreterAction.Restart, v)).

Lemma restart_loop fuel backend conn : ∀ ctx w,
  r_request ctx = request → r_state ctx = RequestState.Recv ∨ r_state ctx = RequestState.Lookup →
  eng_objects (w_cache w) !! compute_digest (cache_key request) = None →
  serve_loop fuel backend (Some vcl) conn ctx w = OutOfFuel.
Proof.
  induction fuel as [|fuel IH]; intros ctx w Hreq Hst Habs; cbn [serve_loop].
  - rewrite decide_False; [done|]. by destruct Hst as [-> | ->].
  - rewrite decide_False by by destruct Hst as [-> | ->]. unfold serve_step.
    destruct Hst as [Hst|Hst]; rewrite Hst.
    + apply IH; [|right|done]; unfold state_recv; rewrite Hrecv; [done|].
      unfold RequestFsm.step. cbn. by rewrite Hst.
    + unfold state_lookup. destruct (env_now (w_env w)) as [now e]. rewrite Hreq, lookup_absent by done.
      cbn [mbind option_bind]. rewrite Hmiss. apply IH; [done|left|done].
      unfold RequestFsm.step. cbn. by rewrite Hst.
Qed.

(** Restarts from the lookup are not counted: with a VCL whose [vcl_miss]
    returns restart, a request for an object that is not cached never finishes,
    in any number of rounds; [max_restarts] bounds the restarts of [vcl_deliver]
    only. *)
Theorem lookup_restart_diverges fuel body conn backend vxid w :
  eng_objects (w_cache w) !! compute_digest (cache_key request) = None →
  handle_request fuel request body conn backend (Some vcl) vxid w = Some None.
Proof.
  intros Habs. unfold handle_request. destruct (env_now (w_env w)) as [now e].
  rewrite restart_loop; [done..|by left|done].
Qed.

End lookup_restart.

(* ------------------------------------------------------------------ *)
(** ** A miss, then a hit *)

(** No conditional and no Range header. *)
Definition plain_request (req : HttpMessage) : Prop :=
  HttpMessage_get_header req (str "Range") = None
  ∧ HttpMessage_get_header req (str "If-None-Match") = None
  ∧ HttpMessage_get_header req (str "If-Modified-Since") = None.

Lemma plain_unconditional req response :
  plain_request req → server_evaluate_conditional req response = false.
Proof. intros (_ & H1 & H2). unfold server_evaluate_conditional. by rewrite H1, H2. Qed.

(** Without VCL a plain request is delivered the base response. *)
Lemma deliver_plain conn cells ctx :
  plain_request (r_request ctx) → do_gzip ctx = false →
  let p := add_content_length (base_response ctx cells) in
  state_deliver None conn cells ctx
    = Some (with_resp_body p.2 (with_response (Some p.1) (with_resp_body None ctx))).
Proof.
  intros Hp Hg. unfold state_deliver, apply_conditional, apply_range, run_deliver, apply_gzip.
  cbn [with_resp_body r_request do_gzip]. rewrite plain_unconditional, andb_false_r by done.
  destruct Hp as (-> & _). cbn [mbind option_bind with_resp_body do_gzip]. by rewrite Hg.
Qed.

(** The response to a hit: status 200, the body and its length; none of the
    header fields the backend sent. *)
Definition hit_response (body : option bytes) : HttpMessage * option bytes :=
  add_content_length
    (HttpMessage_set_header (HttpMessage_new_response HttpStatus_OK Http11)
       (str "X-Cache") (str "HIT"), body).

(** The response to a miss: the backend's status and fields (but the hop-by-hop
    ones), its body and the length of that. *)
Definition miss_response (beresp : HttpMessage) (body : bytes) : HttpMessage * option bytes :=
  add_content_length
    (copy_headers [str "connection"; str "transfer-encoding"] (msg_headers beresp)
       (HttpMessage_set_header (HttpMessage_new_response (msg_status beresp) Http11)
          (str "X-Cache") (str "MISS")), Some body).

(** The clock readings of a request: one on arrival, one in the lookup. *)
Definition lookup_time (e : Env) : VtimReal := (env_now (env_now e).2).1.
Definition after_lookup (e : Env) : Env := (env_now (env_now e).2).2.

Lemma serve_loop_S fuel backend vcl conn ctx w ctx' w' :
  r_state ctx ≠ RequestState.Done → serve_step backend vcl conn ctx w = Some (Some ctx', w') →
  serve_loop (S fuel) backend vcl conn ctx w = serve_loop fuel backend vcl conn ctx' w'.
Proof. intros Hd Hs. cbn [serve_loop]. by rewrite decide_False, Hs. Qed.

Lemma serve_loop_done fuel backend vcl conn ctx w :
  r_state ctx = RequestState.Done → serve_loop fuel backend vcl conn ctx w = Finished ctx w.
Proof. intros Hd. destruct fuel; cbn [serve_loop]; by rewrite decide_True. Qed.

(** The lookup's round, by the result of the lookup, without VCL. *)
Lemma no_vcl_lookup backend conn ctx w now e r c :
  r_state ctx = RequestState.Lookup → env_now (w_env w) = (now, e) →
  CacheEngine_lookup (compute_digest (cache_key (r_request ctx))) None now (w_cache w) = Some (r, c) →
  let ctx1 := with_digest (Some (compute_digest (cache_key (r_request ctx)))) ctx in
  serve_step backend None conn ctx w
    = Some (Some match r with
            | Hit oc | Grace oc =>
                with_state RequestState.Deliver
                  (with_action (Some VclAction.Deliver) (with_obj (Some oc) ctx1))
            | HitForPass => with_state RequestState.Pass (with_action (Some VclAction.Pass) ctx1)
            | Busy | Miss => with_state RequestState.Miss (with_action None ctx1)
            end, mkWorld c e).
Proof.
  intros Hst He Hl. unfold serve_step. rewrite Hst. unfold state_lookup. rewrite He, Hl.
  cbn [mbind option_bind]. unfold RequestFsm.step.
  destruct r; cbn; by rewrite Hst.
Qed.

(** The deliver round of a plain request, without VCL. *)
Lemma no_vcl_deliver backend conn ctx w :
  r_state ctx = RequestState.Deliver → vcl_action ctx ≠ Some VclAction.Restart →
  plain_request (r_request ctx) → do_gzip ctx = false →
  let p := add_content_length (base_response ctx (eng_cells (w_cache w))) in
  serve_step backend None conn ctx w
    = Some (Some (with_state RequestState.Done
              (with_resp_body p.2 (with_response (Some p.1) (with_resp_body None ctx)))), w).
Proof.
  intros Hst Ha Hp Hg. unfold serve_step. rewrite Hst, deliver_plain by done.
  cbn [mbind option_bind]. rewrite decide_False by done. unfold RequestFsm.step. cbn. by rewrite Hst.
Qed.

(** The object a miss without VCL stores: the default lifetimes. *)
Definition default_info : TtlInfo :=
  mkTtlInfo (VtimDur_from_secs (f64_of_Z 120)) (VtimDur_from_secs (f64_of_Z 10))
    (VtimDur_from_secs f64_zero).

(** The fetch round without VCL, on a cacheable answer of the backend. *)
Lemma no_vcl_fetch addr conn ctx w d beresp body e :
  r_state ctx = RequestState.Fetch → vcl_action ctx = None → r_is_pass ctx = false →
  r_digest ctx = Some d → msg_status beresp = HttpStatus_OK →
  fetch_from_backend addr (build_bereq (r_request ctx)) None (w_env w) = (Some (Ok (beresp, Some body)), e) →
  serve_step (Some addr) None conn ctx w
    = '(_, c) ← CacheEngine_insert fmt_fixed d body default_info None (env_now e).1 (w_cache w);
      Some (Some (with_state RequestState.Deliver
              (with_resp_body (Some body)
                 (with_beresp (Some beresp)
                    (with_beresp_info false false false None None None
                       (with_bereq (Some (build_bereq (r_request ctx))) ctx))))),
            mkWorld c (env_now e).2).
Proof.
  intros Hst Ha Hpass Hd Hok Hb. unfold serve_step. rewrite Hst.
  unfold state_fetch, run_backend_fetch, run_backend_response, store_response.
  rewrite Hb. cbn [with_beresp_info with_bereq r_is_pass r_digest w_env w_cache]. rewrite Hpass, Hd, Hok.
  rewrite bool_decide_true by done. cbn [negb andb default]. destruct (env_now e) as [t e'].
  change (mkTtlInfo _ _ _) with default_info.
  destruct (CacheEngine_insert _ _ _ _ _ _ _) as [[r c]|]; [|done].
  cbn. rewrite decide_False by (rewrite Ha; done). unfold RequestFsm.step. cbn. by rewrite Hst.
Qed.

Lemma no_vcl_hit req b conn backend vxid w oc c' :
  plain_request req →
  CacheEngine_lookup (compute_digest (cache_key req)) None (lookup_time (w_env w)) (w_cache w)
    = Some (Hit oc, c') →
  handle_request 29 req b conn backend None vxid w
    = Some (Some (Some (hit_response (get_body oc (eng_cells c'))), mkWorld c' (after_lookup (w_env w)))).
Proof.
  intros Hp Hl. unfold handle_request, lookup_time, after_lookup in *.
  destruct (env_now (w_env w)) as [t1 e1]. cbn [fst snd] in *.
  destruct (env_now e1) as [t2 e2] eqn:E2. cbn [fst snd] in *.
  erewrite serve_loop_S; [|done|reflexivity].
  erewrite serve_loop_S; [|done|by eapply no_vcl_lookup].
  erewrite serve_loop_S; [|done|by apply no_vcl_deliver].
  rewrite serve_loop_done by done. do 2 f_equal. cbn. by destruct (get_body oc (eng_cells c')).
Qed.

Lemma no_vcl_miss req b conn addr vxid w c beresp body e2 :
  plain_request req → msg_status beresp = HttpStatus_OK →
  CacheEngine_lookup (compute_digest (cache_key req)) None (lookup_time (w_env w)) (w_cache w)
    = Some (Miss, c) →
  fetch_from_backend addr (build_bereq req) None (after_lookup (w_env w)) = (Some (Ok (beresp, Some body)), e2) →
  handle_request 29 req b conn (Some addr) None vxid w
    = '(_, c') ← CacheEngine_insert fmt_fixed (compute_digest (cache_key req)) body default_info None
                   (env_now e2).1 c;
      Some (Some (Some (miss_response beresp body), mkWorld c' (env_now e2).2)).
Proof.
  intros Hp Hst Hl Hb. unfold handle_request, lookup_time, after_lookup in *.
  destruct (env_now (w_env w)) as [t1 e1]. cbn [fst snd] in *.
  destruct (env_now e1) as [t2 e1'] eqn:E2. cbn [fst snd] in *.
  erewrite serve_loop_S; [|done|reflexivity].
  erewrite serve_loop_S; [|done|by eapply no_vcl_lookup].
  erewrite serve_loop_S; [|done|reflexivity].
  match goal with |- context [serve_loop (S _) _ _ _ ?x ?w'] =>
    pose proof (no_vcl_fetch addr conn x w' (compute_digest (cache_key req)) beresp body e2
      eq_refl eq_refl eq_refl eq_refl Hst Hb) as Hfetch end.
  cbn [w_cache] in Hfetch. destruct (CacheEngine_insert _ _ _ _ _ _ c) as [[r c']|].
  - erewrite serve_loop_S; [|done|exact Hfetch]. erewrite serve_loop_S; [|done|by apply no_vcl_deliver].
    by rewrite serve_loop_done.
  - cbn [serve_loop]. by rewrite decide_False, Hfetch.
Qed.


(** Requests without VCL one after the other, each with its own environment (what the
    clock and the network are by then): the responses and environments after them. *)
Record later_request : Type := mkLater {
  lq_request : HttpMessage;
  lq_body : option bytes;
  lq_conn : ConnectionInfo IpAddr;
  lq_backend : option SocketAddr;
  lq_vxid : Vxid;
  lq_env : Env;
}.

Fixpoint handle_later (ls : list later_request) (c : cache_t) : option (list ((HttpMessage * option bytes) * Env) * cache_t) :=
  match ls with
  | [] => Some ([], c)
  | l :: ls =>
      match handle_request 29 (lq_request l) (lq_body l) (lq_conn l) (lq_backend l) None (lq_vxid l) (mkWorld c (lq_env l)) with
      | Some (Some (Some response, w)) =>
          '(rs, c) ← handle_later ls (w_cache w);
          Some ((response, w_env w) :: rs, c)
      | _ => None
      end
  end.

(** The request has this key, is plain, and looks the cache up before the object expires. *)
Definition in_time (key : bytes) (oc : ObjCore) (l : later_request) : Prop :=
  cache_key (lq_request l) = key ∧ plain_request (lq_request l) ∧ is_expired oc (lookup_time (lq_env l)) = false.

(** While it is held and fresh, every request is answered with it. *)
Lemma handle_later_held key oc body ls : ∀ n c,
  eng_ok n c → n + Z.of_nat (length ls) ≤ u64_max → held (compute_digest key) oc body c →
  body ≠ [] → Forall (in_time key oc) ls →
  ∃ c2, handle_later ls c = Some ((λ l, (hit_response (Some body), after_lookup (lq_env l))) <$> ls, c2)
    ∧ eng_objects c2 = eng_objects c.
Proof.
  induction ls as [|l ls IH]; intros n c Hok Hn Hh Hne HF; [by exists c|].
  apply Forall_cons in HF as [(Hkey & Hp & Hexp) HF]. cbn [length] in Hn.
  destruct (lookup_held n c (compute_digest key) oc body None _ Hok ltac:(lia) Hh eq_refl Hexp) as (c1 & El & Hok1 & Hh1 & Ho1).
  cbn [handle_later]. rewrite <- Hkey in El.
  rewrite (no_vcl_hit (lq_request l) _ _ _ _ (mkWorld c (lq_env l)) oc c1 Hp El).
  destruct Hh1 as (Hh1 & Hs1 & Hb1). rewrite Hb1, decide_False by done. cbn [w_cache w_env].
  destruct (IH (n + 1) c1 Hok1 ltac:(lia)) as (c2 & E2 & Ho2); [by split_and!; rewrite ?decide_False in *|done..|].
  rewrite E2. cbn [mbind option_bind]. exists c2. split; [done|]. by rewrite Ho2.
Qed.


(* ------------------------------------------------------------------ *)
(** ** Restarts from [vcl_synth] *)

(** A restart from [vcl_synth] is lost: the request that asked for it (with
    restarts left) ends at once, [Synth] being followed by [Done] whatever the
    handler set, and the client gets the response of an earlier round or, in the
    first one, an empty 500 in place of the synthetic response. *)
Theorem synth_restart_lost fuel backend vcl conn ctx w :
  r_state ctx = RequestState.Synth → restarts ctx < max_restarts ctx →
  (∀ v, (exec_subroutine vcl (str "vcl_synth") v).1 = ExecAction InterpreterAction.Restart) →
  ∃ ctx', serve_loop (S fuel) backend (Some vcl) conn ctx w = Finished ctx' w
    ∧ restarts ctx' = u32_wrap (restarts ctx + 1)
    ∧ final_response ctx' = final_response ctx.
Proof.
  intros Hst Hlt Hv.
  eexists. erewrite serve_loop_S; [|by rewrite Hst|unfold serve_step; rewrite Hst; reflexivity].
  rewrite serve_loop_done by done. split; [done|]. unfold state_synth.
  match goal with |- context [exec_subroutine vcl _ ?v] =>
    specialize (Hv v); destruct (exec_subroutine vcl _ v) as [res v'] end.
  cbn [fst] in Hv. subst res. cbn [with_request with_synth_body restarts max_restarts].
  rewrite (proj2 (Z.ltb_lt _ _) Hlt). done.
Qed.
End runtime.


(* ------------------------------------------------------------------ *)
(** ** A concrete server *)

(** A clock that ticks once a second, a backend that answers every request with
    an uncacheable "hello", the first bytes of the key for a hash. *)
Definition sample_answer : bytes :=
  str "HTTP/1.1 200 OK" ++ [x0d; x0a] ++ str "Cache-Control: no-store, private" ++ [x0d; x0a]
  ++ str "Content-Length: 5" ++ [x0d; x0a; x0d; x0a] ++ str "hello".
Definition sample_beresp : HttpMessage :=
  HttpMessage_set_header
    (HttpMessage_set_header (HttpMessage_new_response HttpStatus_OK Http11) (str "Cache-Control")
       (str "no-store, private")) (str "Content-Length") (str "5").

(** An answer no buffer can hold. *)
Definition huge_answer : bytes :=
  str "HTTP/1.1 200 OK" ++ [x0d; x0a] ++ str "Content-Length: 18446744073709551615" ++ [x0d; x0a; x0d; x0a].

Definition env_answering (answer : bytes) : ServerEnv := {|
  Env := Z;
  env_now e := (f64_of_Z e, e + 1);
  backend_exchange _ _ e := (Ok answer, e + 1);
  show_addr _ := str "127.0.0.1:8080";
  io_text _ := [];
  env_errors := no_errors;
  sha256 k := fun_to_vec (λ i : fin DIGEST_LEN, default x00 (k !! fin_to_nat i));
  decompress_gzip _ := None;
  compress_gzip _ := None;
  str_to_lowercase s := to_ascii_lowercase s;
  from_utf8_lossy s := s;
|}.

#[local] Instance sample_env : ServerEnv := env_answering sample_answer.

(** VCL programs whose subroutines return a fixed action, if they are defined. *)
#[local] Instance sample_interp : VclInterpreter IpAddr := {
  Vcl := list (bytes * InterpreterAction.t);
  VclValue := f64;
  to_duration_secs v := v;
  exec_subroutine vcl name v :=
    (match List.find (λ p, bool_decide (p.1 = name)) vcl with
     | Some (_, a) => ExecAction a
     | None => ExecFallthrough
     end, v);
}.

#[local] Instance server_stevedore : Stevedore Malloc.t := Malloc.stevedore 56.

Definition sample_get (url : bytes) : HttpMessage :=
  HttpMessage_set_header (HttpMessage_new_request HttpMethod_Get url Http11) (str "Host")
    (str "example.org").
Definition sample_world : world := mkWorld engine1 1000.
Definition sample_addr : SocketAddr := mkSocketAddr LOCALHOST 8080.
Definition sample_conn : ConnectionInfo IpAddr := mkConn IpAddr LOCALHOST LOCALHOST false.

Abbreviation sample_handle :=
  (handle_request (regex := substring_regex) (env := sample_env) (interp := sample_interp) sample_fmt).

Lemma engine1_reachable_in : reachable_in sample_fmt 10 engine1.
Proof.
  exists tt, (hs_new, ∅), (Malloc.new (str "s0") 10000), 8, sample_log, 2, engine_sample.
  split_and!; [lia|reflexivity|vm_compute; discriminate|unfold u64_max; lia|].
  apply default_is_Some. vm_compute. reflexivity.
Qed.

Lemma lookup_restart_diverges_witness :
  sample_handle 1000 (sample_get (str "/a")) None sample_conn (Some sample_addr)
    (Some [(str "vcl_miss", InterpreterAction.Restart)]) (mkVxid 7) sample_world = Some None.
Proof.
  apply (lookup_restart_diverges (env := sample_env) (interp := sample_interp) sample_fmt
           [(str "vcl_miss", InterpreterAction.Restart)] (sample_get (str "/a"))
           (λ v, eq_refl) (λ v, eq_refl) 1000 None sample_conn (Some sample_addr) (mkVxid 7) sample_world).
  vm_compute. reflexivity.
Defined.

Definition stored_hello : option (result ObjCore CacheError * sample_t) :=
  CacheEngine_insert sample_fmt (compute_digest (cache_key (sample_get (str "/a")))) (str "hello")
    default_info None (f64_of_Z 1003) (eng_with_stats (fetch_add CMiss 1) engine1).
Definition stored_oc : ObjCore :=
  built_object (eng_next engine1) (compute_digest (cache_key (sample_get (str "/a")))) default_info
    None (f64_of_Z 1003).
Definition engine_hello : sample_t :=
  match stored_hello with Some (_, e) => e | None => engine1 end.

(** The answer is marked no-store and private; it is stored nevertheless, and
    served a hundred seconds later to a POST and to another GET. *)
Definition sample_later : list later_request :=
  [mkLater (HttpMessage_set_header (HttpMessage_new_request HttpMethod_Post (str "/a") Http11)
              (str "Host") (str "example.org")) (Some (str "body")) sample_conn None (mkVxid 8) (1100 : Env);
   mkLater (sample_get (str "/a")) None sample_conn None (mkVxid 9) (1110 : Env)].


(** A backend that announces more than a buffer can hold makes the request panic. *)
Example huge_answer_panics :
  match handle_request (regex := substring_regex) (env := env_answering huge_answer) (interp := sample_interp)
          sample_fmt 29 (sample_get (str "/a")) None sample_conn (Some sample_addr) None (mkVxid 7)
          (mkWorld engine1 (1000 : @Env (env_answering huge_answer))) with
  | Some (Some (r, _)) => r
  | _ => Some (sample_beresp, None)
  end = None.
Proof. vm_compute. reflexivity. Qed.

Definition synth_ctx : RequestContext :=
  with_state RequestState.Synth
    (with_synth_status (Some (HttpStatus_new 404)) (RequestContext_new (sample_get (str "/")) (mkVxid 1) f64_zero)).

Lemma synth_restart_lost_witness :
  ∃ ctx', serve_loop (env := sample_env) (interp := sample_interp) sample_fmt 5 None (Some [(str "vcl_synth", InterpreterAction.Restart)]) sample_conn
            synth_ctx sample_world = Finished ctx' sample_world
    ∧ restarts ctx' = 1
    ∧ final_response ctx'
      = (HttpMessage_new_response HttpStatus_INTERNAL_SERVER_ERROR Http11, None).
Proof.
  apply (synth_restart_lost (env := sample_env) (interp := sample_interp) sample_fmt 4); [reflexivity|reflexivity|done].
Defined.
