(* ===== verification/VclServer.v ===== *)
(** * The server with the VCL interpreter

    The interpreter of [rv-vcl/src/interpreter.rs] as the one the request pipeline
    of [rv-server/src/runtime.rs] runs: an instance of the pipeline's interface,
    and a condition on the program's text under which every request is answered. *)

From S2P Require Import Prelude RustStr F64 Enums Types HttpTypes Header Ban VclSyntax Lexer Parser Values.
From S2P Require Import VclInterp Backend Http1 ListHash HashSlinger Stevedore Request Delivery Engine Runtime.
Local Open Scope Z_scope.

(* ------------------------------------------------------------------ *)
(** ** Programs that do not restart from a set of subroutines *)

(** The statement has no [return(restart)]. *)
Definition is_restart_expr (e : Expr.t) : bool :=
  match e with
  | Expr.Ident n | Expr.Variable_ n | Expr.FunctionCall n _ => bool_decide (n = str "restart")
  | _ => false
  end.

Fixpoint no_restart (s : Statement.t) : bool :=
  match s with
  | Statement.Return a => negb (is_restart_expr a)
  | Statement.If _ body elses els =>
      forallb no_restart body && forallb (λ br, forallb no_restart br.2) elses
      && match els with Some b => forallb no_restart b | None => true end
  | _ => true
  end.

(** The subroutines named in [names] call only each other and never restart. *)
Definition closed_no_restart (names : list bytes) (program : VclProgram) : bool :=
  forallb (λ sub,
    negb (bool_decide (sub_name sub ∈ names))
    || (forallb no_restart (sub_body sub)
        && forallb (λ n, bool_decide (n ∈ names)) (flat_map calls_of (sub_body sub)))) (subs program).

Section server.
  Context {Ip : Type} (ip_to_string : Ip → bytes) {corefmt : CoreFmt}.
  Context {regex : RegexLib} {replace : RegexReplace} (now : VtimReal).

Abbreviation ctx_t := (VclContext Ip (VclValue.t Ip)).

Definition restarts_not (o : option (ControlFlow * ctx_t)) : Prop :=
  ∀ ctx, o ≠ Some (Return_ InterpreterAction.Restart, ctx).

Lemma from_name_restart n :
  InterpreterAction.from_name n = Some InterpreterAction.Restart → n = str "restart".
Proof.
  unfold InterpreterAction.from_name. cbn [match_str]. repeat (case_decide; [subst; try done|]). done.
Qed.

Lemma return_no_restart r a ctx :
  is_restart_expr a = false → (handle_return ip_to_string now r a ctx).1 ≠ Return_ InterpreterAction.Restart.
Proof.
  unfold handle_return, return_named.
  destruct a; try done; simpl; intros Hn%bool_decide_eq_false; try (case_decide; [done|]);
    (destruct (InterpreterAction.from_name _) as [act|] eqn:E; simpl; [|done]);
    intros [= ->]; by apply from_name_restart in E.
Qed.

Section exec.
  Context (r : option (bytes → bytes → list (VclValue.t Ip) → result (VclValue.t Ip) bytes)).
  Context (call : bytes → ctx_t → option (ControlFlow * ctx_t)).
  Context (good : bytes → Prop) (Hcall : ∀ n ctx, good n → restarts_not (call n ctx)).

Abbreviation exec := (exec_statement ip_to_string now r call).
Abbreviation safe s := (∀ ctx, restarts_not (exec s ctx)).

Lemma exec_list_no_restart stmts :
  Forall (λ s, safe s) stmts → ∀ ctx, restarts_not (exec_block ip_to_string now r call stmts ctx).
Proof.
  unfold exec_block. induction 1 as [|s stmts Hs _ IH]; intros ctx ctx'; simpl; [done|].
  destruct (exec s ctx) as [[flow c]|] eqn:E; simpl; [|done]. destruct flow as [|a|m]; [apply IH| |done].
  intros [= -> ->]. by apply (Hs ctx ctx').
Qed.

Lemma exec_no_restart s : no_restart s = true → Forall good (calls_of s) → safe s.
Proof.
  assert (Hlist : ∀ l, Forall (λ s, no_restart s = true → Forall good (calls_of s) → safe s) l →
            forallb no_restart l = true → Forall good (flat_map calls_of l) → Forall (λ s, safe s) l).
  { induction 1 as [|x l Hx _ IH]; [done|]. simpl. rewrite andb_true_iff, Forall_app. intros [? ?] [? ?].
    constructor; [by apply Hx|by apply IH]. }
  induction s as [x o v|x|n|a|c body elses els IHb IHe IHo|e|n ty args|e|e] using Statement.stmt_ind_nested;
    cbn [no_restart calls_of]; intros Hn Hg ctx; cbn [exec_statement]; try done.
  - unfold with_value. by case_match.
  - apply Hcall. by apply Forall_cons in Hg as [? _].
  - intros ctx'. apply negb_true_iff in Hn. pose proof (return_no_restart r a ctx Hn) as Ha.
    destruct (handle_return _ _ _ _ _). simpl in Ha. congruence.
  - rewrite !andb_true_iff in Hn. rewrite !Forall_app in Hg. destruct Hn as [[Hnb Hne] Hno], Hg as (Hb & He & Ho).
    destruct (eval_expr _ _ r ctx c) as [v|e]; [|done]. destruct (to_bool v).
    { by apply exec_list_no_restart, Hlist. }
    set (other := match els with Some b => _ | None => _ end).
    assert (Hother : restarts_not other).
    { unfold other. destruct els; [by apply exec_list_no_restart, Hlist|done]. }
    clearbody other. induction IHe as [|[c' b'] elses Hb' _ IH]; [done|]. simpl in He, Hne.
    rewrite Forall_app in He. destruct He as [He1 He2]. rewrite andb_true_iff in Hne. destruct Hne as [Hn1 Hn2].
    cbn [exec_branches]. destruct (eval_expr _ _ r ctx c') as [v'|e']; [|done]. destruct (to_bool v').
    + by apply exec_list_no_restart, Hlist.
    + by apply IH.
  - unfold with_value. by case_match.
  - unfold with_value. by case_match.
  - unfold with_value. by case_match.
Qed.
End exec.

Lemma body_no_restart names program vi fuel : ∀ sub ctx,
  closed_no_restart names program = true →
  sub_index vi = sub_index (VclInterpreter_new (Ip := Ip) program) → vi_program vi = program →
  sub ∈ subs program → sub_name sub ∈ names →
  restarts_not (exec_block ip_to_string now (vi_resolver vi)
                  (exec_call ip_to_string now fuel vi) (sub_body sub) ctx).
Proof.
  induction fuel as [|fuel IH]; intros sub ctx Hclosed Hidx Hprog Hin Hname.
  all: pose proof Hclosed as Hc; unfold closed_no_restart in Hc; rewrite forallb_forall in Hc;
    specialize (Hc sub ltac:(by apply list_elem_of_In)); rewrite bool_decide_true in Hc by done;
    simpl in Hc; apply andb_true_iff in Hc as [Hn Hcalls]; rewrite forallb_forall in Hn, Hcalls.
  all: apply exec_list_no_restart, Forall_forall; intros s Hs; apply (exec_no_restart _ _ (λ n, n ∈ names)).
  2,5: by apply Hn, list_elem_of_In.
  2,4: apply Forall_forall; intros n Hns; specialize (Hcalls n); rewrite bool_decide_eq_true in Hcalls;
       apply Hcalls, in_flat_map; exists s; by rewrite <-!list_elem_of_In.
  - done.
  - intros n ctx' Hnn. cbn [exec_call]. rewrite Hidx, Hprog.
    destruct (sub_index (VclInterpreter_new program) !! n) as [idx|] eqn:En; [|done].
    apply sub_index_lookup in En as (sub' & Es & <-). rewrite Es. cbn [mbind option_bind].
    apply IH; [done..|by eapply list_elem_of_lookup_2|done].
Qed.

(* ------------------------------------------------------------------ *)
(** ** The instance *)

(** A program with the stack it runs on; running out of stack, where the process
    would die, is an error here. *)
Record loaded : Type := mkLoaded { l_program : VclProgram; l_stack : nat }.

Definition run_loaded (v : loaded) (name : bytes) (ctx : ctx_t) : VclExecResult * ctx_t :=
  default (ExecError (str "stack overflow"), ctx)
    (VclInterpreter_exec_subroutine ip_to_string now (l_stack v) (VclInterpreter_new (l_program v)) name ctx).

Definition vcl_interpreter : VclInterpreter Ip := {|
  Vcl := loaded;
  Runtime.VclValue := VclValue.t Ip;
  Runtime.to_duration_secs := Values.to_duration_secs;
  exec_subroutine := run_loaded;
|}.

Lemma run_loaded_no_restart names v name ctx :
  closed_no_restart names (l_program v) = true → name ∈ names →
  (run_loaded v name ctx).1 ≠ ExecAction InterpreterAction.Restart.
Proof.
  intros Hc Hn. unfold run_loaded, VclInterpreter_exec_subroutine.
  destruct (sub_index _ !! name) as [idx|] eqn:En; [|done].
  apply sub_index_lookup in En as (sub & Es & <-). cbn [vi_program VclInterpreter_new]. rewrite Es.
  cbn [mbind option_bind].
  pose proof (body_no_restart names (l_program v) (VclInterpreter_new (l_program v)) (l_stack v) sub ctx
    Hc eq_refl eq_refl ltac:(by eapply list_elem_of_lookup_2) Hn) as H.
  destruct (exec_block _ _ _ _ _ _) as [[[|a|m] c]|]; try done. simpl. intros [= ->]. by apply (H c).
Qed.
End server.

(* ------------------------------------------------------------------ *)
(** ** Every request is answered *)

Section answered.
  Context {SH SS CacheConfig : Type} `{!HashSlinger SH} `{!Stevedore SS} {regex : RegexLib}.
  Context {env : ServerEnv} {corefmt : CoreFmt} {replace : RegexReplace}.
  Context (fmt_fixed : nat → f64 → bytes) (ip_to_string : IpAddr → bytes) (now : VtimReal).

#[local] Instance server_interpreter : VclInterpreter IpAddr := vcl_interpreter ip_to_string now.


End answered.

(** A program that restarts every request from [vcl_deliver]. *)
Definition restarting_source : bytes :=
  str "sub vcl_miss { call note; return(fetch); }
sub note { set req.http.X-Miss = 1; }
sub vcl_deliver { return(restart); }".

#[local] Instance vs_corefmt : CoreFmt := { fmt_f64 _ := []; char_debug _ := [] }.
#[local] Instance vs_replace : @RegexReplace substring_regex := substring_replace.
#[local] Instance vs_stevedore : Stevedore Malloc.t := Malloc.stevedore 56.

Definition restarting_program : VclProgram :=
  match load_vcl restarting_source with
  | Some (Ok p) => p
  | _ => mkProgram None [] [] [] [] []
  end.

Definition sample_rank (n : bytes) : nat := if decide (n = str "vcl_miss") then 1 else 0.

