(* ===== verification/RequestLog.v ===== *)
(** * The log of a request

    Models the log calls of [rv-server/src/runtime.rs]: the records each state of the
    pipeline of [Runtime] writes, and those at the start and the end of a request, into
    the ring buffer it shares with the cache ([ServerRuntime::new] gives both the same
    writer).  What the clocks show and the text of the client's address are arguments.
    The reference is the story of a request, read off the pipeline without a log:
    logging changes nothing but the buffer, where the story is found under the
    request's number. *)

From S2P Require Import Prelude RustStr F64 Enums Types HttpTypes Header Vary HashSlinger ObjCore Stevedore Ban RingLog Request Engine.
From S2P Require Import Backend Http1 ListHash VclInterp VclTables Lru Runtime.
Local Open Scope Z_scope.

Abbreviation line := (LogTag * bytes)%type.

(** What the clocks show where a state of the pipeline reads them for the log. *)
Record log_times : Set := mkTimes { lt_bereq : f64; lt_beresp : f64; lt_fetch_elapsed : f64 }.

(** The lines around a subroutine: the call, and its outcome. *)
Definition vcl_lines (call sub fallthrough : bytes) (res : VclExecResult) : list line :=
  [(LogTag_VclCall, call);
   match res with
   | ExecAction action => (LogTag_VclReturn, action_name action)
   | ExecFallthrough => (LogTag_VclReturn, fallthrough)
   | ExecError e => (LogTag_VclError, sub ++ str ": " ++ e)
   end].

Definition header_lines (tag : LogTag) (m : HttpMessage) : list line :=
  (λ h, (tag, h_name h ++ str ": " ++ h_value h)) <$> headers (msg_headers m).

Section log.
  Context {SH SS CacheConfig : Type} `{!HashSlinger SH} `{!Stevedore SS} {regex : RegexLib}.
  Context {env : ServerEnv} {interp : VclInterpreter IpAddr}.
  Context (fmt_fixed : nat → f64 → bytes) (stamp : Z → VtimReal).

Abbreviation world_t := (world (SH := SH) (SS := SS) (CacheConfig := CacheConfig)).
Abbreviation conn_t := (ConnectionInfo IpAddr).

Definition recv_log (vcl : option Vcl) (conn : conn_t) (ctx : RequestContext) : list line :=
  match vcl with
  | Some vcl =>
      let v := with_req_body (r_body ctx)
        (VclContext_new (r_request ctx) (HttpMessage_new_response HttpStatus_OK Http11)
           HttpMessage_default HttpMessage_default (client_ip conn) (local_ip conn) (is_tls conn) (restarts ctx)) in
      vcl_lines (str "RECV") (str "vcl_recv") (str "hash") (exec_subroutine vcl (str "vcl_recv") v).1
  | None => []
  end.

(** [{:.0}] *)
Definition whole_secs (d : f64) : bytes := fmt_fixed 0 d.

Definition ttl_line (what : bytes) (ttl grace keep : f64) : line :=
  (LogTag_TTL, what ++ str " ttl=" ++ whole_secs ttl ++ str "s grace=" ++ whole_secs grace ++ str "s keep=" ++ whole_secs keep ++ str "s").

(** [vcl_miss] and [vcl_pass] are given the same context. *)
Definition miss_context (conn : conn_t) (ctx : RequestContext) : VclContext IpAddr VclValue :=
  VclContext_new (r_request ctx) HttpMessage_default
    (HttpMessage_new_request (msg_method (r_request ctx)) (msg_url (r_request ctx)) Http11)
    HttpMessage_default (client_ip conn) LOCALHOST false (restarts ctx).

Definition sub_log (call sub : bytes) (vcl : option Vcl) (conn : conn_t) (ctx : RequestContext) : list line :=
  match vcl with
  | Some vcl => vcl_lines call sub (str "fetch") (exec_subroutine vcl sub (miss_context conn ctx)).1
  | None => []
  end.

Definition lookup_log (vcl : option Vcl) (conn : conn_t) (ctx : RequestContext) (w : world_t) : option (list line) :=
  let key := cache_key (r_request ctx) in
  let '(now, _) := env_now (w_env w) in
  '(found, _) ← CacheEngine_lookup (compute_digest key) None now (w_cache w);
  Some ((LogTag_Hash, key) ::
    match found with
    | Hit oc =>
        (LogTag_Hit, show_u64 (oc_hits oc))
        :: ttl_line (str "hit") (VtimDur_as_secs (oc_ttl oc)) (VtimDur_as_secs (oc_grace oc)) (VtimDur_as_secs (oc_keep oc))
        :: match vcl with
           | Some vcl =>
               let v := with_vcl_obj oc
                 (VclContext_new (r_request ctx) (HttpMessage_new_response HttpStatus_OK Http11)
                    HttpMessage_default HttpMessage_default (client_ip conn) (local_ip conn) (is_tls conn) (restarts ctx)) in
               vcl_lines (str "HIT") (str "vcl_hit") (str "deliver") (exec_subroutine vcl (str "vcl_hit") v).1
           | None => []
           end
    | Grace oc => [(LogTag_Hit, show_u64 (oc_hits oc) ++ str " (grace)")]
    | HitForPass => [(LogTag_HitPass, [])]
    | Busy => [(LogTag_Miss, str "busy")]
    | Miss => (LogTag_Miss, []) :: sub_log (str "MISS") (str "vcl_miss") vcl conn ctx
    end).

(** The object stored, as the log has it: whether or not the insertion worked. *)
Definition stored_log (beresp : HttpMessage) (body : option bytes) (unc : bool) (ttl grace keep : option f64) (ctx : RequestContext) :
    list line :=
  if negb (r_is_pass ctx) && negb unc && bool_decide (msg_status beresp = HttpStatus_OK) then
    match body, r_digest ctx with
    | Some body, Some _ =>
        ttl_line (str "stored") (default (f64_of_Z 120) ttl) (default (f64_of_Z 10) grace) (default f64_zero keep)
        :: match HttpMessage_get_header beresp (str "Content-Type") with
           | Some ct => [(LogTag_ObjHeader, str "Content-Type: " ++ ct)]
           | None => []
           end
        ++ [(LogTag_Storage, show_len body ++ str " bytes stored")]
    | _, _ => []
    end
  else [].

Definition backend_fetch_log (vcl : option Vcl) (conn : conn_t) (bereq : HttpMessage) (ctx : RequestContext) : list line :=
  match vcl with
  | Some vcl =>
      let v := VclContext_new (r_request ctx) HttpMessage_default bereq HttpMessage_default (client_ip conn) LOCALHOST false (restarts ctx) in
      vcl_lines (str "BACKEND_FETCH") (str "vcl_backend_fetch") (str "fetch") (exec_subroutine vcl (str "vcl_backend_fetch") v).1
  | None => []
  end.

Definition backend_response_log (vcl : option Vcl) (conn : conn_t) (bereq beresp : HttpMessage) (ctx : RequestContext) : list line :=
  match vcl with
  | Some vcl =>
      let v := VclContext_new (r_request ctx) HttpMessage_default bereq beresp (client_ip conn) LOCALHOST false (restarts ctx) in
      vcl_lines (str "BACKEND_RESPONSE") (str "vcl_backend_response") (str "deliver")
        (exec_subroutine vcl (str "vcl_backend_response") v).1
  | None => []
  end.

Definition zeros : bytes := str " 0.000000 0.000000".

(** The records of the fetch: those before the object is stored, and those after. *)
Definition fetch_log (backend_addr : option SocketAddr) (vcl : option Vcl) (conn : conn_t) (t : log_times)
    (ctx : RequestContext) (w : world_t) : list line * list line :=
  match backend_addr with
  | None => ([(LogTag_Error, str "no backend configured")], [])
  | Some addr =>
      let bereq := build_bereq (r_request ctx) in
      let opening :=
        [(LogTag_Backend, show_addr addr); (LogTag_BereqMethod, HttpMethod_name (msg_method bereq)); (LogTag_BereqURL, msg_url bereq)]
        ++ backend_fetch_log vcl conn bereq ctx in
      match run_backend_fetch vcl conn bereq ctx with
      | (_, None) => (opening, [])
      | (ctx, Some bereq) =>
          let ctx := with_bereq (Some bereq) ctx in
          let opening := opening ++ [(LogTag_Timestamp, str "Bereq: " ++ fmt_fixed 6 (lt_bereq t) ++ zeros)] in
          match fetch_from_backend addr bereq None (w_env w) with
          | (None, _) => (opening, [])
          | (Some (Ok (beresp, body)), _) =>
              let elapsed := fmt_fixed 6 (lt_fetch_elapsed t) in
              (opening
               ++ [(LogTag_Timestamp, str "Beresp: " ++ fmt_fixed 6 (lt_beresp t) ++ str " " ++ elapsed ++ str " " ++ elapsed);
                   (LogTag_BerespStatus, show_u64 (HttpStatus_code (msg_status beresp)));
                   (LogTag_BerespReason, HttpStatus_reason (msg_status beresp))]
               ++ backend_response_log vcl conn bereq beresp ctx,
               match run_backend_response vcl conn bereq beresp ctx with
               | (_, None) => []
               | (ctx, Some (beresp, _, _, unc, ttl, grace, keep)) => stored_log beresp body unc ttl grace keep ctx
               end)
          | (Some (Err msg), _) => (opening ++ [(LogTag_FetchError, msg)], [])
          end
      end
  end.

(** The response is logged before [vcl_deliver] and before compression. *)
Definition deliver_log (vcl : option Vcl) (conn : conn_t) (cells : oc_store) (ctx : RequestContext) : option (list line) :=
  let p := base_response ctx cells in
  let ctx := with_resp_body None ctx in
  let p := apply_conditional (r_request ctx) (add_content_length p) in
  p ← apply_range (r_request ctx) p;
  Some ((LogTag_RespStatus, show_u64 (HttpStatus_code (msg_status p.1)))
        :: match p.2 with Some body => [(LogTag_Length, show_len body)] | None => [] end
        ++ header_lines LogTag_RespHeader p.1
        ++ match vcl with
           | Some vcl =>
               let v := VclContext_new (r_request ctx) p.1 (default HttpMessage_default (r_bereq ctx))
                          (default HttpMessage_default (r_beresp ctx)) (client_ip conn) (local_ip conn) (is_tls conn) (restarts ctx) in
               let v := with_vcl_resp_body p.2 v in
               let v := match r_obj ctx with Some oc => with_vcl_obj_hits (oc_hits oc) v | None => v end in
               vcl_lines (str "DELIVER") (str "vcl_deliver") (str "deliver") (exec_subroutine vcl (str "vcl_deliver") v).1
           | None => []
           end).

Definition synth_log (vcl : option Vcl) (conn : conn_t) (ctx : RequestContext) : list line :=
  let status := default HttpStatus_OK (synth_status ctx) in
  let response := HttpMessage_set_header (HttpMessage_new_response status Http11) (str "X-Cache") (str "SYNTH") in
  let body := default (HttpStatus_reason status) (synth_body ctx) in
  let ctx := with_synth_body None ctx in
  [(LogTag_RespStatus, show_u64 (HttpStatus_code status)); (LogTag_RespReason, HttpStatus_reason status);
   (LogTag_VclLog, str "synthetic response generated")]
  ++ match vcl with
     | Some vcl =>
         let v := with_vcl_synth_body (Some (from_utf8_lossy body))
           (VclContext_new (r_request ctx) response HttpMessage_default HttpMessage_default
              (client_ip conn) LOCALHOST false (restarts ctx)) in
         vcl_lines (str "SYNTH") (str "vcl_synth") (str "deliver") (exec_subroutine vcl (str "vcl_synth") v).1
     | None => []
     end.

(** The records of one round of the loop, before and after its effect on the cache. *)
Definition step_log (backend_addr : option SocketAddr) (vcl : option Vcl) (conn : conn_t) (t : log_times)
    (ctx : RequestContext) (w : world_t) : option (list line * list line) :=
  match r_state ctx with
  | RequestState.Recv => Some (recv_log vcl conn ctx, [])
  | RequestState.Lookup => lines ← lookup_log vcl conn ctx w; Some (lines, [])
  | RequestState.Pass => Some (sub_log (str "PASS") (str "vcl_pass") vcl conn (with_is_pass true ctx), [])
  | RequestState.Miss => Some (sub_log (str "MISS") (str "vcl_miss") vcl conn ctx, [])
  | RequestState.Pipe | RequestState.Done => Some ([], [])
  | RequestState.Fetch => Some (fetch_log backend_addr vcl conn t ctx w)
  | RequestState.Deliver => lines ← deliver_log vcl conn (eng_cells (w_cache w)) ctx; Some (lines, [])
  | RequestState.Synth => Some (synth_log vcl conn ctx, [])
  end.

(** Records written to the shared buffer; [stamp k] is the time its [k]-th is made. *)
Fixpoint log_lines (vxid : Vxid) (ls : list line) (b : RingBuffer) : option RingBuffer :=
  match ls with
  | [] => Some b
  | (tag, data) :: ls => b ← LogWriter_log (stamp (total_written b)) tag vxid data b; log_lines vxid ls b
  end.

Definition log_to (vxid : Vxid) (ls : list line) (w : world_t) : option world_t :=
  log ← log_lines vxid ls (eng_log (w_cache w));
  Some (mkWorld (eng_with_log log (w_cache w)) (w_env w)).

(** The loop with its log; [ts] are the times of the rounds.  No context is the panic
    of the fetch, no result one of the cache or the log. *)
Fixpoint logged_loop (ts : list log_times) (backend_addr : option SocketAddr) (vcl : option Vcl) (conn : conn_t) (vxid : Vxid)
    (ctx : RequestContext) (w : world_t) : option (option RequestContext * world_t) :=
  if decide (r_state ctx = RequestState.Done) then Some (Some ctx, w)
  else
    match ts with
    | [] => None
    | t :: ts =>
        '(before, after) ← step_log backend_addr vcl conn t ctx w;
        w ← log_to vxid before w;
        '(next, w) ← serve_step fmt_fixed backend_addr vcl conn ctx w;
        match next with
        | None => Some (None, w)
        | Some ctx => w ← log_to vxid after w; logged_loop ts backend_addr vcl conn vxid ctx w
        end
    end.

(** The lines before the loop and after it. *)
Definition start_log (client : bytes) (wall : f64) (request : HttpMessage) : list line :=
  [(LogTag_ReqStart, client); (LogTag_ReqMethod, HttpMethod_name (msg_method request)); (LogTag_ReqURL, msg_url request);
   (LogTag_ReqProtocol, HttpVersion_as_str (msg_protocol request))]
  ++ header_lines LogTag_ReqHeader request
  ++ [(LogTag_Timestamp, str "Start: " ++ fmt_fixed 6 wall ++ zeros)].

Definition end_log (wall_end elapsed : f64) (response : HttpMessage) (resp_body : option bytes) : list line :=
  let n := show_u64 (match resp_body with Some b => Z.of_nat (length b) | None => 0 end) in
  [(LogTag_RespStatus, show_u64 (HttpStatus_code (msg_status response)));
   (LogTag_Timestamp, str "Resp: " ++ fmt_fixed 6 wall_end ++ str " " ++ fmt_fixed 6 elapsed ++ str " " ++ fmt_fixed 6 elapsed);
   (LogTag_ReqAcct, str "0 " ++ n ++ str " " ++ n); (LogTag_End, [])].

(** How the request was handled, in the line that [info!] prints. *)
Inductive handling : Set := HandledHit | HandledPass | HandledMiss.
Definition request_handling (ctx : RequestContext) : handling :=
  match r_obj ctx with
  | Some _ => HandledHit
  | None => if r_is_pass ctx then HandledPass else HandledMiss
  end.

(** [handle_request] with its log. *)
Definition handle_request_logged (client : bytes) (wall wall_end elapsed : f64) (ts : list log_times) (request : HttpMessage)
    (body : option bytes) (conn : conn_t) (backend_addr : option SocketAddr) (vcl : option Vcl) (vxid : Vxid) (w : world_t) :
    option (option ((HttpMessage * option bytes) * handling) * world_t) :=
  w ← log_to vxid (start_log client wall request) w;
  let '(now, e) := env_now (w_env w) in
  let ctx := with_body body (RequestContext_new request vxid now) in
  '(ended, w) ← logged_loop ts backend_addr vcl conn vxid ctx (mkWorld (w_cache w) e);
  match ended with
  | None => Some (None, w)
  | Some ctx =>
      let '(response, resp_body) := final_response ctx in
      w ← log_to vxid (end_log wall_end elapsed response resp_body) w;
      Some (Some ((response, resp_body), request_handling ctx), w)
  end.

(** The reference: the loop of [Runtime], with the lines of its rounds. *)
Fixpoint story_loop (ts : list log_times) (backend_addr : option SocketAddr) (vcl : option Vcl) (conn : conn_t)
    (ctx : RequestContext) (w : world_t) : option (option RequestContext * world_t * list line) :=
  if decide (r_state ctx = RequestState.Done) then Some (Some ctx, w, [])
  else
    match ts with
    | [] => None
    | t :: ts =>
        '(before, after) ← step_log backend_addr vcl conn t ctx w;
        '(next, w) ← serve_step fmt_fixed backend_addr vcl conn ctx w;
        match next with
        | None => Some (None, w, before)
        | Some ctx =>
            '(next, w, more) ← story_loop ts backend_addr vcl conn ctx w;
            Some (next, w, before ++ after ++ more)
        end
    end.

(** The story of a request: how it ends, and the lines about it. *)
Definition request_story (client : bytes) (wall wall_end elapsed : f64) (ts : list log_times) (request : HttpMessage)
    (body : option bytes) (conn : conn_t) (backend_addr : option SocketAddr) (vcl : option Vcl) (vxid : Vxid) (w : world_t) :
    option (option ((HttpMessage * option bytes) * handling) * world_t * list line) :=
  let '(now, e) := env_now (w_env w) in
  let ctx := with_body body (RequestContext_new request vxid now) in
  '(ended, w, lines) ← story_loop ts backend_addr vcl conn ctx (mkWorld (w_cache w) e);
  let opening := start_log client wall request in
  match ended with
  | None => Some (None, w, opening ++ lines)
  | Some ctx =>
      let p := final_response ctx in
      Some (Some (p, request_handling ctx), w, opening ++ lines ++ end_log wall_end elapsed p.1 p.2)
  end.

End log.

(* ------------------------------------------------------------------ *)
(** ** Well-formed logs *)

Definition is_outcome (t : LogTag) : bool := bool_decide (t = LogTag_VclReturn) || bool_decide (t = LogTag_VclError).
Definition is_found (t : LogTag) : bool :=
  bool_decide (t = LogTag_Hit) || bool_decide (t = LogTag_HitPass) || bool_decide (t = LogTag_Miss).

(** Every call is followed by its outcome, and there are no other outcomes. *)
Fixpoint answered (ls : list line) : bool :=
  match ls with
  | [] => true
  | (t, _) :: rest =>
      if bool_decide (t = LogTag_VclCall) then
        match rest with
        | (t', _) :: rest => is_outcome t' && answered rest
        | [] => false
        end
      else negb (is_outcome t) && answered rest
  end.

(** Every key looked up is followed by its result, and there are no other results. *)
Fixpoint looked_up (ls : list line) : bool :=
  match ls with
  | [] => true
  | (t, _) :: rest =>
      if bool_decide (t = LogTag_Hash) then
        match rest with
        | (t', _) :: rest => is_found t' && looked_up rest
        | [] => false
        end
      else negb (is_found t) && looked_up rest
  end.

(** Whether the request hit. *)
Definition logs_hit (ls : list line) : bool := existsb (λ l, bool_decide (l.1 = LogTag_Hit)) ls.

Definition well_told (ls : list line) : Prop := answered ls = true ∧ looked_up ls = true.

Lemma answered_app a b : answered a = true → answered b = true → answered (a ++ b) = true.
Proof.
  revert a. fix IH 1. intros [|[t x] a] Ha Hb; [exact Hb|]. cbn [answered app] in *.
  destruct (bool_decide (t = LogTag_VclCall)).
  - destruct a as [|[t' x'] a]; [discriminate|]. cbn [app]. apply andb_true_iff in Ha as [-> Ha]. by apply IH.
  - apply andb_true_iff in Ha as [-> Ha]. by apply IH.
Qed.

Lemma looked_up_app a b : looked_up a = true → looked_up b = true → looked_up (a ++ b) = true.
Proof.
  revert a. fix IH 1. intros [|[t x] a] Ha Hb; [exact Hb|]. cbn [looked_up app] in *.
  destruct (bool_decide (t = LogTag_Hash)).
  - destruct a as [|[t' x'] a]; [discriminate|]. cbn [app]. apply andb_true_iff in Ha as [-> Ha]. by apply IH.
  - apply andb_true_iff in Ha as [-> Ha]. by apply IH.
Qed.

Lemma good_app a b : well_told a → well_told b → well_told (a ++ b).
Proof. intros [] []. split; [by apply answered_app|by apply looked_up_app]. Qed.

(** Lines of other kinds. *)
Definition plain (t : LogTag) : bool :=
  negb (bool_decide (t = LogTag_VclCall)) && negb (is_outcome t) && negb (bool_decide (t = LogTag_Hash)) && negb (is_found t).

Lemma good_plain t x ls : plain t = true → well_told ls → well_told ((t, x) :: ls).
Proof.
  unfold plain. rewrite !andb_true_iff, !negb_true_iff. intros [[[H1 H2] H3] H4] [Ha Hl].
  split; cbn [answered looked_up]; rewrite ?H1, ?H2, ?H3, ?H4; done.
Qed.

Lemma good_nil : well_told [].
Proof. done. Qed.

Lemma good_vcl call sub ft res : well_told (vcl_lines call sub ft res).
Proof. by destruct res. Qed.

Lemma good_headers tag m : plain tag = true → well_told (header_lines tag m).
Proof. intros Ht. unfold header_lines. induction (headers (msg_headers m)) as [|h hs IH]; [done|]. by apply good_plain. Qed.

Create HintDb log discriminated.
#[local] Hint Resolve good_nil good_vcl good_app : log.
#[local] Hint Extern 1 (well_told (header_lines _ _)) => (apply good_headers; reflexivity) : log.
#[local] Hint Extern 2 (well_told ((_, _) :: _)) => (apply good_plain; [reflexivity|]) : log.

Section story.
  Context {SH SS CacheConfig : Type} `{!HashSlinger SH} `{!Stevedore SS} {regex : RegexLib}.
  Context {env : ServerEnv} {interp : VclInterpreter IpAddr}.
  Context (fmt_fixed : nat → f64 → bytes) (stamp : Z → VtimReal).

Abbreviation world_t := (world (SH := SH) (SS := SS) (CacheConfig := CacheConfig)).

Lemma good_sub call sub vcl conn ctx : well_told (sub_log call sub vcl conn ctx).
Proof. unfold sub_log. destruct vcl; auto with log. Qed.

Lemma good_lookup vcl conn ctx (w : world_t) ls : lookup_log fmt_fixed vcl conn ctx w = Some ls → well_told ls.
Proof.
  unfold lookup_log. destruct (env_now _) as [now e]. destruct (CacheEngine_lookup _ _ _ _) as [[found c]|]; cbn; [|done].
  intros [= <-].
  assert (H : ∀ t x k rest, is_found t = true → well_told rest → well_told ((LogTag_Hash, k) :: (t, x) :: rest)).
  { intros t x k rest Ht [Ha Hl]. split; cbn; rewrite ?Ht, ?Ha, ?Hl; destruct t; done. }
  destruct found; apply H; try done.
  - apply good_plain; [done|]. destruct vcl; auto with log.
  - apply good_sub.
Qed.

Lemma good_stored beresp body unc ttl grace keep ctx : well_told (stored_log fmt_fixed beresp body unc ttl grace keep ctx).
Proof.
  unfold stored_log. destruct (_ && _); [|done]. destruct body, (r_digest ctx); try done. apply good_plain; [done|].
  apply good_app; [destruct (HttpMessage_get_header _ _)|]; auto with log.
Qed.

Lemma good_fetch backend vcl conn t ctx (w : world_t) :
  well_told (fetch_log fmt_fixed backend vcl conn t ctx w).1 ∧ well_told (fetch_log fmt_fixed backend vcl conn t ctx w).2.
Proof.
  unfold fetch_log, backend_fetch_log, backend_response_log. destruct backend as [addr|]; [|auto with log].
  match goal with |- context [?x ++ match vcl with Some _ => _ | None => _ end] =>
    set (opening := x ++ match vcl with Some _ => _ | None => _ end) end.
  assert (well_told opening) as Ho by (apply good_app; [auto with log|destruct vcl; auto with log]).
  destruct (run_backend_fetch _ _ _ _) as [ctx' [bereq|]]; [|by split].
  destruct (fetch_from_backend _ _ _ _) as [[[[beresp body]|msg]|] e]; cbn [fst snd]; (split; [|try done]); auto 6 with log.
  - repeat apply good_app; auto with log. destruct vcl; auto with log.
  - destruct (run_backend_response _ _ _ _ _) as [ctx'' [[[[[[[? ?] ?] ?] ?] ?] ?]|]]; [apply good_stored|auto with log].
Qed.

Lemma good_step backend vcl conn t ctx (w : world_t) before after :
  step_log fmt_fixed backend vcl conn t ctx w = Some (before, after) → well_told before ∧ well_told after.
Proof.
  assert (Hone : ∀ ls, well_told ls → well_told ls ∧ well_told []) by (intros; by split).
  unfold step_log. destruct (r_state ctx); try (intros [= <- <-]; auto using good_sub with log).
  - unfold recv_log. apply Hone. destruct vcl; auto with log.
  - destruct (lookup_log _ _ _ _ _) as [ls|] eqn:E; cbn; [|done]. intros [= <- <-]. apply Hone. by eapply good_lookup.
  - intros [= E]. pose proof (good_fetch backend vcl conn t ctx w) as H. by rewrite E in H.
  - unfold deliver_log. destruct (apply_range _ _) as [p|]; cbn; [|done]. intros [= <- <-]. apply Hone, good_plain; [done|].
    apply good_app; [destruct p.2; auto with log|]. apply good_app; [auto with log|]. destruct vcl; auto with log.
  - unfold synth_log. apply Hone, good_app; [auto with log|]. destruct vcl; auto with log.
Qed.

(** A round that does not get stuck has a log. *)
Lemma step_log_total backend vcl conn t ctx (w : world_t) r :
  serve_step fmt_fixed backend vcl conn ctx w = Some r → ∃ ls, step_log fmt_fixed backend vcl conn t ctx w = Some ls.
Proof.
  unfold serve_step, step_log. destruct (r_state ctx); try (intros _; by eexists).
  - unfold state_lookup, lookup_log. destruct (env_now _) as [now e]. destruct (CacheEngine_lookup _ _ _ _) as [[found c]|]; [|done].
    intros _. by eexists.
  - unfold state_deliver, deliver_log. destruct (apply_range _ _); [|done]. intros _. by eexists.
Qed.

(* ------------------------------------------------------------------ *)
(** ** Hits *)

Lemma logs_hit_app a b : logs_hit (a ++ b) = logs_hit a || logs_hit b.
Proof. apply existsb_app. Qed.

Lemma logs_hit_spec ls : logs_hit ls = true ↔ ∃ x, (LogTag_Hit, x) ∈ ls.
Proof.
  unfold logs_hit. rewrite existsb_exists. split.
  - intros ([t x] & Hin & Ht%bool_decide_eq_true). cbn in Ht. subst t. exists x. by apply list_elem_of_In.
  - intros (x & Hin). exists (LogTag_Hit, x). split; [by apply list_elem_of_In|done].
Qed.

Lemma hitless_vcl call sub ft res : logs_hit (vcl_lines call sub ft res) = false.
Proof. by destruct res. Qed.

Lemma hitless_headers tag m : tag ≠ LogTag_Hit → logs_hit (header_lines tag m) = false.
Proof.
  intros Ht. unfold header_lines, logs_hit. induction (headers (msg_headers m)) as [|h hs IH]; [done|].
  change (bool_decide (tag = LogTag_Hit) || logs_hit ((λ h, (tag, h_name h ++ str ": " ++ h_value h)) <$> hs) = false).
  by rewrite bool_decide_eq_false_2.
Qed.

Ltac hitless := repeat (rewrite ?logs_hit_app, ?hitless_vcl, ?hitless_headers by done; cbn [logs_hit existsb orb fst]; try done).

Lemma hitless_sub call sub vcl conn ctx : logs_hit (sub_log call sub vcl conn ctx) = false.
Proof. unfold sub_log. destruct vcl; hitless. Qed.

Lemma hitless_fetch backend vcl conn t ctx (w : world_t) :
  logs_hit (fetch_log fmt_fixed backend vcl conn t ctx w).1 = false ∧ logs_hit (fetch_log fmt_fixed backend vcl conn t ctx w).2 = false.
Proof.
  unfold fetch_log, backend_fetch_log, backend_response_log, stored_log.
  split; repeat case_match; cbn [fst snd]; hitless.
Qed.

Lemma run_backend_fetch_obj vcl conn bereq ctx : r_obj (run_backend_fetch vcl conn bereq ctx).1 = r_obj ctx.
Proof. unfold run_backend_fetch. by repeat case_match. Qed.

Lemma run_backend_response_obj vcl conn bereq beresp ctx : r_obj (run_backend_response vcl conn bereq beresp ctx).1 = r_obj ctx.
Proof. unfold run_backend_response. by repeat case_match. Qed.

Lemma run_deliver_obj vcl conn ctx p : r_obj (run_deliver vcl conn ctx p).1 = r_obj ctx.
Proof. unfold run_deliver. repeat case_match; by simplify_eq. Qed.

Lemma store_response_obj beresp body gz gu unc ttl gr kp ctx (w : world_t) ctx' w' :
  store_response fmt_fixed beresp body gz gu unc ttl gr kp ctx w = Some (ctx', w') → r_obj ctx' = r_obj ctx.
Proof.
  unfold store_response. match goal with |- context [mbind _ ?o] => destruct o as [w1|] end; cbn; [|done].
  intros [= <- <-]. by repeat case_match.
Qed.

Lemma state_fetch_obj backend vcl conn ctx (w : world_t) ctx' w' :
  state_fetch fmt_fixed backend vcl conn ctx w = Some (Some ctx', w') → r_obj ctx' = r_obj ctx.
Proof.
  unfold state_fetch. destruct backend as [addr|]; [|by intros [= <- <-]].
  pose proof (run_backend_fetch_obj vcl conn (build_bereq (r_request ctx)) ctx) as H1.
  destruct (run_backend_fetch _ _ _ _) as [ctx1 [bereq|]]; cbn in H1; [|by intros [= <- <-]].
  destruct (fetch_from_backend _ _ _ _) as [[[[beresp body]|msg]|] e]; [|by intros [= <- <-]|done].
  pose proof (run_backend_response_obj vcl conn bereq beresp (with_bereq (Some bereq) ctx1)) as H2.
  destruct (run_backend_response _ _ _ _ _) as [ctx2 [[[[[[[b gz] gu] unc] ttl] gr] kp]|]]; cbn in H2.
  - destruct (store_response _ _ _ _ _ _ _ _ _ _ _) as [[ctx3 w3]|] eqn:E; cbn [mbind option_bind]; [|done].
    intros [= <- <-]. apply store_response_obj in E. congruence.
  - intros [= <- <-]. congruence.
Qed.

Lemma state_deliver_obj vcl conn cells ctx ctx' : state_deliver vcl conn cells ctx = Some ctx' → r_obj ctx' = r_obj ctx.
Proof.
  unfold state_deliver. destruct (apply_range _ _) as [q|]; cbn [mbind option_bind]; [|done].
  pose proof (run_deliver_obj vcl conn (with_resp_body None ctx) q) as H.
  destruct (run_deliver _ _ _ _) as [ctx1 [q'|]]; by intros [= <-].
Qed.

Lemma state_lookup_obj vcl conn ctx (w : world_t) ctx' w' ls :
  state_lookup vcl conn ctx w = Some (ctx', w') → lookup_log fmt_fixed vcl conn ctx w = Some ls →
  bool_decide (is_Some (r_obj ctx')) = bool_decide (is_Some (r_obj ctx)) || logs_hit ls.
Proof.
  unfold state_lookup, lookup_log. destruct (env_now _) as [now e].
  destruct (CacheEngine_lookup _ _ _ _) as [[found c]|]; cbn [mbind option_bind]; [|done]. intros [= <- <-] [= <-].
  destruct found; cbn [logs_hit existsb orb fst bool_decide]; rewrite ?orb_true_r; try by rewrite orb_false_r.
  - destruct vcl; [destruct (exec_subroutine _ _ _) as [[] ?]|]; done.
  - rewrite hitless_sub, orb_false_r. destruct vcl; [destruct (exec_subroutine _ _ _) as [[] ?]|]; done.
  - by apply bool_decide_eq_true_2.
Qed.

(** The cached object of a request is there when one was found before or is found now. *)
Lemma step_obj backend vcl conn t ctx (w : world_t) ctx' w' before after :
  serve_step fmt_fixed backend vcl conn ctx w = Some (Some ctx', w') →
  step_log fmt_fixed backend vcl conn t ctx w = Some (before, after) →
  bool_decide (is_Some (r_obj ctx')) = bool_decide (is_Some (r_obj ctx)) || logs_hit (before ++ after).
Proof.
  assert (Hkeep : ∀ c : RequestContext, r_obj c = r_obj ctx → logs_hit (before ++ after) = false →
    bool_decide (is_Some (r_obj c)) = bool_decide (is_Some (r_obj ctx)) || logs_hit (before ++ after))
    by (intros c -> ->; by rewrite orb_false_r).
  unfold serve_step, step_log. destruct (r_state ctx).
  - intros [= <- <-] [= <- <-]. apply Hkeep; [unfold state_recv; by repeat case_match|]. unfold recv_log. destruct vcl; hitless.
  - destruct (state_lookup _ _ _ _) as [[c w1]|] eqn:E; cbn [mbind option_bind]; [|done]. intros [= <- <-].
    destruct (lookup_log _ _ _ _ _) as [ls|] eqn:El; cbn [mbind option_bind]; [|done]. intros [= <- <-]. rewrite app_nil_r.
    exact (state_lookup_obj _ _ _ _ _ _ _ E El).
  - intros [= <- <-] [= <- <-]. apply Hkeep; [|rewrite app_nil_r; apply hitless_sub]. destruct vcl; [|done].
    unfold run_vcl_pass, run_vcl_sub. by repeat case_match.
  - intros [= <- <-] [= <- <-]. by apply Hkeep.
  - intros [= <- <-] [= <- <-]. apply Hkeep; [|rewrite app_nil_r; apply hitless_sub]. destruct vcl; [|done].
    unfold run_vcl_miss, run_vcl_sub. by repeat case_match.
  - destruct (state_fetch _ _ _ _ _ _) as [[[c|] w1]|] eqn:E; cbn [mbind option_bind]; [|done..]. apply state_fetch_obj in E.
    intros Hs [= Ef]. pose proof (hitless_fetch backend vcl conn t ctx w) as [H1 H2]. rewrite Ef in H1, H2.
    apply Hkeep; [case_decide; by simplify_eq|]. rewrite logs_hit_app. cbn [fst snd] in *. by rewrite H1, H2.
  - destruct (state_deliver _ _ _ _) as [c|] eqn:E; cbn [mbind option_bind]; [|done]. apply state_deliver_obj in E.
    intros Hs Hl. apply Hkeep; [repeat case_match; by simplify_eq|]. unfold deliver_log in Hl.
    destruct (apply_range _ _) as [p|]; cbn in Hl; [|done]. injection Hl as <- <-. rewrite app_nil_r. hitless. destruct p.2, vcl; hitless.
  - intros [= <- <-] [= <- <-]. apply Hkeep; [unfold state_synth; by repeat case_match|]. unfold synth_log. destruct vcl; hitless.
  - intros [= <- <-] [= <- <-]. by apply Hkeep.
Qed.

(** A run of the pipeline has a story. *)
Lemma story_loop_ok backend vcl conn ts : ∀ ctx (w : world_t) o w',
  match o with Some ctx' => serve_loop fmt_fixed (length ts) backend vcl conn ctx w = Finished ctx' w'
          | None => serve_loop fmt_fixed (length ts) backend vcl conn ctx w = FetchPanicked w' end →
  ∃ ls, story_loop fmt_fixed ts backend vcl conn ctx w = Some (o, w', ls) ∧ well_told ls
    ∧ ∀ ctx', o = Some ctx' → bool_decide (is_Some (r_obj ctx')) = bool_decide (is_Some (r_obj ctx)) || logs_hit ls.
Proof.
  induction ts as [|t ts IH]; intros ctx w o w'; cbn [length serve_loop story_loop].
  - case_decide; destruct o as [ctx'|]; try done. intros [= <- <-]. exists []. split_and!; [done..|]. intros c [= <-]. by rewrite orb_false_r.
  - case_decide.
    { destruct o as [ctx'|]; [|done]. intros [= <- <-]. exists []. split_and!; [done..|]. intros c [= <-]. by rewrite orb_false_r. }
    destruct (serve_step fmt_fixed backend vcl conn ctx w) as [[[ctx1|] w1]|] eqn:E; [| |by destruct o].
    + intros Hl. destruct (step_log_total backend vcl conn t ctx w _ E) as [[before after] E1].
      destruct (IH ctx1 w1 o w' Hl) as (ls & E2 & Hg & Ho). destruct (good_step _ _ _ _ _ _ _ _ E1) as [Hg1 Hg2].
      rewrite E1. cbn [mbind option_bind]. rewrite E2. cbn. exists (before ++ after ++ ls). split_and!; [done|auto with log|].
      intros c Hc. rewrite (Ho c Hc), (step_obj _ _ _ _ _ _ _ _ _ _ E E1), !logs_hit_app. by rewrite !orb_assoc.
    + destruct o as [ctx'|]; [done|]. intros [= <-].
      destruct (step_log_total backend vcl conn t ctx w _ E) as [[before after] E1].
      destruct (good_step _ _ _ _ _ _ _ _ E1) as [Hg1 _]. rewrite E1. cbn [mbind option_bind]. by exists before.
Qed.
End story.

(* ------------------------------------------------------------------ *)
(** ** The cache and its log *)

Section shared.
  Context {SH SS CacheConfig : Type} `{!HashSlinger SH} `{!Stevedore SS} {regex : RegexLib}.
  Context (fmt_fixed : nat → f64 → bytes).

Abbreviation cache_t := (@CacheEngine SH SS CacheConfig regex).

(** The operations of the pipeline on the cache do not read its log. *)
Lemma lookup_relog d req now l (c : cache_t) :
  CacheEngine_lookup d req now (eng_with_log l c) = (λ p, (p.1, eng_with_log l p.2)) <$> CacheEngine_lookup d req now c.
Proof.
  unfold CacheEngine_lookup. cbn [eng_with_log eng_objects eng_cells eng_lru].
  destruct (eng_objects c !! d) as [vs|]; [|done]. destruct (scan_variants _ _ _ _ _) as [[[oc|] g]|]; [| |done].
  - cbn [mbind option_bind]. by destruct (ShardedLru_touch _ _).
  - cbn [mbind option_bind]. destruct g as [oc|]; [by destruct (ShardedLru_touch _ _)|by destruct (ShardedLru_remove _ _)].
Qed.

Lemma enforce_relog l fuel : ∀ c : cache_t, enforce_loop fuel (eng_with_log l c) = eng_with_log l <$> enforce_loop fuel c.
Proof.
  induction fuel as [|fuel IH]; intros c; [done|]. cbn [enforce_loop]. cbn [eng_with_log eng_max_objects eng_lru].
  destruct (_ <=? _); [|done]. destruct (ShardedLru_evict_oldest _) as [[[victim|] lru]|]; [|done..]. cbn [mbind option_bind].
  change (eng_objects (eng_with_lru lru (eng_with_log l c))) with (eng_objects c). cbn [eng_with_lru eng_objects].
  destruct (eng_objects c !! victim) as [vs|]; [|exact (IH (eng_with_lru lru c))].
  exact (IH (eng_with_stats (fetch_add CEvictions (Z.of_nat (length vs)))
               (eng_with_storage (free_variants victim vs (eng_storage c))
                  (eng_with_objects (delete victim (eng_objects c)) (eng_with_lru lru c))))).
Qed.

(** An insertion writes at most one record, under no request's number. *)
Lemma insert_relog d body info vary now l (c c1 : cache_t) r cap hist :
  CacheEngine_insert fmt_fixed d body info vary now c = Some (r, c1) →
  ring_repr l cap hist → Z.of_nat (length hist) < u64_max →
  ∃ l1 recs, CacheEngine_insert fmt_fixed d body info vary now (eng_with_log l c) = Some (r, eng_with_log l1 c1)
    ∧ ring_repr l1 cap (hist ++ recs) ∧ (length recs ≤ 1)%nat ∧ Forall (λ rec, vxid_id (lr_vxid rec) = 0) recs.
Proof.
  intros H Hr Hn. unfold CacheEngine_insert, CacheEngine_enforce_capacity in *. rewrite enforce_relog.
  change (eng_lru (eng_with_log l c)) with (eng_lru c). destruct (enforce_loop _ c) as [c2|]; [|done].
  assert (Hnone : ring_repr l cap (hist ++ []) ∧ (length (@nil LogRecord) ≤ 1)%nat ∧ Forall (λ rec, vxid_id (lr_vxid rec) = 0) [])
    by (rewrite app_nil_r; split_and!; [done|cbn; lia|constructor]).
  simpl in H |- *. destruct (sv_alloc_obj d _ _) as [[u|err] s1]; [|simplify_eq; by exists l, []].
  destruct (sv_extend d body s1) as [[u'|err] s2]; [|simplify_eq; by exists l, []].
  destruct (ShardedLru_insert d (eng_lru c2)) as [lru|]; [|done]. simpl in H |- *. unfold LogWriter_log in *.
  match goal with |- context [RingBuffer_write ?x ?y] => change y with l;
    destruct (ring_repr_write l cap hist x Hr Hn) as (l1 & E1 & Hr1); exists l1, [x] end.
  destruct (RingBuffer_write _ _) as [l0|] in H; [|done]. cbn in H. injection H as <- <-. rewrite E1. cbn.
  split_and!; [done..|cbn; lia|by repeat constructor].
Qed.

(** Records written one after the other. *)
Lemma log_lines_ok stamp vxid ls cap : ∀ l hist,
  ring_repr l cap hist → Z.of_nat (length hist + length ls) ≤ u64_max →
  ∃ l1 recs, log_lines stamp vxid ls l = Some l1 ∧ ring_repr l1 cap (hist ++ recs)
    ∧ (λ rec, (lr_tag rec, lr_data rec)) <$> recs = ls ∧ Forall (λ rec, lr_vxid rec = vxid) recs.
Proof.
  induction ls as [|[tag data] ls IH]; intros l hist Hr Hn.
  { exists l, []. rewrite app_nil_r. by split_and!; [..|constructor]. }
  cbn [length] in Hn. cbn [log_lines]. unfold LogWriter_log.
  destruct (ring_repr_write l cap hist (LogRecord_new (stamp (total_written l)) tag vxid data) Hr ltac:(lia)) as (l1 & E & Hr1).
  rewrite E. cbn [mbind option_bind]. destruct (IH l1 _ Hr1) as (l2 & recs & E2 & Hr2 & Hm & HF); [rewrite length_app; cbn; lia|].
  exists l2, (LogRecord_new (stamp (total_written l)) tag vxid data :: recs). rewrite E2, <- app_assoc in *.
  split_and!; [done|exact Hr2| |by constructor]. cbn. by f_equal.
Qed.

(** The lines among records: those under the request's number. *)
Definition lines_of (vxid : Vxid) (recs : list LogRecord) : list line :=
  (λ rec, (lr_tag rec, lr_data rec)) <$> LogReader_filter_by_vxid recs vxid.

Lemma lines_of_app vxid a b : lines_of vxid (a ++ b) = lines_of vxid a ++ lines_of vxid b.
Proof. unfold lines_of, LogReader_filter_by_vxid. by rewrite filter_app, fmap_app. Qed.

Lemma lines_of_own vxid recs :
  Forall (λ rec, lr_vxid rec = vxid) recs → lines_of vxid recs = (λ rec, (lr_tag rec, lr_data rec)) <$> recs.
Proof.
  intros HF. unfold lines_of, LogReader_filter_by_vxid. f_equal. induction HF as [|rec recs Hv _ IH]; [done|].
  rewrite filter_cons_True, IH; [done|by rewrite Hv].
Qed.

Lemma lines_of_others vxid recs :
  vxid_id vxid ≠ 0 → Forall (λ rec, vxid_id (lr_vxid rec) = 0) recs → lines_of vxid recs = [].
Proof.
  intros Hv HF. unfold lines_of, LogReader_filter_by_vxid. induction HF as [|rec recs Hr _ IH]; [done|].
  rewrite filter_cons_False; [done|congruence].
Qed.
End shared.

(* ------------------------------------------------------------------ *)
(** ** The logged pipeline *)

Section refines.
  Context {SH SS CacheConfig : Type} `{!HashSlinger SH} `{!Stevedore SS} {regex : RegexLib}.
  Context {env : ServerEnv} {interp : VclInterpreter IpAddr}.
  Context (fmt_fixed : nat → f64 → bytes) (stamp : Z → VtimReal).

Abbreviation world_t := (world (SH := SH) (SS := SS) (CacheConfig := CacheConfig)).

Definition relog (l : RingBuffer) (w : world_t) : world_t := mkWorld (eng_with_log l (w_cache w)) (w_env w).

(** [w'] is [w] but for the log, which has grown by records with these lines and at
    most [k] others. *)
Definition logged_as (vxid : Vxid) (cap : Z) (hist : list LogRecord) (ls : list line) (k : nat) (w w' : world_t) : Prop :=
  ∃ l recs, w' = relog l w ∧ ring_repr l cap (hist ++ recs) ∧ lines_of vxid recs = ls ∧ (length recs ≤ length ls + k)%nat.

Lemma logged_as_hist vxid cap hist ls k w w' :
  logged_as vxid cap hist ls k w w' →
  ∃ hist' l, w' = relog l w ∧ ring_repr l cap hist' ∧ (length hist' ≤ length hist + length ls + k)%nat
    ∧ ∀ w1 w1' ls1 k1, logged_as vxid cap hist' ls1 k1 w1 w1' → logged_as vxid cap hist (ls ++ ls1) (k + k1) w1 w1'.
Proof.
  intros (l & recs & -> & Hr & Hl & Hk). exists (hist ++ recs), l. split_and!; [done..|rewrite length_app; lia|].
  intros w1 w1' ls1 k1 (l1 & recs1 & -> & Hr1 & Hl1 & Hk1). exists l1, (recs ++ recs1). rewrite app_assoc, lines_of_app.
  split_and!; [done..|by f_equal|rewrite !length_app; lia].
Qed.

Lemma log_to_ok vxid cap hist l ls (w : world_t) :
  ring_repr l cap hist → Z.of_nat (length hist + length ls) ≤ u64_max →
  ∃ w', log_to stamp vxid ls (relog l w) = Some w' ∧ logged_as vxid cap hist ls 0 w w'.
Proof.
  intros Hr Hn. unfold log_to. cbn [relog w_cache w_env eng_with_log eng_log].
  destruct (log_lines_ok stamp vxid ls cap l hist Hr Hn) as (l1 & recs & E & Hr1 & Hm & HF). rewrite E. cbn [mbind option_bind].
  eexists. split; [done|]. exists l1, recs. split_and!; [done..|by rewrite lines_of_own|].
  rewrite <- Hm, length_fmap. lia.
Qed.

(** The log of a round does not depend on the log before it. *)
Lemma step_log_relog backend vcl conn t ctx l (w : world_t) :
  step_log fmt_fixed backend vcl conn t ctx (relog l w) = step_log fmt_fixed backend vcl conn t ctx w.
Proof.
  unfold step_log. destruct (r_state ctx); try done. unfold lookup_log. cbn [relog w_env w_cache].
  destruct (env_now (w_env w)) as [now e]. rewrite lookup_relog. by destruct (CacheEngine_lookup _ _ _ _) as [[found c]|].
Qed.

(** A round does on the cache with its log what it does on the other. *)
Lemma store_relog beresp body gz gu unc ttl gr kp ctx (w : world_t) ctx' w1 l cap hist :
  store_response fmt_fixed beresp body gz gu unc ttl gr kp ctx w = Some (ctx', w1) →
  ring_repr l cap hist → Z.of_nat (length hist) < u64_max →
  ∃ l1 recs, store_response fmt_fixed beresp body gz gu unc ttl gr kp ctx (relog l w) = Some (ctx', relog l1 w1)
    ∧ ring_repr l1 cap (hist ++ recs) ∧ (length recs ≤ 1)%nat ∧ Forall (λ rec, vxid_id (lr_vxid rec) = 0) recs.
Proof.
  intros H Hr Hn. unfold store_response in *.
  assert (Hsame : ∀ c2, Some (c2, w) = Some (ctx', w1) →
    ∃ l1 recs, Some (c2, relog l w) = Some (ctx', relog l1 w1)
      ∧ ring_repr l1 cap (hist ++ recs) ∧ (length recs ≤ 1)%nat ∧ Forall (λ rec, vxid_id (lr_vxid rec) = 0) recs).
  { intros c2 [= <- <-]. exists l, []. rewrite app_nil_r. split_and!; [done..|cbn; lia|constructor]. }
  destruct (_ && _); [|by apply Hsame]. destruct body as [body|]; [|by apply Hsame].
  cbn [with_beresp_info r_digest] in *. destruct (r_digest ctx) as [d|]; [|by apply Hsame].
  cbn [relog w_env w_cache]. destruct (env_now (w_env w)) as [now e].
  destruct (CacheEngine_insert _ _ _ _ _ _ (w_cache w)) as [[r c]|] eqn:E; [|done].
  destruct (insert_relog fmt_fixed _ _ _ _ _ l _ _ _ cap hist E Hr Hn) as (l1 & recs & E1 & Hr1 & Hk & HF).
  rewrite E1. cbn [mbind option_bind] in *. injection H as <- <-. by exists l1, recs.
Qed.

Lemma serve_step_relog backend vcl conn ctx (w : world_t) o w1 l cap hist :
  serve_step fmt_fixed backend vcl conn ctx w = Some (o, w1) →
  ring_repr l cap hist → Z.of_nat (length hist) < u64_max →
  ∃ l1 recs, serve_step fmt_fixed backend vcl conn ctx (relog l w) = Some (o, relog l1 w1)
    ∧ ring_repr l1 cap (hist ++ recs) ∧ (length recs ≤ 1)%nat ∧ Forall (λ rec, vxid_id (lr_vxid rec) = 0) recs.
Proof.
  intros H Hr Hn.
  assert (Hsame : ring_repr l cap (hist ++ []) ∧ (length (@nil LogRecord) ≤ 1)%nat ∧ Forall (λ rec, vxid_id (lr_vxid rec) = 0) [])
    by (rewrite app_nil_r; split_and!; [done|cbn; lia|constructor]).
  unfold serve_step in *. destruct (r_state ctx); try (injection H as <- <-; by exists l, []).
  - unfold state_lookup in *. cbn [relog w_env w_cache]. destruct (env_now (w_env w)) as [now e]. rewrite lookup_relog.
    destruct (CacheEngine_lookup _ _ _ _) as [[found c]|]; [|done]. cbn [mbind option_bind fmap option_fmap option_map fst snd] in *.
    injection H as <- <-. by exists l, [].
  - unfold state_fetch in *. destruct backend as [addr|].
    2: { cbn [mbind option_bind] in *. case_decide; injection H as <- <-; by exists l, []. }
    destruct (run_backend_fetch _ _ _ _) as [ctx1 [bereq|]].
    2: { cbn [mbind option_bind] in *. case_decide; injection H as <- <-; by exists l, []. }
    cbn [relog w_env w_cache]. destruct (fetch_from_backend _ _ _ _) as [[[[beresp body]|msg]|] e].
    2: { cbn [mbind option_bind] in *. case_decide; injection H as <- <-; by exists l, []. }
    2: { cbn [mbind option_bind] in *. injection H as <- <-; by exists l, []. }
    destruct (run_backend_response _ _ _ _ _) as [ctx2 [[[[[[[b gz] gu] unc] ttl] gr] kp]|]].
    2: { cbn [mbind option_bind] in *. case_decide; injection H as <- <-; by exists l, []. }
    destruct (store_response _ _ _ _ _ _ _ _ _ _ _) as [[ctx3 w3]|] eqn:E; [|done].
    destruct (store_relog _ _ _ _ _ _ _ _ _ _ _ _ l cap hist E Hr Hn) as (l1 & recs & E1 & Hrest).
    change (mkWorld (eng_with_log l (w_cache w)) e) with (relog l (mkWorld (w_cache w) e)). rewrite E1.
    cbn [mbind option_bind] in *. case_decide; injection H as <- <-; by exists l1, recs.
  - cbn [relog w_cache eng_with_log eng_cells]. destruct (state_deliver _ _ _ _) as [c|]; [|done]. cbn [mbind option_bind] in *.
    repeat case_match; simplify_eq; by exists l, [].
Qed.
(** Composition, with the number of records so far. *)
Lemma logged_step vxid cap hist l backend vcl conn ctx (w : world_t) o w1 :
  vxid_id vxid ≠ 0 → serve_step fmt_fixed backend vcl conn ctx w = Some (o, w1) →
  ring_repr l cap hist → Z.of_nat (length hist) < u64_max →
  ∃ w2, serve_step fmt_fixed backend vcl conn ctx (relog l w) = Some (o, w2) ∧ logged_as vxid cap hist [] 1 w1 w2.
Proof.
  intros Hv E Hr Hn. destruct (serve_step_relog _ _ _ _ _ _ _ l cap hist E Hr Hn) as (l1 & recs & E1 & Hr1 & Hk & HF).
  exists (relog l1 w1). split; [done|]. exists l1, recs. split_and!; [done..|by apply lines_of_others|done].
Qed.

Lemma logged_as_weaken vxid cap hist ls k k' w w' : (k ≤ k')%nat → logged_as vxid cap hist ls k w w' → logged_as vxid cap hist ls k' w w'.
Proof. intros Hk (l & recs & ? & ? & ? & ?). exists l, recs. split_and!; [done..|lia]. Qed.

(** The loop with its log does what the loop of the story does, and logs the story. *)
Lemma logged_loop_refines vxid cap backend vcl conn ts : vxid_id vxid ≠ 0 → ∀ ctx (w : world_t) o w1 ls l hist,
  story_loop fmt_fixed ts backend vcl conn ctx w = Some (o, w1, ls) → ring_repr l cap hist →
  Z.of_nat (length hist + length ls + length ts) ≤ u64_max →
  ∃ w2, logged_loop fmt_fixed stamp ts backend vcl conn vxid ctx (relog l w) = Some (o, w2)
    ∧ logged_as vxid cap hist ls (length ts) w1 w2.
Proof.
  intros Hv. induction ts as [|t ts IH]; intros ctx w o w1 ls l hist; cbn [story_loop logged_loop length].
  { case_decide as Hd; [|done]. intros [= <- <- <-] Hr _. exists (relog l w). split; [done|]. exists l, []. by rewrite app_nil_r. }
  case_decide as Hd.
  { intros [= <- <- <-] Hr _. exists (relog l w). split; [done|]. exists l, []. rewrite app_nil_r. split_and!; [done..|cbn; lia]. }
  rewrite step_log_relog. destruct (step_log _ _ _ _ _ _ _) as [[before after]|]; [|done]. cbn [mbind option_bind].
  destruct (serve_step fmt_fixed backend vcl conn ctx w) as [[next w3]|] eqn:Es; [|done]. cbn [mbind option_bind]. intros H Hr Hn.
  assert (Hb : (length before ≤ length ls)%nat).
  { destruct next; [|by injection H as <- <- <-].
    destruct (story_loop _ _ _ _ _ _ _) as [[[o' w'] more]|]; [|done]. injection H as <- <- <-. rewrite length_app. lia. }
  destruct (log_to_ok vxid cap hist l before w Hr ltac:(lia)) as (w4 & E4 & H4). rewrite E4. cbn [mbind option_bind].
  apply logged_as_hist in H4 as (hist1 & l1 & -> & Hr1 & Hh1 & Hc1).
  destruct (logged_step vxid cap hist1 l1 _ _ _ _ _ _ _ Hv Es Hr1 ltac:(lia)) as (w5 & E5 & H5). rewrite E5. cbn [mbind option_bind].
  destruct next as [ctx1|].
  2: { injection H as <- <- <-. exists w5. split; [done|]. apply Hc1 in H5. rewrite app_nil_r in H5.
       eapply logged_as_weaken; [|exact H5]. lia. }
  destruct (story_loop _ _ _ _ _ _ _) as [[[o' w'] more]|] eqn:El; [|done]. cbn [mbind option_bind] in H. injection H as <- <- <-.
  rewrite !length_app in Hn. apply logged_as_hist in H5 as (hist2 & l2 & -> & Hr2 & Hh2 & Hc2). cbn [length] in Hh2.
  destruct (log_to_ok vxid cap hist2 l2 after w3 Hr2 ltac:(lia)) as (w6 & E6 & H6). rewrite E6. cbn [mbind option_bind].
  apply logged_as_hist in H6 as (hist3 & l3 & -> & Hr3 & Hh3 & Hc3).
  destruct (IH ctx1 w3 o' w' more l3 hist3 El Hr3 ltac:(lia)) as (w7 & E7 & H7). exists w7. split; [done|].
  apply Hc3, Hc2, Hc1 in H7. eapply logged_as_weaken; [|exact H7]. lia.
Qed.

(** The story of a request, and the pipeline it is read off. *)
Lemma story_told n client wall wall_end elapsed ts request body conn backend vcl vxid (w : world_t) :
  reachable_in fmt_fixed n (w_cache w) → n + 29 ≤ u64_max → lookup_restarts_not vcl → length ts = 29%nat →
  ∃ told w1 mid,
    let ending := match told with Some (p, _) => end_log fmt_fixed wall_end elapsed p.1 p.2 | None => [] end in
    let lines := start_log fmt_fixed client wall request ++ mid ++ ending in
    request_story fmt_fixed client wall wall_end elapsed ts request body conn backend vcl vxid w = Some (told, w1, lines)
    ∧ handle_request fmt_fixed 29 request body conn backend vcl vxid w = Some (Some (fst <$> told, w1))
    ∧ answered lines = true ∧ looked_up lines = true
    ∧ (∀ p how, told = Some (p, how) → (how = HandledHit ↔ ∃ x, (LogTag_Hit, x) ∈ lines))
    ∧ (told = None → fetch_panics backend).
Proof.
  intros Hr%reachable_in_ok Hn Hvcl Hts. unfold handle_request, request_story. destruct (env_now (w_env w)) as [now e].
  set (ctx := with_body body (RequestContext_new request vxid now)).
  assert (Hgs : well_told (start_log fmt_fixed client wall request)) by (unfold start_log; auto 10 with log).
  destruct (serve_loop_ok fmt_fixed 29 backend vcl conn n ctx (mkWorld (w_cache w) e)) as (w1 & _ & H); [done|lia|done| |vm_compute; lia|].
  { unfold counters_ok. cbn. unfold u32_max. lia. }
  rewrite <- Hts in H. destruct H as [(ctx' & E & _)|[E Hp]].
  - destruct (story_loop_ok fmt_fixed backend vcl conn ts ctx (mkWorld (w_cache w) e) (Some ctx') w1 E) as (ls & El & Hg & Ho).
    rewrite El. rewrite Hts in E. rewrite E. cbn [mbind option_bind].
    exists (Some (final_response ctx', request_handling ctx')), w1, ls. cbv zeta. split; [reflexivity|]. split; [reflexivity|].
    assert (well_told (start_log fmt_fixed client wall request ++ ls ++ end_log fmt_fixed wall_end elapsed (final_response ctx').1 (final_response ctx').2))
      as [Ha Hl] by (apply good_app; [done|]; apply good_app; [done|unfold end_log; auto 10 with log]).
    split; [done|]. split; [done|]. split; [|done]. intros p how [= _ <-]. unfold request_handling.
    rewrite <- logs_hit_spec, !logs_hit_app. specialize (Ho ctx' eq_refl). change (bool_decide (is_Some (r_obj ctx')) = logs_hit ls) in Ho.
    rewrite <- Ho. unfold start_log. rewrite !logs_hit_app, hitless_headers by done. cbn [logs_hit existsb orb fst end_log].
    destruct (r_obj ctx'); [done|]. by destruct (r_is_pass ctx').
  - destruct (story_loop_ok fmt_fixed backend vcl conn ts ctx (mkWorld (w_cache w) e) None w1 E) as (ls & El & Hg & _).
    rewrite El. rewrite Hts in E. rewrite E. cbn [mbind option_bind]. exists None, w1, ls. cbv zeta. rewrite !app_nil_r.
    destruct (good_app _ _ Hgs Hg) as [Ha Hl]. by split_and!.
Qed.

(** The handler with its log calls, against the story. *)
Lemma logged_refines_story client wall wall_end elapsed ts request body conn backend vcl vxid (w : world_t) told w1 lines cap hist :
  request_story fmt_fixed client wall wall_end elapsed ts request body conn backend vcl vxid w = Some (told, w1, lines) →
  vxid_id vxid ≠ 0 → ring_repr (eng_log (w_cache w)) cap hist →
  Z.of_nat (length hist + length lines + length ts) ≤ u64_max →
  ∃ w2, handle_request_logged fmt_fixed stamp client wall wall_end elapsed ts request body conn backend vcl vxid w = Some (told, w2)
    ∧ logged_as vxid cap hist lines (length ts) w1 w2.
Proof.
  unfold request_story, handle_request_logged. generalize (start_log fmt_fixed client wall request) (end_log fmt_fixed wall_end elapsed).
  intros opening closing H Hv Hr Hn. destruct (env_now (w_env w)) as [now e] eqn:En.
  set (ctx := with_body body (RequestContext_new request vxid now)) in *.
  destruct (story_loop _ _ _ _ _ _ _) as [[[ended w3] mid]|] eqn:El; [|done]. cbn [mbind option_bind] in H.
  assert (Hlen : (length opening + length mid ≤ length lines)%nat)
    by (cbv zeta in H; destruct ended; injection H as _ _ <-; rewrite !length_app; lia).
  assert (Ew : w = relog (eng_log (w_cache w)) w) by (by destruct w as [[] ?]).
  destruct (log_to_ok vxid cap hist _ opening w Hr ltac:(lia)) as (w4 & E4 & H4).
  rewrite <- Ew in E4. rewrite E4.
  apply logged_as_hist in H4 as (hist1 & l1 & -> & Hr1 & Hh1 & Hc1). cbn [mbind option_bind relog w_env w_cache]. rewrite En.
  destruct (logged_loop_refines vxid cap backend vcl conn ts Hv ctx (mkWorld (w_cache w) e) ended w3 mid l1 hist1 El Hr1 ltac:(lia))
    as (w5 & E5 & H5).
  unfold relog in E5 at 1. cbn [w_cache w_env] in E5. fold ctx. rewrite E5. cbn [mbind option_bind].
  destruct ended as [ctx'|].
  - destruct (final_response ctx') as [response resp_body] eqn:Ef. cbv zeta in H. injection H as <- <- <-. cbn [fst snd] in *.
    apply logged_as_hist in H5 as (hist2 & l2 & -> & Hr2 & Hh2 & Hc2).
    destruct (log_to_ok vxid cap hist2 l2 (closing response resp_body) w3 Hr2) as (w6 & E6 & H6).
    { rewrite !length_app in Hn. lia. }
    rewrite E6. cbn [mbind option_bind]. exists w6. split; [done|]. apply Hc2, Hc1 in H6. eapply logged_as_weaken; [|exact H6]. lia.
  - injection H as <- <- <-. exists w5. split; [done|]. apply Hc1 in H5. exact H5.
Qed.

End refines.

(* ------------------------------------------------------------------ *)
(** ** A logged request *)

#[local] Existing Instance server_stevedore.

Definition sample_times : log_times := mkTimes f64_zero f64_zero f64_zero.
Definition sample_restarting : list (bytes * InterpreterAction.t) := [(str "vcl_deliver", InterpreterAction.Restart)].
Definition sample_client : bytes := str "127.0.0.1 4000".


(** The records of a request that misses, without VCL: the status is there twice. *)
Example missed_request_log :
  match request_story (env := sample_env) (interp := sample_interp) (regex := substring_regex) sample_fmt sample_client f64_zero f64_zero f64_zero
          (replicate 29 sample_times) (sample_get (str "/a")) None sample_conn (Some sample_addr) None (mkVxid 7) sample_world with
  | Some (Some (_, how), _, lines) => Some (lines.*1, how)
  | _ => None
  end
  = Some ([LogTag_ReqStart; LogTag_ReqMethod; LogTag_ReqURL; LogTag_ReqProtocol; LogTag_ReqHeader; LogTag_Timestamp; LogTag_Hash; LogTag_Miss;
           LogTag_Backend; LogTag_BereqMethod; LogTag_BereqURL; LogTag_Timestamp; LogTag_Timestamp; LogTag_BerespStatus; LogTag_BerespReason;
           LogTag_TTL; LogTag_Storage; LogTag_RespStatus; LogTag_Length; LogTag_RespHeader; LogTag_RespHeader; LogTag_RespHeader;
           LogTag_RespStatus; LogTag_Timestamp; LogTag_ReqAcct; LogTag_End], HandledMiss).
Proof. vm_compute. reflexivity. Qed.

(** The records in the buffer: that of the cache, under no number, is among them. *)
Example missed_request_ring :
  match RingBuffer_new 64 with
  | None => None
  | Some ring =>
      match handle_request_logged (env := sample_env) (interp := sample_interp) (regex := substring_regex) sample_fmt (λ _, f64_zero)
              sample_client f64_zero f64_zero f64_zero (replicate 29 sample_times) (sample_get (str "/a")) None sample_conn (Some sample_addr)
              None (mkVxid 7) (relog ring sample_world) with
      | Some (_, w2) => option_map (List.map (λ rec, vxid_id (lr_vxid rec))) (LogReader_read_all (eng_log (w_cache w2)))
      | None => None
      end
  end = Some (replicate 15 7 ++ [0] ++ replicate 11 7).
Proof. vm_compute. reflexivity. Qed.
