(* ===== verification/AdminProtocol.v ===== *)
(** * The administration protocol

    Models [rv-admin/src/protocol.rs] (status codes and the framing of responses),
    [error.rs] and [auth.rs] (the challenge and its answer).  SHA-256 is a
    parameter, and so are the texts of the standard library's errors. *)

From S2P Require Import Prelude RustStr Types Vary.
Local Open Scope Z_scope.

Module CliStatus.

Inductive t : Set :=
| Ok | SyntaxError | UnknownCommand | Unimplemented | TooFewParams | Truncated | NotAvailable | Error | Close.

#[global] Instance t_eq_dec : EqDecision t.
Proof. solve_decision. Defined.

Definition code (s : t) : Z :=
  match s with
  | Ok => 200
  | SyntaxError => 100
  | UnknownCommand => 101
  | Unimplemented => 102
  | TooFewParams => 104
  | Truncated => 300
  | NotAvailable => 400
  | Error => 500
  | Close => 999
  end.

Definition from_code (c : Z) : option t :=
  if c =? 200 then Some Ok
  else if c =? 100 then Some SyntaxError
  else if c =? 101 then Some UnknownCommand
  else if c =? 102 then Some Unimplemented
  else if c =? 104 then Some TooFewParams
  else if c =? 300 then Some Truncated
  else if c =? 400 then Some NotAvailable
  else if c =? 500 then Some Error
  else if c =? 999 then Some Close
  else None.

Lemma from_code_code s : from_code (code s) = Some s.
Proof. by destruct s. Qed.

End CliStatus.

Record CliResponse : Set := mkCliResponse { cr_status : CliStatus.t; cr_body : bytes }.

Definition CliResponse_ok (body : bytes) : CliResponse := mkCliResponse CliStatus.Ok body.
Definition CliResponse_error (body : bytes) : CliResponse := mkCliResponse CliStatus.Error body.

Module AdminError.

Inductive t : Set :=
| CommandFailed (msg : bytes)
| InvalidCommand (msg : bytes)
| AuthError (msg : bytes)
| IoError (msg : bytes)
| InternalError (msg : bytes).

Definition display (e : t) : bytes :=
  match e with
  | CommandFailed m => str "command failed: " ++ m
  | InvalidCommand m => str "invalid command: " ++ m
  | AuthError m => str "authentication error: " ++ m
  | IoError m => str "I/O error: " ++ m
  | InternalError m => str "internal error: " ++ m
  end.

End AdminError.

Definition encode_response (r : CliResponse) : bytes :=
  show_u64 (CliStatus.code (cr_status r)) ++ str " " ++ show_u64 (len (cr_body r)) ++ [x0a]
  ++ cr_body r ++ [x0a].

(** [str::is_char_boundary] and [&text[start..end]], which panics off one. *)
Definition is_char_boundary (s : bytes) (i : Z) : bool :=
  (i =? 0) || match s !! Z.to_nat i with
              | Some b => negb (is_cont b)
              | None => i =? len s
              end.
Definition str_slice (s : bytes) (a b : Z) : option bytes :=
  if (a <=? b) && (b <=? len s) && is_char_boundary s a && is_char_boundary s b
  then Some (take (Z.to_nat (b - a)) (drop (Z.to_nat a) s)) else None.

Section protocol.
Context {errors : StdErrors}.
Local Open Scope rust_scope.

(** What [decode_response] reads of the header: the status and the body's length. *)
Definition decode_header (header : bytes) : result (CliStatus.t * Z) AdminError.t :=
  '(status_str, length_str) ←? ok_or (split_once [x20] header) (AdminError.InvalidCommand (str "missing length"));
  status_code ←? ok_or (parse_u16 status_str)
    (AdminError.InvalidCommand (str "invalid status code: " ++ int_error status_str));
  body_len ←? ok_or (parse_u64 length_str)
    (AdminError.InvalidCommand (str "invalid body length: " ++ int_error length_str));
  status ←? ok_or (CliStatus.from_code status_code)
    (AdminError.InvalidCommand (str "unknown status code: " ++ show_u64 status_code));
  Ok (status, body_len).

(** [None] when the slice panics. *)
Definition decode_response (data : bytes) : option (result CliResponse AdminError.t) :=
  match from_utf8 data with
  | None => Some (Err (AdminError.InvalidCommand (str "invalid UTF-8: " ++ utf8_error data)))
  | Some text =>
      match split_once [x0a] text with
      | None => Some (Err (AdminError.InvalidCommand (str "missing header newline")))
      | Some (header, _) =>
          match decode_header header with
          | Err e => Some (Err e)
          | Ok (status, body_len) =>
              let body_start := u64_wrap (len header + 1) in
              let body_end := u64_wrap (body_start + body_len) in
              if len text <? body_end then
                Some (Err (AdminError.InvalidCommand
                  (str "body length " ++ show_u64 body_len ++ str " exceeds available data ("
                   ++ show_u64 (u64_wrap (len text - body_start)) ++ str ")")))
              else body ← str_slice text body_start body_end; Some (Ok (mkCliResponse status body))
          end
      end
  end.

End protocol.

(* ------------------------------------------------------------------ *)
(** ** Authentication *)

Section auth.
Context (sha256 : bytes → bytes).

Definition hex_encode (s : bytes) : bytes := mjoin (hex_byte <$> s).

Definition compute_auth_response (challenge secret : bytes) : bytes :=
  hex_encode (sha256 (challenge ++ secret ++ challenge)).

(** The accumulated difference of two slices. *)
Definition diff_byte (diff : Z) (p : byte * byte) : Z := Z.lor diff (Z.lxor (u8_val p.1) (u8_val p.2)).
Definition constant_time_eq (a b : bytes) : bool :=
  if negb (len a =? len b) then false else foldl diff_byte 0 (zip a b) =? 0.

Definition verify_auth (challenge secret response : bytes) : bool :=
  constant_time_eq (compute_auth_response challenge secret) (trim response).
End auth.

(* ------------------------------------------------------------------ *)
(** ** Properties *)

#[global] Instance u8_val_inj : Inj (=) (=) u8_val.
Proof. intros a b H. by rewrite <-(u8_of_val a), H, u8_of_val. Qed.

Lemma diff_zero ps : ∀ d, foldl diff_byte d ps = 0 ↔ d = 0 ∧ Forall (λ p, p.1 = p.2) ps.
Proof.
  induction ps as [|[x y] ps IH]; intros d; cbn [foldl].
  - split; [intros ->; by split|by intros [-> _]].
  - rewrite IH. unfold diff_byte at 1. cbn [fst snd]. rewrite Z.lor_eq_0_iff, Z.lxor_eq_0_iff, Forall_cons. cbn [fst snd].
    split; [intros [[-> H] Hp]; apply (inj u8_val) in H as ->; done|intros (-> & -> & Hp); done].
Qed.

Lemma zip_all_eq (a b : bytes) : length a = length b → Forall (λ p, p.1 = p.2) (zip a b) → a = b.
Proof.
  revert b. induction a as [|x a IH]; intros [|y b] Hl Hp; simplify_eq/=; [done|].
  apply Forall_cons in Hp as [Hx Hp]. simpl in Hx. subst. f_equal. by apply IH.
Qed.

(** The comparison without early exit is equality. *)
Lemma constant_time_eq_spec a b : constant_time_eq a b = true ↔ a = b.
Proof.
  unfold constant_time_eq, len. destruct (Z.eqb_spec (Z.of_nat (length a)) (Z.of_nat (length b))) as [E|E]; cbn [negb].
  - rewrite Z.eqb_eq, diff_zero. split; [|intros ->].
    + intros [_ H]. apply zip_all_eq; [lia|done].
    + split; [done|]. apply Forall_forall. intros [x y] H. clear E. induction b as [|z b IH]; [by apply elem_of_nil in H|].
      cbn in H. apply elem_of_cons in H as [[= -> ->]|H]; [done|by apply IH].
  - split; [done|]. intros ->. done.
Qed.

(** A valid string starts with no continuation byte. *)
Lemma utf8_valid_head b s : utf8_valid (b :: s) = true → is_cont b = false.
Proof.
  intros H. destruct (is_cont b) eqn:E; [|done]. exfalso. revert H.
  assert (byte_in 0 127 b = false ∧ byte_in 194 223 b = false ∧ byte_in 224 224 b = false ∧ byte_in 225 236 b = false
    ∧ byte_in 237 237 b = false ∧ byte_in 238 239 b = false ∧ byte_in 240 240 b = false ∧ byte_in 241 243 b = false
    ∧ byte_in 244 244 b = false) as (E1 & E2 & E3 & E4 & E5 & E6 & E7 & E8 & E9).
  { unfold is_cont, byte_in in *. bool_to_prop. split_and!; apply andb_false_iff; rewrite !Z.leb_gt; lia. }
  cbn [utf8_valid]. rewrite E1, E2, E3, E4, E5, E6, E7, E8, E9. cbn. by destruct s as [|? [|? [|? ?]]].
Qed.

Lemma digits_ascii s : Forall (λ c, is_Some (digit_val c)) s → Forall (λ b, byte_in 0 127 b = true) s.
Proof.
  intros H. eapply Forall_impl; [exact H|]. intros c [d Hc]. unfold digit_val in Hc. case_if_in Hc; [|done]. bool_to_prop.
  unfold byte_in. apply andb_true_iff. rewrite !Z.leb_le. lia.
Qed.

(** A slice between two parts that start characters. *)
Lemma str_slice_app h b t :
  utf8_valid (b ++ t) = true → utf8_valid t = true →
  str_slice (h ++ b ++ t) (len h) (len h + len b) = Some b.
Proof.
  intros Hb Ht. unfold str_slice, len in *. rewrite !length_app.
  assert (∀ p q, utf8_valid q = true → is_char_boundary (p ++ q) (Z.of_nat (length p)) = true) as Hbound.
  { intros p q Hq. unfold is_char_boundary, len. apply orb_true_iff. right. rewrite Nat2Z.id, lookup_app_r, Nat.sub_diag by lia.
    destruct q as [|c q]; cbn; [rewrite length_app; simpl; apply Z.eqb_eq; lia|]. by rewrite (utf8_valid_head c q). }
  rewrite (Hbound h (b ++ t) Hb). pose proof (Hbound (h ++ b) t Ht) as H2. rewrite <-app_assoc, length_app, Nat2Z.inj_add in H2.
  rewrite H2. rewrite (proj2 (Z.leb_le _ _)) by lia. rewrite (proj2 (Z.leb_le _ _)) by lia. cbn [andb].
  replace (Z.to_nat (Z.of_nat (length h) + Z.of_nat (length b) - Z.of_nat (length h))) with (length b) by lia.
  by rewrite Nat2Z.id, drop_app_length, take_app_length.
Qed.

Lemma show_fuel_length fuel z : (length (show_fuel fuel z) ≤ S fuel)%nat.
Proof.
  revert z. induction fuel as [|fuel IH]; intros z; simpl; [lia|]. case_if; simpl; [lia|].
  rewrite length_app. specialize (IH (z / 10)). simpl. lia.
Qed.

Section protocol_proofs.
Context {errors : StdErrors}.

Lemma code_range s : 0 ≤ CliStatus.code s ≤ u16_max.
Proof. destruct s; done. Qed.

Lemma decode_header_encoded s n :
  0 ≤ n ≤ u64_max →
  decode_header (show_u64 (CliStatus.code s) ++ [x20] ++ show_u64 n) = Ok (s, n).
Proof.
  intros Hn. unfold decode_header. pose proof (code_range s) as Hc. unfold u16_max, u64_max in *.
  rewrite split_once_first; [|apply show_u64_notin; [unfold u64_max; lia|done]]. cbn [ok_or result_bind].
  assert (parse_u16 (show_u64 (CliStatus.code s)) = Some (CliStatus.code s)) as ->.
  { apply parse_show_uint; unfold u16_max, u64_max; lia. }
  cbn [ok_or result_bind]. rewrite parse_show_u64 by (unfold u64_max; lia). cbn [ok_or result_bind].
  by rewrite CliStatus.from_code_code.
Qed.

(** The framing of responses round-trips: any status with any text, newlines
    and multi-byte characters included, is decoded from its encoding. *)
Theorem cli_response_roundtrip r :
  utf8_valid (cr_body r) = true → len (cr_body r) < 2 ^ 63 →
  decode_response (encode_response r) = Some (Ok r).
Proof.
  destruct r as [s body]. cbn [cr_body cr_status]. intros Hu Hl. assert (0 ≤ len body) as Hl0 by (unfold len; lia).
  set (header := show_u64 (CliStatus.code s) ++ [x20] ++ show_u64 (len body)).
  assert (encode_response (mkCliResponse s body) = (header ++ [x0a]) ++ body ++ [x0a]) as ->.
  { unfold encode_response, header. cbn [cr_status cr_body]. by rewrite <-!app_assoc. }
  pose proof (code_range s) as Hc. unfold u16_max in Hc.
  assert (0 ≤ CliStatus.code s ≤ u64_max) as Hc' by (unfold u64_max; lia).
  assert (0 ≤ len body ≤ u64_max) as Hlb by (unfold u64_max; lia).
  pose proof (show_u64_digits _ Hc') as Hd1. pose proof (show_u64_digits _ Hlb) as Hd2.
  assert (utf8_valid (body ++ [x0a]) = true) as Hbody by (rewrite utf8_valid_split by done; by rewrite Hu).
  assert (utf8_valid ((header ++ [x0a]) ++ body ++ [x0a]) = true) as Hall.
  { rewrite ascii_utf8; [done|]. unfold header. rewrite !Forall_app. split_and!; [by apply digits_ascii|by repeat constructor| |by repeat constructor].
    by apply digits_ascii. }
  assert (len header ≤ 41) as Hh.
  { unfold header, len. rewrite !length_app. pose proof (show_fuel_length 19 (CliStatus.code s)).
    pose proof (show_fuel_length 19 (Z.of_nat (length body))). unfold show_u64. cbn [length]. lia. }
  unfold decode_response, from_utf8. rewrite Hall.
  rewrite <-(app_assoc header [x0a]), split_once_first.
  2: { unfold header. rewrite !not_elem_of_app. split_and!; [by apply show_u64_notin|set_solver|by apply show_u64_notin]. }
  unfold header at 1. rewrite decode_header_encoded by done.
  assert (len (header ++ [x0a]) = len header + 1) as Hlen by (unfold len; rewrite length_app; simpl; lia).
  assert (0 ≤ len header) as Hh0 by (unfold len; lia).
  cbv zeta. rewrite (u64_wrap_small (len header + 1)) by (unfold u64_max; lia).
  rewrite (u64_wrap_small (len header + 1 + len body)) by (unfold u64_max; lia). rewrite (app_assoc header [x0a]).
  rewrite (proj2 (Z.ltb_ge _ _)).
  2: { unfold len in *. rewrite !length_app in *. simpl in *. lia. }
  rewrite <-Hlen, str_slice_app by done. done.
Qed.
End protocol_proofs.

Definition plain_errors : StdErrors := {| utf8_error _ := []; int_error _ := [] |}.

Lemma cli_response_roundtrip_witness :
  let r := mkCliResponse CliStatus.Error (str "line 1" ++ [x0a] ++ str "line 2") in
  encode_response r = str "500 13" ++ [x0a] ++ str "line 1" ++ [x0a] ++ str "line 2" ++ [x0a]
  ∧ decode_response (errors := plain_errors) (encode_response r) = Some (Ok r).
Proof.
  intros r. split; [vm_compute; reflexivity|].
  apply (cli_response_roundtrip (errors := plain_errors) r); vm_compute; reflexivity.
Defined.

(** A frame that announces a length near the end of the address space, or one that
    ends inside a character, makes the decoder panic instead of returning an
    error: the end of the body wraps around, or is not a boundary.  The frame in
    which the server itself announces authentication has a status the decoder
    does not know. *)
Theorem cli_decode_panics {errors : StdErrors} :
  decode_response (str "200 18446744073709551615" ++ [x0a; x0a]) = None
  ∧ decode_response (str "200 1" ++ [x0a; xc3; xa9; x0a]) = None
  ∧ decode_response (str "107 2" ++ [x0a] ++ str "ab" ++ [x0a])
    = Some (Err (AdminError.InvalidCommand (str "unknown status code: 107"))).
Proof. split_and!; vm_compute; reflexivity. Qed.

(** A client passes exactly when it sends the digest of the challenge, the secret and
    the challenge, up to surrounding blanks. *)
Lemma verify_auth_spec sha256 challenge secret response :
  verify_auth sha256 challenge secret response = true
  ↔ trim response = compute_auth_response sha256 challenge secret.
Proof. unfold verify_auth. rewrite constant_time_eq_spec. naive_solver. Qed.
