(* ===== verification/AdminCommands.v ===== *)
(** * The commands of the administration interface

    Models [rv-admin/src/commands.rs]: the tokenizer with its quoted strings and the
    parser of command lines. *)

From S2P Require Import Prelude RustStr AdminProtocol.
Local Open Scope Z_scope.
Local Open Scope rust_scope.

Module CliCommand.

Inductive t : Set :=
| VclLoad (name source : bytes)
| VclUse (name : bytes)
| VclList
| VclDiscard (name : bytes)
| Ban (expression : bytes)
| BanList
| ParamShow (param : option bytes)
| ParamSet (param value : bytes)
| BackendList
| BackendSetHealth (backend health : bytes)
| Status
| Stop
| Start
| Ping
| Help
| LogStream (tags : option bytes).

Definition name (c : t) : bytes :=
  match c with
  | VclLoad _ _ => str "vcl.load"
  | VclUse _ => str "vcl.use"
  | VclList => str "vcl.list"
  | VclDiscard _ => str "vcl.discard"
  | Ban _ => str "ban"
  | BanList => str "ban.list"
  | ParamShow _ => str "param.show"
  | ParamSet _ _ => str "param.set"
  | BackendList => str "backend.list"
  | BackendSetHealth _ _ => str "backend.set_health"
  | Status => str "status"
  | Stop => str "stop"
  | Start => str "start"
  | Ping => str "ping"
  | Help => str "help"
  | LogStream _ => str "log.stream"
  end.

End CliCommand.

Module Tokenizer.

(** The state is the remaining input.  The text up to the first white space. *)
Fixpoint parse_bare (s : bytes) : bytes * bytes :=
  match s with
  | [] => ([], [])
  | c :: s' =>
      match strip_any ws_seqs s with
      | Some _ => ([], s)
      | None => let '(token, rest) := parse_bare s' in (c :: token, rest)
      end
  end.

(** After the opening quote: the string and what follows the closing one.  The bytes
    of a multi-byte character are none of the two special ones. *)
Fixpoint parse_quoted (s : bytes) : bytes * bytes :=
  match s with
  | [] => ([], [])
  | c :: s' =>
      if decide (c = x5c) then
        match s' with
        | [] => ([], [])
        | e :: s'' => let '(result, rest) := parse_quoted s'' in (e :: result, rest)
        end
      else if decide (c = x22) then ([], s')
      else let '(result, rest) := parse_quoted s' in (c :: result, rest)
  end.

Definition new (input : bytes) : bytes := trim input.

Definition next (remaining : bytes) : option bytes * bytes :=
  match trim_start remaining with
  | [] => (None, [])
  | c :: s =>
      let '(token, rest) := if decide (c = x22) then parse_quoted s else parse_bare (c :: s) in
      (Some token, rest)
  end.

Definition rest (remaining : bytes) : option bytes :=
  match trim remaining with
  | [] => None
  | s => Some s
  end.

End Tokenizer.

Definition invalid (msg : bytes) : AdminError.t := AdminError.InvalidCommand msg.

(** The next token or the error [e]. *)
Definition require (tokens : bytes) (e : bytes) : result (bytes * bytes) AdminError.t :=
  match Tokenizer.next tokens with
  | (Some token, tokens) => Ok (token, tokens)
  | (None, _) => Err (invalid e)
  end.

Definition command_table : list (bytes * (bytes → result CliCommand.t AdminError.t)) :=
  [(str "vcl.load", λ tokens,
      '(name, tokens) ←? require tokens (str "vcl.load requires <name> <source>");
      source ←? ok_or (Tokenizer.rest tokens) (invalid (str "vcl.load requires <name> <source>"));
      Ok (CliCommand.VclLoad name source));
   (str "vcl.use", λ tokens,
      '(name, _) ←? require tokens (str "vcl.use requires <name>");
      Ok (CliCommand.VclUse name));
   (str "vcl.list", λ _, Ok CliCommand.VclList);
   (str "vcl.discard", λ tokens,
      '(name, _) ←? require tokens (str "vcl.discard requires <name>");
      Ok (CliCommand.VclDiscard name));
   (str "ban", λ tokens,
      expression ←? ok_or (Tokenizer.rest tokens) (invalid (str "ban requires <expression>"));
      Ok (CliCommand.Ban expression));
   (str "ban.list", λ _, Ok CliCommand.BanList);
   (str "param.show", λ tokens, Ok (CliCommand.ParamShow (Tokenizer.next tokens).1));
   (str "param.set", λ tokens,
      '(param, tokens) ←? require tokens (str "param.set requires <param> <value>");
      value ←? ok_or (Tokenizer.rest tokens) (invalid (str "param.set requires <param> <value>"));
      Ok (CliCommand.ParamSet param value));
   (str "backend.list", λ _, Ok CliCommand.BackendList);
   (str "backend.set_health", λ tokens,
      '(backend, tokens) ←? require tokens (str "backend.set_health requires <backend> <health>");
      '(health, _) ←? require tokens (str "backend.set_health requires <backend> <health>");
      Ok (CliCommand.BackendSetHealth backend health));
   (str "status", λ _, Ok CliCommand.Status);
   (str "stop", λ _, Ok CliCommand.Stop);
   (str "start", λ _, Ok CliCommand.Start);
   (str "ping", λ _, Ok CliCommand.Ping);
   (str "help", λ _, Ok CliCommand.Help);
   (str "log.stream", λ tokens, Ok (CliCommand.LogStream (Tokenizer.rest tokens)))].

Definition parse_command (line : bytes) : result CliCommand.t AdminError.t :=
  let line := trim line in
  match line with
  | [] => Err (invalid (str "empty command"))
  | _ =>
      match Tokenizer.next (Tokenizer.new line) with
      | (None, _) => Err (invalid (str "empty command"))
      | (Some cmd, tokens) =>
          match match_str command_table cmd with
          | Some run => run tokens
          | None => Err (invalid (str "unknown command: " ++ cmd))
          end
      end
  end.

Example parse_command_quoted :
  parse_command (str " vcl.use " ++ [x22] ++ str "a b" ++ [x22]) = Ok (CliCommand.VclUse (str "a b")).
Proof. vm_compute. reflexivity. Qed.

(* ------------------------------------------------------------------ *)
(** ** Writing commands *)

Fixpoint escape (s : bytes) : bytes :=
  match s with
  | [] => []
  | c :: s => if decide (c = x5c ∨ c = x22) then x5c :: c :: escape s else c :: escape s
  end.
Definition quote (s : bytes) : bytes := x22 :: escape s ++ [x22].

(** The arguments: quoted ones, and free text up to the end of the line. *)
Definition command_args (c : CliCommand.t) : list bytes * option bytes :=
  match c with
  | CliCommand.VclLoad n s => ([n], Some s)
  | CliCommand.VclUse n => ([n], None)
  | CliCommand.VclDiscard n => ([n], None)
  | CliCommand.Ban e => ([], Some e)
  | CliCommand.ParamShow p => (option_list p, None)
  | CliCommand.ParamSet p v => ([p], Some v)
  | CliCommand.BackendSetHealth b h => ([b; h], None)
  | CliCommand.LogStream t => ([], t)
  | _ => ([], None)
  end.

Definition print_args (args : list bytes * option bytes) : bytes :=
  concat ((λ a, x20 :: quote a) <$> args.1) ++ default [] ((λ t, x20 :: t) <$> args.2).

Definition print_command (c : CliCommand.t) : bytes := CliCommand.name c ++ print_args (command_args c).

(** Free text does not start or end with blanks, and is not empty. *)
Definition command_ok (c : CliCommand.t) : Prop :=
  ∀ t, (command_args c).2 = Some t → t ≠ [] ∧ trimmed t.

(* ------------------------------------------------------------------ *)
(** ** Reading them back *)

Lemma parse_quoted_escape s r : Tokenizer.parse_quoted (escape s ++ x22 :: r) = (s, r).
Proof.
  induction s as [|c s IH]; [done|]. cbn [escape]. case_decide as Hc.
  - cbn [app Tokenizer.parse_quoted]. rewrite decide_True by done. by rewrite IH.
  - cbn [app Tokenizer.parse_quoted]. rewrite !decide_False by tauto. by rewrite IH.
Qed.

Lemma next_quoted a r : Tokenizer.next (x20 :: quote a ++ r) = (Some a, r).
Proof.
  unfold Tokenizer.next, quote. rewrite trim_start_space by (by apply graphic_head_not_ws).
  cbn [app]. rewrite decide_True by done. rewrite <-app_assoc. cbn [app]. by rewrite parse_quoted_escape.
Qed.

Lemma require_quoted a r e : require (x20 :: quote a ++ r) e = Ok (a, r).
Proof. unfold require. by rewrite next_quoted. Qed.

Lemma parse_bare_word w r :
  Forall ascii_graphic w → r = [] ∨ is_Some (strip_any ws_seqs r) → Tokenizer.parse_bare (w ++ r) = (w, r).
Proof.
  intros Hw Hr. induction Hw as [|c w Hc Hw IH]; cbn [app].
  - destruct Hr as [->|[x Hx]]; [done|]. destruct r as [|c r]; [done|]. cbn [Tokenizer.parse_bare]. by rewrite Hx.
  - cbn [Tokenizer.parse_bare]. rewrite graphic_head_not_ws by done. by rewrite IH.
Qed.

Lemma name_word c : word (CliCommand.name c) ∧ head (CliCommand.name c) ≠ Some x22.
Proof.
  assert (∀ s, bool_decide (Forall ascii_graphic s) = true → s ≠ [] → word s) as H.
  { intros s Hs Hne. split; [done|]. by apply bool_decide_eq_true in Hs. }
  destruct c; (split; [apply H; [vm_compute; reflexivity|done]|done]).
Qed.

Lemma next_name c r :
  r = [] ∨ is_Some (strip_any ws_seqs r) → Tokenizer.next (CliCommand.name c ++ r) = (Some (CliCommand.name c), r).
Proof.
  intros Hr. destruct (name_word c) as [[Hne Hg] Hq]. unfold Tokenizer.next.
  destruct (CliCommand.name c) as [|x w]; [done|]. cbn [app]. apply Forall_cons in Hg as [Hx Hg].
  unfold trim_start. rewrite strip_while_none by (by apply graphic_head_not_ws).
  rewrite decide_False by (intros ->; done). change (x :: w ++ r) with ((x :: w) ++ r).
  rewrite parse_bare_word; [done|by constructor|done].
Qed.

Lemma rest_text t : t ≠ [] → trimmed t → Tokenizer.rest (x20 :: t) = Some t.
Proof.
  intros Hne [Hs He]. unfold Tokenizer.rest, trim. rewrite trim_start_space by done.
  assert (trim_end t = t) as ->; [|by destruct t].
  unfold trim_end. rewrite strip_while_none by done. apply reverse_involutive.
Qed.

Lemma last_quote a : last (x20 :: quote a) = Some x22.
Proof. unfold quote. change (x20 :: x22 :: escape a ++ [x22]) with ((x20 :: x22 :: escape a) ++ [x22]). apply last_snoc. Qed.

Lemma last_app {A} (l k : list A) : k ≠ [] → last (l ++ k) = last k.
Proof. intros Hk. destruct k as [|x k] using rev_ind; [done|]. by rewrite app_assoc, !last_snoc. Qed.

(** The last byte of a line without free text is a letter or a quote. *)
Lemma last_quoted_args n args :
  word n → ∃ b, last (n ++ concat ((λ a, x20 :: quote a) <$> args)) = Some b ∧ ascii_graphic b.
Proof.
  intros [Hne Hg]. destruct args as [|a args] using rev_ind.
  - cbn. rewrite app_nil_r. destruct n as [|x n] using rev_ind; [done|]. exists x. rewrite last_snoc.
    apply Forall_app in Hg as [_ Hx]. split; [done|]. by inversion Hx.
  - exists x22. rewrite fmap_app, concat_app, app_assoc. cbn [fmap list_fmap concat]. rewrite app_nil_r.
    rewrite last_app by done. by rewrite last_quote.
Qed.

Lemma line_trimmed c : command_ok c → trimmed (print_command c).
Proof.
  intros Hok. destruct (name_word c) as [Hw _]. unfold print_command, print_args. unfold command_ok in Hok.
  destruct (command_args c) as [qs [t|]] eqn:Ea; cbn [fst snd fmap option_fmap option_map default from_option id] in *.
  - destruct (Hok t eq_refl) as [Hne [_ Ht]]. split.
    + destruct Hw as [Hn Hg]. destruct (CliCommand.name c) as [|x w]; [done|]. apply Forall_cons in Hg as [Hx _].
      by apply graphic_head_not_ws.
    + rewrite app_assoc, reverse_app, reverse_cons, <-app_assoc. cbn [app]. apply (strip_any_app x20); [|by apply (bool_decide_unpack _)|done].
      destruct t as [|x t]; [done|]. rewrite reverse_cons. by destruct (reverse t).
  - rewrite app_nil_r. destruct (last_quoted_args (CliCommand.name c) qs Hw) as (b & Hl & Hb).
    destruct Hw as [Hn Hg]. destruct (CliCommand.name c) as [|x w]; [done|]. apply Forall_cons in Hg as [Hx _].
    by eapply trimmed_graphic.
Qed.

Lemma print_args_start args : print_args args = [] ∨ is_Some (strip_any ws_seqs (print_args args)).
Proof.
  destruct args as [[|a qs] [t|]]; unfold print_args; cbn; [right; by eexists|by left|right; by eexists..].
Qed.

(** Look the command's name up. *)
Ltac find_command :=
  match goal with
  | |- context [match_str command_table ?n] =>
      let r := eval hnf in (match_str command_table n) in change (match_str command_table n) with r
  end; cbv beta iota.

(** Every command can be written down and is read back: names and parameters in
    quotes, whatever bytes they hold, and free text to the end of the line. *)
Theorem command_roundtrip c :
  command_ok c → parse_command (print_command c) = Ok c.
Proof.
  intros Hok. pose proof (trim_trimmed _ (line_trimmed c Hok)) as Ht. unfold parse_command, Tokenizer.new.
  rewrite !Ht. assert (print_command c ≠ []) as Hne by (by destruct c).
  destruct (print_command c) as [|x l] eqn:E; [done|]. rewrite <-E. unfold print_command.
  rewrite next_name by apply print_args_start. clear Ht Hne E x l. unfold command_ok in Hok.
  destruct c; cbn [CliCommand.name command_args] in *; find_command; unfold print_args;
    cbn [fst snd fmap list_fmap concat option_fmap option_map default from_option id app] in *; rewrite ?app_nil_r; try done.
  all: try (destruct (Hok _ eq_refl) as [Htne Htt]).
  - rewrite require_quoted. cbn [result_bind]. by rewrite rest_text.
  - rewrite <-(app_nil_r (quote _)), require_quoted. done.
  - rewrite <-(app_nil_r (quote _)), require_quoted. done.
  - by rewrite rest_text.
  - destruct param as [p|]; [|done]. change (option_list (Some p)) with [p]. change ((λ a, x20 :: quote a) <$> [p]) with [x20 :: quote p]. cbn [concat].
    rewrite app_nil_r. by rewrite <-(app_nil_r (quote p)), next_quoted.
  - rewrite require_quoted. cbn [result_bind]. by rewrite rest_text.
  - rewrite require_quoted. cbn [result_bind]. by rewrite <-(app_nil_r (quote _)), require_quoted.
  - destruct tags as [t|]; [|done]. destruct (Hok _ eq_refl) as [Htne Htt]. cbn [fmap option_fmap option_map default from_option id]. by rewrite rest_text.
Qed.

Lemma command_roundtrip_witness :
  let c := CliCommand.VclLoad (str "my " ++ [x22] ++ str "site" ++ [x5c]) (str "vcl 4.1; sub vcl_recv { }") in
  parse_command (print_command c) = Ok c.
Proof.
  intros c. apply (command_roundtrip c). intros t. cbn. intros [= <-]. split; [done|split; vm_compute; reflexivity].
Defined.
