(* ===== verification/AdminParams.v ===== *)
(** * Runtime parameters

    Models the parameter commands of [rv-admin/src/handler.rs]: reading, setting and
    listing the named parameters of the configuration. *)

From stdpp Require Import sorting.
From S2P Require Import Prelude RustStr Config.
Local Open Scope Z_scope.
Local Open Scope rust_scope.

(** *** Updates of the configuration's sections *)

Definition with_ttl (f : TtlConfig → TtlConfig) (c : CacheConfig) : CacheConfig :=
  mkCacheConfig (cc_listen c) (cc_storage c) (cc_hash c) (f (cc_ttl c)) (cc_threads c) (cc_timeouts c)
    (cc_backends c) (cc_probes c) (cc_acls c) (cc_vcl c) (cc_admin c) (cc_logging c) (cc_features c).
Definition with_threads (f : ThreadPoolConfig → ThreadPoolConfig) (c : CacheConfig) : CacheConfig :=
  mkCacheConfig (cc_listen c) (cc_storage c) (cc_hash c) (cc_ttl c) (f (cc_threads c)) (cc_timeouts c)
    (cc_backends c) (cc_probes c) (cc_acls c) (cc_vcl c) (cc_admin c) (cc_logging c) (cc_features c).
Definition with_timeouts (f : TimeoutConfig → TimeoutConfig) (c : CacheConfig) : CacheConfig :=
  mkCacheConfig (cc_listen c) (cc_storage c) (cc_hash c) (cc_ttl c) (cc_threads c) (f (cc_timeouts c))
    (cc_backends c) (cc_probes c) (cc_acls c) (cc_vcl c) (cc_admin c) (cc_logging c) (cc_features c).
Definition with_admin (f : AdminConfig → AdminConfig) (c : CacheConfig) : CacheConfig :=
  mkCacheConfig (cc_listen c) (cc_storage c) (cc_hash c) (cc_ttl c) (cc_threads c) (cc_timeouts c)
    (cc_backends c) (cc_probes c) (cc_acls c) (cc_vcl c) (f (cc_admin c)) (cc_logging c) (cc_features c).
Definition with_logging (f : LogConfig → LogConfig) (c : CacheConfig) : CacheConfig :=
  mkCacheConfig (cc_listen c) (cc_storage c) (cc_hash c) (cc_ttl c) (cc_threads c) (cc_timeouts c)
    (cc_backends c) (cc_probes c) (cc_acls c) (cc_vcl c) (cc_admin c) (f (cc_logging c)) (cc_features c).
Definition with_features (f : FeatureFlags → FeatureFlags) (c : CacheConfig) : CacheConfig :=
  mkCacheConfig (cc_listen c) (cc_storage c) (cc_hash c) (cc_ttl c) (cc_threads c) (cc_timeouts c)
    (cc_backends c) (cc_probes c) (cc_acls c) (cc_vcl c) (cc_admin c) (cc_logging c) (f (cc_features c)).
Definition with_hash (f : HashConfig → HashConfig) (c : CacheConfig) : CacheConfig :=
  mkCacheConfig (cc_listen c) (cc_storage c) (f (cc_hash c)) (cc_ttl c) (cc_threads c) (cc_timeouts c)
    (cc_backends c) (cc_probes c) (cc_acls c) (cc_vcl c) (cc_admin c) (cc_logging c) (cc_features c).

(** [bool::to_string] and [str::parse::<bool>]. *)
Definition show_bool (b : bool) : bytes := if b then str "true" else str "false".
Definition parse_bool (s : bytes) : option bool := match_str [(str "true", true); (str "false", false)] s.

Definition getters : list (bytes * (CacheConfig → bytes)) :=
  [(str "default_ttl", λ c, tc_default_ttl (cc_ttl c));
   (str "default_grace", λ c, tc_default_grace (cc_ttl c));
   (str "default_keep", λ c, tc_default_keep (cc_ttl c));
   (str "thread_pool_min", λ c, show_u64 (tp_thread_pool_min (cc_threads c)));
   (str "thread_pool_max", λ c, show_u64 (tp_thread_pool_max (cc_threads c)));
   (str "thread_pools", λ c, show_u64 (tp_pool_count (cc_threads c)));
   (str "connect_timeout", λ c, to_connect_timeout (cc_timeouts c));
   (str "first_byte_timeout", λ c, to_first_byte_timeout (cc_timeouts c));
   (str "between_bytes_timeout", λ c, to_between_bytes_timeout (cc_timeouts c));
   (str "send_timeout", λ c, to_send_timeout (cc_timeouts c));
   (str "pipe_timeout", λ c, to_pipe_timeout (cc_timeouts c));
   (str "backend_idle_timeout", λ c, to_backend_idle_timeout (cc_timeouts c));
   (str "http2", λ c, show_bool (ff_http2 (cc_features c)));
   (str "esi_disable_xml_check", λ c, show_bool (ff_esi_disable_xml_check (cc_features c)));
   (str "esi_ignore_https", λ c, show_bool (ff_esi_ignore_https (cc_features c)));
   (str "esi_ignore_other_elements", λ c, show_bool (ff_esi_ignore_other_elements (cc_features c)));
   (str "short_panic", λ c, show_bool (ff_short_panic (cc_features c)));
   (str "no_coredump", λ c, show_bool (ff_no_coredump (cc_features c)));
   (str "admin_listen", λ c, ac_listen (cc_admin c));
   (str "log_size", λ c, lg_size (cc_logging c));
   (str "log_format", λ c, lg_format (cc_logging c));
   (str "hash_type", λ c, hc_type (cc_hash c))].

Definition get_param_value (config : CacheConfig) (name : bytes) : option bytes :=
  (λ get, get config) <$> match_str getters name.

(** A setter that takes the text, a number or a boolean. *)
Definition set_text (set : bytes → CacheConfig → CacheConfig) (name value : bytes) (c : CacheConfig)
    : result CacheConfig bytes := Ok (set value c).
Definition set_u32 (set : Z → CacheConfig → CacheConfig) (name value : bytes) (c : CacheConfig)
    : result CacheConfig bytes :=
  v ←? ok_or (parse_u32 value) (str "invalid value for " ++ name ++ str ": " ++ value);
  Ok (set v c).
Definition set_bool (set : bool → CacheConfig → CacheConfig) (name value : bytes) (c : CacheConfig)
    : result CacheConfig bytes :=
  v ←? ok_or (parse_bool value) (str "invalid boolean for " ++ name ++ str ": " ++ value);
  Ok (set v c).

Definition setters : list (bytes * (bytes → bytes → CacheConfig → result CacheConfig bytes)) :=
  [(str "default_ttl", set_text (λ v, with_ttl (λ t, mkTtlConfig v (tc_default_grace t) (tc_default_keep t))));
   (str "default_grace", set_text (λ v, with_ttl (λ t, mkTtlConfig (tc_default_ttl t) v (tc_default_keep t))));
   (str "default_keep", set_text (λ v, with_ttl (λ t, mkTtlConfig (tc_default_ttl t) (tc_default_grace t) v)));
   (str "thread_pool_min", set_u32 (λ v, with_threads (λ t, mkThreadPoolConfig (tp_pool_count t) v (tp_thread_pool_max t))));
   (str "thread_pool_max", set_u32 (λ v, with_threads (λ t, mkThreadPoolConfig (tp_pool_count t) (tp_thread_pool_min t) v)));
   (str "thread_pools", set_u32 (λ v, with_threads (λ t, mkThreadPoolConfig v (tp_thread_pool_min t) (tp_thread_pool_max t))));
   (str "connect_timeout", set_text (λ v, with_timeouts (λ t, mkTimeoutConfig v (to_first_byte_timeout t)
      (to_between_bytes_timeout t) (to_send_timeout t) (to_pipe_timeout t) (to_backend_idle_timeout t))));
   (str "first_byte_timeout", set_text (λ v, with_timeouts (λ t, mkTimeoutConfig (to_connect_timeout t) v
      (to_between_bytes_timeout t) (to_send_timeout t) (to_pipe_timeout t) (to_backend_idle_timeout t))));
   (str "between_bytes_timeout", set_text (λ v, with_timeouts (λ t, mkTimeoutConfig (to_connect_timeout t)
      (to_first_byte_timeout t) v (to_send_timeout t) (to_pipe_timeout t) (to_backend_idle_timeout t))));
   (str "send_timeout", set_text (λ v, with_timeouts (λ t, mkTimeoutConfig (to_connect_timeout t)
      (to_first_byte_timeout t) (to_between_bytes_timeout t) v (to_pipe_timeout t) (to_backend_idle_timeout t))));
   (str "pipe_timeout", set_text (λ v, with_timeouts (λ t, mkTimeoutConfig (to_connect_timeout t)
      (to_first_byte_timeout t) (to_between_bytes_timeout t) (to_send_timeout t) v (to_backend_idle_timeout t))));
   (str "backend_idle_timeout", set_text (λ v, with_timeouts (λ t, mkTimeoutConfig (to_connect_timeout t)
      (to_first_byte_timeout t) (to_between_bytes_timeout t) (to_send_timeout t) (to_pipe_timeout t) v)));
   (str "http2", set_bool (λ v, with_features (λ f, mkFeatureFlags (ff_esi_disable_xml_check f) (ff_esi_ignore_https f)
      (ff_esi_ignore_other_elements f) (ff_short_panic f) (ff_wait_silo f) (ff_no_coredump f) v)));
   (str "esi_disable_xml_check", set_bool (λ v, with_features (λ f, mkFeatureFlags v (ff_esi_ignore_https f)
      (ff_esi_ignore_other_elements f) (ff_short_panic f) (ff_wait_silo f) (ff_no_coredump f) (ff_http2 f))));
   (str "esi_ignore_https", set_bool (λ v, with_features (λ f, mkFeatureFlags (ff_esi_disable_xml_check f) v
      (ff_esi_ignore_other_elements f) (ff_short_panic f) (ff_wait_silo f) (ff_no_coredump f) (ff_http2 f))));
   (str "esi_ignore_other_elements", set_bool (λ v, with_features (λ f, mkFeatureFlags (ff_esi_disable_xml_check f)
      (ff_esi_ignore_https f) v (ff_short_panic f) (ff_wait_silo f) (ff_no_coredump f) (ff_http2 f))));
   (str "short_panic", set_bool (λ v, with_features (λ f, mkFeatureFlags (ff_esi_disable_xml_check f)
      (ff_esi_ignore_https f) (ff_esi_ignore_other_elements f) v (ff_wait_silo f) (ff_no_coredump f) (ff_http2 f))));
   (str "no_coredump", set_bool (λ v, with_features (λ f, mkFeatureFlags (ff_esi_disable_xml_check f)
      (ff_esi_ignore_https f) (ff_esi_ignore_other_elements f) (ff_short_panic f) (ff_wait_silo f) v (ff_http2 f))));
   (str "admin_listen", set_text (λ v, with_admin (λ a, mkAdminConfig v (ac_secret_file a))));
   (str "log_size", set_text (λ v, with_logging (λ l, mkLogConfig v (lg_format l))));
   (str "log_format", set_text (λ v, with_logging (λ l, mkLogConfig (lg_size l) v)));
   (str "hash_type", set_text (λ v, with_hash (λ _, mkHashConfig v)))].

Definition set_param_value (config : CacheConfig) (name value : bytes) : result CacheConfig bytes :=
  match match_str setters name with
  | Some set => set name value config
  | None => Err (str "Unknown parameter: " ++ name)
  end.

(** [{:<w}]: padding to [w] characters. *)
Definition char_count (s : bytes) : nat := length (filter (λ b, is_cont b = false) s).
Definition pad_right (w : nat) (s : bytes) : bytes := s ++ replicate (w - char_count s) x20.

(** The parameters in the order of the two tables, sorted as lines. *)
Definition listed_params : list bytes :=
  [str "default_ttl"; str "default_grace"; str "default_keep"; str "connect_timeout"; str "first_byte_timeout";
   str "between_bytes_timeout"; str "send_timeout"; str "pipe_timeout"; str "backend_idle_timeout";
   str "admin_listen"; str "log_size"; str "log_format"; str "hash_type"; str "thread_pools";
   str "thread_pool_min"; str "thread_pool_max"; str "http2"; str "esi_disable_xml_check";
   str "esi_ignore_https"; str "esi_ignore_other_elements"; str "short_panic"; str "no_coredump"].

Definition param_line (config : CacheConfig) (name : bytes) : bytes :=
  str "  " ++ pad_right 30 name ++ str " " ++ default [] (get_param_value config name).

Definition list_all_params (config : CacheConfig) : bytes :=
  join [x0a] (str "Runtime parameters:"
    :: merge_sort str_before (param_line config <$> listed_params)).

(* ------------------------------------------------------------------ *)
(** ** Properties *)

(** The parameters by what they hold: a text, a number, or a truth value. *)
Definition text_params : list bytes :=
  [str "default_ttl"; str "default_grace"; str "default_keep"; str "connect_timeout"; str "first_byte_timeout";
   str "between_bytes_timeout"; str "send_timeout"; str "pipe_timeout"; str "backend_idle_timeout";
   str "admin_listen"; str "log_size"; str "log_format"; str "hash_type"].
Definition number_params : list bytes := [str "thread_pool_min"; str "thread_pool_max"; str "thread_pools"].
Definition bool_params : list bytes :=
  [str "http2"; str "esi_disable_xml_check"; str "esi_ignore_https"; str "esi_ignore_other_elements"; str "short_panic";
   str "no_coredump"].
Definition known_params : list bytes := text_params ++ number_params ++ bool_params.

(** The parameter takes the value, and shows it as [shown]: a text as it is, a number of
    32 bits in its decimal form, a truth value as it is. *)
Inductive accepts (name value : bytes) : bytes → Prop :=
| accepts_text : name ∈ text_params → accepts name value value
| accepts_number n : name ∈ number_params → numeral value n → n ≤ u32_max → accepts name value (show_u64 n)
| accepts_bool : name ∈ bool_params → value ∈ [str "true"; str "false"] → accepts name value value.

Lemma parse_bool_show s b : parse_bool s = Some b → show_bool b = s.
Proof. unfold parse_bool. cbn [match_str]. repeat case_decide; naive_solver. Qed.

Definition param_names : list bytes := fst <$> getters.

Lemma param_names_setters : fst <$> setters = param_names.
Proof. vm_compute. reflexivity. Qed.

Lemma match_str_In {A} (cases : list (bytes * A)) s : is_Some (match_str cases s) ↔ s ∈ fst <$> cases.
Proof.
  induction cases as [|[k a] cases IH]; simpl.
  - split; [by intros []|by intros ?%elem_of_nil].
  - rewrite elem_of_cons. case_decide; [subst; split; [by left|by eexists]|]. rewrite IH. naive_solver.
Qed.

Lemma kinds_disjoint name :
  (name ∈ text_params → name ∉ number_params ∧ name ∉ bool_params) ∧ (name ∈ number_params → name ∉ bool_params).
Proof.
  assert (H : Forall (λ n, n ∉ number_params ∧ n ∉ bool_params) text_params ∧ Forall (λ n, n ∉ bool_params) number_params)
    by (apply (bool_decide_unpack _); vm_compute; exact I).
  destruct H as [H1 H2]. rewrite Forall_forall in H1, H2. auto.
Qed.

(** A getter and a setter of one parameter. *)
Definition others_kept (name : bytes) (c c' : CacheConfig) : Prop := ∀ e, e ∈ getters → e.1 ≠ name → e.2 c' = e.2 c.
Definition param_law (name : bytes) (set : bytes → bytes → CacheConfig → result CacheConfig bytes) : Prop :=
  ∀ value c,
    match set name value c with
    | Ok c' => (∃ shown, accepts name value shown ∧ get_param_value c' name = Some shown) ∧ others_kept name c c'
    | Err _ => ∀ shown, ¬ accepts name value shown
    end.

(** The three kinds of setters. *)
Lemma text_law name set :
  name ∈ text_params → (∀ v c, get_param_value (set v c) name = Some v ∧ others_kept name c (set v c)) → param_law name (set_text set).
Proof. intros Hn Hs value c. destruct (Hs value c) as [Hg Ho]. cbn. split; [|done]. exists value. split; [by constructor|done]. Qed.

Lemma number_law name set :
  name ∈ number_params → (∀ n c, get_param_value (set n c) name = Some (show_u64 n) ∧ others_kept name c (set n c)) →
  param_law name (set_u32 set).
Proof.
  intros Hn Hs value c. unfold set_u32. pose proof (parse_uint_iff u32_max value) as Hiff. fold (parse_u32 value) in Hiff.
  destruct (parse_u32 value) as [n|]; cbn.
  - destruct (Hs n c) as [Hg Ho]. split; [|done]. exists (show_u64 n). split; [|done].
    destruct (proj1 (Hiff n ltac:(done)) eq_refl) as [H1 H2]. by eapply accepts_number.
  - intros shown [Ht|n _ H1 H2|Hb _].
    + by destruct (proj1 (kinds_disjoint name) Ht).
    + by assert (None = Some n) by by apply Hiff.
    + by destruct (proj2 (kinds_disjoint name) Hn).
Qed.

Lemma bool_law name set :
  name ∈ bool_params → (∀ b c, get_param_value (set b c) name = Some (show_bool b) ∧ others_kept name c (set b c)) →
  param_law name (set_bool set).
Proof.
  intros Hn Hs value c. unfold set_bool. destruct (parse_bool value) as [b|] eqn:Eb; cbn.
  - destruct (Hs b c) as [Hg Ho]. split; [|done]. apply parse_bool_show in Eb as <-. exists (show_bool b). split; [|done].
    apply accepts_bool; [done|]. destruct b; set_solver.
  - intros shown [Ht|n Hnum _ _|_ Hv].
    + by destruct (proj1 (kinds_disjoint name) Ht).
    + by destruct (proj2 (kinds_disjoint name) Hnum).
    + rewrite !elem_of_cons, elem_of_nil in Hv. by destruct_or!; subst.
Qed.

Ltac param_law_tac :=
  first [apply text_law | apply number_law | apply bool_law];
  [apply (bool_decide_unpack _); vm_compute; exact I
  |intros v c; split;
   [reflexivity
   |intros [k g] Hin Hne; unfold getters in Hin;
    repeat (apply elem_of_cons in Hin as [Hin|Hin]; [injection Hin as -> ->; try reflexivity; by destruct Hne|]);
    by apply elem_of_nil in Hin]].

Lemma setters_lawful : Forall (λ e, param_law e.1 e.2) setters.
Proof. unfold setters. repeat (constructor; [cbn [fst snd]; param_law_tac|]). constructor. Qed.

Lemma match_str_elem {A} (cases : list (bytes * A)) s a : match_str cases s = Some a → (s, a) ∈ cases.
Proof.
  induction cases as [|[k x] cases IH]; simpl; [done|]. case_decide; [intros [= ->]; subst; by left|]. intros Hm. right. by apply IH.
Qed.

Lemma get_param_get config name get :
  match_str getters name = Some get → get_param_value config name = Some (get config).
Proof. unfold get_param_value. by intros ->. Qed.

Lemma known_names name : name ∈ known_params ↔ name ∈ param_names.
Proof. assert (E : known_params ≡ₚ param_names) by (apply (bool_decide_unpack _); vm_compute; exact I). by rewrite E. Qed.

(** C40. Parameters behave like the fields of a record: the parameters known are
    twenty-two by name; a known one can be shown, is set by exactly the values of its
    kind (any text, a decimal number of 32 bits, or true or false), and shows the value
    from then on, a number in its decimal form, while no other parameter changes; any
    other name can neither be shown nor set. *)
Theorem param_set_show config name value :
  (∀ config', set_param_value config name value = Ok config' →
     (∃ shown, accepts name value shown ∧ get_param_value config' name = Some shown)
     ∧ ∀ other, other ≠ name → get_param_value config' other = get_param_value config other)
  ∧ (∀ shown, accepts name value shown → ∃ config', set_param_value config name value = Ok config')
  ∧ (name ∈ known_params → is_Some (get_param_value config name))
  ∧ (name ∉ known_params → get_param_value config name = None
                            ∧ set_param_value config name value = Err (str "Unknown parameter: " ++ name)).
Proof.
  pose proof setters_lawful as Hlaw. rewrite Forall_forall in Hlaw. rewrite known_names. unfold set_param_value.
  assert (Hknown : is_Some (match_str setters name) ↔ name ∈ param_names) by (rewrite match_str_In; by rewrite param_names_setters).
  split_and!.
  - destruct (match_str setters name) as [set|] eqn:E; [|done]. intros config' Hset. apply match_str_elem in E.
    pose proof (Hlaw _ E value config) as Hl. cbn [fst snd] in Hl. rewrite Hset in Hl. destruct Hl as [Hs Ho]. split; [done|].
    intros other Hne. unfold get_param_value. destruct (match_str getters other) as [get|] eqn:Eg; [|done]. cbn. f_equal.
    apply match_str_elem in Eg. by apply (Ho _ Eg).
  - intros shown Ha. assert (Hn : name ∈ known_params) by (unfold known_params; rewrite !elem_of_app; destruct Ha; tauto).
    apply known_names, Hknown in Hn as [set E]. rewrite E. apply match_str_elem in E. pose proof (Hlaw _ E value config) as Hl.
    cbn [fst snd] in Hl. destruct (set name value config) as [c'|e]; [by eexists|by destruct (Hl shown)].
  - intros Hn. unfold get_param_value. apply match_str_In in Hn as [get ->]. by eexists.
  - intros Hn. split.
    + unfold get_param_value. destruct (match_str getters name) eqn:E; [|done]. destruct Hn. apply match_str_In. by eexists.
    + destruct (match_str setters name) eqn:E; [|done]. destruct Hn. apply Hknown. by eexists.
Qed.

(** Every parameter is in the listing. *)
Lemma listed_all : listed_params ≡ₚ known_params.
Proof. apply (bool_decide_unpack _). vm_compute. exact I. Qed.
