(* ===== verification/AdminHandler.v ===== *)
(** * Administration: command handlers and sessions

    Models [rv-admin/src/handler.rs] (the execution of every command) and the
    connection handling of [rv-admin/src/server.rs] as a function of the lines a
    client sends.  The cache is used through an interface that the engine
    implements; the clocks, SHA-256, the challenge and the printing of floats are
    arguments. *)

From stdpp Require Import sorting.
From S2P Require Import Prelude RustStr F64 Enums Types Stevedore Ban RingLog HashSlinger Engine Config.
From S2P Require Import VclSyntax VclInterp VclManager AdminProtocol AdminCommands AdminParams.
Local Open Scope Z_scope.

(** What the administration needs of the cache. *)
Class AdminCache `{RegexLib} (C : Type) := {
  cache_stats : C → CacheStats;
  cache_bans : C → list Ban;
  cache_ban : bytes → VtimReal → C → result unit CacheError * C;
}.

(** The engine implements it. *)
#[export] Instance engine_admin_cache {SH SS Cfg} {regex : RegexLib} :
  AdminCache (CacheEngine (SH := SH) (SS := SS) (CacheConfig := Cfg)) := {|
  cache_stats e := CacheStats_snapshot (eng_stats e);
  cache_bans e := BanList_list (eng_ban_list e);
  cache_ban := CacheEngine_ban;
|}.

(** The wall clock, the monotonic clock in nanoseconds and the Unix time in seconds. *)
Record clock : Set := mkClock { ck_real : VtimReal; ck_mono : Z; ck_unix : Z }.

(** *** Texts *)

Definition StorageError_display (e : StorageError) : bytes :=
  match e with
  | StorageError_AllocFailed => str "storage allocation failed"
  | StorageError_Full => str "storage full"
  | StorageError_NotFound => str "object not found"
  | StorageError_Io m => str "I/O error: " ++ m
  end.

Definition CacheError_display (e : CacheError) : bytes :=
  match e with
  | CacheError_LookupFailed m => str "cache lookup failed: " ++ m
  | CacheError_InsertFailed m => str "object insertion failed: " ++ m
  | CacheError_Storage e => str "storage error: " ++ StorageError_display e
  | CacheError_FetchFailed m => str "backend fetch failed: " ++ m
  | CacheError_BanError m => str "ban expression error: " ++ m
  | CacheError_Expired => str "object expired"
  | CacheError_NotFound => str "object not found"
  | CacheError_RequestError m => str "request processing error: " ++ m
  end.

Definition pad_left (w : nat) (fill : byte) (s : bytes) : bytes := replicate (w - char_count s) fill ++ s.

(** [CacheStatsSnapshot::hit_rate]. *)
Definition hit_rate (s : CacheStats) : f64 :=
  let total := u64_wrap (u64_wrap (cache_hit s + cache_miss s) + cache_pass s) in
  if total =? 0 then f64_zero
  else f64_mul (f64_div (f64_of_Z (cache_hit s)) (f64_of_Z total)) (f64_of_Z 100).

Definition help_text : bytes :=
  join [x0a]
    [str "Available commands:";
     str "help                              Show this help message";
     str "ping                              Keep-alive check";
     str "status                            Show child process status and uptime";
     str "start                             Start the child process";
     str "stop                              Stop the child process";
     str "vcl.load <name> <source>          Load a VCL program";
     str "vcl.use <name>                    Switch to a loaded VCL program";
     str "vcl.list                          List loaded VCL programs";
     str "vcl.discard <name>                Discard a loaded VCL program";
     str "ban <expression>                  Add a ban expression";
     str "ban.list                          List active bans";
     str "param.show [<param>]              Show runtime parameters";
     str "param.set <param> <value>         Set a runtime parameter";
     str "backend.list                      List backends";
     str "backend.set_health <be> <health>  Set backend health state";
     str "log.stream [-t <tags>]            Stream recent log entries"].

Section handler.
Context {Ip : Type} {corefmt : CoreFmt} {regex : RegexLib} {C : Type} {cache : AdminCache C}.
Context (fmt_fixed : nat → f64 → bytes) (Regex_as_str : Regex → bytes).

Abbreviation vcl := (interpreter (Ip := Ip)).

Record AdminContext : Type := mkAdminContext {
  ad_cache : C;
  ad_log : RingBuffer;
  ad_config : CacheConfig;
  ad_start_time : Z;
  ad_vcl_manager : VclManager (Ip := Ip);
  ad_running : bool;
  ad_active_vcl : option (option vcl);
}.

Definition AdminContext_new (c : C) (log : RingBuffer) (config : CacheConfig) (now : Z) : AdminContext :=
  mkAdminContext c log config now VclManager_new true None.
Definition AdminContext_with_vcl_manager (c : C) (log : RingBuffer) (config : CacheConfig) (now : Z)
    (m : VclManager) (running : bool) : AdminContext :=
  mkAdminContext c log config now m running None.
Definition AdminContext_with_active_vcl (c : C) (log : RingBuffer) (config : CacheConfig) (now : Z)
    (m : VclManager) (running : bool) (active_vcl : option vcl) : AdminContext :=
  mkAdminContext c log config now m running (Some active_vcl).

Definition set_manager (m : VclManager) (x : AdminContext) : AdminContext :=
  mkAdminContext (ad_cache x) (ad_log x) (ad_config x) (ad_start_time x) m (ad_running x) (ad_active_vcl x).
Definition set_running (r : bool) (x : AdminContext) : AdminContext :=
  mkAdminContext (ad_cache x) (ad_log x) (ad_config x) (ad_start_time x) (ad_vcl_manager x) r (ad_active_vcl x).
Definition set_cache (c : C) (x : AdminContext) : AdminContext :=
  mkAdminContext c (ad_log x) (ad_config x) (ad_start_time x) (ad_vcl_manager x) (ad_running x) (ad_active_vcl x).
Definition set_log (l : RingBuffer) (x : AdminContext) : AdminContext :=
  mkAdminContext (ad_cache x) l (ad_config x) (ad_start_time x) (ad_vcl_manager x) (ad_running x) (ad_active_vcl x).
Definition set_config (g : CacheConfig) (x : AdminContext) : AdminContext :=
  mkAdminContext (ad_cache x) (ad_log x) g (ad_start_time x) (ad_vcl_manager x) (ad_running x) (ad_active_vcl x).
Definition set_active_vcl (v : option (option vcl)) (x : AdminContext) : AdminContext :=
  mkAdminContext (ad_cache x) (ad_log x) (ad_config x) (ad_start_time x) (ad_vcl_manager x) (ad_running x) v.

(** *** The handlers that only read *)

Definition as_secs (ns : Z) : Z := ns / 10 ^ 9.

Definition handle_ping (now : clock) : CliResponse := CliResponse_ok (str "PONG " ++ show_u64 (ck_unix now)).

Definition handle_status (now : clock) (x : AdminContext) : CliResponse :=
  let secs := as_secs (saturating_sub (ck_mono now) (ad_start_time x)) in
  let stats := cache_stats (ad_cache x) in
  CliResponse_ok
    (str "Child (worker) process is " ++ (if ad_running x then str "running" else str "stopped") ++ str "." ++ [x0a]
     ++ str "Uptime: " ++ show_u64 (secs / 3600) ++ str "h " ++ pad_left 2 x30 (show_u64 (secs mod 3600 / 60)) ++ str "m "
     ++ pad_left 2 x30 (show_u64 (secs mod 60)) ++ str "s" ++ [x0a]
     ++ str "Objects: " ++ show_u64 (n_objects stats) ++ [x0a]
     ++ str "Cache hits: " ++ show_u64 (cache_hit stats) ++ [x0a]
     ++ str "Cache misses: " ++ show_u64 (cache_miss stats) ++ [x0a]
     ++ str "Hit rate: " ++ fmt_fixed 1 (hit_rate stats) ++ str "%").

Definition handle_help : CliResponse := CliResponse_ok help_text.

Definition ban_test_text (t : BanTest) : bytes :=
  match t with
  | UrlMatch re => str "req.url ~ " ++ Regex_as_str re
  | ObjHeaderMatch header pattern => str "obj.http." ++ header ++ str " ~ " ++ Regex_as_str pattern
  | ObjHeaderEq header value => str "obj.http." ++ header ++ str " == " ++ value
  end.
Definition ban_line (i : nat) (b : Ban) : bytes :=
  str "  " ++ pad_left 3 x20 (show_u64 (Z.of_nat i + 1)) ++ str "  ["
  ++ (if ban_completed b then str "completed" else str "active") ++ str "]  "
  ++ join (str " && ") (ban_test_text <$> ban_tests b).
Definition handle_ban_list (x : AdminContext) : CliResponse :=
  match cache_bans (ad_cache x) with
  | [] => CliResponse_ok (str "No active bans.")
  | bans =>
      CliResponse_ok (join [x0a]
        ((show_u64 (Z.of_nat (length bans)) ++ str " active ban(s):") :: imap ban_line bans))
  end.

Definition handle_param_show (param : option bytes) (x : AdminContext) : CliResponse :=
  match param with
  | Some name =>
      match get_param_value (ad_config x) name with
      | Some v => CliResponse_ok (name ++ str ": " ++ v)
      | None => CliResponse_error (str "Unknown parameter: " ++ name)
      end
  | None => CliResponse_ok (list_all_params (ad_config x))
  end.

Definition handle_backend_list : CliResponse := CliResponse_ok (str "No backends configured.").
Definition handle_backend_set_health (backend : bytes) : CliResponse :=
  CliResponse_error (str "Backend '" ++ backend ++ str "' not found.").

Definition age_text (secs : Z) : bytes :=
  if secs <? 60 then show_u64 secs ++ str "s ago"
  else if secs <? 3600 then show_u64 (secs / 60) ++ str "m ago"
  else show_u64 (secs / 3600) ++ str "h ago".
(** [Display for VclProgramState] writes its text without honouring the width. *)
Definition vcl_line (now : clock) (e : bytes * VclProgramState.t * Z) : bytes :=
  let '(name, state, loaded_at) := e in
  pad_right 20 name ++ str " " ++ VclProgramState.display state ++ str " "
  ++ age_text (as_secs (saturating_sub (ck_mono now) loaded_at)).
Definition handle_vcl_list (now : clock) (x : AdminContext) : CliResponse :=
  match VclManager_list (ad_vcl_manager x) with
  | [] => CliResponse_ok (str "No VCL programs loaded.")
  | entries =>
      CliResponse_ok (join [x0a]
        ((pad_right 20 (str "Name") ++ str " " ++ pad_right 12 (str "State") ++ str " " ++ str "Since")
         :: (vcl_line now <$> entries)))
  end.

(** [Display for LogRecord]; that of [Vxid] does not honour the width. *)
Definition LogRecord_display (r : LogRecord) : bytes :=
  pad_right 12 (LogTag_name (lr_tag r)) ++ str " " ++ show_u64 (vxid_id (lr_vxid r)) ++ str " "
  ++ fmt_fixed 6 (lr_timestamp r) ++ str " " ++ lr_data r.

Definition log_tags (t : bytes) : list bytes :=
  let stripped := match strip_prefix (str "-t ") t with
                  | Some s => s
                  | None => default t (strip_prefix (str "-t") t)
                  end in
  trim <$> split_char x2c stripped.

Definition handle_log_stream (tags_filter : option bytes) (x : AdminContext) : option CliResponse :=
  records ← LogReader_tail 100 (ad_log x);
  match records with
  | [] => Some (CliResponse_ok (str "No log entries."))
  | _ =>
      let keep r := match tags_filter with
                    | Some t => bool_decide (LogTag_name (lr_tag r) ∈ log_tags t)
                    | None => true
                    end in
      match LogRecord_display <$> filter (λ r, keep r = true) records with
      | [] => Some (CliResponse_ok (str "No matching log entries."))
      | lines => Some (CliResponse_ok (join [x0a] lines))
      end
  end.

(** *** The handlers that change the context *)

Definition handle_ban (now : clock) (expression : bytes) (x : AdminContext) : CliResponse * AdminContext :=
  match cache_ban expression (ck_real now) (ad_cache x) with
  | (Ok _, c) => (CliResponse_ok (str "Ban added: " ++ expression), set_cache c x)
  | (Err e, c) => (CliResponse_error (str "Failed to add ban: " ++ CacheError_display e), set_cache c x)
  end.

Definition handle_param_set (param value : bytes) (x : AdminContext) : CliResponse * AdminContext :=
  match set_param_value (ad_config x) param value with
  | Ok config => (CliResponse_ok (param ++ str " set to " ++ value), set_config config x)
  | Err e => (CliResponse_error e, x)
  end.

Definition handle_vcl_load (now : clock) (name source : bytes) (x : AdminContext) : option (CliResponse * AdminContext) :=
  '(r, m) ← VclManager_load name source (ck_mono now) (ad_vcl_manager x);
  Some (match r with
        | Ok _ => CliResponse_ok (str "VCL '" ++ name ++ str "' compiled and loaded.")
        | Err e => CliResponse_error (str "Failed to load VCL: " ++ e)
        end, set_manager m x).

(** The new interpreter is published to the request handler. *)
Definition handle_vcl_use (name : bytes) (x : AdminContext) : CliResponse * AdminContext :=
  match VclManager_use_program name (ad_vcl_manager x) with
  | (Ok interpreter, m) =>
      let x := set_manager m x in
      let x := match ad_active_vcl x with
               | Some _ => set_active_vcl (Some (Some interpreter)) x
               | None => x
               end in
      (CliResponse_ok (str "VCL '" ++ name ++ str "' now active."), x)
  | (Err e, m) => (CliResponse_error e, set_manager m x)
  end.

Definition handle_vcl_discard (name : bytes) (x : AdminContext) : CliResponse * AdminContext :=
  let '(r, m) := VclManager_discard name (ad_vcl_manager x) in
  (match r with
   | Ok _ => CliResponse_ok (str "VCL '" ++ name ++ str "' discarded.")
   | Err e => CliResponse_error e
   end, set_manager m x).

Definition handle_stop (x : AdminContext) : CliResponse * AdminContext :=
  if ad_running x then (CliResponse_ok (str "Child process stopped."), set_running false x)
  else (CliResponse_error (str "Child process is already stopped."), x).

Definition handle_start (x : AdminContext) : CliResponse * AdminContext :=
  if ad_running x then (CliResponse_error (str "Child process is already running."), x)
  else (CliResponse_ok (str "Child process started."), set_running true x).

(** [None] when a part of the server panics. *)
Definition handle_command (now : clock) (cmd : CliCommand.t) (x : AdminContext) : option (CliResponse * AdminContext) :=
  log ← LogWriter_log (ck_real now) LogTag_Debug (mkVxid 0) (str "admin: " ++ CliCommand.name cmd) (ad_log x);
  let x := set_log log x in
  match cmd with
  | CliCommand.Ping => Some (handle_ping now, x)
  | CliCommand.Status => Some (handle_status now x, x)
  | CliCommand.Help => Some (handle_help, x)
  | CliCommand.BanList => Some (handle_ban_list x, x)
  | CliCommand.Ban expression => Some (handle_ban now expression x)
  | CliCommand.ParamShow param => Some (handle_param_show param x, x)
  | CliCommand.ParamSet param value => Some (handle_param_set param value x)
  | CliCommand.BackendList => Some (handle_backend_list, x)
  | CliCommand.BackendSetHealth backend _ => Some (handle_backend_set_health backend, x)
  | CliCommand.VclLoad name source => handle_vcl_load now name source x
  | CliCommand.VclUse name => Some (handle_vcl_use name x)
  | CliCommand.VclList => Some (handle_vcl_list now x, x)
  | CliCommand.VclDiscard name => Some (handle_vcl_discard name x)
  | CliCommand.Stop => Some (handle_stop x)
  | CliCommand.Start => Some (handle_start x)
  | CliCommand.LogStream tags => r ← handle_log_stream tags x; Some (r, x)
  end.

(* ------------------------------------------------------------------ *)
(** ** Sessions

    A connection as a function of the lines the client sends (with the clock at
    each), until it disconnects. *)

Definition quit_line (line : bytes) : bool := bool_decide (line = str "quit") || bool_decide (line = str "close").

(** The command loop: the frames written and the context at the end. *)
Fixpoint command_loop (lines : list (clock * bytes)) (x : AdminContext) : option (list bytes * AdminContext) :=
  match lines with
  | [] => Some ([], x)
  | (now, line) :: lines =>
      match trim line with
      | [] => command_loop lines x
      | trimmed =>
          if quit_line trimmed then
            Some ([encode_response (mkCliResponse CliStatus.Close (str "Closing connection."))], x)
          else
            '(response, x) ← match parse_command trimmed with
                             | Ok cmd => handle_command now cmd x
                             | Err e => Some (mkCliResponse CliStatus.UnknownCommand (AdminError.display e), x)
                             end;
            if decide (cr_status response = CliStatus.Close) then Some ([encode_response response], x)
            else
              '(out, x) ← command_loop lines x;
              Some (encode_response response :: out, x)
      end
  end.

Definition challenge_frame (challenge : bytes) : bytes :=
  let h := hex_encode challenge in str "107 " ++ show_u64 (len h) ++ [x0a] ++ h ++ [x0a].

(** The handshake, with SHA-256 and the server's random challenge: the frames written
    and, if the client is let in, the lines it sends after that. *)
Definition authenticate (sha256 : bytes → bytes) (challenge secret : bytes) (lines : list (clock * bytes))
    : list bytes * option (list (clock * bytes)) :=
  match lines with
  | [] => ([challenge_frame challenge], None)
  | (_, line) :: lines =>
      if verify_auth sha256 challenge secret (trim line) then
        ([challenge_frame challenge; encode_response (CliResponse_ok (str "Authentication successful."))], Some lines)
      else
        ([challenge_frame challenge;
          encode_response (mkCliResponse CliStatus.Close (str "Authentication failed."))], None)
  end.

Definition handle_connection (sha256 : bytes → bytes) (challenge : bytes) (secret : option bytes)
    (lines : list (clock * bytes)) (x : AdminContext) : option (list bytes * AdminContext) :=
  let '(greeting, lines) :=
    match secret with
    | None => ([encode_response (CliResponse_ok (str "varaha-cache admin CLI ready."))], Some lines)
    | Some secret => authenticate sha256 challenge secret lines
    end in
  match lines with
  | None => Some (greeting, x)
  | Some lines =>
      '(out, x) ← command_loop lines x;
      Some (greeting ++ out, x)
  end.

(* ------------------------------------------------------------------ *)
(** ** Properties *)

(** The published interpreter is that of the active program; as long as there is none,
    that of the VCL file of the start, if any, which the manager does not know. *)
Definition published (startup : option vcl) (x : AdminContext) : Prop :=
  ∀ cell, ad_active_vcl x = Some cell →
    cell = match VclManager_active_interpreter (ad_vcl_manager x) with Some vi => Some vi | None => startup end.

(** The context is consistent, with room in the log's counter for [n] more lines. *)
Definition ctx_ok (startup : option vcl) (n : nat) (x : AdminContext) : Prop :=
  manager_ok (ad_vcl_manager x) ∧ published startup x
  ∧ ∃ cap hist, ring_repr (ad_log x) cap hist ∧ Z.of_nat (length hist + n) ≤ u64_max.

Lemma tail_total b cap hist : ring_repr b cap hist → is_Some (LogReader_tail 100 b).
Proof.
  intros Hr. pose proof Hr as (_ & Hcap & _ & Htot & _). unfold LogReader_tail.
  rewrite Htot, Hcap, (ring_read_from b cap hist); [by eexists|done|case_if; bool_to_prop; lia].
Qed.

Lemma log_stream_total tags x cap hist : ring_repr (ad_log x) cap hist → is_Some (handle_log_stream tags x).
Proof.
  intros Hr. unfold handle_log_stream. destruct (tail_total _ _ _ Hr) as [records ->]. cbn [mbind option_bind].
  destruct records as [|r records]; [by eexists|]. destruct (LogRecord_display <$> _); by eexists.
Qed.

Lemma manager_step_ok startup n o m' x :
  ctx_ok startup n x → is_use o = false → manager_exec o (ad_vcl_manager x) = Some m' → ctx_ok startup n (set_manager m' x).
Proof.
  intros (Hm & Hp & Hl) Ho He. destruct (manager_exec_ok o _ Hm) as (m1 & E & Hm'). rewrite He in E. injection E as <-.
  split_and!; [done| |done]. intros cell Hc. cbn in *. rewrite (Hp cell Hc). by rewrite (exec_active_interpreter o _ _ Hm Ho He).
Qed.

Lemma vcl_use_ok startup n name x : ctx_ok startup n x → ctx_ok startup n (handle_vcl_use name x).2.
Proof.
  intros (Hm & Hp & Hl). unfold handle_vcl_use. pose proof (use_ok name _ Hm) as Hm'.
  destruct (VclManager_use_program name (ad_vcl_manager x)) as [[vi|e] m'] eqn:E; cbn [snd] in *.
  - destruct (use_active _ _ _ _ Hm E) as (Ha & e & He & Hvi).
    assert (VclManager_active_interpreter m' = Some vi) as Hact.
    { unfold VclManager_active_interpreter. rewrite Ha. simpl. rewrite He. simpl. by rewrite Hvi. }
    cbn [ad_active_vcl set_manager]. destruct (ad_active_vcl x) as [c|] eqn:Ec; (split_and!; [done| |done]).
    + intros cell [= <-]. cbn. by rewrite Hact.
    + intros cell Hc. cbn in Hc. congruence.
  - assert (m' = ad_vcl_manager x) as ->; [|by destruct x].
    unfold VclManager_use_program in E. destruct (_ !! name) as [t|]; [|by injection E].
    case_decide; [by injection E|done].
Qed.

Lemma handle_command_ok startup n now cmd x :
  ctx_ok startup (S n) x → ∃ r x', handle_command now cmd x = Some (r, x') ∧ ctx_ok startup n x'.
Proof.
  intros (Hm & Hp & cap & hist & Hr & Hmax).
  destruct (ring_repr_write (ad_log x) cap hist
    (LogRecord_new (ck_real now) LogTag_Debug (mkVxid 0) (str "admin: " ++ CliCommand.name cmd)) Hr) as (log & El & Hr').
  { lia. }
  unfold handle_command, LogWriter_log. rewrite El. cbn [mbind option_bind].
  assert (ctx_ok startup n (set_log log x)) as Hx.
  { split_and!; [done|done|]. exists cap, (hist ++ [LogRecord_new (ck_real now) LogTag_Debug (mkVxid 0) (str "admin: " ++ CliCommand.name cmd)]).
    split; [done|]. rewrite length_app. simpl. lia. }
  generalize dependent (set_log log x). intros x1 Hx. clear El Hr Hmax. pose proof Hx as (Hm1 & Hp1 & Hl1).
  destruct cmd as [name source|name| |name|e| |p|p v| |b h| | | | | |tags]; try (by eexists _, _).
  - destruct (load_ok name source (ck_mono now) _ Hm1) as (r & m' & E & _ & _). unfold handle_vcl_load. rewrite E.
    eexists _, _. split; [reflexivity|]. apply (manager_step_ok startup n (MLoad name source (ck_mono now))); [done|done|]. cbn. by rewrite E.
  - eexists _, _. split; [apply f_equal, surjective_pairing|]. by apply vcl_use_ok.
  - unfold handle_vcl_discard. destruct (VclManager_discard name (ad_vcl_manager x1)) as [r m'] eqn:E.
    eexists _, _. split; [reflexivity|]. apply (manager_step_ok startup n (MDiscard name)); [done|done|]. cbn. by rewrite E.
  - unfold handle_ban. destruct (cache_ban _ _ _) as [[u|er] c]; by eexists _, _.
  - unfold handle_param_set. destruct (set_param_value _ _ _); by eexists _, _.
  - unfold handle_stop. destruct (ad_running x1); by eexists _, _.
  - unfold handle_start. destruct (ad_running x1); by eexists _, _.
  - destruct Hl1 as (cap1 & hist1 & Hr1 & _). destruct (log_stream_total tags x1 _ _ Hr1) as [r ->]. by eexists _, _.
Qed.

Lemma command_loop_ok startup lines : ∀ x,
  ctx_ok startup (length lines) x → ∃ out x', command_loop lines x = Some (out, x') ∧ ctx_ok startup 0 x'.
Proof.
  assert (∀ n x, ctx_ok startup n x → ctx_ok startup 0 x) as Hweak.
  { intros n x (? & ? & cap & hist & ? & ?). split_and!; [done|done|]. exists cap, hist. split; [done|]. lia. }
  induction lines as [|[now line] lines IH]; intros x Hx; [by eexists _, _|]. cbn [command_loop length] in *.
  assert (ctx_ok startup (length lines) x) as Hx'.
  { destruct Hx as (? & ? & cap & hist & ? & ?). split_and!; [done|done|]. exists cap, hist. split; [done|]. lia. }
  destruct (trim line) as [|c s]; [by apply IH|]. destruct (quit_line (c :: s)); [by eexists _, _; eauto|].
  assert (∃ r x1, match parse_command (c :: s) with
    | Ok cmd => handle_command now cmd x
    | Err e => Some (mkCliResponse CliStatus.UnknownCommand (AdminError.display e), x)
    end = Some (r, x1) ∧ ctx_ok startup (length lines) x1) as (r & x1 & -> & Hx1).
  { destruct (parse_command (c :: s)) as [cmd|e]; [by apply handle_command_ok|by eexists _, _]. }
  cbn [mbind option_bind]. case_decide; [by eexists _, _; eauto|].
  destruct (IH x1 Hx1) as (out & x2 & -> & Hx2). cbn [mbind option_bind]. by eexists _, _.
Qed.

(** The context a server starts with: no program in the manager, and the VCL of the
    file given on the command line, if any, already published. *)
Lemma started_ctx_ok startup n c log cap config now running :
  ring_repr log cap [] → Z.of_nat n ≤ u64_max →
  ctx_ok startup n (AdminContext_with_active_vcl c log config now VclManager_new running startup).
Proof. intros Hr Hn. split_and!; [apply manager_new_ok|by intros cell [= <-]|]. by exists cap, []. Qed.

(** C30. Administration sessions, one at a time, are safe: from a consistent context,
    whatever lines a client sends, the session runs to its end without a panic (a log
    that can still count the lines), and the context stays consistent.  In particular
    the interpreter published to the request handler at the end of a session is that
    of the program in use; as long as none was put in use, it is still the one of the
    VCL file the server was started with, if any. *)
Theorem admin_session_ok startup sha256 challenge secret lines x :
  ctx_ok startup (length lines) x →
  ∃ out x', handle_connection sha256 challenge secret lines x = Some (out, x') ∧ ctx_ok startup 0 x'.
Proof.
  intros Hx. assert (∀ n y, ctx_ok startup n y → ∀ k, (k ≤ n)%nat → ctx_ok startup k y) as Hweak.
  { intros n y (? & ? & cap & hist & ? & ?) k Hk. split_and!; [done|done|]. exists cap, hist. split; [done|]. lia. }
  unfold handle_connection, authenticate. destruct secret as [secret|].
  - destruct lines as [|[now line] lines]; [by eexists _, _|].
    destruct (verify_auth _ _ _ _); [|by eexists _, _; split; [done|]; eapply Hweak; [exact Hx|lia]].
    destruct (command_loop_ok startup lines x) as (out & x' & -> & Hx'); [eapply Hweak; [exact Hx|simpl; lia]|].
    cbn [mbind option_bind]. by eexists _, _.
  - destruct (command_loop_ok startup lines x) as (out & x' & -> & Hx'); [done|]. cbn [mbind option_bind]. by eexists _, _.
Qed.

(** C31. Where a secret is configured, nobody without it gets anywhere: unless the first
    line is the digest of the challenge, the secret and the challenge, the
    session answers with the challenge and a refusal, executes no command and
    leaves the context as it was. *)
Theorem admin_auth_required sha256 challenge secret lines x :
  (∀ now line rest, lines = (now, line) :: rest →
     trim (trim line) ≠ compute_auth_response sha256 challenge secret) →
  handle_connection sha256 challenge (Some secret) lines x
  = Some (challenge_frame challenge
          :: match lines with
             | [] => []
             | _ => [encode_response (mkCliResponse CliStatus.Close (str "Authentication failed."))]
             end, x).
Proof.
  intros Hl. unfold handle_connection, authenticate. destruct lines as [|[now line] lines]; [done|].
  destruct (verify_auth sha256 challenge secret (trim line)) eqn:E; [|done].
  apply verify_auth_spec in E. by destruct (Hl now line lines eq_refl).
Qed.
End handler.

(** *** A concrete server *)

Definition no_regex : RegexLib :=
  {| Regex := unit; Regex_new _ := Ok tt; Regex_is_match _ _ := false |}.

(** A cache that only counts its bans. *)
Definition ban_counter : AdminCache (H := no_regex) nat := {|
  cache_stats _ := CacheStats_new;
  cache_bans _ := [];
  cache_ban _ _ n := (Ok tt, S n);
|}.

Definition admin_fmt : CoreFmt := {| fmt_f64 _ := []; char_debug c := [c] |}.
Definition noon : clock := mkClock f64_zero (10 ^ 12) 1700000000.
Definition sample_log : RingBuffer := default (mkRingBuffer [] 0 0 0) (RingBuffer_new 8).

(** The server was started with a VCL file. *)
Definition sample_startup : interpreter (Ip := unit) := VclInterpreter_new (mkProgram None [] [] [] [] []).

Definition sample_ctx : AdminContext (Ip := unit) (C := nat) :=
  AdminContext_with_active_vcl 0%nat sample_log CacheConfig_default 0 VclManager_new true (Some sample_startup).

Lemma sample_ctx_ok : ctx_ok (Some sample_startup) 5 sample_ctx.
Proof.
  destruct (ring_repr_new 8) as (b & E & Hr); [lia|]. apply (started_ctx_ok _ _ _ _ 8).
  - unfold sample_log. rewrite E. exact Hr.
  - vm_compute. discriminate.
Qed.

Definition sample_session : list (clock * bytes) :=
  [(noon, str "vcl.load boot sub vcl_recv { return (pass); }"); (noon, str "vcl.use boot"); (noon, str "ban req.url ~ /x");
   (noon, str "nonsense"); (noon, str "quit")].

Lemma admin_session_ok_witness :
  ∃ out x', handle_connection (corefmt := admin_fmt) (cache := ban_counter) (λ _ _, []) (λ _, []) id [] None sample_session sample_ctx
            = Some (out, x')
    ∧ length out = 6%nat ∧ ctx_ok (Some sample_startup) 0 x'.
Proof.
  destruct (admin_session_ok (corefmt := admin_fmt) (cache := ban_counter) (λ _ _, []) (λ _, []) (Some sample_startup) id [] None
    sample_session sample_ctx) as (out & x' & E & Hx); [exact sample_ctx_ok|].
  exists out, x'. split; [exact E|]. split; [|exact Hx].
  assert (length <$> (fst <$> handle_connection (corefmt := admin_fmt) (cache := ban_counter) (λ _ _, []) (λ _, []) id [] None
    sample_session sample_ctx) = Some 6%nat) as H by (vm_compute; reflexivity).
  rewrite E in H. by injection H.
Defined.

(** A program loaded and used in place of the one of the start is published. *)
Example sample_session_publishes :
  (length ∘ subs ∘ vi_program <$>
     ('(_, x) ← handle_connection (corefmt := admin_fmt) (cache := ban_counter) (λ _ _, []) (λ _, []) id [] None sample_session sample_ctx;
      mjoin (ad_active_vcl x))) = Some 1%nat
  ∧ length (subs (vi_program sample_startup)) = 0%nat.
Proof. vm_compute. done. Qed.

(** Two sessions that use two programs at once: the first one's program is put in use,
    then the second one's, which is published, and then the first one's is published.
    The request handler runs the program that is not in use. *)
Definition two_programs : VclManager (Ip := unit) :=
  default VclManager_new
    ('(_, m) ← VclManager_load (corefmt := admin_fmt) (str "a") (str "sub vcl_recv { return (pass); }") 0 VclManager_new;
     '(_, m) ← VclManager_load (corefmt := admin_fmt) (str "b") (str "sub vcl_recv { return (hash); }  sub vcl_hit { return (deliver); }") 0 m;
     Some m).

Example racing_uses :
  match VclManager_use_program (str "a") two_programs with
  | (Ok vi_a, m) =>
      match VclManager_use_program (str "b") m with
      | (Ok vi_b, m) =>
          let x := set_active_vcl (Some (Some vi_a)) (set_active_vcl (Some (Some vi_b)) (set_manager m sample_ctx)) in
          active_name (ad_vcl_manager x) = Some (str "b")
          ∧ length ∘ subs ∘ vi_program <$> mjoin (ad_active_vcl x) = Some 1%nat
          ∧ length ∘ subs ∘ vi_program <$> VclManager_active_interpreter (ad_vcl_manager x) = Some 2%nat
      | _ => False
      end
  | _ => False
  end.
Proof. vm_compute. done. Qed.

Lemma admin_auth_required_witness :
  let lines := [(noon, str "guess"); (noon, str "stop")] in
  handle_connection (corefmt := admin_fmt) (cache := ban_counter) (λ _ _, []) (λ _, []) (take 4) (str "abcd") (Some (str "pw")) lines sample_ctx
  = Some ([challenge_frame (str "abcd");
           encode_response (mkCliResponse CliStatus.Close (str "Authentication failed."))], sample_ctx).
Proof.
  intros lines.
  apply (admin_auth_required (corefmt := admin_fmt) (cache := ban_counter) (λ _ _, []) (λ _, []) (take 4) (str "abcd") (str "pw") lines sample_ctx).
  intros now line rest [= <- <- <-]. vm_compute. discriminate.
Defined.
