(* ===== verification/H2.v ===== *)
(** * HTTP/2 streams

    Models [rv-transport/src/h2_server.rs]: a request of an HTTP/2 stream becomes a
    message, its body is read within the limit, and the response is sent as a HEADERS
    frame and, when it has a body, a DATA frame.  The h2 crate gives a stream as the
    parts of its request and the chunks of its body; what becomes of a frame is an
    argument.  The http crate is a class with the laws its documentation states. *)

From S2P Require Import Prelude RustStr F64 Enums Types HttpTypes Header Vary HashSlinger Stevedore Ban Request Engine.
From S2P Require Import VclInterp Runtime Backend Http1 Connection.
Local Open Scope Z_scope.
Local Open Scope rust_scope.

(** [http::request::Parts]: the method, what the URI's accessors give, and the header
    fields in the order of the map's iterator; a value that is not visible ASCII has
    no string. *)
Record h2_parts : Set := mkParts {
  hp_method : bytes;
  hp_authority : option bytes;
  hp_path_and_query : option bytes;
  hp_path : bytes;
  hp_headers : list (bytes * option bytes);
}.

Definition values_of (name : bytes) (fs : list (bytes * bytes)) : list bytes :=
  snd <$> List.filter (λ f, bool_decide (f.1 = name)) fs.

(** The http crate: checked status codes, names (in lower case) and values, and the
    response builder, which keeps the values of a name in order. *)
Class HttpCrate := {
  status_from_u16 : Z → option Z;
  header_name_from_bytes : bytes → result bytes bytes;
  header_value_from_str : bytes → result bytes bytes;
  response_build : Z → list (bytes * bytes) → result (list (bytes * bytes)) bytes;
  status_range n : status_from_u16 n = if (100 <=? n) && (n <? 1000) then Some n else None;
  name_lowered n n' : header_name_from_bytes n = Ok n' → n' = to_ascii_lowercase n;
  value_kept v v' : header_value_from_str v = Ok v' → v' = v;
  build_keeps st fs fs' name : response_build st fs = Ok fs' → values_of name fs' = values_of name fs;
}.

Inductive h2_frame : Set :=
| HeadersFrame (status : Z) (fields : list (bytes * bytes)) (end_stream : bool)
| DataFrame (data : bytes) (end_stream : bool).

(** Whether the connection takes the frames; the errors' texts where it does not. *)
Record h2_peer : Set := mkPeer { peer_headers : result unit bytes; peer_data : result unit bytes }.

(** The header fields but the pseudo-headers. *)
Definition h2_set_fields (msg : HttpMessage) (fs : list (bytes * option bytes)) : HttpMessage :=
  foldl (λ msg (f : bytes * option bytes),
      let '(name, value) := f in
      if starts_with [x3a] name then msg else HttpMessage_set_header msg name (default [] value)) msg fs.

Definition h2_set_status (msg : HttpMessage) : HttpMessage :=
  match HttpMessage_get_header msg (str "Content-Length") with
  | Some cl => if 0 <? content_length cl then set_body_status BodyStatus_Length msg else msg
  | None => msg
  end.

Definition h2_request_to_message (parts : h2_parts) : HttpMessage :=
  let method := HttpMethod_parse_method (hp_method parts) in
  let url := default (hp_path parts) (hp_path_and_query parts) in
  let msg := HttpMessage_new_request method url Http2 in
  h2_set_status (h2_set_fields msg (hp_headers parts)).

Definition http2_error {A} (what : bytes) (r : result A bytes) : result A TransportError.t :=
  match r with Ok a => Ok a | Err e => Err (TransportError.Http2 (what ++ e)) end.

Fixpoint h2_body_loop (max_body_size : Z) (chunks : list (result bytes bytes)) (body : bytes) : result bytes TransportError.t :=
  match chunks with
  | [] => Ok body
  | chunk :: chunks =>
      chunk ←? http2_error (str "h2 body read error: ") chunk;
      if max_body_size <? u64_wrap (len body + len chunk) then Err TransportError.RequestTooLarge
      else h2_body_loop max_body_size chunks (body ++ chunk)
  end.

(** [read_h2_body] *)
Definition read_h2_body (max_body_size : Z) (chunks : list (result bytes bytes)) : result (option bytes) TransportError.t :=
  body ←? h2_body_loop max_body_size chunks [];
  Ok (match body with [] => None | _ => Some body end).

Section send.
  Context {http : HttpCrate}.

Definition h2_skipped : list bytes := [str "connection"; str "keep-alive"; str "transfer-encoding"; str "upgrade"].

Fixpoint h2_fields (hs : list Header) : result (list (bytes * bytes)) TransportError.t :=
  match hs with
  | [] => Ok []
  | h :: hs =>
      let lower := to_ascii_lowercase (h_name h) in
      if bool_decide (lower ∈ h2_skipped) then h2_fields hs
      else
        header_name ←? http2_error (str "invalid header name '" ++ h_name h ++ str "': ") (header_name_from_bytes (h_name h));
        header_value ←? http2_error (str "invalid header value '" ++ h_value h ++ str "': ") (header_value_from_str (h_value h));
        fields ←? h2_fields hs;
        Ok ((header_name, header_value) :: fields)
  end.

(** [http::StatusCode::INTERNAL_SERVER_ERROR] stands in for a code out of range. *)
Definition h2_status (response : HttpMessage) : Z := default 500 (status_from_u16 (status_code (msg_status response))).

Definition h2_head (response : HttpMessage) : result (list (bytes * bytes)) TransportError.t :=
  fields ←? h2_fields (headers (msg_headers response));
  http2_error (str "failed to build h2 response: ") (response_build (h2_status response) fields).

(** [send_h2_response], with the frames sent. *)
Definition send_h2_response (peer : h2_peer) (response : HttpMessage) (body : option bytes) :
    list h2_frame * result unit TransportError.t :=
  let has_body := match body with Some (_ :: _) => true | _ => false end in
  match h2_head response with
  | Err e => ([], Err e)
  | Ok fields =>
      match http2_error (str "h2 send_response error: ") (peer_headers peer) with
      | Err e => ([], Err e)
      | Ok _ =>
          let frame := HeadersFrame (h2_status response) fields (negb has_body) in
          match body with
          | Some ((_ :: _) as data) =>
              match http2_error (str "h2 send_data error: ") (peer_data peer) with
              | Err e => ([frame], Err e)
              | Ok _ => ([frame; DataFrame data true], Ok tt)
              end
          | _ => ([frame], Ok tt)
          end
      end
  end.

Context {St : Type} (handler : HttpMessage → option bytes → ConnInfo → St → (HttpMessage * option bytes) * St).

(** [handle_h2_stream] *)
Definition handle_h2_stream (max_body_size : Z) (parts : h2_parts) (chunks : list (result bytes bytes)) (peer : h2_peer)
    (info : ConnInfo) (st : St) : (list h2_frame * result unit TransportError.t) * St :=
  let msg := h2_request_to_message parts in
  match read_h2_body max_body_size chunks with
  | Err e => (([], Err e), st)
  | Ok body =>
      let '((response, resp_body), st) := handler msg body info st in
      (send_h2_response peer response resp_body, st)
  end.

End send.

(** [handle_h2_connection]: the streams it spawns a task for, and how it ends. *)
Fixpoint h2_accept_loop {A : Type} (accepts : list (result A bytes)) : list A * result unit TransportError.t :=
  match accepts with
  | [] => ([], Ok tt)
  | Err e :: _ => ([], Err (TransportError.Http2 (str "h2 accept error: " ++ e)))
  | Ok s :: accepts => let '(streams, r) := h2_accept_loop accepts in (s :: streams, r)
  end.

Definition handle_h2_connection {A : Type} (handshake : result unit bytes) (accepts : list (result A bytes)) :
    list A * result unit TransportError.t :=
  match http2_error (str "h2 handshake failed: ") handshake with
  | Err e => ([], Err e)
  | Ok _ => h2_accept_loop accepts
  end.

(* ------------------------------------------------------------------ *)
(** ** The request *)

(** The last field of a name wins; names that start with a colon are none. *)
Definition last_value (name : bytes) (fs : list (bytes * option bytes)) : option bytes :=
  default [] ∘ snd <$> last (List.filter (λ f, negb (starts_with [x3a] f.1) && eq_ignore_ascii_case f.1 name) fs).

Lemma set_fields_get fs msg name :
  HttpMessage_get_header (h2_set_fields msg fs) name
  = match last_value name fs with Some v => Some v | None => HttpMessage_get_header msg name end.
Proof.
  unfold h2_set_fields. revert msg. induction fs as [|[n v] fs IH] using rev_ind; intros msg; [done|].
  rewrite foldl_snoc. unfold last_value. rewrite List.filter_app. cbn [List.filter fst].
  destruct (starts_with [x3a] n) eqn:E; cbn [negb andb].
  - rewrite app_nil_r. apply IH.
  - unfold HttpMessage_get_header, HttpMessage_set_header, msg_with_headers. cbn [msg_headers]. rewrite HeaderMap_get_set.
    destruct (eq_ignore_ascii_case n name); [by rewrite last_snoc|]. rewrite app_nil_r. apply IH.
Qed.

Lemma set_fields_same fs msg :
  msg_method (h2_set_fields msg fs) = msg_method msg ∧ msg_url (h2_set_fields msg fs) = msg_url msg
  ∧ msg_protocol (h2_set_fields msg fs) = msg_protocol msg.
Proof.
  unfold h2_set_fields. revert msg. induction fs as [|[n v] fs IH]; intros msg; [done|]. cbn [foldl].
  destruct (starts_with [x3a] n); [apply IH|]. by destruct (IH (HttpMessage_set_header msg n (default [] v))) as (-> & -> & ->).
Qed.

Lemma set_status_same msg :
  msg_headers (h2_set_status msg) = msg_headers msg ∧ msg_method (h2_set_status msg) = msg_method msg
  ∧ msg_url (h2_set_status msg) = msg_url msg ∧ msg_protocol (h2_set_status msg) = msg_protocol msg.
Proof. unfold h2_set_status. destruct (HttpMessage_get_header _ _); [case_match|]; done. Qed.

Lemma h2_message_fields parts name :
  HttpMessage_get_header (h2_request_to_message parts) name = last_value name (hp_headers parts).
Proof.
  unfold h2_request_to_message, HttpMessage_get_header.
  destruct (set_status_same (h2_set_fields (HttpMessage_new_request (HttpMethod_parse_method (hp_method parts))
    (default (hp_path parts) (hp_path_and_query parts)) Http2) (hp_headers parts))) as (-> & _).
  etransitivity; [apply (set_fields_get (hp_headers parts))|]. by destruct (last_value _ _).
Qed.

Lemma h2_message_line parts :
  msg_method (h2_request_to_message parts) = HttpMethod_parse_method (hp_method parts)
  ∧ msg_url (h2_request_to_message parts) = default (hp_path parts) (hp_path_and_query parts)
  ∧ msg_protocol (h2_request_to_message parts) = Http2.
Proof.
  unfold h2_request_to_message. set (m := HttpMessage_new_request _ _ _).
  destruct (set_status_same (h2_set_fields m (hp_headers parts))) as (_ & -> & -> & ->).
  by destruct (set_fields_same (hp_headers parts) m) as (-> & -> & ->).
Qed.

(** [request] is the message of [parts]: the method it names, the path with its
    query, HTTP/2, and under every name the value of the last field. *)
Record h2_request_of (parts : h2_parts) (request : HttpMessage) : Prop := {
  hr_method m : hp_method parts = HttpMethod_name m → msg_method request = m;
  hr_unknown : (∀ m, hp_method parts ≠ HttpMethod_name m) → msg_method request = HttpMethod_Unknown;
  hr_url pq : hp_path_and_query parts = Some pq → msg_url request = pq;
  hr_path : hp_path_and_query parts = None → msg_url request = hp_path parts;
  hr_protocol : msg_protocol request = Http2;
  hr_field name : HttpMessage_get_header request name = last_value name (hp_headers parts);
}.

Lemma parse_method_other s : (∀ m, s ≠ HttpMethod_name m) → HttpMethod_parse_method s = HttpMethod_Unknown.
Proof.
  intros H. unfold HttpMethod_parse_method, HttpMethod_from_str. destruct (match_str _ s) as [m|] eqn:E; [|done]. exfalso.
  apply match_str_Some in E; [|apply (bool_decide_unpack _); vm_compute; exact I].
  apply (H m). rewrite !elem_of_cons, elem_of_nil in E. naive_solver.
Qed.

Lemma h2_message_of parts : h2_request_of parts (h2_request_to_message parts).
Proof.
  destruct (h2_message_line parts) as (Hm & Hu & Hp). split; try done.
  - intros m Hn. by rewrite Hm, Hn, HttpMethod_parse_name.
  - intros Hn. rewrite Hm. by apply parse_method_other.
  - intros pq Hq. by rewrite Hu, Hq.
  - intros Hq. by rewrite Hu, Hq.
  - apply h2_message_fields.
Qed.

(** The authority of the request is not looked at: without a Host field, the requests
    for a path of all sites share one key in the cache. *)
Lemma h2_key_without_host parts :
  last_value (str "Host") (hp_headers parts) = None →
  cache_key (h2_request_to_message parts) = str "localhost:" ++ default (hp_path parts) (hp_path_and_query parts).
Proof.
  intros H. unfold cache_key. rewrite h2_message_fields, H. by destruct (h2_message_line parts) as (_ & -> & _).
Qed.

(** Of the pieces of a split cookie, the last alone is kept. *)
Example h2_cookies_lost :
  HttpMessage_get_header (h2_request_to_message (mkParts (str "GET") (Some (str "example.org")) (Some (str "/")) (str "/")
    [(str "cookie", Some (str "a=1")); (str "cookie", Some (str "b=2"))])) (str "Cookie") = Some (str "b=2").
Proof. vm_compute. reflexivity. Qed.

(* ------------------------------------------------------------------ *)
(** ** The body *)

Definition chunks_fit (chunks : list (result bytes bytes)) : Prop :=
  Forall (λ c, match c with Ok b => len b ≤ i64_max | Err _ => True end) chunks.

Lemma h2_body_loop_ok max chunks body out :
  0 ≤ max ≤ i64_max → chunks_fit chunks → len body ≤ max →
  h2_body_loop max chunks body = Ok out ↔ ∃ cs, chunks = Ok <$> cs ∧ out = body ++ concat cs ∧ len out ≤ max.
Proof.
  intros Hmax Hf. revert body. induction Hf as [|c chunks Hc _ IH]; intros body Hb; cbn [h2_body_loop].
  - split; [intros [= <-]; exists []; by rewrite app_nil_r|]. intros ([|] & ? & -> & ?); [by rewrite app_nil_r|discriminate].
  - destruct c as [c|e]; cbn [http2_error result_bind]; [|split; [discriminate|]; intros ([|] & ? & _); discriminate].
    assert (Hl : len (body ++ c) = len body + len c) by (unfold len; rewrite length_app; lia).
    assert (0 ≤ len body ∧ 0 ≤ len c) by (unfold len; lia).
    rewrite u64_wrap_small by (unfold u64_max, i64_max in *; lia). destruct (Z.ltb_spec max (len body + len c)).
    + split; [discriminate|]. intros ([|c' cs] & [=] & -> & Ho). subst c'. exfalso. revert Ho. cbn [concat].
      unfold len in *. rewrite !length_app. lia.
    + rewrite IH by lia. split.
      * intros (cs & -> & -> & Ho). exists (c :: cs). cbn [concat]. by rewrite app_assoc.
      * intros ([|c' cs] & [=] & -> & Ho). subst c' chunks. exists cs. cbn [concat] in *. by rewrite app_assoc in *.
Qed.

Definition some_body (b : bytes) : option bytes := match b with [] => None | _ => Some b end.

Lemma read_h2_body_ok max chunks out :
  0 ≤ max ≤ i64_max → chunks_fit chunks →
  read_h2_body max chunks = Ok out ↔ ∃ cs, chunks = Ok <$> cs ∧ len (concat cs) ≤ max ∧ out = some_body (concat cs).
Proof.
  intros Hmax Hf. unfold read_h2_body. rewrite result_bind_ok. split.
  - intros (b & Hb & [= <-]). apply h2_body_loop_ok in Hb as (cs & -> & -> & Ho); [|done|done|unfold len; cbn; lia]. by exists cs.
  - intros (cs & -> & Ho & ->). exists (concat cs). split; [|done]. apply h2_body_loop_ok; [done|done|unfold len; cbn; lia|]. by exists cs.
Qed.

(* ------------------------------------------------------------------ *)
(** ** The response *)

Section response.
  Context {http : HttpCrate}.

Lemma h2_fields_values hs fs name :
  h2_fields hs = Ok fs → to_ascii_lowercase name = name →
  values_of name fs
  = if bool_decide (name ∈ h2_skipped) then [] else h_value <$> List.filter (λ h, Header_name_eq_ignore_case h name) hs.
Proof.
  intros Hfs Hn. revert fs Hfs. induction hs as [|h hs IH]; intros fs; cbn [h2_fields].
  { intros [= <-]. by case_bool_decide. }
  cbn [List.filter]. assert (He : Header_name_eq_ignore_case h name = bool_decide (to_ascii_lowercase (h_name h) = name))
    by (unfold Header_name_eq_ignore_case, eq_ignore_ascii_case; by rewrite Hn). rewrite He. clear He.
  destruct (bool_decide_reflect (to_ascii_lowercase (h_name h) ∈ h2_skipped)) as [Hin|Hout].
  - intros Hfs. rewrite (IH fs Hfs). destruct (bool_decide_reflect (to_ascii_lowercase (h_name h) = name)) as [<-|]; [|done].
    by case_bool_decide.
  - rewrite result_bind_ok. intros (n & Hhn & Hrest). rewrite result_bind_ok in Hrest. destruct Hrest as (v & Hhv & Hrest).
    rewrite result_bind_ok in Hrest. destruct Hrest as (fs' & Hfs' & [= <-]).
    destruct (header_name_from_bytes (h_name h)) as [n'|] eqn:En; [|discriminate]. injection Hhn as ->. apply name_lowered in En as ->.
    destruct (header_value_from_str (h_value h)) as [v'|] eqn:Ev; [|discriminate]. injection Hhv as ->. apply value_kept in Ev as ->.
    unfold values_of. cbn [List.filter fst]. specialize (IH fs' Hfs'). unfold values_of in IH.
    destruct (bool_decide_reflect (to_ascii_lowercase (h_name h) = name)) as [<-|]; [|done].
    rewrite !fmap_cons, IH. cbn [snd]. by case_bool_decide.
Qed.

(** What a client makes of a stream's frames: the status, the fields and the body, if
    exactly the last frame ends the stream. *)
Definition h2_read_reply (frames : list h2_frame) : option (Z * list (bytes * bytes) * option bytes) :=
  match frames with
  | [HeadersFrame st fs true] => Some (st, fs, None)
  | [HeadersFrame st fs false; DataFrame d true] => Some (st, fs, Some d)
  | _ => None
  end.

Definition non_empty (b : option bytes) : option bytes := b ≫= some_body.

(** A response sent in full is read as it was meant, and nothing else is. *)
Lemma send_h2_response_read peer response body frames r :
  send_h2_response peer response body = (frames, r) →
  match r with
  | Ok _ => ∃ fields, h2_head response = Ok fields ∧ h2_read_reply frames = Some (h2_status response, fields, non_empty body)
  | Err _ => h2_read_reply frames = None
  end.
Proof.
  unfold send_h2_response. destruct (h2_head response) as [fields|e]; [|by intros [= <- <-]].
  destruct (peer_headers peer) as [[]|e]; cbn [http2_error]; [|by intros [= <- <-]].
  destruct body as [[|b body]|]; [intros [= <- <-]; by exists fields| |intros [= <- <-]; by exists fields].
  destruct (peer_data peer) as [[]|e]; cbn [http2_error]; intros [= <- <-]; [by exists fields|done].
Qed.

Lemma h2_head_values response fields name :
  h2_head response = Ok fields → to_ascii_lowercase name = name →
  values_of name fields = if bool_decide (name ∈ h2_skipped) then [] else HeaderMap_get_all (msg_headers response) name.
Proof.
  unfold h2_head. rewrite result_bind_ok. intros (fs & Hfs & Hb) Hn.
  destruct (response_build _ _) as [fs'|] eqn:E; [|discriminate]. injection Hb as ->.
  rewrite (build_keeps _ _ _ name E). by apply h2_fields_values.
Qed.

Context {St : Type} (handler : HttpMessage → option bytes → ConnInfo → St → (HttpMessage * option bytes) * St).

(** The http crate takes every field of the response but those left out, and builds
    a response of them. *)
Definition h2_sendable (response : HttpMessage) : Prop :=
  Forall (λ h, to_ascii_lowercase (h_name h) ∈ h2_skipped
               ∨ ∃ n v, header_name_from_bytes (h_name h) = Ok n ∧ header_value_from_str (h_value h) = Ok v)
    (headers (msg_headers response))
  ∧ ∀ status fields, ∃ fields', response_build status fields = Ok fields'.

Lemma h2_sendable_head response : h2_sendable response → ∃ fields, h2_head response = Ok fields.
Proof.
  intros [Hf Hb]. assert (∃ fs, h2_fields (headers (msg_headers response)) = Ok fs) as [fs Hfs].
  { induction Hf as [|h hs Hh _ [fs IH]]; cbn [h2_fields]; [by eexists|].
    case_bool_decide; [by eexists|]. destruct Hh as [?|(n & v & -> & ->)]; [done|]. cbn. rewrite IH. by eexists. }
  unfold h2_head. rewrite Hfs. cbn. destruct (Hb (h2_status response) fs) as [fs' ->]. by eexists.
Qed.

(** A response whose fields can be sent, to a peer that takes the frames, arrives. *)
Lemma h2_stream_arrives max parts cs peer info st response resp_body st' :
  0 ≤ max ≤ i64_max → chunks_fit (Ok <$> cs) → len (concat cs) ≤ max →
  handler (h2_request_to_message parts) (some_body (concat cs)) info st = ((response, resp_body), st') →
  h2_sendable response → peer = mkPeer (Ok tt) (Ok tt) →
  ∃ frames, handle_h2_stream handler max parts (Ok <$> cs) peer info st = ((frames, Ok tt), st').
Proof.
  intros Hmax Hf Hl Hh [fields Hhead]%h2_sendable_head ->. unfold handle_h2_stream.
  rewrite (proj2 (read_h2_body_ok max (Ok <$> cs) (some_body (concat cs)) Hmax Hf)) by (by exists cs). rewrite Hh.
  unfold send_h2_response. rewrite Hhead. cbn. destruct resp_body as [[|]|]; by eexists.
Qed.

Lemma h2_status_code response :
  let code := status_code (msg_status response) in
  h2_status response = if decide (100 ≤ code ≤ 999) then code else 500.
Proof.
  cbv zeta. unfold h2_status. rewrite status_range. destruct (decide _).
  - rewrite (proj2 (Z.leb_le _ _)), (proj2 (Z.ltb_lt _ _)) by lia. done.
  - destruct (Z.leb_spec 100 (status_code (msg_status response))); [|done]. by rewrite (proj2 (Z.ltb_ge _ _)) by lia.
Qed.

(** C15. A stream is answered with the handler's response to its own request.  The
    handler is called at most once, exactly when the chunks of the body all arrive and
    fit the limit, with a request that has the stream's method, its path with the
    query, the last value of every header field, and with the whole body.  When all
    frames are taken, the client reads the response's own status code (500 in place of
    one outside 100 to 999), under every name the values of the response's header
    fields in order except those HTTP/2 forbids, and its body, the stream being ended
    by the last frame; on any error the client never sees a complete response.  A
    response whose fields the http crate takes is sent in full to a peer that takes
    the frames.  The limit and the chunks are of machine size. *)
Theorem h2_stream_exchange max parts chunks peer info st :
  0 ≤ max ≤ i64_max → chunks_fit chunks →
  ∃ request, h2_request_of parts request
  ∧ (match handle_h2_stream handler max parts chunks peer info st with
  | ((frames, Err _), st') =>
      h2_read_reply frames = None
      ∧ (st' = st ∨ ∃ cs, chunks = Ok <$> cs ∧ len (concat cs) ≤ max
                            ∧ st' = (handler request (some_body (concat cs)) info st).2)
  | ((frames, Ok _), st') =>
      ∃ cs response resp_body fields,
        chunks = Ok <$> cs ∧ len (concat cs) ≤ max
        ∧ handler request (some_body (concat cs)) info st = ((response, resp_body), st')
        ∧ h2_read_reply frames
          = Some (let code := status_code (msg_status response) in if decide (100 ≤ code ≤ 999) then code else 500,
                  fields, non_empty resp_body)
        ∧ (∀ name, to_ascii_lowercase name = name →
             values_of name fields
             = if decide (name ∈ [str "connection"; str "keep-alive"; str "transfer-encoding"; str "upgrade"]) then []
               else HeaderMap_get_all (msg_headers response) name)
  end)
  ∧ (∀ cs response resp_body st', chunks = Ok <$> cs → len (concat cs) ≤ max →
       handler request (some_body (concat cs)) info st = ((response, resp_body), st') →
       h2_sendable response → peer = mkPeer (Ok tt) (Ok tt) →
       ∃ frames, handle_h2_stream handler max parts chunks peer info st = ((frames, Ok tt), st')).
Proof.
  intros Hmax Hf. exists (h2_request_to_message parts). split; [apply h2_message_of|]. split.
  2: { intros cs response resp_body st' -> Hl Hh Hs Hp. by apply (h2_stream_arrives max parts cs peer info st response resp_body). }
  unfold handle_h2_stream. destruct (read_h2_body max chunks) as [body|e] eqn:Eb; [|split; [done|by left]].
  apply (read_h2_body_ok max chunks body Hmax Hf) in Eb as (cs & -> & Hl & ->).
  destruct (handler _ _ info st) as [[response resp_body] st'] eqn:Eh.
  destruct (send_h2_response peer response resp_body) as [frames r] eqn:Es. apply send_h2_response_read in Es.
  destruct r as [[]|e].
  - destruct Es as (fields & Ef & Hr). exists cs, response, resp_body, fields. rewrite h2_status_code in Hr. split_and!; [done..|].
    intros name Hn. rewrite (h2_head_values response fields name Ef Hn).
    match goal with |- _ = (if decide ?P then _ else _) => destruct (decide P) as [H|H] end;
      [by rewrite bool_decide_true by exact H|by rewrite bool_decide_false by exact H].
  - split; [done|]. right. exists cs. by rewrite Eh.
Qed.

End response.

(* ------------------------------------------------------------------ *)
(** ** A stream *)

(** Names and values without line breaks, and a builder that takes any fields. *)
#[local, refine] Instance plain_http : HttpCrate := {
  status_from_u16 n := if (100 <=? n) && (n <? 1000) then Some n else None;
  header_name_from_bytes n :=
    if bool_decide (x0a ∈ n) then Err (str "invalid HTTP header name") else Ok (to_ascii_lowercase n);
  header_value_from_str v := if bool_decide (x0a ∈ v) then Err (str "failed to parse header value") else Ok v;
  response_build _ fs := Ok fs;
}.
Proof.
  - done.
  - intros n n'. case_bool_decide; [discriminate|]. by intros [= <-].
  - intros v v'. case_bool_decide; [discriminate|]. by intros [= <-].
  - by intros st fs fs' name [= <-].
Defined.

Definition echo_handler (request : HttpMessage) (body : option bytes) (_ : ConnInfo) (n : nat) :
    (HttpMessage * option bytes) * nat :=
  ((HttpMessage_set_header (HttpMessage_set_header (HttpMessage_new_response HttpStatus_OK Http11)
      (str "Connection") (str "close")) (str "X-Path") (msg_url request), body), S n).

Definition sample_parts : h2_parts :=
  mkParts (str "POST") (Some (str "example.org")) (Some (str "/a?b")) (str "/a") [(str "accept", Some (str "*"))].

Example h2_echo :
  handle_h2_stream echo_handler 10 sample_parts [Ok (str "he"); Ok (str "llo")] (mkPeer (Ok tt) (Ok tt)) sample_conn_info 0%nat
  = (([HeadersFrame 200 [(str "x-path", str "/a?b")] false; DataFrame (str "hello") true], Ok tt), 1%nat)
  ∧ handle_h2_stream echo_handler 4 sample_parts [Ok (str "he"); Ok (str "llo")] (mkPeer (Ok tt) (Ok tt)) sample_conn_info 0%nat
  = (([], Err TransportError.RequestTooLarge), 0%nat).
Proof. vm_compute. done. Qed.

Lemma h2_stream_exchange_witness :
  ∃ request, h2_request_of sample_parts request ∧ msg_method request = HttpMethod_Post ∧ msg_url request = str "/a?b"
  ∧ ∃ frames, handle_h2_stream echo_handler 10 sample_parts [Ok (str "he"); Ok (str "llo")] (mkPeer (Ok tt) (Ok tt)) sample_conn_info 0%nat
    = ((frames, Ok tt), 1%nat)
  ∧ ∃ cs response resp_body fields,
      [Ok (str "he"); Ok (str "llo")] = (Ok <$> cs : list (result bytes bytes)) ∧ len (concat cs) ≤ 10
      ∧ echo_handler request (some_body (concat cs)) sample_conn_info 0%nat = ((response, resp_body), 1%nat)
      ∧ h2_read_reply frames
        = Some (let code := status_code (msg_status response) in if decide (100 ≤ code ≤ 999) then code else 500,
                fields, non_empty resp_body).
Proof.
  destruct (h2_stream_exchange echo_handler 10 sample_parts [Ok (str "he"); Ok (str "llo")] (mkPeer (Ok tt) (Ok tt)) sample_conn_info 0%nat)
    as (request & Hr & H & _).
  - unfold i64_max. lia.
  - repeat constructor; vm_compute; discriminate.
  - exists request. split; [exact Hr|]. split; [by apply (hr_method _ _ Hr)|]. split; [by apply (hr_url _ _ Hr)|].
    revert H. rewrite (proj1 h2_echo). intros (cs & response & resp_body & fields & H1 & H2 & H3 & H4 & _).
    eexists. split; [reflexivity|]. by exists cs, response, resp_body, fields.
Defined.
