(* ===== verification/Server.v ===== *)
(** * The server: many connections over one cache

    Composes [Connection], [H2] and [Runtime]: the accept loops of
    [rv-transport/src/server.rs], the request handler, the expiry task and shutdown of
    [rv-server/src/runtime.rs].  Connections and HTTP/2 streams are tasks; a step reads
    a request with its body, runs one state of a request's pipeline on the shared
    cache, or writes a response, and the steps of all tasks interleave in any order
    with expiry, bans and changes of the program ([AdminHandler]).  The bytes a peer
    sends before it closes are given with the connection; writing to it works. *)

From S2P Require Import Prelude RustStr F64 Enums Types HttpTypes Header Vary HashSlinger Stevedore Ban Request Engine.
From S2P Require Import ListHash VclInterp Runtime Backend Http1 Connection H2.
From S2P Require Import RingLog Config VclSyntax VclManager AdminProtocol AdminCommands AdminParams AdminHandler.
Local Open Scope Z_scope.

(** A connection arrives with the bytes its peer will send, of which the first look
    sees [peeked]. *)
Inductive accepted : Type :=
| AcceptOk (peer : SocketAddr) (local : option SocketAddr) (incoming : bytes) (peeked : nat)
| AcceptFails.

Record TransportConfig : Set := mkTransportConfig {
  tc_listen_addr : SocketAddr;
  tc_max_body_size : Z;
  tc_accept_proxy_protocol : bool;
  tc_num_listeners : Z;
}.

Definition TransportConfig_default : TransportConfig :=
  mkTransportConfig (mkSocketAddr (V4 2130706433) 6081) (64 * 1024 * 1024) false 1.

(** The settings of [ServerRuntime::run]. *)
Definition run_transport_config (listen_addr : SocketAddr) : TransportConfig :=
  mkTransportConfig listen_addr (64 * 1024 * 1024) false 1.

Definition accept_info (config : TransportConfig) (peer : SocketAddr) (local : option SocketAddr) : ConnInfo :=
  mkConnInfo peer (default (tc_listen_addr config) local) None false Detected11.

Section server.
  Context {SH SS CacheConfig : Type} `{!HashSlinger SH} `{!Stevedore SS} {regex : RegexLib}.
  Context {env : ServerEnv} {interp : VclInterpreter IpAddr}.
  Context {httparse : Httparse} {http : HttpCrate}.
  Context (fmt_fixed : nat → f64 → bytes) (config : TransportConfig) (backend : option SocketAddr).

Abbreviation world_t := (world (SH := SH) (SS := SS) (CacheConfig := CacheConfig)).
Abbreviation max_body := (tc_max_body_size config).

(** What the handlers of a request see of the connection. *)
Definition conn_of (info : ConnInfo) : ConnectionInfo IpAddr :=
  mkConn _ (sa_ip (ci_client_addr info)) (sa_ip (ci_local_addr info)) (ci_is_tls info).

(** A connection waits for a request, has one in the pipeline, or is over. *)
Inductive task_phase : Type :=
| Reading
| Serving (vcl : option Vcl) (ctx : RequestContext) (keepalive : bool)
| Ended (e : conn_end).

Record task : Type := mkTask {
  tk_info : ConnInfo;
  tk_rest : bytes;
  tk_phase : task_phase;
  tk_written : bytes;
}.

(** A stream of an HTTP/2 connection: its request, the chunks of its body, what
    becomes of the frames, and the frames sent. *)
Inductive stream_phase : Type :=
| StreamReading
| StreamServing (vcl : option Vcl) (ctx : RequestContext)
| StreamEnded (r : result unit TransportError.t)
| StreamPanicked.

Record h2_stream : Type := mkStream {
  hs_info : ConnInfo;
  hs_parts : h2_parts;
  hs_chunks : list (result bytes bytes);
  hs_peer : h2_peer;
  hs_phase : stream_phase;
  hs_frames : list h2_frame;
}.

Definition stream_with (st : h2_stream) (ph : stream_phase) (frames : list h2_frame) : h2_stream :=
  mkStream (hs_info st) (hs_parts st) (hs_chunks st) (hs_peer st) ph frames.

(** What the tasks share: the cache and its environment, the program in use, the
    counter of transactions, the buffers, and the listener. *)
Record server : Type := mkServer {
  srv_world : world_t;
  srv_vcl : option Vcl;
  srv_vxid : Z;
  srv_pool : buf_pool;
  srv_tasks : list task;
  srv_streams : list h2_stream;
  srv_accepting : bool;
  srv_running : bool;
}.

Definition srv_set_world (w : world_t) (s : server) : server :=
  mkServer w (srv_vcl s) (srv_vxid s) (srv_pool s) (srv_tasks s) (srv_streams s) (srv_accepting s) (srv_running s).
Definition srv_set_tasks (ts : list task) (s : server) : server :=
  mkServer (srv_world s) (srv_vcl s) (srv_vxid s) (srv_pool s) ts (srv_streams s) (srv_accepting s) (srv_running s).
Definition srv_set_streams (sts : list h2_stream) (s : server) : server :=
  mkServer (srv_world s) (srv_vcl s) (srv_vxid s) (srv_pool s) (srv_tasks s) sts (srv_accepting s) (srv_running s).
Definition srv_set_vcl (v : option Vcl) (s : server) : server :=
  mkServer (srv_world s) v (srv_vxid s) (srv_pool s) (srv_tasks s) (srv_streams s) (srv_accepting s) (srv_running s).
Definition srv_set_vxid (n : Z) (s : server) : server :=
  mkServer (srv_world s) (srv_vcl s) n (srv_pool s) (srv_tasks s) (srv_streams s) (srv_accepting s) (srv_running s).
Definition srv_set_pool (p : buf_pool) (s : server) : server :=
  mkServer (srv_world s) (srv_vcl s) (srv_vxid s) p (srv_tasks s) (srv_streams s) (srv_accepting s) (srv_running s).
Definition srv_stop (accepting running : bool) (s : server) : server :=
  mkServer (srv_world s) (srv_vcl s) (srv_vxid s) (srv_pool s) (srv_tasks s) (srv_streams s) accepting running.

(** [next_vxid] *)
Definition next_vxid (s : server) : Vxid * server :=
  (mkVxid (srv_vxid s), srv_set_vxid (u64_wrap (srv_vxid s + 1)) s).

(** The handler is called: it takes the program in use, a number and the time. *)
Definition begin_request (request : HttpMessage) (body : option bytes) (s : server) : option Vcl * RequestContext * server :=
  let vcl := srv_vcl s in
  let '(vxid, s) := next_vxid s in
  let '(now, e) := env_now (w_env (srv_world s)) in
  (vcl, with_body body (RequestContext_new request vxid now), srv_set_world (mkWorld (w_cache (srv_world s)) e) s).

(** The task reads its next request, with the interim response asked for. *)
Definition read_step (t : task) (s : server) : option (task * server) :=
  match read_request (S (length (tk_rest t))) (tk_rest t) with
  | None => None
  | Some (Fails TransportError.ConnectionClosed) => Some (mkTask (tk_info t) (tk_rest t) (Ended Closed) (tk_written t), s)
  | Some (Fails e) => Some (mkTask (tk_info t) (tk_rest t) (Ended (Failed e)) (tk_written t), s)
  | Some Panics => Some (mkTask (tk_info t) (tk_rest t) (Ended Panicked) (tk_written t), s)
  | Some (Done request rest) =>
      let keepalive := should_keepalive request in
      let '(request, written) :=
        if wants_continue request
        then (HttpMessage_unset_header request (str "Expect"), tk_written t ++ continue_line)
        else (request, tk_written t) in
      match read_body (S (length rest)) request max_body rest with
      | None => None
      | Some (Fails e) => Some (mkTask (tk_info t) rest (Ended (Failed e)) written, s)
      | Some Panics => Some (mkTask (tk_info t) rest (Ended Panicked) written, s)
      | Some (Done body rest) =>
          let '(vcl, ctx, s) := begin_request request body s in
          Some (mkTask (tk_info t) rest (Serving vcl ctx keepalive) written, s)
      end
  end.

(** The pipeline of the task's request takes a step, or its response is written.  A
    panic ends the task alone. *)
Definition serving_step (vcl : option Vcl) (ctx : RequestContext) (keepalive : bool) (t : task) (s : server) : task * server :=
  if decide (r_state ctx = RequestState.Done) then
    let '(response, resp_body) := final_response ctx in
    let '(hdr_buf, pool) := get_buf (srv_pool s) in
    let hdr_buf := head_bytes hdr_buf response resp_body keepalive in
    (mkTask (tk_info t) (tk_rest t) (if keepalive then Reading else Ended Closed)
       (tk_written t ++ hdr_buf ++ default [] resp_body),
     srv_set_pool (put_buf hdr_buf pool) s)
  else
    match serve_step fmt_fixed backend vcl (conn_of (tk_info t)) ctx (srv_world s) with
    | Some (Some ctx, w) => (mkTask (tk_info t) (tk_rest t) (Serving vcl ctx keepalive) (tk_written t), srv_set_world w s)
    | Some (None, w) => (mkTask (tk_info t) (tk_rest t) (Ended Panicked) (tk_written t), srv_set_world w s)
    | None => (mkTask (tk_info t) (tk_rest t) (Ended Panicked) (tk_written t), s)
    end.

Definition task_step (t : task) (s : server) : option (task * server) :=
  match tk_phase t with
  | Reading => read_step t s
  | Serving vcl ctx keepalive => Some (serving_step vcl ctx keepalive t s)
  | Ended _ => Some (t, s)
  end.

(** The stream's task: its body is read and the handler called, the pipeline takes a
    step, or the response is sent. *)
Definition stream_step (st : h2_stream) (s : server) : h2_stream * server :=
  match hs_phase st with
  | StreamReading =>
      match read_h2_body max_body (hs_chunks st) with
      | Err e => (stream_with st (StreamEnded (Err e)) (hs_frames st), s)
      | Ok body =>
          let '(vcl, ctx, s) := begin_request (h2_request_to_message (hs_parts st)) body s in
          (stream_with st (StreamServing vcl ctx) (hs_frames st), s)
      end
  | StreamServing vcl ctx =>
      if decide (r_state ctx = RequestState.Done) then
        let '(response, resp_body) := final_response ctx in
        let '(frames, r) := send_h2_response (hs_peer st) response resp_body in
        (stream_with st (StreamEnded r) (hs_frames st ++ frames), s)
      else
        match serve_step fmt_fixed backend vcl (conn_of (hs_info st)) ctx (srv_world s) with
        | Some (Some ctx, w) => (stream_with st (StreamServing vcl ctx) (hs_frames st), srv_set_world w s)
        | Some (None, w) => (stream_with st StreamPanicked (hs_frames st), srv_set_world w s)
        | None => (stream_with st StreamPanicked (hs_frames st), s)
        end
  | StreamEnded _ | StreamPanicked => (st, s)
  end.

(** A task is run, a connection arrives, one handed over opens a stream, the expiry
    task wakes up, an administrator bans objects or changes the program, the server is
    told to stop, or its time to drain is over. *)
Inductive server_event : Type :=
| Runs (i : nat)
| RunsStream (j : nat)
| Accepts (a : accepted)
| Streams (i : nat) (parts : h2_parts) (chunks : list (result bytes bytes)) (peer : h2_peer)
| Expires
| Bans (expression : bytes) (now : VtimReal)
| UsesVcl (vcl : option Vcl)
| Cancels
| Exits.

(** A connection that opens with HTTP/2's preface is handed over. *)
Definition first_phase (info : ConnInfo) (incoming : bytes) (peeked : nat) : task_phase :=
  if (24 <=? peeked)%nat && bool_decide (take 24 incoming = H2_PREFACE)
  then Ended (HandedToH2 (set_http_version Detected2 info)) else Reading.

(** A task is spawned for the connection. *)
Definition spawn_connection (peer : SocketAddr) (local : option SocketAddr) (incoming : bytes) (peeked : nat)
    (s : server) : server :=
  let info := accept_info config peer local in
  srv_set_tasks (srv_tasks s ++ [mkTask info incoming (first_phase info incoming peeked) []]) s.

(** [serve_single] gives up at the first error, and with it the process. *)
Definition single_accept (a : accepted) (s : server) : server :=
  match a with
  | AcceptOk peer local incoming peeked => spawn_connection peer local incoming peeked s
  | AcceptFails => srv_stop false false s
  end.

(** A listener of [serve_reuseport] goes on. *)
Definition reuseport_accept (a : accepted) (s : server) : server :=
  match a with
  | AcceptOk peer local incoming peeked => spawn_connection peer local incoming peeked s
  | AcceptFails => s
  end.

Definition accept_step (a : accepted) (s : server) : server :=
  if negb (srv_accepting s) then s
  else if 1 <? tc_num_listeners config then reuseport_accept a s else single_accept a s.

Definition expire_step (s : server) : option server :=
  let '(now, e) := env_now (w_env (srv_world s)) in
  '(_, c) ← CacheEngine_expire_objects now (w_cache (srv_world s));
  Some (srv_set_world (mkWorld c e) s).

(** The administration bans on the cache it shares with the requests. *)
Definition ban_step (expression : bytes) (now : VtimReal) (s : server) : server :=
  srv_set_world (mkWorld (CacheEngine_ban expression now (w_cache (srv_world s))).2 (w_env (srv_world s))) s.

(** [None] is a panic of the expiry task, or a loop cut short.  The listener and the
    expiry task end when the server is told to stop; the connections go on until the
    time to drain is over. *)
Definition server_step (s : server) (ev : server_event) : option server :=
  if negb (srv_running s) then Some s
  else
    match ev with
    | Runs i =>
        match srv_tasks s !! i with
        | None => Some s
        | Some t => '(t, s) ← task_step t s; Some (srv_set_tasks (<[i := t]> (srv_tasks s)) s)
        end
    | RunsStream j =>
        match srv_streams s !! j with
        | None => Some s
        | Some st => let '(st, s) := stream_step st s in Some (srv_set_streams (<[j := st]> (srv_streams s)) s)
        end
    | Accepts a => Some (accept_step a s)
    | Streams i parts chunks peer =>
        match tk_phase <$> srv_tasks s !! i with
        | Some (Ended (HandedToH2 info)) =>
            Some (srv_set_streams (srv_streams s ++ [mkStream info parts chunks peer StreamReading []]) s)
        | _ => Some s
        end
    | Expires => if srv_accepting s then expire_step s else Some s
    | Bans expression now => Some (ban_step expression now s)
    | UsesVcl vcl => Some (srv_set_vcl vcl s)
    | Cancels => Some (srv_stop false true s)
    | Exits => Some (if srv_accepting s then s else srv_stop false false s)
    end.

Fixpoint server_run (evs : list server_event) (s : server) : option server :=
  match evs with
  | [] => Some s
  | ev :: evs => s ← server_step s ev; server_run evs s
  end.

Definition server_start (w : world_t) (vcl : option Vcl) : server := mkServer w vcl 1 [] [] [] true true.

End server.


(* ------------------------------------------------------------------ *)
(** ** What a connection's task has done *)

Section transcripts.
  Context {SH SS CacheConfig : Type} `{!HashSlinger SH} `{!Stevedore SS} {regex : RegexLib}.
  Context {env : ServerEnv} {interp : VclInterpreter IpAddr}.
  Context {httparse : Httparse} {http : HttpCrate}.
  Context (fmt_fixed : nat → f64 → bytes) (config : TransportConfig) (backend : option SocketAddr).

Abbreviation world_t := (world (SH := SH) (SS := SS) (CacheConfig := CacheConfig)).
Abbreviation server_t := (server (SH := SH) (SS := SS) (CacheConfig := CacheConfig)).
Abbreviation max_body := (tc_max_body_size config).

(** A state of the pipeline to the next, on a cache whose invariant holds. *)
Definition pipeline_step (info : ConnInfo) (vcl : option Vcl) (ctx ctx' : RequestContext) : Prop :=
  ∃ n (w w' : world_t), eng_ok n (w_cache w) ∧ r_state ctx ≠ RequestState.Done
    ∧ serve_step fmt_fixed backend vcl (conn_of info) ctx w = Some (Some ctx', w').

(** The pipeline's run of a request up to some state. *)
Definition pipeline (info : ConnInfo) (request : HttpMessage) (body : option bytes) (vcl : option Vcl) (ctx : RequestContext) : Prop :=
  ∃ vxid now, rtc (pipeline_step info vcl) (with_body body (RequestContext_new request vxid now)) ctx.

(** The response is the outcome of the request's own pipeline. *)
Definition piped (info : ConnInfo) (i : served) : Prop :=
  ∃ vcl ctx, pipeline info (sv_request i) (sv_body i) vcl ctx
    ∧ r_state ctx = RequestState.Done ∧ final_response ctx = (sv_response i, sv_resp_body i).

(** The request's own pipeline panics, on an oversized answer of the backend. *)
Definition pipe_panics (info : ConnInfo) (request : HttpMessage) (body : option bytes) : Prop :=
  fetch_panics backend
  ∧ ∃ vcl ctx n (w w' : world_t), pipeline info request body vcl ctx ∧ eng_ok n (w_cache w)
      ∧ serve_step fmt_fixed backend vcl (conn_of info) ctx w = Some (None, w').

(** The requests answered on a connection that goes on, read off its bytes in order. *)
Inductive transcript (info : ConnInfo) : bytes → list served → bytes → Prop :=
| transcript_nil s : transcript info s [] s
| transcript_cons s i rest items rest' :
    request_read max_body s i rest → piped info i → sv_keep i = true →
    transcript info rest items rest' → transcript info s (i :: items) rest'.

(** A connection that is over: its bytes yield no further request, the last response
    closed it, the backend's answer to the last request made its pipeline panic, or it
    is HTTP/2's. *)
Inductive finished (info : ConnInfo) : bytes → list served → conn_end → bytes → Prop :=
| finished_stops s items rest e tl :
    transcript info s items rest → conn_stops max_body rest e tl → finished info s items e tl
| finished_closed s items rest i rest' :
    transcript info s items rest → request_read max_body rest i rest' → piped info i → sv_keep i = false →
    finished info s (items ++ [i]) Closed []
| finished_fetch s items rest request r1 body r2 :
    transcript info s items rest → read_request (S (length rest)) rest = Some (Done request r1) →
    read_body (S (length r1)) (handed request) max_body r1 = Some (Done body r2) →
    pipe_panics info (handed request) body → finished info s items Panicked (interim_bytes request)
| finished_h2 s :
    take 24 s = H2_PREFACE → finished info s [] (HandedToH2 (set_http_version Detected2 info)) [].

Lemma transcript_snoc info s items rest i rest' :
  transcript info s items rest → request_read max_body rest i rest' → piped info i → sv_keep i = true →
  transcript info s (items ++ [i]) rest'.
Proof.
  induction 1 as [|s j r items r' Hj Hp Hk _ IH]; intros Hi Hpi Hki; cbn [app];
    (econstructor; [eassumption..|]); [constructor|by apply IH].
Qed.

(** What a task has read and written of the bytes [s]. *)
Definition task_ok (s : bytes) (t : task) : Prop :=
  match tk_phase t with
  | Reading =>
      ∃ items, transcript (tk_info t) s items (tk_rest t) ∧ tk_written t = concat (served_bytes <$> items)
  | Serving vcl ctx keepalive =>
      counters_ok ctx
      ∧ ∃ items r request r1 body,
          transcript (tk_info t) s items r
          ∧ read_request (S (length r)) r = Some (Done request r1)
          ∧ read_body (S (length r1)) (handed request) max_body r1 = Some (Done body (tk_rest t))
          ∧ keepalive = should_keepalive request
          ∧ pipeline (tk_info t) (handed request) body vcl ctx
          ∧ tk_written t = concat (served_bytes <$> items) ++ interim_bytes request
  | Ended e =>
      ∃ items tl, finished (tk_info t) s items e tl ∧ tk_written t = concat (served_bytes <$> items) ++ tl
  end.

(** A program in use does not restart from the lookup. *)
Definition task_calm (t : task) : Prop :=
  match tk_phase t with Serving vcl _ _ => lookup_restarts_not vcl | _ => True end.

(** The steps a task can still take. *)
Definition task_work (t : task) : nat :=
  match tk_phase t with
  | Reading => 31 * length (tk_rest t) + 31
  | Serving _ ctx _ => 31 * length (tk_rest t) + 32 + rounds ctx
  | Ended _ => 0
  end.

(** What a stream's task has done with its request. *)
Definition stream_ok (st : h2_stream) : Prop :=
  match hs_phase st with
  | StreamReading => hs_frames st = []
  | StreamServing vcl ctx =>
      counters_ok ctx ∧ hs_frames st = []
      ∧ ∃ body, read_h2_body max_body (hs_chunks st) = Ok body
                ∧ pipeline (hs_info st) (h2_request_to_message (hs_parts st)) body vcl ctx
  | StreamEnded r =>
      (∃ e, r = Err e ∧ read_h2_body max_body (hs_chunks st) = Err e ∧ hs_frames st = [])
      ∨ ∃ i, read_h2_body max_body (hs_chunks st) = Ok (sv_body i)
             ∧ sv_request i = h2_request_to_message (hs_parts st) ∧ piped (hs_info st) i
             ∧ send_h2_response (hs_peer st) (sv_response i) (sv_resp_body i) = (hs_frames st, r)
  | StreamPanicked =>
      hs_frames st = []
      ∧ ∃ body, read_h2_body max_body (hs_chunks st) = Ok body
                ∧ pipe_panics (hs_info st) (h2_request_to_message (hs_parts st)) body
  end.

Definition stream_calm (st : h2_stream) : Prop :=
  match hs_phase st with StreamServing vcl _ => lookup_restarts_not vcl | _ => True end.

Definition stream_work (st : h2_stream) : nat :=
  match hs_phase st with
  | StreamReading => 31
  | StreamServing _ ctx => S (rounds ctx)
  | StreamEnded _ | StreamPanicked => 0
  end.

(** The same stream, later. *)
Definition same_stream (st st' : h2_stream) : Prop :=
  hs_info st' = hs_info st ∧ hs_parts st' = hs_parts st ∧ hs_chunks st' = hs_chunks st ∧ hs_peer st' = hs_peer st.

Lemma fresh_rounds request body vxid now :
  rounds (with_body body (RequestContext_new request vxid now)) = 29%nat
  ∧ counters_ok (with_body body (RequestContext_new request vxid now)).
Proof. split; [reflexivity|]. unfold counters_ok. cbn. unfold u32_max. lia. Qed.

(** Reading: the task gets a request, whose pipeline starts, or is over. *)
Lemma read_step_ok n s t (sv : server_t) :
  0 ≤ max_body ≤ i64_max → eng_ok n (w_cache (srv_world sv)) →
  tk_phase t = Reading → task_ok s t →
  ∃ t' sv', read_step config t sv = Some (t', sv') ∧ task_ok s t' ∧ tk_info t' = tk_info t
    ∧ (lookup_restarts_not (srv_vcl sv) → task_calm t')
    ∧ (task_work t' < task_work t)%nat ∧ w_cache (srv_world sv') = w_cache (srv_world sv).
Proof.
  intros Hmax Hok Hph Ht. unfold task_ok in Ht. rewrite Hph in Ht. destruct Ht as (items & Htr & Hw).
  unfold read_step, task_work. rewrite Hph.
  destruct (read_request_ended (S (length (tk_rest t))) (tk_rest t) ltac:(lia)) as (o & Eo & _). rewrite Eo.
  destruct o as [request rest|e|].
  2: { destruct e; (eexists _, _; split; [reflexivity|]); cbn; (split_and!; [|done|done|lia|done]); exists items, [];
         rewrite app_nil_r; (split; [|exact Hw]); (eapply finished_stops; [exact Htr|]);
         by (apply stops_closed || apply stops_request). }
  2: { by eapply read_request_panics in Eo. }
  pose proof (read_request_shorter _ _ _ _ Eo) as Hlen.
  set (p := if wants_continue request then _ else _).
  assert (Hp : p = (handed request, concat (served_bytes <$> items) ++ interim_bytes request)).
  { subst p. unfold handed, interim_bytes. rewrite Hw. destruct (wants_continue request); [done|by rewrite app_nil_r]. }
  rewrite Hp. clear p Hp.
  destruct (read_body_ends (S (length rest)) (handed request) max_body rest Hmax ltac:(lia)) as (o & Eb & Ho). rewrite Eb.
  destruct o as [body rest'|e|].
  - destruct (Ho body rest' eq_refl) as [_ [p Hp]]. unfold begin_request, next_vxid.
    destruct (env_now _) as [now e]. eexists _, _. split; [reflexivity|]. cbn [tk_phase tk_rest tk_info srv_world srv_set_world w_cache].
    destruct (fresh_rounds (handed request) body (mkVxid (srv_vxid sv)) now) as [Hr Hc].
    split_and!; [|done|done| |done].
    + split; [exact Hc|]. exists items, (tk_rest t), request, rest, body. split_and!; [done..| |done].
      exists (mkVxid (srv_vxid sv)), now. constructor.
    + rewrite Hr. subst rest. rewrite length_app in Hlen. lia.
  - eexists _, _. split; [reflexivity|]. cbn. split_and!; [|done|done|lia|done]. exists items, (interim_bytes request).
    split; [|done]. eapply finished_stops; [exact Htr|]. by eapply stops_body.
  - eexists _, _. split; [reflexivity|]. cbn. split_and!; [|done|done|lia|done]. exists items, (interim_bytes request).
    split; [|done]. eapply finished_stops; [exact Htr|]. by eapply stops_body_panic.
Qed.

(** A request in the pipeline: it moves on, its response is written, or the backend's
    answer makes it panic. *)
Lemma serving_step_ok n s t vcl ctx keepalive (sv : server_t) :
  eng_ok n (w_cache (srv_world sv)) → n < u64_max → tk_phase t = Serving vcl ctx keepalive → task_ok s t →
  ∃ t' sv', serving_step fmt_fixed backend vcl ctx keepalive t sv = (t', sv')
    ∧ task_ok s t' ∧ tk_info t' = tk_info t
    ∧ (lookup_restarts_not vcl → task_calm t' ∧ (task_work t' < task_work t)%nat)
    ∧ eng_ok (n + 1) (w_cache (srv_world sv')).
Proof.
  intros Hok Hn Hph Ht. unfold task_ok in Ht. rewrite Hph in Ht.
  destruct Ht as (Hc & items & r & request & r1 & body & Htr & Er & Eb & -> & Hpl & Hw).
  unfold serving_step, task_work. rewrite Hph. case_decide as Hd.
  - destruct (final_response ctx) as [response resp_body] eqn:Ef.
    pose proof (get_buf_empty (srv_pool sv)) as Hb. destruct (get_buf (srv_pool sv)) as [hb pool]. simpl in Hb. subst hb.
    set (i := mkServed (handed request) body (wants_continue request) response resp_body (should_keepalive request)).
    assert (Hi : request_read max_body r i (tk_rest t)) by (by exists request, r1).
    assert (Hp : piped (tk_info t) i) by (by exists vcl, ctx).
    assert (Hwi : tk_written t ++ head_bytes [] response resp_body (should_keepalive request) ++ default [] resp_body
                  = concat (served_bytes <$> items ++ [i])).
    { rewrite fmap_app, concat_app. cbn [fmap list_fmap concat]. rewrite app_nil_r, Hw, <- app_assoc. done. }
    eexists _, _. split; [reflexivity|]. split_and!; [|done| |eapply eng_ok_weaken; [|exact Hok]; lia].
    + unfold task_ok. cbn [tk_phase tk_info tk_rest tk_written]. destruct (should_keepalive request) eqn:Ek.
      * exists (items ++ [i]). split; [by eapply transcript_snoc|exact Hwi].
      * exists (items ++ [i]), []. rewrite app_nil_r. split; [by eapply finished_closed|exact Hwi].
    + intros _. unfold task_calm. cbn [tk_phase tk_rest]. destruct (should_keepalive request); (split; [done|lia]).
  - destruct (serve_step_ok fmt_fixed n backend vcl (conn_of (tk_info t)) ctx (srv_world sv) Hok Hn Hc Hd)
      as ([ctx'|] & w' & E & Hok' & Hs); rewrite E; (eexists _, _; split; [reflexivity|]);
      cbn [tk_phase tk_rest tk_info tk_written srv_set_world srv_world].
    + destruct Hs as [Hc' Hlt]. split_and!; [|done|intros Hvcl; specialize (Hlt Hvcl); split; [done|lia]|exact Hok'].
      split; [exact Hc'|]. exists items, r, request, r1, body. split_and!; [done..| |done].
      destruct Hpl as (vxid & now & Hpl). exists vxid, now. eapply rtc_r; [exact Hpl|]. by exists n, (srv_world sv), w'.
    + split_and!; [|done|intros _; split; [done|lia]|exact Hok'].
      exists items, (interim_bytes request). split; [|done]. eapply finished_fetch; [done..|].
      split; [done|]. by exists vcl, ctx, n, (srv_world sv), w'.
Qed.

(** A step of a task keeps what it has done right and, without restarts from the
    lookup, leaves less to do. *)
Lemma task_step_ok n s t (sv : server_t) :
  0 ≤ max_body ≤ i64_max → eng_ok n (w_cache (srv_world sv)) → n < u64_max → task_ok s t →
  ∃ t' sv', task_step fmt_fixed config backend t sv = Some (t', sv') ∧ task_ok s t' ∧ tk_info t' = tk_info t
    ∧ (lookup_restarts_not (srv_vcl sv) → task_calm t → task_calm t' ∧ (task_work t' ≤ task_work t - 1)%nat)
    ∧ eng_ok (n + 1) (w_cache (srv_world sv'))
    ∧ srv_vcl sv' = srv_vcl sv ∧ srv_tasks sv' = srv_tasks sv ∧ srv_streams sv' = srv_streams sv
    ∧ srv_accepting sv' = srv_accepting sv ∧ srv_running sv' = srv_running sv.
Proof.
  intros Hmax Hok Hn Ht. unfold task_step. destruct (tk_phase t) as [|vcl ctx keepalive|e] eqn:Hph.
  - destruct (read_step_ok n s t sv Hmax Hok Hph Ht) as (t' & sv' & E & Ht' & Hi & Hcalm & Hlt & Hc).
    exists t', sv'. rewrite E, Hc. split_and!; [done..| |eapply eng_ok_weaken; [|exact Hok]; lia| | | | |].
    { intros Hv _. split; [by apply Hcalm|lia]. }
    all: revert E; clear; unfold read_step, begin_request, next_vxid; repeat case_match; intros; simplify_eq; reflexivity.
  - destruct (serving_step_ok n s t vcl ctx keepalive sv Hok Hn Hph Ht) as (t' & sv' & E & Ht' & Hi & Hlt & Hok').
    exists t', sv'. rewrite E. split_and!; [done..| |done| | | | |].
    { intros _ Hv. unfold task_calm in Hv. rewrite Hph in Hv. destruct (Hlt Hv). split; [done|lia]. }
    all: revert E; clear; unfold serving_step; repeat case_match; intros; simplify_eq; reflexivity.
  - exists t, sv. split_and!; try done; [|eapply eng_ok_weaken; [|exact Hok]; lia]. intros _ Hv. unfold task_work. by rewrite Hph.
Qed.

Lemma stream_step_ok n st (sv : server_t) :
  eng_ok n (w_cache (srv_world sv)) → n < u64_max → stream_ok st →
  ∃ st' sv', stream_step fmt_fixed config backend st sv = (st', sv') ∧ stream_ok st' ∧ same_stream st st'
    ∧ (lookup_restarts_not (srv_vcl sv) → stream_calm st → stream_calm st' ∧ (stream_work st' ≤ stream_work st - 1)%nat)
    ∧ eng_ok (n + 1) (w_cache (srv_world sv'))
    ∧ srv_vcl sv' = srv_vcl sv ∧ srv_tasks sv' = srv_tasks sv ∧ srv_streams sv' = srv_streams sv
    ∧ srv_accepting sv' = srv_accepting sv ∧ srv_running sv' = srv_running sv.
Proof.
  intros Hok Hn Ht. assert (Hok1 : eng_ok (n + 1) (w_cache (srv_world sv))) by (eapply eng_ok_weaken; [|exact Hok]; lia).
  unfold stream_ok in Ht. unfold stream_step, stream_work, stream_calm. destruct (hs_phase st) as [|vcl ctx|r|] eqn:Hph.
  - destruct (read_h2_body max_body (hs_chunks st)) as [body|e] eqn:Eb.
    + unfold begin_request, next_vxid. destruct (env_now _) as [now e]. eexists _, _. split; [reflexivity|].
      destruct (fresh_rounds (h2_request_to_message (hs_parts st)) body (mkVxid (srv_vxid sv)) now) as [Hr Hc].
      split; [|cbn; by split_and!]. split; [exact Hc|]. split; [exact Ht|].
      exists body. split; [exact Eb|]. exists (mkVxid (srv_vxid sv)), now. constructor.
    + eexists _, _. split; [reflexivity|]. split; [|cbn; split_and!; done || (intros; split; [done|lia])]. left. by exists e.
  - destruct Ht as (Hc & Hfr & body & Eb & Hpl). case_decide as Hd.
    + destruct (final_response ctx) as [response resp_body] eqn:Ef.
      destruct (send_h2_response (hs_peer st) response resp_body) as [frames r] eqn:Es. eexists _, _. split; [reflexivity|].
      split; [|cbn; split_and!; done || (intros; split; [done|lia])]. right.
      exists (mkServed (h2_request_to_message (hs_parts st)) body false response resp_body false). rewrite Hfr. cbn.
      split_and!; [done..| |done]. by exists vcl, ctx.
    + destruct (serve_step_ok fmt_fixed n backend vcl (conn_of (hs_info st)) ctx (srv_world sv) Hok Hn Hc Hd)
        as ([ctx'|] & w' & E & Hok' & Hs); rewrite E; (eexists _, _; split; [reflexivity|]);
        (split; [|cbn [stream_with hs_phase srv_world srv_set_world]; split_and!; try done]).
      * destruct Hs as [Hc' _]. split; [exact Hc'|]. split; [exact Hfr|]. exists body. split; [exact Eb|].
        destruct Hpl as (vxid & now & Hpl). exists vxid, now. eapply rtc_r; [exact Hpl|]. by exists n, (srv_world sv), w'.
      * intros _ Hv. destruct Hs as [_ Hlt]. specialize (Hlt Hv). split; [done|lia].
      * split; [exact Hfr|]. exists body. split; [exact Eb|]. split; [done|]. by exists vcl, ctx, n, (srv_world sv), w'.
      * intros _ _. split; [done|lia].
  - exists st, sv. split; [done|]. split; [unfold stream_ok; by rewrite Hph|]. rewrite Hph. split_and!; done || (intros; split; [done|lia]).
  - exists st, sv. split; [done|]. split; [unfold stream_ok; by rewrite Hph|]. rewrite Hph. split_and!; done || (intros; split; [done|lia]).
Qed.
End transcripts.

(* ------------------------------------------------------------------ *)
(** ** Any interleaving *)

Section interleavings.
  Context {SH SS CacheConfig : Type} `{!HashSlinger SH} `{!Stevedore SS} {regex : RegexLib}.
  Context {env : ServerEnv} {interp : VclInterpreter IpAddr}.
  Context {httparse : Httparse} {http : HttpCrate}.
  Context (fmt_fixed : nat → f64 → bytes) (config : TransportConfig) (backend : option SocketAddr).

Abbreviation world_t := (world (SH := SH) (SS := SS) (CacheConfig := CacheConfig)).
Abbreviation server_t := (server (SH := SH) (SS := SS) (CacheConfig := CacheConfig)).
Abbreviation max_body := (tc_max_body_size config).
Abbreviation stream_good := (stream_ok (SH := SH) (SS := SS) (CacheConfig := CacheConfig) fmt_fixed config backend).
Abbreviation ok_for := (task_ok (SH := SH) (SS := SS) (CacheConfig := CacheConfig) fmt_fixed config backend).

(** The connections accepted, each with the bytes its peer sends. *)
Fixpoint arrivals (accepting : bool) (evs : list server_event) : list (ConnInfo * bytes) :=
  match evs with
  | [] => []
  | Accepts (AcceptOk peer local incoming _) :: evs =>
      if accepting then (accept_info config peer local, incoming) :: arrivals true evs else arrivals false evs
  | Accepts AcceptFails :: evs =>
      if accepting then if 1 <? tc_num_listeners config then arrivals true evs else [] else arrivals false evs
  | Cancels :: evs => arrivals false evs
  | _ :: evs => arrivals accepting evs
  end.

(** How often a task is run. *)
Fixpoint runs_of (i : nat) (evs : list server_event) : nat :=
  match evs with
  | [] => 0
  | Runs j :: evs => if decide (j = i) then S (runs_of i evs) else runs_of i evs
  | _ :: evs => runs_of i evs
  end.

Fixpoint stream_runs_of (j : nat) (evs : list server_event) : nat :=
  match evs with
  | [] => 0
  | RunsStream k :: evs => if decide (k = j) then S (stream_runs_of j evs) else stream_runs_of j evs
  | _ :: evs => stream_runs_of j evs
  end.

(** The programs put in use do not restart from the lookup. *)
Definition programs_ok (evs : list server_event) : Prop :=
  Forall (λ ev, match ev with UsesVcl v => lookup_restarts_not v | _ => True end) evs.

Definition started (a : ConnInfo * bytes) (t : task) : Prop := tk_info t = a.1 ∧ ok_for a.2 t.

(** The server's invariant: the cache's own, and every task has done what its bytes ask. *)
Definition server_inv (n : Z) (conns : list (ConnInfo * bytes)) (s : server_t) : Prop :=
  eng_ok n (w_cache (srv_world s)) ∧ Forall2 started conns (srv_tasks s) ∧ Forall stream_good (srv_streams s).

(** No program in use restarts from the lookup; the work of the tasks is bounded. *)
Definition bounded_work (a : ConnInfo * bytes) (t : task) : Prop :=
  task_calm t ∧ (task_work t ≤ 31 * (length a.2 + 1))%nat.
Definition bounded_stream (st : h2_stream) : Prop := stream_calm st ∧ (stream_work st ≤ 31)%nat.
Definition server_calm (conns : list (ConnInfo * bytes)) (s : server_t) : Prop :=
  lookup_restarts_not (srv_vcl s) ∧ Forall2 bounded_work conns (srv_tasks s) ∧ Forall bounded_stream (srv_streams s).

Abbreviation step := (server_step fmt_fixed config backend).
Abbreviation run := (server_run fmt_fixed config backend).

(** The remaining work of the tasks and of the streams after events. *)
Definition less_work (evs : list server_event) (s s' : server_t) : Prop :=
  (∀ i t, srv_tasks s !! i = Some t →
    ∃ t', srv_tasks s' !! i = Some t' ∧ (task_work t' ≤ task_work t - runs_of i evs)%nat)
  ∧ (∀ j st, srv_streams s !! j = Some st →
    ∃ st', srv_streams s' !! j = Some st' ∧ same_stream st st' ∧ (stream_work st' ≤ stream_work st - stream_runs_of j evs)%nat).

Lemma less_work_nil s : less_work [] s s.
Proof. split; intros k x Hx; exists x; cbn; split_and!; try done; lia. Qed.

Lemma less_work_cons ev evs s s1 s' : less_work [ev] s s1 → less_work evs s1 s' → less_work (ev :: evs) s s'.
Proof.
  intros [Ht Hs] [Ht' Hs']. split; intros k x Hx.
  - destruct (Ht k x Hx) as (y & Hy & Hle). destruct (Ht' k y Hy) as (z & Hz & Hle'). exists z. split; [done|].
    destruct ev as [j| | | | | | | |]; cbn [runs_of] in *; try lia. destruct (decide (j = k)); lia.
  - destruct (Hs k x Hx) as (y & Hy & (? & ? & ? & ?) & Hle). destruct (Hs' k y Hy) as (z & Hz & (? & ? & ? & ?) & Hle').
    exists z. split; [done|]. split; [unfold same_stream; split_and!; congruence|].
    destruct ev as [|j| | | | | | |]; cbn [stream_runs_of] in *; try lia. destruct (decide (j = k)); lia.
Qed.

(** Events that run nothing, and leave the tasks and streams there are. *)
Lemma same_work ev (s s' : server_t) :
  (∀ i, ev ≠ Runs i ∧ ev ≠ RunsStream i) →
  (∃ ts, srv_tasks s' = srv_tasks s ++ ts) → (∃ sts, srv_streams s' = srv_streams s ++ sts) → less_work [ev] s s'.
Proof.
  intros He [ts Hts] [sts Hsts]. split; intros i t Ht; exists t; rewrite ?Hts, ?Hsts, lookup_app_l by (by eapply lookup_lt_Some).
  - split; [done|]. destruct ev as [j| | | | | | | |]; cbn [runs_of]; try lia. by destruct (He j).
  - split; [done|]. split; [done|]. destruct ev as [|j| | | | | | |]; cbn [stream_runs_of]; try lia. by destruct (He j).
Qed.

(** After an event: the invariant with the connections that came and, when no program
    restarts from the lookup, the tasks' work. *)
Definition step_ok (n : Z) (conns : list (ConnInfo * bytes)) (ev : server_event) (evs : list server_event) (s : server_t) : Prop :=
  ∃ s' new, step s ev = Some s' ∧ server_inv (n + 1) (conns ++ new) s'
    ∧ arrivals (srv_accepting s) (ev :: evs) = new ++ (if srv_running s' then arrivals (srv_accepting s') evs else [])
    ∧ (programs_ok [ev] → server_calm conns s → server_calm (conns ++ new) s' ∧ less_work [ev] s s').

Lemma runs_step_ok n conns i evs (s : server_t) :
  0 ≤ max_body ≤ i64_max → server_inv n conns s → n < u64_max → srv_running s = true → step_ok n conns (Runs i) evs s.
Proof.
  intros Hmax (Hok & HF & HS) Hn Hrun. unfold step_ok, server_step. rewrite Hrun. cbn [negb].
  destruct (srv_tasks s !! i) as [t|] eqn:Et.
  - destruct (Forall2_lookup_r _ _ _ _ _ HF Et) as (a & Ha & Hi & Hta).
    destruct (task_step_ok fmt_fixed config backend n a.2 t s Hmax Hok Hn Hta)
      as (t' & s1 & E & Ht' & Hi' & Hw & Hok' & Hv & Hts & Hst & Hac & Hru).
    rewrite E. cbn [mbind option_bind]. eexists _, []. rewrite app_nil_r. split; [reflexivity|].
    cbn [srv_set_tasks srv_tasks srv_world srv_vcl srv_accepting srv_running app]. rewrite Hru, Hrun, Hac.
    split; [split_and!; cbn; [done| |by rewrite Hst]|split; [done|]].
    + rewrite Hts, <- (list_insert_id conns i a Ha). apply Forall2_insert; [done|]. split; [by rewrite Hi'|done].
    + intros _ (Hvcl & HB & HBS). destruct (Forall2_lookup_lr _ _ _ _ _ _ HB Ha Et) as [Hca Hwa].
      destruct (Hw Hvcl Hca) as [Hca' Hle]. split; [|split].
      * split_and!; cbn; [by rewrite Hv| |by rewrite Hst]. rewrite Hts, <- (list_insert_id conns i a Ha).
        apply Forall2_insert; [done|]. split; [done|lia].
      * intros j u Hu. cbn. rewrite Hts. destruct (decide (j = i)) as [->|Hne].
        -- rewrite list_lookup_insert_eq by (by eapply lookup_lt_Some). eexists. split; [done|].
           simplify_eq. cbn [runs_of]. rewrite decide_True by done. exact Hle.
        -- rewrite list_lookup_insert_ne by done. exists u. split; [done|]. cbn [runs_of].
           rewrite decide_False by done. lia.
      * intros j u Hu. cbn. rewrite Hst. exists u. split_and!; try done. lia.
  - exists s, []. rewrite app_nil_r, Hrun. split; [done|]. split; [split_and!; [eapply eng_ok_weaken; [|exact Hok]; lia|done..]|].
    split; [done|]. intros _ Hcalm. split; [done|].
    split; intros j u Hu; exists u; [|split_and!; [done..|cbn; lia]]. split; [done|]. cbn [runs_of]. rewrite decide_False; [lia|congruence].
Qed.

Lemma runs_stream_ok n conns i evs (s : server_t) :
  server_inv n conns s → n < u64_max → srv_running s = true → step_ok n conns (RunsStream i) evs s.
Proof.
  intros (Hok & HF & HS) Hn Hrun. unfold step_ok, server_step. rewrite Hrun. cbn [negb].
  destruct (srv_streams s !! i) as [st|] eqn:Et.
  - destruct (stream_step_ok fmt_fixed config backend n st s Hok Hn (Forall_lookup_1 _ _ _ _ HS Et))
      as (st' & s1 & E & Ht' & Hi' & Hw & Hok' & Hv & Hts & Hst & Hac & Hru).
    rewrite E. eexists _, []. rewrite app_nil_r. split; [reflexivity|].
    cbn [srv_set_streams srv_streams srv_tasks srv_world srv_vcl srv_accepting srv_running app]. rewrite Hru, Hrun, Hac.
    split; [split_and!; cbn; [done|by rewrite Hts|rewrite Hst; by apply Forall_insert]|split; [done|]].
    intros _ (Hvcl & HB & HBS). destruct (Forall_lookup_1 _ _ _ _ HBS Et) as [Hca Hwa].
    destruct (Hw Hvcl Hca) as [Hca' Hle]. split; [|split].
    + split_and!; cbn; [by rewrite Hv|by rewrite Hts|]. rewrite Hst. apply Forall_insert; [done|]. split; [done|lia].
    + intros j u Hu. cbn. rewrite Hts. exists u. split_and!; try done. lia.
    + intros j u Hu. cbn. rewrite Hst. destruct (decide (j = i)) as [->|Hne].
      * rewrite list_lookup_insert_eq by (by eapply lookup_lt_Some). eexists. split; [done|].
        simplify_eq. cbn [stream_runs_of]. rewrite decide_True by done. split; [done|exact Hle].
      * rewrite list_lookup_insert_ne by done. exists u. split; [done|]. cbn [stream_runs_of].
        rewrite decide_False by done. split; [done|lia].
  - exists s, []. rewrite app_nil_r, Hrun. split; [done|]. split; [split_and!; [eapply eng_ok_weaken; [|exact Hok]; lia|done..]|].
    split; [done|]. intros _ Hcalm. split; [done|].
    split; intros j u Hu; exists u; [split_and!; [done..|cbn; lia]|]. split; [done|]. split; [done|].
    cbn [stream_runs_of]. rewrite decide_False; [lia|congruence].
Qed.

Lemma arrivals_false evs : arrivals false evs = [].
Proof. induction evs as [|[| | [] | | | | | |] evs IH]; done. Qed.

(** An event that leaves the tasks alone. *)
Lemma quiet_step_ok n conns ev evs (s s' : server_t) :
  (∀ i, ev ≠ Runs i ∧ ev ≠ RunsStream i) → step s ev = Some s' → srv_tasks s' = srv_tasks s → srv_streams s' = srv_streams s →
  eng_ok (n + 1) (w_cache (srv_world s')) → server_inv n conns s →
  (programs_ok [ev] → lookup_restarts_not (srv_vcl s) → lookup_restarts_not (srv_vcl s')) →
  arrivals (srv_accepting s) (ev :: evs) = (if srv_running s' then arrivals (srv_accepting s') evs else []) →
  step_ok n conns ev evs s.
Proof.
  intros He E Hts Hst Hok (_ & HF & HS) Hvcl Ha. exists s', []. rewrite app_nil_r. split; [done|].
  split; [split_and!; [done|by rewrite Hts|by rewrite Hst]|]. split; [done|].
  intros Hp (Hv & HB & HBS). split; [split_and!; [by apply Hvcl|by rewrite Hts|by rewrite Hst]|].
  apply same_work; [done|..]; exists []; by rewrite ?Hts, ?Hst, app_nil_r.
Qed.

(** The task of a connection that has just arrived. *)
Lemma first_phase_ok info incoming peeked :
  ok_for incoming (mkTask info incoming (first_phase info incoming peeked) [])
  ∧ bounded_work (info, incoming) (mkTask info incoming (first_phase info incoming peeked) []).
Proof.
  unfold first_phase, bounded_work, task_calm. destruct ((24 <=? peeked)%nat && _) eqn:E; cbn.
  - split; [|split; [done|lia]]. exists [], []. split; [|done]. apply andb_true_iff in E as [_ E%bool_decide_eq_true]. by constructor.
  - split; [|split; [done|lia]]. exists []. split; [constructor|done].
Qed.

Lemma accepts_step_ok n conns a evs (s : server_t) :
  server_inv n conns s → srv_running s = true → step_ok n conns (Accepts a) evs s.
Proof.
  intros Hinv Hrun. pose proof Hinv as (Hok & HF & HS).
  assert (Hok1 : eng_ok (n + 1) (w_cache (srv_world s))) by (eapply eng_ok_weaken; [|exact Hok]; lia).
  destruct (srv_accepting s) eqn:Eac.
  2: { apply (quiet_step_ok n conns _ _ s s); try done; [unfold server_step, accept_step; by rewrite Hrun, Eac|].
       rewrite Hrun, Eac. cbn [arrivals]. by destruct a; rewrite ?arrivals_false. }
  destruct a as [peer local incoming peeked|].
  - assert (E : accept_step config (AcceptOk peer local incoming peeked) s = spawn_connection config peer local incoming peeked s)
      by (unfold accept_step; rewrite Eac; cbn [negb]; by case_match).
    exists (spawn_connection config peer local incoming peeked s), [(accept_info config peer local, incoming)].
    unfold server_step. rewrite Hrun, E. cbn [negb]. split; [done|].
    destruct (first_phase_ok (accept_info config peer local) incoming peeked) as [Hf Hb].
    split; [split_and!; cbn; [done| |done]|split; [cbn; by rewrite Hrun, Eac|]].
    { apply Forall2_app; [done|]. by apply Forall2_cons. }
    intros _ (Hv & HB & HBS). split; [split_and!; cbn; [done| |done]|apply same_work; [done|by eexists|exists []; by rewrite app_nil_r]].
    apply Forall2_app; [done|]. by apply Forall2_cons.
  - apply (quiet_step_ok n conns _ _ s (accept_step config AcceptFails s)); try done; [unfold server_step; by rewrite Hrun|..].
    all: unfold accept_step; rewrite Eac; cbn [negb arrivals]; destruct (1 <? tc_num_listeners config); try done.
    cbn. by rewrite Hrun, Eac.
Qed.

Lemma opens_step_ok n conns i parts chunks peer evs (s : server_t) :
  server_inv n conns s → srv_running s = true → step_ok n conns (Streams i parts chunks peer) evs s.
Proof.
  intros Hinv Hrun. pose proof Hinv as (Hok & HF & HS).
  assert (Hok1 : eng_ok (n + 1) (w_cache (srv_world s))) by (eapply eng_ok_weaken; [|exact Hok]; lia).
  destruct (tk_phase <$> srv_tasks s !! i) as [[| |[| | |info]]|] eqn:Ep.
  6: { eexists _, []. unfold server_step. rewrite Hrun, Ep, app_nil_r. cbn [negb]. split; [reflexivity|].
       split; [split_and!; cbn; [done..|]; apply Forall_app; split; [done|by repeat constructor]|].
       split; [cbn; by rewrite Hrun|]. intros _ (Hv & HB & HBS).
       split; [|apply same_work; [done|exists []; by rewrite app_nil_r|by eexists]]. split_and!; cbn; [done..|].
       apply Forall_app. split; [done|]. constructor; [|constructor]. split; [done|cbn; lia]. }
  all: apply (quiet_step_ok n conns _ _ s s); try done; [unfold server_step; by rewrite Hrun, Ep|by rewrite Hrun].
Qed.

(** Every event keeps the invariant. *)
Lemma server_step_ok n conns ev evs (s : server_t) :
  0 ≤ max_body ≤ i64_max → server_inv n conns s → n < u64_max → srv_running s = true → step_ok n conns ev evs s.
Proof.
  intros Hmax Hinv Hn Hrun. pose proof Hinv as (Hok & HF & HS).
  assert (Hok1 : eng_ok (n + 1) (w_cache (srv_world s))) by (eapply eng_ok_weaken; [|exact Hok]; lia).
  destruct ev as [i|j|a|i parts chunks peer| |ex now|v| |].
  - by apply runs_step_ok.
  - by apply runs_stream_ok.
  - by apply accepts_step_ok.
  - by apply opens_step_ok.
  - destruct (srv_accepting s) eqn:Eac.
    2: { apply (quiet_step_ok n conns _ _ s s); try done; [unfold server_step; by rewrite Hrun, Eac|by rewrite Hrun, Eac]. }
    destruct (env_now (w_env (srv_world s))) as [now e] eqn:En.
    destruct (expire_objects_ok n (w_cache (srv_world s)) now Hok) as (c & e' & E & Hok' & _).
    apply (quiet_step_ok n conns _ _ s (srv_set_world (mkWorld e' e) s)); try done; [| |cbn; by rewrite Hrun].
    + unfold server_step, expire_step. by rewrite Hrun, Eac, En, E.
    + eapply eng_ok_weaken; [|exact Hok']. lia.
  - destruct (engine_exec_ok fmt_fixed n (EBan ex now) (w_cache (srv_world s)) Hok Hn) as (c & [= Ec] & Hok' & _).
    apply (quiet_step_ok n conns _ _ s (ban_step ex now s)); try done; [unfold server_step; by rewrite Hrun| |cbn; by rewrite Hrun].
    cbn. by rewrite Ec.
  - apply (quiet_step_ok n conns _ _ s (srv_set_vcl v s)); try done; [unfold server_step; by rewrite Hrun| |cbn; by rewrite Hrun].
    intros Hp _. by apply Forall_cons in Hp as [? _].
  - apply (quiet_step_ok n conns _ _ s (srv_stop false true s)); try done; unfold server_step; by rewrite Hrun.
  - apply (quiet_step_ok n conns _ _ s (if srv_accepting s then s else srv_stop false false s)); try done.
    + unfold server_step. by rewrite Hrun.
    + by destruct (srv_accepting s).
    + by destruct (srv_accepting s).
    + by destruct (srv_accepting s).
    + by destruct (srv_accepting s).
    + destruct (srv_accepting s) eqn:Eac; cbn; [by rewrite Hrun, Eac|apply arrivals_false].
Qed.

Lemma server_halted evs (s : server_t) : srv_running s = false → run evs s = Some s.
Proof. intros Hr. induction evs as [|ev evs IH]; [done|]. cbn [server_run]. unfold server_step. rewrite Hr. exact IH. Qed.

Lemma server_run_app evs1 evs2 (s : server_t) : run (evs1 ++ evs2) s = s1 ← run evs1 s; run evs2 s1.
Proof.
  revert s. induction evs1 as [|ev evs1 IH]; intros s; cbn [app server_run]; [done|].
  destruct (step s ev) as [s1|]; [apply IH|done].
Qed.

(** Every run of events keeps the invariant; without restarts from the lookup, it does
    the tasks' work. *)
Lemma server_run_ok evs : ∀ n conns (s : server_t),
  0 ≤ max_body ≤ i64_max → server_inv n conns s → n + Z.of_nat (length evs) ≤ u64_max → srv_running s = true →
  ∃ s', run evs s = Some s'
    ∧ server_inv (n + Z.of_nat (length evs)) (conns ++ arrivals (srv_accepting s) evs) s'
    ∧ (programs_ok evs → server_calm conns s →
       server_calm (conns ++ arrivals (srv_accepting s) evs) s' ∧ (srv_running s' = true → less_work evs s s')).
Proof.
  induction evs as [|ev evs IH]; intros n conns s Hmax Hinv Hn Hrun.
  { exists s. cbn [length arrivals]. rewrite Z.add_0_r, app_nil_r. split_and!; [done..|]. intros _ Hc. split; [done|]. intros _. apply less_work_nil. }
  cbn [length] in Hn. destruct (server_step_ok n conns ev evs s Hmax Hinv ltac:(lia) Hrun) as (s1 & new & E & Hinv1 & Ha & Hw).
  cbn [server_run]. rewrite E, Ha. cbn [mbind option_bind length].
  destruct (srv_running s1) eqn:Er.
  - destruct (IH (n + 1) (conns ++ new) s1 Hmax Hinv1 ltac:(lia) Er) as (s' & E' & Hinv' & Hw').
    exists s'. rewrite app_assoc. replace (n + Z.of_nat (S (length evs))) with (n + 1 + Z.of_nat (length evs)) by lia.
    split_and!; [done..|]. intros [Hp1 Hp]%Forall_cons Hc. destruct (Hw ltac:(by repeat constructor) Hc) as [Hc1 Hw1].
    destruct (Hw' Hp Hc1) as [Hc' Hw2]. split; [done|]. intros Hr'. eapply less_work_cons; [exact Hw1|by apply Hw2].
  - rewrite (server_halted evs s1 Er). exists s1. rewrite app_nil_r. split; [done|]. split.
    { destruct Hinv1 as (Hok & Hrest). split; [|exact Hrest]. eapply eng_ok_weaken; [|exact Hok]. lia. }
    intros [Hp1 Hp]%Forall_cons Hc. destruct (Hw ltac:(by repeat constructor) Hc) as [Hc1 _]. split; [done|congruence].
Qed.

Lemma server_start_inv n (w : world_t) vcl : reachable_in fmt_fixed n (w_cache w) → server_inv n [] (server_start w vcl).
Proof. intros Hr. split; [by eapply reachable_in_ok|]. split; constructor. Qed.

Lemma server_start_calm (w : world_t) vcl : lookup_restarts_not vcl → server_calm [] (server_start w vcl).
Proof. intros Hv. split; [done|]. split; constructor. Qed.



End interleavings.

(* ------------------------------------------------------------------ *)
(** ** Three connections *)

Definition sample_config : TransportConfig := run_transport_config (mkSocketAddr (V4 2) 80).
Definition two_gets : bytes := str "GET /" ++ [x0d; x0a; x0d; x0a] ++ str "GET /" ++ [x0d; x0a; x0d; x0a].

#[local] Existing Instance sample_env.
#[local] Existing Instance sample_interp.

(** One peer asks twice, another closes at once, a third opens a stream of HTTP/2; an
    expiry cycle runs in between. *)
Definition sample_events : list (server_event (interp := sample_interp)) :=
  [Accepts (AcceptOk (mkSocketAddr (V4 1) 4000) None two_gets 18); Runs 0; Runs 0;
   Accepts (AcceptOk (mkSocketAddr (V4 3) 4001) None [] 0); Expires; Bans (str "req.url ~ x") (f64_of_Z 1001); UsesVcl None; Runs 0;
   Accepts (AcceptOk (mkSocketAddr (V4 5) 4002) None (H2_PREFACE ++ str "...") 27);
   Streams 2 sample_parts [Ok (str "he"); Ok (str "llo")] (mkPeer (Ok tt) (Ok tt))].

Abbreviation sample_server_run :=
  (server_run (Stevedore0 := server_stevedore) (regex := substring_regex) (env := sample_env) (interp := sample_interp) (httparse := get_parser)
     (http := plain_http) sample_fmt sample_config (Some sample_addr)).

Abbreviation sample_start := (server_start (env := sample_env) (interp := sample_interp) sample_world None).

(** The first request is a miss, the second is served from the cache. *)
Example two_gets_written :
  (λ s, tk_written <$> srv_tasks s) <$> sample_server_run (sample_events ++ replicate 40 (Runs 0)) sample_start
  = Some [str "HTTP/1.1 200 OK" ++ [x0d; x0a] ++ str "X-Cache: MISS" ++ [x0d; x0a]
          ++ str "Cache-Control: no-store, private" ++ [x0d; x0a] ++ str "Content-Length: 5" ++ [x0d; x0a; x0d; x0a] ++ str "hello"
          ++ str "HTTP/1.1 200 OK" ++ [x0d; x0a] ++ str "X-Cache: HIT" ++ [x0d; x0a]
          ++ str "Content-Length: 5" ++ [x0d; x0a; x0d; x0a] ++ str "hello"; []; []].
Proof. vm_compute. reflexivity. Qed.

Lemma sample_max_body : 0 ≤ tc_max_body_size sample_config ≤ i64_max.
Proof. unfold i64_max. cbn. lia. Qed.


(** The server after the events, for the connection of two requests. *)
Definition sample_end : server (env := sample_env) (interp := sample_interp) :=
  default sample_start (sample_server_run (sample_events ++ replicate 600 (Runs 0)) sample_start).


Example stream_frames :
  (λ s, hs_frames <$> srv_streams s) <$> sample_server_run (sample_events ++ replicate 31 (RunsStream 0)) sample_start
  = Some [[HeadersFrame 200 [(str "x-cache", str "MISS"); (str "cache-control", str "no-store, private"); (str "content-length", str "5")] false;
           DataFrame (str "hello") true]].
Proof. vm_compute. reflexivity. Qed.

Definition sample_opened : server (env := sample_env) (interp := sample_interp) :=
  default sample_start (sample_server_run sample_events sample_start).
Definition sample_streamed : server (env := sample_env) (interp := sample_interp) :=
  default sample_start (sample_server_run (replicate 31 (RunsStream 0)) sample_opened).
Definition sample_stream_of : h2_stream (interp := sample_interp) :=
  mkStream (set_http_version Detected2 (accept_info sample_config (mkSocketAddr (V4 5) 4002) None)) sample_parts
    [Ok (str "he"); Ok (str "llo")] (mkPeer (Ok tt) (Ok tt)) StreamReading [].

Lemma sample_stream_opened : srv_streams sample_opened !! 0%nat = Some sample_stream_of.
Proof. vm_cast_no_check (eq_refl (Some sample_stream_of)). Qed.


(* ------------------------------------------------------------------ *)
(** ** The administrator's commands are such events *)

Section administrator.
  Context {SH SS Cfg Ip : Type} {corefmt : CoreFmt} {regex : RegexLib}.
  Context (fmt_fixed : nat → f64 → bytes) (Regex_as_str : Regex → bytes).

(** A command leaves the cache alone or bans on it, and leaves the program in use or
    puts one in its place. *)
Lemma admin_command_effects now cmd (x : AdminContext (Ip := Ip) (C := CacheEngine (SH := SH) (SS := SS) (CacheConfig := Cfg))) r x' :
  handle_command fmt_fixed Regex_as_str now cmd x = Some (r, x') →
  (ad_cache x' = ad_cache x ∨ ∃ expression, ad_cache x' = (CacheEngine_ban expression (ck_real now) (ad_cache x)).2)
  ∧ (ad_active_vcl x' = ad_active_vcl x ∨ ∃ program, ad_active_vcl x' = Some (Some program)).
Proof.
  unfold handle_command. destruct (LogWriter_log _ _ _ _ _) as [log|]; [|done]. cbn [mbind option_bind].
  destruct cmd as [name source|name| |name|expression| |p|p v| |be h| | | | | |tags]; try (intros [= <- <-]; split; by left).
  - unfold handle_vcl_load. destruct (VclManager_load _ _ _ _) as [[? m]|]; cbn; [|done]. intros [= <- <-]. split; by left.
  - unfold handle_vcl_use. destruct (VclManager_use_program _ _) as [[i|e] m]; cbn; intros [= <- <-]; [|split; by left].
    destruct (ad_active_vcl x) eqn:E; cbn; (split; [by left|]); [right; by eexists|by left].
  - unfold handle_vcl_discard. destruct (VclManager_discard _ _). intros [= <- <-]. split; by left.
  - unfold handle_ban. cbn. destruct (CacheEngine_ban _ _ _) as [[u|e] c] eqn:E; intros [= <- <-]; cbn;
      (split; [right; exists expression; by rewrite E|by left]).
  - unfold handle_param_set. destruct (set_param_value _ _ _); intros [= <- <-]; split; by left.
  - unfold handle_stop. destruct (ad_running _); intros [= <- <-]; split; by left.
  - unfold handle_start. destruct (ad_running _); intros [= <- <-]; split; by left.
  - destruct (handle_log_stream _ _ _); cbn; [|done]. intros [= <- <-]. split; by left.
Qed.
End administrator.
