(* ===== verification/Fleet.v ===== *)
(** * The fleet client

    Models [rv-server/src/fleet.rs]: its settings from the environment, the state it
    keeps on disk, registration with the control plane, the heartbeats and the
    messages the control plane pushes.  The state file is replaced by renaming; what
    a crash leaves is written out.  The receiving loop and the heartbeat task share
    two channels and interleave.  The gRPC and HTTP services, the file system's
    outcomes and serde's JSON are arguments. *)

From S2P Require Import Prelude RustStr F64 Enums Types Stevedore Ban RingLog HashSlinger Engine Http1 AdminHandler.
Local Open Scope Z_scope.

Record FleetConfig : Set := mkFleetConfig {
  fc_control_plane_url : bytes;
  fc_grpc_addr : bytes;
  fc_hostname : bytes;
  fc_region : bytes;
  fc_pop : bytes;
  fc_heartbeat_interval : Z;
  fc_state_dir : bytes;
}.

(** [FleetConfig::from_env]; [var] is [std::env::var], the interval is in seconds. *)
Definition FleetConfig_from_env (var : bytes → option bytes) (hostname_get : option bytes) : option FleetConfig :=
  grpc_addr ← var (str "GRPC_ADDR");
  control_plane_url ← var (str "CONTROL_PLANE_URL");
  let hostname :=
    match var (str "RV_HOSTNAME") with
    | Some h => h
    | None => default (str "unknown") hostname_get
    end in
  Some (mkFleetConfig control_plane_url grpc_addr hostname
          (default (str "default") (var (str "RV_REGION"))) (default (str "default") (var (str "RV_POP")))
          (default 30 (parse_u64 (default (str "30") (var (str "RV_HEARTBEAT_INTERVAL_SECS")))))
          (default (str "/var/lib/varaha-cache") (var (str "RV_STATE_DIR")))).

(* ------------------------------------------------------------------ *)
(** ** The state on disk *)

Record FleetState : Set := mkFleetState {
  fs_node_id : option bytes;
  fs_token : option bytes;
  fs_applied_config_version : Z;
}.

Definition FleetState_default : FleetState := mkFleetState None None 0.

(** serde's JSON for the state, three plain fields: it can be printed, and what was
    printed is read back. *)
Class SerdeState := {
  state_from_str : bytes → option FleetState;
  state_to_string_pretty : FleetState → option bytes;
  state_prints s : is_Some (state_to_string_pretty s);
  state_printed s data : state_to_string_pretty s = Some data → state_from_str data = Some s;
}.

(** The files [fleet-state.json] and [fleet-state.json.tmp] of the state directory. *)
Record state_dir : Set := mkDir { dir_file : option bytes; dir_tmp : option bytes }.

(** What becomes of a save: the directory cannot be made or the file not be written
    (some of it may be), the rename fails, or all goes well. *)
Inductive save_outcome : Set :=
| NotWritten (tmp : option bytes)
| NotRenamed
| Saved.

Section client.
  Context {serde : SerdeState}.

(** [load_state]; [readable] is false when the file is there and reading it fails. *)
Definition load_state (readable : bool) (d : state_dir) : FleetState :=
  match (if readable then dir_file d else None) with
  | Some data => default FleetState_default (state_from_str data)
  | None => FleetState_default
  end.

Definition save_state (o : save_outcome) (s : FleetState) (d : state_dir) : state_dir :=
  match state_to_string_pretty s with
  | None => d
  | Some data =>
      match o with
      | NotWritten tmp => mkDir (dir_file d) tmp
      | NotRenamed => mkDir (dir_file d) (Some data)
      | Saved => mkDir (Some data) None
      end
  end.

(** What a crash of the process in the middle of a save leaves. *)
Inductive save_crash (s : FleetState) (d : state_dir) : state_dir → Prop :=
| crash_before : save_crash s d d
| crash_writing data p rest :
    state_to_string_pretty s = Some data → data = p ++ rest → save_crash s d (mkDir (dir_file d) (Some p))
| crash_renamed data : state_to_string_pretty s = Some data → save_crash s d (mkDir (Some data) None).

(* ------------------------------------------------------------------ *)
(** ** Messages *)

Record RegisterRequest : Set := mkRegisterRequest {
  rq_hostname : bytes;
  rq_region : bytes;
  rq_pop : bytes;
  rq_tags : list (bytes * bytes);
  rq_zone : option bytes;
  rq_public_ip : option bytes;
  rq_private_ip : bytes;
  rq_listen_addr : bytes;
  rq_version : bytes;
}.

Record RegisterResponse : Set := mkRegisterResponse {
  rr_node_id : bytes;
  rr_token : bytes;
  rr_config_version : Z;
}.

Record Heartbeat : Set := mkHeartbeat {
  hb_config_version : Z;
  hb_state : bytes;
  hb_load : f64;
  hb_uptime_secs : Z;
  hb_connections : Z;
  hb_cache_hit_rate : f64;
  hb_storage_used : f64;
  hb_health : bytes;
  hb_error_rate_5xx : option f64;
  hb_p99_latency_ms : option f64;
  hb_cpu_cores : option Z;
  hb_vcl_active : option bytes;
}.

Record NodeMessage : Set := mkNodeMessage { nm_node_id : bytes; nm_token : bytes; nm_heartbeat : Heartbeat }.

Record EffectiveConfig : Set := mkEffective { ec_version : Z; ec_scope : bytes }.

Inductive ServerMessage : Set :=
| HeartbeatAck (ack : bool) (desired_config_version : option Z)
| ConfigPush (version : Z) (scope : bytes)
| DeployCommand (deployment_id artifact_name artifact_version : bytes)
| PurgeCommand (purge_id purge_type target : bytes)
| NoPayload.

Definition register_request (config : FleetConfig) (pkg_version : bytes) : RegisterRequest :=
  mkRegisterRequest (fc_hostname config) (fc_region config) (fc_pop config) [] None None
    (str "0.0.0.0") (str "0.0.0.0:6081") pkg_version.

(** [build_heartbeat]; the time since the start is given in seconds. *)
Definition build_heartbeat (node_id token : bytes) (config_version : Z) (stats : CacheStats) (uptime : Z) : NodeMessage :=
  mkNodeMessage node_id token
    (mkHeartbeat config_version (str "active") f64_zero uptime 0
       (f64_div (AdminHandler.hit_rate stats) (f64_of_Z 100)) f64_zero (str "healthy") None None None None).

(** What the REST service is asked, and answers: a failure to send, or a status with a
    body, which may decode. *)
Record rest_request : Set := mkRestRequest { rest_url : bytes; rest_bearer : bytes; rest_node_id : bytes }.

Inductive rest_answer : Set :=
| NoAnswer
| Answer (status : Z) (decoded : option EffectiveConfig).

Definition effective_request (base_url api_token node_id : bytes) : rest_request :=
  mkRestRequest (trim_end_matches [x2f] base_url ++ str "/api/v1/config/effective") api_token node_id.

Definition pull_effective_config (rest : rest_request → rest_answer) (base_url api_token node_id : bytes) : option EffectiveConfig :=
  match rest (effective_request base_url api_token node_id) with
  | NoAnswer => None
  | Answer status decoded => if (200 <=? status) && (status <? 300) then decoded else None
  end.

(* ------------------------------------------------------------------ *)
(** ** The client *)

(** The receiving loop waits for a message, for room to report a version, or is over. *)
Inductive main_phase : Set := Receiving | Reporting (v : Z) | MainOver.

(** [fl_beats] is the heartbeat task with the version it reports; [fl_retrieved]
    the versions the client has logged as retrieved, the first at its start. *)
Record fleet : Set := mkFleet {
  fl_dir : state_dir;
  fl_rest_base : bytes;
  fl_node_id : bytes;
  fl_token : bytes;
  fl_main : main_phase;
  fl_beats : option Z;
  fl_versions : list Z;
  fl_sent : list NodeMessage;
  fl_retrieved : list Z;
}.

Definition fl_set_main (m : main_phase) (f : fleet) : fleet :=
  mkFleet (fl_dir f) (fl_rest_base f) (fl_node_id f) (fl_token f) m (fl_beats f) (fl_versions f) (fl_sent f) (fl_retrieved f).
Definition fl_set_beats (b : option Z) (vs : list Z) (f : fleet) : fleet :=
  mkFleet (fl_dir f) (fl_rest_base f) (fl_node_id f) (fl_token f) (fl_main f) b vs (fl_sent f) (fl_retrieved f).
Definition fl_send (m : NodeMessage) (f : fleet) : fleet :=
  mkFleet (fl_dir f) (fl_rest_base f) (fl_node_id f) (fl_token f) (fl_main f) (fl_beats f) (fl_versions f) (fl_sent f ++ [m]) (fl_retrieved f).
Definition fl_retrieve (d : state_dir) (v : Z) (f : fleet) : fleet :=
  mkFleet d (fl_rest_base f) (fl_node_id f) (fl_token f) (Reporting v) (fl_beats f) (fl_versions f) (fl_sent f) (fl_retrieved f ++ [v]).

Inductive start_outcome : Set :=
| Started (f : fleet)
| StartFails (context : bytes) (d : state_dir)
| StartPanics (d : state_dir).

(** What the disk and the control plane answer during the start. *)
Record start_answers : Set := mkAnswers {
  sa_reads : bool;
  sa_connects : bool;
  sa_registers : option RegisterResponse;
  sa_saves : save_outcome;
  sa_connects_again : bool;
  sa_opens : bool;
}.

(** The state of a registration. *)
Definition registration (resp : RegisterResponse) : FleetState :=
  mkFleetState (Some (rr_node_id resp)) (Some (rr_token resp)) (rr_config_version resp).

(** Registration, unless the state has a node id. *)
Definition register (config : FleetConfig) (a : start_answers) (d : state_dir) : result (FleetState * state_dir) bytes :=
  let state := load_state (sa_reads a) d in
  match fs_node_id state with
  | Some _ => Ok (state, d)
  | None =>
      if negb (sa_connects a) then Err (str "failed to connect to gRPC server at " ++ fc_grpc_addr config)
      else
        match sa_registers a with
        | None => Err (str "gRPC Register RPC failed")
        | Some resp =>
            let state := registration resp in
            Ok (state, save_state (sa_saves a) state d)
        end
  end.

(** [run_fleet_client] up to its loops: the first heartbeat authenticates the stream;
    tokio's interval panics, in the heartbeat task, when the interval is zero. *)
Definition fleet_start (config : FleetConfig) (a : start_answers) (stats : CacheStats) (uptime : Z) (d : state_dir) : start_outcome :=
  match register config a d with
  | Err e => StartFails e d
  | Ok (state, d) =>
      match fs_node_id state, fs_token state with
      | Some node_id, Some token =>
          if negb (sa_connects_again a) then StartFails (str "failed to connect for FleetStream") d
          else
            let first := build_heartbeat node_id token (fs_applied_config_version state) stats uptime in
            if negb (sa_opens a) then StartFails (str "failed to open FleetStream") d
            else
              let beats := if fc_heartbeat_interval config =? 0 then None else Some (fs_applied_config_version state) in
              Started (mkFleet d (fc_control_plane_url config) node_id token Receiving beats [] [first] [fs_applied_config_version state])
      | _, _ => StartPanics d
      end
  end.

(** [handle_server_message] up to the report of a retrieved version. *)
Definition handle_server_message (m : ServerMessage) (rest : rest_request → rest_answer) (readable : bool) (o : save_outcome)
    (f : fleet) : fleet :=
  match m with
  | ConfigPush _ _ =>
      match pull_effective_config rest (fl_rest_base f) (fl_token f) (fl_node_id f) with
      | Some effective =>
          let state := load_state readable (fl_dir f) in
          let state := mkFleetState (fs_node_id state) (fs_token state) (ec_version effective) in
          fl_retrieve (save_state o state (fl_dir f)) (ec_version effective) f
      | None => f
      end
  | HeartbeatAck _ _ | DeployCommand _ _ _ | PurgeCommand _ _ _ | NoPayload => f
  end.

Inductive fleet_event : Set :=
| Ticks (stats : CacheStats) (uptime : Z) (taken : bool)
| TakesVersion
| BeatsCancelled
| Receives (m : ServerMessage) (rest : rest_request → rest_answer) (readable : bool) (o : save_outcome)
| Reports
| StreamEnds
| MainCancelled.

(** The tasks of the client, one step at a time.  The channel of versions holds
    sixteen; sending to it fails when the heartbeat task is over. *)
Definition fleet_step (f : fleet) (ev : fleet_event) : fleet :=
  match ev with
  | Ticks stats uptime taken =>
      match fl_beats f with
      | Some v =>
          if taken then fl_send (build_heartbeat (fl_node_id f) (fl_token f) v stats uptime) f
          else fl_set_beats None [] f
      | None => f
      end
  | TakesVersion =>
      match fl_beats f, fl_versions f with
      | Some _, v :: vs => fl_set_beats (Some v) vs f
      | _, _ => f
      end
  | BeatsCancelled => fl_set_beats None [] f
  | Receives m rest readable o =>
      match fl_main f with Receiving => handle_server_message m rest readable o f | _ => f end
  | Reports =>
      match fl_main f with
      | Reporting v =>
          match fl_beats f with
          | None => fl_set_main Receiving f
          | Some b =>
              if (length (fl_versions f) <? 16)%nat
              then fl_set_main Receiving (fl_set_beats (Some b) (fl_versions f ++ [v]) f)
              else f
          end
      | _ => f
      end
  | StreamEnds | MainCancelled =>
      match fl_main f with Receiving => fl_set_main MainOver f | _ => f end
  end.

Definition fleet_run (evs : list fleet_event) (f : fleet) : fleet := foldl fleet_step f evs.

End client.

(* ------------------------------------------------------------------ *)
(** ** Saving is atomic *)

(** What is on the disk, whether or not a read of it succeeds. *)
Abbreviation stored d := (load_state true d).

Section laws.
  Context {serde : SerdeState}.

Lemma load_state_stored readable d : load_state readable d = stored d ∨ load_state readable d = FleetState_default.
Proof. destruct readable; [by left|by right]. Qed.

Lemma save_crash_stored s d d' : save_crash s d d' → stored d' = stored d ∨ stored d' = s.
Proof.
  intros [|data p rest _ _|data Hd]; [by left..|]. right. unfold load_state. cbn. by rewrite (state_printed _ _ Hd).
Qed.

Lemma save_state_stored o s d : stored (save_state o s d) = stored d ∨ stored (save_state o s d) = s.
Proof.
  unfold save_state. destruct (state_to_string_pretty s) as [data|] eqn:E; [|by left]. destruct o; [by left..|].
  right. unfold load_state. cbn. by rewrite (state_printed _ _ E).
Qed.

Lemma save_state_saved s d : stored (save_state Saved s d) = s.
Proof.
  destruct (state_prints s) as [data E]. unfold save_state, load_state. rewrite E. cbn. by rewrite (state_printed _ _ E).
Qed.

(** A state from which the client can start: a node id comes with its token. *)
Definition whole (s : FleetState) : Prop := fs_node_id s = None ∨ is_Some (fs_token s).

(** The state of the node, with one of the versions. *)
Definition state_of (id token : bytes) (versions : list Z) (s : FleetState) : Prop :=
  fs_node_id s = Some id ∧ fs_token s = Some token ∧ fs_applied_config_version s ∈ versions.

(** The state to save after version [v] was retrieved. *)
Definition next_state (v : Z) (s : FleetState) : FleetState := mkFleetState (fs_node_id s) (fs_token s) v.

Lemma whole_next readable v d : whole (stored d) → whole (next_state v (load_state readable d)).
Proof. intros Hw. destruct (load_state_stored readable d) as [->| ->]; [exact Hw|by left]. Qed.

Lemma state_of_more id token vs v s : state_of id token vs s → state_of id token (vs ++ [v]) s.
Proof. intros (? & ? & ?). split_and!; [done..|]. apply elem_of_app. by left. Qed.

Lemma state_of_next id token vs v s : state_of id token vs s → state_of id token (vs ++ [v]) (next_state v s).
Proof. intros (? & ? & _). split_and!; [done..|]. cbn. apply elem_of_app. right. by apply list_elem_of_singleton. Qed.

(* ------------------------------------------------------------------ *)
(** ** The heartbeats *)

(** The versions of the heartbeats sent against the versions so far: each carries the
    newest of its time. *)
Inductive follows : list Z → list Z → Prop :=
| follows_start v : follows [v] [v]
| follows_version vs bs v : follows vs bs → follows (vs ++ [v]) bs
| follows_beat vs bs v : follows (vs ++ [v]) bs → follows (vs ++ [v]) (bs ++ [v]).

Definition beat_versions (f : fleet) : list Z := hb_config_version ∘ nm_heartbeat <$> fl_sent f.

(** A version retrieved and not yet on its way to the heartbeat task. *)
Definition pending (m : main_phase) : list Z := match m with Reporting v => [v] | _ => [] end.

Definition beats_ok (f : fleet) : Prop :=
  ∃ seen rest, fl_retrieved f = seen ++ rest ∧ follows seen (beat_versions f)
    ∧ ∀ v, fl_beats f = Some v → (∃ vs, seen = vs ++ [v]) ∧ rest = fl_versions f ++ pending (fl_main f).

(** The client's invariant. *)
Definition fleet_inv (id token : bytes) (f : fleet) : Prop :=
  fl_node_id f = id ∧ fl_token f = token
  ∧ Forall (λ m, nm_node_id m = id ∧ nm_token m = token) (fl_sent f)
  ∧ beats_ok f ∧ (length (fl_versions f) ≤ 16)%nat.

Lemma beats_ok_same f f' :
  beats_ok f → fl_retrieved f' = fl_retrieved f → fl_sent f' = fl_sent f →
  (∀ v, fl_beats f' = Some v → fl_beats f = Some v ∧ fl_versions f' ++ pending (fl_main f') = fl_versions f ++ pending (fl_main f)) →
  beats_ok f'.
Proof.
  intros (seen & rest & Hr & Hf & Hb) Er Es Hv. exists seen, rest. unfold beat_versions. rewrite Er, Es. split_and!; [done..|].
  intros v Ev. destruct (Hv v Ev) as [Eb ->]. by apply Hb.
Qed.

(** One step of either task. *)
Lemma fleet_step_inv id token f ev : fleet_inv id token f → fleet_inv id token (fleet_step f ev).
Proof.
  intros (Hi & Ht & HF & Hb & Hl). destruct ev as [stats up taken| | |m pull readable o| | |]; cbn [fleet_step].
  - destruct (fl_beats f) as [v|] eqn:Ev; [|done]. destruct taken.
    + split_and!; try done; [apply Forall_app; split; [done|]; by repeat constructor|].
      destruct Hb as (seen & rest & Hr & Hf & Hb). destruct (Hb v Ev) as [[vs ->] ->].
      exists (vs ++ [v]), (fl_versions f ++ pending (fl_main f)). split; [done|].
      split; [unfold beat_versions; cbn; rewrite fmap_app; by apply follows_beat|].
      cbn. rewrite Ev. intros u [= <-]. split; [by exists vs|done].
    + split_and!; try done; [|cbn; lia]. eapply beats_ok_same; [exact Hb|done..].
  - destruct (fl_beats f) as [b|] eqn:Ev; [|done]. destruct (fl_versions f) as [|v vs] eqn:Es; [split_and!; by rewrite ?Es|].
    split_and!; try done; [|cbn in *; lia]. destruct Hb as (seen & rest & Hr & Hf & Hb). destruct (Hb b Ev) as [_ ->].
    exists (seen ++ [v]), (vs ++ pending (fl_main f)). cbn. rewrite Hr, Es, <- app_assoc. split_and!; [done|by apply follows_version|].
    intros u [= <-]. split; [by exists seen|done].
  - split_and!; try done; [|cbn; lia]. eapply beats_ok_same; [exact Hb|done..].
  - destruct (fl_main f) eqn:Em; [|done..]. destruct m; try done. cbn [handle_server_message].
    destruct (pull_effective_config _ _ _ _) as [e|]; [|done]. split_and!; try done.
    destruct Hb as (seen & rest & Hr & Hf & Hb). exists seen, (rest ++ [ec_version e]). cbn. rewrite Hr, app_assoc.
    split_and!; [done..|]. intros v Ev. destruct (Hb v Ev) as [Hs ->]. split; [done|]. rewrite Em. cbn. by rewrite app_nil_r.
  - destruct (fl_main f) as [|v|] eqn:Em; [done| |done]. destruct (fl_beats f) as [b|] eqn:Ev.
    + destruct (Nat.ltb_spec (length (fl_versions f)) 16); [|done]. split_and!; try done; [|cbn; rewrite length_app; cbn; lia].
      eapply beats_ok_same; [exact Hb|done..|]. cbn. rewrite Em, app_nil_r. by intros u [= <-].
    + split_and!; try done. eapply beats_ok_same; [exact Hb|done..|]. cbn. congruence.
  - destruct (fl_main f) eqn:Em; [|done..]. split_and!; try done. eapply beats_ok_same; [exact Hb|done..|]. cbn. rewrite Em. done.
  - destruct (fl_main f) eqn:Em; [|done..]. split_and!; try done. eapply beats_ok_same; [exact Hb|done..|]. cbn. rewrite Em. done.
Qed.

Lemma fleet_run_inv id token evs f : fleet_inv id token f → fleet_inv id token (fleet_run evs f).
Proof. revert f. induction evs as [|ev evs IH]; intros f Hf; [done|]. apply IH. by apply fleet_step_inv. Qed.

(** A client that started: what it started from, and its first heartbeat. *)
Lemma fleet_start_started config a stats up d f :
  fleet_start config a stats up d = Started f →
  ∃ s d1, register config a d = Ok (s, d1) ∧ fl_dir f = d1 ∧ fs_node_id s = Some (fl_node_id f) ∧ fs_token s = Some (fl_token f)
    ∧ fl_retrieved f = [fs_applied_config_version s] ∧ fleet_inv (fl_node_id f) (fl_token f) f.
Proof.
  unfold fleet_start. destruct (register config a d) as [[s d1]|e]; [|discriminate].
  destruct (fs_node_id s) as [id|] eqn:Ei; [|discriminate]. destruct (fs_token s) as [tok|] eqn:Et; [|discriminate].
  destruct (sa_connects_again a); [|discriminate]. destruct (sa_opens a); [|discriminate]. cbn. intros [= <-].
  exists s, d1. split_and!; try done. unfold fleet_inv, beats_ok. cbn. split; [done|]. split; [done|].
  split; [by apply Forall_singleton|]. split; [|lia].
  eexists [_], []. split; [done|]. split; [constructor|]. intros v Ev. case_match; [done|]. injection Ev as <-. split; [by exists []|done].
Qed.

(* ------------------------------------------------------------------ *)
(** ** The disk *)

Lemma register_whole config a d s d1 : register config a d = Ok (s, d1) → whole (stored d) → whole (stored d1).
Proof.
  unfold register. destruct (fs_node_id _) as [id|]; [by intros [= <- <-]|]. destruct (sa_connects a); [|discriminate].
  destruct (sa_registers a) as [resp|]; [|discriminate]. cbn. intros [= <- <-] Hw.
  destruct (save_state_stored (sa_saves a) (registration resp) d) as [->| ->]; [done|right; by eexists].
Qed.

(** The registration the client runs on is on the disk: it was found there, or it
    was saved. *)
Lemma register_kept config a d s d1 :
  register config a d = Ok (s, d1) → (sa_reads a = true ∧ is_Some (fs_node_id (stored d))) ∨ sa_saves a = Saved →
  stored d1 = s.
Proof.
  unfold register. destruct (sa_reads a) eqn:Er.
  - destruct (fs_node_id (stored d)) as [id|]; [by intros [= <- <-]|]. destruct (sa_connects a); [|discriminate].
    destruct (sa_registers a) as [resp|]; [|discriminate]. cbn. intros [= <- <-] [[_ [? ?]]|Hs]; [done|].
    rewrite Hs. apply save_state_saved.
  - cbn. destruct (sa_connects a); [|discriminate]. destruct (sa_registers a) as [resp|]; [|discriminate]. cbn.
    intros [= <- <-] [[? _]|Hs]; [done|]. rewrite Hs. apply save_state_saved.
Qed.

(** A step of the client leaves the disk or saves a newer version to it. *)
Lemma fleet_step_disk f ev :
  stored (fl_dir (fleet_step f ev)) = stored (fl_dir f) ∧ (∃ vs, fl_retrieved (fleet_step f ev) = fl_retrieved f ++ vs)
  ∨ ∃ m rest readable o v, ev = Receives m rest readable o ∧ fl_retrieved (fleet_step f ev) = fl_retrieved f ++ [v]
      ∧ stored (fl_dir (fleet_step f ev)) = next_state v (load_state readable (fl_dir f)).
Proof.
  assert (Hsame : ∀ g, fl_dir g = fl_dir f → fl_retrieved g = fl_retrieved f →
    stored (fl_dir g) = stored (fl_dir f) ∧ ∃ vs, fl_retrieved g = fl_retrieved f ++ vs).
  { intros g -> ->. split; [done|]. exists []. by rewrite app_nil_r. }
  destruct ev as [stats up taken| | |m pull readable o| | |]; cbn [fleet_step]; try (left; by apply Hsame; repeat case_match).
  destruct (fl_main f); [|left; by apply Hsame..]. destruct m; try (left; by apply Hsame). cbn [handle_server_message].
  destruct (pull_effective_config _ _ _ _) as [e|]; [|left; by apply Hsame]. cbn.
  destruct (save_state_stored o (next_state (ec_version e) (load_state readable (fl_dir f))) (fl_dir f)) as [E|E]; unfold next_state in E.
  - left. rewrite E. split; [done|]. by eexists.
  - right. by eexists _, _, _, _, _.
Qed.

Lemma fleet_run_whole evs f : whole (stored (fl_dir f)) → whole (stored (fl_dir (fleet_run evs f))).
Proof.
  revert f. induction evs as [|ev evs IH]; intros f Hw; [done|]. apply IH.
  destruct (fleet_step_disk f ev) as [[-> _]|(m & rest & r & o & v & _ & _ & ->)]; [done|by apply whole_next].
Qed.

(** The event's read of the state file, if it has one, succeeds. *)
Definition reads_ok (ev : fleet_event) : Prop := match ev with Receives _ _ readable _ => readable = true | _ => True end.

Lemma fleet_run_state_of id token evs f :
  Forall reads_ok evs → state_of id token (fl_retrieved f) (stored (fl_dir f)) →
  state_of id token (fl_retrieved (fleet_run evs f)) (stored (fl_dir (fleet_run evs f))).
Proof.
  intros Hr. revert f. induction Hr as [|ev evs Hev _ IH]; intros f Hs; [done|]. apply IH.
  destruct (fleet_step_disk f ev) as [[-> [vs ->]]|(m & rest & r & o & v & -> & -> & ->)].
  - destruct Hs as (? & ? & ?). split_and!; [done..|]. apply elem_of_app. by left.
  - cbn in Hev. subst r. by apply state_of_next.
Qed.

Lemma fleet_starts config a stats up d id token :
  fs_node_id (stored d) = Some id → fs_token (stored d) = Some token →
  sa_reads a = true → sa_connects_again a = true → sa_opens a = true →
  ∃ f, fleet_start config a stats up d = Started f ∧ fl_node_id f = id ∧ fl_token f = token
    ∧ fl_retrieved f = [fs_applied_config_version (stored d)].
Proof.
  intros Hi Ht Hr Hc Ho. unfold fleet_start, register. rewrite Hr, Hi. cbn. rewrite Hi, Ht, Hc, Ho. cbn. by eexists.
Qed.

Lemma whole_no_panic config a stats up d d' : whole (stored d) → fleet_start config a stats up d ≠ StartPanics d'.
Proof.
  intros Hw. unfold fleet_start, register.
  assert (Hw' : whole (load_state (sa_reads a) d)) by (destruct (load_state_stored (sa_reads a) d) as [->| ->]; [done|by left]).
  destruct (fs_node_id (load_state (sa_reads a) d)) as [id|] eqn:Ei.
  - destruct Hw' as [?|[tok Ht]]; [congruence|]. cbn. rewrite Ei, Ht. by repeat case_match.
  - by repeat (case_match; cbn in *; simplify_eq).
Qed.

(** What a crash of the process leaves, at any moment: before or in the middle of the
    save of its registration, after a start that failed, or while it runs, in the
    middle of saving a version or not. *)
Inductive crash_leaves (config : FleetConfig) (a : start_answers) (stats : CacheStats) (up : Z) (d : state_dir)
    (evs : list fleet_event) : state_dir → Prop :=
| crash_starting : crash_leaves config a stats up d evs d
| crash_registering resp d' :
    fs_node_id (load_state (sa_reads a) d) = None → sa_registers a = Some resp → save_crash (registration resp) d d' →
    crash_leaves config a stats up d evs d'
| crash_failed e d' : fleet_start config a stats up d = StartFails e d' → crash_leaves config a stats up d evs d'
| crash_running f readable v d' :
    fleet_start config a stats up d = Started f →
    save_crash (next_state v (load_state readable (fl_dir (fleet_run evs f)))) (fl_dir (fleet_run evs f)) d' →
    crash_leaves config a stats up d evs d'.

Lemma crash_leaves_whole config a stats up d evs d' :
  whole (stored d) → crash_leaves config a stats up d evs d' → whole (stored d').
Proof.
  intros Hw [|resp d1 _ _ Hc|e d1 Hs|f readable v d1 Hs Hc]; [done|..].
  - destruct (save_crash_stored _ _ _ Hc) as [->| ->]; [done|right; by eexists].
  - unfold fleet_start in Hs. destruct (register config a d) as [[s d2]|e'] eqn:Er; [|by injection Hs as _ <-].
    apply register_whole in Er; [|done]. repeat case_match; simplify_eq; done.
  - destruct (fleet_start_started _ _ _ _ _ _ Hs) as (s & d2 & Er & Hd & _). apply register_whole in Er; [|done]. rewrite <- Hd in Er.
    apply (fleet_run_whole evs) in Er. destruct (save_crash_stored _ _ _ Hc) as [->| ->]; [done|by apply whole_next].
Qed.

(** C16. The fleet client keeps its identity and reports what it retrieved.  However
    its receiving loop and its heartbeats interleave, and whatever the control plane
    and the disk answer, every message carries the node id and the token of the start,
    each heartbeat the newest version that had reached its task, versions reach it in
    the order they were retrieved (no more than sixteen wait), and once none is under
    way the heartbeats carry the last one.  When the state on disk has a token with its
    node id at first, a crash of the process at any moment, in the middle of saving the
    registration or a version included, leaves one from which the client starts without
    a panic.  When moreover the registration was found on disk or saved there, and no
    read of the state file failed since, the client started after a crash is the same
    node, without registering, with a version that had been retrieved; a read that
    fails counts as an empty state, and the next save then forgets the registration. *)
Theorem fleet_restart config a stats up d evs :
  whole (stored d) →
  (∀ d', crash_leaves config a stats up d evs d' →
     ∀ config' a' stats' up' d'', fleet_start config' a' stats' up' d' ≠ StartPanics d'')
  ∧ ∀ f, fleet_start config a stats up d = Started f →
      let f' := fleet_run evs f in
      Forall (λ m, nm_node_id m = fl_node_id f ∧ nm_token m = fl_token f) (fl_sent f')
      ∧ beats_ok f' ∧ (length (fl_versions f') ≤ 16)%nat
      ∧ (∀ u, fl_beats f' = Some u → fl_versions f' = [] → pending (fl_main f') = [] → last (fl_retrieved f') = Some u)
      ∧ ((sa_reads a = true ∧ is_Some (fs_node_id (stored d))) ∨ sa_saves a = Saved → Forall reads_ok evs →
         ∀ v d' config' a' stats' up',
           save_crash (next_state v (stored (fl_dir f'))) (fl_dir f') d' →
           sa_reads a' = true → sa_connects_again a' = true → sa_opens a' = true →
           ∃ g u, fleet_start config' a' stats' up' d' = Started g ∧ fl_node_id g = fl_node_id f ∧ fl_token g = fl_token f
                  ∧ fl_retrieved g = [u] ∧ u ∈ fl_retrieved f' ++ [v]).
Proof.
  intros Hw. split.
  { intros d' Hc config' a' stats' up' d''. apply whole_no_panic. by apply (crash_leaves_whole config a stats up d evs). }
  intros f Hs f'. destruct (fleet_start_started _ _ _ _ _ _ Hs) as (s & d1 & Er & Hd & Hi & Ht & Hv & Hinv).
  destruct (fleet_run_inv _ _ evs f Hinv) as (_ & _ & HF & Hb & Hl). fold f' in HF, Hb, Hl. split_and!; [done..| |].
  - intros u Eu Ev Ep. destruct Hb as (seen & rest & -> & _ & Hb). destruct (Hb u Eu) as [[vs ->] ->].
    rewrite Ev, Ep, app_nil_r. apply last_snoc.
  - intros Hk Hr v d' config' a' stats' up' Hc Ha1 Ha2 Ha3. apply (register_kept config a d s d1 Er) in Hk.
    assert (H0 : state_of (fl_node_id f) (fl_token f) (fl_retrieved f) (stored (fl_dir f))).
    { rewrite Hd, Hk. split_and!; [done..|]. rewrite Hv. by apply list_elem_of_singleton. }
    apply (fleet_run_state_of _ _ evs f Hr) in H0.
    assert (Hd' : state_of (fl_node_id f) (fl_token f) (fl_retrieved f' ++ [v]) (stored d')).
    { destruct (save_crash_stored _ _ _ Hc) as [->| ->]; [by apply state_of_more|by apply state_of_next]. }
    destruct Hd' as (Hi' & Ht' & Hv'). destruct (fleet_starts config' a' stats' up' d' _ _ Hi' Ht' Ha1 Ha2 Ha3) as (g & Eg & Hgi & Hgt & Hgr).
    by exists g, (fs_applied_config_version (stored d')).
Qed.
End laws.

(* ------------------------------------------------------------------ *)
(** ** A client *)

(** A state printed as the bits of its number. *)
Fixpoint pos_text (p : positive) : bytes :=
  match p with xH => [] | xO p => x30 :: pos_text p | xI p => x31 :: pos_text p end.

Fixpoint text_pos (s : bytes) : option positive :=
  match s with
  | [] => Some xH
  | x30 :: s => xO <$> text_pos s
  | x31 :: s => xI <$> text_pos s
  | _ => None
  end.

Lemma text_pos_text p : text_pos (pos_text p) = Some p.
Proof. induction p as [p IH|p IH|]; cbn; [by rewrite IH..|done]. Qed.

Definition state_tuple (s : FleetState) : option bytes * option bytes * Z :=
  (fs_node_id s, fs_token s, fs_applied_config_version s).

#[local, refine] Instance bits_serde : SerdeState := {
  state_from_str data := p ← text_pos data; '(id, token, v) ← decode (A := option bytes * option bytes * Z) p; Some (mkFleetState id token v);
  state_to_string_pretty s := Some (pos_text (encode (state_tuple s)));
}.
Proof.
  - by eexists.
  - intros [id token v] data [= <-]. rewrite text_pos_text. cbn [mbind option_bind]. by rewrite decode_encode.
Defined.

Definition sample_var (name : bytes) : option bytes :=
  match_str [(str "GRPC_ADDR", str "http://c:50051"); (str "CONTROL_PLANE_URL", str "http://c/"); (str "RV_POP", str "p1");
             (str "RV_HEARTBEAT_INTERVAL_SECS", str "10 s")] name.

Definition sample_fleet_config : FleetConfig :=
  default (mkFleetConfig [] [] [] [] [] 0 []) (FleetConfig_from_env sample_var (Some (str "edge-1"))).

(** An interval that is no number is the default one. *)
Example sample_fleet_settings :
  FleetConfig_from_env sample_var (Some (str "edge-1"))
  = Some (mkFleetConfig (str "http://c/") (str "http://c:50051") (str "edge-1") (str "default") (str "p1") 30 (str "/var/lib/varaha-cache"))
  ∧ rest_url (effective_request (str "http://c/") (str "secret") (str "n1")) = str "http://c/api/v1/config/effective".
Proof. vm_compute. done. Qed.

Definition sample_answers : start_answers :=
  mkAnswers true true (Some (mkRegisterResponse (str "n1") (str "secret") 3)) Saved true true.

Definition sample_fleet : fleet :=
  match fleet_start sample_fleet_config sample_answers CacheStats_new 0 (mkDir None None) with
  | Started f => f
  | _ => mkFleet (mkDir None None) [] [] [] MainOver None [] [] []
  end.

(** Two pushes, the second of which cannot be saved, a purge, and heartbeats between. *)
Definition sample_fleet_events : list fleet_event :=
  [Receives (ConfigPush 4 []) (λ _, Answer 200 (Some (mkEffective 4 []))) true Saved; Ticks CacheStats_new 30 true; Reports; TakesVersion;
   Receives (PurgeCommand (str "p") (str "url") (str "/a")) (λ _, NoAnswer) true Saved; Ticks CacheStats_new 60 true;
   Receives (ConfigPush 5 []) (λ _, Answer 200 (Some (mkEffective 5 []))) true NotRenamed; Reports; TakesVersion; Ticks CacheStats_new 90 true].

Example sample_beats :
  beat_versions (fleet_run sample_fleet_events sample_fleet) = [3; 3; 4; 5]
  ∧ stored (fl_dir (fleet_run sample_fleet_events sample_fleet)) = mkFleetState (Some (str "n1")) (Some (str "secret")) 4.
Proof. vm_compute. done. Qed.

(** With an interval of zero the heartbeat task panics at its start: no heartbeat
    but the first is ever sent. *)
Example zero_interval_beats :
  match fleet_start (mkFleetConfig [] [] [] [] [] 0 []) sample_answers CacheStats_new 0 (mkDir None None) with
  | Started f => beat_versions (fleet_run sample_fleet_events f)
  | _ => []
  end = [3].
Proof. vm_compute. reflexivity. Qed.

(** A state file with a node id and no token panics. *)
Example half_state_panics :
  let d := mkDir (state_to_string_pretty (mkFleetState (Some (str "n1")) None 0)) None in
  fleet_start sample_fleet_config sample_answers CacheStats_new 0 d = StartPanics d.
Proof. vm_compute. reflexivity. Qed.

(** One read of the state file that fails, during a push, and the registration is
    gone from the disk: the client registers again at its next start. *)
Example failed_read_forgets :
  let f := fleet_run [Receives (ConfigPush 4 []) (λ _, Answer 200 (Some (mkEffective 4 []))) false Saved] sample_fleet in
  stored (fl_dir sample_fleet) = mkFleetState (Some (str "n1")) (Some (str "secret")) 3
  ∧ stored (fl_dir f) = mkFleetState None None 4
  ∧ fleet_start sample_fleet_config (mkAnswers true true None Saved true true) CacheStats_new 0 (fl_dir f)
    = StartFails (str "gRPC Register RPC failed") (fl_dir f).
Proof. vm_compute. done. Qed.

Lemma fleet_restart_witness :
  let f' := fleet_run sample_fleet_events sample_fleet in
  (∀ d'', fleet_start sample_fleet_config sample_answers CacheStats_new 0 (mkDir None (Some [x30])) ≠ StartPanics d'')
  ∧ Forall (λ m, nm_node_id m = str "n1" ∧ nm_token m = str "secret") (fl_sent f') ∧ beats_ok f'
  ∧ ∃ g u, fleet_start sample_fleet_config sample_answers CacheStats_new 0 (mkDir (dir_file (fl_dir f')) (Some [x30])) = Started g
      ∧ fl_node_id g = str "n1" ∧ fl_token g = str "secret" ∧ fl_retrieved g = [u] ∧ u ∈ fl_retrieved f' ++ [6].
Proof.
  destruct (fleet_restart sample_fleet_config sample_answers CacheStats_new 0 (mkDir None None) sample_fleet_events) as [H0 H].
  { by left. }
  destruct (H sample_fleet) as (H1 & H2 & _ & _ & H3); [vm_compute; reflexivity|].
  split.
  { apply H0. eapply (crash_registering _ _ _ _ _ _ (mkRegisterResponse (str "n1") (str "secret") 3)); [reflexivity..|].
    eapply (crash_writing _ (mkDir None None) _ [x30]); vm_compute; reflexivity. }
  split; [exact H1|]. split; [exact H2|]. apply H3; [by right|by repeat constructor| |reflexivity..].
  eapply (crash_writing _ _ _ [x30]); vm_compute; reflexivity.
Defined.
