(* ===== verification/Telemetry.v ===== *)
(** * Telemetry

    Models [rv-server/src/telemetry.rs]: the attributes of the process, the filter of
    the console log, and the instruments that read the cache's counters.  The
    OpenTelemetry libraries that export them are not modelled.  Against the engine:
    which counters the cache never moves, and what its gauges count. *)

From S2P Require Import Prelude RustStr F64 Enums Types Header Vary HashSlinger ListHash Lru ObjCore Expire Stevedore Ban RingLog Engine AdminHandler.
Local Open Scope Z_scope.

(** The attributes of [build_resource]; [var] is [std::env::var]. *)
Definition build_resource (var : bytes → option bytes) : list (bytes * bytes) :=
  let hostname := default (str "unknown") (var (str "RV_HOSTNAME")) in
  let region := default [] (var (str "RV_REGION")) in
  let pop := default [] (var (str "RV_POP")) in
  [(str "service.name", str "varaha-cache"); (str "service.instance.id", hostname);
   (str "region", region); (str "pop", pop)].

(** The filter of the console, from [RUST_LOG]. *)
Definition console_filter (var : bytes → option bytes) : bytes :=
  let base_filter := default (str "info") (var (str "RUST_LOG")) in
  if contains (str "opentelemetry_sdk") base_filter then base_filter
  else base_filter ++ str ",opentelemetry_sdk=off".

(** Instruments: counters and gauges of integers, one gauge of a fraction. *)
Inductive observed : Set :=
| Counter (v : Z)
| Gauge (v : Z)
| GaugeF64 (v : f64).

(** The hit rate as the callback computes it. *)
Definition observed_hit_rate (s : CacheStats) : f64 :=
  let hit := cache_hit s in
  let miss := cache_miss s in
  let pass := cache_pass s in
  let total := u64_wrap (u64_wrap (hit + miss) + pass) in
  if total =? 0 then f64_zero else f64_mul (f64_div (f64_of_Z hit) (f64_of_Z total)) (f64_of_Z 100).

(** [register_cache_metrics]: what its callbacks observe. *)
Definition cache_metrics (s : CacheStats) : list (bytes * observed) :=
  [(str "varaha_cache_hits_total", Counter (cache_hit s));
   (str "varaha_cache_misses_total", Counter (cache_miss s));
   (str "varaha_cache_pass_total", Counter (cache_pass s));
   (str "varaha_cache_grace_hits_total", Counter (cache_hit_grace s));
   (str "varaha_cache_hit_for_pass_total", Counter (cache_hit_for_pass s));
   (str "varaha_cache_backend_fetches_total", Counter (backend_fetches s));
   (str "varaha_cache_evictions_total", Counter (evictions s));
   (str "varaha_cache_expired_total", Counter (n_expired s));
   (str "varaha_cache_purged_total", Counter (n_purged s));
   (str "varaha_cache_bans_added_total", Counter (bans_added s));
   (str "varaha_cache_bans_checked_total", Counter (bans_checked s));
   (str "varaha_cache_objects", Gauge (n_objects s));
   (str "varaha_cache_bytes_stored", Gauge (bytes_stored s));
   (str "varaha_cache_hit_rate", GaugeF64 (observed_hit_rate s))].

Definition metric (name : bytes) (s : CacheStats) : option observed := match_str (cache_metrics s) name.

(* ------------------------------------------------------------------ *)
(** ** What the metrics show of the engine *)

Section engine.
  Context {SH SS CacheConfig : Type} `{!HashSlinger SH} `{!Stevedore SS} {regex : RegexLib}.
  Context (fmt_fixed : nat → f64 → bytes).

Abbreviation engine := (@CacheEngine SH SS CacheConfig regex).

(** The counters nothing moves. *)
Definition idle (s : CacheStats) : Z * Z * Z := (cache_pass s, backend_fetches s, bans_checked s).

(** What an operation inserted: the object and its length, if it succeeded. *)
Definition inserted (o : engine_op) (e : engine) : option Z :=
  match o with
  | EInsert d body info vary now =>
      match CacheEngine_insert fmt_fixed d body info vary now e with
      | Some (Ok _, _) => Some (Z.of_nat (length body))
      | _ => None
      end
  | _ => None
  end.

(** The lengths of the bodies a run inserted. *)
Fixpoint insertions (ops : list engine_op) (e : engine) : list Z :=
  match ops with
  | [] => []
  | o :: ops =>
      option_list (inserted o e)
      ++ match engine_exec fmt_fixed o e with Some e' => insertions ops e' | None => [] end
  end.

Definition gauges (s : CacheStats) : Z * Z := (n_objects s, bytes_stored s).

(** A change of the counters that leaves the idle ones and the gauges alone. *)
Definition calm (e e' : engine) : Prop :=
  idle (eng_stats e') = idle (eng_stats e) ∧ gauges (eng_stats e') = gauges (eng_stats e).

Lemma calm_trans e1 e2 e3 : calm e1 e2 → calm e2 e3 → calm e1 e3.
Proof. intros [H1 H2] [H3 H4]. split; congruence. Qed.

(** Counters of other kinds. *)
Ltac other_counter e := unfold calm, idle, gauges; cbn; destruct (eng_stats e); done.

Lemma enforce_calm fuel e e' : enforce_loop fuel e = Some e' → calm e e'.
Proof.
  revert e. induction fuel as [|fuel IH]; intros e; [done|]. cbn [enforce_loop].
  destruct (_ <=? _); [|by intros [= <-]]. destruct (ShardedLru_evict_oldest _) as [[[victim|] lru]|]; cbn; [|by intros [= <-]|done].
  destruct (eng_objects e !! victim); intros E; apply IH in E; (eapply calm_trans; [|exact E]); other_counter e.
Qed.

Lemma expire_calm expired e e' : expire_each expired e = Some e' → calm e e'.
Proof.
  revert e. induction expired as [|oc expired IH]; intros e; cbn [expire_each]; [by intros [= <-]|].
  destruct (ShardedLru_remove _ _) as [lru|]; cbn; [|done]. intros E. apply IH in E. eapply calm_trans; [|exact E]. other_counter e.
Qed.

Lemma insert_stats d body info vary now (e : engine) r e' :
  CacheEngine_insert fmt_fixed d body info vary now e = Some (r, e') →
  idle (eng_stats e') = idle (eng_stats e)
  ∧ gauges (eng_stats e') = match r with
                            | Ok _ => (u64_wrap (n_objects (eng_stats e) + 1), u64_wrap (bytes_stored (eng_stats e) + Z.of_nat (length body)))
                            | Err _ => gauges (eng_stats e)
                            end.
Proof.
  unfold CacheEngine_insert, CacheEngine_enforce_capacity.
  destruct (enforce_loop _ e) as [e1|] eqn:E1; [|done]. apply enforce_calm in E1 as [Hi Hg]. cbn [mbind option_bind].
  cbn [eng_alloc]. destruct (sv_alloc_obj _ _ _) as [[|err] s1]; [|intros [= <- <-]; by split].
  destruct (sv_extend _ _ _) as [[|err] s2]; [|intros [= <- <-]; by split].
  destruct (ShardedLru_insert _ _) as [lru|]; cbn [mbind option_bind]; [|done].
  destruct (LogWriter_log _ _ _ _ _) as [log|]; cbn [mbind option_bind]; [|done].
  intros [= <- <-]. revert Hi Hg. unfold idle, gauges. cbn. destruct (eng_stats e1). cbn. intros [= -> -> ->] [= -> ->]. done.
Qed.

Lemma exec_stats o (e e' : engine) :
  engine_exec fmt_fixed o e = Some e' →
  idle (eng_stats e') = idle (eng_stats e)
  ∧ gauges (eng_stats e') = match inserted o e with
                            | Some n => (u64_wrap (n_objects (eng_stats e) + 1), u64_wrap (bytes_stored (eng_stats e) + n))
                            | None => gauges (eng_stats e)
                            end.
Proof.
  destruct o as [d req now|oc now|d body info vary now|d|d|ex now|now]; cbn [engine_exec inserted].
  - unfold CacheEngine_lookup. destruct (eng_objects e !! d) as [vs|]; [|intros [= <-]; other_counter e].
    destruct (scan_variants _ _ _ _ _) as [[[oc|] [g|]]|]; cbn [mbind option_bind]; try done;
      (destruct (ShardedLru_touch _ _) || destruct (ShardedLru_remove _ _)); cbn; try done; intros [= <-]; other_counter e.
  - intros [= <-]. unfold CacheEngine_evaluate. cbn. destruct (evaluate_object _ _ _); other_counter e.
  - destruct (CacheEngine_insert _ _ _ _ _ _ e) as [[r e1]|] eqn:E; [|done]. intros [= <-]. apply insert_stats in E. by destruct r.
  - unfold CacheEngine_remove. destruct (ShardedLru_remove _ _); cbn [mbind option_bind]; [|done].
    destruct (0 <? _); cbn; [|by intros [= <-]]. intros [= <-]. destruct (eng_objects e !! d); other_counter e.
  - unfold CacheEngine_purge. destruct (eng_fresh e) as [a e1] eqn:Ef. injection Ef as _ <-.
    destruct (hs_lookup _ _ _) as [[oh ?] h]. destruct (hs_deref _ _) as [? h'].
    destruct (ShardedLru_remove _ _); cbn [mbind option_bind]; [|done]. intros [= <-]. other_counter e.
  - intros [= <-]. unfold CacheEngine_ban. destruct (BanList_add_ban _ _ _) as [[|] ?]; other_counter e.
  - unfold CacheEngine_expire_objects. destruct (ExpiryManager_expire _ _) as [expired x].
    destruct (expire_each _ _) as [e1|] eqn:E; cbn [mbind option_bind]; [|done]. apply expire_calm in E.
    destruct (0 <? _); intros [= <-]; [|exact E]. eapply (calm_trans _ e1); [exact E|]. other_counter e1.
Qed.
(** The sum of the lengths, as the counter keeps it. *)
Definition total_len (ns : list Z) : Z := foldr Z.add 0 ns.

Lemma wrap_step a b c : u64_wrap (u64_wrap (a + b) + c) = u64_wrap (a + (b + c)).
Proof. unfold u64_wrap, wrap. rewrite Zplus_mod_idemp_l. f_equal. lia. Qed.

Definition wrapped (s : CacheStats) : Prop := u64_wrap (n_objects s) = n_objects s ∧ u64_wrap (bytes_stored s) = bytes_stored s.

Lemma run_stats ops : ∀ (e e' : engine),
  engine_run fmt_fixed ops e = Some e' → wrapped (eng_stats e) →
  idle (eng_stats e') = idle (eng_stats e)
  ∧ gauges (eng_stats e') = (u64_wrap (n_objects (eng_stats e) + Z.of_nat (length (insertions ops e))),
                             u64_wrap (bytes_stored (eng_stats e) + total_len (insertions ops e))).
Proof.
  induction ops as [|o ops IH]; intros e e'; cbn [engine_run insertions].
  { intros [= <-] [H1 H2]. cbn. rewrite !Z.add_0_r. split; [done|]. unfold gauges. by rewrite H1, H2. }
  destruct (engine_exec fmt_fixed o e) as [e1|] eqn:E; cbn [mbind option_bind]; [|done]. intros Hr Hw.
  destruct (exec_stats _ _ _ E) as [Hi Hg]. assert (Hw1 : wrapped (eng_stats e1)).
  { destruct Hw as [H1 H2]. unfold wrapped. destruct (inserted o e) as [n|]; injection Hg as -> ->; [|done].
    unfold u64_wrap, wrap. by rewrite !Z.mod_mod. }
  destruct (IH e1 e' Hr Hw1) as (-> & ->). split; [done|].
  destruct (inserted o e) as [n|]; cbn [option_list app length]; injection Hg as -> ->; [|done].
  rewrite !wrap_step. unfold total_len. cbn. apply f_equal2; [f_equal; lia|reflexivity].
Qed.

(** C17. The metrics of the cache after any operations from its creation.  The gauge of
    objects is the number of objects ever inserted, and that of bytes the sum of their
    lengths, whatever was evicted, purged or expired since; the counters of passes,
    of backend fetches and of ban checks stand at zero.  The hit rate exported is the
    one the administration shows. *)
Theorem metrics_of_run config hash storage log max ops (e : engine) :
  engine_run fmt_fixed ops (CacheEngine_with_max_objects config hash storage log max) = Some e →
  let ins := insertions ops (CacheEngine_with_max_objects config hash storage log max) in
  metric (str "varaha_cache_objects") (eng_stats e) = Some (Gauge (u64_wrap (Z.of_nat (length ins))))
  ∧ metric (str "varaha_cache_bytes_stored") (eng_stats e) = Some (Gauge (u64_wrap (total_len ins)))
  ∧ metric (str "varaha_cache_pass_total") (eng_stats e) = Some (Counter 0)
  ∧ metric (str "varaha_cache_backend_fetches_total") (eng_stats e) = Some (Counter 0)
  ∧ metric (str "varaha_cache_bans_checked_total") (eng_stats e) = Some (Counter 0)
  ∧ metric (str "varaha_cache_hit_rate") (eng_stats e) = Some (GaugeF64 (AdminHandler.hit_rate (eng_stats e))).
Proof.
  intros E. cbv zeta. destruct (run_stats ops _ e E) as [Hi Hg]; [done|]. cbn in Hi, Hg. injection Hi as Hp Hf Hc. injection Hg as Ho Hb.
  rewrite Z.add_0_l in Ho, Hb. rewrite <- Ho, <- Hb, <- Hp, <- Hf, <- Hc at 1. split_and!; reflexivity.
Qed.
End engine.

(** The concrete run of the engine: four objects were inserted, one is left. *)
Lemma metrics_of_run_witness :
  metric (str "varaha_cache_objects") (eng_stats engine1) = Some (Gauge 4) ∧ size (eng_objects engine1) = 1%nat.
Proof.
  split; [|vm_compute; reflexivity].
  destruct (metrics_of_run (Stevedore0 := sample_stevedore) (regex := substring_regex) sample_fmt tt (hs_new, ∅) (Malloc.new (str "s0") 10000) sample_log 2 engine_sample engine1) as [H _].
  - apply default_is_Some. vm_compute. reflexivity.
  - rewrite H. vm_compute. reflexivity.
Defined.
