(* ===== verification/Tools.v ===== *)
(** * The statistics tool

    Models [rv-tools/src/stat.rs]: the client of the administration protocol and the
    reading of the status text, over the bytes the server sends.  Against the server
    of [AdminHandler] the client gets the answers to its commands, and its JSON
    output holds the server's own counters; a server with a secret cannot be reached.
    With it [log_viewer.rs], the formatting of log records. *)

From S2P Require Import Prelude RustStr F64 Enums Types Vary Fetch Stevedore Ban RingLog HashSlinger Engine Config.
From S2P Require Import Http1 Vmod VclSyntax VclInterp VclManager AdminProtocol AdminCommands AdminParams AdminHandler.
Local Open Scope Z_scope.

(* ------------------------------------------------------------------ *)
(** ** The client *)

(** The errors of the tool; the protocol's own are [StatAdmin]. *)
Inductive stat_error : Set :=
| StatEof
| StatUtf8 (line : bytes)
| StatMissingLength
| StatParseInt (s : bytes)
| StatAdmin (e : AdminError.t)
| StatAuthFailed (body : bytes)
| StatStatusFailed (code : Z) (body : bytes).

(** A connected client: what the server still has to say and what was sent. *)
Record StatClient : Set := mkStatClient { sc_in : bytes; sc_out : bytes }.

(** An operation returns a result and the client, or panics. *)
Definition stat (A : Type) : Type := StatClient → option (result A stat_error * StatClient).

Definition stat_ret {A} (a : A) : stat A := λ c, Some (Ok a, c).
Definition stat_err {A} (e : stat_error) : stat A := λ c, Some (Err e, c).
Definition stat_bind {A B} (m : stat A) (k : A → stat B) : stat B := λ c,
  match m c with
  | Some (Ok a, c) => k a c
  | Some (Err e, c) => Some (Err e, c)
  | None => None
  end.

Declare Scope stat_scope.
Notation "x ←c m ; k" := (stat_bind m (λ x, k))
  (at level 20, m at level 100, k at level 200, right associativity) : stat_scope.
Notation "'  p ←c m ; k" := (stat_bind m (λ p, k))
  (at level 20, p pattern, m at level 100, k at level 200, right associativity) : stat_scope.
Local Open Scope stat_scope.

(** A missing value or an error of the given kind. *)
Definition stat_opt {A} (o : option A) (e : stat_error) : stat A :=
  match o with Some a => stat_ret a | None => stat_err e end.

Definition stat_send (s : bytes) : stat unit := λ c, Some (Ok tt, mkStatClient (sc_in c) (sc_out c ++ s)).

(** [read_exact] into a buffer of [n] bytes, which may be too large to allocate. *)
Definition stat_read_exact (n : Z) : stat bytes := λ c,
  if i64_max <? n then None
  else if n <=? len (sc_in c)
  then Some (Ok (take (Z.to_nat n) (sc_in c)), mkStatClient (drop (Z.to_nat n) (sc_in c)) (sc_out c))
  else Some (Err StatEof, mkStatClient [] (sc_out c)).

(** One byte at a time up to a newline, which is dropped. *)
Fixpoint line_bytes (s : bytes) : option (bytes * bytes) :=
  match s with
  | [] => None
  | b :: s =>
      if decide (b = x0a) then Some ([], s)
      else '(line, rest) ← line_bytes s; Some (b :: line, rest)
  end.

Definition StatClient_read_line : stat bytes := λ c,
  match line_bytes (sc_in c) with
  | None => Some (Err StatEof, mkStatClient [] (sc_out c))
  | Some (line, rest) =>
      stat_opt (from_utf8 line) (StatUtf8 line) (mkStatClient rest (sc_out c))
  end.

(** [u8::from_str_radix(s, 16)] *)
Definition parse_u8_hex (s : bytes) : option Z :=
  match parse_hex s with
  | Some v => if v <=? 255 then Some v else None
  | None => None
  end.

Fixpoint hex_decode_chars (cs : list bytes) : bytes :=
  match cs with
  | hi :: lo :: cs => u8_of (default 0 (parse_u8_hex (hi ++ lo))) :: hex_decode_chars cs
  | _ => []
  end.
Definition hex_decode (hex : bytes) : bytes := hex_decode_chars (chars hex).

Section client.
  Context {errors : StdErrors}.

(** The decoded response, or the panic of the decoder. *)
Definition stat_decode (msg : bytes) : stat CliResponse := λ c,
  match decode_response msg with
  | None => None
  | Some (Ok r) => Some (Ok r, c)
  | Some (Err e) => Some (Err (StatAdmin e), c)
  end.

Definition StatClient_read_response : stat CliResponse :=
  header ←c StatClient_read_line;
  '(status_str, length_str) ←c stat_opt (split_once [x20] header) StatMissingLength;
  let length_str := trim length_str in
  _ ←c stat_opt (parse_u16 status_str) (StatParseInt status_str);
  body_len ←c stat_opt (parse_u64 length_str) (StatParseInt length_str);
  body_buf ←c stat_read_exact (u64_wrap (body_len + 1));
  stat_decode (header ++ [x0a] ++ body_buf).

(** A connection, given the bytes the server will send. *)
Definition StatClient_connect : stat unit :=
  _ ←c StatClient_read_response; stat_ret tt.

Definition StatClient_connect_with_auth (sha256 : bytes → bytes) (secret : bytes) : stat unit :=
  challenge_resp ←c StatClient_read_response;
  let challenge_bytes := hex_decode (trim (cr_body challenge_resp)) in
  _ ←c stat_send (compute_auth_response sha256 challenge_bytes secret ++ [x0a]);
  result ←c StatClient_read_response;
  if decide (cr_status result = CliStatus.Ok) then stat_ret tt else stat_err (StatAuthFailed (cr_body result)).

Definition StatClient_send_command (cmd : bytes) : stat CliResponse :=
  _ ←c stat_send (cmd ++ [x0a]); StatClient_read_response.

Definition StatClient_get_status : stat bytes :=
  resp ←c StatClient_send_command (str "status");
  if decide (cr_status resp = CliStatus.Ok) then stat_ret (cr_body resp)
  else stat_err (StatStatusFailed (CliStatus.code (cr_status resp)) (cr_body resp)).

End client.

Definition replace_char (c d : byte) (s : bytes) : bytes := (λ b, if decide (b = c) then d else b) <$> s.

Section fields.
  Context (to_lowercase : bytes → bytes).

Definition status_field (map : gmap bytes bytes) (line : bytes) : gmap bytes bytes :=
  let line := trim line in
  if bool_decide (line = []) then map
  else match split_once [x3a] line with
       | Some (key, value) =>
           let key := replace_char x20 x5f (to_lowercase (trim key)) in
           let value := trim value in
           <[key := value]> map
       | None => map
       end.

Definition parse_status_fields (body : bytes) : gmap bytes bytes := foldl status_field ∅ (str_lines body).

End fields.

(* ------------------------------------------------------------------ *)
(** ** The log viewer *)

Section viewer.
  Context (fmt_fixed : nat → f64 → bytes).

(** [Display] of a [Vxid] writes the number and does not honour the width. *)
Definition format_entry (entry : LogRecord) : bytes :=
  pad_right 12 (LogTag_name (lr_tag entry)) ++ str " " ++ show_u64 (vxid_id (lr_vxid entry)) ++ str " "
  ++ fmt_fixed 6 (lr_timestamp entry) ++ str " " ++ lr_data entry.

Definition LogViewer_tail (count : Z) (b : RingBuffer) : option (list bytes) :=
  match LogReader_tail count b with Some records => Some (format_entry <$> records) | None => None end.

Definition LogViewer_read_new (r : LogReader) (b : RingBuffer) : option (list bytes * LogReader) :=
  match LogReader_read_new r b with Some (records, r) => Some (format_entry <$> records, r) | None => None end.

Definition LogViewer_read_all (b : RingBuffer) : option (list bytes) :=
  match LogReader_read_all b with Some records => Some (format_entry <$> records) | None => None end.

End viewer.

(** Whether a line passes the tag given on the command line. *)
Definition viewer_shown (tag_filter : option bytes) (entry : bytes) : bool :=
  match tag_filter with Some tag => contains tag entry | None => true end.

(* ------------------------------------------------------------------ *)
(** ** Reading what the server frames *)

Lemma line_bytes_app l r : (x0a ∉ l) → line_bytes (l ++ x0a :: r) = Some (l, r).
Proof.
  induction l as [|b l IH]; cbn [app line_bytes]; [done|]. intros H.
  rewrite decide_False by set_solver. rewrite IH by set_solver. done.
Qed.

Section framing.
  Context {errors : StdErrors}.

(** The header and the body of a frame of any status code are read, and what is
    decoded is the frame. *)
Lemma read_frame code body rest out :
  0 ≤ code ≤ u16_max → len body < i64_max →
  StatClient_read_response
    (mkStatClient (show_u64 code ++ str " " ++ show_u64 (len body) ++ [x0a] ++ body ++ [x0a] ++ rest) out)
  = stat_decode (show_u64 code ++ str " " ++ show_u64 (len body) ++ [x0a] ++ body ++ [x0a]) (mkStatClient rest out).
Proof.
  intros Hc Hl. assert (Hl0 : 0 ≤ len body) by (unfold len; lia). unfold u16_max, i64_max in *.
  assert (Hc' : 0 ≤ code ≤ u64_max) by (unfold u64_max; lia). assert (Hlb : 0 ≤ len body ≤ u64_max) by (unfold u64_max; lia).
  set (header := show_u64 code ++ str " " ++ show_u64 (len body)).
  assert (Hn : x0a ∉ header).
  { unfold header. rewrite !not_elem_of_app. split_and!; [by apply show_u64_notin| |by apply show_u64_notin].
    apply (bool_decide_unpack _). vm_compute. exact I. }
  assert (Hu : utf8_valid header = true).
  { rewrite <- (app_nil_r header). rewrite ascii_utf8; [done|]. unfold header. rewrite !Forall_app.
    split_and!; [by apply digits_ascii, show_u64_digits|by repeat constructor|by apply digits_ascii, show_u64_digits]. }
  transitivity (stat_decode (header ++ [x0a] ++ body ++ [x0a]) (mkStatClient rest out)); [|unfold header; by rewrite <- !app_assoc].
  unfold StatClient_read_response, stat_bind at 1, StatClient_read_line. cbn [sc_in sc_out].
  replace (show_u64 code ++ _) with (header ++ x0a :: (body ++ [x0a]) ++ rest) by (unfold header; by rewrite <- !app_assoc).
  rewrite line_bytes_app by done. unfold from_utf8. rewrite Hu. cbn [stat_opt stat_ret].
  unfold header at 1. rewrite split_once_first; [|by apply show_u64_notin]. unfold stat_bind at 1. cbn [stat_opt stat_ret].
  rewrite trim_graphic by by apply show_u64_graphic. unfold stat_bind at 1.
  assert (parse_u16 (show_u64 code) = Some code) as -> by (apply parse_show_uint; unfold u16_max, u64_max; lia).
  cbn [stat_opt stat_ret]. unfold stat_bind at 1. rewrite parse_show_u64 by done. cbn [stat_opt stat_ret].
  rewrite u64_wrap_small by (unfold u64_max; lia). unfold stat_bind, stat_read_exact. cbn [sc_in sc_out].
  rewrite (proj2 (Z.ltb_ge _ _)) by (unfold i64_max; lia).
  assert (Hlen : Z.to_nat (len body + 1) = length (body ++ [x0a])) by (unfold len; rewrite length_app; simpl; lia).
  rewrite (proj2 (Z.leb_le _ _)) by (unfold len; rewrite !length_app; simpl; lia).
  by rewrite Hlen, take_app_length, drop_app_length.
Qed.

(** A response is read as it was sent. *)
Lemma read_response_encoded r rest out :
  utf8_valid (cr_body r) = true → len (cr_body r) < i64_max →
  StatClient_read_response (mkStatClient (encode_response r ++ rest) out) = Some (Ok r, mkStatClient rest out).
Proof.
  intros Hu Hl. unfold encode_response. rewrite <- !app_assoc.
  rewrite read_frame by (apply code_range || exact Hl). unfold stat_decode.
  pose proof (cli_response_roundtrip r Hu) as H. unfold encode_response in H. rewrite H; [done|]. unfold i64_max in Hl. lia.
Qed.

End framing.

(* ------------------------------------------------------------------ *)
(** ** The client against the server *)

Definition body_ok (r : CliResponse) : Prop := utf8_valid (cr_body r) = true ∧ len (cr_body r) < i64_max.

Section session.
  Context {errors : StdErrors}.
  Context {Ip : Type} {corefmt : CoreFmt} {regex : RegexLib} {C : Type} {cache : AdminCache C}.
  Context (fmt_fixed : nat → f64 → bytes) (Regex_as_str : Regex → bytes) (sha256 : bytes → bytes) (challenge : bytes).

(** What the server does on one line. *)
Definition line_answer (now : clock) (line : bytes) (x : AdminContext (Ip := Ip) (C := C)) :
    option (CliResponse * AdminContext) :=
  match parse_command (trim line) with
  | Ok cmd => handle_command fmt_fixed Regex_as_str now cmd x
  | Err e => Some (mkCliResponse CliStatus.UnknownCommand (AdminError.display e), x)
  end.

(** The answers to commands that do not end the session. *)
Inductive answers : list (clock * bytes) → AdminContext → list CliResponse → AdminContext → Prop :=
| answers_nil x : answers [] x [] x
| answers_cons now line lines x r x1 rs x2 :
    trim line ≠ [] → quit_line (trim line) = false → line_answer now line x = Some (r, x1) →
    cr_status r ≠ CliStatus.Close → answers lines x1 rs x2 → answers ((now, line) :: lines) x (r :: rs) x2.

Lemma answers_loop lines x rs x' :
  answers lines x rs x' → command_loop fmt_fixed Regex_as_str lines x = Some (encode_response <$> rs, x').
Proof.
  induction 1 as [x|now line lines x r x1 rs x2 Hne Hq Ha Hc _ IH]; [done|].
  cbn [command_loop]. unfold line_answer in Ha.
  destruct (trim line) as [|b t]; [done|]. rewrite Hq, Ha. cbn [mbind option_bind].
  rewrite decide_False by done. by rewrite IH.
Qed.

(** A client that sends commands one after the other. *)
Fixpoint send_commands (cmds : list bytes) : stat (list CliResponse) :=
  match cmds with
  | [] => stat_ret []
  | cmd :: cmds => r ←c StatClient_send_command cmd; rs ←c send_commands cmds; stat_ret (r :: rs)
  end.

Definition command_line (cmd : bytes) : bytes := cmd ++ [x0a].

Lemma send_commands_read cmds : ∀ rs out,
  length rs = length cmds → Forall body_ok rs →
  send_commands cmds (mkStatClient (concat (encode_response <$> rs)) out)
  = Some (Ok rs, mkStatClient [] (out ++ concat (command_line <$> cmds))).
Proof.
  induction cmds as [|cmd cmds IH]; intros rs out Hlen Hok.
  - apply nil_length_inv in Hlen as ->. cbn. by rewrite app_nil_r.
  - destruct rs as [|r rs]; [done|]. apply Forall_cons in Hok as [[Hu Hl] Hok]. injection Hlen as Hlen.
    cbn [send_commands fmap list_fmap concat]. unfold StatClient_send_command, stat_bind at 1 2, stat_send. cbn [sc_in sc_out].
    rewrite read_response_encoded by done. unfold stat_bind. rewrite IH by done. unfold stat_ret, command_line.
    by rewrite <- !app_assoc.
Qed.

(** A server without a secret answers a client's commands: the client reads exactly the
    responses to its commands, in order, and nothing is left over. *)
Lemma client_session cmds clocks x rs x' :
  length clocks = length cmds →
  answers (zip clocks (command_line <$> cmds)) x rs x' → Forall body_ok rs →
  ∃ frames, handle_connection fmt_fixed Regex_as_str sha256 challenge None (zip clocks (command_line <$> cmds)) x = Some (frames, x')
    ∧ stat_bind StatClient_connect (λ _, send_commands cmds) (mkStatClient (concat frames) [])
      = Some (Ok rs, mkStatClient [] (concat (command_line <$> cmds))).
Proof.
  intros Hc Ha Hok. unfold handle_connection. rewrite (answers_loop _ _ _ _ Ha). cbn [mbind option_bind].
  eexists. split; [reflexivity|].
  assert (Hlen : length rs = length cmds).
  { assert (length rs = length (zip clocks (command_line <$> cmds))) as ->
      by (clear -Ha; induction Ha; simpl; congruence).
    rewrite length_zip, length_fmap. lia. }
  cbn [app concat]. unfold stat_bind at 1, StatClient_connect, stat_bind at 1.
  rewrite read_response_encoded by (vm_compute; reflexivity). cbn [stat_ret]. by rewrite send_commands_read.
Qed.

(** A frame with a status the protocol does not know is refused. *)
Lemma decode_unknown code body :
  0 ≤ code ≤ u16_max → CliStatus.from_code code = None → utf8_valid body = true → len body ≤ u64_max →
  decode_response (show_u64 code ++ str " " ++ show_u64 (len body) ++ [x0a] ++ body ++ [x0a])
  = Some (Err (AdminError.InvalidCommand (str "unknown status code: " ++ show_u64 code))).
Proof.
  intros Hc Hn Hu Hl. assert (Hlb : 0 ≤ len body ≤ u64_max) by (unfold len in *; lia).
  assert (Hc' : 0 ≤ code ≤ u64_max) by (unfold u16_max, u64_max in *; lia).
  set (header := show_u64 code ++ str " " ++ show_u64 (len body)).
  assert (Hh : x0a ∉ header).
  { unfold header. rewrite !not_elem_of_app. split_and!; [by apply show_u64_notin| |by apply show_u64_notin].
    apply (bool_decide_unpack _). vm_compute. exact I. }
  replace (show_u64 code ++ _) with (header ++ [x0a] ++ body ++ [x0a]) by (unfold header; by rewrite <- !app_assoc).
  assert (utf8_valid (header ++ [x0a] ++ body ++ [x0a]) = true) as Hv.
  { rewrite app_assoc, ascii_utf8; [by rewrite utf8_valid_split, Hu|].
    unfold header. rewrite !Forall_app.
    split_and!; [by apply digits_ascii, show_u64_digits|by repeat constructor|by apply digits_ascii, show_u64_digits|by repeat constructor]. }
  unfold decode_response, from_utf8. rewrite Hv, split_once_first by done.
  unfold decode_header, header. rewrite split_once_first by by apply show_u64_notin. cbn [ok_or result_bind].
  assert (parse_u16 (show_u64 code) = Some code) as -> by (apply parse_show_uint; unfold u16_max, u64_max in *; lia).
  cbn [ok_or result_bind]. rewrite parse_show_u64 by done. cbn [ok_or result_bind]. by rewrite Hn.
Qed.

Lemma hex_encode_ascii s : Forall (λ b, byte_in 0 127 b = true) (hex_encode s) ∧ length (hex_encode s) = (2 * length s)%nat.
Proof.
  induction s as [|b s [IH IHl]]; [done|]. change (hex_encode (b :: s)) with (hex_byte b ++ hex_encode s).
  split; [|rewrite length_app, IHl; simpl; lia]. apply Forall_app. split; [|done].
  apply (bool_decide_unpack _). by destruct b; vm_compute.
Qed.

(** Where a secret is configured the tool cannot connect: the status of the server's
    first frame is not one the protocol's decoder knows, so whatever secret the tool
    is given, it gives up before it answers the challenge, and the server executes
    nothing. *)
Lemma auth_unreachable secret given (x : AdminContext (Ip := Ip) (C := C)) :
  len challenge < 2 ^ 32 →
  ∃ c, handle_connection fmt_fixed Regex_as_str sha256 challenge (Some secret) [] x = Some ([challenge_frame challenge], x)
    ∧ (∀ rest, StatClient_connect_with_auth sha256 given (mkStatClient (challenge_frame challenge ++ rest) [])
           = Some (Err (StatAdmin (AdminError.InvalidCommand (str "unknown status code: 107"))), c rest)
         ∧ sc_out (c rest) = []).
Proof.
  intros Hl. exists (λ rest, mkStatClient rest []). split; [done|]. intros rest. split; [|done].
  destruct (hex_encode_ascii challenge) as [Ha Hlen].
  assert (Hle : len (hex_encode challenge) < 2 ^ 33) by (unfold len in *; lia).
  assert (Hu : utf8_valid (hex_encode challenge) = true) by (rewrite <- (app_nil_r (hex_encode challenge)); by rewrite ascii_utf8).
  unfold StatClient_connect_with_auth, stat_bind at 1, challenge_frame. cbv zeta. rewrite <- !app_assoc.
  change (str "107 ") with (show_u64 107 ++ str " "). rewrite <- !app_assoc.
  rewrite read_frame; [|unfold u16_max; lia|unfold i64_max; lia]. unfold stat_decode.
  rewrite decode_unknown; [reflexivity|unfold u16_max; lia|reflexivity|done|unfold u64_max; lia].
Qed.

End session.

(* ------------------------------------------------------------------ *)
(** ** The fields of the status text *)

(** Printable ASCII, spaces included. *)
Definition printable_byte (b : byte) : Prop := 32 ≤ u8_val b < 128.

#[global] Instance printable_dec b : Decision (printable_byte b).
Proof. unfold printable_byte. apply _. Defined.

Lemma graphic_printable s : Forall ascii_graphic s → Forall printable_byte s.
Proof. intros H. eapply Forall_impl; [exact H|]. unfold ascii_graphic, printable_byte. lia. Qed.

Lemma printable_notin b s : ¬ printable_byte b → Forall printable_byte s → (b ∉ s).
Proof. intros Hb Hs Hin. rewrite Forall_forall in Hs. by apply Hb, Hs. Qed.

Lemma printable_ascii s : Forall printable_byte s → Forall (λ b, byte_in 0 127 b = true) s.
Proof.
  intros H. eapply Forall_impl; [exact H|]. unfold printable_byte, byte_in. intros b Hb. apply andb_true_intro. split; apply Z.leb_le; lia.
Qed.

(** Printable lines joined are read back as they are. *)
Lemma str_lines_join ls :
  ls ≠ [] → last ls ≠ Some [] → Forall (Forall printable_byte) ls → str_lines (join [x0a] ls) = ls.
Proof.
  intros Hne Hl Hp. unfold str_lines. rewrite split_char_join_inv; [|done|].
  - destruct ls as [|l ls _] using rev_ind; [done|]. rewrite last_snoc in Hl |- *. rewrite removelast_last.
    assert (Hs : (λ l, default l (strip_suffix [x0d] l)) <$> ls = ls).
    { transitivity (id <$> ls); [|apply list_fmap_id]. apply list_fmap_ext. intros i l' Hi. rewrite strip_suffix_notin; [done|].
      apply printable_notin; [apply (bool_decide_unpack _); vm_compute; exact I|]. rewrite Forall_forall in Hp. apply Hp.
      apply elem_of_app. left. by eapply list_elem_of_lookup_2. }
    rewrite Hs. by destruct l.
  - eapply Forall_impl; [exact Hp|]. intros l. apply printable_notin, (bool_decide_unpack _). vm_compute. exact I.
Qed.

Lemma join_ascii ls : Forall (Forall printable_byte) ls → Forall (λ b, byte_in 0 127 b = true) (join [x0a] ls).
Proof.
  induction 1 as [|l ls Hl Hls IH]; [constructor|]. destruct ls as [|l' ls]; [by apply printable_ascii|].
  change (join [x0a] (l :: l' :: ls)) with (l ++ [x0a] ++ join [x0a] (l' :: ls)).
  rewrite !Forall_app. split_and!; [by apply printable_ascii|by repeat constructor|done].
Qed.

(** What the standard library documents of [to_lowercase] on an ASCII string. *)
Class LowercaseExact (to_lowercase : bytes → bytes) : Prop :=
  lowercase_exact s : Forall is_ascii s → to_lowercase s = to_ascii_lowercase s.

#[global] Instance to_ascii_lowercase_exact : LowercaseExact to_ascii_lowercase.
Proof. by intros s _. Qed.

(** A line of a key and a value sets the field. *)
Lemma status_field_line to_lowercase `{!LowercaseExact to_lowercase} m key v :
  key ≠ [] → trimmed key → (x3a ∉ key) → Forall is_ascii key → v ≠ [] → trimmed v →
  status_field to_lowercase m (key ++ str ": " ++ v) = <[replace_char x20 x5f (to_ascii_lowercase key) := v]> m.
Proof.
  intros Hk Tk Nk Ak Hv Tv. change (key ++ str ": " ++ v) with (key ++ x3a :: x20 :: v).
  assert (Tl : trimmed (key ++ x3a :: x20 :: v)).
  { destruct (graphic_not_in_ws x3a) as [H1 _]; [by vm_compute|]. split; [apply strip_any_app; [done..|apply Tk]|].
    rewrite reverse_app, !reverse_cons, <- !app_assoc. cbn [app]. apply strip_any_app; [| |apply Tv].
    - intros E. apply (f_equal reverse) in E. by rewrite reverse_involutive in E.
    - apply (bool_decide_unpack _). vm_compute. exact I. }
  unfold status_field. rewrite (trim_trimmed _ Tl). rewrite bool_decide_false by (intros E; by apply app_eq_nil in E as [? _]).
  change (key ++ x3a :: x20 :: v) with (key ++ [x3a] ++ x20 :: v). rewrite split_once_first by done.
  by rewrite (trim_trimmed key Tk), trim_space, (lowercase_exact (to_lowercase := to_lowercase)).
Qed.

Section json.
  Context {errors : StdErrors}.
  Context {Ip : Type} {corefmt : CoreFmt} {regex : RegexLib} {C : Type} {cache : AdminCache C}.
  Context (fmt_fixed : nat → f64 → bytes) (Regex_as_str : Regex → bytes) (sha256 : bytes → bytes) (challenge : bytes).
  Context (to_lowercase : bytes → bytes) `{lower : !LowercaseExact to_lowercase}.
  Context (now : clock) (x : AdminContext (Ip := Ip) (C := C)).

Definition uptime : Z := as_secs (saturating_sub (ck_mono now) (ad_start_time x)).
Definition uptime_text : bytes :=
  show_u64 (uptime / 3600) ++ str "h " ++ pad_left 2 x30 (show_u64 (uptime mod 3600 / 60)) ++ str "m "
  ++ pad_left 2 x30 (show_u64 (uptime mod 60)) ++ str "s".
Definition rate_text : bytes := fmt_fixed 1 (hit_rate (cache_stats (ad_cache x))) ++ str "%".

Definition status_lines : list bytes :=
  let stats := cache_stats (ad_cache x) in
  [str "Child (worker) process is " ++ (if ad_running x then str "running" else str "stopped") ++ str ".";
   str "Uptime" ++ str ": " ++ uptime_text;
   str "Objects" ++ str ": " ++ show_u64 (n_objects stats);
   str "Cache hits" ++ str ": " ++ show_u64 (cache_hit stats);
   str "Cache misses" ++ str ": " ++ show_u64 (cache_miss stats);
   str "Hit rate" ++ str ": " ++ rate_text].

Lemma status_body : cr_body (handle_status fmt_fixed now x) = join [x0a] status_lines.
Proof.
  unfold handle_status, status_lines, rate_text, uptime_text, uptime. cbn [cr_body CliResponse_ok join].
  rewrite <- !app_assoc. reflexivity.
Qed.

(** The server's numbers fit their machine types, and floats are printed in graphic
    ASCII characters. *)
Definition status_printable : Prop :=
  let stats := cache_stats (ad_cache x) in
  0 ≤ ad_start_time x ∧ ck_mono now ≤ u64_max
  ∧ 0 ≤ n_objects stats ≤ u64_max ∧ 0 ≤ cache_hit stats ≤ u64_max ∧ 0 ≤ cache_miss stats ≤ u64_max
  ∧ Forall ascii_graphic (fmt_fixed 1 (hit_rate stats)) ∧ len (fmt_fixed 1 (hit_rate stats)) ≤ 400.

Lemma pad_zero_graphic z : 0 ≤ z ≤ u64_max → Forall ascii_graphic (pad_left 2 x30 (show_u64 z)).
Proof.
  intros Hz. unfold pad_left. apply Forall_app. split; [|by apply show_u64_graphic].
  apply Forall_replicate. by vm_compute.
Qed.

Lemma uptime_printable :
  status_printable → Forall printable_byte uptime_text ∧ trimmed uptime_text ∧ uptime_text ≠ [].
Proof.
  intros (Hs & Hn & _). assert (Hu : 0 ≤ uptime ≤ u64_max).
  { unfold uptime, as_secs, saturating_sub, u64_max in *. split; [apply Z.div_pos; lia|].
    apply Z.div_le_upper_bound; lia. }
  assert (H1 : 0 ≤ uptime / 3600 ≤ u64_max) by (unfold u64_max in *; split; [apply Z.div_pos; lia|apply Z.div_le_upper_bound; lia]).
  assert (H2 : 0 ≤ uptime mod 3600 / 60 ≤ u64_max).
  { pose proof (Z.mod_pos_bound uptime 3600 ltac:(lia)). unfold u64_max.
    split; [apply Z.div_pos; lia|apply Z.div_le_upper_bound; lia]. }
  assert (H3 : 0 ≤ uptime mod 60 ≤ u64_max) by (pose proof (Z.mod_pos_bound uptime 60 ltac:(lia)); unfold u64_max; lia).
  pose proof (show_u64_graphic _ H1) as G1. destruct (show_u64_cons (uptime / 3600)) as (c & t & Ec).
  unfold uptime_text. split.
  - rewrite !Forall_app. split_and!; try (by apply graphic_printable); try (by apply graphic_printable, pad_zero_graphic);
      apply (bool_decide_unpack _); vm_compute; exact I.
  - rewrite Ec in *. cbn [app]. apply Forall_cons in G1 as [Gc _]. split; [|discriminate].
    eapply (trimmed_graphic c _ x73); [done|by vm_compute|]. rewrite app_comm_cons, !app_assoc. apply last_snoc.
Qed.

Lemma rate_printable : status_printable → Forall ascii_graphic rate_text ∧ rate_text ≠ [].
Proof.
  intros (_ & _ & _ & _ & _ & H & _). unfold rate_text. split; [|by destruct (fmt_fixed _ _)].
  apply Forall_app. split; [done|]. apply (bool_decide_unpack _). vm_compute. exact I.
Qed.

Lemma graphic_trimmed s : Forall ascii_graphic s → s ≠ [] → trimmed s.
Proof. intros Hs Hne. destruct (word_ends s (conj Hne Hs)) as (a & t & b & -> & Ha & Hl & Hb). by eapply trimmed_graphic. Qed.

Lemma field_printable k v :
  bool_decide (Forall printable_byte k) = true → Forall printable_byte v → Forall printable_byte (k ++ str ": " ++ v).
Proof.
  intros Hk%bool_decide_eq_true_1 Hv. apply Forall_app. split; [done|]. apply Forall_app. split; [|done].
  apply (bool_decide_unpack _). vm_compute. exact I.
Qed.

Lemma status_lines_printable : status_printable → Forall (Forall printable_byte) status_lines.
Proof.
  intros H. pose proof (uptime_printable H) as (Hu & _). pose proof (rate_printable H) as [Hr _].
  destruct H as (_ & _ & H1 & H2 & H3 & _). unfold status_lines. cbv zeta.
  apply Forall_cons. split; [destruct (ad_running x); apply (bool_decide_unpack _); vm_compute; exact I|].
  apply Forall_cons. split; [by apply field_printable|].
  apply Forall_cons. split; [by apply field_printable, graphic_printable, show_u64_graphic|].
  apply Forall_cons. split; [by apply field_printable, graphic_printable, show_u64_graphic|].
  apply Forall_cons. split; [by apply field_printable, graphic_printable, show_u64_graphic|].
  apply Forall_cons. split; [by apply field_printable, graphic_printable|constructor].
Qed.

Lemma field_set m key v :
  bool_decide (key ≠ [] ∧ trimmed key ∧ (x3a ∉ key) ∧ Forall is_ascii key) = true → v ≠ [] → trimmed v →
  status_field to_lowercase m (key ++ str ": " ++ v) = <[replace_char x20 x5f (to_ascii_lowercase key) := v]> m.
Proof. intros (? & ? & ? & ?)%bool_decide_eq_true_1 ? ?. by apply status_field_line. Qed.

Definition status_fields : gmap bytes bytes :=
  let stats := cache_stats (ad_cache x) in
  <[str "hit_rate" := rate_text]> (<[str "cache_misses" := show_u64 (cache_miss stats)]>
  (<[str "cache_hits" := show_u64 (cache_hit stats)]> (<[str "objects" := show_u64 (n_objects stats)]>
  (<[str "uptime" := uptime_text]> ∅)))).

Lemma number_trimmed z : 0 ≤ z ≤ u64_max → show_u64 z ≠ [] ∧ trimmed (show_u64 z).
Proof.
  intros Hz. assert (show_u64 z ≠ []) by (destruct (show_u64_cons z) as (c & s & ->); discriminate).
  split; [done|]. apply graphic_trimmed; [by apply show_u64_graphic|done].
Qed.

Lemma status_fields_read : status_printable → parse_status_fields to_lowercase (join [x0a] status_lines) = status_fields.
Proof.
  intros H. destruct (uptime_printable H) as (_ & Tu & Nu). destruct (rate_printable H) as [Gr Nr].
  assert (Tr : trimmed rate_text) by by apply graphic_trimmed.
  unfold parse_status_fields. rewrite str_lines_join; [|discriminate| |by apply status_lines_printable].
  2: { cbn. discriminate. }
  destruct H as (_ & _ & H1 & H2 & H3 & _).
  destruct (number_trimmed _ H1), (number_trimmed _ H2), (number_trimmed _ H3).
  unfold status_lines. cbv zeta. cbn [foldl].
  assert (status_field to_lowercase ∅ (str "Child (worker) process is " ++ (if ad_running x then str "running" else str "stopped") ++ str ".")
          = ∅) as -> by (destruct (ad_running x); vm_compute; reflexivity).
  do 5 (rewrite field_set; [|vm_compute; reflexivity|assumption..]). reflexivity.
Qed.

Lemma status_length : status_printable → len (join [x0a] status_lines) < i64_max.
Proof.
  intros (_ & _ & _ & _ & _ & _ & Hr). unfold status_lines, rate_text, uptime_text, len, i64_max in *. cbv zeta. cbn [join].
  assert (Hs : ∀ z, (length (show_u64 z) ≤ 20)%nat) by (intros z; apply show_fuel_length).
  assert (Hd : ∀ z, (length (pad_left 2 x30 (show_u64 z)) ≤ 22)%nat)
    by (intros z; unfold pad_left; rewrite length_app, length_replicate; specialize (Hs z); lia).
  rewrite !length_app. repeat match goal with |- context [length (str ?s)] => let n := eval vm_compute in (length (str s)) in
    change (length (str s)) with n end.
  pose proof (Hs (uptime / 3600)). pose proof (Hd (uptime mod 3600 / 60)). pose proof (Hd (uptime mod 60)).
  pose proof (Hs (n_objects (cache_stats (ad_cache x)))). pose proof (Hs (cache_hit (cache_stats (ad_cache x)))).
  pose proof (Hs (cache_miss (cache_stats (ad_cache x)))).
  assert ((length (if ad_running x then str "running" else str "stopped") ≤ 7)%nat) by (destruct (ad_running x); vm_compute; lia).
  cbn [length]. lia.
Qed.

(** C32. The statistics tool shows the server's counters: connected to an administration
    server without a secret, it sends one command; the server records the command in
    its log, answers from its cache and changes nothing else; and the fields of the
    tool's JSON output are exactly the uptime, the number of objects, the hits, the
    misses and the hit rate of the cache at that moment. *)
Theorem stat_json_exact cap hist :
  ring_repr (ad_log x) cap hist → Z.of_nat (length hist) < u64_max → status_printable →
  ∃ frames body log,
    handle_connection fmt_fixed Regex_as_str sha256 challenge None [(now, command_line (str "status"))] x
    = Some (frames, set_log log x)
    ∧ ring_repr log cap (hist ++ [LogRecord_new (ck_real now) LogTag_Debug (mkVxid 0) (str "admin: status")])
    ∧ stat_bind StatClient_connect (λ _, StatClient_get_status) (mkStatClient (concat frames) [])
      = Some (Ok body, mkStatClient [] (command_line (str "status")))
    ∧ parse_status_fields to_lowercase body = status_fields.
Proof.
  intros Hr Hmax H. pose proof (status_lines_printable H) as Hp.
  destruct (ring_repr_write _ _ _ (LogRecord_new (ck_real now) LogTag_Debug (mkVxid 0) (str "admin: status")) Hr Hmax)
    as (log & El & Hlog).
  assert (Hok : body_ok (handle_status fmt_fixed now x)).
  { split; rewrite status_body; [|by apply status_length].
    rewrite <- (app_nil_r (join _ _)), ascii_utf8; [done|]. by apply join_ascii. }
  destruct Hok as [Hu Hl].
  assert (Ha : answers fmt_fixed Regex_as_str [(now, command_line (str "status"))] x [handle_status fmt_fixed now x] (set_log log x)).
  { eapply answers_cons; [by vm_compute|by vm_compute| |by vm_compute|constructor]. unfold line_answer.
    assert (parse_command (trim (command_line (str "status"))) = Ok CliCommand.Status) as -> by (vm_compute; reflexivity).
    unfold handle_command, LogWriter_log. cbn [CliCommand.name].
    change (str "admin: " ++ str "status") with (str "admin: status"). by rewrite El. }
  exists [encode_response (CliResponse_ok (str "varaha-cache admin CLI ready.")); encode_response (handle_status fmt_fixed now x)],
    (join [x0a] status_lines), log.
  split; [unfold handle_connection; by rewrite (answers_loop _ _ _ _ _ _ Ha)|].
  split; [exact Hlog|]. split; [|by apply status_fields_read].
  cbn [concat]. rewrite app_nil_r. unfold stat_bind at 1, StatClient_connect, stat_bind at 1.
  rewrite read_response_encoded by (vm_compute; reflexivity). cbn [stat_ret].
  unfold StatClient_get_status, stat_bind at 1, StatClient_send_command, stat_bind at 1, stat_send. cbn [sc_in sc_out].
  rewrite <- (app_nil_r (encode_response (handle_status fmt_fixed now x))). rewrite read_response_encoded by done.
  cbn [handle_status cr_status CliResponse_ok]. rewrite decide_True by done. unfold stat_ret. by rewrite <- status_body.
Qed.
End json.

(* ------------------------------------------------------------------ *)
(** ** Hexadecimal and the log viewer *)

(** The challenge the server prints is the challenge the client computes with. *)
Lemma hex_decode_encode s : hex_decode (hex_encode s) = s.
Proof.
  unfold hex_decode. rewrite chars_ascii.
  2: { eapply Forall_impl; [apply hex_encode_ascii|]. intros b. unfold byte_in. rewrite andb_true_iff, !Z.leb_le. lia. }
  induction s as [|b s IH]; [done|]. change (hex_encode (b :: s)) with (hex_byte b ++ hex_encode s).
  unfold hex_byte. rewrite fmap_app. cbn [fmap list_fmap app hex_decode_chars]. f_equal; [|exact IH].
  clear IH. destruct b; vm_compute; reflexivity.
Qed.

(** A sign is taken for a digit, and anything else for zero. *)
Example hex_decode_lenient : hex_decode (str "deadbeef") = [xde; xad; xbe; xef] ∧ hex_decode (str "+fzz1") = [x0f; x00].
Proof. split; vm_compute; reflexivity. Qed.

(** The last records are shown, formatted. *)
Lemma viewer_tail fmt_fixed b cap hist n :
  ring_repr b cap hist → 0 ≤ n → LogViewer_tail fmt_fixed n b = Some (format_entry fmt_fixed <$> last_n (Z.min n cap) hist).
Proof. intros Hr Hn. unfold LogViewer_tail. by rewrite (ring_tail b cap hist). Qed.

(** The tag given is looked for anywhere in the line, so another record that only
    mentions it is shown too. *)
Example viewer_tag_anywhere :
  viewer_shown (Some (str "Error")) (format_entry (λ _ _, str "0.000000") (mkLogRecord LogTag_Debug (mkVxid 7) f64_zero (str "no Error")))
  = true.
Proof. vm_compute. reflexivity. Qed.

(* ------------------------------------------------------------------ *)
(** ** A server with an empty cache *)

Lemma sample_log_repr : ring_repr sample_log 8 [].
Proof. destruct (ring_repr_new 8) as (b & E & Hr); [lia|]. unfold sample_log. rewrite E. exact Hr. Qed.

Lemma stat_json_exact_witness :
  ∃ frames body log,
    handle_connection (corefmt := admin_fmt) (cache := ban_counter) (λ _ _, str "0.0") (λ _, []) id [] None
      [(noon, command_line (str "status"))] sample_ctx = Some (frames, set_log log sample_ctx)
    ∧ ring_repr log 8 [LogRecord_new (ck_real noon) LogTag_Debug (mkVxid 0) (str "admin: status")]
    ∧ stat_bind (@StatClient_connect plain_errors) (λ _, @StatClient_get_status plain_errors) (mkStatClient (concat frames) [])
      = Some (Ok body, mkStatClient [] (command_line (str "status")))
    ∧ parse_status_fields to_ascii_lowercase body = status_fields (cache := ban_counter) (λ _ _, str "0.0") noon sample_ctx.
Proof.
  apply (stat_json_exact (errors := plain_errors) (corefmt := admin_fmt) (cache := ban_counter) (λ _ _, str "0.0") (λ _, []) id []
    to_ascii_lowercase noon sample_ctx 8 []).
  - exact sample_log_repr.
  - vm_compute. reflexivity.
  - apply (bool_decide_unpack _). vm_compute. exact I.
Defined.

(** The numbers of that server. *)
Example sample_status_fields :
  status_fields (cache := ban_counter) (λ _ _, str "0.0") noon sample_ctx
  = {[str "uptime" := str "0h 16m 40s"; str "objects" := str "0"; str "cache_hits" := str "0";
      str "cache_misses" := str "0"; str "hit_rate" := str "0.0%"]}.
Proof. apply (bool_decide_unpack _). vm_compute. exact I. Qed.
