(* ===== verification/Startup.v ===== *)
(** * Starting the server

    Models [rv-server/src/cli.rs], [vcl_loader.rs] and [ServerRuntime::new] with
    [parse_storage_spec] of [runtime.rs]: from the command line, the configuration and
    the VCL source to the tables, stores and addresses the server runs with.  Reading
    files is an argument. *)

From S2P Require Import Prelude RustStr F64 Config Types Vary RingLog Stevedore FileStore Backend Http1 ProxyProto.
From S2P Require Import VclSyntax Lexer Parser.
Local Open Scope Z_scope.
Local Open Scope rust_scope.

(* ------------------------------------------------------------------ *)
(** ** [std::net]: socket addresses *)

Definition read_port (s : bytes) : option (Z * bytes) :=
  r ← read_given_char x3a s; read_radix_number 10 65535 (length r) true r.

(** The scope of an IPv6 address, which the model's addresses do not keep. *)
Definition read_scope_id (s : bytes) : option (Z * bytes) :=
  r ← read_given_char x25 s; read_radix_number 10 u32_max (length r) true r.

Definition read_socket_addr_v4 (s : bytes) : option (SocketAddr * bytes) :=
  '(ip, r) ← read_ipv4_addr s;
  '(port, r) ← read_port r;
  Some (mkSocketAddr (V4 ip) port, r).

Definition read_socket_addr_v6 (s : bytes) : option (SocketAddr * bytes) :=
  r ← read_given_char x5b s;
  '(ip, r) ← read_ipv6_addr r;
  let r := match read_scope_id r with Some (_, r) => r | None => r end in
  r ← read_given_char x5d r;
  '(port, r) ← read_port r;
  Some (mkSocketAddr (V6 ip) port, r).

(** [str::parse::<SocketAddr>()]: nothing may be left. *)
Definition parse_socket_addr (s : bytes) : option SocketAddr :=
  match read_socket_addr_v4 s with
  | Some (a, []) => Some a
  | Some _ => None
  | None =>
      match read_socket_addr_v6 s with
      | Some (a, []) => Some a
      | _ => None
      end
  end.

(* ------------------------------------------------------------------ *)
(** ** The command line *)

Record CliArgs : Set := mkCliArgs {
  ca_listen_addr : SocketAddr;
  ca_backend_addr : option SocketAddr;
  ca_vcl_file : option bytes;
  ca_config_file : option bytes;
  ca_storage_spec : bytes;
  ca_admin_addr : SocketAddr;
  ca_workdir : option bytes;
  ca_hash_type : bytes;
}.

Definition CliArgs_default : CliArgs :=
  mkCliArgs (mkSocketAddr (V4 0x7f000001) 6081) None None None (str "malloc,256m") (mkSocketAddr (V4 0x7f000001) 6082)
    None (str "critbit").

(** The options with a value, and what a value does. *)
Definition set_listen (v : bytes) (c : CliArgs) : CliArgs :=
  match parse_socket_addr v with
  | Some a => mkCliArgs a (ca_backend_addr c) (ca_vcl_file c) (ca_config_file c) (ca_storage_spec c) (ca_admin_addr c) (ca_workdir c) (ca_hash_type c)
  | None => c
  end.
Definition set_backend (v : bytes) (c : CliArgs) : CliArgs :=
  mkCliArgs (ca_listen_addr c) (parse_socket_addr v) (ca_vcl_file c) (ca_config_file c) (ca_storage_spec c) (ca_admin_addr c) (ca_workdir c) (ca_hash_type c).
Definition set_vcl_file (v : bytes) (c : CliArgs) : CliArgs :=
  mkCliArgs (ca_listen_addr c) (ca_backend_addr c) (Some v) (ca_config_file c) (ca_storage_spec c) (ca_admin_addr c) (ca_workdir c) (ca_hash_type c).
Definition set_config_file (v : bytes) (c : CliArgs) : CliArgs :=
  mkCliArgs (ca_listen_addr c) (ca_backend_addr c) (ca_vcl_file c) (Some v) (ca_storage_spec c) (ca_admin_addr c) (ca_workdir c) (ca_hash_type c).
Definition set_storage (v : bytes) (c : CliArgs) : CliArgs :=
  mkCliArgs (ca_listen_addr c) (ca_backend_addr c) (ca_vcl_file c) (ca_config_file c) v (ca_admin_addr c) (ca_workdir c) (ca_hash_type c).
Definition set_admin (v : bytes) (c : CliArgs) : CliArgs :=
  match parse_socket_addr v with
  | Some a => mkCliArgs (ca_listen_addr c) (ca_backend_addr c) (ca_vcl_file c) (ca_config_file c) (ca_storage_spec c) a (ca_workdir c) (ca_hash_type c)
  | None => c
  end.
Definition set_workdir (v : bytes) (c : CliArgs) : CliArgs :=
  mkCliArgs (ca_listen_addr c) (ca_backend_addr c) (ca_vcl_file c) (ca_config_file c) (ca_storage_spec c) (ca_admin_addr c) (Some v) (ca_hash_type c).

Definition value_options : list (bytes * (bytes → CliArgs → CliArgs)) :=
  [(str "-a", set_listen); (str "-b", set_backend); (str "-f", set_vcl_file); (str "-C", set_config_file);
   (str "-s", set_storage); (str "-T", set_admin); (str "-n", set_workdir)].

(** The arguments to run with, or the status the process exits with. *)
Inductive cli_outcome : Set := RunWith (c : CliArgs) | ExitWith (code : Z).

Fixpoint parse_args (args : list bytes) (c : CliArgs) : cli_outcome :=
  match args with
  | [] => RunWith c
  | arg :: args =>
      match match_str value_options arg with
      | Some set =>
          match args with
          | [] => RunWith c
          | v :: args => parse_args args (set v c)
          end
      | None =>
          match match_str [(str "-h", 0); (str "--help", 0); (str "-V", 0); (str "--version", 0)] arg with
          | Some code => ExitWith code
          | None => ExitWith 1
          end
      end
  end.

(* ------------------------------------------------------------------ *)
(** ** Backends of a VCL program *)

(** The first property of the name decides. *)
Fixpoint eval_string_property (properties : list (bytes * Expr.t)) (key : bytes) : option bytes :=
  match properties with
  | [] => None
  | (name, expr) :: properties =>
      if decide (name = key) then
        match expr with
        | Expr.StringLit s => Some s
        | Expr.IntLit i => Some (show_i64 i)
        | _ => None
        end
      else eval_string_property properties key
  end.

Definition backend_addr (decl : BackendDecl) : option (bytes * SocketAddr) :=
  let host := eval_string_property (backend_properties decl) (str "host") in
  let port := default (str "80") (eval_string_property (backend_properties decl) (str "port")) in
  match host with
  | Some host =>
      match parse_socket_addr (host ++ str ":" ++ port) with
      | Some addr => Some (backend_name decl, addr)
      | None => None
      end
  | None => None
  end.

Definition extract_backends (program : VclProgram) : list (bytes * SocketAddr) := omap backend_addr (backends program).

(* ------------------------------------------------------------------ *)
(** ** Storage and tables *)

Inductive storage : Type :=
| MallocStorage (m : Malloc.t)
| FileStorage (f : FileStevedore.t).

Inductive startup_error : Set :=
| BadConfig (msg : bytes)
| VclUnreadable (path : bytes)
| VclRejected (e : VclError)
| BadSize (e : ParseError.t)
| UnsupportedStorage (backend_type : bytes).

(** [splitn(2, ',')]: the first part, and the second if there is one. *)
Definition splitn2 (s : bytes) : bytes * option bytes :=
  match split_once [x2c] s with
  | Some (a, b) => (a, Some b)
  | None => (s, None)
  end.

Definition parse_storage_spec (spec : bytes) : result storage startup_error :=
  let '(backend_type, rest) := splitn2 spec in
  let size_spec := default (str "256m") rest in
  if decide (backend_type = str "malloc") then
    match parse_size size_spec with
    | Ok size => Ok (MallocStorage (Malloc.new (str "s0") size))
    | Err e => Err (BadSize e)
    end
  else if decide (backend_type = str "file") then
    let '(path, rest) := splitn2 size_spec in
    let size := match rest with
                | Some s => match parse_size s with Ok n => n | Err _ => 256 * 1024 * 1024 end
                | None => 256 * 1024 * 1024
                end in
    Ok (FileStorage (FileStevedore.new (str "s0") path size))
  else Err (UnsupportedStorage backend_type).

Inductive hash_kind : Set := SimpleHash | ClassicTable | CritbitTree.

Definition choose_hash (hash_type : bytes) : hash_kind :=
  default CritbitTree (match_str [(str "simple", SimpleHash); (str "classic", ClassicTable)] hash_type).

(** What the server starts with; the interpreter of the requests is made of the
    program. *)
Record ServerRuntime : Type := mkServerRuntime {
  sr_config : CacheConfig;
  sr_log : RingBuffer;
  sr_hash : hash_kind;
  sr_storage : storage;
  sr_active_vcl : option VclProgram;
  sr_drain_timeout : Z;
}.

Definition DEFAULT_DRAIN_TIMEOUT : Z := 30.

Section start.
  Context {corefmt : CoreFmt}.
  Context (load_config : bytes → result CacheConfig bytes) (read_to_string : bytes → option bytes).

(** The program of a VCL file; [None] is never reached. *)
Definition load_vcl_file (path : bytes) : option (result VclProgram startup_error) :=
  match read_to_string path with
  | None => Some (Err (VclUnreadable path))
  | Some source =>
      match load_vcl source with
      | Some (Ok program) => Some (Ok program)
      | Some (Err e) => Some (Err (VclRejected e))
      | None => None
      end
  end.

(** Without an address on the command line, the first of the program's backends. *)
Definition with_vcl_backend (program : VclProgram) (c : CliArgs) : CliArgs :=
  match ca_backend_addr c, extract_backends program with
  | None, (_, addr) :: _ =>
      mkCliArgs (ca_listen_addr c) (Some addr) (ca_vcl_file c) (ca_config_file c) (ca_storage_spec c) (ca_admin_addr c) (ca_workdir c) (ca_hash_type c)
  | _, _ => c
  end.

(** [ServerRuntime::new]; [None] is the panic of a log without room for a record. *)
Definition ServerRuntime_new (args : CliArgs) : option (result (ServerRuntime * CliArgs) startup_error) :=
  match match ca_config_file args with Some path => load_config path | None => Ok CacheConfig_default end with
  | Err e => Some (Err (BadConfig e))
  | Ok config =>
      match match ca_vcl_file args with
            | Some path =>
                match load_vcl_file path with
                | Some (Ok program) => Some (Ok (Some program, with_vcl_backend program args))
                | Some (Err e) => Some (Err e)
                | None => None
                end
            | None => Some (Ok (None, args))
            end with
      | None => None
      | Some (Err e) => Some (Err e)
      | Some (Ok (vcl, args)) =>
          let log_size := match parse_size (lg_size (cc_logging config)) with Ok n => n | Err _ => 80 * 1024 * 1024 end in
          match RingBuffer_new (log_size / 128) with
          | None => None
          | Some log =>
              let hash := choose_hash (ca_hash_type args) in
              match parse_storage_spec (ca_storage_spec args) with
              | Err e => Some (Err e)
              | Ok storage => Some (Ok (mkServerRuntime config log hash storage vcl DEFAULT_DRAIN_TIMEOUT, args))
              end
          end
      end
  end.

End start.

(* ------------------------------------------------------------------ *)
(** ** The command line is read back *)

Definition print_addr (a : SocketAddr) : bytes :=
  match sa_ip a with V4 n => print_ipv4 n | V6 _ => [] end ++ str ":" ++ show_u64 (sa_port a).

(** An IPv4 address with a port. *)
Definition addr_ok (a : SocketAddr) : Prop :=
  (match sa_ip a with V4 n => 0 ≤ n < 2 ^ 32 | V6 _ => False end) ∧ 0 ≤ sa_port a ≤ 65535.

Lemma digit_val_hex b d : digit_val b = Some d → hex_digit_val 10 b = Some d.
Proof. destruct b; vm_compute; congruence. Qed.

Lemma read_digits_parse max md s : ∀ count acc v,
  parse_digits max acc s = Some v → (count + length s ≤ md)%nat →
  read_digits_of 10 max md count acc s = Some (v, (count + length s)%nat, []).
Proof.
  induction s as [|b s IH]; intros count acc v; cbn [parse_digits read_digits_of length]; [intros [= <-] _; by rewrite Nat.add_0_r|].
  destruct (digit_val b) as [d|] eqn:Ed; [|done]. rewrite (digit_val_hex _ _ Ed).
  destruct (10 * acc + d <=? max) eqn:Em; [|done]. intros Hp Hlen. replace (acc * 10 + d) with (10 * acc + d) by lia.
  assert ((max <? 10 * acc + d) = false) as -> by (apply Z.leb_le in Em; by apply Z.ltb_ge).
  assert ((md <? S count)%nat = false) as -> by (apply Nat.ltb_ge; lia). cbn [orb].
  rewrite (IH _ _ _ Hp) by lia. do 2 f_equal. f_equal. lia.
Qed.

Lemma read_port_print p : 0 ≤ p ≤ 65535 → read_port (x3a :: show_u64 p) = Some (p, []).
Proof.
  intros Hp. unfold read_port. rewrite read_given_char_same. cbn [mbind option_bind]. unfold read_radix_number.
  assert (Hd : parse_digits 65535 0 (show_u64 p) = Some p) by (apply show_fuel_parse; simpl; lia).
  rewrite (read_digits_parse _ _ _ 0 0 p Hd) by lia. cbn [mbind option_bind].
  destruct (show_u64_cons p) as (c & s & E). rewrite E. cbn [length]. done.
Qed.

Lemma parse_print_addr a : addr_ok a → parse_socket_addr (print_addr a) = Some a.
Proof.
  destruct a as [[n|n] p]; intros [Hn Hp]; [|done]. cbn [sa_ip sa_port] in *.
  unfold parse_socket_addr, read_socket_addr_v4, print_addr. cbn [sa_ip sa_port].
  change (str ":" ++ show_u64 p) with (x3a :: show_u64 p). rewrite read_ipv4_print by done.
  cbn [mbind option_bind]. by rewrite read_port_print.
Qed.

(** The arguments that say the same as a setting. *)
Definition show_args (c : CliArgs) : list bytes :=
  [str "-a"; print_addr (ca_listen_addr c); str "-T"; print_addr (ca_admin_addr c); str "-s"; ca_storage_spec c]
  ++ match ca_backend_addr c with Some a => [str "-b"; print_addr a] | None => [] end
  ++ match ca_vcl_file c with Some f => [str "-f"; f] | None => [] end
  ++ match ca_config_file c with Some f => [str "-C"; f] | None => [] end
  ++ match ca_workdir c with Some d => [str "-n"; d] | None => [] end.

(** A setting of the server can be given on its command line: every address, file,
    store and directory is read back from its options, the hash table apart, which no
    option sets. *)
Theorem args_roundtrip c :
  addr_ok (ca_listen_addr c) → addr_ok (ca_admin_addr c) →
  match ca_backend_addr c with Some a => addr_ok a | None => True end → ca_hash_type c = str "critbit" →
  parse_args (show_args c) CliArgs_default = RunWith c.
Proof.
  destruct c as [la ba vf cf ss aa wd ht]. cbn [ca_listen_addr ca_admin_addr ca_backend_addr ca_hash_type].
  intros Hl Ha Hb ->. unfold show_args. cbn [ca_listen_addr ca_admin_addr ca_backend_addr ca_storage_spec ca_vcl_file ca_config_file ca_workdir].
  assert (Hstep : ∀ o set v rest d, match_str value_options o = Some set → parse_args (o :: v :: rest) d = parse_args rest (set v d)).
  { intros o set v rest d E. cbn [parse_args]. by rewrite E. }
  cbn [app]. rewrite (Hstep _ set_listen) by reflexivity. rewrite (Hstep _ set_admin) by reflexivity.
  rewrite (Hstep _ set_storage) by reflexivity. unfold set_listen, set_admin. rewrite !parse_print_addr by done.
  destruct ba as [a|]; [cbn [app]; rewrite (Hstep _ set_backend) by reflexivity; unfold set_backend;
    rewrite parse_print_addr by done|];
  (destruct vf; [cbn [app]; rewrite (Hstep _ set_vcl_file) by reflexivity|]);
  (destruct cf; [cbn [app]; rewrite (Hstep _ set_config_file) by reflexivity|]);
  (destruct wd; [cbn [app]; rewrite (Hstep _ set_workdir) by reflexivity|]); reflexivity.
Qed.

(** Whatever the command line, the table is the critbit tree: no option chooses
    another one. *)
Lemma hash_never_chosen args : ∀ c c',
  ca_hash_type c = str "critbit" → parse_args args c = RunWith c' → choose_hash (ca_hash_type c') = CritbitTree.
Proof.
  assert (Hset : ∀ o set v c, match_str value_options o = Some set → ca_hash_type (set v c) = ca_hash_type c).
  { intros o set v c H. apply match_str_Some in H; [|apply (bool_decide_unpack _); vm_compute; exact I].
    repeat (apply elem_of_cons in H as [[= _ ->]|H]; [unfold set_listen, set_admin; by try destruct (parse_socket_addr v)|]).
    by apply elem_of_nil in H. }
  remember (length args) as n eqn:Hn. revert args Hn. induction (lt_wf n) as [n _ IH]. intros args -> c c' Hc.
  destruct args as [|arg args]; cbn [parse_args]; [intros [= <-]; by rewrite Hc|].
  destruct (match_str value_options arg) as [set|] eqn:E.
  - destruct args as [|v args]; [intros [= <-]; by rewrite Hc|].
    apply (IH (length args)); [simpl; lia|done|]. by rewrite (Hset _ _ _ _ E).
  - by case_match; intros [=].
Qed.

(** A backend declared with an IPv4 host, and a port as a string, a number or left out
    for 80, is used with that address. *)
Lemma backend_addr_read name host port p probe :
  0 ≤ host < 2 ^ 32 → 0 ≤ p ≤ 65535 →
  port = [(str "port", Expr.StringLit (show_u64 p))] ∨ port = [(str "port", Expr.IntLit p)] ∨ port = [] ∧ p = 80 →
  backend_addr (mkBackend name ((str "host", Expr.StringLit (print_ipv4 host)) :: port) probe)
  = Some (name, mkSocketAddr (V4 host) p).
Proof.
  intros Hh Hp Hport. unfold backend_addr. cbn [backend_properties backend_name].
  assert (E1 : ∀ t, eval_string_property ((str "host", Expr.StringLit (print_ipv4 host)) :: t) (str "host") = Some (print_ipv4 host))
    by reflexivity.
  assert (E2 : ∀ t, eval_string_property ((str "host", Expr.StringLit (print_ipv4 host)) :: t) (str "port") = eval_string_property t (str "port"))
    by reflexivity.
  rewrite E1, E2. assert (default (str "80") (eval_string_property port (str "port")) = show_u64 p) as ->.
  { destruct Hport as [->|[->|[-> ->]]]; [reflexivity| |reflexivity]. cbn. unfold show_i64.
    by rewrite (proj2 (Z.ltb_ge p 0)) by lia. }
  pose proof (parse_print_addr (mkSocketAddr (V4 host) p)) as H. unfold print_addr in H. cbn [sa_ip sa_port] in H.
  rewrite H by (split; cbn; lia). done.
Qed.

(** A file store is given by its path and size, or by its path alone. *)
Lemma file_spec_read path size n :
  (x2c ∉ path) → parse_size size = Ok n →
  parse_storage_spec (str "file," ++ path ++ str "," ++ size) = Ok (FileStorage (FileStevedore.new (str "s0") path n))
  ∧ parse_storage_spec (str "file," ++ path) = Ok (FileStorage (FileStevedore.new (str "s0") path (256 * 2 ^ 20))).
Proof.
  intros Hp Hs. unfold parse_storage_spec, splitn2.
  assert (E : ∀ t, split_once [x2c] (str "file," ++ t) = Some (str "file", t)) by reflexivity.
  rewrite !E. cbn [from_option id]. rewrite !decide_False by discriminate. rewrite !decide_True by done. split.
  - change (str ",") with [x2c]. rewrite split_once_first by done. by rewrite Hs.
  - rewrite split_once_absent by done. done.
Qed.

(** A log of less than 128 bytes has no room for a record, and starting panics. *)
Example small_log_panics {corefmt : CoreFmt} read :
  let config := mkCacheConfig [] ∅ HashConfig_default TtlConfig_default ThreadPoolConfig_default TimeoutConfig_default [] ∅ ∅ None
    AdminConfig_default (mkLogConfig (str "100b") (str "binary")) FeatureFlags_default in
  ServerRuntime_new (λ _, Ok config) read (set_config_file (str "c.toml") CliArgs_default) = None.
Proof. vm_compute. reflexivity. Qed.

(** A command line with a VCL file: the server takes the program's backend, a critbit
    table and the store asked for. *)
Example sample_start :
  let fmt := {| fmt_f64 _ := []; char_debug c := [c] |} in
  let vcl := str "vcl 4.1; backend web { .host = " ++ [x22] ++ str "10.0.0.1" ++ [x22] ++ str "; .port = "
             ++ [x22] ++ str "8080" ++ [x22] ++ str "; }" in
  match parse_args [str "-f"; str "site.vcl"; str "-s"; str "file,/var/cache,1g"] CliArgs_default with
  | RunWith args =>
      match ServerRuntime_new (corefmt := fmt) (λ _, Err []) (λ _, Some vcl) args with
      | Some (Ok (rt, args)) =>
          ca_backend_addr args = Some (mkSocketAddr (V4 0x0a000001) 8080) ∧ sr_hash rt = CritbitTree
          ∧ match sr_storage rt with
            | FileStorage f => FileStevedore.path f = str "/var/cache" ∧ FileStevedore.size f = 2 ^ 30
            | MallocStorage _ => False
            end
          ∧ capacity (sr_log rt) = 655360
      | _ => False
      end
  | ExitWith _ => False
  end.
Proof. vm_compute. repeat split. Qed.

(** The command line of the container: addresses, the VCL file and the store. *)
Example compose_command :
  parse_args [str "-a"; str "0.0.0.0:6081"; str "-T"; str "0.0.0.0:6082"; str "-b"; str "172.28.0.10:8132";
              str "-f"; str "/etc/varaha-cache/docker.vcl"; str "-s"; str "malloc,256m"] CliArgs_default
  = RunWith (mkCliArgs (mkSocketAddr (V4 0) 6081) (Some (mkSocketAddr (V4 0xac1c000a) 8132)) (Some (str "/etc/varaha-cache/docker.vcl"))
      None (str "malloc,256m") (mkSocketAddr (V4 0) 6082) None (str "critbit")).
Proof. vm_compute. reflexivity. Qed.
