(* ===== verification/Loading.v ===== *)
(** * Configuration files, their watcher, TLS files

    Models [rv-config/src/loader.rs] and [watcher.rs], and [rv-transport/src/tls.rs]:
    the format of a configuration file is told by its extension; a watcher reloads it
    when its directory changes; certificates and keys are read for a TLS acceptor.
    Reading files, serde's formats, the notify crate and rustls are arguments.  Paths
    are those of a Unix system, up to the equality of [std::path::Path], which goes by
    components. *)

From S2P Require Import Prelude RustStr F64 Config Types Http1 VclSyntax Startup.
Local Open Scope Z_scope.
Local Open Scope rust_scope.

(* ------------------------------------------------------------------ *)
(** ** Paths *)

Record path : Set := mkPath { has_root : bool; components : list bytes }.

(** [Path::new]: empty components and dots go, but for a dot at the start. *)
Definition path_of (s : bytes) : path :=
  let root := starts_with [x2f] s in
  match split_char x2f s with
  | first :: rest =>
      mkPath root ((if bool_decide (first = []) then [] else [first])
                   ++ filter (λ c, c ≠ [] ∧ c ≠ [x2e]) rest)
  | [] => mkPath root []
  end.

Definition file_name (p : path) : option bytes :=
  match last (components p) with
  | Some c => if bool_decide (c = [x2e] ∨ c = [x2e; x2e]) then None else Some c
  | None => None
  end.

(** [rsplit_file_at_dot] *)
Definition rsplit_at_dot (name : bytes) : option (bytes * bytes) :=
  match split_once [x2e] (reverse name) with
  | Some (after, before) => Some (reverse before, reverse after)
  | None => None
  end.

Definition extension (p : path) : option bytes :=
  name ← file_name p;
  '(before, after) ← rsplit_at_dot name;
  if bool_decide (before = []) then None else Some after.

Definition parent (p : path) : option path :=
  match components p with
  | [] => None
  | cs => Some (mkPath (has_root p) (removelast cs))
  end.

(* ------------------------------------------------------------------ *)
(** ** Loading *)

Inductive ConfigFormat : Set := Toml | Json | Yaml.

Inductive LoadError : Set :=
| LoadIo (e : bytes)
| UnsupportedExtension (ext : bytes)
| LoadToml (e : bytes)
| LoadJson (e : bytes)
| LoadYaml (e : bytes).

Definition LoadError_display (e : LoadError) : bytes :=
  match e with
  | LoadIo e => str "I/O error reading config: " ++ e
  | UnsupportedExtension ext => str "unsupported config file extension: " ++ ext
  | LoadToml e => str "TOML parse error: " ++ e
  | LoadJson e => str "JSON parse error: " ++ e
  | LoadYaml e => str "YAML parse error: " ++ e
  end.

(** The formats' [from_str]. *)
Class SerdeFormats := {
  toml_from_str : bytes → result CacheConfig bytes;
  json_from_str : bytes → result CacheConfig bytes;
  yaml_from_str : bytes → result CacheConfig bytes;
}.

Definition map_err {A E F} (f : E → F) (r : result A E) : result A F :=
  match r with Ok a => Ok a | Err e => Err (f e) end.

Section loader.
  Context {serde : SerdeFormats} (read_to_string : bytes → result bytes bytes).

Definition load_from_str (content : bytes) (format : ConfigFormat) : result CacheConfig LoadError :=
  match format with
  | Toml => map_err LoadToml (toml_from_str content)
  | Json => map_err LoadJson (json_from_str content)
  | Yaml => map_err LoadYaml (yaml_from_str content)
  end.

Definition format_of (ext : bytes) : result ConfigFormat LoadError :=
  match match_str [(str "toml", Toml); (str "json", Json); (str "yaml", Yaml); (str "yml", Yaml)] ext with
  | Some f => Ok f
  | None => Err (UnsupportedExtension ext)
  end.

Definition load_config (p : bytes) : result CacheConfig LoadError :=
  let ext := to_ascii_lowercase (default [] (extension (path_of p))) in
  format ←? format_of ext;
  content ←? map_err LoadIo (read_to_string p);
  load_from_str content format.

End loader.

(* ------------------------------------------------------------------ *)
(** ** Watching *)

Inductive event_kind : Set := EventModify | EventCreate | EventOther.

Inductive ConfigEvent : Set :=
| ConfigReloaded (config : CacheConfig)
| VclReloaded (source : bytes)
| BackendChanged
| ParameterChanged (name value : bytes).

(** The callback of the watcher, with the file as it is then; an error of the watcher
    itself is [None]. *)
Definition on_notify {serde : SerdeFormats} (config_path : bytes) (res : option event_kind)
    (read_to_string : bytes → result bytes bytes) : list ConfigEvent :=
  match res with
  | Some EventModify | Some EventCreate =>
      match load_config read_to_string config_path with
      | Ok config => [ConfigReloaded config]
      | Err _ => []
      end
  | Some EventOther | None => []
  end.

(** The directory [ConfigWatcher::new] asks the notify crate to watch. *)
Definition watch_path (config_path : bytes) : path :=
  default (path_of [x2e]) (parent (path_of config_path)).

Definition ConfigWatcher_new (watch : path → result unit bytes) (config_path : bytes) : result bytes bytes :=
  _ ←? watch (watch_path config_path);
  Ok config_path.

(** All the watcher sends, over the events it is told of. *)
Definition watcher_sends {serde : SerdeFormats} (config_path : bytes)
    (notifications : list (option event_kind * (bytes → result bytes bytes))) : list ConfigEvent :=
  concat ((λ n, on_notify config_path n.1 n.2) <$> notifications).

(* ------------------------------------------------------------------ *)
(** ** TLS files *)

Record TlsConfig : Set := mkTlsConfig { cert_path : bytes; key_path : bytes }.

(** The files and the rustls crates. *)
Class Rustls := {
  CertificateDer : Type;
  PrivateKeyDer : Type;
  TlsServer : Type;
  file_open : bytes → result bytes bytes;
  pem_certs : bytes → result (list CertificateDer) bytes;
  pem_private_key : bytes → result (option PrivateKeyDer) bytes;
  with_single_cert : list CertificateDer → PrivateKeyDer → result TlsServer bytes;
}.

Record TlsAcceptor `{Rustls} : Type := mkAcceptor { ta_server : TlsServer; ta_alpn_protocols : list bytes }.

Section tls.
  Context {rustls : Rustls}.

Definition tls_error {A} (what : bytes) (r : result A bytes) : result A TransportError.t :=
  map_err (λ e, TransportError.Tls (what ++ e)) r.

Definition load_certs (p : bytes) : result (list CertificateDer) TransportError.t :=
  file ←? tls_error (str "failed to open cert file " ++ p ++ str ": ") (file_open p);
  certs ←? tls_error (str "failed to parse certs from " ++ p ++ str ": ") (pem_certs file);
  match certs with
  | [] => Err (TransportError.Tls (str "no certificates found in " ++ p))
  | _ => Ok certs
  end.

Definition load_private_key (p : bytes) : result PrivateKeyDer TransportError.t :=
  file ←? tls_error (str "failed to open key file " ++ p ++ str ": ") (file_open p);
  key ←? tls_error (str "failed to parse private key from " ++ p ++ str ": ") (pem_private_key file);
  match key with
  | None => Err (TransportError.Tls (str "no private key found in " ++ p))
  | Some key => Ok key
  end.

Definition build_tls_acceptor (config : TlsConfig) : result TlsAcceptor TransportError.t :=
  certs ←? load_certs (cert_path config);
  key ←? load_private_key (key_path config);
  server ←? tls_error (str "failed to build ServerConfig: ") (with_single_cert certs key);
  Ok (mkAcceptor rustls server [str "h2"; str "http/1.1"]).

End tls.

(* ------------------------------------------------------------------ *)
(** ** The format of a file *)

Lemma split_char_last c d n : c ∉ n → split_char c (d ++ c :: n) = split_char c d ++ [n].
Proof.
  intros Hn. induction d as [|x d IH]; cbn [app split_char].
  - rewrite decide_True by done. by rewrite (split_char_no_sep _ _ Hn).
  - rewrite IH. case_decide; [done|]. pose proof (split_char_nonempty c d). by destruct (split_char c d).
Qed.

Lemma path_of_last d name :
  x2f ∉ name → name ≠ [] → name ≠ [x2e] → last (components (path_of (d ++ x2f :: name))) = Some name.
Proof.
  intros Hs Hn Hd. unfold path_of. rewrite split_char_last by done.
  pose proof (split_char_nonempty x2f d). destruct (split_char x2f d) as [|first rest]; [done|]. cbn [app components].
  rewrite filter_app, filter_cons_True by done. cbn [filter list_filter]. by rewrite app_assoc, last_snoc.
Qed.

Lemma path_of_name name : x2f ∉ name → name ≠ [] → components (path_of name) = [name] ∧ has_root (path_of name) = false.
Proof.
  intros Hs Hn. unfold path_of. rewrite split_char_no_sep by done. rewrite bool_decide_eq_false_2 by done. split; [done|]. cbn.
  unfold starts_with. apply bool_decide_eq_false_2. intros [r Hr]. apply strip_prefix_Some in Hr. subst name. apply Hs. by left.
Qed.

Lemma rsplit_dot stem ext : x2e ∉ ext → rsplit_at_dot (stem ++ x2e :: ext) = Some (stem, ext).
Proof.
  intros He. unfold rsplit_at_dot. rewrite reverse_app, reverse_cons, <- app_assoc.
  rewrite (split_once_first x2e [] (reverse ext) (reverse stem)) by (by rewrite elem_of_reverse). by rewrite !reverse_involutive.
Qed.

(** The extension alone decides how a configuration file is read: for a file in any
    directory whose name has a stem and an extension without further dots, the
    extension in any case selects TOML, JSON or YAML for the file's content, and with
    any other one the file is refused without being read. *)
Theorem load_config_by_extension `{SerdeFormats} read dir stem ext :
  x2f ∉ stem → stem ≠ [] → x2f ∉ ext → x2e ∉ ext → ext ≠ [] →
  load_config read (dir ++ x2f :: stem ++ x2e :: ext)
  = match format_of (to_ascii_lowercase ext) with
    | Ok format =>
        match read (dir ++ x2f :: stem ++ x2e :: ext) with
        | Ok content => load_from_str content format
        | Err e => Err (LoadIo e)
        end
    | Err _ => Err (UnsupportedExtension (to_ascii_lowercase ext))
    end.
Proof.
  intros Hs Hn Hx He Hne. assert (Hp : extension (path_of (dir ++ x2f :: stem ++ x2e :: ext)) = Some ext).
  { unfold extension, file_name. rewrite path_of_last.
    - rewrite bool_decide_eq_false_2; [cbn [mbind option_bind]; rewrite rsplit_dot by done; cbn [mbind option_bind]; by rewrite bool_decide_eq_false_2|].
      intros E. assert (Hl : (length (stem ++ x2e :: ext) ≤ 2)%nat) by (by destruct E as [-> | ->]; cbn; lia).
      rewrite length_app in Hl. cbn in Hl. destruct stem; [done|]. destruct ext; [done|]. cbn in Hl. lia.
    - rewrite not_elem_of_app, not_elem_of_cons. by split_and!.
    - by destruct stem.
    - destruct stem as [|a [|]]; [done|discriminate..]. }
  unfold load_config. rewrite Hp. cbn [from_option default id]. unfold format_of.
  destruct (match_str _ _); cbn [result_bind]; [|done]. by destruct (read _).
Qed.

(** A bare file name has the empty path as its parent, so the directory asked for is
    the empty path, and the current directory stands in for the root alone. *)
Lemma watch_bare_name name : x2f ∉ name → name ≠ [] → watch_path name = mkPath false [].
Proof. intros Hs Hn. unfold watch_path, parent. by destruct (path_of_name name Hs Hn) as [-> ->]. Qed.

Example watch_root : watch_path [x2f] = path_of [x2e] ∧ watch_path (str "etc/cache.toml") = path_of (str "etc").
Proof. vm_compute. done. Qed.

(** What subscribers get was read from the file as it was at some event; a file that
    does not load sends nothing. *)
Lemma watcher_sends_loaded `{SerdeFormats} config_path notifications ev :
  ev ∈ watcher_sends config_path notifications →
  ∃ kind read c, (Some kind, read) ∈ notifications ∧ kind ≠ EventOther
    ∧ load_config read config_path = Ok c ∧ ev = ConfigReloaded c.
Proof.
  unfold watcher_sends. intros Hev. apply list_elem_of_In, in_concat in Hev as (l & Hl & Hin).
  apply list_elem_of_In, list_elem_of_fmap in Hl as ([k read] & -> & Hn). apply list_elem_of_In in Hin. cbn in Hin.
  destruct k as [[]|]; cbn [on_notify] in Hin; try (by apply elem_of_nil in Hin).
  all: destruct (load_config read config_path) as [c|] eqn:E; [|by apply elem_of_nil in Hin].
  all: apply list_elem_of_singleton in Hin as ->; by eexists _, read, c.
Qed.

(* ------------------------------------------------------------------ *)
(** ** TLS *)

(** An acceptor is built exactly from files that open and parse, with at least one
    certificate and a key that rustls takes, and offers HTTP/2 first. *)
Lemma build_tls_acceptor_ok `{Rustls} config acceptor :
  build_tls_acceptor config = Ok acceptor ↔
  ∃ cert_file key_file certs key server,
    file_open (cert_path config) = Ok cert_file ∧ pem_certs cert_file = Ok certs ∧ certs ≠ []
    ∧ file_open (key_path config) = Ok key_file ∧ pem_private_key key_file = Ok (Some key)
    ∧ with_single_cert certs key = Ok server ∧ acceptor = mkAcceptor _ server [str "h2"; str "http/1.1"].
Proof.
  unfold build_tls_acceptor, load_certs, load_private_key, tls_error. split.
  - destruct (file_open (cert_path config)) as [cf|]; [|discriminate]. cbn [map_err result_bind].
    destruct (pem_certs cf) as [[|c cs]|] eqn:Ec; [discriminate| |discriminate]. cbn [map_err result_bind].
    destruct (file_open (key_path config)) as [kf|]; [|discriminate]. cbn [map_err result_bind].
    destruct (pem_private_key kf) as [[key|]|] eqn:Ek; [|discriminate..]. cbn [map_err result_bind].
    destruct (with_single_cert (c :: cs) key) as [server|] eqn:Es; [|discriminate]. intros [= <-].
    by exists cf, kf, (c :: cs), key, server.
  - intros (cf & kf & certs & key & server & -> & Ec & Hne & -> & Ek & Es & ->). cbn [map_err result_bind].
    rewrite Ec. cbn [map_err result_bind]. destruct certs as [|c cs]; [done|]. cbn [result_bind]. rewrite Ek. cbn [map_err result_bind].
    by rewrite Es.
Qed.

(* ------------------------------------------------------------------ *)
(** ** A file *)

(** TOML without sections gives the defaults, the other formats nothing. *)
Definition sample_formats : SerdeFormats := {|
  toml_from_str s := if bool_decide (s = []) then Ok CacheConfig_default else Err (str "no section");
  json_from_str _ := Err (str "EOF");
  yaml_from_str _ := Err (str "EOF");
|}.

Definition sample_file (p : bytes) : result bytes bytes :=
  if bool_decide (p = str "/etc/cache.TOML") then Ok [] else Err (str "No such file or directory (os error 2)").

Lemma load_config_by_extension_witness :
  load_config (serde := sample_formats) sample_file (str "/etc" ++ x2f :: str "cache" ++ x2e :: str "TOML") = Ok CacheConfig_default
  ∧ load_config (serde := sample_formats) sample_file (str "/etc" ++ x2f :: str "cache" ++ x2e :: str "conf") = Err (UnsupportedExtension (str "conf")).
Proof.
  split.
  - rewrite (@load_config_by_extension sample_formats sample_file (str "/etc") (str "cache") (str "TOML"));
      [vm_compute; reflexivity|apply (bool_decide_unpack _); vm_compute; exact I..].
  - rewrite (@load_config_by_extension sample_formats sample_file (str "/etc") (str "cache") (str "conf"));
      [vm_compute; reflexivity|apply (bool_decide_unpack _); vm_compute; exact I..].
Defined.

(** The server does not start with a configuration of an unknown format. *)
Example start_refuses_format `{CoreFmt} :
  ServerRuntime_new (λ p, map_err LoadError_display (load_config (serde := sample_formats) sample_file p)) (λ _, None)
    (set_config_file (str "/etc/cache.conf") CliArgs_default)
  = Some (Err (BadConfig (str "unsupported config file extension: conf"))).
Proof. reflexivity. Qed.
