(* ===== verification/ToolMains.v ===== *)
(** * The command-line tools

    Models the main programs of [rv-tools/src/admin_cli.rs], [stat.rs] and
    [log_viewer.rs] on top of [Tools]: their options, what they ask the server and
    what they print.  A run gives the text on the standard output and the exit code;
    the wording of messages on the standard error is left out.  The network is given
    by what a connection yields. *)

From S2P Require Import Prelude RustStr F64 Enums Types Stevedore Ban RingLog HashSlinger Engine Backend Http1 VclSyntax.
From S2P Require Import AdminProtocol AdminCommands AdminHandler Startup Tools.
Local Open Scope Z_scope.

Record tool_run : Set := mkToolRun { tool_out : bytes; tool_code : Z }.

Definition println (s : bytes) : bytes := s ++ [x0a].

(** [{:<w$}] and [{:>w$}] *)
Definition pad_end (w : nat) (s : bytes) : bytes := s ++ replicate (w - length s) x20.
Definition pad_start (w : nat) (s : bytes) : bytes := replicate (w - length s) x20 ++ s.

(* ------------------------------------------------------------------ *)
(** ** The administration tool *)

Inductive admin_cli_args : Set :=
| AdminCliHelp
| AdminCliRun (addr : SocketAddr) (command_args : list bytes).

(** An option at the end of the line without its value is dropped. *)
Fixpoint admin_cli_options (args : list bytes) (addr : SocketAddr) : admin_cli_args :=
  match args with
  | [] => AdminCliRun addr []
  | arg :: rest =>
      match match_str [(str "-T", 0%nat); (str "-h", 1%nat); (str "--help", 1%nat)] arg with
      | Some O =>
          match rest with
          | [] => AdminCliRun addr []
          | v :: rest => admin_cli_options rest (default addr (parse_socket_addr v))
          end
      | Some _ => AdminCliHelp
      | None => AdminCliRun addr args
      end
  end.

Definition admin_cli_default : SocketAddr := mkSocketAddr (V4 0x7f000001) 6082.

(** What a connection to the server gives: none, a failure to send, or the text
    received until the server closed or the read timed out. *)
Inductive exchange : Set :=
| NotConnected
| NotSent
| ServerClosed (response : bytes)
| ReadFailed (response : bytes).

(** [send_command]: the text printed, and whether the program goes on.  Bytes that are
    not UTF-8 are dropped with the read's error. *)
Definition send_command (net : bytes → exchange) (command : bytes) : bytes * bool :=
  match net (command ++ [x0a]) with
  | NotConnected => ([], false)
  | NotSent => ([], true)
  | ServerClosed response =>
      match from_utf8 response with
      | Some [] => (println (str "(no response)"), true)
      | Some text => (text, true)
      | None => ([], true)
      end
  | ReadFailed response => (default [] (from_utf8 response), true)
  end.

(** A line of input, or the error of reading it. *)
Fixpoint admin_cli_interactive (net : bytes → exchange) (input : list (option bytes)) : tool_run :=
  let prompt := str "varnish> " in
  match input with
  | [] | None :: _ => mkToolRun prompt 0
  | Some line :: input =>
      let line := trim line in
      match line with
      | [] => let r := admin_cli_interactive net input in mkToolRun (prompt ++ tool_out r) (tool_code r)
      | _ =>
          if bool_decide (line = str "quit") || bool_decide (line = str "exit") then mkToolRun prompt 0
          else
            let '(printed, goes_on) := send_command net line in
            if goes_on then
              let r := admin_cli_interactive net input in
              mkToolRun (prompt ++ printed ++ tool_out r) (tool_code r)
            else mkToolRun (prompt ++ printed) 1
      end
  end.

Definition admin_cli_main (net : SocketAddr → bytes → exchange) (show_addr : SocketAddr → bytes) (args : list bytes)
    (input : list (option bytes)) : tool_run :=
  match admin_cli_options args admin_cli_default with
  | AdminCliHelp => mkToolRun [] 0
  | AdminCliRun addr [] =>
      let r := admin_cli_interactive (net addr) input in
      mkToolRun (println (str "rv-admin-cli - connecting to " ++ show_addr addr)
                 ++ println (str "Type 'help' for available commands, 'quit' to exit.") ++ println [] ++ tool_out r) (tool_code r)
  | AdminCliRun addr command_args =>
      let '(printed, goes_on) := send_command (net addr) (join [x20] command_args) in
      mkToolRun printed (if goes_on then 0 else 1)
  end.

(* ------------------------------------------------------------------ *)
(** ** The statistics tool *)

Record stat_args : Set := mkStatArgs {
  st_json : bool;
  st_one_shot : bool;
  st_interval : Z;
  st_admin_addr : option SocketAddr;
  st_secret : option bytes;
}.

Definition stat_args_default : stat_args := mkStatArgs false false 1 None None.

Inductive stat_outcome : Set :=
| StatHelp
| StatUnknown
| StatRun (a : stat_args).

(** Flags, then options with a value; a value that is missing leaves the default. *)
Fixpoint stat_options (args : list bytes) (a : stat_args) : stat_outcome :=
  match args with
  | [] => StatRun a
  | arg :: rest =>
      if bool_decide (arg = str "-j") then stat_options rest (mkStatArgs true (st_one_shot a) (st_interval a) (st_admin_addr a) (st_secret a))
      else if bool_decide (arg = str "-1") then stat_options rest (mkStatArgs (st_json a) true (st_interval a) (st_admin_addr a) (st_secret a))
      else if bool_decide (arg = str "-n") then
        match rest with
        | [] => StatRun a
        | v :: rest => stat_options rest (mkStatArgs (st_json a) (st_one_shot a) (default 1 (parse_u64 v)) (st_admin_addr a) (st_secret a))
        end
      else if bool_decide (arg = str "-T") then
        match rest with
        | [] => StatRun a
        | v :: rest => stat_options rest (mkStatArgs (st_json a) (st_one_shot a) (st_interval a) (parse_socket_addr v) (st_secret a))
        end
      else if bool_decide (arg = str "-S") then
        match rest with
        | [] => StatRun a
        | v :: rest => stat_options rest (mkStatArgs (st_json a) (st_one_shot a) (st_interval a) (st_admin_addr a) (Some v))
        end
      else if bool_decide (arg = str "-h") || bool_decide (arg = str "--help") then StatHelp
      else StatUnknown
  end.

Definition stat_row (name value rate : bytes) : bytes :=
  println (pad_end 30 name ++ str " " ++ pad_start 12 value ++ str " " ++ pad_start 8 rate).

(** [print_stats] in its tabular form: the figures are constants. *)
Definition print_stats_table : bytes :=
  stat_row (str "COUNTER") (str "VALUE") (str "RATE") ++ println (replicate 54 x2d)
  ++ concat ((λ n, stat_row n (str "0") (str "0/s"))
       <$> [str "cache_hit"; str "cache_miss"; str "cache_pass"; str "cache_hit_for_pass"; str "cache_hit_grace";
            str "backend_fetches"; str "evictions"])
  ++ concat ((λ n, stat_row n (str "0") (str ".")) <$> [str "n_objects"; str "n_expired"; str "bytes_stored"])
  ++ println [] ++ println (str "Hit rate: 0.00%").

(** The head of a screen. *)
Definition clear_screen : bytes :=
  x1b :: str "[2J" ++ x1b :: str "[H"
  ++ println (str "varaha-cache statistics - press Ctrl+C to quit")
  ++ println (str "==============================================") ++ println [].

Section stat.
  Context {errors : StdErrors} (sha256 : bytes → bytes) (to_lowercase : bytes → bytes).
  Context (json_pretty : gmap bytes bytes → bytes).

(** [run_with_admin] over the bytes the server sends; without [-1] or [-j] the screen is
    drawn once for each of [rounds], the tool being stopped then.  [None] is a panic. *)
Fixpoint stat_screens (rounds : nat) (c : StatClient) : option tool_run :=
  match rounds with
  | O => Some (mkToolRun [] 0)
  | S rounds =>
      match StatClient_get_status c with
      | None => None
      | Some (Ok status, c) =>
          r ← stat_screens rounds c;
          Some (mkToolRun (clear_screen ++ println status ++ tool_out r) (tool_code r))
      | Some (Err _, _) => Some (mkToolRun clear_screen 1)
      end
  end.

Definition run_with_admin (incoming : option bytes) (secret : option bytes) (json_mode one_shot : bool) (rounds : nat) :
    option tool_run :=
  match incoming with
  | None => Some (mkToolRun [] 1)
  | Some incoming =>
      let connect :=
        match secret with Some s => StatClient_connect_with_auth sha256 s | None => StatClient_connect end in
      match connect (mkStatClient incoming []) with
      | None => None
      | Some (Err _, _) => Some (mkToolRun [] 1)
      | Some (Ok _, c) =>
          if one_shot || json_mode then
            match StatClient_get_status c with
            | None => None
            | Some (Err _, _) => Some (mkToolRun [] 1)
            | Some (Ok status, _) =>
                Some (mkToolRun (println (if json_mode then json_pretty (parse_status_fields to_lowercase status) else status)) 0)
            end
          else stat_screens rounds c
      end
  end.

End stat.

(* ------------------------------------------------------------------ *)
(** ** The log viewer *)

Record viewer_args : Set := mkViewerArgs { va_tag : option bytes; va_count : option Z; va_follow : bool }.

Inductive viewer_outcome : Set :=
| ViewerHelp
| ViewerUnknown
| ViewerRun (a : viewer_args).

Fixpoint viewer_options (args : list bytes) (a : viewer_args) : viewer_outcome :=
  match args with
  | [] => ViewerRun a
  | arg :: rest =>
      if bool_decide (arg = str "-t") then
        match rest with
        | [] => ViewerRun a
        | v :: rest => viewer_options rest (mkViewerArgs (Some v) (va_count a) (va_follow a))
        end
      else if bool_decide (arg = str "-n") then
        match rest with
        | [] => ViewerRun a
        | v :: rest => viewer_options rest (mkViewerArgs (va_tag a) (parse_u64 v) (va_follow a))
        end
      else if bool_decide (arg = str "-f") then viewer_options rest (mkViewerArgs (va_tag a) (va_count a) true)
      else if bool_decide (arg = str "-h") || bool_decide (arg = str "--help") then ViewerHelp
      else ViewerUnknown
  end.

Section viewer.
  Context (fmt_fixed : nat → f64 → bytes).

Definition print_entries (tag : option bytes) (entries : list bytes) : bytes :=
  concat (println <$> filter (λ e, viewer_shown tag e = true) entries).

(** The rounds of the follow mode. *)
Fixpoint viewer_follow (rounds : nat) (tag : option bytes) (r : LogReader) (b : RingBuffer) : option bytes :=
  match rounds with
  | O => Some []
  | S rounds =>
      '(entries, r) ← LogViewer_read_new fmt_fixed r b;
      out ← viewer_follow rounds tag r b;
      Some (print_entries tag entries ++ out)
  end.

(** The main program over the buffer it looks at. *)
Definition viewer_show (a : viewer_args) (rounds : nat) (b : RingBuffer) : option bytes :=
  match va_count a with
  | Some count => entries ← LogViewer_tail fmt_fixed count b; Some (print_entries (va_tag a) entries)
  | None =>
      if va_follow a then
        out ← viewer_follow rounds (va_tag a) LogReader_from_start b;
        Some (println (str "Following log output (Ctrl+C to stop)...") ++ out)
      else
        entries ← LogViewer_read_all fmt_fixed b;
        Some (match entries with
              | [] => println (str "No log records available.")
              | _ => print_entries (va_tag a) entries
              end)
  end.

(** It makes a buffer of its own. *)
Definition viewer_main (args : list bytes) (rounds : nat) : option tool_run :=
  match viewer_options args (mkViewerArgs None None false) with
  | ViewerHelp => Some (mkToolRun [] 0)
  | ViewerUnknown => Some (mkToolRun [] 1)
  | ViewerRun a => b ← RingBuffer_new 8192; out ← viewer_show a rounds b; Some (mkToolRun out 0)
  end.

End viewer.

(* ------------------------------------------------------------------ *)
(** ** What the tools show *)

Section shows.
  Context {errors : StdErrors}.
  Context {Ip : Type} {corefmt : CoreFmt} {regex : RegexLib} {C : Type} {cache : AdminCache C}.
  Context (fmt_fixed : nat → f64 → bytes) (Regex_as_str : Regex → bytes) (sha256 : bytes → bytes) (challenge : bytes).

Definition ready_frame : bytes := encode_response (CliResponse_ok (str "varaha-cache admin CLI ready.")).

(** A command given on the command line is one session of the server: what is printed
    is the server's greeting and its answer to the words joined by spaces, whether the
    server closes or the tool gives up waiting, and the server's state is changed by
    that command alone. *)
Theorem admin_cli_session words now (x : AdminContext (Ip := Ip) (C := C)) response x' show_addr :
  line_answer fmt_fixed Regex_as_str now (join [x20] words) x = Some (response, x') →
  trim (join [x20] words) ≠ [] → quit_line (trim (join [x20] words)) = false →
  utf8_valid (ready_frame ++ encode_response response) = true →
  (∃ w ws, words = w :: ws ∧ match_str [(str "-T", 0%nat); (str "-h", 1%nat); (str "--help", 1%nat)] w = None) →
  ∃ frames, handle_connection fmt_fixed Regex_as_str sha256 challenge None [(now, join [x20] words)] x = Some (frames, x')
    ∧ (∀ closes, tool_out (admin_cli_main
         (λ _ _, if closes : bool then ServerClosed (concat frames) else ReadFailed (concat frames)) show_addr words [])
         = ready_frame ++ encode_response response).
Proof.
  intros Ha Hne Hq Hu (w & ws & -> & Hw). unfold line_answer in Ha. set (line := join [x20] (w :: ws)) in *.
  exists [ready_frame; encode_response response]. split.
  - unfold handle_connection. cbn [command_loop]. destruct (trim line) as [|b l] eqn:Et; [done|]. rewrite Hq, Ha.
    cbn [mbind option_bind]. by case_decide.
  - intros closes. unfold admin_cli_main. cbn [admin_cli_options]. rewrite Hw. fold line. unfold send_command.
    cbn [concat]. rewrite app_nil_r. unfold from_utf8. destruct closes; rewrite Hu; cbn [from_option id]; [|done].
    by destruct (ready_frame ++ encode_response response) eqn:E.
Qed.

Lemma empty_read b p : total_written b = 0 → 0 ≤ p → RingBuffer_read_from b p = Some ([], 0).
Proof. intros Ht Hp. unfold RingBuffer_read_from. rewrite Ht. by rewrite (proj2 (Z.leb_le 0 p)). Qed.

Lemma empty_follow rounds tag b : total_written b = 0 → viewer_follow fmt_fixed rounds tag LogReader_from_start b = Some [].
Proof.
  intros Ht. induction rounds as [|rounds IH]; [done|]. cbn [viewer_follow]. unfold LogViewer_read_new, LogReader_read_new.
  cbn [position LogReader_from_start]. rewrite empty_read by done. cbn [mbind option_bind].
  change (mkLogReader 0) with LogReader_from_start. by rewrite IH.
Qed.

(** The viewer looks at a buffer nothing is written to: it never prints a record. *)
Theorem viewer_shows_nothing args rounds r :
  viewer_main fmt_fixed args rounds = Some r →
  tool_out r = [] ∨ tool_out r = println (str "No log records available.")
  ∨ tool_out r = println (str "Following log output (Ctrl+C to stop)...").
Proof.
  unfold viewer_main. destruct (viewer_options args _) as [| |a]; [intros [= <-]; by left..|].
  destruct (ring_repr_new 8192) as (b & -> & _ & Hc & _ & Ht & _); [lia|]. cbn [mbind option_bind].
  unfold viewer_show, LogViewer_tail, LogReader_tail, LogViewer_read_all, LogReader_read_all. cbn in Ht.
  destruct (va_count a) as [n|].
  - rewrite Ht, Hc, empty_read; [|done|destruct (n <? _) eqn:E; [apply Z.ltb_lt in E|]; lia].
    cbn. intros [= <-]. by left.
  - destruct (va_follow a).
    + rewrite empty_follow by done. cbn. intros [= <-]. right. by right.
    + rewrite empty_read by done. cbn. intros [= <-]. right. by left.
Qed.
End shows.

(** The command line of the statistics tool, and of the administration tool. *)
Example tool_options :
  stat_options [str "-j"; str "-n"; str "x"; str "-T"; str "10.0.0.1:6082"; str "-S"] stat_args_default
  = StatRun (mkStatArgs true false 1 (Some (mkSocketAddr (V4 0x0a000001) 6082)) None)
  ∧ admin_cli_options [str "-T"; str "bad"; str "vcl.load"; str "a"; str "b c.vcl"] admin_cli_default
    = AdminCliRun admin_cli_default [str "vcl.load"; str "a"; str "b c.vcl"]
  ∧ viewer_options [str "-f"; str "-x"] (mkViewerArgs None None false) = ViewerUnknown.
Proof. vm_compute. done. Qed.

(** Words are joined by spaces without quoting, so a path with a space reaches the
    server as two words. *)
Example words_unquoted : parse_command (join [x20] [str "vcl.load"; str "a"; str "b c.vcl"])
  = parse_command (join [x20] [str "vcl.load"; str "a"; str "b"; str "c.vcl"]).
Proof. reflexivity. Qed.
